(* ===== verification/_CoqProject ===== *)
-Q . S2P
Prelude.v
CtPrims.v
Limbs.v
Codec.v
Ccopy.v
I31.v
I31Mul.v
I31Codec.v
I31Monty.v
I31Modpow.v
I31Ct.v
I31CodecCt.v
I31Opt.v
RsaPub.v
RsaPriv.v
RsaCt.v
Hash.v
Fips180.v
Sha2.v
Md5.v
Sha1.v
HashPad.v
Chacha20.v
BitExpr.v
Clmul.v
Fips197.v
AesSbox.v
AesSlice.v
AesKeys.v
Modes.v
Ghash.v
GhashMul.v
GhashOk.v
AesCt.v
AesCt64.v
AesCtModes.v
AesCt64Modes.v
Gcm.v
GcmType.v
GcmSession.v
Poly1305.v
Md5Sha1.v
Hmac.v
HmacCt.v
Hkdf.v
Prng.v
HmacDrbg.v
AesCtrDrbg.v
Mgf1.v
Prf.v
RsaPkcs1.v
Fermat.v
RsaKeys.v
RsaSsl.v
RsaSign.v
Oaep.v
RsaOaep.v
LruCode.v
LruStore.v
LruTree.v
LruList.v
Lru.v
