(* ===== verification/Prelude.v ===== *)
(** * The cryptographic core of MicroSampler's BearSSL

    MicroSampler looks for timing leaks in a processor by running the
    constant-time code of BearSSL 0.6, together with variants of its modular
    exponentiation whose conditional copy is deliberately made leaky.  This
    development models that code: the C files of
    [src/apps/bearssl-0.6/src/] (the paths below are relative to
    [src/apps/bearssl-0.6/]) for big integers, RSA, hash functions, ciphers,
    authenticated encryption, random generators and what is built on them.  It
    shows that the code computes what it should, stays inside
    its buffers, and - for the routines the measurements are about - what its
    memory accesses and branches reveal.

    ** The model of C

    [Prelude] has the vocabulary.  Unsigned words are integers, with the
    wrap-around of every operation that can leave its width written out ([u8],
    [u16], [u32], [u64]).  Arrays are lists of integers; a pointer into the
    middle of a buffer is an offset, or the array that starts there ([view],
    [region], [at_ptr]).  A function that reads or writes memory is a program of
    the monad [M]: an access outside an array has no result ([None]), and a
    result comes with its leakage, the list of the offsets accessed, the blocks
    moved and the outcomes of the branches.

    - [ok m Q]: [m] terminates, has no access outside its arrays, and its value
      is in [Q].  Every functional theorem has this form: total correctness.
    - [ct R m1 m2]: two runs leak the same trace.
    - [reveals R m1 m2]: if two runs leak the same trace, [R] holds.

    Loops are [for_up], [for_down], [for_down1] (counted) and [while], or
    fixpoints of their own where the body breaks or returns; a loop that runs
    out of fuel has no result, hence [ok] proves that the fuel is enough.  The
    fuel is the bound the code has anyway: [8 * elen + 1] turns for the window
    exponentiation, [2 * len + 1] for [encode_loop], the number of bytes plus
    one for [md_update_loop], [hkdf_loop], [drbg_loop], [mgf1_loop],
    [skip_zeros], [skip_ff], [chacha_loop], [poly_loop], the number of bytes for
    [phash_loop], the number of bits plus one for [rsa_fwlen], the number of
    entries that fit in the store plus one for the loops of the session cache.
    The loops of the block cipher modes ([cbcenc_loop], [cbcdec_loop],
    [ctr_loop] and their 64-bit versions), of GHASH ([ctmul64_loop],
    [ctmul_loop]) and of the generator over AES ([generate_loop]) have the number
    of bytes plus one, [hirose_loop] the number of bytes plus two, for the turn
    that absorbs the padding.

    ** Parts

    - [CtPrims]: the inline primitives of [src/inner.h] and the division of
      [src/int/i32_div32.c], with the variants the build options select.
    - [Limbs]: values of arrays of limbs, congruences; models no code.
    - [Codec]: [src/codec/enc*.c], [dec*.c] and the inline functions they use,
      over the class [WordCodec].
    - [Ccopy]: [src/codec/ccopy.c]: the constant-time copy and its two leaky
      variants, as functions on bytes and on the words of an integer.
    - [I31], [I31Mul], [I31Codec], [I31Monty]: the 31-bit big integers of
      [src/int/i31_*.c]; [I31CodecCt]: what the conversions and the reduction
      leak.  [residue x m n] is the invariant of the operands, a
      reduced integer of [n] limbs that announces the length of the modulus [m];
      [ival x n] is the value.
    - [I31Modpow]: the six exponentiations of [src/int/i31_modpow.c], written
      once over the class [CondCopy] of what the copy must do.  [I31Ct]: what
      they leak.  [I31Opt]: the windowed exponentiation of
      [src/int/i31_modpow2.c] with its debugging output, correctness and leakage.
    - [RsaPub], [RsaPriv]: the RSA operations [src/rsa/rsa_i31_pub.c] and
      [rsa_i31_priv.c]; [RsaCt]: what the private operation leaks.  [Fermat]:
      the number theory, with certificates of primality for concrete keys.
      [RsaKeys]: key pairs, and that the two operations are inverse.
    - [RsaPkcs1]: the signature padding; [RsaSign]: signatures, and the round
      trip from signing to verification.  [RsaSsl]: the decryption of TLS key
      exchanges ([src/rsa/rsa_ssl_decrypt.c]) over any private operation.
      [Oaep], [RsaOaep]: OAEP padding and encryption.
    - [Hash]: the interface [br_hash_class] as the classes [HashClass] (the
      operations) and [HashSpec] (the digest they compute, the relation between
      a context and the bytes injected so far, the laws), and the buffering code
      the implementations share.  [Sha2], [Md5], [Sha1], [Md5Sha1] discharge it.
      [Fips180]: the SHA-2 functions of the standard, apart from the code, with
      the constants computed from the roots of the primes; [Sha2] is proved
      against it.
    - [Hmac], [Hkdf], [HmacDrbg], [Mgf1], [Prf]: HMAC and its clients, proved
      against [HashSpec] and hence for every hash function.  [HashPad]: what the
      constant-time HMAC output of [src/mac/hmac_ct.c] needs to know of a hash
      function (the classes [HashFlags], [HashPad], [HashCt]); [HmacCt]: that
      output, for every hash function of the classes.
    - [Chacha20], [Poly1305]: the stream cipher [src/symcipher/chacha20_ct.c] and
      the authenticator with its AEAD driver [src/symcipher/poly1305_ctmul.c],
      over the class [ChachaRun] of the cipher the driver calls.
    - AES, bitsliced, models [src/symcipher/aes_ct*.c] and [aes_ct64*.c].
      [Fips197]: the cipher of the standard and the modes of SP 800-38A, apart
      from the code.  [BitExpr]: where the bits of an expression come from;
      [AesSbox]: the circuit of the S-box; [AesSlice]: blocks in bitsliced form;
      [AesKeys]: the key expansion.  [AesCt], [AesCt64]: the cipher on two blocks
      in 32-bit words and on four in 64-bit words.  [Modes]: the interfaces
      [br_block_cbcenc_class], [br_block_cbcdec_class] and [br_block_ctr_class]
      as the classes [CbcClass], [CtrClass] (the operations), [CbcSpec],
      [CtrSpec] (what they compute), [CtrCt] (what they leak) and [AesMode];
      [AesCtModes], [AesCt64Modes] discharge them.
    - [Clmul]: polynomials over GF(2) and the integer products with holes;
      [Ghash]: GHASH ([src/hash/ghash_ctmul.c], [ghash_ctmul32.c],
      [ghash_ctmul64.c]) and the class [GhashSpec] of what it promises;
      [GhashMul], [GhashOk]: the three implementations discharge it.
    - [Gcm]: [src/aead/gcm.c] over any [CtrSpec] and [GhashSpec], and the
      functions of SP 800-38D; [GcmType]: the type of its context; [GcmSession]:
      the calls of a client, sealing and opening.
    - [Prng]: the interface [br_prng_class] as the classes [PrngClass] and
      [PrngSpec]; [HmacDrbg] and [AesCtrDrbg] ([src/rand/aesctr_drbg.c], over any
      [CtrSpec]) discharge it, OAEP encryption is its client.
    - [LruCode]: the session cache [src/ssl/ssl_lru.c], a search tree and a list
      threaded in one array of bytes.  [LruStore]: the bytes as a heap of entries
      ([rep]); [LruTree]: the tree, with [plug] and [hole] for the places in it;
      [LruList]: the list; [Lru]: the invariant [lru_inv], the abstract cache
      ([sp_save], [sp_load], [sp_forget]) and the refinement.

    ** Theorems

    - Leakage: [br_i31_modpow] and its fenced version are constant-time, the v1
      and v2 variants reveal the whole exponent; the windowed exponentiation is
      constant-time but for its [printf] calls, which give the exponent away.
    - Big integers: each routine computes its arithmetic function on well-formed
      operands and keeps them well formed; the exponentiations compute
      [x^e mod m]; the quotient estimation of [br_i31_muladd_small] is within one
      unit.
    - RSA: the two operations on every branch, the padding check accepts exactly
      the encoded messages, a signature verifies under the public key of its pair,
      OAEP decryption recovers what OAEP encryption was given.  The private
      operation leaks nothing of its operand, and the decryption of a key exchange
      is no padding oracle.
    - Hashing: the four families output the digests of FIPS 180-4 and RFC 1321
      for every cutting of the message in chunks; HMAC, HKDF, the generator, the
      mask and the TLS functions are the ones of their standards; HMAC_DRBG
      refines the abstract machine of SP 800-90A.
    - TLS records: the constant-time HMAC output computes the HMAC of the bytes
      up to a secret length and leaks the bounds of the length only.  ChaCha20 is
      the cipher of RFC 8439, and the Poly1305 driver encrypts and authenticates
      as the RFC says and leaks nothing but lengths - save for the tags of the
      messages on which its last carry is added once instead of five times.
    - AES: both implementations compute the cipher of FIPS 197 and the modes of
      SP 800-38A, decryption gives back what was encrypted, and the runs leak the
      lengths only.  They agree but for the counter that CTR returns after a
      partial block; with the one of the 64-bit code two short requests in a row
      use one key stream.
    - GCM: the implementations of GHASH compute the field product of SP 800-38D;
      sealing and opening compute its functions for every cutting of the data,
      opening accepts exactly the right tags, the client of one implementation
      reads what another one sealed, any order of the calls keeps the context
      well formed, and the runs leak the lengths only.
    - AESCTR_DRBG refines an abstract machine; over the 64-bit AES two short
      requests in a row get the same bytes.
    - Session cache: every call keeps the invariant of the store, any sequence of
      calls refines a list of sessions in the order of their last use, a session
      is kept until the capacity of the cache is used up by others, the search
      ends.
    - Codecs: layouts and round trips.

    ** Modelling choices

    Buffers on the C stack that are read before they are written completely (the
    blocks that CBC over the 64-bit AES does not fill) are arguments of the model,
    and the theorems hold for every contents.  [int] and [long] counters never leave their range and are
    plain integers.  Two array arguments of a model function are distinct
    buffers, save where the definition says otherwise (the slots of one buffer in
    [I31Opt], [RsaPriv]).  Leakage is at the level of the C source: a compiler or
    a processor may add to it, which is what MicroSampler measures.

    ** Not modelled

    - The TLS engine, the records, the handshake and the X.509 and PEM decoders:
      their C is generated from the [.t0] sources or driven by the generated code.
    - The elliptic curves; the big integers with other limbs (i15, i32, i62); RSA
      key generation and the recovery of exponents.
    - The other implementations of modelled functions: AES over tables and with
      the instructions of x86 and POWER8, the combined CTR and CBC-MAC of AES,
      GHASH with carry-less multiplication instructions, ChaCha20 with SSE2,
      Poly1305 with other limbs.  DES, and the modes CCM and EAX.
    - The hashing of one message with several functions, the selection of
      implementations and the system random source.
    - The programs of MicroSampler that call one exponentiation, the samples,
      tools and tests of BearSSL, the RISC-V tests, and the Python and shell
      scripts that run the simulations and process their logs. *)
From stdpp Require Import base tactics list numbers option.
From Stdlib Require Import ZArith Lia.
Local Open Scope Z_scope.

(** * Machine words *)

(** [uN x] is the conversion of an integer to the C type [uintN_t]. *)
Definition u8 (x : Z) : Z := x mod 2 ^ 8.
Definition u16 (x : Z) : Z := x mod 2 ^ 16.
Definition u32 (x : Z) : Z := x mod 2 ^ 32.
Definition u64 (x : Z) : Z := x mod 2 ^ 64.

(** [s32 x] is the conversion of an integer to [int32_t] (two's complement). *)
Definition s32 (x : Z) : Z := (x + 2 ^ 31) mod 2 ^ 32 - 2 ^ 31.

(** [word w x]: [x] fits in [w] bits. *)
Definition word (w x : Z) : Prop := 0 <= x < 2 ^ w.

#[export] Instance word_dec w x : Decision (word w x).
Proof. unfold word. apply _. Defined.

(** C's [0/1] booleans. *)
Definition b2z (b : bool) : Z := if b then 1 else 0.

(** Infix notations for the C operators on unsigned words: the right shift and
    the bitwise connectives never leave the word, the left shift is truncated
    explicitly where it is used. *)
Declare Scope cword_scope.
Delimit Scope cword_scope with cw.
Notation "x >> n" := (Z.shiftr x n) (at level 45, left associativity) : cword_scope.
Notation "x << n" := (Z.shiftl x n) (at level 45, left associativity) : cword_scope.
Notation "x .& y" := (Z.land x y) (at level 47, left associativity) : cword_scope.
Notation "x .^ y" := (Z.lxor x y) (at level 48, left associativity) : cword_scope.
Notation "x .| y" := (Z.lor x y) (at level 49, left associativity) : cword_scope.

(** * Arrays *)

(** An array is a list of integers.  [get] and [upd] are the unchecked
    accesses used in specifications; the programs use [load] and [store]. *)
Abbreviation zlen a := (Z.of_nat (length a)).
Definition get (a : list Z) (i : Z) : Z := nth (Z.to_nat i) a 0.
Definition upd (a : list Z) (i v : Z) : list Z := <[Z.to_nat i := v]> a.

(** [blit d dp s sp n]: the array [d] with the [n] cells from [dp] replaced by
    those of [s] from [sp] ([memcpy], [memmove]). *)
Definition blit (d : list Z) (dp : Z) (s : list Z) (sp n : Z) : list Z :=
  take (Z.to_nat dp) d ++ take (Z.to_nat n) (drop (Z.to_nat sp) s)
    ++ drop (Z.to_nat (dp + n)) d.

(** [fillz d dp v n]: [n] cells of [d] from [dp] set to [v] ([memset]). *)
Definition fillz (d : list Z) (dp v n : Z) : list Z :=
  take (Z.to_nat dp) d ++ replicate (Z.to_nat n) v ++ drop (Z.to_nat (dp + n)) d.

(** * The monad of C computations

    A computation either has undefined behaviour (an access outside its array,
    [None]) or gives a value, together with what it leaks: the list of the
    offsets it reads and writes, of the block moves and of the outcomes of its
    branches, in order. *)
Inductive event :=
  | Ld (i : Z)          (* read of the cell [i] of an array *)
  | St (i : Z)          (* write of the cell [i] of an array *)
  | Mv (dp sp n : Z)    (* block move or fill of [n] cells *)
  | Br (b : bool)       (* outcome of a branch *)
  | Fence               (* fence instruction *)
  | Ptr (o : Z)         (* pointer to the cell [o] of an array *)
  | Out (v : Z).        (* value printed *)

#[export] Instance event_eq_dec : EqDecision event.
Proof. solve_decision. Defined.

Definition M (A : Type) : Type := option (list event * A).

#[export] Instance M_ret : MRet M := fun A x => Some ([], x).
#[export] Instance M_bind : MBind M := fun A B f m =>
  match m with
  | Some (t, x) =>
      match f x with
      | Some (t', y) => Some (t ++ t', y)
      | None => None
      end
  | None => None
  end.

Definition tick (e : event) : M unit := Some ([e], ()).

Definition in_range (a : list Z) (i n : Z) : bool :=
  (0 <=? i) && (0 <=? n) && (i + n <=? zlen a).

Definition load (a : list Z) (i : Z) : M Z :=
  if in_range a i 1 then Some ([Ld i], get a i) else None.
Definition store (a : list Z) (i v : Z) : M (list Z) :=
  if in_range a i 1 then Some ([St i], upd a i v) else None.
Definition memcpy (d : list Z) (dp : Z) (s : list Z) (sp n : Z) : M (list Z) :=
  if in_range d dp n && in_range s sp n
  then Some ([Mv dp sp n], blit d dp s sp n) else None.
Definition memset (d : list Z) (dp v n : Z) : M (list Z) :=
  if in_range d dp n then Some ([Mv dp 0 n], fillz d dp v n) else None.

(** The array that starts at the cell [o] of another one, and a call on it: its
    result replaces the cells from [o].  [region a o n] is the buffer of [n]
    cells of [a] at [o]: accesses outside it are undefined. *)
Definition view (a : list Z) (o : Z) : M (list Z) :=
  if in_range a o 0 then Some ([Ptr o], drop (Z.to_nat o) a) else None.
Definition region (a : list Z) (o n : Z) : M (list Z) :=
  if in_range a o n then Some ([Ptr o], take (Z.to_nat n) (drop (Z.to_nat o) a)) else None.
Definition splice (a : list Z) (o : Z) (d : list Z) : list Z := take (Z.to_nat o) a ++ d.
Definition at_ptr (a : list Z) (o : Z) (f : list Z -> M (list Z)) : M (list Z) :=
  v ← view a o;
  d ← f v;
  mret (splice a o d).

(** A branch on [b], whose outcome leaks.  The alternatives are functions, so
    that an evaluation runs the one that is taken only. *)
Definition cond {A} (b : bool) (m1 m2 : unit -> M A) : M A :=
  tick (Br b);; if b then m1 () else m2 ().
Notation "'If' b 'Then' m1 'Else' m2" := (cond b (fun _ => m1) (fun _ => m2))
  (at level 10, b at level 100, m1 at level 200, m2 at level 200).

(** Counted loops: [n] turns with the counter at [i], [i+step], ... *)
Fixpoint for_n {S} (n : nat) (i step : Z) (body : Z -> S -> M S) (s : S) : M S :=
  match n with
  | O => tick (Br false);; mret s
  | Datatypes.S n' =>
      tick (Br true);; s' ← body i s; for_n n' (i + step) step body s'
  end.

(** [for (i = lo; i < hi; i ++)] *)
Definition for_up {S} (lo hi : Z) (body : Z -> S -> M S) (s : S) : M S :=
  for_n (Z.to_nat (hi - lo)) lo 1 body s.

(** [i = hi; while (i -- > 0)] *)
Definition for_down {S} (hi : Z) (body : Z -> S -> M S) (s : S) : M S :=
  for_n (Z.to_nat hi) (hi - 1) (-1) body s.

(** [for (i = hi; i > 0; i --)] *)
Definition for_down1 {S} (hi : Z) (body : Z -> S -> M S) (s : S) : M S :=
  for_n (Z.to_nat hi) hi (-1) body s.

(** [while (test) body], undefined when it takes [fuel] turns or more. *)
Fixpoint while {S} (fuel : nat) (test : S -> bool) (body : S -> M S) (s : S) : M S :=
  match fuel with
  | O => None
  | Datatypes.S fuel' =>
      If test s Then (s' ← body s; while fuel' test body s') Else mret s
  end.

(** * Total correctness

    [ok m Q]: the computation [m] has defined behaviour and its value is in
    [Q].  A theorem of this form says that the code terminates, stays inside
    its arrays and returns a value of [Q]. *)
Definition ok {A} (m : M A) (Q : A -> Prop) : Prop :=
  match m with Some (_, x) => Q x | None => False end.

Lemma ok_ret {A} (x : A) (Q : A -> Prop) : Q x -> ok (mret x) Q.
Proof. done. Qed.

Lemma ok_bind {A B} (m : M A) (f : A -> M B) (Q : B -> Prop) :
  ok m (fun x => ok (f x) Q) -> ok (m ≫= f) Q.
Proof.
  unfold ok. destruct m as [[t x]|]; [|done]. simpl.
  destruct (f x) as [[t' y]|]; done.
Qed.

Section Ok.
Context {A : Type}.
Implicit Types (m : M A) (P Q : A -> Prop).

Lemma ok_mono m P Q : ok m P -> (forall x, P x -> Q x) -> ok m Q.
Proof. destruct m as [[t x]|]; simpl; auto. Qed.

Lemma ok_cond (b : bool) (m1 m2 : unit -> M A) Q :
  (b = true -> ok (m1 ()) Q) -> (b = false -> ok (m2 ()) Q) -> ok (cond b m1 m2) Q.
Proof.
  intros H1 H2. unfold cond. apply (ok_bind (A:=unit)). simpl.
  destruct b; auto.
Qed.

Lemma ok_and m P Q : ok m P -> ok m Q -> ok m (fun x => P x /\ Q x).
Proof. destruct m as [[t x]|]; simpl; auto. Qed.

Lemma ok_inv m Q : ok m Q -> exists t x, m = Some (t, x) /\ Q x.
Proof. destruct m as [[t x]|]; simpl; [eauto|done]. Qed.
End Ok.

(** The value of a computation, with the equation. *)
Lemma ok_self {A} (m : M A) (Q : A -> Prop) : ok m Q -> ok m (fun x => Q x /\ exists t, m = Some (t, x)).
Proof. destruct m as [[t x]|]; simpl; [eauto|done]. Qed.

Lemma ok_bind' {A B} (m : M A) (f : A -> M B) (Q : B -> Prop) :
  ok (m ≫= f) Q -> ok m (fun x => ok (f x) Q).
Proof.
  destruct m as [[t x]|]; [|done]. simpl. destruct (f x) as [[t' y]|]; done.
Qed.

Lemma ok_assoc {A B C} (m : M A) (f : A -> M B) (g : B -> M C) (Q : C -> Prop) :
  ok ((m ≫= f) ≫= g) Q <-> ok (m ≫= fun x => f x ≫= g) Q.
Proof.
  split; intros H.
  - apply ok_bind. apply ok_bind', ok_bind' in H. eapply ok_mono; [exact H|]. intros x. apply ok_bind.
  - apply ok_bind, ok_bind. apply ok_bind' in H. eapply ok_mono; [exact H|]. intros x. apply ok_bind'.
Qed.

Lemma in_range_true a i n :
  in_range a i n = true <-> 0 <= i /\ 0 <= n /\ i + n <= zlen a.
Proof. unfold in_range. rewrite !andb_true_iff, !Z.leb_le. tauto. Qed.

Lemma ok_load a i (Q : Z -> Prop) : 0 <= i < zlen a -> Q (get a i) -> ok (load a i) Q.
Proof.
  intros H HQ. unfold load. by rewrite (proj2 (in_range_true a i 1)) by lia.
Qed.

Lemma ok_store a i v (Q : list Z -> Prop) :
  0 <= i < zlen a -> Q (upd a i v) -> ok (store a i v) Q.
Proof.
  intros H HQ. unfold store. by rewrite (proj2 (in_range_true a i 1)) by lia.
Qed.

Lemma ok_memcpy d dp s sp n (Q : list Z -> Prop) :
  0 <= dp -> 0 <= sp -> 0 <= n -> dp + n <= zlen d -> sp + n <= zlen s ->
  Q (blit d dp s sp n) -> ok (memcpy d dp s sp n) Q.
Proof.
  intros. unfold memcpy.
  by rewrite (proj2 (in_range_true d dp n)), (proj2 (in_range_true s sp n)) by lia.
Qed.

Lemma ok_memset d dp v n (Q : list Z -> Prop) :
  0 <= dp -> 0 <= n -> dp + n <= zlen d ->
  Q (fillz d dp v n) -> ok (memset d dp v n) Q.
Proof.
  intros. unfold memset. by rewrite (proj2 (in_range_true d dp n)) by lia.
Qed.

(** The loop rules: an invariant indexed by the counter. *)
Lemma ok_for_n {S} (I : Z -> S -> Prop) n i step body s (Q : S -> Prop) :
  I i s ->
  (forall k s, 0 <= k < Z.of_nat n -> I (i + k * step) s ->
     ok (body (i + k * step) s) (I (i + (k + 1) * step))) ->
  (forall s, I (i + Z.of_nat n * step) s -> Q s) ->
  ok (for_n n i step body s) Q.
Proof.
  revert i s. induction n as [|n IH]; intros i s HI Hb HQ; cbn [for_n].
  - apply (ok_bind (A:=unit)). simpl. apply HQ. by rewrite Z.mul_0_l, Z.add_0_r.
  - apply (ok_bind (A:=unit)). simpl. apply ok_bind.
    eapply ok_mono.
    + specialize (Hb 0 s). rewrite Z.mul_0_l, Z.add_0_r in Hb. apply Hb; [lia|done].
    + intros s' Hs'. rewrite Z.add_0_l, Z.mul_1_l in Hs'.
      apply IH; [done|..].
      * intros k s'' Hk HIk.
        replace (i + step + k * step) with (i + (k + 1) * step) in * by lia.
        replace (i + step + (k + 1) * step) with (i + (k + 1 + 1) * step) by lia.
        apply Hb; [lia|done].
      * intros s'' Hs''. apply HQ. rewrite Nat2Z.inj_succ.
        by replace (i + Z.succ (Z.of_nat n) * step)
          with (i + step + Z.of_nat n * step) by lia.
Qed.

Lemma ok_for_up {S} (I : Z -> S -> Prop) lo hi body s (Q : S -> Prop) :
  lo <= hi ->
  I lo s ->
  (forall i s, lo <= i < hi -> I i s -> ok (body i s) (I (i + 1))) ->
  (forall s, I hi s -> Q s) ->
  ok (for_up lo hi body s) Q.
Proof.
  intros Hle HI Hb HQ. unfold for_up. apply (ok_for_n I).
  - done.
  - intros k s' Hk HIk. rewrite Z.mul_1_r in *.
    replace (lo + (k + 1) * 1) with (lo + k + 1) by lia. apply Hb; [lia|done].
  - intros s' Hs'. apply HQ. by replace (lo + Z.of_nat (Z.to_nat (hi - lo)) * 1)
      with hi in Hs' by lia.
Qed.

Lemma ok_for_down {S} (I : Z -> S -> Prop) hi body s (Q : S -> Prop) :
  0 <= hi ->
  I hi s ->
  (forall i s, 0 <= i < hi -> I (i + 1) s -> ok (body i s) (I i)) ->
  (forall s, I 0 s -> Q s) ->
  ok (for_down hi body s) Q.
Proof.
  intros Hle HI Hb HQ. unfold for_down. apply (ok_for_n (fun i => I (i + 1))).
  - by replace (hi - 1 + 1) with hi by lia.
  - intros k s' Hk HIk.
    replace (hi - 1 + (k + 1) * -1 + 1) with (hi - 1 + k * -1) by lia.
    apply Hb; [lia|done].
  - intros s' Hs'. apply HQ.
    by replace (hi - 1 + Z.of_nat (Z.to_nat hi) * -1 + 1) with 0 in Hs' by lia.
Qed.

Lemma ok_for_down1 {S} (I : Z -> S -> Prop) hi body s (Q : S -> Prop) :
  0 <= hi ->
  I hi s ->
  (forall i s, 0 < i <= hi -> I i s -> ok (body i s) (I (i - 1))) ->
  (forall s, I 0 s -> Q s) ->
  ok (for_down1 hi body s) Q.
Proof.
  intros Hle HI Hb HQ. unfold for_down1. apply (ok_for_n I).
  - done.
  - intros k s' Hk HIk.
    replace (hi + (k + 1) * -1) with (hi + k * -1 - 1) by lia.
    apply Hb; [lia|done].
  - intros s' Hs'. apply HQ.
    by replace (hi + Z.of_nat (Z.to_nat hi) * -1) with 0 in Hs' by lia.
Qed.

(** A loop that decreases a measure. *)
Lemma ok_while {S} (I : S -> Prop) (mu : S -> Z) fuel test body s (Q : S -> Prop) :
  I s -> mu s < Z.of_nat fuel ->
  (forall s, I s -> test s = true -> ok (body s) (fun s' => I s' /\ 0 <= mu s' < mu s)) ->
  (forall s, I s -> test s = false -> Q s) ->
  0 <= mu s -> ok (while fuel test body s) Q.
Proof.
  intros HI Hm Hb HQ. revert s HI Hm. induction fuel as [|fuel IH]; intros s HI Hm H0; [lia|].
  cbn [while]. apply ok_cond; intros Ht.
  - apply ok_bind. eapply ok_mono; [by apply Hb|]. intros s' [HI' Hm']. apply IH; [done|lia|lia].
  - apply ok_ret. auto.
Qed.

Lemma ok_view a o (Q : list Z -> Prop) :
  0 <= o <= zlen a -> Q (drop (Z.to_nat o) a) -> ok (view a o) Q.
Proof. intros H HQ. unfold view. by rewrite (proj2 (in_range_true a o 0)) by lia. Qed.

Lemma ok_region a o n (Q : list Z -> Prop) :
  0 <= o -> 0 <= n -> o + n <= zlen a ->
  Q (take (Z.to_nat n) (drop (Z.to_nat o) a)) -> ok (region a o n) Q.
Proof. intros ??? HQ. unfold region. by rewrite (proj2 (in_range_true a o n)) by lia. Qed.

Lemma ok_at_ptr a o f (Q : list Z -> Prop) :
  0 <= o <= zlen a -> ok (f (drop (Z.to_nat o) a)) (fun d => Q (splice a o d)) -> ok (at_ptr a o f) Q.
Proof. intros H HQ. unfold at_ptr. apply ok_bind, ok_view; [done|]. by apply ok_bind. Qed.

(** * Leakage: two runs with the same trace

    [ct R m1 m2]: whenever both computations are defined they leak the same
    trace and their values are related by [R].  With inputs that differ in
    their secrets only, this is the constant-time property. *)
Definition ct {A B} (R : A -> B -> Prop) (m1 : M A) (m2 : M B) : Prop :=
  forall t1 x1 t2 x2, m1 = Some (t1, x1) -> m2 = Some (t2, x2) -> t1 = t2 /\ R x1 x2.

(** The trace alone, for statements. *)
Definition trace {A} (m : M A) : option (list event) := fst <$> m.

Section Ct.
Context {A A' B B' : Type}.

Lemma ct_ret (R : A -> A' -> Prop) x y : R x y -> ct R (mret x) (mret y).
Proof. intros H t1 x1 t2 x2 [= <- <-] [= <- <-]. done. Qed.

Lemma ct_refl (m : M A) : ct eq m m.
Proof. intros t1 x1 t2 x2 E1 E2. rewrite E1 in E2. by injection E2. Qed.

Lemma ct_bind (R : A -> A' -> Prop) (R' : B -> B' -> Prop) m1 m2 f1 f2 :
  ct R m1 m2 -> (forall x y, R x y -> ct R' (f1 x) (f2 y)) ->
  ct R' (m1 ≫= f1) (m2 ≫= f2).
Proof.
  intros Hm Hf t1 x1 t2 x2. unfold mbind, M_bind.
  destruct m1 as [[u1 a1]|]; [|done]. destruct m2 as [[u2 a2]|]; [|done].
  destruct (Hm u1 a1 u2 a2 eq_refl eq_refl) as [-> HR].
  destruct (f1 a1) as [[v1 b1]|] eqn:E1; [|done].
  destruct (f2 a2) as [[v2 b2]|] eqn:E2; [|done].
  intros [= <- <-] [= <- <-].
  destruct (Hf a1 a2 HR v1 b1 v2 b2 E1 E2) as [-> HR']. done.
Qed.

Lemma ct_mono (R R' : A -> A' -> Prop) m1 m2 :
  ct R m1 m2 -> (forall x y, R x y -> R' x y) -> ct R' m1 m2.
Proof. intros H HR t1 x1 t2 x2 E1 E2. destruct (H _ _ _ _ E1 E2). auto. Qed.

Lemma ct_cond (R : A -> A' -> Prop) b1 b2 m1 m2 m1' m2' :
  b1 = b2 -> (b1 = true -> ct R (m1 ()) (m1' ())) -> (b1 = false -> ct R (m2 ()) (m2' ())) ->
  ct R (cond b1 m1 m2) (cond b2 m1' m2').
Proof.
  intros <- H1 H2 t1 x1 t2 x2. unfold cond, tick, mbind, M_bind.
  destruct b1.
  - destruct (m1 ()) as [[u a]|]; [|done]. destruct (m1' ()) as [[u' a']|]; [|done].
    intros [= <- <-] [= <- <-].
    destruct (H1 eq_refl _ _ _ _ eq_refl eq_refl) as [-> ?]. done.
  - destruct (m2 ()) as [[u a]|]; [|done]. destruct (m2' ()) as [[u' a']|]; [|done].
    intros [= <- <-] [= <- <-].
    destruct (H2 eq_refl _ _ _ _ eq_refl eq_refl) as [-> ?]. done.
Qed.
End Ct.

Lemma ct_tick e : ct (fun _ _ => True) (tick e) (tick e).
Proof. intros t1 x1 t2 x2 [= <- <-] [= <- <-]. done. Qed.

(** Conjoining what each run guarantees on its own ([ok]) to what the pair
    guarantees. *)
Lemma ct_ok {A A'} (R : A -> A' -> Prop) (P : A -> Prop) (P' : A' -> Prop) m1 m2 :
  ct R m1 m2 -> ok m1 P -> ok m2 P' -> ct (fun x y => R x y /\ P x /\ P' y) m1 m2.
Proof.
  intros H H1 H2 t1 x1 t2 x2 E1 E2. subst. simpl in *.
  destruct (H _ _ _ _ eq_refl eq_refl). auto.
Qed.

(** Two defined runs in the relation [ct] have equal traces. *)
Lemma ct_trace {A A'} (R : A -> A' -> Prop) (P : A -> Prop) (P' : A' -> Prop) m1 m2 :
  ct R m1 m2 -> ok m1 P -> ok m2 P' ->
  exists t, trace m1 = Some t /\ trace m2 = Some t.
Proof.
  intros H H1 H2. destruct (ok_inv _ _ H1) as (t1 & x1 & -> & _).
  destruct (ok_inv _ _ H2) as (t2 & x2 & -> & _).
  destruct (H _ _ _ _ eq_refl eq_refl) as [<- _]. exists t1. done.
Qed.

Lemma ct_load a1 a2 i j :
  i = j -> ct (fun x y => x = get a1 i /\ y = get a2 i) (load a1 i) (load a2 j).
Proof.
  intros <- t1 x1 t2 x2. unfold load. repeat case_match; try done.
  by intros [= <- <-] [= <- <-].
Qed.

Lemma ct_store a1 a2 i j v1 v2 :
  i = j -> ct (fun x y => x = upd a1 i v1 /\ y = upd a2 i v2 /\
                 0 <= i < zlen a1 /\ 0 <= i < zlen a2)
              (store a1 i v1) (store a2 j v2).
Proof.
  intros <- t1 x1 t2 x2. unfold store.
  destruct (in_range a1 i 1) eqn:E1; [|done]. destruct (in_range a2 i 1) eqn:E2; [|done].
  apply in_range_true in E1. apply in_range_true in E2.
  intros [= <- <-] [= <- <-]. split; [done|]. repeat split; lia.
Qed.

Lemma ct_memcpy d1 dp s1 sp n d2 dp' s2 sp' n' :
  dp = dp' -> sp = sp' -> n = n' ->
  ct (fun x y => x = blit d1 dp s1 sp n /\ y = blit d2 dp s2 sp n /\
        0 <= n /\ 0 <= dp /\ 0 <= sp /\
        dp + n <= zlen d1 /\ dp + n <= zlen d2 /\ sp + n <= zlen s1 /\ sp + n <= zlen s2)
     (memcpy d1 dp s1 sp n) (memcpy d2 dp' s2 sp' n').
Proof.
  intros <- <- <- t1 x1 t2 x2. unfold memcpy.
  destruct (in_range d1 dp n && _) eqn:E1; [|done].
  destruct (in_range d2 dp n && _) eqn:E2; [|done].
  apply andb_true_iff in E1, E2. rewrite !in_range_true in *.
  intros [= <- <-] [= <- <-]. split; [done|]. destruct_and!. repeat split; lia.
Qed.

Lemma ct_memset d1 dp v1 n d2 dp' v2 n' :
  dp = dp' -> n = n' ->
  ct (fun x y => x = fillz d1 dp v1 n /\ y = fillz d2 dp v2 n /\
        0 <= n /\ 0 <= dp /\ dp + n <= zlen d1 /\ dp + n <= zlen d2)
     (memset d1 dp v1 n) (memset d2 dp' v2 n').
Proof.
  intros <- <- t1 x1 t2 x2. unfold memset.
  destruct (in_range d1 dp n) eqn:E1; [|done].
  destruct (in_range d2 dp n) eqn:E2; [|done].
  rewrite in_range_true in *.
  intros [= <- <-] [= <- <-]. split; [done|]. destruct_and!. repeat split; lia.
Qed.

Lemma ct_for_n {S S'} (R : S -> S' -> Prop) n n' i i' st st' f f' s s' :
  n = n' -> i = i' -> st = st' -> R s s' ->
  (forall k x y, R x y -> ct R (f k x) (f' k y)) ->
  ct R (for_n n i st f s) (for_n n' i' st' f' s').
Proof.
  intros <- <- <- HR Hf. revert i s s' HR.
  induction n as [|n IH]; intros i s s' HR; cbn [for_n].
  - eapply ct_bind; [apply ct_tick|]. intros. by apply ct_ret.
  - eapply ct_bind; [apply ct_tick|]. intros.
    eapply ct_bind; [by apply Hf|]. intros. by apply IH.
Qed.

Lemma ct_for_up {S S'} (R : S -> S' -> Prop) lo lo' hi hi' f f' s s' :
  lo = lo' -> hi = hi' -> R s s' ->
  (forall k x y, R x y -> ct R (f k x) (f' k y)) ->
  ct R (for_up lo hi f s) (for_up lo' hi' f' s').
Proof. intros <- <- HR Hf. unfold for_up. by apply ct_for_n. Qed.

Lemma ct_for_down1 {S S'} (R : S -> S' -> Prop) hi hi' f f' s s' :
  hi = hi' -> R s s' ->
  (forall k x y, R x y -> ct R (f k x) (f' k y)) ->
  ct R (for_down1 hi f s) (for_down1 hi' f' s').
Proof. intros <- HR Hf. unfold for_down1. by apply ct_for_n. Qed.

Lemma ct_for_down {S S'} (R : S -> S' -> Prop) hi hi' f f' s s' :
  hi = hi' -> R s s' ->
  (forall k x y, R x y -> ct R (f k x) (f' k y)) ->
  ct R (for_down hi f s) (for_down hi' f' s').
Proof. intros <- HR Hf. unfold for_down. by apply ct_for_n. Qed.

(** The same with the range of the counter at hand. *)
Lemma ct_for_up_in {S S'} (R : S -> S' -> Prop) lo hi f f' s s' :
  R s s' -> (forall k x y, lo <= k < hi -> R x y -> ct R (f k x) (f' k y)) ->
  ct R (for_up lo hi f s) (for_up lo hi f' s').
Proof.
  intros HR Hf. revert s s' HR. unfold for_up. assert (Hn : lo + Z.of_nat (Z.to_nat (hi - lo)) <= Z.max lo hi) by lia.
  revert Hn Hf. generalize (Z.to_nat (hi - lo)) as n. intros n Hn Hf.
  assert (Hlo : forall k, lo <= k -> k < lo + Z.of_nat n -> lo <= k < hi) by lia. clear Hn.
  assert (HG : forall j i s s', lo <= i -> i + Z.of_nat j <= lo + Z.of_nat n -> R s s' ->
    ct R (for_n j i 1 f s) (for_n j i 1 f' s')).
  { induction j as [|j IH]; intros i s s' H1 H2 HR; cbn [for_n].
    - eapply ct_bind; [apply ct_tick|]. intros. by apply ct_ret.
    - eapply ct_bind; [apply ct_tick|]. intros.
      eapply ct_bind; [apply Hf; [apply Hlo; lia|done]|]. intros. apply IH; [lia|lia|done]. }
  intros s s' HR. apply HG; [lia|lia|done].
Qed.

Lemma ct_while {S S'} (R : S -> S' -> Prop) fuel test test' f f' s s' :
  R s s' -> (forall x y, R x y -> test x = test' y) ->
  (forall x y, R x y -> test x = true -> ct R (f x) (f' y)) ->
  ct (fun x y => R x y /\ test x = false) (while fuel test f s) (while fuel test' f' s').
Proof.
  intros HR Ht Hf. revert s s' HR. induction fuel as [|fuel IH]; intros s s' HR; [by intros ??|].
  cbn [while]. apply ct_cond; [by apply Ht|intros E|intros E; by apply ct_ret].
  eapply ct_bind; [by apply Hf|]. apply IH.
Qed.

Lemma ct_view a1 a2 o :
  ct (fun x y => x = drop (Z.to_nat o) a1 /\ y = drop (Z.to_nat o) a2) (view a1 o) (view a2 o).
Proof.
  intros t1 x1 t2 x2. unfold view. repeat case_match; try done. by intros [= <- <-] [= <- <-].
Qed.

Lemma ct_at_ptr (R : list Z -> list Z -> Prop) a1 a2 o f1 f2 :
  ct (fun x y => R (splice a1 o x) (splice a2 o y))
    (f1 (drop (Z.to_nat o) a1)) (f2 (drop (Z.to_nat o) a2)) ->
  ct R (at_ptr a1 o f1) (at_ptr a2 o f2).
Proof.
  intros H. unfold at_ptr. eapply ct_bind; [apply ct_view|]. intros x y [-> ->].
  eapply ct_bind; [exact H|]. intros. by apply ct_ret.
Qed.

(** Conversely, [reveals R m1 m2]: equal traces force [R].  The traces are
    compared as prefixes, so that the relation composes. *)
Definition reveals {A B} (R : A -> B -> Prop) (m1 : M A) (m2 : M B) : Prop :=
  forall t1 x1 t2 x2 s1 s2,
    m1 = Some (t1, x1) -> m2 = Some (t2, x2) -> t1 ++ s1 = t2 ++ s2 -> s1 = s2 /\ R x1 x2.

Section Reveals.
Context {A A' B B' : Type}.

Lemma reveals_ct (R : A -> A' -> Prop) m1 m2 : ct R m1 m2 -> reveals R m1 m2.
Proof.
  intros H t1 x1 t2 x2 s1 s2 E1 E2 E. destruct (H _ _ _ _ E1 E2) as [-> HR].
  by apply app_inv_head in E.
Qed.

Lemma reveals_bind (R : A -> A' -> Prop) (R' : B -> B' -> Prop) m1 m2 f1 f2 :
  reveals R m1 m2 -> (forall x y, R x y -> reveals R' (f1 x) (f2 y)) ->
  reveals R' (m1 ≫= f1) (m2 ≫= f2).
Proof.
  intros Hm Hf t1 x1 t2 x2 s1 s2. unfold mbind, M_bind.
  destruct m1 as [[u1 a1]|]; [|done]. destruct m2 as [[u2 a2]|]; [|done].
  destruct (f1 a1) as [[v1 b1]|] eqn:E1; [|done].
  destruct (f2 a2) as [[v2 b2]|] eqn:E2; [|done].
  intros [= <- <-] [= <- <-]. rewrite <- !app_assoc. intros E.
  destruct (Hm u1 a1 u2 a2 _ _ eq_refl eq_refl E) as [E' HR].
  by apply (Hf a1 a2 HR v1 b1 v2 b2 _ _ E1 E2 E').
Qed.

Lemma reveals_mono (R R' : A -> A' -> Prop) m1 m2 :
  reveals R m1 m2 -> (forall x y, R x y -> R' x y) -> reveals R' m1 m2.
Proof. intros H HR t1 x1 t2 x2 s1 s2 E1 E2 E. destruct (H _ _ _ _ _ _ E1 E2 E). auto. Qed.

(** A branch reveals its outcome. *)
Lemma reveals_cond (R : A -> A' -> Prop) (b1 b2 : bool) m1 m2 m1' m2' :
  (b1 = b2 -> reveals R (if b1 then m1 () else m2 ()) (if b2 then m1' () else m2' ())) ->
  reveals (fun x y => b1 = b2 /\ R x y) (cond b1 m1 m2) (cond b2 m1' m2').
Proof.
  intros H t1 x1 t2 x2 s1 s2. unfold cond, tick, mbind, M_bind.
  destruct (if b1 then m1 () else m2 ()) as [[u a]|] eqn:E1; [|done].
  destruct (if b2 then m1' () else m2' ()) as [[u' a']|] eqn:E2; [|done].
  intros [= <- <-] [= <- <-] [= Eb E].
  specialize (H Eb _ _ _ _ _ _ eq_refl eq_refl E). tauto.
Qed.

Lemma reveals_ok (R : A -> A' -> Prop) (P : A -> Prop) (P' : A' -> Prop) m1 m2 :
  reveals R m1 m2 -> ok m1 P -> ok m2 P' ->
  reveals (fun x y => R x y /\ P x /\ P' y) m1 m2.
Proof.
  intros H H1 H2 t1 x1 t2 x2 s1 s2 E1 E2 E. subst. simpl in *.
  destruct (H _ _ _ _ _ _ eq_refl eq_refl E). auto.
Qed.

(** Two defined runs with the same trace. *)
Lemma reveals_trace (R : A -> A' -> Prop) (P : A -> Prop) (P' : A' -> Prop) (Q : Prop) m1 m2 :
  reveals R m1 m2 -> ok m1 P -> ok m2 P' -> (forall x y, R x y -> Q) ->
  trace m1 = trace m2 -> Q.
Proof.
  intros H H1 H2 HQ. destruct (ok_inv _ _ H1) as (t1 & x1 & -> & _).
  destruct (ok_inv _ _ H2) as (t2 & x2 & -> & _). intros [= E].
  subst t2. destruct (H t1 x1 t1 x2 nil nil eq_refl eq_refl eq_refl) as [_ HR]. eauto.
Qed.
End Reveals.

Lemma reveals_for_n {S S'} (R : Z -> S -> S' -> Prop) n k i st f f' s s' :
  R k s s' ->
  (forall j x y, k <= j < k + Z.of_nat n -> R j x y ->
     reveals (R (j + 1)) (f (i + (j - k) * st) x) (f' (i + (j - k) * st) y)) ->
  reveals (R (k + Z.of_nat n)) (for_n n i st f s) (for_n n i st f' s').
Proof.
  revert k i s s'. induction n as [|n IH]; intros k i s s' HR Hf; cbn [for_n].
  - eapply reveals_bind; [apply reveals_ct, ct_tick|]. intros _ _ _.
    rewrite Z.add_0_r. by apply reveals_ct, ct_ret.
  - eapply reveals_bind; [apply reveals_ct, ct_tick|]. intros _ _ _.
    eapply reveals_bind.
    + specialize (Hf k s s' ltac:(lia) HR). rewrite Z.sub_diag, Z.mul_0_l, Z.add_0_r in Hf.
      exact Hf.
    + intros x y Hxy. replace (k + Z.of_nat (Datatypes.S n)) with (k + 1 + Z.of_nat n) by lia.
      apply IH; [done|]. intros j x' y' Hj HR'.
      replace (i + st + (j - (k + 1)) * st) with (i + (j - k) * st) by lia.
      apply Hf; [lia|done].
Qed.

Lemma reveals_for_up {S S'} (R : Z -> S -> S' -> Prop) lo hi f f' s s' :
  lo <= hi -> R lo s s' ->
  (forall j x y, lo <= j < hi -> R j x y -> reveals (R (j + 1)) (f j x) (f' j y)) ->
  reveals (R hi) (for_up lo hi f s) (for_up lo hi f' s').
Proof.
  intros Hle HR Hf. unfold for_up.
  replace (R hi) with (R (lo + Z.of_nat (Z.to_nat (hi - lo)))) by (f_equal; lia).
  apply reveals_for_n; [done|]. intros j x y Hj HR'.
  replace (lo + (j - lo) * 1) with j by lia. apply Hf; [lia|done].
Qed.

Lemma reveals_while {S S'} (R : S -> S' -> Prop) fuel test test' f f' s s' :
  R s s' -> (forall x y, R x y -> test x = test' y) ->
  (forall x y, R x y -> test x = true -> reveals R (f x) (f' y)) ->
  reveals (fun x y => R x y /\ test x = false) (while fuel test f s) (while fuel test' f' s').
Proof.
  intros HR Ht Hf. revert s s' HR. induction fuel as [|fuel IH]; intros s s' HR; [by intros ??|].
  cbn [while]. eapply reveals_mono; [apply reveals_cond|by intros ? ? [_ H]; exact H].
  intros E. rewrite <- E. destruct (test s) eqn:Et; [|by apply reveals_ct, ct_ret].
  eapply reveals_bind; [by apply Hf|]. apply IH.
Qed.

(** What is printed is revealed. *)
Lemma reveals_out v w : reveals (fun _ _ => v = w) (tick (Out v)) (tick (Out w)).
Proof. intros t1 x1 t2 x2 s1 s2 [= <- <-] [= <- <-] [= -> ->]. done. Qed.

(** * Array lemmas *)

Lemma get_lookup a i : get a i = default 0 (a !! Z.to_nat i).
Proof. apply nth_lookup. Qed.

Lemma get_overflow a i : zlen a <= i -> get a i = 0.
Proof. intros H. unfold get. apply nth_overflow. lia. Qed.

Lemma zlen_upd a i v : zlen (upd a i v) = zlen a.
Proof. unfold upd. by rewrite length_insert. Qed.

Lemma get_upd_eq a i v : 0 <= i < zlen a -> get (upd a i v) i = v.
Proof.
  intros H. rewrite get_lookup. unfold upd.
  rewrite list_lookup_insert_eq by lia. done.
Qed.

Lemma get_upd_ne a i j v : 0 <= i -> 0 <= j -> i <> j -> get (upd a i v) j = get a j.
Proof.
  intros. rewrite !get_lookup. unfold upd.
  rewrite list_lookup_insert_ne by lia. done.
Qed.

Lemma zlen_blit d dp s sp n :
  0 <= dp -> 0 <= sp -> 0 <= n -> dp + n <= zlen d -> sp + n <= zlen s ->
  zlen (blit d dp s sp n) = zlen d.
Proof.
  intros. unfold blit. rewrite !length_app, !length_take, !length_drop. lia.
Qed.

Lemma get_blit_in d dp s sp n i :
  0 <= dp -> 0 <= sp -> dp + n <= zlen d -> sp + n <= zlen s -> dp <= i < dp + n ->
  get (blit d dp s sp n) i = get s (sp + (i - dp)).
Proof.
  intros. rewrite !get_lookup. unfold blit.
  rewrite lookup_app_r by (rewrite length_take; lia).
  rewrite lookup_app_l by (rewrite !length_take, length_drop; lia).
  rewrite !length_take, lookup_take_lt, lookup_drop by lia. do 2 f_equal. lia.
Qed.

Lemma get_blit_out d dp s sp n i :
  0 <= dp -> 0 <= sp -> 0 <= n -> dp + n <= zlen d -> sp + n <= zlen s ->
  0 <= i -> i < dp \/ dp + n <= i -> get (blit d dp s sp n) i = get d i.
Proof.
  intros ? ? ? ? ? ? [?|?]; rewrite !get_lookup; unfold blit.
  - rewrite lookup_app_l by (rewrite length_take; lia).
    by rewrite lookup_take_lt by lia.
  - rewrite lookup_app_r by (rewrite length_take; lia).
    rewrite lookup_app_r by (rewrite !length_take, length_drop; lia).
    rewrite !length_take, length_drop, lookup_drop. do 2 f_equal. lia.
Qed.

Lemma zlen_fillz d dp v n :
  0 <= dp -> 0 <= n -> dp + n <= zlen d -> zlen (fillz d dp v n) = zlen d.
Proof.
  intros. unfold fillz. rewrite !length_app, length_take, length_replicate, length_drop. lia.
Qed.

Lemma get_fillz_in d dp v n i :
  0 <= dp -> dp + n <= zlen d -> dp <= i < dp + n -> get (fillz d dp v n) i = v.
Proof.
  intros. rewrite get_lookup. unfold fillz.
  rewrite lookup_app_r by (rewrite length_take; lia).
  rewrite lookup_app_l by (rewrite length_replicate, length_take; lia).
  rewrite length_take, lookup_replicate_2 by lia. done.
Qed.

Lemma get_fillz_out d dp v n i :
  0 <= dp -> 0 <= n -> dp + n <= zlen d -> 0 <= i -> i < dp \/ dp + n <= i ->
  get (fillz d dp v n) i = get d i.
Proof.
  intros ? ? ? ? [?|?]; rewrite !get_lookup; unfold fillz.
  - rewrite lookup_app_l by (rewrite length_take; lia).
    by rewrite lookup_take_lt by lia.
  - rewrite lookup_app_r by (rewrite length_take; lia).
    rewrite lookup_app_r by (rewrite !length_replicate, length_take; lia).
    rewrite !length_take, length_replicate, lookup_drop. do 2 f_equal. lia.
Qed.

Lemma list_eq_get a b :
  zlen a = zlen b -> (forall i, 0 <= i < zlen a -> get a i = get b i) -> a = b.
Proof.
  intros Hl Hg. apply list_eq_same_length with (length a); [lia|done|].
  intros i x y Hi Hx Hy. specialize (Hg (Z.of_nat i) ltac:(lia)).
  rewrite !get_lookup, Nat2Z.id, Hx, Hy in Hg. done.
Qed.

Lemma upd_id a i : 0 <= i < zlen a -> upd a i (get a i) = a.
Proof.
  intros. apply list_eq_get; [apply zlen_upd|]. intros j Hj. rewrite zlen_upd in Hj.
  destruct (Z.eq_dec i j) as [->|]; [by rewrite get_upd_eq by lia|].
  by rewrite get_upd_ne by lia.
Qed.

Lemma get_map_seq (f : nat -> Z) n i : 0 <= i < Z.of_nat n ->
  get (map f (seq 0 n)) i = f (Z.to_nat i).
Proof. intros. rewrite get_lookup, list_lookup_fmap, lookup_seq_lt by lia. done. Qed.

Create HintDb arr discriminated.
#[export] Hint Rewrite zlen_upd : arr.
#[export] Hint Rewrite zlen_blit zlen_fillz using lia : arr.
#[export] Hint Rewrite get_upd_eq get_upd_ne get_blit_in get_blit_out get_fillz_in
  get_fillz_out using (autorewrite with arr; lia) : arr.

(** [frame lo hi a a']: [a'] is [a] but for the cells of [lo, hi). *)
Definition frame (lo hi : Z) (a a' : list Z) : Prop :=
  zlen a' = zlen a /\ forall j, 0 <= j -> j < lo \/ hi <= j -> get a' j = get a j.

Lemma frame_refl lo hi a : frame lo hi a a.
Proof. done. Qed.

Lemma frame_trans lo hi a b c : frame lo hi a b -> frame lo hi b c -> frame lo hi a c.
Proof.
  intros [L1 G1] [L2 G2]. split; [congruence|]. intros. rewrite G2, G1 by done. done.
Qed.

Lemma frame_weaken lo hi lo' hi' a b :
  frame lo hi a b -> lo' <= lo -> hi <= hi' -> frame lo' hi' a b.
Proof. intros [L G] ? ?. split; [done|]. intros. apply G; lia. Qed.

Lemma frame_upd lo hi a i v :
  0 <= lo -> lo <= i < hi -> frame lo hi a (upd a i v).
Proof. intros. split; [apply zlen_upd|]. intros. rewrite get_upd_ne by lia. done. Qed.

Lemma frame_get lo hi a b j :
  frame lo hi a b -> 0 <= j -> j < lo \/ hi <= j -> get b j = get a j.
Proof. intros [_ G]. apply G. Qed.

Lemma frame_len lo hi a b : frame lo hi a b -> zlen b = zlen a.
Proof. by intros []. Qed.

(** Arrays inside arrays. *)
Lemma get_drop a o i : 0 <= o -> 0 <= i -> get (drop (Z.to_nat o) a) i = get a (o + i).
Proof. intros. rewrite !get_lookup, lookup_drop. do 2 f_equal. lia. Qed.

Lemma zlen_drop (a : list Z) o : 0 <= o <= zlen a -> zlen (drop (Z.to_nat o) a) = zlen a - o.
Proof. intros. rewrite length_drop. lia. Qed.

Lemma zlen_region (a : list Z) o n : 0 <= o -> 0 <= n -> o + n <= zlen a ->
  zlen (take (Z.to_nat n) (drop (Z.to_nat o) a)) = n.
Proof. intros. rewrite length_take, length_drop. lia. Qed.

Lemma get_region a o n i : 0 <= o -> 0 <= i < n ->
  get (take (Z.to_nat n) (drop (Z.to_nat o) a)) i = get a (o + i).
Proof.
  intros. rewrite !get_lookup, lookup_take_lt, lookup_drop by lia. do 2 f_equal. lia.
Qed.

Lemma drop_splice a o d : 0 <= o <= zlen a -> drop (Z.to_nat o) (splice a o d) = d.
Proof. intros. unfold splice. apply drop_app_length'. rewrite length_take. lia. Qed.

Lemma frame_splice a o lo hi d :
  0 <= o <= zlen a -> 0 <= lo -> frame lo hi (drop (Z.to_nat o) a) d ->
  frame (o + lo) (o + hi) a (splice a o d).
Proof.
  intros Ho Hlo [HL HG]. rewrite zlen_drop in HL by done. split.
  - unfold splice. rewrite length_app, length_take. lia.
  - intros j Hj Hout. destruct (Z_lt_ge_dec j o).
    + rewrite !get_lookup. unfold splice. rewrite lookup_app_l by (rewrite length_take; lia).
      by rewrite lookup_take_lt by lia.
    + replace j with (o + (j - o)) by lia. rewrite <- !get_drop, drop_splice by lia. apply HG; lia.
Qed.

(** * Arithmetic of words *)

(** [lia] with the Euclidean equations of [/] and [mod]. *)
Ltac zn := Z.to_euclidean_division_equations; lia.

Lemma shr_div x n : 0 <= n -> Z.shiftr x n = x / 2 ^ n.
Proof. intros. by apply Z.shiftr_div_pow2. Qed.

Lemma shl_mul x n : 0 <= n -> Z.shiftl x n = x * 2 ^ n.
Proof. intros. by apply Z.shiftl_mul_pow2. Qed.

(** Words cut to [w] bits. *)
Lemma mod_lxor w x y : 0 <= w -> Z.lxor x y mod 2 ^ w = Z.lxor (x mod 2 ^ w) (y mod 2 ^ w).
Proof.
  intros Hw. apply Z.bits_inj'. intros n Hn. rewrite Z.lxor_spec. destruct (Z.lt_ge_cases n w).
  - by rewrite !Z.mod_pow2_bits_low, Z.lxor_spec by lia.
  - by rewrite !Z.mod_pow2_bits_high by lia.
Qed.
Lemma mod_land w x y : 0 <= w -> Z.land x y mod 2 ^ w = Z.land (x mod 2 ^ w) (y mod 2 ^ w).
Proof.
  intros Hw. apply Z.bits_inj'. intros n Hn. rewrite Z.land_spec. destruct (Z.lt_ge_cases n w).
  - by rewrite !Z.mod_pow2_bits_low, Z.land_spec by lia.
  - by rewrite !Z.mod_pow2_bits_high by lia.
Qed.

Lemma land_mask x w : 0 <= w -> Z.land x (2 ^ w - 1) = x mod 2 ^ w.
Proof.
  intros. rewrite <- Z.land_ones by done. by rewrite Z.ones_equiv.
Qed.

Lemma lor_disjoint k a b : 0 <= k -> 0 <= a < 2 ^ k -> Z.lor a (b * 2 ^ k) = a + b * 2 ^ k.
Proof.
  intros Hk Ha. symmetry. apply Z.add_nocarry_lor.
  apply Z.bits_inj'. intros n Hn. rewrite Z.land_spec, Z.bits_0.
  destruct (Z.lt_ge_cases n k).
  - rewrite Z.mul_pow2_bits_low by done. apply andb_false_r.
  - rewrite <- (Z.mod_small a (2 ^ k)) by done.
    rewrite Z.mod_pow2_bits_high by lia. done.
Qed.

Lemma lor_disjoint' k a b : 0 <= k -> 0 <= a < 2 ^ k -> Z.lor (b * 2 ^ k) a = a + b * 2 ^ k.
Proof. intros. rewrite Z.lor_comm. by apply lor_disjoint. Qed.

Lemma word_lor w x y : 0 <= w -> word w x -> word w y -> word w (Z.lor x y).
Proof.
  unfold word. intros Hw Hx Hy. split; [apply Z.lor_nonneg; lia|].
  rewrite <- (Z.mod_small x (2 ^ w)), <- (Z.mod_small y (2 ^ w)) by done.
  rewrite <- !Z.land_ones, <- Z.land_lor_distr_l, Z.land_ones by done.
  apply Z.mod_pos_bound. lia.
Qed.

Lemma word_lxor w x y : 0 <= w -> word w x -> word w y -> word w (Z.lxor x y).
Proof.
  unfold word. intros Hw Hx Hy. split; [apply Z.lxor_nonneg; lia|].
  rewrite <- (Z.mod_small x (2 ^ w)), <- (Z.mod_small y (2 ^ w)) by done.
  rewrite <- !Z.land_ones by done.
  replace (Z.lxor _ _) with (Z.land (Z.lxor x y) (Z.ones w)).
  - rewrite Z.land_ones by done. apply Z.mod_pos_bound. lia.
  - apply Z.bits_inj'. intros n Hn. rewrite !Z.land_spec, !Z.lxor_spec, !Z.land_spec.
    by destruct (Z.testbit x n), (Z.testbit y n), (Z.testbit (Z.ones w) n).
Qed.

Lemma word_land w x y : 0 <= w -> word w x -> 0 <= y -> word w (Z.land x y).
Proof.
  unfold word. intros Hw Hx Hy. split; [apply Z.land_nonneg; lia|].
  rewrite <- (Z.mod_small x (2 ^ w)) by done.
  rewrite <- Z.land_ones, <- Z.land_assoc, (Z.land_comm (Z.ones w)), Z.land_assoc, Z.land_ones
    by done.
  apply Z.mod_pos_bound. lia.
Qed.

Lemma u8_word x : word 8 (u8 x).
Proof. unfold word, u8. apply Z.mod_pos_bound. lia. Qed.
Lemma u16_word x : word 16 (u16 x).
Proof. unfold word, u16. apply Z.mod_pos_bound. lia. Qed.
Lemma u32_word x : word 32 (u32 x).
Proof. unfold word, u32. apply Z.mod_pos_bound. lia. Qed.
Lemma u64_word x : word 64 (u64 x).
Proof. unfold word, u64. apply Z.mod_pos_bound. lia. Qed.

Lemma u8_small x : word 8 x -> u8 x = x.
Proof. apply Z.mod_small. Qed.
Lemma u16_small x : word 16 x -> u16 x = x.
Proof. apply Z.mod_small. Qed.
Lemma u32_small x : word 32 x -> u32 x = x.
Proof. apply Z.mod_small. Qed.
Lemma u64_small x : word 64 x -> u64 x = x.
Proof. apply Z.mod_small. Qed.

Create HintDb words discriminated.
#[export] Hint Resolve u8_word u16_word u32_word u64_word : words.

(** The length in bits of an integer ([0] for [0]). *)
Definition bitlen (x : Z) : Z := if x =? 0 then 0 else Z.log2 x + 1.

Lemma bitlen_le x k : 0 <= x -> 0 <= k -> bitlen x <= k <-> x < 2 ^ k.
Proof.
  intros Hx Hk. unfold bitlen. destruct (Z.eqb_spec x 0) as [->|Hn].
  - split; [intros; lia|done].
  - rewrite (Z.log2_lt_pow2 x k) by lia. lia.
Qed.

Lemma bitlen_nonneg x : 0 <= bitlen x.
Proof. unfold bitlen. case_match; [done|]. pose proof (Z.log2_nonneg x). lia. Qed.

Lemma bitlen_eq x k : 0 < k -> 2 ^ (k - 1) <= x < 2 ^ k -> bitlen x = k.
Proof.
  intros Hk Hx. assert (0 <= x) by lia.
  assert (bitlen x <= k) by (apply bitlen_le; lia).
  assert (~ bitlen x <= k - 1) by (rewrite bitlen_le by lia; lia). lia.
Qed.

Lemma bitlen_bounds x : 0 < x -> 2 ^ (bitlen x - 1) <= x < 2 ^ bitlen x.
Proof.
  intros Hx. unfold bitlen. destruct (Z.eqb_spec x 0); [lia|].
  replace (Z.log2 x + 1 - 1) with (Z.log2 x) by lia.
  pose proof (Z.log2_spec x Hx). by rewrite Z.add_1_r.
Qed.

(** Dropping the [s] low bits of a number of more than [s] bits. *)
Lemma bitlen_shift x s : 0 <= s -> 2 ^ s <= x -> bitlen x = s + bitlen (x / 2 ^ s).
Proof.
  intros Hs Hx. pose proof (Z.pow_pos_nonneg 2 s ltac:(lia) Hs).
  assert (0 < x / 2 ^ s) by (apply Z.div_str_pos; lia).
  pose proof (bitlen_bounds _ H0) as [Hl Hu].
  set (k := bitlen (x / 2 ^ s)) in *.
  assert (0 < k) by (unfold k, bitlen; case_match; [lia|]; pose proof (Z.log2_nonneg (x / 2^s)); lia).
  apply bitlen_eq; [lia|].
  replace (s + k - 1) with (s + (k - 1)) by lia. rewrite !Z.pow_add_r by lia.
  pose proof (Z.div_mod x (2 ^ s) ltac:(lia)). pose proof (Z.mod_pos_bound x (2 ^ s) ltac:(lia)).
  nia.
Qed.

(** * Symbolic execution *)

(** One step of a program under [ok]; the side conditions of the accesses are
    left when [lia] does not close them. *)
Ltac cstep :=
  lazymatch goal with
  | |- ok (mbind _ _) _ => apply ok_bind
  | |- ok (mret _) _ => apply ok_ret
  | |- ok (tick _) _ => apply ok_ret
  | |- ok (load _ _) _ => apply ok_load; [autorewrite with arr; try lia|]
  | |- ok (store _ _ _) _ => apply ok_store; [autorewrite with arr; try lia|]
  | |- ok (cond _ _ _) _ => apply ok_cond; intros
  | |- ok (let _ := _ in _) _ => cbv zeta
  | |- ok (match ?x with (_, _) => _ end) _ => destruct x
  end; cbv beta.
Ltac csteps := repeat cstep.

(** The accesses as symbolic execution of a pair of programs. *)
Section CtBind.
Context {B B' : Type} (R : B -> B' -> Prop).

Lemma ct_load_bind a1 a2 i j f1 f2 :
  i = j -> ct R (f1 (get a1 i)) (f2 (get a2 i)) -> ct R (load a1 i ≫= f1) (load a2 j ≫= f2).
Proof. intros <- H. eapply ct_bind; [by apply ct_load|]. by intros x y [-> ->]. Qed.

Lemma ct_store_bind a1 a2 i j v1 v2 f1 f2 :
  i = j -> (0 <= i < zlen a1 -> 0 <= i < zlen a2 -> ct R (f1 (upd a1 i v1)) (f2 (upd a2 i v2))) ->
  ct R (store a1 i v1 ≫= f1) (store a2 j v2 ≫= f2).
Proof. intros <- H. eapply ct_bind; [by apply ct_store|]. intros x y (-> & -> & ? & ?). auto. Qed.

Lemma ct_memcpy_bind d1 dp s1 sp n d2 dp' s2 sp' n' f1 f2 :
  dp = dp' -> sp = sp' -> n = n' ->
  (0 <= n -> 0 <= dp -> 0 <= sp -> dp + n <= zlen d1 -> dp + n <= zlen d2 ->
   sp + n <= zlen s1 -> sp + n <= zlen s2 ->
   ct R (f1 (blit d1 dp s1 sp n)) (f2 (blit d2 dp s2 sp n))) ->
  ct R (memcpy d1 dp s1 sp n ≫= f1) (memcpy d2 dp' s2 sp' n' ≫= f2).
Proof.
  intros <- <- <- H. eapply ct_bind; [by apply ct_memcpy|].
  intros x y (-> & -> & ? & ? & ? & ? & ? & ? & ?). auto.
Qed.
End CtBind.

Lemma ct_conseq {A A'} (R R' : A -> A' -> Prop) m1 m2 :
  (forall x y, R x y -> R' x y) -> ct R m1 m2 -> ct R' m1 m2.
Proof. intros. by eapply ct_mono. Qed.

(** One step of a pair of programs under [ct]. *)
Ltac ct_step :=
  lazymatch goal with
  | |- ct _ (mbind _ (load _ _)) (mbind _ (load _ _)) => apply ct_load_bind
  | |- ct _ (mbind _ (store _ _ _)) (mbind _ (store _ _ _)) => apply ct_store_bind
  | |- ct _ (mbind _ (memcpy _ _ _ _ _)) (mbind _ (memcpy _ _ _ _ _)) => apply ct_memcpy_bind
  | |- ct _ (mbind _ _) (mbind _ _) => eapply ct_bind
  | |- ct _ (mret _) (mret _) => apply ct_ret
  | |- ct _ (load _ _) (load _ _) => eapply ct_mono; [apply ct_load|]
  | |- ct _ (store _ _ _) (store _ _ _) => eapply ct_mono; [apply ct_store|]
  | |- ct _ (memcpy _ _ _ _ _) (memcpy _ _ _ _ _) => eapply ct_mono; [apply ct_memcpy|]
  | |- ct _ (memset _ _ _ _) (memset _ _ _ _) => eapply ct_mono; [apply ct_memset|]
  | |- ct _ (tick _) (tick _) => apply ct_tick
  | |- ct _ (cond _ _ _) (cond _ _ _) => apply ct_cond
  | |- ct _ (let _ := _ in _) _ => cbv zeta
  | |- ct _ _ (let _ := _ in _) => cbv zeta
  end; cbv beta.

(** Programs whose trace depends on nothing that differs between two runs. *)
Abbreviation blind := (ct (fun _ _ => True)).

Create HintDb blind discriminated.

Lemma blind_mono {A A'} (R : A -> A' -> Prop) m1 m2 : ct R m1 m2 -> blind m1 m2.
Proof. intros H. by eapply ct_mono. Qed.

Lemma blind_ret {A A'} (x : A) (y : A') : blind (mret x) (mret y).
Proof. by apply ct_ret. Qed.

Lemma blind_bind {A A' B B'} (R : B -> B' -> Prop) (m1 : M A) (m2 : M A') f1 f2 :
  blind m1 m2 -> (forall x y, ct R (f1 x) (f2 y)) -> ct R (m1 ≫= f1) (m2 ≫= f2).
Proof. intros Hm Hf. eapply ct_bind; [exact Hm|]. intros x y _. apply Hf. Qed.

Lemma blind_load a1 a2 i : blind (load a1 i) (load a2 i).
Proof. eapply blind_mono. by apply ct_load. Qed.
Lemma blind_store a1 a2 i v1 v2 : blind (store a1 i v1) (store a2 i v2).
Proof. eapply blind_mono. by apply ct_store. Qed.
Lemma blind_memcpy d1 d2 dp s1 s2 sp n : blind (memcpy d1 dp s1 sp n) (memcpy d2 dp s2 sp n).
Proof. eapply blind_mono. by apply ct_memcpy. Qed.
Lemma blind_memset d1 d2 dp v1 v2 n : blind (memset d1 dp v1 n) (memset d2 dp v2 n).
Proof. eapply blind_mono. by apply ct_memset. Qed.
Lemma blind_region a1 a2 o n : blind (region a1 o n) (region a2 o n).
Proof. intros t1 x1 t2 x2. unfold region. repeat case_match; try done. by intros [= <- <-] [= <- <-]. Qed.
Lemma blind_view a1 a2 o : blind (view a1 o) (view a2 o).
Proof. eapply blind_mono. by apply ct_view. Qed.
#[export] Hint Resolve blind_ret blind_load blind_store blind_memcpy blind_memset blind_region
  blind_view : blind.

(** Two such programs, statement by statement; the calls are in the database
    [blind]. *)
Ltac blind_step :=
  cbv beta zeta;
  lazymatch goal with
  | |- ct _ (mbind _ _) (mbind _ _) => apply blind_bind; [|intros ??]
  | |- ct _ (for_up _ _ _ _) (for_up _ _ _ _) => apply ct_for_up; [reflexivity..|exact I|intros ? ? ? _]
  | |- ct _ (for_down _ _ _) (for_down _ _ _) => apply ct_for_down; [reflexivity..|exact I|intros ? ? ? _]
  | |- ct _ (for_n _ _ _ _ _) (for_n _ _ _ _ _) => apply ct_for_n; [reflexivity..|exact I|intros ? ? ? _]
  | |- ct _ (cond _ _ _) (cond _ _ _) => apply ct_cond; [reflexivity|intros _|intros _]
  | |- ct _ (match ?x with (_, _) => _ end) (match ?y with (_, _) => _ end) => destruct x, y
  | |- ct _ (at_ptr _ _ _) (at_ptr _ _ _) => eapply ct_at_ptr
  | |- _ => solve [eauto 2 with blind nocore]
  end.
Ltac blind_auto := repeat blind_step.
