(* ===== verification/CtPrims.v ===== *)
(** Constant-time primitives of [src/inner.h] (comparisons, multiplexers,
    bit length, multiplications and shifts in their portable and their
    constant-time variants) and the constant-time division of
    [src/int/i32_div32.c].  None of them branches or reads memory, so they are
    pure functions on machine words. *)
From stdpp Require Import base tactics list numbers option.
From Stdlib Require Import ZArith Lia.
From S2P Require Import Prelude.
Local Open Scope Z_scope.
Local Open Scope cword_scope.

(** * Definitions *)

Definition NOT (ctl : Z) : Z := ctl .^ 1.

Definition MUX (ctl x y : Z) : Z := y .^ (u32 (- ctl) .& (x .^ y)).

Definition EQ (x y : Z) : Z :=
  let q := x .^ y in NOT ((q .| u32 (- q)) >> 31).

Definition NEQ (x y : Z) : Z :=
  let q := x .^ y in (q .| u32 (- q)) >> 31.

Definition GT (x y : Z) : Z :=
  let z := u32 (y - x) in (z .^ ((x .^ y) .& (x .^ z))) >> 31.

Definition GE (x y : Z) : Z := NOT (GT y x).
Definition LT (x y : Z) : Z := GT y x.
Definition LE (x y : Z) : Z := NOT (GT x y).

(** The result of [CMP] is an [int32_t]. *)
Definition CMP (x y : Z) : Z := s32 (GT x y) .| (- s32 (GT y x)).

(** The arguments of the next five functions are [int32_t]; [~q] on a
    [uint32_t] is [u32 (Z.lnot q)]. *)
Definition EQ0 (x : Z) : Z :=
  let q := u32 x in u32 (Z.lnot (q .| u32 (- q))) >> 31.

Definition GT0 (x : Z) : Z :=
  let q := u32 x in (u32 (Z.lnot q) .& u32 (- q)) >> 31.

Definition GE0 (x : Z) : Z := u32 (Z.lnot (u32 x)) >> 31.

Definition LT0 (x : Z) : Z := u32 x >> 31.

Definition LE0 (x : Z) : Z :=
  let q := u32 x in (q .| u32 (Z.lnot (u32 (- q)))) >> 31.

Definition BIT_LENGTH (x : Z) : Z :=
  let k := NEQ x 0 in
  let c := GT x 0xFFFF in let x := MUX c (x >> 16) x in let k := u32 (k + u32 (c << 4)) in
  let c := GT x 0x00FF in let x := MUX c (x >> 8) x in let k := u32 (k + u32 (c << 3)) in
  let c := GT x 0x000F in let x := MUX c (x >> 4) x in let k := u32 (k + u32 (c << 2)) in
  let c := GT x 0x0003 in let x := MUX c (x >> 2) x in let k := u32 (k + u32 (c << 1)) in
  u32 (k + GT x 0x0001).

Definition MIN (x y : Z) : Z := MUX (GT x y) y x.
Definition MAX (x y : Z) : Z := MUX (GT x y) x y.

Definition MUL (x y : Z) : Z := u64 (x * y).

(** [MUL31], [MUL31_lo] and [MUL15]: the default variants and the ones that
    [BR_CT_MUL31] and [BR_CT_MUL15] select. *)
Definition MUL31 (x y : Z) : Z := u64 (x * y).
Definition MUL31_lo (x y : Z) : Z := u32 (x * y) .& 0x7FFFFFFF.

Definition MUL31_ct (x y : Z) : Z :=
  u64 (u64 (u64 (u64 ((x .| 0x80000000) * (y .| 0x80000000)) - u64 (x << 31))
            - u64 (y << 31)) - u64 (1 << 62)).

Definition MUL31_lo_ct (x y : Z) : Z :=
  let xl := (x .& 0xFFFF) .| 0x80000000 in
  let xh := (x >> 16) .| 0x80000000 in
  let yl := (y .& 0xFFFF) .| 0x80000000 in
  let yh := (y >> 16) .| 0x80000000 in
  u32 (u32 (xl * yl) + u32 (u32 (u32 (xl * yh) + u32 (xh * yl)) << 16)) .& 0x7FFFFFFF.

Definition MUL15 (x y : Z) : Z := u32 (x * y).
Definition MUL15_ct (x y : Z) : Z :=
  u32 ((x .| 0x80000000) * (y .| 0x80000000)) .& 0x7FFFFFFF.

(** [ARSH]: the arithmetic right shift of the compiler, and the portable
    variant that [BR_NO_ARITH_SHIFT] selects; both as [uint32_t]. *)
Definition ARSH (x n : Z) : Z := u32 (s32 x >> n).
Definition ARSH_portable (x n : Z) : Z :=
  (x >> n) .| u32 (u32 (- (x >> 31)) << (32 - n)).

Definition br_swap32 (x : Z) : Z :=
  let x := u32 ((x .& 0x00FF00FF) << 8) .| ((x >> 8) .& 0x00FF00FF) in
  u32 (x << 16) .| (x >> 16).

(** One turn of the loop of [br_divrem], at [k], on the state [(q, hi, lo)]. *)
Definition divrem_step (d k : Z) (s : Z * Z * Z) : Z * Z * Z :=
  let '(q, hi, lo) := s in
  let j := 32 - k in
  let w := u32 (hi << j) .| (lo >> k) in
  let ctl := GE w d .| (hi >> k) in
  let hi2 := u32 (w - d) >> j in
  let lo2 := u32 (lo - u32 (d << k)) in
  let hi := MUX ctl hi2 hi in
  let lo := MUX ctl lo2 lo in
  (q .| u32 (ctl << k), hi, lo).

(** [for (k = n; k > 0; k --)] *)
Fixpoint divrem_loop (d : Z) (n : nat) (s : Z * Z * Z) : Z * Z * Z :=
  match n with
  | O => s
  | S n' => divrem_loop d n' (divrem_step d (Z.of_nat n) s)
  end.

(** Returns the quotient and the remainder (the C function writes the latter
    through a pointer). *)
Definition br_divrem (hi lo d : Z) : Z * Z :=
  let ch := EQ hi d in
  let hi := MUX ch 0 hi in
  let '(q, hi, lo) := divrem_loop d 31 (0, hi, lo) in
  let cf := GE lo d .| hi in
  (q .| cf, MUX cf (u32 (lo - d)) lo).

Definition br_rem (hi lo d : Z) : Z := snd (br_divrem hi lo d).
Definition br_div (hi lo d : Z) : Z := fst (br_divrem hi lo d).

(** * Lemmas *)

Lemma shr31_word x : word 32 x -> 0 <= x >> 31 <= 1.
Proof. unfold word. intros. rewrite shr_div by lia. zn. Qed.

Lemma NOT_spec b : NOT (b2z b) = b2z (negb b).
Proof. by destruct b. Qed.

Lemma MUX_spec b x y : word 32 x -> word 32 y -> MUX (b2z b) x y = if b then x else y.
Proof.
  intros Hx Hy. unfold MUX. destruct b; simpl b2z.
  - change (u32 (Z.opp 1)) with (Z.ones 32).
    rewrite Z.land_comm, Z.land_ones by lia.
    rewrite (Z.mod_small (x .^ y)) by (apply word_lxor; [lia|done|done]).
    by rewrite (Z.lxor_comm x), <- Z.lxor_assoc, Z.lxor_nilpotent, Z.lxor_0_l.
  - change (u32 (Z.opp 0)) with 0. by rewrite Z.land_0_l, Z.lxor_0_r.
Qed.

(** The sign bit of [q | -q]. *)
Lemma or_neg_sign q : word 32 q -> (q .| u32 (- q)) >> 31 = b2z (negb (q =? 0)).
Proof.
  unfold word. intros Hq. rewrite Z.shiftr_lor, !shr_div by lia. unfold u32.
  destruct (Z.eqb_spec q 0) as [->|Hn]; [done|]. simpl b2z.
  assert (q / 2 ^ 31 = 0 \/ q / 2 ^ 31 = 1) as [H0| ->] by zn.
  - rewrite H0. replace ((- q) mod 2 ^ 32 / 2 ^ 31) with 1 by zn. done.
  - assert ((- q) mod 2 ^ 32 / 2 ^ 31 = 0 \/ (- q) mod 2 ^ 32 / 2 ^ 31 = 1)
      as [->| ->] by zn; done.
Qed.

Lemma lxor_eqb x y : (x .^ y =? 0) = (x =? y).
Proof.
  destruct (Z.eqb_spec x y) as [->|Hn]; [by rewrite Z.lxor_nilpotent|].
  apply Z.eqb_neq. by rewrite Z.lxor_eq_0_iff.
Qed.

Lemma NEQ_spec x y : word 32 x -> word 32 y -> NEQ x y = b2z (negb (x =? y)).
Proof.
  intros. unfold NEQ. rewrite or_neg_sign by (apply word_lxor; [lia|done|done]).
  by rewrite lxor_eqb.
Qed.

Lemma EQ_spec x y : word 32 x -> word 32 y -> EQ x y = b2z (x =? y).
Proof.
  intros. unfold EQ. rewrite or_neg_sign by (apply word_lxor; [lia|done|done]).
  by rewrite NOT_spec, negb_involutive, lxor_eqb.
Qed.

Lemma GT_spec x y : word 32 x -> word 32 y -> GT x y = b2z (y <? x).
Proof.
  unfold word. intros Hx Hy. unfold GT. cbv zeta.
  rewrite Z.shiftr_lxor, Z.shiftr_land, !Z.shiftr_lxor, !shr_div by lia. unfold u32.
  assert (x / 2 ^ 31 = 0 \/ x / 2 ^ 31 = 1) as Cx by zn.
  assert (y / 2 ^ 31 = 0 \/ y / 2 ^ 31 = 1) as Cy by zn.
  assert ((y - x) mod 2 ^ 32 / 2 ^ 31 = 0 \/ (y - x) mod 2 ^ 32 / 2 ^ 31 = 1) as Cz by zn.
  destruct Cx as [Ex|Ex], Cy as [Ey|Ey], Cz as [Ez|Ez]; rewrite Ex, Ey, Ez;
    simpl Z.lxor; simpl Z.land; destruct (Z.ltb_spec y x); try reflexivity; exfalso; zn.
Qed.

Lemma GE_spec x y : word 32 x -> word 32 y -> GE x y = b2z (y <=? x).
Proof. intros. unfold GE. by rewrite GT_spec, NOT_spec, Z.leb_antisym by done. Qed.

Lemma LT_spec x y : word 32 x -> word 32 y -> LT x y = b2z (x <? y).
Proof. intros. unfold LT. by rewrite GT_spec by done. Qed.

Lemma LE_spec x y : word 32 x -> word 32 y -> LE x y = b2z (x <=? y).
Proof. intros. unfold LE. by rewrite GT_spec, NOT_spec, Z.leb_antisym by done. Qed.

(** The sign of [x - y]. *)
Definition cmp_sign (x y : Z) : Z :=
  if x <? y then -1 else if x =? y then 0 else 1.

Lemma CMP_spec x y : word 32 x -> word 32 y -> CMP x y = cmp_sign x y.
Proof.
  intros. unfold CMP, cmp_sign. rewrite !GT_spec by done.
  destruct (Z.ltb_spec y x), (Z.ltb_spec x y), (Z.eqb_spec x y); try lia; done.
Qed.

Lemma not_shr31 q : word 32 q -> u32 (Z.lnot q) >> 31 = b2z (q <? 2 ^ 31).
Proof.
  unfold word. intros. rewrite shr_div by lia. unfold Z.lnot, u32.
  destruct (Z.ltb_spec q (2 ^ 31)); simpl b2z; zn.
Qed.

Lemma b2z_lor a b : b2z a .| b2z b = b2z (a || b).
Proof. by destruct a, b. Qed.
Lemma b2z_land a b : b2z a .& b2z b = b2z (a && b).
Proof. by destruct a, b. Qed.
Lemma b2z_word a : word 32 (b2z a).
Proof. by destruct a. Qed.
#[export] Hint Resolve b2z_word : words.

Lemma shr31_b2z q : word 32 q -> q >> 31 = b2z (2 ^ 31 <=? q).
Proof.
  unfold word. intros. rewrite shr_div by lia.
  destruct (Z.leb_spec (2 ^ 31) q); simpl b2z; zn.
Qed.

(** The signed comparisons with zero, for every [int32_t]. *)
Definition sword32 (x : Z) : Prop := - 2 ^ 31 <= x < 2 ^ 31.

Ltac sign_cases :=
  repeat match goal with
    | |- context [Z.ltb ?a ?b] => destruct (Z.ltb_spec a b)
    | |- context [Z.leb ?a ?b] => destruct (Z.leb_spec a b)
    | |- context [Z.eqb ?a ?b] => destruct (Z.eqb_spec a b)
    end; try reflexivity; exfalso; unfold u32, sword32, Z.lnot in *; zn.

Lemma or_neg_small q : word 32 q -> (q .| u32 (- q) <? 2 ^ 31) = (q =? 0).
Proof.
  intros Hq. pose proof (or_neg_sign q Hq) as E.
  rewrite shr31_b2z in E by (apply word_lor; auto with words; lia).
  rewrite Z.ltb_antisym. destruct (2 ^ 31 <=? _), (q =? 0); done.
Qed.

(** The signed tests decide their comparison on every [int32_t]. *)
Theorem signed_tests x :
  sword32 x ->
  EQ0 x = b2z (x =? 0) /\ GT0 x = b2z (0 <? x) /\ GE0 x = b2z (0 <=? x) /\
  LT0 x = b2z (x <? 0) /\ LE0 x = b2z (x <=? 0).
Proof.
  intros Hx. unfold EQ0, GT0, GE0, LT0, LE0. cbv zeta.
  pose proof (u32_word x) as Hw.
  assert (word 32 (u32 x .| u32 (- u32 x))) by (apply word_lor; auto with words; lia).
  rewrite Z.shiftr_land, Z.shiftr_lor, !not_shr31, !shr31_b2z, b2z_lor, b2z_land,
    or_neg_small by auto with words.
  repeat split; sign_cases.
Qed.

Lemma MIN_spec x y : word 32 x -> word 32 y -> MIN x y = Z.min x y.
Proof.
  intros. unfold MIN. rewrite GT_spec, MUX_spec by done.
  destruct (Z.ltb_spec y x); lia.
Qed.

Lemma MAX_spec x y : word 32 x -> word 32 y -> MAX x y = Z.max x y.
Proof.
  intros. unfold MAX. rewrite GT_spec, MUX_spec by done.
  destruct (Z.ltb_spec y x); lia.
Qed.

(** One halving step of [BIT_LENGTH]. *)
Lemma bit_length_step s t x k :
  0 < s <= 16 -> 0 <= t <= 4 -> s = 2 ^ t -> x < 2 ^ (2 * s) -> word 32 x -> 0 <= k <= 40 ->
  let c := GT x (2 ^ s - 1) in
  let x' := MUX c (x >> s) x in
  let k' := u32 (k + u32 (c << t)) in
  word 32 x' /\ x' < 2 ^ s /\ (x' = 0 <-> x = 0) /\ k' + bitlen x' = k + bitlen x /\
  0 <= k' <= k + bitlen x.
Proof.
  intros Hs Ht Est Hx2 Hx Hk. unfold word in Hx.
  assert (2 ^ s <= 2 ^ 16) by (apply Z.pow_le_mono_r; lia).
  pose proof (Z.pow_pos_nonneg 2 s ltac:(lia) ltac:(lia)) as Hp.
  replace (2 * s) with (s + s) in Hx2 by lia. rewrite Z.pow_add_r in Hx2 by lia.
  assert (x / 2 ^ s < 2 ^ s) by (apply Z.div_lt_upper_bound; lia).
  assert (0 <= x / 2 ^ s) by (apply Z.div_pos; lia).
  cbv zeta. rewrite GT_spec, shl_mul, <- Est by (unfold word; lia).
  rewrite shr_div by lia. rewrite MUX_spec by (unfold word; lia).
  pose proof (bitlen_nonneg x). pose proof (bitlen_nonneg (x / 2 ^ s)).
  destruct (Z.ltb_spec (2 ^ s - 1) x); simpl b2z; unfold u32.
  - rewrite (bitlen_shift x s) by lia.
    assert (0 < x / 2 ^ s) by (apply Z.div_str_pos; lia).
    rewrite !(Z.mod_small) by (rewrite ?Z.mod_small by lia; lia).
    unfold word. repeat split; lia.
  - rewrite !Z.mod_small by (rewrite ?Z.mod_small by lia; lia).
    unfold word. repeat split; lia.
Qed.

Lemma bitlen_small x : 0 <= x < 4 -> b2z (negb (x =? 0)) + b2z (1 <? x) = bitlen x.
Proof.
  intros. assert (x = 0 \/ x = 1 \/ x = 2 \/ x = 3) as [->|[->|[->| ->]]] by lia; done.
Qed.

(** [BIT_LENGTH] returns the bit length of every 32-bit word. *)
Theorem BIT_LENGTH_correct x : word 32 x -> BIT_LENGTH x = bitlen x.
Proof.
  intros Hx. unfold BIT_LENGTH. cbv zeta. rewrite NEQ_spec by done.
  set (k := b2z (negb (x =? 0))).
  assert (Hk : 0 <= k <= 1) by (unfold k; by destruct (x =? 0)).
  assert (Hb : bitlen x <= 32) by (apply bitlen_le; unfold word in Hx; lia).
  assert (Hx0 : x < 2 ^ (2 * 16)) by (unfold word in Hx; lia).
  pose proof (bit_length_step 16 4 x k) as H1.
  destruct H1 as (W1 & B1 & Z1 & S1 & K1); try done; try lia.
  change (2 ^ 16 - 1) with 0xFFFF in *.
  set (x1 := MUX (GT x 0xFFFF) (x >> 16) x) in *.
  set (k1 := u32 (k + u32 (GT x 0xFFFF << 4))) in *.
  pose proof (bitlen_nonneg x1).
  destruct (bit_length_step 8 3 x1 k1) as (W2 & B2 & Z2 & S2 & K2); try done; try lia.
  change (2 ^ 8 - 1) with 0xFF in *.
  set (x2 := MUX (GT x1 0xFF) (x1 >> 8) x1) in *.
  set (k2 := u32 (k1 + u32 (GT x1 0xFF << 3))) in *. pose proof (bitlen_nonneg x2).
  destruct (bit_length_step 4 2 x2 k2) as (W3 & B3 & Z3 & S3 & K3); try done; try lia.
  change (2 ^ 4 - 1) with 0xF in *.
  set (x3 := MUX (GT x2 0xF) (x2 >> 4) x2) in *.
  set (k3 := u32 (k2 + u32 (GT x2 0xF << 2))) in *. pose proof (bitlen_nonneg x3).
  destruct (bit_length_step 2 1 x3 k3) as (W4 & B4 & Z4 & S4 & K4); try done; try lia.
  change (2 ^ 2 - 1) with 0x3 in *.
  set (x4 := MUX (GT x3 0x3) (x3 >> 2) x3) in *.
  set (k4 := u32 (k3 + u32 (GT x3 0x3 << 1))) in *.
  rewrite GT_spec by done.
  pose proof (bitlen_small x4 ltac:(unfold word in W4; lia)) as E.
  assert (b2z (negb (x4 =? 0)) = k) as Ek.
  { unfold k. do 2 f_equal. destruct (Z.eqb_spec x4 0), (Z.eqb_spec x 0); lia. }
  rewrite Ek in E. clearbody k. pose proof (bitlen_nonneg x). rewrite u32_small; unfold word; lia.
Qed.

(** * The constant-time multiplications *)

Lemma lor_bit31 x : word 31 x -> x .| 0x80000000 = x + 2 ^ 31.
Proof. unfold word. intros. apply (lor_disjoint 31 x 1); lia. Qed.

(** On 31-bit operands the [BR_CT_MUL31] variants of [MUL31] and
    [MUL31_lo] agree with the default ones: the product, and its low 31 bits. *)
Theorem MUL31_variants x y :
  word 31 x -> word 31 y ->
  MUL31 x y = x * y /\ MUL31_ct x y = x * y /\
  MUL31_lo x y = (x * y) mod 2 ^ 31 /\ MUL31_lo_ct x y = (x * y) mod 2 ^ 31.
Proof.
  intros Hx Hy. unfold MUL31, MUL31_ct, MUL31_lo, MUL31_lo_ct. cbv zeta.
  rewrite !shl_mul, !(shr_div _ 16), !lor_bit31 by (try done; lia).
  assert (Hp : 0 <= x * y < 2 ^ 62) by (unfold word in *; nia).
  assert (El : forall z, z .& 0xFFFF = z mod 2 ^ 16) by (intros; apply (land_mask z 16); lia).
  assert (Em : forall z, z .& 0x7FFFFFFF = z mod 2 ^ 31) by (intros; apply (land_mask z 31); lia).
  assert (Hl : forall z, word 31 z -> word 31 (z mod 2 ^ 16) /\ word 31 (z / 2 ^ 16)).
  { unfold word. intros z Hz. split; zn. }
  destruct (Hl x Hx), (Hl y Hy).
  rewrite !El, !Em, !lor_bit31 by done.
  assert (Em32 : forall z, u32 z mod 2 ^ 31 = z mod 2 ^ 31).
  { intros z. unfold u32. symmetry. rewrite (Z.mod_eq z (2 ^ 32)) by lia.
    replace (z - 2 ^ 32 * (z / 2 ^ 32)) with (z + (-2 * (z / 2 ^ 32)) * 2 ^ 31) by lia.
    by rewrite Z.mod_add by lia. }
  repeat split.
  - apply u64_small. unfold word. lia.
  - unfold u64. rewrite (Z.mod_small ((x + 2 ^ 31) * (y + 2 ^ 31))) by (unfold word in *; nia).
    rewrite (Z.mod_small (x * 2 ^ 31)), (Z.mod_small (y * 2 ^ 31)) by (unfold word in *; lia).
    change (1 * 2 ^ 62) with (2 ^ 62). rewrite (Z.mod_small (2 ^ 62)) by lia.
    rewrite (Z.mod_small (_ - x * 2 ^ 31)) by (unfold word in *; nia).
    rewrite (Z.mod_small (_ - y * 2 ^ 31)) by (unfold word in *; nia).
    rewrite Z.mod_small by (unfold word in *; nia). ring.
  - by rewrite Em32.
  - rewrite Em32. unfold u32.
    set (a := (x mod 2 ^ 16 + 2 ^ 31) * (y mod 2 ^ 16 + 2 ^ 31)).
    set (b := (x mod 2 ^ 16 + 2 ^ 31) * (y / 2 ^ 16 + 2 ^ 31)).
    set (c := (x / 2 ^ 16 + 2 ^ 31) * (y mod 2 ^ 16 + 2 ^ 31)).
    assert (exists k, x * y = a mod 2 ^ 32 +
        (((b mod 2 ^ 32 + c mod 2 ^ 32) mod 2 ^ 32) * 2 ^ 16) mod 2 ^ 32 + k * 2 ^ 31) as [k ->].
    2: by rewrite Z.mod_add by lia.
    rewrite !(Z.mod_eq _ (2 ^ 32)) by lia.
    pose proof (Z.div_mod x (2 ^ 16) ltac:(lia)) as Ex.
    pose proof (Z.div_mod y (2 ^ 16) ltac:(lia)) as Ey.
    set (xh := x / 2 ^ 16) in *. set (xl := x mod 2 ^ 16) in *.
    set (yh := y / 2 ^ 16) in *. set (yl := y mod 2 ^ 16) in *.
    rewrite Ex, Ey. unfold a, b, c.
    set (k1 := _ / 2 ^ 32). set (k2 := _ / 2 ^ 32). set (k3 := _ / 2 ^ 32).
    set (k4 := _ / 2 ^ 32). set (k5 := _ / 2 ^ 32).
    eexists (2 * xh * yh + 2 * k1 + 2 * k5 + 2 ^ 17 * (k2 + k3 + k4)
      - (xl + yl + 2 ^ 31) - 2 ^ 16 * (xl + yl + xh + yh + 2 ^ 32)).
    ring.
Qed.

Lemma MUL15_variants x y :
  0 <= x -> 0 <= y -> word 31 x -> word 31 y -> x * y < 2 ^ 31 ->
  MUL15 x y = x * y /\ MUL15_ct x y = x * y.
Proof.
  intros ? ? Hx Hy Hp. unfold MUL15, MUL15_ct. rewrite !lor_bit31 by done.
  split; [apply u32_small; unfold word; nia|].
  rewrite (land_mask _ 31) by lia. unfold u32.
  rewrite (Z.mod_eq _ (2 ^ 32)) by lia. set (k := _ / 2 ^ 32).
  replace (_ - _) with (x * y + (x + y + 2 ^ 31 - 2 * k) * 2 ^ 31) by ring.
  rewrite Z.mod_add by lia. apply Z.mod_small. nia.
Qed.

(** The portable arithmetic right shift computes the sign-extending one. *)
Theorem ARSH_variants x n :
  word 32 x -> 0 < n < 32 -> ARSH_portable x n = ARSH x n.
Proof.
  intros Hx Hn. unfold ARSH_portable, ARSH.
  rewrite !shr_div, shl_mul by lia. unfold s32.
  pose proof (Z.pow_pos_nonneg 2 n ltac:(lia) ltac:(lia)).
  assert (EK : 2 ^ n * 2 ^ (32 - n) = 2 ^ 32) by (rewrite <- Z.pow_add_r by lia; f_equal; lia).
  pose proof (Z.pow_pos_nonneg 2 (32 - n) ltac:(lia) ltac:(lia)).
  assert (Hq : 0 <= x / 2 ^ n < 2 ^ (32 - n)).
  { unfold word in Hx. split; [apply Z.div_pos; lia|apply Z.div_lt_upper_bound; lia]. }
  assert (x / 2 ^ 31 = 0 \/ x / 2 ^ 31 = 1) as [E|E] by (unfold word in Hx; zn); rewrite E.
  - change (u32 (u32 (Z.opp 0) * 2 ^ (32 - n))) with (0 mod 2^32). rewrite Z.lor_0_r.
    replace ((x + 2 ^ 31) mod 2 ^ 32 - 2 ^ 31) with x by (unfold word in Hx; zn).
    symmetry. apply u32_small. unfold word. nia.
  - replace (u32 (u32 (Z.opp 1) * 2 ^ (32 - n))) with ((2 ^ n - 1) * 2 ^ (32 - n)).
    + rewrite lor_disjoint by lia.
      replace ((x + 2 ^ 31) mod 2 ^ 32 - 2 ^ 31) with (x - 2 ^ 32) by (unfold word in Hx; zn).
      replace (x - 2 ^ 32) with (x + (- 2 ^ (32 - n)) * 2 ^ n) by lia.
      rewrite Z.div_add by lia. unfold u32.
      apply Z.mod_unique with (-1); [left; nia|nia].
    + unfold u32. change (Z.opp 1 mod 2 ^ 32) with (2 ^ 32 - 1).
      apply Z.mod_unique with (2 ^ (32 - n) - 1); [left; nia|nia].
Qed.

(** * The division *)

(** The dividend left to divide after the quotient bits from [k] up. *)
Lemma divrem_step_spec d k q hi lo :
  0 < k < 32 -> word 32 d -> word 32 hi -> word 32 lo ->
  hi * 2 ^ 32 + lo < d * 2 ^ (k + 1) ->
  exists b hi' lo',
    divrem_step d k (q, hi, lo) = (q .| b2z b * 2 ^ k, hi', lo') /\
    word 32 hi' /\ word 32 lo' /\
    hi * 2 ^ 32 + lo = b2z b * 2 ^ k * d + (hi' * 2 ^ 32 + lo') /\
    hi' * 2 ^ 32 + lo' < d * 2 ^ k.
Proof.
  intros Hk Hd Hhi Hlo Hb. unfold divrem_step. cbv zeta.
  pose proof (Z.pow_pos_nonneg 2 k ltac:(lia) ltac:(lia)) as HK.
  pose proof (Z.pow_pos_nonneg 2 (32 - k) ltac:(lia) ltac:(lia)) as HJ.
  assert (EK : 2 ^ (32 - k) * 2 ^ k = 2 ^ 32) by (rewrite <- Z.pow_add_r by lia; f_equal; lia).
  rewrite Z.pow_add_r in Hb by lia. change (2 ^ 1) with 2 in Hb.
  rewrite !shr_div, !shl_mul by lia. unfold word in Hd, Hhi, Hlo.
  set (K := 2 ^ k) in *. set (J := 2 ^ (32 - k)) in *.
  pose proof (Z.div_mod lo K ltac:(lia)) as El. pose proof (Z.mod_pos_bound lo K HK) as Hll.
  pose proof (Z.div_mod hi K ltac:(lia)) as Eh. pose proof (Z.mod_pos_bound hi K HK) as Hhl.
  set (lh := lo / K) in *. set (ll := lo mod K) in *.
  set (hh := hi / K) in *. set (hl := hi mod K) in *.
  assert (HJ1 : 1 < J).
  { assert (2 ^ 1 <= J) by (apply Z.pow_le_mono_r; lia). lia. }
  assert (HK32 : K < 2 ^ 32) by (clear -EK HJ1 HK; nia).
  assert (Hlh : 0 <= lh < J).
  { split; [apply Z.div_pos; lia|apply Z.div_lt_upper_bound; lia]. }
  set (V := lh + hl * J). set (W := hh * 2 ^ 32 + V).
  assert (EN : hi * 2 ^ 32 + lo = W * K + ll).
  { unfold W, V. rewrite El. replace hi with (K * hh + hl) by lia. rewrite <- EK. ring. }
  assert (HhlJ : 0 <= hl * J <= 2 ^ 32 - J) by (clear -HJ1 EK Hhl; nia).
  assert (HV : 0 <= V < 2 ^ 32) by (unfold V; lia).
  assert (HW0 : 0 <= hh) by (apply Z.div_pos; lia).
  assert (HW : W < 2 * d) by (clear -EN Hb Hll HK; nia).
  assert (Hhh : hh = 0 \/ hh = 1) by (unfold W in HW; lia).
  assert (Ew : u32 (hi * J) = hl * J).
  { unfold u32. symmetry. apply Z.mod_unique with hh; [left; lia|].
    replace hi with (K * hh + hl) by lia. rewrite <- EK. ring. }
  assert (Eor : hl * J .| lh = V) by (apply (lor_disjoint' (32 - k)); [lia|exact Hlh]).
  rewrite Ew, Eor, GE_spec by done.
  assert (Ehh : hh = b2z (1 <=? hh)) by (by destruct Hhh as [->| ->]).
  rewrite Ehh, b2z_lor.
  set (b := (d <=? V) || (1 <=? hh)).
  assert (Eb : if b then d <= W else W < d).
  { unfold b, W. destruct (Z.leb_spec d V), (Z.leb_spec 1 hh); simpl; lia. }
  assert (Esub : b = true -> u32 (V - d) = W - d).
  { intros Hb1. rewrite Hb1 in Eb. unfold u32. symmetry.
    apply Z.mod_unique with (- hh); [left|]; unfold W in *; lia. }
  assert (Ebk : u32 (b2z b * K) = b2z b * K).
  { apply u32_small. unfold word. clear -HK HK32 HJ1 EK. destruct b; simpl b2z; nia. }
  assert (W2 : word 32 (u32 (V - d) / J)).
  { pose proof (u32_word (V - d)). unfold word in *.
    split; [apply Z.div_pos; lia|apply Z.div_lt_upper_bound; lia]. }
  rewrite Ebk, !MUX_spec by (auto with words; unfold word; lia).
  exists b, (if b then u32 (V - d) / J else hi), (if b then u32 (lo - u32 (d * K)) else lo).
  split; [done|]. destruct b.
  - rewrite Esub in * by done. set (D := W - d) in *.
    pose proof (Z.div_mod D J ltac:(lia)) as ED. pose proof (Z.mod_pos_bound D J HJ) as HD.
    set (Dh := D / J) in *. set (Dl := D mod J) in *.
    assert (EDK : D * K + ll = Dh * 2 ^ 32 + (Dl * K + ll)) by (rewrite ED, <- EK; ring).
    assert (EN2 : hi * 2 ^ 32 + lo - d * K = D * K + ll) by (rewrite EN; unfold D; ring).
    assert (HDl : 0 <= Dl * K + ll < 2 ^ 32) by (clear -HD HK EK Hll; nia).
    assert (El2 : u32 (lo - u32 (d * K)) = Dl * K + ll).
    { unfold u32. rewrite Zminus_mod_idemp_r. symmetry.
      apply Z.mod_unique with (Dh - hi); [left; lia|]. lia. }
    rewrite El2. simpl b2z.
    assert (D * K + ll < d * K) by (assert (D < d) by (unfold D; lia); clear -H HK Hll; nia).
    repeat split; try (unfold word in W2; lia); unfold word; lia.
  - simpl b2z. assert (W * K + ll < d * K) by (clear -Eb HK Hll; nia). unfold word. repeat split; lia.
Qed.

Lemma divrem_loop_spec d n q hi lo :
  (n <= 31)%nat -> word 32 d -> word 32 hi -> word 32 lo ->
  hi * 2 ^ 32 + lo < d * 2 ^ (Z.of_nat n + 1) ->
  word 32 (q * 2 ^ (Z.of_nat n + 1)) -> 0 <= q ->
  exists q' hi' lo',
    divrem_loop d n (q * 2 ^ (Z.of_nat n + 1), hi, lo) = (2 * q', hi', lo') /\
    word 32 hi' /\ word 32 lo' /\ 0 <= q' < 2 ^ 31 /\
    (2 * q') * d + (hi' * 2 ^ 32 + lo') = q * 2 ^ (Z.of_nat n + 1) * d + (hi * 2 ^ 32 + lo) /\
    hi' * 2 ^ 32 + lo' < 2 * d.
Proof.
  revert q hi lo. induction n as [|n IH]; intros q hi lo Hn Hd Hhi Hlo Hb Hq Hq0.
  - simpl divrem_loop. change (Z.of_nat 0 + 1) with 1 in *. change (2 ^ 1) with 2 in *.
    exists q, hi, lo. split; [by rewrite (Z.mul_comm q)|].
    unfold word in *. repeat split; lia.
  - cbn [divrem_loop].
    destruct (divrem_step_spec d (Z.of_nat (S n)) (q * 2 ^ (Z.of_nat (S n) + 1)) hi lo)
      as (b & hi' & lo' & E & Hhi' & Hlo' & EN & Hb'); try done; try lia.
    rewrite E. clear E. set (K := Z.of_nat (S n)) in *.
    assert (Z.of_nat n + 1 = K) as EK by lia. rewrite EK in IH.
    assert (HK : 2 ^ (K + 1) = 2 ^ K * 2) by (rewrite Z.pow_add_r by lia; done).
    rewrite HK in *.
    assert (Eq : q * (2 ^ K * 2) .| b2z b * 2 ^ K = (2 * q + b2z b) * 2 ^ K).
    { pose proof (Z.pow_pos_nonneg 2 K ltac:(lia) ltac:(lia)).
      replace (q * (2 ^ K * 2)) with (q * 2 ^ (K + 1)) by (rewrite HK; ring).
      rewrite lor_disjoint' by (rewrite ?HK; destruct b; simpl; lia). rewrite HK. ring. }
    rewrite Eq.
    pose proof (Z.pow_pos_nonneg 2 K ltac:(lia) ltac:(lia)).
    assert (H32 : exists r, 2 ^ 32 = 2 ^ K * 2 * r).
    { exists (2 ^ (31 - K)). rewrite <- HK, <- Z.pow_add_r by lia. f_equal. lia. }
    destruct H32 as [r Hr].
    destruct (IH (2 * q + b2z b) hi' lo') as (q' & hi'' & lo'' & E & ? & ? & ? & E' & ?);
      try done; try lia.
    { unfold word in *. rewrite Hr in Hq. rewrite Hr. set (P := 2 ^ K) in *.
      assert (q < r) by (clear -Hq H; nia). clear -Hq H H0 Hq0. destruct b; simpl b2z; nia. }
    { destruct b; simpl; lia. }
    exists q', hi'', lo''. rewrite E. do 4 (split; [done|]). split; [|done].
    rewrite E', EN. destruct b; simpl b2z; ring.
Qed.

(** The division: for [hi <= d] and [d] not zero the quotient of
    [hi:lo] by [d], truncated to 32 bits when [hi = d], and the remainder. *)
Theorem br_divrem_correct hi lo d :
  word 32 hi -> word 32 lo -> word 32 d -> 0 < d -> hi <= d ->
  br_divrem hi lo d = (u32 ((hi * 2 ^ 32 + lo) / d), (hi * 2 ^ 32 + lo) mod d).
Proof.
  intros Hhi Hlo Hd Hd0 Hle. unfold br_divrem. cbv zeta.
  rewrite EQ_spec, MUX_spec by (done || (unfold word; lia)).
  set (h := if hi =? d then 0 else hi).
  assert (Hh : word 32 h /\ h < d /\ h * 2 ^ 32 = (hi - b2z (hi =? d) * d) * 2 ^ 32).
  { unfold h. destruct (Z.eqb_spec hi d); simpl b2z; unfold word in *; repeat split; lia. }
  destruct Hh as (Hhw & Hhd & Ehd).
  assert (Hb0 : h * 2 ^ 32 + lo < d * 2 ^ (Z.of_nat 31 + 1)).
  { change (Z.of_nat 31 + 1) with 32. unfold word in *. lia. }
  pose proof (divrem_loop_spec d 31 0 h lo (le_n 31) Hd Hhw Hlo Hb0) as HL.
  rewrite Z.mul_0_l in HL.
  destruct HL as (q & hi' & lo' & E & Hh' & Hl' & Hq & EN & Hb'); [unfold word; lia|lia|].
  rewrite E. rewrite GE_spec by done.
  assert (Hh1 : hi' = 0 \/ hi' = 1) by (unfold word in *; lia).
  set (b := (d <=? lo') || (1 <=? hi')).
  assert (Eb : b2z (d <=? lo') .| hi' = b2z b).
  { unfold b. rewrite <- b2z_lor. f_equal. destruct Hh1 as [->| ->]; done. }
  rewrite Eb, MUX_spec by auto with words.
  assert (Hb : if b then d <= hi' * 2 ^ 32 + lo' else hi' * 2 ^ 32 + lo' < d).
  { unfold b. unfold word in *.
    destruct Hh1 as [->| ->], (Z.leb_spec d lo'); simpl; lia. }
  assert (Eq : 2 * q .| b2z b = 2 * q + b2z b).
  { replace (2 * q) with (q * 2 ^ 1) by lia.
    rewrite lor_disjoint' by (destruct b; simpl; lia). lia. }
  rewrite Eq.
  assert (EN' : hi * 2 ^ 32 + lo = d * (b2z (hi =? d) * 2 ^ 32 + (2 * q + b2z b)) +
     (hi' * 2 ^ 32 + lo' - b2z b * d)) by lia.
  assert (Hr : 0 <= hi' * 2 ^ 32 + lo' - b2z b * d < d).
  { unfold word in *. destruct b; simpl b2z; lia. }
  assert (Hr' : (if b then u32 (lo' - d) else lo') = hi' * 2 ^ 32 + lo' - b2z b * d).
  { destruct b; simpl b2z.
    - unfold u32. symmetry. apply Z.mod_unique with (- hi'); [left|]; unfold word in *; lia.
    - unfold word in *. destruct Hh1 as [->| ->]; lia. }
  rewrite Hr'. f_equal.
  - rewrite <- (Z.div_unique_pos _ d _ _ Hr EN'). unfold u32.
    apply Z.mod_unique with (b2z (hi =? d)); [left; destruct b; simpl; lia|ring].
  - exact (Z.mod_unique_pos _ d _ _ Hr EN').
Qed.

(** * Concrete runs *)

Lemma BIT_LENGTH_witness : word 32 0x12345 /\ BIT_LENGTH 0x12345 = 17.
Proof.
  assert (word 32 0x12345) as H by (unfold word; lia). split; [done|].
  exact (BIT_LENGTH_correct 0x12345 H).
Defined.

Lemma signed_tests_witness :
  EQ0 (-5) = 0 /\ GT0 (-5) = 0 /\ GE0 (-5) = 0 /\ LT0 (-5) = 1 /\ LE0 (-5) = 1.
Proof. apply (signed_tests (-5)). unfold sword32. lia. Defined.

Lemma MUL31_variants_witness :
  MUL31_ct 2147483647 2147483646 = 2147483647 * 2147483646 /\
  MUL31_lo_ct 2147483647 2147483646 = (2147483647 * 2147483646) mod 2 ^ 31.
Proof.
  destruct (MUL31_variants 2147483647 2147483646) as (_ & H1 & _ & H2);
    [unfold word; lia..|]. split; [exact H1|exact H2].
Defined.

Lemma ARSH_variants_witness : ARSH_portable 0x80000001 4 = ARSH 0x80000001 4.
Proof. apply ARSH_variants; [unfold word|]; lia. Defined.

Lemma br_divrem_witness :
  br_divrem 5 7 9 = (u32 ((5 * 2 ^ 32 + 7) / 9), (5 * 2 ^ 32 + 7) mod 9).
Proof. apply br_divrem_correct; unfold word; lia. Defined.
