(* ===== verification/Limbs.v ===== *)
(** Multi-precision integers: the value of a run of [w]-bit limbs of an array,
    least significant limb first, and the arithmetic the bignum components
    share.  Nothing here models code: the components instantiate the limb width
    [w] with 31, 15 or 32. *)
From stdpp Require Import base tactics list numbers option.
From Stdlib Require Import ZArith Lia Morphisms.
From S2P Require Import Prelude.
Local Open Scope Z_scope.

Fixpoint valn (w : Z) (a : list Z) (o : Z) (n : nat) : Z :=
  match n with
  | O => 0
  | S n' => valn w a o n' + get a (o + Z.of_nat n') * 2 ^ (w * Z.of_nat n')
  end.

(** [val w a o n]: the value of the [n] limbs of [a] from the cell [o]. *)
Definition val (w : Z) (a : list Z) (o n : Z) : Z := valn w a o (Z.to_nat n).

Lemma get_cons_pos x l i : 0 < i -> get (x :: l) i = get l (i - 1).
Proof. intros Hi. unfold get. replace (Z.to_nat i) with (S (Z.to_nat (i - 1))) by lia. done. Qed.

(** [limbs w a o n]: these cells hold [w]-bit words. *)
Definition limbs (w : Z) (a : list Z) (o n : Z) : Prop :=
  forall i, o <= i < o + n -> word w (get a i).

Section Limbs.
Context (w : Z) (Hw : 0 < w).
Implicit Types (a b : list Z) (o p n k i : Z).

Lemma pow_limb n : 0 <= n -> 2 ^ (w * (n + 1)) = 2 ^ (w * n) * 2 ^ w.
Proof. intros. rewrite Z.mul_add_distr_l, Z.mul_1_r, Z.pow_add_r; nia. Qed.

Lemma pow_limb_pos n : 0 <= n -> 0 < 2 ^ (w * n).
Proof. intros. apply Z.pow_pos_nonneg; nia. Qed.

Lemma pow_w_pos : 0 < 2 ^ w.
Proof. apply Z.pow_pos_nonneg; lia. Qed.

Lemma pow_w_ge2 : 2 <= 2 ^ w.
Proof. change 2 with (2 ^ 1) at 1. apply Z.pow_le_mono_r; lia. Qed.

Lemma val_0 a o : val w a o 0 = 0.
Proof. done. Qed.

Lemma val_succ a o n :
  0 <= n -> val w a o (n + 1) = val w a o n + get a (o + n) * 2 ^ (w * n).
Proof.
  intros. unfold val. replace (Z.to_nat (n + 1)) with (S (Z.to_nat n)) by lia.
  cbn [valn]. by rewrite !Z2Nat.id by lia.
Qed.

Lemma val_pred a o n :
  0 < n -> val w a o n = val w a o (n - 1) + get a (o + (n - 1)) * 2 ^ (w * (n - 1)).
Proof. intros. rewrite <- val_succ by lia. f_equal. lia. Qed.

Lemma pow_limb_pred n : 0 < n -> 2 ^ (w * n) = 2 ^ (w * (n - 1)) * 2 ^ w.
Proof. intros. rewrite <- pow_limb by lia. f_equal. lia. Qed.

Lemma val_1 a o : val w a o 1 = get a o.
Proof.
  change 1 with (0 + 1) at 1. rewrite val_succ, val_0, Z.mul_0_r, Z.add_0_r by lia.
  change (2 ^ 0) with 1. lia.
Qed.

(** Induction on the number of limbs. *)
Lemma limb_ind (P : Z -> Prop) :
  P 0 -> (forall n, 0 <= n -> P n -> P (n + 1)) -> forall n, 0 <= n -> P n.
Proof. intros H0 HS n Hn. revert n Hn. apply natlike_ind; [done|]. apply HS. Qed.

Lemma val_ext a b o p n :
  (forall i, 0 <= i < n -> get a (o + i) = get b (p + i)) -> val w a o n = val w b p n.
Proof.
  destruct (Z.lt_ge_cases n 0).
  { intros _. unfold val. by replace (Z.to_nat n) with O by lia. }
  revert n H. apply (limb_ind (fun n => _ -> _)); [done|].
  intros n Hn IH HE. rewrite !val_succ, HE, IH by (done || lia || (intros; apply HE; lia)).
  done.
Qed.

Lemma val_upd_out a o n i v :
  0 <= i -> 0 <= o -> i < o \/ o + n <= i -> val w (upd a i v) o n = val w a o n.
Proof. intros. apply val_ext. intros. apply get_upd_ne; lia. Qed.

Lemma val_frame a b o n lo hi :
  frame lo hi a b -> 0 <= o -> o + n <= lo \/ hi <= o -> val w b o n = val w a o n.
Proof. intros HF ? ?. apply val_ext. intros. apply (frame_get lo hi); [done|lia..]. Qed.

Lemma limbs_get a o n i : limbs w a o n -> o <= i < o + n -> 0 <= get a i < 2 ^ w.
Proof. intros H. apply H. Qed.

Lemma limbs_sub a o n p k : limbs w a o n -> o <= p -> p + k <= o + n -> limbs w a p k.
Proof. intros H ? ? i ?. apply H. lia. Qed.

Lemma limbs_upd a o n i v : word w v -> limbs w a o n -> 0 <= o -> 0 <= i < zlen a ->
  limbs w (upd a i v) o n.
Proof.
  intros Hv H Ho Hi j Hj. destruct (Z.eq_dec i j) as [->|].
  - by rewrite get_upd_eq by lia.
  - rewrite get_upd_ne by lia. by apply H.
Qed.

Lemma limbs_snoc a o n : limbs w a o n -> word w (get a (o + n)) -> limbs w a o (n + 1).
Proof. intros H1 H2 i Hi. destruct (Z.eq_dec i (o + n)) as [->|]; [done|]. apply H1. lia. Qed.

Lemma limbs_pred a o n :
  limbs w a o (n - 1) -> word w (get a (o + (n - 1))) -> limbs w a o n.
Proof.
  intros H1 H2 i Hi. destruct (Z.eq_dec i (o + (n - 1))) as [->|]; [done|]. apply H1. lia.
Qed.

Lemma limbs_nil a o : limbs w a o 0.
Proof. intros i. lia. Qed.

Lemma limbs_frame a b o n lo hi :
  limbs w a o n -> frame lo hi a b -> 0 <= o -> o + n <= lo \/ hi <= o -> limbs w b o n.
Proof. intros H HF ? ? i Hi. rewrite (frame_get lo hi a b) by (done || lia). by apply H. Qed.

Lemma val_bound a o n : 0 <= n -> limbs w a o n -> 0 <= val w a o n < 2 ^ (w * n).
Proof.
  intros Hn. revert n Hn. apply (limb_ind (fun n => _ -> _)).
  - rewrite val_0, Z.mul_0_r. done.
  - intros n Hn IH HL. rewrite val_succ, pow_limb by lia.
    assert (HL' : limbs w a o n) by (apply (limbs_sub a o (n + 1)); [done|lia..]).
    specialize (IH HL').
    pose proof (limbs_get _ _ _ (o + n) HL ltac:(lia)).
    pose proof (pow_limb_pos n Hn). nia.
Qed.

Lemma val_split a o n k :
  0 <= n -> 0 <= k ->
  val w a o (n + k) = val w a o n + 2 ^ (w * n) * val w a (o + n) k.
Proof.
  intros Hn Hk. revert k Hk. apply limb_ind.
  - rewrite val_0, Z.add_0_r. lia.
  - intros k Hk IH. rewrite Z.add_assoc, !val_succ, IH by lia.
    rewrite Z.mul_add_distr_l, Z.pow_add_r, Z.add_assoc by nia. ring.
Qed.

Lemma val_cons a o n :
  0 <= n -> val w a o (n + 1) = get a o + 2 ^ w * val w a (o + 1) n.
Proof.
  intros. rewrite Z.add_comm, val_split, val_1, Z.mul_1_r by lia. done.
Qed.

Lemma val_zero a o n : (forall i, o <= i < o + n -> get a i = 0) -> val w a o n = 0.
Proof.
  destruct (Z.lt_ge_cases n 0).
  { intros _. unfold val. by replace (Z.to_nat n) with O by lia. }
  revert n H. apply (limb_ind (fun n => _ -> _)); [done|].
  intros n Hn IH HE. rewrite val_succ, IH, HE by (done || lia || (intros; apply HE; lia)). lia.
Qed.

Lemma val_eq_0 a o n :
  0 <= n -> limbs w a o n -> val w a o n = 0 -> forall i, o <= i < o + n -> get a i = 0.
Proof.
  intros Hn. pattern n. revert n Hn. apply limb_ind; [lia|].
  intros n Hn IH HL HE i Hi. rewrite val_succ in HE by lia.
  assert (HL' : limbs w a o n) by (apply (limbs_sub a o (n + 1)); [done|lia..]).
  pose proof (val_bound a o n Hn HL').
  pose proof (limbs_get a o (n + 1) (o + n) HL ltac:(lia)).
  pose proof (pow_limb_pos n Hn).
  destruct (Z.eq_dec i (o + n)) as [->|]; [nia|]. apply IH; [done|nia|lia].
Qed.

(** The low and the high limbs of a number. *)
Lemma val_mod a o n k :
  0 <= k <= n -> limbs w a o n -> val w a o n mod 2 ^ (w * k) = val w a o k.
Proof.
  intros Hk HL. replace n with (k + (n - k)) by lia. rewrite val_split by lia.
  rewrite Z.mul_comm, Z.mod_add by (pose proof (pow_limb_pos k); lia).
  apply Z.mod_small, val_bound; [lia|]. apply (limbs_sub a o n); [done|lia..].
Qed.

Lemma val_div a o n k :
  0 <= k <= n -> limbs w a o n -> val w a o n / 2 ^ (w * k) = val w a (o + k) (n - k).
Proof.
  intros Hk HL. replace n with (k + (n - k)) at 1 by lia. rewrite val_split by lia.
  rewrite Z.mul_comm, Z.div_add by (pose proof (pow_limb_pos k); lia).
  rewrite Z.div_small; [done|]. apply val_bound; [lia|]. apply (limbs_sub a o n); [done|lia..].
Qed.

(** Two numbers with the same limbs count are equal when their limbs are. *)
Lemma val_inj a b o p n :
  limbs w a o n -> limbs w b p n -> 0 <= n -> val w a o n = val w b p n ->
  forall i, 0 <= i < n -> get a (o + i) = get b (p + i).
Proof.
  intros HLa HLb Hn. revert HLa HLb. pattern n. revert n Hn.
  apply limb_ind; [lia|].
  intros n Hn IH HLa HLb HE i Hi. rewrite !val_succ in HE by lia.
  assert (limbs w a o n) by (apply (limbs_sub a o (n + 1)); [done|lia..]).
  assert (limbs w b p n) by (apply (limbs_sub b p (n + 1)); [done|lia..]).
  pose proof (val_bound a o n Hn H). pose proof (val_bound b p n Hn H0).
  pose proof (limbs_get a o (n + 1) (o + n) HLa ltac:(lia)).
  pose proof (limbs_get b p (n + 1) (p + n) HLb ltac:(lia)).
  pose proof (pow_limb_pos n Hn).
  assert (get a (o + n) = get b (p + n)) by nia.
  destruct (Z.eq_dec i n) as [->|]; [done|]. apply IH; [done|done|nia|lia].
Qed.
End Limbs.

(** * Congruence modulo [m], as a setoid *)

Record eqm (m x y : Z) : Prop := Eqm { eqm_eq : x mod m = y mod m }.

#[export] Instance eqm_equiv m : Equivalence (eqm m).
Proof.
  split; [done|by intros x y []|]. intros x y z [H1] [H2]. constructor. congruence.
Qed.

#[export] Instance eqm_add m : Proper (eqm m ==> eqm m ==> eqm m) Z.add.
Proof.
  intros x x' [Hx] y y' [Hy]. constructor. destruct (Z.eq_dec m 0) as [->|].
  { rewrite !Zmod_0_r in *. congruence. }
  by rewrite Z.add_mod, Hx, Hy, <- Z.add_mod by done.
Qed.

#[export] Instance eqm_mul m : Proper (eqm m ==> eqm m ==> eqm m) Z.mul.
Proof.
  intros x x' [Hx] y y' [Hy]. constructor. destruct (Z.eq_dec m 0) as [->|].
  { rewrite !Zmod_0_r in *. congruence. }
  by rewrite Z.mul_mod, Hx, Hy, <- Z.mul_mod by done.
Qed.

#[export] Instance eqm_opp m : Proper (eqm m ==> eqm m) Z.opp.
Proof. intros x y H. rewrite !Z.opp_eq_mul_m1. by rewrite H. Qed.

#[export] Instance eqm_sub m : Proper (eqm m ==> eqm m ==> eqm m) Z.sub.
Proof. intros x x' Hx y y' Hy. unfold Z.sub. by rewrite Hx, Hy. Qed.

Lemma eqm_pow m x y n : 0 <= n -> eqm m x y -> eqm m (x ^ n) (y ^ n).
Proof.
  intros Hn HE. revert n Hn. apply natlike_ind; [done|].
  intros n Hn IH. rewrite !Z.pow_succ_r by done. by apply eqm_mul.
Qed.

Lemma eqm_mod m x : eqm m (x mod m) x.
Proof.
  constructor. destruct (Z.eq_dec m 0) as [->|]; [by rewrite !Zmod_0_r|]. by rewrite Z.mod_mod.
Qed.

Lemma eqm_self m x k : eqm m (x + k * m) x.
Proof.
  constructor. destruct (Z.eq_dec m 0) as [->|]; [rewrite !Zmod_0_r; lia|].
  by rewrite Z.mod_add.
Qed.

Lemma eqm_small m x y : eqm m x y -> 0 <= x < m -> x = y mod m.
Proof. intros [H] Hx. by rewrite <- H, Z.mod_small. Qed.

(** Cancelling a factor that has an inverse. *)
Lemma eqm_cancel m r r' x y :
  eqm m (r' * r) 1 -> eqm m (r * x) (r * y) -> eqm m x y.
Proof.
  intros Hr HE. rewrite <- (Z.mul_1_l x), <- (Z.mul_1_l y).
  rewrite <- Hr, <- !Z.mul_assoc. by rewrite HE.
Qed.

(** [2 ^ k] has an inverse modulo an odd number. *)
Lemma pow2_invertible m k : 0 < m -> Z.odd m = true -> 0 <= k ->
  exists r, eqm m (r * 2 ^ k) 1.
Proof.
  intros Hm Ho Hk. exists (((m + 1) / 2) ^ k).
  rewrite <- Z.pow_mul_l. rewrite Z.odd_spec in Ho. destruct Ho as [q Hq].
  replace ((m + 1) / 2 * 2) with (m + 1).
  - rewrite (eqm_pow m (m + 1) 1 k Hk); [by rewrite Z.pow_1_l|].
    replace (m + 1) with (1 + 1 * m) by lia. apply eqm_self.
  - subst m. replace (2 * q + 1 + 1) with ((q + 1) * 2) by lia. by rewrite Z.div_mul.
Qed.

(** One Newton step for the inverse of [x] modulo a power of two: with the
    result truncated to [N] bits the precision doubles, up to [N]. *)
Lemma newton_step x y y' k N q :
  0 <= k -> 2 * k <= N -> (2 ^ k | 1 - x * y) ->
  y' = y * (2 - y * x) + q * 2 ^ N -> (2 ^ (2 * k) | 1 - x * y').
Proof.
  intros Hk HN [c Hc] ->.
  exists (c * c - x * q * 2 ^ (N - 2 * k)).
  assert (E : 2 ^ N = 2 ^ (N - 2 * k) * 2 ^ (2 * k)) by (rewrite <- Z.pow_add_r by lia; f_equal; lia).
  assert (E2 : 2 ^ (2 * k) = 2 ^ k * 2 ^ k) by (rewrite <- Z.pow_add_r by lia; f_equal; lia).
  rewrite E, E2.
  replace (1 - x * _) with ((1 - x * y) * (1 - x * y) - x * q * 2 ^ (N - 2 * k) * (2 ^ k * 2 ^ k)) by ring.
  rewrite Hc. ring.
Qed.

(** * Bit fields *)

(** [bits V p k]: the [k] bits of [V] from the bit [p]. *)
Definition bits (V p k : Z) : Z := (V / 2 ^ p) mod 2 ^ k.

Lemma bits_bound V p k : 0 <= k -> 0 <= bits V p k < 2 ^ k.
Proof. intros. apply Z.mod_pos_bound. apply Z.pow_pos_nonneg; lia. Qed.

Lemma bits_div V p j k : 0 <= p -> 0 <= j -> 0 <= k -> bits V p (j + k) / 2 ^ j = bits V (p + j) k.
Proof.
  intros. unfold bits. pose proof (Z.pow_pos_nonneg 2 j). pose proof (Z.pow_pos_nonneg 2 k).
  pose proof (Z.pow_pos_nonneg 2 p).
  rewrite !Z.pow_add_r, <- Z.div_div, Z.rem_mul_r by lia.
  rewrite Z.mul_comm, Z.div_add, Z.div_small by (try apply Z.mod_pos_bound; lia). lia.
Qed.

Lemma bits_mod V p j k : 0 <= p -> 0 <= j -> 0 <= k -> bits V p (j + k) mod 2 ^ j = bits V p j.
Proof.
  intros. unfold bits. pose proof (Z.pow_pos_nonneg 2 j). pose proof (Z.pow_pos_nonneg 2 k).
  rewrite !Z.pow_add_r, Z.rem_mul_r by lia.
  rewrite Z.mul_comm, Z.mod_add, Z.mod_mod by lia. done.
Qed.

Lemma bits_split V p j k : 0 <= p -> 0 <= j -> 0 <= k ->
  bits V p (j + k) = bits V p j + 2 ^ j * bits V (p + j) k.
Proof.
  intros. rewrite <- (bits_mod V p j k), <- (bits_div V p j k) by done.
  pose proof (Z.pow_pos_nonneg 2 j). pose proof (Z.div_mod (bits V p (j + k)) (2 ^ j)). lia.
Qed.

Lemma bits_0 V k : bits V 0 k = V mod 2 ^ k.
Proof. unfold bits. by rewrite Z.div_1_r. Qed.

Lemma bits_none V p : bits V p 0 = 0.
Proof. unfold bits. apply Z.mod_1_r. Qed.

Lemma bits_high V p k : 0 <= p -> 0 <= V < 2 ^ p -> bits V p k = 0.
Proof. intros. unfold bits. rewrite Z.div_small by lia. apply Zmod_0_l. Qed.

(** The limbs of a number are its bit fields. *)
Lemma val_bits w a o n i : 0 < w -> 0 <= i < n -> limbs w a o n ->
  get a (o + i) = bits (val w a o n) (w * i) w.
Proof.
  intros Hw Hi HL. unfold bits. rewrite val_div by (done || lia).
  replace (n - i) with (n - i - 1 + 1) by lia. rewrite val_cons, (Z.mul_comm (2 ^ w)) by lia.
  rewrite Z.mod_add by (pose proof (pow_w_pos w); lia). symmetry. apply Z.mod_small.
  apply (limbs_get _ _ _ _ _ HL). lia.
Qed.

Lemma val_of_bits w a o n V : 0 < w -> 0 <= n ->
  (forall i, 0 <= i < n -> get a (o + i) = bits V (w * i) w) -> val w a o n = V mod 2 ^ (w * n).
Proof.
  intros Hw. revert n. apply (limb_ind (fun n => _ -> _)).
  - intros. rewrite val_0, Z.mul_0_r. symmetry. apply Z.mod_1_r.
  - intros n Hn IH HE. rewrite val_succ, HE, IH by (done || lia || (intros; apply HE; lia)).
    rewrite <- !bits_0, Z.mul_add_distr_l, Z.mul_1_r, bits_split by nia. rewrite Z.add_0_l. ring.
Qed.

(** Accumulating [j] more bits above [k] of them, in a word of [N] bits. *)
Lemma bits_acc V p k j N : 0 <= p -> 0 <= k -> 0 <= j -> k + j <= N ->
  Z.lor (bits V p k) ((bits V (p + k) j * 2 ^ k) mod 2 ^ N) = bits V p (k + j).
Proof.
  intros. pose proof (bits_bound V p k ltac:(lia)). pose proof (bits_bound V (p + k) j ltac:(lia)).
  pose proof (Z.pow_pos_nonneg 2 k ltac:(lia) ltac:(lia)).
  rewrite Z.mod_small.
  - rewrite lor_disjoint, bits_split by lia. ring.
  - split; [nia|]. apply Z.lt_le_trans with (2 ^ (j + k)).
    + rewrite Z.pow_add_r by lia. nia.
    + apply Z.pow_le_mono_r; lia.
Qed.

(** The same when the word overflows: the low [N] bits are kept. *)
Lemma bits_acc_full V p k j N : 0 <= p -> 0 <= k <= N -> 0 <= j -> N <= k + j ->
  Z.lor (bits V p k) ((bits V (p + k) j * 2 ^ k) mod 2 ^ N) = bits V p N.
Proof.
  intros. pose proof (Z.pow_pos_nonneg 2 k ltac:(lia) ltac:(lia)).
  pose proof (Z.pow_pos_nonneg 2 (N - k) ltac:(lia) ltac:(lia)).
  assert (E : (bits V (p + k) j * 2 ^ k) mod 2 ^ N = (bits V (p + k) (N - k) * 2 ^ k) mod 2 ^ N).
  { replace N with (N - k + k) at 1 3 by lia. rewrite Z.pow_add_r, !Z.mul_mod_distr_r by lia.
    rewrite <- (bits_mod V (p + k) (N - k) (j - (N - k))) by lia.
    replace (N - k + (j - (N - k))) with j by lia. by rewrite Z.mod_mod by lia. }
  rewrite E, bits_acc by lia. f_equal. lia.
Qed.

(** * Checking concrete arrays *)

Definition limbsb (w : Z) (a : list Z) (o n : Z) : bool :=
  forallb (fun i => bool_decide (word w (get a (o + Z.of_nat i)))) (seq 0 (Z.to_nat n)).

Lemma limbsb_limbs w a o n : limbsb w a o n = true -> limbs w a o n.
Proof.
  unfold limbsb. rewrite forallb_forall. intros H i Hi.
  specialize (H (Z.to_nat (i - o))). rewrite bool_decide_eq_true, Z2Nat.id in H by lia.
  replace (o + (i - o)) with i in H by lia. apply H. apply in_seq. lia.
Qed.

(** * Montgomery multiplication

    The arithmetic of the multiplication loop, for any limb base [B]: one turn
    adds [x_u * Y + f * M] to the accumulator and drops its low limb. *)
Section Montgomery.
Context (B M Y : Z) (HB : 0 < B) (HM : 0 < M).

(** The accumulator stays below [Y + M]. *)
Lemma monty_bound V V' xu f :
  0 <= V < Y + M -> 0 <= xu < B -> 0 <= f < B -> 0 <= Y ->
  B * V' = V + xu * Y + f * M -> 0 <= V' < Y + M.
Proof. intros. nia. Qed.

(** Its relation to the product: [V * B^u] is [A * Y] modulo [M]. *)
Lemma monty_step u A V V' xu f :
  0 <= u -> eqm M (V * B ^ u) (A * Y) -> B * V' = V + xu * Y + f * M ->
  eqm M (V' * B ^ (u + 1)) ((A + xu * B ^ u) * Y).
Proof.
  intros Hu HV E. rewrite Z.pow_add_r, Z.pow_1_r by lia.
  replace (V' * (B ^ u * B)) with (B * V' * B ^ u) by ring. rewrite E.
  replace ((V + xu * Y + f * M) * B ^ u) with (V * B ^ u + xu * Y * B ^ u + f * B ^ u * M) by ring.
  rewrite eqm_self, HV. replace ((A + xu * B ^ u) * Y) with (A * Y + xu * Y * B ^ u) by ring.
  done.
Qed.

(** The factor [f] makes the low limb vanish. *)
Lemma monty_factor s m0 m0i :
  (m0 * m0i + 1) mod B = 0 -> (s + (s * m0i mod B) * m0) mod B = 0.
Proof.
  intros H. rewrite <- Z.add_mod_idemp_r, Z.mul_mod_idemp_l, Z.add_mod_idemp_r by lia.
  replace (s + s * m0i * m0) with (s * (m0 * m0i + 1)) by ring.
  rewrite <- Z.mul_mod_idemp_r, H, Z.mul_0_r by lia. apply Z.mod_0_l. lia.
Qed.

(** The final subtraction. *)
Lemma monty_final V : 0 <= V < 2 * M -> (if M <=? V then V - M else V) = V mod M.
Proof.
  intros HV. destruct (Z.leb_spec M V).
  - apply (Z.mod_unique_pos _ _ 1); lia.
  - symmetry. apply Z.mod_small. lia.
Qed.

(** A product and the modulus determine the Montgomery product. *)
Lemma monty_unique k X V V' :
  0 <= k -> B = 2 ^ k -> Z.odd M = true -> 0 <= V < M -> 0 <= V' < M ->
  eqm M (V * B) X -> eqm M (V' * B) X -> V = V'.
Proof.
  intros Hk -> Ho HV HV' E E'. destruct (pow2_invertible M k HM Ho Hk) as [r Hr].
  assert (EE : eqm M V V').
  { apply (eqm_cancel M (2 ^ k) r); [done|]. rewrite !(Z.mul_comm (2 ^ k)), E, E'. done. }
  rewrite (eqm_small _ _ _ EE) by done. by rewrite Z.mod_small.
Qed.
End Montgomery.
