(* ===== verification/Codec.v ===== *)
(** Encoding and decoding of 16, 32 and 64-bit words as bytes: the inline
    functions of [src/inner.h] (the portable variants) and the range functions
    of [src/codec/enc*.c] and [dec*.c].

    The class [WordCodec] states what a pair of functions must satisfy for the
    range functions to be right; its six instances are the six pairs. *)
From stdpp Require Import base tactics list numbers option.
From Stdlib Require Import ZArith Lia.
From S2P Require Import Prelude CtPrims Limbs.
Local Open Scope Z_scope.
Local Open Scope cword_scope.

(** * Code *)

Definition br_enc16le (dst : list Z) (o x : Z) : M (list Z) :=
  dst ← store dst (o + 0) (u8 x);
  store dst (o + 1) (u8 (x >> 8)).
Definition br_enc16be (dst : list Z) (o x : Z) : M (list Z) :=
  dst ← store dst (o + 0) (u8 (x >> 8));
  store dst (o + 1) (u8 x).
Definition br_dec16le (src : list Z) (o : Z) : M Z :=
  b0 ← load src (o + 0);
  b1 ← load src (o + 1);
  mret (b0 .| u32 (b1 << 8)).
Definition br_dec16be (src : list Z) (o : Z) : M Z :=
  b0 ← load src (o + 0);
  b1 ← load src (o + 1);
  mret (u32 (b0 << 8) .| b1).

Definition br_enc32le (dst : list Z) (o x : Z) : M (list Z) :=
  dst ← store dst (o + 0) (u8 x);
  dst ← store dst (o + 1) (u8 (x >> 8));
  dst ← store dst (o + 2) (u8 (x >> 16));
  store dst (o + 3) (u8 (x >> 24)).
Definition br_enc32be (dst : list Z) (o x : Z) : M (list Z) :=
  dst ← store dst (o + 0) (u8 (x >> 24));
  dst ← store dst (o + 1) (u8 (x >> 16));
  dst ← store dst (o + 2) (u8 (x >> 8));
  store dst (o + 3) (u8 x).
Definition br_dec32le (src : list Z) (o : Z) : M Z :=
  b0 ← load src (o + 0);
  b1 ← load src (o + 1);
  b2 ← load src (o + 2);
  b3 ← load src (o + 3);
  mret (b0 .| u32 (b1 << 8) .| u32 (b2 << 16) .| u32 (b3 << 24)).
Definition br_dec32be (src : list Z) (o : Z) : M Z :=
  b0 ← load src (o + 0);
  b1 ← load src (o + 1);
  b2 ← load src (o + 2);
  b3 ← load src (o + 3);
  mret (u32 (b0 << 24) .| u32 (b1 << 16) .| u32 (b2 << 8) .| b3).

Definition br_enc64le (dst : list Z) (o x : Z) : M (list Z) :=
  dst ← br_enc32le dst o (u32 x);
  br_enc32le dst (o + 4) (u32 (x >> 32)).
Definition br_enc64be (dst : list Z) (o x : Z) : M (list Z) :=
  dst ← br_enc32be dst o (u32 (x >> 32));
  br_enc32be dst (o + 4) (u32 x).
Definition br_dec64le (src : list Z) (o : Z) : M Z :=
  lo ← br_dec32le src o;
  hi ← br_dec32le src (o + 4);
  mret (lo .| u64 (hi << 32)).
Definition br_dec64be (src : list Z) (o : Z) : M Z :=
  hi ← br_dec32be src o;
  lo ← br_dec32be src (o + 4);
  mret (u64 (hi << 32) .| lo).

(** The range functions: [v] is read or written from its cell 0, the bytes are
    those of [src] or [dst] from the cell [o]. *)
Definition range_enc (enc : list Z -> Z -> Z -> M (list Z)) (sz : Z)
    (dst : list Z) (o : Z) (v : list Z) (num : Z) : M (list Z) :=
  for_up 0 num (fun k dst => x ← load v k; enc dst (o + sz * k) x) dst.
Definition range_dec (dec : list Z -> Z -> M Z) (sz : Z)
    (v : list Z) (num : Z) (src : list Z) (o : Z) : M (list Z) :=
  for_up 0 num (fun k v => x ← dec src (o + sz * k); store v k x) v.

Definition br_range_enc16le := range_enc br_enc16le 2.
Definition br_range_enc16be := range_enc br_enc16be 2.
Definition br_range_enc32le := range_enc br_enc32le 4.
Definition br_range_enc32be := range_enc br_enc32be 4.
Definition br_range_enc64le := range_enc br_enc64le 8.
Definition br_range_enc64be := range_enc br_enc64be 8.
Definition br_range_dec16le := range_dec br_dec16le 2.
Definition br_range_dec16be := range_dec br_dec16be 2.
Definition br_range_dec32le := range_dec br_dec32le 4.
Definition br_range_dec32be := range_dec br_dec32be 4.
Definition br_range_dec64le := range_dec br_dec64le 8.
Definition br_range_dec64be := range_dec br_dec64be 8.

(** * Byte strings as numbers *)

(** The big-endian value of [n] bytes. *)
Fixpoint vben (a : list Z) (o : Z) (n : nat) : Z :=
  match n with
  | O => 0
  | S n' => vben a o n' * 256 + get a (o + Z.of_nat n')
  end.
Definition vbe (a : list Z) (o n : Z) : Z := vben a o (Z.to_nat n).

(** The little-endian value is [val 8]. *)
Abbreviation bytes a o n := (limbs 8 a o n).
Abbreviation vle a o n := (val 8 a o n).

Lemma vbe_succ a o n : 0 <= n -> vbe a o (n + 1) = vbe a o n * 256 + get a (o + n).
Proof.
  intros. unfold vbe. replace (Z.to_nat (n + 1)) with (S (Z.to_nat n)) by lia.
  cbn [vben]. by rewrite Z2Nat.id by lia.
Qed.

Lemma vbe_bound a o n : 0 <= n -> bytes a o n -> 0 <= vbe a o n < 2 ^ (8 * n).
Proof.
  revert n. apply (limb_ind (fun n => _ -> _)); [done|]. intros n Hn IH HL.
  rewrite vbe_succ, (pow_limb 8) by lia.
  pose proof (limbs_get _ _ _ _ (o + n) HL ltac:(lia)).
  assert (bytes a o n) by (apply (limbs_sub 8 a o (n + 1)); [done|lia..]).
  specialize (IH H0). lia.
Qed.

Lemma vbe_ext a b o p n :
  0 <= n -> (forall i, 0 <= i < n -> get a (o + i) = get b (p + i)) -> vbe a o n = vbe b p n.
Proof.
  revert n. apply (limb_ind (fun n => _ -> _)); [done|]. intros n Hn IH HE.
  rewrite !vbe_succ, HE, IH by (done || lia || (intros; apply HE; lia)). done.
Qed.

(** Reading from the end, as the decoding loops of the big integers do. *)
Lemma vbe_cons a o n : 0 <= n -> vbe a o (n + 1) = get a o * 2 ^ (8 * n) + vbe a (o + 1) n.
Proof.
  revert n. apply limb_ind; [unfold vbe; simpl; rewrite Z.add_0_r; lia|].
  intros n Hn IH. rewrite vbe_succ, IH, (vbe_succ a (o + 1)), (pow_limb 8) by lia.
  replace (o + 1 + n) with (o + (n + 1)) by lia. ring.
Qed.

Lemma vbe_split a o n k :
  0 <= n -> 0 <= k -> vbe a o (n + k) = vbe a o n * 2 ^ (8 * k) + vbe a (o + n) k.
Proof.
  intros Hn. revert k. apply limb_ind; [rewrite Z.add_0_r, Z.mul_0_r; change (vbe a (o + n) 0) with 0; lia|].
  intros k Hk IH. rewrite Z.add_assoc, !vbe_succ, IH, (pow_limb 8), Z.add_assoc by lia. ring.
Qed.

(** A byte of a big-endian string is a bit field of its value. *)
Lemma vbe_bits a o n u : 0 <= u < n -> bytes a o n ->
  get a (o + (n - 1 - u)) = bits (vbe a o n) (8 * u) 8.
Proof.
  intros Hu HB. unfold bits.
  assert (E : vbe a o n / 2 ^ (8 * u) = vbe a o (n - u)).
  { replace n with (n - u + u) at 1 by lia. rewrite vbe_split by lia.
    rewrite Z.div_add_l by (pose proof (pow_limb_pos 8 ltac:(lia) u); lia).
    rewrite Z.div_small; [lia|]. apply vbe_bound; [lia|]. apply (limbs_sub 8 a o n); [done|lia..]. }
  rewrite E. replace (n - u) with (n - 1 - u + 1) by lia. rewrite vbe_succ by lia.
  change (2 ^ 8) with 256. rewrite (Z.add_comm (_ * 256)), Z.mod_add by lia. symmetry. apply Z.mod_small.
  apply (limbs_get _ _ _ _ _ HB). lia.
Qed.

Lemma val_4 w a o :
  val w a o 4 = get a (o + 0) + get a (o + 1) * 2 ^ w + get a (o + 2) * 2 ^ (w * 2)
    + get a (o + 3) * 2 ^ (w * 3).
Proof.
  change 4 with (3 + 1) at 1. rewrite val_succ by lia. change 3 with (2 + 1) at 1.
  rewrite val_succ by lia. change 2 with (1 + 1) at 1. rewrite val_succ, val_1 by lia.
  rewrite Z.add_0_r, Z.mul_1_r. ring.
Qed.

Lemma val_2 w a o : val w a o 2 = get a (o + 0) + get a (o + 1) * 2 ^ w.
Proof.
  change 2 with (1 + 1) at 1. rewrite val_succ, val_1, Z.add_0_r, Z.mul_1_r by lia. ring.
Qed.

(** * What a codec promises *)

Class WordCodec (sz : Z) (enc : list Z -> Z -> Z -> M (list Z)) (dec : list Z -> Z -> M Z)
    (value : list Z -> Z -> Z) := {
  codec_size : 0 < sz;
  codec_enc d o x : 0 <= o -> o + sz <= zlen d -> word (8 * sz) x ->
    ok (enc d o x) (fun d' => frame o (o + sz) d d' /\ bytes d' o sz /\ value d' o = x);
  codec_dec s o : 0 <= o -> o + sz <= zlen s -> bytes s o sz ->
    ok (dec s o) (fun x => x = value s o /\ word (8 * sz) x);
  codec_local d d' o p : (forall i, 0 <= i < sz -> get d (o + i) = get d' (p + i)) ->
    value d o = value d' p
}.

Ltac word_bytes := unfold word in *; unfold u8; zn.

(** Four bytes of a word. *)
Lemma split_32 x : word 32 x ->
  u8 x + u8 (x >> 8) * 2 ^ 8 + u8 (x >> 16) * 2 ^ 16 + u8 (x >> 24) * 2 ^ 24 = x.
Proof. intros. rewrite !shr_div by lia. word_bytes. Qed.

Lemma split_16 x : word 16 x -> u8 x + u8 (x >> 8) * 2 ^ 8 = x.
Proof. intros. rewrite !shr_div by lia. word_bytes. Qed.

Lemma join_32 b0 b1 b2 b3 : word 8 b0 -> word 8 b1 -> word 8 b2 -> word 8 b3 ->
  b0 .| u32 (b1 << 8) .| u32 (b2 << 16) .| u32 (b3 << 24) =
    b0 + b1 * 2 ^ 8 + b2 * 2 ^ 16 + b3 * 2 ^ 24.
Proof.
  unfold word. intros. rewrite !shl_mul by lia. rewrite !u32_small by (unfold word; lia).
  rewrite (lor_disjoint 8), (lor_disjoint 16), (lor_disjoint 24) by lia. done.
Qed.

Lemma lor4_rev a b c d : a .| b .| c .| d = d .| c .| b .| a.
Proof.
  by rewrite (Z.lor_comm _ d), (Z.lor_comm _ c), (Z.lor_comm a b), !Z.lor_assoc.
Qed.

Lemma join_16 b0 b1 : word 8 b0 -> word 8 b1 -> b0 .| u32 (b1 << 8) = b0 + b1 * 2 ^ 8.
Proof.
  unfold word. intros. rewrite !shl_mul by lia. rewrite !u32_small by (unfold word; lia).
  by rewrite (lor_disjoint 8) by lia.
Qed.

Lemma bytes4 a o b0 b1 b2 b3 : word 8 b0 -> word 8 b1 -> word 8 b2 -> word 8 b3 ->
  get a (o + 0) = b0 -> get a (o + 1) = b1 -> get a (o + 2) = b2 -> get a (o + 3) = b3 ->
  bytes a o 4.
Proof.
  intros ???? <- <- <- <- i Hi.
  assert (i = o + 0 \/ i = o + 1 \/ i = o + 2 \/ i = o + 3) as [-> | [-> | [-> | ->]]] by lia; done.
Qed.

(** Four successive stores. *)
Lemma store4_ok d o b0 b1 b2 b3 :
  0 <= o -> o + 4 <= zlen d -> word 8 b0 -> word 8 b1 -> word 8 b2 -> word 8 b3 ->
  ok (d ← store d (o + 0) b0; d ← store d (o + 1) b1; d ← store d (o + 2) b2;
      store d (o + 3) b3) (fun d' =>
    frame o (o + 4) d d' /\ bytes d' o 4 /\ get d' (o + 0) = b0 /\ get d' (o + 1) = b1 /\
    get d' (o + 2) = b2 /\ get d' (o + 3) = b3).
Proof.
  intros Ho Hl H0 H1 H2 H3. csteps. set (d' := upd _ (o + 3) b3).
  assert (E : get d' (o + 0) = b0 /\ get d' (o + 1) = b1 /\ get d' (o + 2) = b2 /\
    get d' (o + 3) = b3) by (unfold d'; repeat split; autorewrite with arr; done || lia).
  destruct E as (E0 & E1 & E2 & E3). split; [|split; [by apply (bytes4 d' o b0 b1 b2 b3)|done]].
  unfold d'. split; [autorewrite with arr; done|]. intros j ??. by autorewrite with arr.
Qed.

#[export] Instance codec32le :
  WordCodec 4 br_enc32le br_dec32le (fun a o => vle a o 4).
Proof.
  split; [done|..].
  - intros d o x Ho Hl Hx. eapply ok_mono; [apply store4_ok; auto with words|].
    intros d' (HF & HB & E0 & E1 & E2 & E3). split; [done|]. split; [done|].
    rewrite val_4, E0, E1, E2, E3. by apply split_32.
  - intros s o Ho Hl HB. unfold br_dec32le. csteps.
    rewrite join_32, <- (Z.mul_1_r 8) by (apply HB; lia). rewrite <- (val_4 8).
    split; [done|]. apply (val_bound 8 ltac:(lia) s o 4 ltac:(lia) HB).
  - intros d d' o p HE. by apply val_ext.
Qed.

Lemma vbe_1 a o : vbe a o 1 = get a o.
Proof. unfold vbe. simpl. by rewrite Z.add_0_r. Qed.

Lemma vbe_3 a o : vbe a o 3 = get a (o + 2) + get a (o + 1) * 2 ^ 8 + get a (o + 0) * 2 ^ 16.
Proof.
  change 3 with (0 + 1 + 1 + 1). rewrite !vbe_succ by lia. change (vbe a o 0) with 0.
  change (0 + 1 + 1) with 2. change (0 + 1) with 1. ring.
Qed.

Lemma vbe_4 a o : vbe a o 4 =
  get a (o + 3) + get a (o + 2) * 2 ^ 8 + get a (o + 1) * 2 ^ 16 + get a (o + 0) * 2 ^ 24.
Proof.
  change 4 with (0 + 1 + 1 + 1 + 1). rewrite !vbe_succ by lia. change (vbe a o 0) with 0.
  change (0 + 1 + 1 + 1) with 3. change (0 + 1 + 1) with 2. change (0 + 1) with 1. ring.
Qed.

Lemma vbe_2 a o : vbe a o 2 = get a (o + 1) + get a (o + 0) * 2 ^ 8.
Proof.
  change 2 with (0 + 1 + 1) at 1. rewrite !vbe_succ by lia. change (vbe a o 0) with 0.
  change (0 + 1) with 1. ring.
Qed.

Lemma vbe_frame a b o n lo hi :
  frame lo hi a b -> 0 <= o -> 0 <= n -> o + n <= lo \/ hi <= o -> vbe b o n = vbe a o n.
Proof. intros HF ? ? ?. apply vbe_ext; [done|]. intros. apply (frame_get lo hi); [done|lia..]. Qed.

#[export] Instance codec32be :
  WordCodec 4 br_enc32be br_dec32be (fun a o => vbe a o 4).
Proof.
  split; [done|..].
  - intros d o x Ho Hl Hx. eapply ok_mono; [apply store4_ok; auto with words|].
    intros d' (HF & HB & E0 & E1 & E2 & E3). split; [done|]. split; [done|].
    rewrite vbe_4, E0, E1, E2, E3. by apply split_32.
  - intros s o Ho Hl HB. unfold br_dec32be. csteps.
    rewrite lor4_rev, join_32 by (apply HB; lia). rewrite <- vbe_4.
    split; [done|]. apply (vbe_bound s o 4 ltac:(lia) HB).
  - intros d d' o p HE. by apply vbe_ext.
Qed.

(** Two successive stores. *)
Lemma store2_ok d o b0 b1 :
  0 <= o -> o + 2 <= zlen d -> word 8 b0 -> word 8 b1 ->
  ok (d ← store d (o + 0) b0; store d (o + 1) b1) (fun d' =>
    frame o (o + 2) d d' /\ bytes d' o 2 /\ get d' (o + 0) = b0 /\ get d' (o + 1) = b1).
Proof.
  intros Ho Hl H0 H1. csteps. set (d' := upd _ (o + 1) b1).
  assert (E : get d' (o + 0) = b0 /\ get d' (o + 1) = b1)
    by (unfold d'; split; autorewrite with arr; done || lia).
  destruct E as (E0 & E1). split; [|split; [|done]].
  - unfold d'. split; [autorewrite with arr; done|]. intros j ??. by autorewrite with arr.
  - intros i Hi. assert (i = o + 0 \/ i = o + 1) as [-> | ->] by lia; congruence.
Qed.

#[export] Instance codec16le :
  WordCodec 2 br_enc16le br_dec16le (fun a o => vle a o 2).
Proof.
  split; [done|..].
  - intros d o x Ho Hl Hx. eapply ok_mono; [apply store2_ok; auto with words|].
    intros d' (HF & HB & E0 & E1). split; [done|]. split; [done|].
    rewrite val_2, E0, E1. by apply split_16.
  - intros s o Ho Hl HB. unfold br_dec16le. csteps.
    rewrite join_16, <- val_2 by (apply HB; lia).
    split; [done|]. apply (val_bound 8 ltac:(lia) s o 2 ltac:(lia) HB).
  - intros d d' o p HE. by apply val_ext.
Qed.

#[export] Instance codec16be :
  WordCodec 2 br_enc16be br_dec16be (fun a o => vbe a o 2).
Proof.
  split; [done|..].
  - intros d o x Ho Hl Hx. eapply ok_mono; [apply store2_ok; auto with words|].
    intros d' (HF & HB & E0 & E1). split; [done|]. split; [done|].
    rewrite vbe_2, E0, E1. by apply split_16.
  - intros s o Ho Hl HB. unfold br_dec16be. csteps.
    rewrite Z.lor_comm, join_16, <- vbe_2 by (apply HB; lia).
    split; [done|]. apply (vbe_bound s o 2 ltac:(lia) HB).
  - intros d d' o p HE. by apply vbe_ext.
Qed.

(** A pair of 32-bit words. *)
Lemma bytes_8 a o : bytes a o 4 -> bytes a (o + 4) 4 -> bytes a o 8.
Proof. intros H1 H2 i Hi. destruct (Z.lt_ge_cases i (o + 4)); [apply H1|apply H2]; lia. Qed.

Lemma join_64 lo hi : word 32 lo -> word 32 hi ->
  lo .| u64 (hi << 32) = lo + hi * 2 ^ 32 /\ word 64 (lo + hi * 2 ^ 32).
Proof.
  unfold word. intros. rewrite shl_mul, u64_small by (unfold word; lia || lia).
  rewrite (lor_disjoint 32) by lia. split; [done|lia].
Qed.

Lemma enc64_ok enc dec value d o a b :
  WordCodec 4 enc dec value -> 0 <= o -> o + 8 <= zlen d -> word 32 a -> word 32 b ->
  ok (d ← enc d o a; enc d (o + 4) b) (fun d' =>
    frame o (o + 8) d d' /\ bytes d' o 8 /\ value d' o = a /\ value d' (o + 4) = b).
Proof.
  intros HC Ho Hl Ha Hb. cstep. eapply ok_mono; [apply (codec_enc (sz:=4) d o a); lia || done|].
  intros d1 (HF1 & HB1 & E1). pose proof (frame_len _ _ _ _ HF1).
  eapply ok_mono; [apply (codec_enc (sz:=4) d1 (o + 4) b); lia || done|].
  intros d2 (HF2 & HB2 & E2). split; [|split; [|split; [|done]]].
  - eapply frame_trans; [apply (frame_weaken _ _ o (o + 8) _ _ HF1)|
      apply (frame_weaken _ _ o (o + 8) _ _ HF2)]; lia.
  - apply bytes_8; [|done]. apply (limbs_frame 8 d1 d2 o 4 _ _ HB1 HF2); lia.
  - rewrite <- E1. apply codec_local. intros i Hi. apply (frame_get _ _ _ _ _ HF2); lia.
Qed.

Lemma split_64 x : word 64 x -> u32 x + u32 (x >> 32) * 2 ^ 32 = x.
Proof. unfold word. intros. rewrite shr_div by lia. unfold u32. zn. Qed.

#[export] Instance codec64le :
  WordCodec 8 br_enc64le br_dec64le (fun a o => vle a o 8).
Proof.
  assert (E8 : forall a o, vle a o 8 = vle a o 4 + vle a (o + 4) 4 * 2 ^ 32).
  { intros. change 8 with (4 + 4) at 2. rewrite val_split by lia. change (8 * 4) with 32. ring. }
  split; [done|..].
  - intros d o x Ho Hl Hx. eapply ok_mono; [apply (enc64_ok _ _ _ d o _ _ codec32le); auto with words|].
    cbv beta. intros d' (HF & HB & E0 & E1). split; [done|]. split; [done|].
    rewrite E8, E0, E1. by apply split_64.
  - intros s o Ho Hl HB. unfold br_dec64le.
    cstep. eapply ok_mono; [apply (codec_dec (sz:=4) s o); [lia..|by apply (limbs_sub 8 s o 8); [|lia..]]|].
    intros lo [-> Wl].
    cstep. eapply ok_mono; [apply (codec_dec (sz:=4) s (o + 4)); [lia..|by apply (limbs_sub 8 s o 8); [|lia..]]|].
    intros hi [-> Wh]. cstep. rewrite E8.
    destruct (join_64 _ _ Wl Wh) as [E W]. by rewrite E.
  - intros d d' o p HE. by apply val_ext.
Qed.

#[export] Instance codec64be :
  WordCodec 8 br_enc64be br_dec64be (fun a o => vbe a o 8).
Proof.
  assert (E8 : forall a o, vbe a o 8 = vbe a (o + 4) 4 + vbe a o 4 * 2 ^ 32).
  { intros. change 8 with (4 + 4). rewrite vbe_split by lia. change (8 * 4) with 32. ring. }
  split; [done|..].
  - intros d o x Ho Hl Hx. eapply ok_mono; [apply (enc64_ok _ _ _ d o _ _ codec32be); auto with words|].
    cbv beta. intros d' (HF & HB & E0 & E1). split; [done|]. split; [done|].
    rewrite E8, E0, E1. by apply split_64.
  - intros s o Ho Hl HB. unfold br_dec64be.
    cstep. eapply ok_mono; [apply (codec_dec (sz:=4) s o); [lia..|by apply (limbs_sub 8 s o 8); [|lia..]]|].
    intros hi [-> Wh].
    cstep. eapply ok_mono; [apply (codec_dec (sz:=4) s (o + 4)); [lia..|by apply (limbs_sub 8 s o 8); [|lia..]]|].
    intros lo [-> Wl]. cstep. rewrite E8, Z.lor_comm.
    destruct (join_64 _ _ Wl Wh) as [E W]. by rewrite E.
  - intros d d' o p HE. by apply vbe_ext.
Qed.

(** * The range functions, for any codec *)

Section Range.
Context {sz : Z} {enc : list Z -> Z -> Z -> M (list Z)} {dec : list Z -> Z -> M Z}
  {value : list Z -> Z -> Z} {HC : WordCodec sz enc dec value}.

Lemma range_enc_ok dst o v num :
  0 <= o -> 0 <= num -> num <= zlen v -> o + sz * num <= zlen dst ->
  (forall i, 0 <= i < num -> word (8 * sz) (get v i)) ->
  ok (range_enc enc sz dst o v num) (fun d =>
    frame o (o + sz * num) dst d /\ bytes d o (sz * num) /\
    forall i, 0 <= i < num -> value d (o + sz * i) = get v i).
Proof.
  intros Ho Hn Hv Hd Hw. pose proof (codec_size (sz:=sz) : 0 < sz) as Hsz. unfold range_enc.
  apply (ok_for_up (fun k d => frame o (o + sz * k) dst d /\ bytes d o (sz * k) /\
    forall i, 0 <= i < k -> value d (o + sz * i) = get v i)).
  - lia.
  - rewrite Z.mul_0_r, Z.add_0_r. split; [apply frame_refl|]. split; [apply limbs_nil|lia].
  - intros k d Hk (HF & HB & HV). pose proof (frame_len _ _ _ _ HF). csteps.
    eapply ok_mono; [apply (codec_enc (sz:=sz) d (o + sz * k) (get v k)); [nia|nia|by apply Hw]|].
    intros d' (HF' & HB' & E'). rewrite Z.mul_add_distr_l, Z.mul_1_r. split; [|split].
    + eapply frame_trans; [apply (frame_weaken _ _ o (o + (sz * k + sz)) _ _ HF)|
        apply (frame_weaken _ _ o (o + (sz * k + sz)) _ _ HF')]; nia.
    + intros i Hi. destruct (Z.lt_ge_cases i (o + sz * k)).
      * rewrite (frame_get _ _ _ _ _ HF') by nia. apply HB. lia.
      * apply HB'. lia.
    + intros i Hi. destruct (Z.eq_dec i k) as [->|]; [done|]. rewrite <- HV by lia.
      apply codec_local. intros j Hj. apply (frame_get _ _ _ _ _ HF'); nia.
  - done.
Qed.

Lemma range_dec_ok v num src o :
  0 <= o -> 0 <= num -> num <= zlen v -> o + sz * num <= zlen src -> bytes src o (sz * num) ->
  ok (range_dec dec sz v num src o) (fun v' =>
    frame 0 num v v' /\ forall i, 0 <= i < num -> get v' i = value src (o + sz * i)).
Proof.
  intros Ho Hn Hv Hd HB. pose proof (codec_size (sz:=sz) : 0 < sz) as Hsz. unfold range_dec.
  apply (ok_for_up (fun k v' => frame 0 k v v' /\
    forall i, 0 <= i < k -> get v' i = value src (o + sz * i))).
  - lia.
  - split; [apply frame_refl|lia].
  - intros k v' Hk (HF & HV). pose proof (frame_len _ _ _ _ HF). cstep.
    eapply ok_mono; [apply (codec_dec (sz:=sz) src (o + sz * k)); [nia|nia|]|].
    { apply (limbs_sub 8 src o (sz * num)); [done|nia|nia]. }
    intros x [-> Hx]. cstep. split.
    + eapply frame_trans; [by apply (frame_weaken _ _ 0 (k + 1) _ _ HF); lia|]. apply frame_upd; lia.
    + intros i Hi. destruct (Z.eq_dec i k) as [->|]; [by rewrite get_upd_eq by lia|].
      rewrite get_upd_ne by lia. apply HV. lia.
  - done.
Qed.

(** Decoding what was encoded gives the words back. *)
Lemma range_round_trip dst o v w num :
  0 <= o -> 0 <= num -> num <= zlen v -> num <= zlen w -> o + sz * num <= zlen dst ->
  (forall i, 0 <= i < num -> word (8 * sz) (get v i)) ->
  ok (d ← range_enc enc sz dst o v num; range_dec dec sz w num d o) (fun w' =>
    frame 0 num w w' /\ forall i, 0 <= i < num -> get w' i = get v i).
Proof.
  intros Ho Hn Hv Hw Hd HW. cstep. eapply ok_mono; [by apply range_enc_ok|].
  intros d (HF & HB & HV). pose proof (frame_len _ _ _ _ HF).
  eapply ok_mono; [apply (range_dec_ok w num d o); done || lia|].
  intros w' (HF' & HV'). split; [done|]. intros i Hi. by rewrite HV', HV.
Qed.
End Range.

(** * The round trips of the six pairs *)

(** [enc] then [dec]: the range functions of each width and byte order are
    inverse to each other. *)
Theorem br_range_round_trip dst o v w num :
  0 <= o -> 0 <= num -> num <= zlen v -> num <= zlen w ->
  let back sz m := o + sz * num <= zlen dst ->
    (forall i, 0 <= i < num -> word (8 * sz) (get v i)) ->
    ok m (fun w' => frame 0 num w w' /\ forall i, 0 <= i < num -> get w' i = get v i) in
  back 2 (d ← br_range_enc16le dst o v num; br_range_dec16le w num d o) /\
  back 2 (d ← br_range_enc16be dst o v num; br_range_dec16be w num d o) /\
  back 4 (d ← br_range_enc32le dst o v num; br_range_dec32le w num d o) /\
  back 4 (d ← br_range_enc32be dst o v num; br_range_dec32be w num d o) /\
  back 8 (d ← br_range_enc64le dst o v num; br_range_dec64le w num d o) /\
  back 8 (d ← br_range_enc64be dst o v num; br_range_dec64be w num d o).
Proof.
  intros ???? back. split_and!; intros ??;
    [by apply (range_round_trip (HC:=codec16le))|by apply (range_round_trip (HC:=codec16be))
    |by apply (range_round_trip (HC:=codec32le))|by apply (range_round_trip (HC:=codec32be))
    |by apply (range_round_trip (HC:=codec64le))|by apply (range_round_trip (HC:=codec64be))].
Qed.

(** The layout itself: the little-endian functions write the word as its
    base-256 digits, the big-endian ones in the reverse order. *)
Theorem br_enc_layout dst o x :
  0 <= o -> o + 8 <= zlen dst -> word 64 x ->
  ok (br_enc64le dst o x) (fun d => frame o (o + 8) dst d /\ bytes d o 8 /\ vle d o 8 = x) /\
  ok (br_enc64be dst o x) (fun d => frame o (o + 8) dst d /\ bytes d o 8 /\ vbe d o 8 = x) /\
  ok (br_enc32le dst o (u32 x)) (fun d => frame o (o + 4) dst d /\ bytes d o 4 /\ vle d o 4 = u32 x) /\
  ok (br_enc32be dst o (u32 x)) (fun d => frame o (o + 4) dst d /\ bytes d o 4 /\ vbe d o 4 = u32 x) /\
  ok (br_enc16le dst o (u16 x)) (fun d => frame o (o + 2) dst d /\ bytes d o 2 /\ vle d o 2 = u16 x) /\
  ok (br_enc16be dst o (u16 x)) (fun d => frame o (o + 2) dst d /\ bytes d o 2 /\ vbe d o 2 = u16 x).
Proof.
  intros Ho Hl Hx. split_and!.
  - apply codec64le; done || lia.
  - apply codec64be; done || lia.
  - apply codec32le; auto with words; lia.
  - apply codec32be; auto with words; lia.
  - apply codec16le; auto with words; lia.
  - apply codec16be; auto with words; lia.
Qed.

Lemma br_range_round_trip_witness :
  ok (d ← br_range_enc32be [0; 0; 0; 0; 0; 0; 0; 0; 0] 1 [0xDEADBEEF; 7] 2;
      br_range_dec32be [0; 0] 2 d 1) (fun w' =>
    frame 0 2 [0; 0] w' /\ forall i, 0 <= i < 2 -> get w' i = get [0xDEADBEEF; 7] i).
Proof.
  destruct (br_range_round_trip [0; 0; 0; 0; 0; 0; 0; 0; 0] 1 [0xDEADBEEF; 7] [0; 0] 2)
    as (_ & _ & _ & H & _); [lia|lia|simpl; lia|simpl; lia|]. apply H; [simpl; lia|].
  intros i Hi. assert (i = 0 \/ i = 1) as [-> | ->] by lia; done.
Defined.

Lemma br_enc_layout_witness :
  ok (br_enc64be (replicate 9 0) 1 0x0102030405060708) (fun d =>
    frame 1 9 (replicate 9 0) d /\ bytes d 1 8 /\ vbe d 1 8 = 0x0102030405060708).
Proof. apply (br_enc_layout (replicate 9 0) 1 0x0102030405060708); [lia|done|done]. Defined.
