(* ===== verification/Ccopy.v ===== *)
(** The conditional copies of [src/codec/ccopy.c]: the constant-time
    [br_ccopy], and the variants [br_ccopy_v1] and [br_ccopy_v2] that branch on
    the condition.

    The copies work on bytes.  The integers they are applied to are arrays of
    32-bit words; [bytes_of] and [words_of] are the little-endian object
    representation of such an array and the way back. *)
From stdpp Require Import base tactics list numbers option.
From Stdlib Require Import ZArith Lia.
From S2P Require Import Prelude CtPrims Limbs Codec.
Local Open Scope Z_scope.
Local Open Scope cword_scope.

(** * Code *)

Definition br_ccopy (ctl : Z) (dst src : list Z) (len : Z) : M (list Z) :=
  for_up 0 len (fun u dst =>
    x ← load src u;
    y ← load dst u;
    store dst u (u8 (MUX ctl x y))) dst.

Definition br_ccopy_v1 (ctl : Z) (dst src : list Z) (len : Z) : M (list Z) :=
  If negb (ctl =? 0) Then memcpy dst 0 src 0 len Else mret dst.

Definition br_ccopy_v2 (ctl : Z) (dst dummy src : list Z) (len : Z) : M (list Z * list Z) :=
  If negb (ctl =? 0)
  Then dst ← memcpy dst 0 src 0 len; mret (dst, dummy)
  Else dummy ← memcpy dummy 0 src 0 len; mret (dst, dummy).

(** * Words as bytes *)

Definition byte_of (a : list Z) (k : Z) : Z := u8 (get a (k / 4) >> (8 * (k mod 4))).
Definition bytes_of (a : list Z) : list Z :=
  map (fun k => byte_of a (Z.of_nat k)) (seq 0 (4 * length a)).
Definition words_of (b : list Z) (n : Z) : list Z :=
  map (fun i => vle b (4 * Z.of_nat i) 4) (seq 0 (Z.to_nat n)).

(** The copies applied to the first [n] words of an array. *)
Definition ccopy_words (ctl : Z) (dst src : list Z) (n : Z) : M (list Z) :=
  d ← br_ccopy ctl (bytes_of (take (Z.to_nat n) dst)) (bytes_of (take (Z.to_nat n) src)) (4 * n);
  mret (words_of d n ++ drop (Z.to_nat n) dst).
Definition ccopy_v1_words (ctl : Z) (dst src : list Z) (n : Z) : M (list Z) :=
  d ← br_ccopy_v1 ctl (bytes_of (take (Z.to_nat n) dst)) (bytes_of (take (Z.to_nat n) src)) (4 * n);
  mret (words_of d n ++ drop (Z.to_nat n) dst).
Definition ccopy_v2_words (ctl : Z) (dst dummy src : list Z) (n : Z) : M (list Z * list Z) :=
  '(d, r) ← br_ccopy_v2 ctl (bytes_of (take (Z.to_nat n) dst)) (bytes_of (take (Z.to_nat n) dummy))
    (bytes_of (take (Z.to_nat n) src)) (4 * n);
  mret (words_of d n ++ drop (Z.to_nat n) dst, words_of r n ++ drop (Z.to_nat n) dummy).

Lemma zlen_bytes_of a : zlen (bytes_of a) = 4 * zlen a.
Proof. unfold bytes_of. rewrite length_map, length_seq. lia. Qed.

Lemma get_bytes_of a k : 0 <= k < 4 * zlen a -> get (bytes_of a) k = byte_of a k.
Proof. intros. unfold bytes_of. rewrite get_map_seq by lia. by rewrite Z2Nat.id by lia. Qed.

Lemma bytes_bytes_of a : bytes (bytes_of a) 0 (4 * zlen a).
Proof. intros i Hi. rewrite get_bytes_of by lia. apply u8_word. Qed.

Lemma zlen_words_of b n : 0 <= n -> zlen (words_of b n) = n.
Proof. intros. unfold words_of. rewrite length_map, length_seq. lia. Qed.

Lemma get_words_of b n i : 0 <= i < n -> get (words_of b n) i = vle b (4 * i) 4.
Proof. intros. unfold words_of. rewrite get_map_seq by lia. by rewrite Z2Nat.id by lia. Qed.

(** The representation determines the words. *)
Lemma words_of_bytes_of a : limbs 32 a 0 (zlen a) -> words_of (bytes_of a) (zlen a) = a.
Proof.
  intros HL. apply list_eq_get; rewrite zlen_words_of by lia; [done|]. intros i Hi.
  rewrite get_words_of, val_4, !get_bytes_of by lia. unfold byte_of.
  replace ((4 * i + 0) / 4) with i by zn. replace ((4 * i + 1) / 4) with i by zn.
  replace ((4 * i + 2) / 4) with i by zn. replace ((4 * i + 3) / 4) with i by zn.
  replace ((4 * i + 0) mod 4) with 0 by zn. replace ((4 * i + 1) mod 4) with 1 by zn.
  replace ((4 * i + 2) mod 4) with 2 by zn. replace ((4 * i + 3) mod 4) with 3 by zn.
  apply split_32, HL. lia.
Qed.

Lemma limbs_take w a n : 0 <= n <= zlen a -> limbs w a 0 n ->
  limbs w (take (Z.to_nat n) a) 0 (zlen (take (Z.to_nat n) a)).
Proof.
  intros Hn HL i Hi. rewrite length_take in Hi. rewrite get_lookup, lookup_take_lt by lia.
  rewrite <- get_lookup. apply HL. lia.
Qed.

Lemma zlen_take (a : list Z) n : 0 <= n <= zlen a -> zlen (take (Z.to_nat n) a) = n.
Proof. intros. rewrite length_take. lia. Qed.

Lemma words_take a n : 0 <= n <= zlen a -> limbs 32 a 0 n ->
  words_of (bytes_of (take (Z.to_nat n) a)) n = take (Z.to_nat n) a.
Proof.
  intros Hn HL. pose proof (words_of_bytes_of _ (limbs_take 32 a n Hn HL)) as E.
  by rewrite zlen_take in E.
Qed.

Lemma blit_all d s n : zlen d = n -> zlen s = n -> blit d 0 s 0 n = s.
Proof.
  intros Hd Hs. unfold blit. rewrite Z.add_0_l, (drop_ge d) by lia. simpl.
  rewrite app_nil_r. apply take_ge. lia.
Qed.

Lemma blit_prefix d s n : 0 <= n ->
  blit d 0 s 0 n = take (Z.to_nat n) s ++ drop (Z.to_nat n) d.
Proof. intros. unfold blit. by rewrite Z.add_0_l. Qed.

(** * The copies *)

Lemma br_ccopy_ok (c : bool) dst src len :
  0 <= len -> len <= zlen dst -> len <= zlen src -> bytes dst 0 len -> bytes src 0 len ->
  ok (br_ccopy (b2z c) dst src len) (fun d => d = if c then blit dst 0 src 0 len else dst).
Proof.
  intros Hn Hd Hs HBd HBs. unfold br_ccopy.
  apply (ok_for_up (fun u d => d = if c then blit dst 0 src 0 u else dst)); [done| | |done].
  - destruct c; [|done]. unfold blit. simpl. by rewrite drop_0.
  - intros u d Hu ->.
    assert (E : get (if c then blit dst 0 src 0 u else dst) u = get dst u)
      by (destruct c; [by apply get_blit_out; lia|done]).
    assert (L : zlen (if c then blit dst 0 src 0 u else dst) = zlen dst)
      by (destruct c; [by apply zlen_blit; lia|done]).
    csteps. rewrite E. pose proof (limbs_get _ _ _ _ u HBs ltac:(lia)) as Ws.
    pose proof (limbs_get _ _ _ _ u HBd ltac:(lia)) as Wd.
    rewrite MUX_spec by (unfold word; lia).
    rewrite u8_small by (destruct c; unfold word; lia).
    destruct c; [|by apply upd_id; lia].
    apply list_eq_get; rewrite zlen_upd, !zlen_blit by lia; [done|]. intros i Hi.
    destruct (Z.eq_dec i u) as [->|].
    + rewrite get_upd_eq, get_blit_in by (rewrite ?zlen_blit; lia). f_equal. lia.
    + rewrite get_upd_ne by lia. destruct (Z.lt_ge_cases i u).
      * rewrite !get_blit_in by lia. done.
      * rewrite !get_blit_out by lia. done.
Qed.

Lemma br_ccopy_v1_ok (c : bool) dst src len :
  0 <= len -> len <= zlen dst -> len <= zlen src ->
  ok (br_ccopy_v1 (b2z c) dst src len) (fun d => d = if c then blit dst 0 src 0 len else dst).
Proof.
  intros. unfold br_ccopy_v1. destruct c; csteps; try done. by apply ok_memcpy.
Qed.

Lemma br_ccopy_v2_ok (c : bool) dst dummy src len :
  0 <= len -> len <= zlen dst -> len <= zlen src -> len <= zlen dummy ->
  ok (br_ccopy_v2 (b2z c) dst dummy src len) (fun '(d, r) =>
    d = (if c then blit dst 0 src 0 len else dst) /\
    r = (if c then dummy else blit dummy 0 src 0 len)).
Proof.
  intros. unfold br_ccopy_v2. destruct c; csteps; try done; by apply ok_memcpy.
Qed.

(** The three copies have the same effect on the destination: the source when
    the condition is 1, nothing when it is 0; [br_ccopy_v2] writes its dummy in
    the second case. *)
Theorem br_ccopy_equiv (c : bool) dst dummy src len :
  0 <= len -> len <= zlen dst -> len <= zlen src -> len <= zlen dummy ->
  bytes dst 0 len -> bytes src 0 len ->
  let res := if c then blit dst 0 src 0 len else dst in
  ok (br_ccopy (b2z c) dst src len) (fun d => d = res) /\
  ok (br_ccopy_v1 (b2z c) dst src len) (fun d => d = res) /\
  ok (br_ccopy_v2 (b2z c) dst dummy src len) (fun '(d, r) =>
    d = res /\ r = if c then dummy else blit dummy 0 src 0 len).
Proof.
  intros. split; [by apply br_ccopy_ok|]. split; [by apply br_ccopy_v1_ok|by apply br_ccopy_v2_ok].
Qed.

(** * What the copies leak *)

Lemma br_ccopy_ct ctl1 ctl2 d1 d2 s1 s2 len :
  ct (fun _ _ => True) (br_ccopy ctl1 d1 s1 len) (br_ccopy ctl2 d2 s2 len).
Proof.
  unfold br_ccopy. apply ct_for_up; [done..|]. intros k x y _.
  do 2 (ct_step; [done|]). by ct_step.
Qed.

(** [br_ccopy] is constant-time: its accesses depend neither on the condition
    nor on the contents. *)
Theorem br_ccopy_constant_time (c1 c2 : bool) d1 d2 s1 s2 len :
  0 <= len -> len <= zlen d1 -> len <= zlen s1 -> len <= zlen d2 -> len <= zlen s2 ->
  bytes d1 0 len -> bytes s1 0 len -> bytes d2 0 len -> bytes s2 0 len ->
  exists t, trace (br_ccopy (b2z c1) d1 s1 len) = Some t /\
            trace (br_ccopy (b2z c2) d2 s2 len) = Some t.
Proof.
  intros. eapply ct_trace; [apply br_ccopy_ct|by apply br_ccopy_ok|by apply br_ccopy_ok].
Qed.

(** [C36] The two variants leak the condition: whenever two runs have the same trace
    their conditions are equal. *)
Theorem br_ccopy_variants_leak (c1 c2 : bool) d1 d2 r1 r2 s1 s2 len :
  0 <= len -> len <= zlen d1 -> len <= zlen s1 -> len <= zlen d2 -> len <= zlen s2 ->
  len <= zlen r1 -> len <= zlen r2 ->
  (trace (br_ccopy_v1 (b2z c1) d1 s1 len) = trace (br_ccopy_v1 (b2z c2) d2 s2 len) <-> c1 = c2) /\
  (trace (br_ccopy_v2 (b2z c1) d1 r1 s1 len) = trace (br_ccopy_v2 (b2z c2) d2 r2 s2 len) <-> c1 = c2).
Proof.
  intros. unfold br_ccopy_v1, br_ccopy_v2, memcpy.
  assert (HR : forall a, len <= zlen a -> in_range a 0 len = true)
    by (intros; apply in_range_true; lia).
  rewrite !HR by done. destruct c1, c2; simpl; rewrite ?HR by done; done.
Qed.

(** * The copies of words *)

(** What a modular exponentiation needs of its conditional copy, with [R] the
    type of what the copy carries along (the dummy array of [br_ccopy_v2]). *)
Class CondCopy {R} (room : Z -> R -> Prop)
    (copy : Z -> list Z -> R -> list Z -> Z -> M (list Z * R)) := {
  cond_copy (c : bool) dst r src n :
    0 <= n -> n <= zlen dst -> n <= zlen src -> limbs 32 dst 0 n -> limbs 32 src 0 n -> room n r ->
    ok (copy (b2z c) dst r src n) (fun '(d, r') =>
      d = (if c then blit dst 0 src 0 n else dst) /\ room n r')
}.

(** A copy whose accesses do not depend on the condition. *)
Class CtCopy {R} (copy : Z -> list Z -> R -> list Z -> Z -> M (list Z * R)) := {
  ct_copy ctl1 ctl2 d1 d2 r1 r2 s1 s2 n :
    ct (fun _ _ => True) (copy ctl1 d1 r1 s1 n) (copy ctl2 d2 r2 s2 n)
}.

(** A copy whose trace gives the condition away. *)
Class LeakyCopy {R} (copy : Z -> list Z -> R -> list Z -> Z -> M (list Z * R)) := {
  leaky_copy (c1 c2 : bool) d1 d2 r1 r2 s1 s2 n :
    reveals (fun _ _ => c1 = c2) (copy (b2z c1) d1 r1 s1 n) (copy (b2z c2) d2 r2 s2 n)
}.

Definition copy_v0 (ctl : Z) (dst : list Z) (r : unit) (src : list Z) (n : Z) : M (list Z * unit) :=
  d ← ccopy_words ctl dst src n; mret (d, ()).
Definition copy_v1 (ctl : Z) (dst : list Z) (r : unit) (src : list Z) (n : Z) : M (list Z * unit) :=
  d ← ccopy_v1_words ctl dst src n; mret (d, ()).

Lemma words_copy dst src n (c : bool) :
  0 <= n -> n <= zlen dst -> n <= zlen src -> limbs 32 dst 0 n -> limbs 32 src 0 n ->
  let b a := bytes_of (take (Z.to_nat n) a) in
  words_of (if c then blit (b dst) 0 (b src) 0 (4 * n) else b dst) n ++ drop (Z.to_nat n) dst =
  if c then blit dst 0 src 0 n else dst.
Proof.
  intros Hn Hd Hs HLd HLs b. destruct c.
  - rewrite blit_all by (unfold b; rewrite zlen_bytes_of, zlen_take; lia).
    unfold b. by rewrite words_take, blit_prefix by (done || lia).
  - unfold b. by rewrite words_take, take_drop by (done || lia).
Qed.

Lemma bytes_take a n : 0 <= n <= zlen a -> bytes (bytes_of (take (Z.to_nat n) a)) 0 (4 * n).
Proof. intros. pose proof (bytes_bytes_of (take (Z.to_nat n) a)). by rewrite zlen_take in H0. Qed.

Lemma ccopy_words_ok (c : bool) dst src n :
  0 <= n -> n <= zlen dst -> n <= zlen src -> limbs 32 dst 0 n -> limbs 32 src 0 n ->
  ok (ccopy_words (b2z c) dst src n) (fun d => d = if c then blit dst 0 src 0 n else dst).
Proof.
  intros Hn Hd Hs HLd HLs. unfold ccopy_words. cstep.
  eapply ok_mono; [apply br_ccopy_ok; rewrite ?zlen_bytes_of, ?zlen_take by lia; try lia;
    by apply bytes_take|].
  intros d ->. cstep. by apply words_copy.
Qed.

#[export] Instance copy_v0_cond : CondCopy (fun _ _ => True) copy_v0.
Proof.
  split. intros c dst [] src n Hn Hd Hs HLd HLs _. unfold copy_v0. cstep.
  eapply ok_mono; [by apply ccopy_words_ok|]. intros d ->. by cstep.
Qed.

#[export] Instance copy_v1_cond : CondCopy (fun _ _ => True) copy_v1.
Proof.
  split. intros c dst [] src n Hn Hd Hs HLd HLs _. unfold copy_v1, ccopy_v1_words. cstep. cstep.
  eapply ok_mono; [apply br_ccopy_v1_ok; rewrite ?zlen_bytes_of, ?zlen_take by lia; lia|].
  intros d ->. cstep. cstep. split; [|done]. by apply words_copy.
Qed.

#[export] Instance copy_v2_cond : CondCopy (fun n r => n <= zlen r) ccopy_v2_words.
Proof.
  split. intros c dst r src n Hn Hd Hs HLd HLs Hr. unfold ccopy_v2_words. cstep.
  eapply ok_mono; [apply br_ccopy_v2_ok; rewrite ?zlen_bytes_of, ?zlen_take by lia; lia|].
  intros [d r'] [-> ->]. cstep. split; [by apply words_copy|].
  rewrite length_app, Nat2Z.inj_add, zlen_words_of by lia. lia.
Qed.

Lemma ccopy_words_ct ctl1 ctl2 d1 d2 s1 s2 n :
  ct (fun _ _ => True) (ccopy_words ctl1 d1 s1 n) (ccopy_words ctl2 d2 s2 n).
Proof. unfold ccopy_words. ct_step; [apply br_ccopy_ct|intros; by apply ct_ret]. Qed.

#[export] Instance copy_v0_ct : CtCopy copy_v0.
Proof.
  split. intros. unfold copy_v0. ct_step; [apply ccopy_words_ct|intros; by apply ct_ret].
Qed.

#[export] Instance copy_v1_leaky : LeakyCopy copy_v1.
Proof.
  split. intros. unfold copy_v1, ccopy_v1_words, br_ccopy_v1.
  eapply (reveals_bind (fun _ _ => c1 = c2)); [|intros; by apply reveals_ct, ct_ret].
  eapply (reveals_bind (fun _ _ => c1 = c2)); [|intros; by apply reveals_ct, ct_ret].
  eapply reveals_mono; [apply (reveals_cond (fun _ _ => True))|].
  - intros E. apply reveals_ct. destruct c1, c2; try done; simpl.
    + eapply ct_mono; [by apply ct_memcpy|done].
    + by apply ct_ret.
  - intros ? ? [E _]. by destruct c1, c2.
Qed.

#[export] Instance copy_v2_leaky : LeakyCopy ccopy_v2_words.
Proof.
  split. intros. unfold ccopy_v2_words, br_ccopy_v2.
  eapply (reveals_bind (fun _ _ => c1 = c2)); [|intros [] [] ?; by apply reveals_ct, ct_ret].
  eapply reveals_mono; [apply (reveals_cond (fun _ _ => True))|].
  - intros E. apply reveals_ct. destruct c1, c2; try done; simpl;
      (ct_step; [done..|intros; by apply ct_ret]).
  - intros ? ? [E _]. by destruct c1, c2.
Qed.

(** * Concrete instances *)

Lemma br_ccopy_equiv_witness :
  ok (br_ccopy (b2z true) [1; 2; 3] [4; 5; 6] 2) (fun d => d = [4; 5; 3]) /\
  ok (br_ccopy_v1 (b2z true) [1; 2; 3] [4; 5; 6] 2) (fun d => d = [4; 5; 3]) /\
  ok (br_ccopy_v2 (b2z true) [1; 2; 3] [0; 0] [4; 5; 6] 2) (fun '(d, r) =>
    d = [4; 5; 3] /\ r = [0; 0]).
Proof.
  apply (br_ccopy_equiv true [1; 2; 3] [0; 0] [4; 5; 6] 2);
    [done..|by apply limbsb_limbs|by apply limbsb_limbs].
Defined.

Lemma br_ccopy_constant_time_witness :
  exists t, trace (br_ccopy (b2z true) [1; 2; 3] [4; 5; 6] 2) = Some t /\
            trace (br_ccopy (b2z false) [7; 8] [9; 0] 2) = Some t.
Proof.
  apply (br_ccopy_constant_time true false [1; 2; 3] [7; 8] [4; 5; 6] [9; 0] 2);
    [done..|by apply limbsb_limbs|by apply limbsb_limbs|by apply limbsb_limbs|by apply limbsb_limbs].
Defined.

Lemma br_ccopy_variants_leak_witness :
  trace (br_ccopy_v1 (b2z true) [1; 2] [3; 4] 2) <> trace (br_ccopy_v1 (b2z false) [1; 2] [3; 4] 2).
Proof.
  destruct (br_ccopy_variants_leak true false [1; 2] [1; 2] [0; 0] [0; 0] [3; 4] [3; 4] 2)
    as [[H _] _]; [done..|]. intros E. by apply H in E.
Defined.
