(* ===== verification/I31.v ===== *)
(** The 31-bit big integers, [src/int/i31_*.c]: layout, addition, subtraction,
    zero test, shift, bit length and the inverse of a word.

    An integer is an array [x]: the cell 0 is the encoded bit length, the cells
    from 1 hold 31-bit limbs, least significant first. *)
From stdpp Require Import base tactics list numbers option.
From Stdlib Require Import ZArith Lia.
From S2P Require Import Prelude CtPrims Limbs.
Local Open Scope Z_scope.
Local Open Scope cword_scope.

(** * Code *)

Definition br_i31_zero (x : list Z) (bit_len : Z) : M (list Z) :=
  x ← store x 0 bit_len;
  memset x 1 0 (u32 (bit_len + 31) >> 5).

Definition br_i31_iszero (x : list Z) : M Z :=
  x0 ← load x 0;
  z ← for_down1 (u32 (x0 + 31) >> 5) (fun u z =>
    xu ← load x u;
    mret (z .| xu)) 0;
  mret (u32 (Z.lnot (z .| u32 (- z))) >> 31).

Definition br_i31_add (a b : list Z) (ctl : Z) : M (Z * list Z) :=
  a0 ← load a 0;
  let m := u32 (a0 + 63) >> 5 in
  for_up 1 m (fun u '(cc, a) =>
    aw ← load a u;
    bw ← load b u;
    let naw := u32 (aw + bw + cc) in
    let cc := naw >> 31 in
    a ← store a u (MUX ctl (naw .& 0x7FFFFFFF) aw);
    mret (cc, a)) (0, a).

Definition br_i31_sub (a b : list Z) (ctl : Z) : M (Z * list Z) :=
  a0 ← load a 0;
  let m := u32 (a0 + 63) >> 5 in
  for_up 1 m (fun u '(cc, a) =>
    aw ← load a u;
    bw ← load b u;
    let naw := u32 (aw - bw - cc) in
    let cc := naw >> 31 in
    a ← store a u (MUX ctl (naw .& 0x7FFFFFFF) aw);
    mret (cc, a)) (0, a).

Definition br_i31_rshift (x : list Z) (count : Z) : M (list Z) :=
  x0 ← load x 0;
  let len := u32 (x0 + 31) >> 5 in
  If len =? 0 Then mret x Else
  x1 ← load x 1;
  let r := x1 >> count in
  '(x, r) ← for_up 2 (len + 1) (fun u '(x, r) =>
    w ← load x u;
    x ← store x (u - 1) ((u32 (w << (31 - count)) .| r) .& 0x7FFFFFFF);
    mret (x, w >> count)) (x, r);
  store x len r.

(** The pointer [x] of the C function is the cell [o] of the array [x]. *)
Definition br_i31_bit_length (x : list Z) (o xlen : Z) : M Z :=
  '(tw, twk) ← for_down xlen (fun i '(tw, twk) =>
    let c := EQ tw 0 in
    w ← load x (o + i);
    mret (MUX c w tw, MUX c (u32 i) twk)) (0, 0);
  mret (u32 (u32 (twk << 5) + BIT_LENGTH tw)).

Definition br_i31_ninv31 (x : Z) : Z :=
  let y := u32 (2 - x) in
  let y := u32 (y * u32 (2 - u32 (y * x))) in
  let y := u32 (y * u32 (2 - u32 (y * x))) in
  let y := u32 (y * u32 (2 - u32 (y * x))) in
  let y := u32 (y * u32 (2 - u32 (y * x))) in
  MUX (x .& 1) (u32 (- y)) 0 .& 0x7FFFFFFF.

(** * Layout *)

(** The number of limbs for the header word [h], and the number of bits it
    announces. *)
Definition nwords (h : Z) : Z := (h + 31) / 32.
Definition abits (h : Z) : Z := 31 * (h / 32) + h mod 32.

(** [int31 x n]: [x] holds an integer of [n] limbs. *)
Record int31 (x : list Z) (n : Z) : Prop := Int31 {
  i31_head : 0 <= get x 0 < 2 ^ 32 - 64;
  i31_words : nwords (get x 0) = n;
  i31_room : n + 1 <= zlen x;
  i31_limbs : limbs 31 x 1 n
}.

(** Its value. *)
Abbreviation ival x n := (val 31 x 1 n).

(** A modulus is not zero and announces its true bit length; a residue has the
    modulus's header and a lower value. *)
Record modulus (m : list Z) (n : Z) : Prop := Modulus {
  mod_int : int31 m n;
  mod_bits : abits (get m 0) = bitlen (val 31 m 1 n);
  mod_pos : 0 < val 31 m 1 n
}.
Record residue (x m : list Z) (n : Z) : Prop := Residue {
  res_int : int31 x n;
  res_head : get x 0 = get m 0;
  res_lt : val 31 x 1 n < val 31 m 1 n
}.

Lemma nwords_nonneg h : 0 <= h -> 0 <= nwords h.
Proof. unfold nwords. zn. Qed.

Lemma int31_n x n : int31 x n -> 0 <= n < 2 ^ 27.
Proof. intros [H <- _ _]. unfold nwords. zn. Qed.

Lemma len_nwords h : 0 <= h < 2 ^ 32 - 64 -> u32 (h + 31) >> 5 = nwords h.
Proof. intros. rewrite shr_div by lia. unfold u32, nwords. zn. Qed.

Lemma len63_nwords h : 0 <= h < 2 ^ 32 - 64 -> u32 (h + 63) >> 5 = nwords h + 1.
Proof. intros. rewrite shr_div by lia. unfold u32, nwords. zn. Qed.

Lemma abits_nwords h : 0 <= h -> abits h <= 31 * nwords h.
Proof. unfold nwords, abits. zn. Qed.

Lemma int31_frame x y n : int31 x n -> frame 1 (n + 1) x y -> limbs 31 y 1 n -> int31 y n.
Proof.
  intros Hx HF HL. pose proof (int31_n x n Hx). destruct Hx as [H1 H2 H3 H4].
  assert (get y 0 = get x 0) by (apply (frame_get 1 (n + 1)); [done|lia..]).
  pose proof (frame_len _ _ _ _ HF). split; rewrite ?H0; try done. lia.
Qed.

Lemma ival_bound x n : int31 x n -> 0 <= ival x n < 2 ^ (31 * n).
Proof. intros H. apply val_bound; [lia|apply int31_n in H; lia|by destruct H]. Qed.

Lemma mask31 x : x .& 0x7FFFFFFF = x mod 2 ^ 31.
Proof. apply (land_mask x 31). lia. Qed.

Lemma word31_32 x : word 31 x -> word 32 x.
Proof. unfold word. lia. Qed.
#[export] Hint Resolve word31_32 : words.

Lemma mask31_word x : word 31 (x mod 2 ^ 31).
Proof. apply Z.mod_pos_bound. lia. Qed.
#[export] Hint Resolve mask31_word : words.

(** * Addition and subtraction *)

(** What one turn of the carry loop does to the limb [u]: with [ctl] the limb
    becomes [v], otherwise the array is unchanged. *)
Lemma ctl_store a a' n u (ctl : bool) v S :
  1 <= u <= n -> n + 1 <= zlen a -> word 31 v -> frame 1 u a a' ->
  (if ctl then limbs 31 a' 1 (u - 1) /\ val 31 a' 1 (u - 1) = S else a' = a) ->
  let a'' := upd a' u (if ctl then v else get a' u) in
  frame 1 (u + 1) a a'' /\
  (if ctl then limbs 31 a'' 1 u /\ val 31 a'' 1 u = S + v * 2 ^ (31 * (u - 1)) else a'' = a).
Proof.
  intros Hu Hn Hv HF HS. pose proof (frame_len _ _ _ _ HF) as HL. cbv zeta. destruct ctl.
  - destruct HS as [HS <-]. split.
    + eapply frame_trans; [by apply (frame_weaken _ _ 1 (u + 1) _ _ HF); lia|].
      apply frame_upd; lia.
    + replace u with (u - 1 + 1) at 2 4 by lia. split.
      * apply limbs_snoc; [apply limbs_upd; try done; lia|].
        replace (1 + (u - 1)) with u by lia. by rewrite get_upd_eq by lia.
      * rewrite val_succ, val_upd_out by lia.
        replace (1 + (u - 1)) with u by lia. by rewrite get_upd_eq by lia.
  - subst a'. rewrite upd_id by lia. split; [apply frame_refl|done].
Qed.

Lemma br_i31_add_ok a b n ctl :
  int31 a n -> n + 1 <= zlen b -> limbs 31 b 1 n ->
  ok (br_i31_add a b (b2z ctl)) (fun '(cc, a') =>
    frame 1 (n + 1) a a' /\ limbs 31 a' 1 n /\
    cc = (ival a n + ival b n) / 2 ^ (31 * n) /\
    ival a' n = if ctl then (ival a n + ival b n) mod 2 ^ (31 * n) else ival a n).
Proof.
  intros Ha Hbl Hb. pose proof (int31_n a n Ha) as Hn. destruct Ha as [Hh Hw Hal Ha].
  unfold br_i31_add. csteps. rewrite len63_nwords, Hw by done.
  apply (ok_for_up (fun u '(cc, a') => exists S,
    0 <= S < 2 ^ (31 * (u - 1)) /\ 0 <= cc <= 1 /\
    val 31 a 1 (u - 1) + val 31 b 1 (u - 1) = S + cc * 2 ^ (31 * (u - 1)) /\
    frame 1 u a a' /\
    if ctl then limbs 31 a' 1 (u - 1) /\ val 31 a' 1 (u - 1) = S else a' = a)).
  - lia.
  - exists 0. rewrite !val_0. repeat split; try lia; try done.
    destruct ctl; [split; [apply limbs_nil|done]|done].
  - intros u [cc a'] Hu (S & HS & Hcc & HE & HF & HC).
    pose proof (frame_len _ _ _ _ HF) as HL. csteps.
    assert (Hau : get a' u = get a u) by (apply (frame_get _ _ _ _ _ HF); lia).
    pose proof (limbs_get 31 a 1 n u Ha ltac:(lia)) as Wa.
    pose proof (limbs_get 31 b 1 n u Hb ltac:(lia)) as Wb. rewrite Hau.
    rewrite mask31, shr_div, MUX_spec by (auto with words; unfold word; lia).
    unfold u32. rewrite (Z.mod_small (get a u + _ + _)) by lia.
    set (s := get a u + get b u + cc).
    replace (upd a' u (if ctl then s mod 2 ^ 31 else get a u)) with
      (upd a' u (if ctl then s mod 2 ^ 31 else get a' u)) by by rewrite Hau.
    destruct (ctl_store a a' n u ctl (s mod 2 ^ 31) S) as [HF' HC']; auto with words; [lia..|].
    exists (S + s mod 2 ^ 31 * 2 ^ (31 * (u - 1))).
    replace (u + 1 - 1) with (u - 1 + 1) by lia.
    pose proof (pow_limb_pos 31 ltac:(lia) (u - 1) ltac:(lia)).
    rewrite (val_succ 31 a), (val_succ 31 b), pow_limb by lia.
    replace (1 + (u - 1)) with u by lia.
    pose proof (Z.mod_pos_bound s (2 ^ 31) ltac:(lia)).
    assert (Es : s = s / 2 ^ 31 * 2 ^ 31 + s mod 2 ^ 31) by zn.
    split; [clear -HS H H0; nia|]. split; [clear -Wa Wb Hcc; unfold s; zn|].
    split; [|split; [done|]].
    + transitivity (S + s * 2 ^ (31 * (u - 1))); [unfold s; lia|]. rewrite Es at 1. ring.
    + replace (u - 1 + 1) with u by lia. done.
  - intros [cc a'] (S & HS & Hcc & HE & HF & HC).
    replace (n + 1 - 1) with n in * by lia.
    assert (Ec : cc = (ival a n + ival b n) / 2 ^ (31 * n))
      by (apply (Z.div_unique_pos _ _ _ S); lia).
    assert (Em : S = (ival a n + ival b n) mod 2 ^ (31 * n))
      by (apply (Z.mod_unique_pos _ _ cc); lia).
    destruct ctl.
    + destruct HC as [HC1 HC2]. rewrite HC2. done.
    + subst a'. done.
Qed.

Lemma br_i31_sub_ok a b n ctl :
  int31 a n -> n + 1 <= zlen b -> limbs 31 b 1 n ->
  ok (br_i31_sub a b (b2z ctl)) (fun '(cc, a') =>
    frame 1 (n + 1) a a' /\ limbs 31 a' 1 n /\
    cc = b2z (ival a n <? ival b n) /\
    ival a' n = if ctl then (ival a n - ival b n) mod 2 ^ (31 * n) else ival a n).
Proof.
  intros Ha Hbl Hb. pose proof (int31_n a n Ha) as Hn. destruct Ha as [Hh Hw Hal Ha].
  unfold br_i31_sub. csteps. rewrite len63_nwords, Hw by done.
  apply (ok_for_up (fun u '(cc, a') => exists S,
    0 <= S < 2 ^ (31 * (u - 1)) /\ 0 <= cc <= 1 /\
    val 31 a 1 (u - 1) - val 31 b 1 (u - 1) = S - cc * 2 ^ (31 * (u - 1)) /\
    frame 1 u a a' /\
    if ctl then limbs 31 a' 1 (u - 1) /\ val 31 a' 1 (u - 1) = S else a' = a)).
  - lia.
  - exists 0. rewrite !val_0. repeat split; try lia; try done.
    destruct ctl; [split; [apply limbs_nil|done]|done].
  - intros u [cc a'] Hu (S & HS & Hcc & HE & HF & HC).
    pose proof (frame_len _ _ _ _ HF) as HL. csteps.
    assert (Hau : get a' u = get a u) by (apply (frame_get _ _ _ _ _ HF); lia).
    pose proof (limbs_get 31 a 1 n u Ha ltac:(lia)) as Wa.
    pose proof (limbs_get 31 b 1 n u Hb ltac:(lia)) as Wb. rewrite Hau.
    rewrite mask31, shr_div, MUX_spec by (auto with words; unfold word; lia).
    set (s := get a u - get b u - cc).
    assert (Es : s = - (u32 s / 2 ^ 31) * 2 ^ 31 + u32 s mod 2 ^ 31 /\ 0 <= u32 s / 2 ^ 31 <= 1)
      by (unfold u32, s; zn).
    destruct Es as [Es Hc]. set (v := u32 s mod 2 ^ 31) in *.
    replace (upd a' u (if ctl then v else get a u)) with
      (upd a' u (if ctl then v else get a' u)) by by rewrite Hau.
    destruct (ctl_store a a' n u ctl v S) as [HF' HC'];
      unfold v; auto with words; [lia..|]. fold v in HF', HC'. fold v.
    exists (S + v * 2 ^ (31 * (u - 1))).
    replace (u + 1 - 1) with (u - 1 + 1) by lia.
    pose proof (pow_limb_pos 31 ltac:(lia) (u - 1) ltac:(lia)).
    rewrite (val_succ 31 a), (val_succ 31 b), pow_limb by lia.
    replace (1 + (u - 1)) with u by lia.
    assert (0 <= v < 2 ^ 31) by (apply Z.mod_pos_bound; lia).
    split; [clear -HS H H0; nia|]. split; [done|]. split; [|split; [done|]].
    + transitivity (S + s * 2 ^ (31 * (u - 1))); [unfold s; lia|]. rewrite Es at 1. ring.
    + replace (u - 1 + 1) with u by lia. done.
  - intros [cc a'] (S & HS & Hcc & HE & HF & HC).
    replace (n + 1 - 1) with n in * by lia.
    pose proof (val_bound 31 ltac:(lia) a 1 n ltac:(lia) Ha).
    pose proof (val_bound 31 ltac:(lia) b 1 n ltac:(lia) Hb).
    assert (Ec : cc = b2z (ival a n <? ival b n)).
    { destruct (Z.ltb_spec (ival a n) (ival b n)); simpl b2z; nia. }
    assert (Em : S = (ival a n - ival b n) mod 2 ^ (31 * n))
      by (apply (Z.mod_unique_pos _ _ (- cc)); lia).
    destruct ctl.
    + destruct HC as [HC1 HC2]. rewrite HC2. done.
    + subst a'. done.
Qed.

(** * The other elementary operations *)

Lemma br_i31_zero_ok x h n :
  0 <= h < 2 ^ 32 - 64 -> nwords h = n -> n + 1 <= zlen x ->
  ok (br_i31_zero x h) (fun y =>
    frame 0 (n + 1) x y /\ get y 0 = h /\ int31 y n /\ ival y n = 0).
Proof.
  intros Hh Hn Hl. pose proof (nwords_nonneg h ltac:(lia)).
  unfold br_i31_zero. cstep. cstep. rewrite len_nwords, Hn by done.
  apply ok_memset; autorewrite with arr; [lia..|].
  set (y := fillz (upd x 0 h) 1 0 n).
  assert (Hy : forall i, 1 <= i < 1 + n -> get y i = 0).
  { intros. apply get_fillz_in; autorewrite with arr; lia. }
  assert (Hy0 : get y 0 = h).
  { unfold y. rewrite get_fillz_out by (autorewrite with arr; lia). apply get_upd_eq. lia. }
  assert (Hlen : zlen y = zlen x) by (unfold y; rewrite zlen_fillz; autorewrite with arr; lia).
  repeat split; rewrite ?Hy0, ?Hlen; try done; try lia.
  - intros j Hj Hj'. unfold y. rewrite get_fillz_out by (autorewrite with arr; lia).
    apply get_upd_ne; lia.
  - rewrite Hy by lia. lia.
  - rewrite Hy by lia. lia.
  - by apply val_zero.
Qed.

(** [br_i31_iszero] tests the value for zero. *)
Theorem br_i31_iszero_correct x n :
  int31 x n -> ok (br_i31_iszero x) (fun r => r = b2z (ival x n =? 0)).
Proof.
  intros Hx. pose proof (int31_n x n Hx). destruct Hx as [Hh Hw Hl HL].
  unfold br_i31_iszero. csteps. rewrite len_nwords, Hw by done.
  apply (ok_for_down1 (fun u z => word 31 z /\
    (z = 0 <-> forall i, u < i <= n -> get x i = 0))).
  - lia.
  - split; [done|]. split; [intros; lia|done].
  - intros u z Hu [Hz Hz0]. csteps.
    pose proof (limbs_get _ _ _ _ u HL ltac:(lia)) as Wu. split.
    + apply word_lor; [lia|done|done].
    + rewrite Z.lor_eq_0_iff, Hz0. split.
      * intros [H1 H2] i Hi. destruct (Z.eq_dec i u) as [->|]; [done|]. apply H1. lia.
      * intros H1. split; [intros; apply H1; lia|apply H1; lia].
  - intros z [Hz Hz0]. apply ok_ret.
    assert (word 32 z) by auto with words.
    rewrite not_shr31, or_neg_small by (try apply word_lor; auto with words; lia).
    f_equal. destruct (Z.eqb_spec z 0) as [E|E], (Z.eqb_spec (ival x n) 0) as [E'|E']; try done.
    + exfalso. apply E', val_zero. intros. apply Hz0; [done|lia].
    + exfalso. apply E, Hz0. intros. apply (val_eq_0 31 ltac:(lia) x 1 n); [lia|done|done|lia].
Qed.

(** One limb of the shift: the limb written and the bits carried. *)
Lemma rshift_limb w r count :
  word 31 w -> 0 <= count < 31 -> 0 <= r < 2 ^ (31 - count) ->
  (u32 (w << (31 - count)) .| r) .& 0x7FFFFFFF = r + w mod 2 ^ count * 2 ^ (31 - count).
Proof.
  intros Hw Hc Hr. rewrite mask31, shl_mul by lia.
  pose proof (Z.pow_pos_nonneg 2 count ltac:(lia) ltac:(lia)) as HC.
  pose proof (Z.pow_pos_nonneg 2 (31 - count) ltac:(lia) ltac:(lia)) as HD.
  assert (E : 2 ^ (31 - count) * 2 ^ count = 2 ^ 31) by (rewrite <- Z.pow_add_r by lia; f_equal; lia).
  assert (E' : 2 ^ (31 - count) * 2 ^ (count + 1) = 2 ^ 32)
    by (rewrite <- Z.pow_add_r by lia; f_equal; lia).
  unfold u32. rewrite <- E', (Z.mul_comm w), Z.mul_mod_distr_l by lia.
  rewrite (Z.mul_comm (2 ^ (31 - count))), lor_disjoint' by lia.
  rewrite (Z.pow_add_r 2 count 1) by lia. change (2 ^ 1) with 2.
  rewrite Z.rem_mul_r by lia.
  set (b := (w / 2 ^ count) mod 2).
  pose proof (Z.mod_pos_bound w (2 ^ count) HC).
  symmetry. apply (Z.mod_unique_pos _ _ b); [nia|].
  rewrite <- E. ring.
Qed.

Lemma br_i31_rshift_ok x n count :
  int31 x n -> 0 <= count < 31 ->
  ok (br_i31_rshift x count) (fun y =>
    frame 1 (n + 1) x y /\ int31 y n /\ ival y n = ival x n / 2 ^ count).
Proof.
  intros Hx Hc. pose proof (int31_n x n Hx) as Hn. pose proof Hx as [Hh Hw Hl HL].
  unfold br_i31_rshift. cstep. cstep. rewrite len_nwords, Hw by done. cbv zeta.
  cstep.
  { apply Z.eqb_eq in H. cstep. split; [apply frame_refl|]. split; [done|].
    rewrite H, val_0. done. }
  apply Z.eqb_neq in H. csteps.
  pose proof (Z.pow_pos_nonneg 2 count ltac:(lia) ltac:(lia)) as HC.
  pose proof (Z.pow_pos_nonneg 2 (31 - count) ltac:(lia) ltac:(lia)) as HD.
  assert (E : 2 ^ (31 - count) * 2 ^ count = 2 ^ 31) by (rewrite <- Z.pow_add_r by lia; f_equal; lia).
  assert (Hr : forall i, 1 <= i < 1 + n -> 0 <= get x i >> count < 2 ^ (31 - count)).
  { intros i Hi. pose proof (limbs_get _ _ _ _ i HL ltac:(lia)). rewrite shr_div by lia.
    split; [apply Z.div_pos; lia|apply Z.div_lt_upper_bound; lia]. }
  apply (ok_for_up (fun u '(y, r) => r = get x (u - 1) >> count /\ frame 1 (u - 1) x y /\
    limbs 31 y 1 (u - 2) /\
    val 31 y 1 (u - 2) + r * 2 ^ (31 * (u - 2)) = val 31 x 1 (u - 1) / 2 ^ count)).
  - lia.
  - change (2 - 1) with 1. change (2 - 2) with 0. rewrite val_1, val_0, shr_div by lia.
    split; [done|]. split; [done|]. split; [apply limbs_nil|].
    rewrite Z.mul_0_r. change (2 ^ 0) with 1. lia.
  - intros u [y r] Hu (-> & HF & HLy & HV). pose proof (frame_len _ _ _ _ HF) as HLen.
    csteps.
    assert (Eu : get y u = get x u) by (apply (frame_get _ _ _ _ _ HF); lia).
    pose proof (limbs_get _ _ _ _ u HL ltac:(lia)) as Wu. specialize (Hr (u - 1) ltac:(lia)).
    rewrite Eu, rshift_limb by done.
    set (r := get x (u - 1) >> count) in *. set (w := get x u) in *.
    pose proof (Z.mod_pos_bound w (2 ^ count) HC).
    assert (Wv : word 31 (r + w mod 2 ^ count * 2 ^ (31 - count))) by (unfold word; nia).
    replace (u + 1 - 2) with (u - 2 + 1) by lia. replace (u + 1 - 1) with u by lia.
    split; [by unfold w|]. split; [|split].
    + eapply frame_trans; [by apply (frame_weaken _ _ 1 u _ _ HF); lia|]. apply frame_upd; lia.
    + apply limbs_snoc; [apply limbs_upd; try done; lia|].
      replace (1 + (u - 2)) with (u - 1) by lia. by rewrite get_upd_eq by lia.
    + rewrite val_succ, val_upd_out by lia. replace (1 + (u - 2)) with (u - 1) by lia.
      rewrite get_upd_eq by lia.
      replace (val 31 x 1 u) with (val 31 x 1 (u - 1) + w * 2 ^ (31 * (u - 2)) * 2 ^ (31 - count) * 2 ^ count).
      * rewrite Z.div_add, <- HV, pow_limb by lia. rewrite shr_div by lia.
        pose proof (Z.div_mod w (2 ^ count) ltac:(lia)) as Ew.
        set (q := w / 2 ^ count) in *. set (m := w mod 2 ^ count) in *.
        rewrite <- E, Ew. ring.
      * rewrite (val_pred 31 x 1 u), (pow_limb_pred 31 ltac:(lia) (u - 1)), <- E by lia.
        replace (1 + (u - 1)) with u by lia. replace (u - 1 - 1) with (u - 2) by lia.
        fold w. ring.
  - intros [y r] (-> & HF & HLy & HV).
    replace (n + 1 - 2) with (n - 1) in * by lia. replace (n + 1 - 1) with n in * by lia.
    pose proof (frame_len _ _ _ _ HF) as HLen. specialize (Hr n ltac:(lia)).
    csteps.
    assert (Wr : word 31 (get x n >> count)).
    { unfold word. split; [lia|]. apply Z.lt_le_trans with (2 ^ (31 - count)); [lia|].
      apply Z.pow_le_mono_r; lia. }
    assert (HLz : limbs 31 (upd y n (get x n >> count)) 1 n).
    { apply limbs_pred; [apply limbs_upd; try done; lia|].
      replace (1 + (n - 1)) with n by lia. by rewrite get_upd_eq by lia. }
    assert (HFz : frame 1 (n + 1) x (upd y n (get x n >> count))).
    { eapply frame_trans; [by apply (frame_weaken _ _ 1 (n + 1) _ _ HF); lia|].
      apply frame_upd; lia. }
    split; [done|]. split; [by apply (int31_frame x)|].
    rewrite val_pred, val_upd_out by lia.
    replace (1 + (n - 1)) with n by lia. by rewrite get_upd_eq, HV by lia.
Qed.

(** [br_i31_rshift] divides the value by a power of two. *)
Theorem br_i31_rshift_correct x n count :
  int31 x n -> 0 <= count < 31 ->
  ok (br_i31_rshift x count) (fun y =>
    frame 1 (n + 1) x y /\ int31 y n /\ ival y n = ival x n / 2 ^ count).
Proof. apply br_i31_rshift_ok. Qed.

(** The header [br_i31_bit_length] computes: the full limbs below the top one
    count 32, the top one counts its bits.  When the bit length is a multiple of
    31 this is [32 t + 31], where the comment in [inner.h] says [32 (t + 1)];
    both announce the same number of bits and of limbs ([abits], [nwords]). *)
Definition enc_bits (k : Z) : Z := if k =? 0 then 0 else 32 * ((k - 1) / 31) + (k - 1) mod 31 + 1.

Lemma enc_bits_abits k : 0 <= k -> abits (enc_bits k) = k.
Proof.
  intros. unfold enc_bits, abits. destruct (Z.eqb_spec k 0) as [->|]; [done|zn].
Qed.

Lemma enc_bits_nwords k : 0 <= k -> nwords (enc_bits k) = (k + 30) / 31.
Proof.
  intros. unfold enc_bits, nwords. destruct (Z.eqb_spec k 0) as [->|]; [done|zn].
Qed.

(** The bit length of a number of [i] limbs with a top limb that is not zero. *)
Lemma bitlen_limbs w a o i :
  0 < w -> 0 <= i -> limbs w a o (i + 1) -> get a (o + i) <> 0 ->
  bitlen (val w a o (i + 1)) = w * i + bitlen (get a (o + i)).
Proof.
  intros Hw Hi HL Hn. rewrite val_succ by done.
  assert (HL' : limbs w a o i) by (apply (limbs_sub w a o (i + 1)); [done|lia..]).
  pose proof (val_bound w Hw a o i Hi HL') as HV.
  pose proof (limbs_get w a o (i + 1) (o + i) HL ltac:(lia)) as HT.
  pose proof (pow_limb_pos w Hw i Hi) as HP.
  rewrite (bitlen_shift _ (w * i)) by nia.
  f_equal. f_equal. rewrite Z.div_add, Z.div_small by lia. lia.
Qed.

Lemma br_i31_bit_length_ok x o n :
  limbs 31 x o n -> 0 <= o -> 0 <= n < 2 ^ 27 -> o + n <= zlen x ->
  ok (br_i31_bit_length x o n) (fun h => h = enc_bits (bitlen (val 31 x o n))).
Proof.
  intros HL Ho Hn Hl. unfold br_i31_bit_length. cstep.
  apply (ok_for_down (fun u '(tw, twk) =>
    exists k, 0 <= k < Z.max n 1 /\ twk = k /\ word 31 tw /\
      (forall i, u <= i < n -> k < i -> get x (o + i) = 0) /\
      (if tw =? 0 then k = 0 \/ k = u else u <= k < n) /\
      (u <= k < n -> tw = get x (o + k)) /\
      (tw = 0 -> forall i, u <= i < n -> get x (o + i) = 0))).
  - lia.
  - exists 0. simpl Z.eqb. repeat split; lia || done.
  - intros i [tw twk] Hi (k & Hk & -> & Wt & HZ & HC & HT & H0). csteps.
    pose proof (limbs_get _ _ _ _ (o + i) HL ltac:(lia)) as Wi.
    rewrite EQ_spec, !MUX_spec by (auto with words; unfold word; lia).
    rewrite u32_small by (unfold word; lia).
    destruct (Z.eqb_spec tw 0) as [->|Hnz].
    + exists i. split; [lia|]. split; [done|]. split; [done|].
      split; [intros; apply H0; [done|lia]|].
      split; [case_match; lia|]. split; [done|].
      intros E j Hj. destruct (Z.eq_dec j i) as [->|]; [done|]. apply H0; [done|lia].
    + exists k. rewrite (proj2 (Z.eqb_neq tw 0)) by done.
      split; [done|]. split; [done|]. split; [done|].
      split; [intros j Hj Hkj; apply HZ; lia|]. split; [lia|]. split; [|done].
      intros. apply HT. lia.
  - intros [tw twk] (k & Hk & -> & Wt & HZ & HC & HT & H0). cstep.
    assert (HB : BIT_LENGTH tw = bitlen tw) by (apply BIT_LENGTH_correct; auto with words).
    assert (HB' : bitlen tw <= 31) by (apply bitlen_le; unfold word in Wt; lia).
    pose proof (bitlen_nonneg tw).
    rewrite HB, shl_mul, (u32_small (k * 2 ^ 5)), u32_small by (unfold word; lia).
    destruct (Z.eqb_spec tw 0) as [->|Hnz].
    + simpl in HC. assert (k = 0) as -> by lia. rewrite val_zero; [done|]. intros i Hi.
      replace i with (o + (i - o)) by lia. apply H0; [done|lia].
    + rewrite HT by lia.
      assert (Ev : val 31 x o n = val 31 x o (k + 1)).
      { replace n with (k + 1 + (n - (k + 1))) by lia. rewrite val_split by lia.
        rewrite (val_zero 31 x (o + (k + 1))); [lia|]. intros i Hi.
        replace i with (o + (i - o)) by lia. apply HZ; lia. }
      rewrite Ev, bitlen_limbs; [|lia|lia| |rewrite <- HT; lia].
      2: { apply (limbs_sub 31 x o n); [done|lia..]. }
      rewrite <- HT by lia.
      assert (0 < bitlen tw) by (unfold bitlen; case_match; [lia|]; pose proof (Z.log2_nonneg tw); lia).
      unfold enc_bits. destruct (Z.eqb_spec (31 * k + bitlen tw) 0); [lia|]. zn.
Qed.

(** [br_i31_bit_length] returns the encoded bit length of the value, for
    every number of limbs. *)
Theorem br_i31_bit_length_correct x o n :
  limbs 31 x o n -> 0 <= o -> 0 <= n < 2 ^ 27 -> o + n <= zlen x ->
  ok (br_i31_bit_length x o n) (fun h => h = enc_bits (bitlen (val 31 x o n))).
Proof. apply br_i31_bit_length_ok. Qed.

Lemma newton_u32 x y k :
  0 <= k -> 2 * k <= 32 -> (2 ^ k | 1 - x * y) ->
  (2 ^ (2 * k) | 1 - x * u32 (y * u32 (2 - u32 (y * x)))).
Proof.
  intros Hk HN HD.
  apply (newton_step x y _ k 32
    (- ((y * u32 (2 - u32 (y * x))) / 2 ^ 32) + y * (- ((2 - u32 (y * x)) / 2 ^ 32) + y * x / 2 ^ 32)));
    [done|done|done|].
  unfold u32. rewrite !(Z.mod_eq _ (2 ^ 32)) by lia. ring.
Qed.

Lemma land1_odd x : x .& 1 = b2z (Z.odd x).
Proof.
  change 1 with (Z.ones 1). rewrite Z.land_ones by lia. change (2 ^ 1) with 2.
  rewrite Zmod_odd. by destruct (Z.odd x).
Qed.

Lemma br_i31_ninv31_ok x :
  word 32 x ->
  word 31 (br_i31_ninv31 x) /\
  (if Z.odd x then (x * br_i31_ninv31 x + 1) mod 2 ^ 31 = 0 else br_i31_ninv31 x = 0).
Proof.
  intros Hx. unfold br_i31_ninv31. cbv zeta. rewrite mask31. split; [auto with words|].
  set (y0 := u32 (2 - x)). set (y1 := u32 (y0 * _)). set (y2 := u32 (y1 * _)).
  set (y3 := u32 (y2 * _)). set (y4 := u32 (y3 * _)).
  rewrite land1_odd, MUX_spec by (auto with words; done).
  destruct (Z.odd x) eqn:Ho; [|done].
  assert (D0 : (2 ^ 2 | 1 - x * y0)).
  { apply Z.odd_spec in Ho as [c Hc]. unfold y0, u32. rewrite (Z.mod_eq _ (2 ^ 32)) by lia.
    exists (c * c + x * ((2 - x) / 2 ^ 32) * 2 ^ 30). rewrite Hc at 1 2. ring_simplify.
    change (2 ^ 32) with (2 ^ 30 * 2 ^ 2). rewrite Hc. ring. }
  pose proof (newton_u32 x y0 2 ltac:(lia) ltac:(lia) D0) as D1. fold y1 in D1.
  pose proof (newton_u32 x y1 4 ltac:(lia) ltac:(lia) D1) as D2. fold y2 in D2.
  pose proof (newton_u32 x y2 8 ltac:(lia) ltac:(lia) D2) as D3. fold y3 in D3.
  pose proof (newton_u32 x y3 16 ltac:(lia) ltac:(lia) D3) as D4. fold y4 in D4.
  destruct D4 as [c Hc]. change (2 * 16) with 32 in Hc.
  apply Z.mod_divide; [lia|].
  exists (2 * c - 2 * x * (- y4 / 2 ^ 32) - x * (u32 (- y4) / 2 ^ 31)).
  unfold u32. rewrite (Z.mod_eq _ (2 ^ 31)) by lia. rewrite (Z.mod_eq _ (2 ^ 32)) by lia.
  change (2 ^ 32) with (2 * 2 ^ 31) in *. nia.
Qed.

(** [br_i31_ninv31] returns [-1/x] modulo [2^31] for an odd [x], and 0
    for an even one. *)
Theorem br_i31_ninv31_correct x :
  word 32 x ->
  word 31 (br_i31_ninv31 x) /\
  (if Z.odd x then (x * br_i31_ninv31 x + 1) mod 2 ^ 31 = 0 else br_i31_ninv31 x = 0).
Proof. apply br_i31_ninv31_ok. Qed.

(** * Concrete runs *)

Definition int31b (x : list Z) (n : Z) : bool :=
  (0 <=? get x 0) && (get x 0 <? 2 ^ 32 - 64) && (nwords (get x 0) =? n) &&
  (n + 1 <=? zlen x) && limbsb 31 x 1 n.
Definition modulusb (m : list Z) (n : Z) : bool :=
  int31b m n && (abits (get m 0) =? bitlen (ival m n)) && (0 <? ival m n).
Definition residueb (x m : list Z) (n : Z) : bool :=
  int31b x n && (get x 0 =? get m 0) && (ival x n <? ival m n).

Lemma int31_check x n : int31b x n = true -> int31 x n.
Proof.
  unfold int31b. rewrite !andb_true_iff, Z.leb_le, Z.ltb_lt, Z.eqb_eq, Z.leb_le.
  intros [[[[? ?] ?] ?] ?%limbsb_limbs]. done.
Qed.

Lemma modulus_check m n : modulusb m n = true -> modulus m n.
Proof.
  unfold modulusb. rewrite !andb_true_iff, Z.eqb_eq, Z.ltb_lt.
  intros [[?%int31_check ?] ?]. done.
Qed.

Lemma residue_check x m n : residueb x m n = true -> residue x m n.
Proof.
  unfold residueb. rewrite !andb_true_iff, Z.eqb_eq, Z.ltb_lt.
  intros [[?%int31_check ?] ?]. done.
Qed.

Ltac int31_tac :=
  first [apply int31_check | apply modulus_check | apply residue_check];
  vm_compute; reflexivity.

Lemma br_i31_iszero_witness :
  ok (br_i31_iszero [34; 0; 0; 9]) (fun r => r = b2z (ival [34; 0; 0; 9] 2 =? 0)).
Proof. apply br_i31_iszero_correct. int31_tac. Defined.

Lemma br_i31_rshift_witness :
  ok (br_i31_rshift [34; 5; 7] 2) (fun y =>
    frame 1 3 [34; 5; 7] y /\ int31 y 2 /\ ival y 2 = ival [34; 5; 7] 2 / 2 ^ 2).
Proof. apply (br_i31_rshift_correct [34; 5; 7] 2 2); [int31_tac|lia]. Defined.

Lemma br_i31_bit_length_witness :
  ok (br_i31_bit_length [0; 5; 2147483647; 0] 1 3) (fun h =>
    h = enc_bits (bitlen (val 31 [0; 5; 2147483647; 0] 1 3))) /\
  enc_bits (bitlen (val 31 [0; 5; 2147483647; 0] 1 3)) = 63.
Proof.
  split; [|reflexivity]. apply br_i31_bit_length_correct; [|simpl; lia..].
  apply limbsb_limbs. reflexivity.
Defined.

Lemma br_i31_ninv31_witness :
  word 31 (br_i31_ninv31 12345) /\ (12345 * br_i31_ninv31 12345 + 1) mod 2 ^ 31 = 0.
Proof. apply (br_i31_ninv31_correct 12345). unfold word. lia. Defined.
