(* ===== verification/I31Mul.v ===== *)
(** Multiplication of a 31-bit big integer by [2^31] modulo another, with the
    estimation of the quotient ([src/int/i31_muladd.c]), and the reductions
    built on it ([src/int/i31_tmont.c], [i31_reduce.c]). *)
From stdpp Require Import base tactics list numbers option.
From Stdlib Require Import ZArith Lia.
From S2P Require Import Prelude CtPrims Limbs I31.
Local Open Scope Z_scope.
Local Open Scope cword_scope.

(** * Code *)

(** The words [a0], [a1] and [b0] of the quotient estimation; [x] is shifted
    up by one limb on the way, [z] becoming its lowest limb. *)
Definition muladd_top (x m : list Z) (z mlen mblr : Z) : M (list Z * Z * Z * Z) :=
  If mblr =? 0 Then
    a0 ← load x mlen;
    x ← memcpy x 2 x 1 (mlen - 1);
    x ← store x 1 z;
    a1 ← load x mlen;
    b0 ← load m mlen;
    mret (x, a0, a1, b0)
  Else
    xh ← load x mlen;
    xl ← load x (mlen - 1);
    let a0 := (u32 (xh << (31 - mblr)) .| (xl >> mblr)) .& 0x7FFFFFFF in
    x ← memcpy x 2 x 1 (mlen - 1);
    x ← store x 1 z;
    xh ← load x mlen;
    xl ← load x (mlen - 1);
    let a1 := (u32 (xh << (31 - mblr)) .| (xl >> mblr)) .& 0x7FFFFFFF in
    mh ← load m mlen;
    ml ← load m (mlen - 1);
    let b0 := (u32 (mh << (31 - mblr)) .| (ml >> mblr)) .& 0x7FFFFFFF in
    mret (x, a0, a1, b0).

(** The subtraction of [q*m]; returns the array, the carry and the flag [tb]. *)
Definition muladd_sub (x m : list Z) (q mlen : Z) : M (list Z * Z * Z) :=
  for_up 1 (mlen + 1) (fun u '(x, cc, tb) =>
    mw ← load m u;
    let zl := u64 (MUL31 mw q + cc) in
    let cc := u32 (zl >> 31) in
    let zw := u32 zl .& 0x7FFFFFFF in
    xw ← load x u;
    let nxw := u32 (xw - zw) in
    let cc := u32 (cc + (nxw >> 31)) in
    let nxw := nxw .& 0x7FFFFFFF in
    x ← store x u nxw;
    let tb := MUX (EQ nxw mw) tb (GT nxw mw) in
    mret (x, cc, tb)) (x, 0, 1).

Definition br_i31_muladd_small (x : list Z) (z : Z) (m : list Z) : M (list Z) :=
  m_bitlen ← load m 0;
  If m_bitlen =? 0 Then mret x Else
  If m_bitlen <=? 31 Then
    x1 ← load x 1;
    let hi := x1 >> 1 in
    x1 ← load x 1;
    let lo := u32 (x1 << 31) .| z in
    m1 ← load m 1;
    store x 1 (br_rem hi lo m1)
  Else
  let mlen := u32 (m_bitlen + 31) >> 5 in
  let mblr := m_bitlen .& 31 in
  hi ← load x mlen;
  '(x, a0, a1, b0) ← muladd_top x m z mlen mblr;
  let g := br_div (a0 >> 1) (a1 .| u32 (a0 << 31)) b0 in
  let q := MUX (EQ a0 b0) 0x7FFFFFFF (MUX (EQ g 0) 0 (u32 (g - 1))) in
  '(x, cc, tb) ← muladd_sub x m q mlen;
  let over := GT cc hi in
  let under := u32 (Z.lnot over) .& (tb .| LT cc hi) in
  '(_, x) ← br_i31_add x m over;
  '(_, x) ← br_i31_sub x m under;
  mret x.

Definition br_i31_to_monty (x m : list Z) : M (list Z) :=
  m0 ← load m 0;
  for_down1 (u32 (m0 + 31) >> 5) (fun _ x => br_i31_muladd_small x 0 m) x.

(** [x] must be distinct from [a] and [m]. *)
Definition br_i31_reduce (x a m : list Z) : M (list Z) :=
  m_bitlen ← load m 0;
  let mlen := u32 (m_bitlen + 31) >> 5 in
  x ← store x 0 m_bitlen;
  If m_bitlen =? 0 Then mret x Else
  a_bitlen ← load a 0;
  let alen := u32 (a_bitlen + 31) >> 5 in
  If a_bitlen <? m_bitlen Then
    x ← memcpy x 1 a 1 alen;
    for_up alen mlen (fun u x => store x (u + 1) 0) x
  Else
    x ← memcpy x 1 a (2 + (alen - mlen)) (mlen - 1);
    x ← store x mlen 0;
    for_down1 (1 + alen - mlen) (fun u x =>
      au ← load a u;
      br_i31_muladd_small x au m) x.

(** * The quotient estimation *)

(** The estimate is off by at most one: the dividend minus [q] times the
    divisor lies between minus the divisor and twice the divisor. *)
Lemma quot_estimate a b D W b0 A q :
  0 < D -> 0 <= a < b * W -> b0 = b / D -> 0 < W -> W <= 2 * b0 -> b0 < W -> A = a / D ->
  q = (if A / W =? b0 then W - 1 else if A / b0 =? 0 then 0 else A / b0 - 1) ->
  0 <= q < W /\ - b <= a - q * b < 2 * b.
Proof.
  intros HD Ha Eb0 HW Hb0 Hb0' EA Eq.
  pose proof (Z.div_mod b D ltac:(lia)) as Eb. pose proof (Z.mod_pos_bound b D HD) as Hbr.
  pose proof (Z.div_mod a D ltac:(lia)) as Ea. pose proof (Z.mod_pos_bound a D HD) as Har.
  rewrite <- Eb0 in Eb. rewrite <- EA in Ea.
  set (rb := b mod D) in *. set (ra := a mod D) in *. clearbody rb ra. clear EA Eb0.
  assert (HA0 : 0 <= A) by nia.
  assert (HAW : A <= b0 * W + W - 1) by nia.
  pose proof (Z.div_mod A b0 ltac:(lia)) as Eg. pose proof (Z.mod_pos_bound A b0 ltac:(lia)) as Hv.
  pose proof (Z.div_mod A W ltac:(lia)) as EA0. pose proof (Z.mod_pos_bound A W HW) as Ha1.
  set (g := A / b0) in *. set (v := A mod b0) in *.
  set (a0 := A / W) in *. set (a1 := A mod W) in *. clearbody g v a0 a1.
  assert (Ha0 : a0 <= b0) by nia.
  assert (0 <= g) by nia.
  destruct (Z.eqb_spec a0 b0) as [E0|Hne].
  - subst q a0. split; [lia|]. split; [|nia].
    assert (HX : A * D - (W - 1) * b0 * D >= b0 * D) by nia.
    assert (HY : (W - 1) * rb <= (W - 1) * D - (W - 1)) by nia. nia.
  - assert (a0 < b0) by lia.
    assert (Hg : g < W) by nia.
    destruct (Z.eqb_spec g 0) as [E0|Hg0]; subst q.
    + split; [lia|]. nia.
    + split; [lia|]. split; [|nia].
      assert (g <= 2 * b0) by lia. nia.
Qed.

(** * The subtraction of [q*m] *)

Lemma muladd_sub_limb mw q cc xw :
  word 31 mw -> word 31 q -> word 31 xw -> 0 <= cc <= 2 ^ 31 ->
  let zl := u64 (MUL31 mw q + cc) in
  let nxw := u32 (xw - (u32 zl .& 0x7FFFFFFF)) in
  let cc' := u32 (u32 (zl >> 31) + (nxw >> 31)) in
  0 <= cc' <= 2 ^ 31 /\ word 31 (nxw .& 0x7FFFFFFF) /\
  xw - mw * q - cc = (nxw .& 0x7FFFFFFF) - cc' * 2 ^ 31.
Proof.
  unfold word. intros Hm Hq Hx Hc. cbv zeta. rewrite !mask31, !shr_div by lia.
  unfold MUL31. assert (Hp : 0 <= mw * q <= (2 ^ 31 - 1) * (2 ^ 31 - 1)) by nia.
  rewrite (u64_small (mw * q)), (u64_small (mw * q + cc)) by (unfold word; lia).
  set (p := mw * q) in *. clearbody p.
  assert (0 <= (p + cc) / 2 ^ 31 < 2 ^ 31) by zn.
  rewrite (u32_small ((p + cc) / 2 ^ 31)) by (unfold word; lia).
  assert (E : u32 (p + cc) mod 2 ^ 31 = (p + cc) mod 2 ^ 31) by (unfold u32; zn).
  rewrite E. set (zw := (p + cc) mod 2 ^ 31). assert (0 <= zw < 2 ^ 31) by (unfold zw; zn).
  assert (E2 : p + cc = 2 ^ 31 * ((p + cc) / 2 ^ 31) + zw) by (unfold zw; zn).
  set (c1 := (p + cc) / 2 ^ 31) in *. clearbody zw c1.
  unfold u32. zn.
Qed.

Lemma muladd_sub_ok x m q n :
  0 <= n < 2 ^ 27 -> n + 1 <= zlen x -> n + 1 <= zlen m ->
  limbs 31 x 1 n -> limbs 31 m 1 n -> word 31 q ->
  ok (muladd_sub x m q n) (fun '(y, cc, tb) =>
    frame 1 (n + 1) x y /\ limbs 31 y 1 n /\ 0 <= cc <= 2 ^ 31 /\
    ival x n - q * ival m n = ival y n - cc * 2 ^ (31 * n) /\
    tb = b2z (ival m n <=? ival y n)).
Proof.
  intros Hn Hxl Hml HLx HLm Hq. unfold muladd_sub.
  apply (ok_for_up (fun u '(y, cc, tb) =>
    frame 1 u x y /\ limbs 31 y 1 (u - 1) /\ 0 <= cc <= 2 ^ 31 /\
    ival x (u - 1) - q * ival m (u - 1) = ival y (u - 1) - cc * 2 ^ (31 * (u - 1)) /\
    tb = b2z (ival m (u - 1) <=? ival y (u - 1)))).
  - lia.
  - change (1 - 1) with 0. rewrite !val_0. simpl. split; [done|].
    split; [apply limbs_nil|]. repeat split; lia.
  - intros u [[y cc] tb] Hu (HF & HLy & Hcc & HE & ->). pose proof (frame_len _ _ _ _ HF).
    csteps.
    pose proof (limbs_get _ _ _ _ u HLm ltac:(lia)) as Wm.
    assert (Ey : get y u = get x u) by (apply (frame_get _ _ _ _ _ HF); lia).
    pose proof (limbs_get _ _ _ _ u HLx ltac:(lia)) as Wx. rewrite Ey.
    destruct (muladd_sub_limb (get m u) q cc (get x u)) as (Hcc' & Wn & El); try done.
    set (cc' := u32 (u32 _ + (u32 _ >> 31))) in *. set (v := u32 (get x u - _) .& 0x7FFFFFFF) in *.
    rewrite EQ_spec, GT_spec, MUX_spec by auto with words.
    replace (u + 1 - 1) with u by lia.
    pose proof (pow_limb_pos 31 ltac:(lia) (u - 1) ltac:(lia)) as HP.
    pose proof (val_bound 31 ltac:(lia) y 1 (u - 1) ltac:(lia) HLy) as HVy.
    assert (HVm : 0 <= ival m (u - 1) < 2 ^ (31 * (u - 1))).
    { apply val_bound; [lia..|]. apply (limbs_sub 31 m 1 n); [done|lia..]. }
    assert (Ev : ival (upd y u v) u = ival y (u - 1) + v * 2 ^ (31 * (u - 1))).
    { rewrite val_pred, val_upd_out by lia. replace (1 + (u - 1)) with u by lia.
      by rewrite get_upd_eq by lia. }
    split; [|split; [|split; [done|split]]].
    + eapply frame_trans; [by apply (frame_weaken _ _ 1 (u + 1) _ _ HF); lia|].
      apply frame_upd; lia.
    + apply limbs_pred; [apply limbs_upd; try done; lia|].
      replace (1 + (u - 1)) with u by lia. by rewrite get_upd_eq by lia.
    + rewrite Ev, (val_pred 31 x 1 u), (val_pred 31 m 1 u), (pow_limb_pred 31 ltac:(lia) u) by lia.
      replace (1 + (u - 1)) with u by lia.
      transitivity (ival x (u - 1) - q * ival m (u - 1) +
        (get x u - get m u * q) * 2 ^ (31 * (u - 1))); [ring|]. rewrite HE.
      replace (get x u - get m u * q) with (v - cc' * 2 ^ 31 + cc) by lia. ring.
    + rewrite Ev, (val_pred 31 m 1 u) by lia. replace (1 + (u - 1)) with u by lia.
      unfold word in Wn.
      destruct (Z.eqb_spec v (get m u)) as [->|].
      * f_equal. destruct (Z.leb_spec (ival m (u - 1)) (ival y (u - 1))); symmetry;
          [apply Z.leb_le|apply Z.leb_gt]; lia.
      * f_equal. destruct (Z.ltb_spec (get m u) v); symmetry;
          [apply Z.leb_le|apply Z.leb_gt]; nia.
  - intros [[y cc] tb] (HF & HLy & Hcc & HE & ->).
    replace (n + 1 - 1) with n in * by lia. done.
Qed.

(** * The top words *)

(** A word read across two limbs. *)
Lemma top_word y n r :
  2 <= n -> limbs 31 y 1 n -> 0 < r < 32 ->
  (u32 (get y n << (31 - r)) .| (get y (n - 1) >> r)) .& 0x7FFFFFFF =
  (ival y n / 2 ^ (31 * (n - 2) + r)) mod 2 ^ 31.
Proof.
  intros Hn HL Hr. rewrite Z.pow_add_r, <- Z.div_div by (try apply pow_limb_pos; lia).
  rewrite val_div by (done || lia). replace (n - (n - 2)) with (0 + 1 + 1) by lia.
  rewrite val_succ, val_1 by lia. change (31 * (0 + 1)) with 31.
  replace (1 + (n - 2)) with (n - 1) by lia. replace (n - 1 + (0 + 1)) with n by lia.
  pose proof (limbs_get _ _ _ _ n HL ltac:(lia)) as Wh.
  pose proof (limbs_get _ _ _ _ (n - 1) HL ltac:(lia)) as Wl.
  set (h := get y n) in *. set (l := get y (n - 1)) in *. clearbody h l.
  rewrite mask31, shl_mul, shr_div by lia.
  pose proof (Z.pow_pos_nonneg 2 r ltac:(lia) ltac:(lia)) as HR.
  pose proof (Z.pow_pos_nonneg 2 (31 - r) ltac:(lia) ltac:(lia)) as HD.
  assert (E : 2 ^ 31 = 2 ^ (31 - r) * 2 ^ r) by (rewrite <- Z.pow_add_r by lia; f_equal; lia).
  assert (Hlr : 0 <= l / 2 ^ r < 2 ^ (31 - r)).
  { split; [apply Z.div_pos; lia|apply Z.div_lt_upper_bound; lia]. }
  assert (Em : u32 (h * 2 ^ (31 - r)) = (h mod 2 ^ (r + 1)) * 2 ^ (31 - r)).
  { unfold u32. replace (2 ^ 32) with (2 ^ (r + 1) * 2 ^ (31 - r))
      by (rewrite <- Z.pow_add_r by lia; f_equal; lia).
    by rewrite Z.mul_mod_distr_r by lia. }
  rewrite Em, lor_disjoint' by lia.
  replace (l + h * 2 ^ 31) with (l + h * 2 ^ (31 - r) * 2 ^ r) by (rewrite E; ring).
  rewrite Z.div_add by lia.
  rewrite (Z.mod_eq h (2 ^ (r + 1))) by lia. rewrite (Z.pow_add_r 2 r 1) by lia.
  change (2 ^ 1) with 2. set (k := h / _).
  replace (l / 2 ^ r + _) with
    (l / 2 ^ r + h * 2 ^ (31 - r) + (- 2 * k) * (2 ^ (31 - r) * 2 ^ r)) by ring.
  rewrite <- E. by rewrite Z.mod_add by lia.
Qed.

Lemma muladd_top_ok x m z n r :
  1 <= n < 2 ^ 27 -> 0 <= r < 32 -> (r = 0 \/ 2 <= n) -> n + 1 <= zlen x -> n + 1 <= zlen m ->
  limbs 31 x 1 n -> limbs 31 m 1 n -> word 31 z ->
  let D := if r =? 0 then 2 ^ (31 * (n - 1)) else 2 ^ (31 * (n - 2) + r) in
  ok (muladd_top x m z n r) (fun '(y, a0, a1, b0) =>
    frame 1 (n + 1) x y /\ limbs 31 y 1 n /\
    ival y n + get x n * 2 ^ (31 * n) = ival x n * 2 ^ 31 + z /\
    a0 = (ival x n / D) mod 2 ^ 31 /\ a1 = (ival y n / D) mod 2 ^ 31 /\
    b0 = (ival m n / D) mod 2 ^ 31).
Proof.
  intros Hn Hr Hr2 Hxl Hml HLx HLm Hz D.
  set (y := upd (blit x 2 x 1 (n - 1)) 1 z).
  assert (Hyl : zlen y = zlen x) by (unfold y; rewrite zlen_upd, zlen_blit; lia).
  assert (Hy1 : get y 1 = z) by (unfold y; apply get_upd_eq; rewrite zlen_blit; lia).
  assert (Hyi : forall i, 2 <= i < n + 1 -> get y i = get x (i - 1)).
  { intros i Hi. unfold y. rewrite get_upd_ne, get_blit_in by lia. f_equal. lia. }
  assert (HF : frame 1 (n + 1) x y).
  { split; [done|]. intros j Hj Hj'. unfold y. rewrite get_upd_ne by lia.
    rewrite get_blit_out by lia. done. }
  assert (HLy : limbs 31 y 1 n).
  { intros i Hi. destruct (Z.eq_dec i 1) as [->|]; [by rewrite Hy1|].
    rewrite Hyi by lia. apply HLx. lia. }
  assert (EV : ival y n + get x n * 2 ^ (31 * n) = ival x n * 2 ^ 31 + z).
  { replace n with (n - 1 + 1) at 1 by lia. rewrite val_cons, Hy1 by lia.
    rewrite (val_ext 31 y x (1 + 1) 1 (n - 1)).
    - rewrite (val_pred 31 x 1 n), (pow_limb_pred 31 ltac:(lia) n) by lia.
      replace (1 + (n - 1)) with n by lia. ring.
    - intros i Hi. rewrite Hyi by lia. f_equal. lia. }
  assert (Hword : forall v, limbs 31 v 1 n -> r = 0 -> get v n = (ival v n / D) mod 2 ^ 31).
  { intros v HLv ->. unfold D. rewrite Z.eqb_refl, val_div by (done || lia).
    replace (n - (n - 1)) with 1 by lia. rewrite val_1. replace (1 + (n - 1)) with n by lia.
    symmetry. apply Z.mod_small. apply (limbs_get _ _ _ _ n HLv). lia. }
  unfold muladd_top. apply ok_cond; intros Er.
  - apply Z.eqb_eq in Er. cstep. cstep. cstep. apply ok_memcpy; [lia..|]. cstep.
    apply ok_store; [rewrite zlen_blit; lia|]. fold y. cstep. cstep. cstep. cstep. cstep.
    do 3 (split; [done|]). split; [by apply Hword|]. split; by apply Hword.
  - assert (ED : D = 2 ^ (31 * (n - 2) + r)) by (unfold D; by rewrite Er).
    apply Z.eqb_neq in Er. cstep. cstep. cstep. cstep. cbv zeta.
    cstep. apply ok_memcpy; [lia..|]. cstep.
    apply ok_store; [rewrite zlen_blit; lia|]. fold y. cstep. cstep. cstep. cstep.
    cstep. cstep. cstep. cstep. cstep.
    rewrite !top_word by (done || lia). rewrite <- ED. done.
Qed.

(** * Correctness of the multiplication step *)

Lemma land31 h : h .& 31 = h mod 32.
Proof. apply (land_mask h 5). lia. Qed.

(** The final correction: [X] and the carry [cc] hold [R = a - q*m], one more
    addition or subtraction of [m] makes it a residue. *)
Lemma muladd_fix a m q X cc hi R P :
  R = X + (hi - cc) * P -> R = a - q * m -> - m <= R < 2 * m -> 0 <= X < P -> 0 < m <= P ->
  let over := hi <? cc in
  let under := negb over && ((m <=? X) || (cc <? hi)) in
  let X1 := if over then (X + m) mod P else X in
  (if under then (X1 - m) mod P else X1) = a mod m.
Proof.
  intros HR Ha Hb HX Hm. cbv zeta.
  assert (HU : forall s, 0 <= R + s * m < m -> R + s * m = a mod m).
  { intros s Hs. apply (Z.mod_unique_pos _ _ (q - s)); [done|]. rewrite Ha. ring. }
  destruct (Z.ltb_spec hi cc); simpl.
  - rewrite <- (HU 1) by nia. symmetry. apply (Z.mod_unique_pos _ _ (cc - hi)); nia.
  - destruct (Z.leb_spec m X), (Z.ltb_spec cc hi); simpl.
    + rewrite <- (HU (-1)) by nia. symmetry. apply (Z.mod_unique_pos _ _ (cc - hi)); nia.
    + rewrite <- (HU (-1)) by nia. symmetry. apply (Z.mod_unique_pos _ _ (cc - hi)); nia.
    + rewrite <- (HU (-1)) by nia. symmetry. apply (Z.mod_unique_pos _ _ (cc - hi)); nia.
    + rewrite <- (HU 0) by nia. nia.
Qed.

(** The shape of a modulus of more than 31 announced bits: with [D] as in
    [muladd_top_ok], its top word [m / D] uses all its 31 bits. *)
Lemma modulus_top m n :
  modulus m n -> 32 <= get m 0 ->
  let r := get m 0 mod 32 in
  let D := if r =? 0 then 2 ^ (31 * (n - 1)) else 2 ^ (31 * (n - 2) + r) in
  1 <= n < 2 ^ 27 /\ 0 <= r < 32 /\ (r = 0 \/ 2 <= n) /\ 0 < D /\
  2 ^ 30 <= ival m n / D < 2 ^ 31 /\ ival m n <= 2 ^ (31 * n) /\
  exists t, 2 ^ (31 * n) = t * 2 ^ 31 * D.
Proof.
  intros [Hi Hb Hp] Hh r D. pose proof (int31_n m n Hi) as Hn.
  pose proof (ival_bound m n Hi). pose proof (bitlen_bounds _ Hp) as HB.
  destruct Hi as [_ Hw _ _].
  set (k := bitlen (ival m n)) in *. unfold abits in Hb. unfold nwords in Hw.
  assert (Hnr : 1 <= n /\ (r = 0 \/ 2 <= n) /\ 0 <= r < 32) by (unfold r; zn).
  assert (ED : D = 2 ^ (k - 31) /\ 31 <= k).
  { unfold D, r. destruct (Z.eqb_spec (get m 0 mod 32) 0); (split; [f_equal|]; zn). }
  destruct ED as [ED Hk]. pose proof (Z.pow_pos_nonneg 2 (k - 31) ltac:(lia) ltac:(lia)).
  replace (k - 1) with (30 + (k - 31)) in HB by lia.
  replace k with (31 + (k - 31)) in HB at 2 by lia. rewrite !Z.pow_add_r in HB by lia.
  assert (Ht : exists t, 2 ^ (31 * n) = t * 2 ^ 31 * D).
  { unfold D. destruct (Z.eqb_spec r 0).
    - exists 1. rewrite (pow_limb_pred 31) by lia. ring.
    - exists (2 ^ (31 - r)). rewrite <- !Z.pow_add_r by lia. f_equal. lia. }
  rewrite ED in *. repeat split; try lia; [| |done].
  - apply Z.div_le_lower_bound; lia.
  - apply Z.div_lt_upper_bound; lia.
Qed.

Lemma residue_frame x y m n :
  residue x m n -> frame 1 (n + 1) x y -> limbs 31 y 1 n -> ival y n < ival m n -> residue y m n.
Proof.
  intros [Hi Hh Hl] HF HL Hlt. pose proof (int31_n _ _ Hi).
  split; [by apply (int31_frame x)|rewrite <- Hh; apply (frame_get _ _ _ _ _ HF); lia|done].
Qed.

Lemma div_two_words a0 a1 : word 31 a0 -> word 31 a1 ->
  (a0 >> 1) * 2 ^ 32 + (a1 .| u32 (a0 << 31)) = a0 * 2 ^ 31 + a1 /\
  word 32 (a0 >> 1) /\ word 32 (a1 .| u32 (a0 << 31)) /\ a0 >> 1 <= a0.
Proof.
  unfold word. intros. rewrite shr_div, shl_mul by lia.
  replace (u32 (a0 * 2 ^ 31)) with ((a0 mod 2) * 2 ^ 31) by (unfold u32; zn).
  rewrite lor_disjoint by lia. zn.
Qed.

Lemma br_i31_muladd_small_ok x z m n :
  modulus m n -> residue x m n -> word 31 z ->
  ok (br_i31_muladd_small x z m) (fun y =>
    frame 1 (n + 1) x y /\ residue y m n /\
    ival y n = (ival x n * 2 ^ 31 + z) mod ival m n).
Proof.
  intros Hm Hx Hz. pose proof Hx as [Hxi Hxh Hxlt]. pose proof Hm as [Hmi Hmb Hmp].
  pose proof (int31_n _ _ Hmi) as Hn. pose proof (ival_bound _ _ Hxi) as HVx.
  pose proof Hxi as [Hx1 Hx2 Hx3 HLx]. pose proof Hmi as [Hm1 Hm2 Hm3 HLm].
  assert (Hnz : get m 0 <> 0).
  { intros H. rewrite H in Hm2. change (nwords 0) with 0 in Hm2.
    rewrite <- Hm2, val_0 in Hmp. lia. }
  unfold br_i31_muladd_small. cstep. cstep. apply ok_cond; intros H.
  { by apply Z.eqb_eq in H. }
  clear H. apply ok_cond; intros H0.
  - (* one word *)
    apply Z.leb_le in H0.
    assert (n = 1) as -> by (unfold nwords in Hm2; zn).
    rewrite !val_1 in *.
    pose proof (limbs_get _ _ _ _ 1 HLx ltac:(lia)) as W1.
    pose proof (limbs_get _ _ _ _ 1 HLm ltac:(lia)) as Wm1.
    destruct (div_two_words (get x 1) z) as (Ex & Whi & Wlo & Hle); [done..|].
    rewrite (Z.lor_comm z) in Ex, Wlo.
    csteps. unfold br_rem. rewrite br_divrem_correct, Ex; auto with words; [|lia..].
    simpl snd. set (v := (get x 1 * 2 ^ 31 + z) mod get m 1).
    assert (0 <= v < get m 1) by (apply Z.mod_pos_bound; lia).
    assert (HF : frame 1 (1 + 1) x (upd x 1 v)) by (apply frame_upd; lia).
    assert (Ev : get (upd x 1 v) 1 = v) by (apply get_upd_eq; lia).
    split; [done|]. split; [|by rewrite val_1].
    apply (residue_frame x); [done|done| |rewrite !val_1; lia].
    intros i Hi. replace i with 1 by lia. rewrite Ev. unfold word. lia.
  - apply Z.leb_gt in H0. cbv zeta. rewrite len_nwords, Hm2, land31 by lia.
    pose proof (modulus_top m n Hm ltac:(lia)) as Ht. cbv zeta in Ht.
    set (r := get m 0 mod 32) in *.
    set (D := if r =? 0 then _ else _) in *.
    destruct Ht as (Hn1 & Hr & Hr2 & HD & Hb0 & HmP & t & Ht).
    csteps. eapply ok_mono; [apply (muladd_top_ok x m z n r); try done; lia|].
    intros [[[y a0] a1] b0] (HF & HLy & Ey & Ea0 & Ea1 & Eb0).
    assert (Eb0' : b0 = ival m n / D) by (rewrite Eb0; apply Z.mod_small; lia).
    assert (Hle : ival x n / D <= ival m n / D) by (apply Z.div_le_mono; lia).
    assert (0 <= ival x n / D) by (apply Z.div_pos; lia).
    assert (Ea0' : a0 = ival x n / D) by (rewrite Ea0; apply Z.mod_small; lia).
    pose proof (div_two_words a0 a1) as Hdw.
    destruct Hdw as (Eh & Whi & Wlo & Hhi); [rewrite Ea0; auto with words|rewrite Ea1; auto with words|].
    set (a := ival x n * 2 ^ 31 + z).
    assert (EA : a0 * 2 ^ 31 + a1 = a / D).
    { assert (E1 : a / D / 2 ^ 31 = a0).
      { rewrite Z.div_div, (Z.mul_comm D), <- Z.div_div by lia. unfold a.
        rewrite Z.add_comm, Z.div_add, (Z.div_small z) by (done || lia). done. }
      assert (E2 : (a / D) mod 2 ^ 31 = a1).
      { unfold a. rewrite <- Ey, Ht, Ea1.
        replace (get x n * _) with (get x n * t * 2 ^ 31 * D) by ring.
        rewrite Z.div_add, Z.mod_add by lia. done. }
      rewrite <- E1, <- E2. pose proof (Z.div_mod (a / D) (2 ^ 31) ltac:(lia)). lia. }
    assert (Ha : 0 <= a < ival m n * 2 ^ 31) by (unfold a, word in *; nia).
    unfold br_div. rewrite br_divrem_correct, Eh, EA by (auto with words; unfold word; lia).
    simpl fst. set (g := u32 (a / D / b0)).
    set (q := if a / D / 2 ^ 31 =? b0 then 2 ^ 31 - 1 else
              if a / D / b0 =? 0 then 0 else a / D / b0 - 1).
    destruct (quot_estimate a (ival m n) D (2 ^ 31) b0 (a / D) q) as [Hq HR]; try done; try lia.
    assert (Ea0'' : a / D / 2 ^ 31 = a0).
    { rewrite <- EA, Z.div_add_l, (Z.div_small a1) by (rewrite ?Ea1; try apply mask31_word; lia). lia. }
    assert (Wa1 : 0 <= a1 < 2 ^ 31) by (rewrite Ea1; apply mask31_word).
    assert (Eq : MUX (EQ a0 b0) 0x7FFFFFFF (MUX (EQ g 0) 0 (u32 (g - 1))) = q).
    { assert (word 32 g) by (unfold g; auto with words).
      assert (Wq : word 32 (if g =? 0 then 0 else u32 (g - 1)))
        by (destruct (g =? 0); auto with words; done).
      rewrite !EQ_spec by (unfold word in *; lia).
      rewrite (MUX_spec (g =? 0)), MUX_spec by (auto with words; done).
      unfold q. rewrite Ea0''. destruct (Z.eqb_spec a0 b0) as [|Hne]; [done|].
      assert (Eg : g = a / D / b0).
      { unfold g. apply u32_small. unfold word. rewrite <- EA.
        split; [apply Z.div_pos; lia|]. apply Z.div_lt_upper_bound; [lia|]. nia. }
      rewrite Eg. destruct (Z.eqb_spec (a / D / b0) 0); [done|]. apply u32_small.
      assert (0 <= a / D / b0) by (apply Z.div_pos; [rewrite <- EA|]; lia).
      unfold word in *. lia. }
    rewrite Eq. cstep. eapply ok_mono.
    { apply (muladd_sub_ok y m q n); try done; try lia.
      rewrite (frame_len _ _ _ _ HF). lia. }
    intros [[y' cc] tb] (HF' & HLy' & Hcc & HE & ->).
    assert (HLx2 : zlen y' = zlen x) by (by rewrite (frame_len _ _ _ _ HF'), (frame_len _ _ _ _ HF)).
    assert (Hy'h : get y' 0 = get m 0).
    { rewrite (frame_get _ _ _ _ _ HF'), (frame_get _ _ _ _ _ HF) by lia. done. }
    assert (Hy'i : int31 y' n) by (split; rewrite ?Hy'h, ?HLx2; done).
    pose proof (limbs_get _ _ _ _ n HLx ltac:(lia)) as Whi'.
    assert (Wcc : word 32 cc) by (unfold word; lia).
    assert (Wh : word 32 (get x n)) by (unfold word; lia).
    rewrite GT_spec, LT_spec by done. set (ov := get x n <? cc).
    cstep. eapply ok_mono; [by apply (br_i31_add_ok y' m n ov)|].
    intros [c1 y1] (HF1 & HL1 & _ & HV1). cbv beta iota.
    assert (Eu : u32 (Z.lnot (b2z ov)) .& (b2z (ival m n <=? ival y' n) .| b2z (cc <? get x n)) =
      b2z (negb ov && ((ival m n <=? ival y' n) || (cc <? get x n)))).
    { rewrite b2z_lor. by destruct ov, (_ || _). }
    rewrite Eu. cstep. eapply ok_mono.
    { apply (br_i31_sub_ok y1 m n); [by apply (int31_frame y')|done|done]. }
    intros [c2 y2] (HF2 & HL2 & _ & HV2). cstep.
    pose proof (val_bound 31 ltac:(lia) y' 1 n ltac:(lia) HLy').
    assert (HRes : ival y2 n = a mod ival m n).
    { rewrite HV2, HV1. apply (muladd_fix a (ival m n) q (ival y' n) cc (get x n) (a - q * ival m n)
        (2 ^ (31 * n))); try done; try lia.  }
    assert (HFx : frame 1 (n + 1) x y2).
    { eapply frame_trans; [exact HF|]. eapply frame_trans; [exact HF'|].
      eapply frame_trans; [exact HF1|exact HF2]. }
    split; [done|]. split; [|done].
    apply (residue_frame x); try done. rewrite HRes. apply Z.mod_pos_bound. lia.
Qed.

Lemma residue_bound x m n : residue x m n -> 0 <= ival x n < ival m n.
Proof. intros [Hi _ Hl]. pose proof (ival_bound _ _ Hi). lia. Qed.

(** A modulus exceeds [2^(31*(n-1))]: its announced length is its true one. *)
Lemma modulus_low m n : modulus m n -> 1 <= n /\ 2 ^ (31 * (n - 1)) <= ival m n.
Proof.
  intros [Hi Hb Hp]. pose proof (int31_n m n Hi) as Hn.
  pose proof (bitlen_bounds _ Hp) as HB. destruct Hi as [_ Hw _ _].
  set (k := bitlen (ival m n)) in *. unfold abits in Hb. unfold nwords in Hw.
  assert (0 < k).
  { unfold k, bitlen. case_match; [lia|]. pose proof (Z.log2_nonneg (ival m n)). lia. }
  assert (1 <= n /\ 31 * (n - 1) <= k - 1) as [? Hk] by zn. split; [done|].
  pose proof (Z.pow_le_mono_r 2 _ _ ltac:(lia) Hk). lia.
Qed.

(** [br_i31_muladd_small] multiplies by [2^31], adds [z] and reduces: the
    quotient estimation and the correction are exact for every modulus that
    announces its true bit length. *)
Theorem br_i31_muladd_small_correct x z m n :
  modulus m n -> residue x m n -> word 31 z ->
  ok (br_i31_muladd_small x z m) (fun y =>
    frame 1 (n + 1) x y /\ residue y m n /\
    ival y n = (ival x n * 2 ^ 31 + z) mod ival m n).
Proof. apply br_i31_muladd_small_ok. Qed.

Lemma br_i31_to_monty_ok x m n :
  modulus m n -> residue x m n ->
  ok (br_i31_to_monty x m) (fun y =>
    frame 1 (n + 1) x y /\ residue y m n /\
    ival y n = (ival x n * 2 ^ (31 * n)) mod ival m n).
Proof.
  intros Hm Hx. pose proof (int31_n _ _ (mod_int _ _ Hm)) as Hn.
  pose proof (mod_int _ _ Hm) as [Hm1 Hm2 Hm3 _].
  unfold br_i31_to_monty. csteps. rewrite len_nwords, Hm2 by done.
  apply (ok_for_down1 (fun u y => frame 1 (n + 1) x y /\ residue y m n /\
    ival y n = (ival x n * 2 ^ (31 * (n - u))) mod ival m n)); [lia| |..].
  - rewrite Z.sub_diag, Z.mul_1_r. split; [apply frame_refl|]. split; [done|].
    symmetry. apply Z.mod_small. by apply residue_bound.
  - intros u y Hu (HF & HR & E). eapply ok_mono; [by apply (br_i31_muladd_small_ok y 0 m n)|].
    intros y' (HF' & HR' & E'). split; [by eapply frame_trans|]. split; [done|].
    rewrite E', E, Z.add_0_r, Z.mul_mod_idemp_l by (destruct Hm; lia).
    replace (n - (u - 1)) with (n - u + 1) by lia. rewrite (pow_limb 31) by lia.
    f_equal. ring.
  - intros y (HF & HR & E). by rewrite Z.sub_0_r in E.
Qed.

(** [br_i31_to_monty] computes the Montgomery representation of a residue. *)
Theorem br_i31_to_monty_correct x m n :
  modulus m n -> residue x m n ->
  ok (br_i31_to_monty x m) (fun y =>
    frame 1 (n + 1) x y /\ residue y m n /\
    ival y n = (ival x n * 2 ^ (31 * n)) mod ival m n).
Proof. apply br_i31_to_monty_ok. Qed.

Lemma abits_le h k : 0 <= h < k -> k mod 32 <> 0 -> abits h < abits k.
Proof. unfold abits. zn. Qed.

Lemma br_i31_reduce_ok x a m n na :
  modulus m n -> get m 0 mod 32 <> 0 -> int31 a na -> ival a na < 2 ^ abits (get a 0) ->
  n + 1 <= zlen x ->
  ok (br_i31_reduce x a m) (fun y =>
    frame 0 (n + 1) x y /\ residue y m n /\ ival y n = ival a na mod ival m n).
Proof.
  intros Hm Hm32 Ha Hab Hxl. pose proof (int31_n _ _ (mod_int _ _ Hm)) as Hn.
  pose proof (int31_n _ _ Ha) as Hna. pose proof (modulus_low m n Hm) as [Hn1 Hlow].
  pose proof (mod_int _ _ Hm) as [Hm1 Hm2 Hm3 _]. pose proof Ha as [Ha1 Ha2 Ha3 HLa].
  unfold br_i31_reduce. csteps; rename H into Hnz;
    [by apply Z.eqb_eq in Hnz; rewrite Hnz in Hm32|..];
    rewrite ?len_nwords, ?Hm2, ?Ha2 by done; apply Z.eqb_neq in Hnz.
  - apply Z.ltb_lt in H0. assert (na <= n) by (revert Hm2 Ha2; unfold nwords; zn).
    apply ok_memcpy; autorewrite with arr; try lia.
    apply (ok_for_up (fun u y => frame 0 (n + 1) x y /\ get y 0 = get m 0 /\
      forall i, 1 <= i <= u -> get y i = if i <=? na then get a i else 0)); [done| | |].
    + split; [|split].
      * split; [rewrite zlen_blit; autorewrite with arr; lia|]. intros j ? ?.
        rewrite get_blit_out by (autorewrite with arr; lia). apply get_upd_ne; lia.
      * rewrite get_blit_out by (autorewrite with arr; lia). apply get_upd_eq. lia.
      * intros i Hi. rewrite get_blit_in by (autorewrite with arr; lia).
        destruct (Z.leb_spec i na); [f_equal; lia|lia].
    + intros u y Hu (HF & Hy0 & Hy). pose proof (frame_len _ _ _ _ HF). cstep. split; [|split].
      * eapply frame_trans; [exact HF|]. apply frame_upd; lia.
      * by rewrite get_upd_ne by lia.
      * intros i Hi. destruct (Z.eq_dec i (u + 1)) as [->|].
        { rewrite get_upd_eq by lia. by destruct (Z.leb_spec (u + 1) na); [lia|]. }
        rewrite get_upd_ne by lia. apply Hy. lia.
    + intros y (HF & Hy0 & Hy). split; [done|].
      assert (E : ival y n = ival a na).
      { replace n with (na + (n - na)) by lia. rewrite val_split by lia.
        rewrite (val_ext 31 y a 1 1 na), (val_zero 31 y (1 + na)); [lia|..].
        - intros i Hi. rewrite Hy by lia. by destruct (Z.leb_spec i na); [lia|].
        - intros i Hi. rewrite Hy by lia. by destruct (Z.leb_spec (1 + i) na); [|lia]. }
      assert (Hlt : ival a na < ival m n).
      { pose proof (abits_le (get a 0) (get m 0) ltac:(lia) Hm32).
        destruct Hm as [_ Hb Hp]. pose proof (bitlen_bounds _ Hp). rewrite <- Hb in *.
        pose proof (Z.pow_le_mono_r 2 (abits (get a 0)) (abits (get m 0) - 1) ltac:(lia) ltac:(lia)).
        lia. }
      pose proof (ival_bound _ _ Ha). rewrite E, Z.mod_small by lia. split; [|done].
      pose proof (frame_len _ _ _ _ HF).
      split; [split|..]; rewrite ?Hy0, ?E; try done; [lia|]. intros i Hi. rewrite Hy by lia.
      destruct (Z.leb_spec i na); [apply HLa; lia|done].
  - apply Z.ltb_ge in H0. assert (n <= na) by (revert Hm2 Ha2; unfold nwords; zn).
    apply ok_memcpy; autorewrite with arr; try lia. set (y0 := blit _ _ _ _ _).
    assert (Hl0 : zlen y0 = zlen x) by (unfold y0; rewrite zlen_blit; autorewrite with arr; lia).
    cstep. cstep. set (y1 := upd y0 n 0).
    assert (Hl1 : zlen y1 = zlen x) by (unfold y1; rewrite zlen_upd; lia).
    assert (Hh1 : get y1 0 = get m 0).
    { unfold y1, y0. rewrite get_upd_ne, get_blit_out by (autorewrite with arr; lia).
      apply get_upd_eq. lia. }
    assert (Hi1 : forall i, 1 <= i < n -> get y1 i = get a (i + 1 + (na - n))).
    { intros i Hi. unfold y1, y0. rewrite get_upd_ne, get_blit_in by (autorewrite with arr; lia).
      f_equal. lia. }
    assert (Hn1' : get y1 n = 0) by (apply get_upd_eq; lia).
    assert (HF1 : frame 0 (n + 1) x y1).
    { split; [done|]. intros j ? ?. unfold y1, y0.
      rewrite get_upd_ne, get_blit_out by (autorewrite with arr; lia). apply get_upd_ne; lia. }
    assert (HL1 : limbs 31 y1 1 n).
    { intros i Hi. destruct (Z.eq_dec i n) as [->|]; [by rewrite Hn1'|].
      rewrite Hi1 by lia. apply HLa. lia. }
    assert (E1 : ival y1 n = val 31 a (1 + na - n + 1) (na - (1 + na - n))).
    { rewrite val_pred by lia. replace (1 + (n - 1)) with n by lia. rewrite Hn1'.
      replace (na - (1 + na - n)) with (n - 1) by lia. rewrite Z.mul_0_l, Z.add_0_r.
      apply val_ext. intros i Hi. rewrite Hi1 by lia. f_equal. lia. }
    assert (HR1 : residue y1 m n).
    { assert (HLs : limbs 31 a (1 + na - n + 1) (n - 1)) by (apply (limbs_sub 31 a 1 na); [done|lia..]).
      split; [split|..]; rewrite ?Hh1; try done; [lia|]. rewrite E1.
      replace (na - (1 + na - n)) with (n - 1) by lia.
      pose proof (val_bound 31 ltac:(lia) a _ (n - 1) ltac:(lia) HLs). lia. }
    apply (ok_for_down1 (fun u y => frame 0 (n + 1) x y /\ residue y m n /\
      ival y n = val 31 a (u + 1) (na - u) mod ival m n)); [lia| |..].
    + split; [done|]. split; [done|]. rewrite <- E1. symmetry. apply Z.mod_small.
      by apply residue_bound.
    + intros u y Hu (HF & HR & E). cstep. cstep.
      pose proof (limbs_get _ _ _ _ u HLa ltac:(lia)) as Wu.
      eapply ok_mono; [by apply (br_i31_muladd_small_ok y (get a u) m n)|].
      intros y' (HF' & HR' & E'). split; [|split; [done|]].
      * eapply frame_trans; [exact HF|]. by apply (frame_weaken _ _ 0 (n + 1) _ _ HF'); lia.
      * rewrite E', E. replace (u - 1 + 1) with u by lia.
        replace (na - (u - 1)) with (na - u + 1) by lia. rewrite (val_cons 31 ltac:(lia)) by lia.
        rewrite <- Z.add_mod_idemp_l, Z.mul_mod_idemp_l, Z.add_mod_idemp_l by lia.
        f_equal. ring.
    + intros y (HF & HR & E). replace (na - 0) with na in E by lia. done.
Qed.

(** [br_i31_reduce] is the remainder, for an operand of any size that fits its
    announced length and a modulus with the header [br_i31_bit_length] makes. *)
Theorem br_i31_reduce_correct x a m n na :
  modulus m n -> get m 0 mod 32 <> 0 -> int31 a na -> ival a na < 2 ^ abits (get a 0) ->
  n + 1 <= zlen x ->
  ok (br_i31_reduce x a m) (fun y =>
    frame 0 (n + 1) x y /\ residue y m n /\ ival y n = ival a na mod ival m n).
Proof. apply br_i31_reduce_ok. Qed.

(** * Concrete instances *)

Lemma br_i31_muladd_small_witness :
  ok (br_i31_muladd_small [33; 5; 0] 7 [33; 9; 1]) (fun y =>
    frame 1 3 [33; 5; 0] y /\ residue y [33; 9; 1] 2 /\
    ival y 2 = (ival [33; 5; 0] 2 * 2 ^ 31 + 7) mod ival [33; 9; 1] 2).
Proof.
  apply (br_i31_muladd_small_correct [33; 5; 0] 7 [33; 9; 1] 2); [int31_tac..|done].
Defined.

Lemma br_i31_to_monty_witness :
  ok (br_i31_to_monty [33; 5; 0] [33; 9; 1]) (fun y =>
    frame 1 3 [33; 5; 0] y /\ residue y [33; 9; 1] 2 /\
    ival y 2 = (ival [33; 5; 0] 2 * 2 ^ (31 * 2)) mod ival [33; 9; 1] 2).
Proof. apply (br_i31_to_monty_correct [33; 5; 0] [33; 9; 1] 2); int31_tac. Defined.

Lemma br_i31_reduce_witness :
  ok (br_i31_reduce [0; 0; 0] [65; 1; 2; 1] [33; 9; 1]) (fun y =>
    frame 0 3 [0; 0; 0] y /\ residue y [33; 9; 1] 2 /\
    ival y 2 = ival [65; 1; 2; 1] 3 mod ival [33; 9; 1] 2).
Proof.
  apply (br_i31_reduce_correct [0; 0; 0] [65; 1; 2; 1] [33; 9; 1] 2 3);
    [int31_tac|done|int31_tac|done|done].
Defined.
