(* ===== verification/I31Codec.v ===== *)
(** Conversions between byte strings and 31-bit big integers:
    [src/int/i31_decode.c], [i31_encode.c], [i31_decmod.c] and [i31_decred.c]. *)
From stdpp Require Import base tactics list numbers option.
From Stdlib Require Import ZArith Lia.
From S2P Require Import Prelude CtPrims Limbs Codec I31 I31Mul.
Local Open Scope Z_scope.
Local Open Scope cword_scope.

(** * Code *)

Definition br_i31_decode (x src : list Z) (len : Z) : M (list Z) :=
  '(x, v, acc, acc_len) ← for_down len (fun u '(x, v, acc, acc_len) =>
    b ← load src u;
    let acc := acc .| u32 (b << acc_len) in
    let acc_len := acc_len + 8 in
    If 31 <=? acc_len Then
      x ← store x v (acc .& 0x7FFFFFFF);
      let acc_len := acc_len - 31 in
      mret (x, v + 1, b >> (8 - acc_len), acc_len)
    Else mret (x, v, acc, acc_len)) (x, 1, 0, 0);
  '(x, v) ← (If negb (acc_len =? 0)
    Then x ← store x v acc; mret (x, v + 1)
    Else mret (x, v));
  h ← br_i31_bit_length x 1 (v - 1);
  store x 0 h.

(** The [while] loop of [br_i31_encode], with the remaining length [len] (the
    pointer [buf] is [dst + len]); each turn consumes fuel. *)
Fixpoint encode_loop (fuel : nat) (x : list Z) (xlen : Z) (dst : list Z) (len k acc acc_len : Z)
  : M (list Z) :=
  match fuel with
  | O => None
  | S fuel =>
      If negb (len =? 0) Then
        w ← (If k <=? xlen Then load x k Else mret 0);
        let k := k + 1 in
        If acc_len =? 0 Then encode_loop fuel x xlen dst len k w 31
        Else
          let z := acc .| u32 (w << acc_len) in
          let acc_len := acc_len - 1 in
          let acc := w >> (31 - acc_len) in
          If 4 <=? len Then
            dst ← br_enc32be dst (len - 4) z;
            encode_loop fuel x xlen dst (len - 4) k acc acc_len
          Else
            dst ← (If 3 <=? len Then store dst (len - 3) (u8 (z >> 16)) Else mret dst);
            dst ← (If 2 <=? len Then store dst (len - 2) (u8 (z >> 8)) Else mret dst);
            store dst (len - 1) (u8 z)
      Else mret dst
  end.

Definition br_i31_encode (dst : list Z) (len : Z) (x : list Z) : M (list Z) :=
  x0 ← load x 0;
  let xlen := u32 (x0 + 31) >> 5 in
  If xlen =? 0 Then memset dst 0 0 len
  Else encode_loop (Z.to_nat (2 * len + 1)) x xlen dst len 1 0 0.

(** A complete word [xw] of a pass of [br_i31_decode_mod]: in the first pass it
    is compared with that of [m], in the second it is written. *)
Definition decode_mod_word (m : list Z) (mlen : Z) (pass : bool) (v xw : Z) (x : list Z) (r : Z)
    : M (list Z * Z) :=
  If v <=? mlen Then
    If pass Then x ← store x v (r .& xw); mret (x, r)
    Else
      mv ← load m v;
      let cc := u32 (CMP xw mv) in
      mret (x, MUX (EQ cc 0) r cc)
  Else
    If negb pass Then mret (x, MUX (EQ xw 0) r 1) Else mret (x, r).

Definition decode_mod_byte (src m : list Z) (len mlen : Z) (pass : bool) (u : Z)
    (s : list Z * Z * Z * Z * Z) : M (list Z * Z * Z * Z * Z) :=
  let '(x, r, v, acc, acc_len) := s in
  b ← (If u <? len Then load src (len - 1 - u) Else mret 0);
  let acc := acc .| u32 (b << acc_len) in
  let acc_len := acc_len + 8 in
  If 31 <=? acc_len Then
    let xw := acc .& 0x7FFFFFFF in
    let acc_len := acc_len - 31 in
    let acc := b >> (8 - acc_len) in
    '(x, r) ← decode_mod_word m mlen pass v xw x r;
    mret (x, r, v + 1, acc, acc_len)
  Else mret (x, r, v, acc, acc_len).

Definition decode_mod_pass (src m : list Z) (len mlen tlen : Z) (pass : bool)
    (x : list Z) (r : Z) : M (list Z * Z) :=
  '(x, r, _, _, _) ← for_up 0 tlen (decode_mod_byte src m len mlen pass) (x, r, 1, 0, 0);
  let r := r >> 1 in
  mret (x, r .| u32 (r << 1)).

Definition br_i31_decode_mod (x src : list Z) (len : Z) (m : list Z) : M (Z * list Z) :=
  m0 ← load m 0;
  let mlen := u32 (m0 + 31) >> 5 in
  let tlen := mlen << 2 in
  let tlen := (if tlen <? len then len else tlen) + 4 in
  '(x, r) ← decode_mod_pass src m len mlen tlen false x 0;
  '(x, r) ← decode_mod_pass src m len mlen tlen true x r;
  m0 ← load m 0;
  x ← store x 0 m0;
  mret (r .& 1, x).

Definition br_i31_decode_reduce (x src : list Z) (len : Z) (m : list Z) : M (list Z) :=
  m_ebitlen ← load m 0;
  If m_ebitlen =? 0 Then store x 0 0 Else
  x ← br_i31_zero x m_ebitlen;
  let m_rbitlen := m_ebitlen >> 5 in
  let m_rbitlen := u32 ((m_ebitlen .& 31) + u32 (m_rbitlen << 5) - m_rbitlen) in
  let mblen := u32 (m_rbitlen + 7) >> 3 in
  let k := mblen - 1 in
  If len <=? k Then
    x ← br_i31_decode x src len;
    store x 0 m_ebitlen
  Else
  x ← br_i31_decode x src k;
  x ← store x 0 m_ebitlen;
  '(x, acc, acc_len) ← for_up k len (fun k '(x, acc, acc_len) =>
    v ← load src k;
    If 23 <=? acc_len Then
      let acc_len := acc_len - 23 in
      let acc := u32 (acc << (8 - acc_len)) .| (v >> acc_len) in
      x ← br_i31_muladd_small x acc m;
      mret (x, v .& (0xFF >> (8 - acc_len)), acc_len)
    Else mret (x, u32 (acc << 8) .| v, acc_len + 8)) (x, 0, 0);
  If negb (acc_len =? 0) Then
    x1 ← load x 1;
    let acc := (acc .| u32 (x1 << acc_len)) .& 0x7FFFFFFF in
    x ← br_i31_rshift x (31 - acc_len);
    br_i31_muladd_small x acc m
  Else mret x.

(** * The accumulator *)

(** One byte more, above the [k] bits at hand: either they all fit, or a word
    is complete. *)
Lemma acc31_more V p k : 0 <= p -> 0 <= k -> k + 8 < 31 ->
  bits V p k .| u32 (bits V (p + k) 8 << k) = bits V p (k + 8).
Proof. intros. rewrite shl_mul by lia. unfold u32. apply (bits_acc V p k 8 32); lia. Qed.

Lemma acc31_word V p k : 0 <= p -> 0 <= k < 31 -> 31 <= k + 8 ->
  (bits V p k .| u32 (bits V (p + k) 8 << k)) .& 0x7FFFFFFF = bits V p 31 /\
  bits V (p + k) 8 >> (8 - (k + 8 - 31)) = bits V (p + 31) (k + 8 - 31).
Proof.
  intros Hp Hk Hk8. split.
  - rewrite mask31, shl_mul by lia. unfold u32. destruct (Z.le_ge_cases (k + 8) 32).
    + rewrite bits_acc by lia. replace (k + 8) with (31 + (k + 8 - 31)) by lia. apply bits_mod; lia.
    + rewrite bits_acc_full by lia. apply (bits_mod V p 31 1); lia.
  - rewrite shr_div by lia. replace (8 - (k + 8 - 31)) with (31 - k) by lia.
    replace 8 with (31 - k + (k + 8 - 31)) at 1 by lia. rewrite bits_div by lia.
    f_equal. lia.
Qed.

Lemma byte_bits src len u : 0 <= u < len -> bytes src 0 len ->
  get src u = bits (vbe src 0 len) (8 * (len - 1 - u)) 8.
Proof.
  intros Hu HB. rewrite <- vbe_bits by (done || lia). f_equal. lia.
Qed.

(** * Decoding *)

(** The words a string of [len] bytes fills. *)
Definition dec_words (len : Z) : Z := (8 * len + 30) / 31.

Record decoding (src x0 : list Z) (len u : Z) (s : list Z * Z * Z * Z) : Prop := Decoding {
  dec_v : 1 <= s.1.1.2;
  dec_len : 0 <= s.2 < 31;
  dec_pos : 8 * (len - u) = 31 * (s.1.1.2 - 1) + s.2;
  dec_acc : s.1.2 = bits (vbe src 0 len) (31 * (s.1.1.2 - 1)) s.2;
  dec_frame : frame 1 s.1.1.2 x0 s.1.1.1;
  dec_limbs : forall i, 0 <= i < s.1.1.2 - 1 ->
    get s.1.1.1 (1 + i) = bits (vbe src 0 len) (31 * i) 31
}.

Lemma decoding_snoc x0 V x v :
  1 <= v < zlen x -> frame 1 v x0 x -> (forall i, 0 <= i < v - 1 -> get x (1 + i) = bits V (31 * i) 31) ->
  let y := upd x v (bits V (31 * (v - 1)) 31) in
  frame 1 (v + 1) x0 y /\ forall i, 0 <= i < v + 1 - 1 -> get y (1 + i) = bits V (31 * i) 31.
Proof.
  intros Hv HF HL y. split.
  - eapply frame_trans; [by apply (frame_weaken _ _ 1 (v + 1) _ _ HF); lia|]. apply frame_upd; lia.
  - intros i Hi. unfold y. destruct (Z.eq_dec i (v - 1)) as [->|].
    + replace (1 + (v - 1)) with v by lia. by rewrite get_upd_eq by lia.
    + rewrite get_upd_ne by lia. apply HL. lia.
Qed.

Lemma br_i31_decode_ok x src len :
  0 <= len < 2 ^ 28 -> len <= zlen src -> bytes src 0 len -> dec_words len + 1 <= zlen x ->
  ok (br_i31_decode x src len) (fun y => exists h,
    h = enc_bits (bitlen (vbe src 0 len)) /\
    frame 0 (dec_words len + 1) x y /\ get y 0 = h /\
    limbs 31 y 1 (dec_words len) /\ ival y (dec_words len) = vbe src 0 len).
Proof.
  intros Hlen Hs HB Hx. unfold dec_words in *. set (nw := (8 * len + 30) / 31) in *.
  assert (Hnw : 31 * nw - 30 <= 8 * len <= 31 * nw) by (unfold nw; zn).
  pose proof (vbe_bound src 0 len ltac:(lia) HB) as HV. set (V := vbe src 0 len) in *.
  unfold br_i31_decode. cstep. apply (ok_for_down (decoding src x len)).
  - lia.
  - split; simpl; try lia; [by rewrite bits_none|apply frame_refl].
  - intros u [[[y v] acc] k] Hu [Hv Hk Hp Ha HF HL]. simpl in *. fold V in Ha, HL. subst acc.
    pose proof (frame_len _ _ _ _ HF). cstep. cstep. cbv zeta.
    rewrite (byte_bits src len u) by done. fold V.
    replace (8 * (len - 1 - u)) with (31 * (v - 1) + k) by lia.
    apply ok_cond; intros Hc.
    + apply Z.leb_le in Hc. destruct (acc31_word V (31 * (v - 1)) k) as [E1 E2]; [lia..|].
      rewrite E1, E2. csteps. destruct (decoding_snoc x V y v) as [HF' HL']; [lia|done|done|].
      split; simpl; try done; try lia. fold V. f_equal. lia.
    + apply Z.leb_gt in Hc. cstep. rewrite acc31_more by lia.
      split; simpl; try done; lia.
  - intros [[[y v] acc] k] [Hv Hk Hp Ha HF HL]. simpl in *. fold V in Ha, HL. subst acc.
    pose proof (frame_len _ _ _ _ HF). cstep.
    assert (HE : ok (If negb (k =? 0) Then x0 ← store y v (bits V (31 * (v - 1)) k);
        mret (x0, v + 1) Else mret (y, v)) (fun '(z, v') => v' = nw + 1 /\
        frame 1 (nw + 1) x z /\ forall i, 0 <= i < nw -> get z (1 + i) = bits V (31 * i) 31)).
    { apply ok_cond; intros Hc.
      - apply negb_true_iff, Z.eqb_neq in Hc. assert (v = nw) as -> by lia. csteps. split; [done|].
        assert (E : bits V (31 * (nw - 1)) k = bits V (31 * (nw - 1)) 31).
        { replace 31 with (k + (31 - k)) at 3 by lia. rewrite bits_split by lia.
          rewrite (bits_high V (_ + k)) by (replace (31 * (nw - 1) + k) with (8 * len) by lia; lia). lia. }
        rewrite E. destruct (decoding_snoc x V y nw) as [HF' HL']; [lia|done|done|].
        replace (nw + 1 - 1) with nw in HL' by lia. done.
      - apply negb_false_iff, Z.eqb_eq in Hc. assert (v = nw + 1) as -> by lia. cstep.
        replace (nw + 1 - 1) with nw in HL by lia. done. }
    eapply ok_mono; [exact HE|]. intros [z v'] (-> & HFz & HLz). cbv beta iota.
    replace (nw + 1 - 1) with nw by lia. pose proof (frame_len _ _ _ _ HFz).
    assert (HLl : limbs 31 z 1 nw).
    { intros i Hi. replace i with (1 + (i - 1)) by lia. rewrite HLz by lia. apply bits_bound. lia. }
    assert (Ev : ival z nw = V).
    { rewrite (val_of_bits 31 z 1 nw V) by (done || lia). apply Z.mod_small.
      pose proof (Z.pow_le_mono_r 2 (8 * len) (31 * nw) ltac:(lia) ltac:(lia)). lia. }
    cstep. eapply ok_mono; [apply (br_i31_bit_length_ok z 1 nw); done || lia|].
    intros h ->. cstep. exists (enc_bits (bitlen V)). rewrite Ev.
    assert (HF0 : frame 0 1 z (upd z 0 (enc_bits (bitlen V)))) by (apply frame_upd; lia).
    split; [done|]. split; [|split; [by apply get_upd_eq; lia|split]].
    + eapply frame_trans; [apply (frame_weaken _ _ 0 (nw + 1) _ _ HFz)|
        apply (frame_weaken _ _ 0 (nw + 1) _ _ HF0)]; lia.
    + apply (limbs_frame 31 z _ 1 nw 0 1); [done|done|lia..].
    + by rewrite val_upd_out by lia.
Qed.

(** The destination as an integer. *)
Lemma br_i31_decode_int x src len :
  0 <= len < 2 ^ 28 -> len <= zlen src -> bytes src 0 len -> dec_words len + 1 <= zlen x ->
  let V := vbe src 0 len in
  let n := (bitlen V + 30) / 31 in
  n <= dec_words len /\
  ok (br_i31_decode x src len) (fun y =>
    frame 0 (dec_words len + 1) x y /\ int31 y n /\ get y 0 = enc_bits (bitlen V) /\ ival y n = V).
Proof.
  intros Hlen Hs HB Hx V n.
  pose proof (vbe_bound src 0 len ltac:(lia) HB) as HVb. fold V in HVb.
  assert (Hb : bitlen V <= 8 * len) by (apply bitlen_le; lia). pose proof (bitlen_nonneg V).
  unfold dec_words in *.
  assert (Hn : 0 <= n <= (8 * len + 30) / 31 /\ bitlen V <= 31 * n) by (unfold n; zn).
  split; [lia|]. eapply ok_mono; [by apply br_i31_decode_ok|]. unfold dec_words.
  intros y (h & -> & HF & Hh & HL & HV). fold V in Hh, HV.
  assert (E : ival y n = V).
  { rewrite <- HV, <- (val_mod 31 ltac:(lia) y 1 ((8 * len + 30) / 31)), HV by (done || lia).
    apply Z.mod_small. split; [lia|]. apply bitlen_le; [lia|lia|]. lia. }
  split; [done|]. split; [|done]. split.
  - rewrite Hh. unfold enc_bits. case_match; [lia|]. zn.
  - rewrite Hh. by apply enc_bits_nwords.
  - rewrite (frame_len _ _ _ _ HF). lia.
  - apply (limbs_sub 31 y 1 ((8 * len + 30) / 31)); [done|lia..].
Qed.

(** A positive value is a modulus. *)
Lemma br_i31_decode_modulus x src len :
  0 <= len < 2 ^ 28 -> len <= zlen src -> bytes src 0 len -> dec_words len + 1 <= zlen x ->
  let V := vbe src 0 len in
  let n := (bitlen V + 30) / 31 in
  0 < V ->
  n <= dec_words len /\
  ok (br_i31_decode x src len) (fun y => frame 0 (dec_words len + 1) x y /\
    modulus y n /\ get y 0 = enc_bits (bitlen V) /\ get y 0 mod 32 <> 0 /\ ival y n = V).
Proof.
  intros Hlen Hs HB Hx V n HV0.
  destruct (br_i31_decode_int x src len Hlen Hs HB Hx) as [Hn HD]. fold V n in Hn, HD. split; [done|].
  eapply ok_mono; [exact HD|]. intros y (HF & Hy & Hh & HV). pose proof (bitlen_bounds V HV0).
  pose proof (bitlen_nonneg V). split; [done|]. split; [|split; [done|split; [|done]]].
  - split; [done| |lia]. by rewrite Hh, HV, enc_bits_abits.
  - rewrite Hh. unfold enc_bits. destruct (Z.eqb_spec (bitlen V) 0) as [E|]; [rewrite E in H; lia|zn].
Qed.

(** [br_i31_decode] reads a big-endian number: all the words the [len] bytes
    fill are written, and the header announces the true bit length. *)
Theorem br_i31_decode_correct x src len :
  0 <= len < 2 ^ 28 -> len <= zlen src -> bytes src 0 len -> dec_words len + 1 <= zlen x ->
  ok (br_i31_decode x src len) (fun y => exists n, n <= dec_words len /\
    frame 0 (dec_words len + 1) x y /\ int31 y n /\ abits (get y 0) = bitlen (ival y n) /\
    ival y n = vbe src 0 len).
Proof.
  intros Hlen Hs HB Hx. destruct (br_i31_decode_int x src len Hlen Hs HB Hx) as [Hn HD].
  eapply ok_mono; [exact HD|]. intros y (HF & Hy & Hh & HV).
  exists ((bitlen (vbe src 0 len) + 30) / 31). split; [done|]. split; [done|]. split; [done|].
  split; [|done]. by rewrite Hh, HV, enc_bits_abits by apply bitlen_nonneg.
Qed.

(** * Encoding *)

(** The last bytes, when less than four remain. *)
Lemma encode_tail_ok d len z :
  1 <= len <= 3 -> len <= zlen d ->
  ok (d ← (If 3 <=? len Then store d (len - 3) (u8 (z >> 16)) Else mret d);
      d ← (If 2 <=? len Then store d (len - 2) (u8 (z >> 8)) Else mret d);
      store d (len - 1) (u8 z)) (fun d' =>
    frame 0 len d d' /\ bytes d' 0 len /\ vbe d' 0 len = z mod 2 ^ (8 * len)).
Proof.
  intros Hlen Hl.
  assert (HC : forall d' b, frame 0 len d d' -> bytes d' 0 len -> vbe d' 0 len = b -> b = z mod 2 ^ (8 * len) ->
    frame 0 len d d' /\ bytes d' 0 len /\ vbe d' 0 len = z mod 2 ^ (8 * len)) by (intros; subst; done).
  assert (len = 1 \/ len = 2 \/ len = 3) as [-> | [-> | ->]] by lia.
  - csteps; try done. change (1 - 1) with 0. eapply HC; [by apply frame_upd; lia| | |].
    + intros i Hi. assert (i = 0) as -> by lia. rewrite get_upd_eq by lia. apply u8_word.
    + rewrite vbe_1, get_upd_eq by lia. done.
    + done.
  - csteps; try done. change (2 - 1) with 1. change (2 - 2) with 0. eapply HC.
    + eapply frame_trans; apply frame_upd; lia.
    + intros i Hi. assert (i = 0 \/ i = 1) as [-> | ->] by lia; autorewrite with arr; apply u8_word.
    + rewrite vbe_2, !Z.add_0_l. autorewrite with arr. done.
    + rewrite shr_div by lia. unfold u8. zn.
  - csteps; try done. change (3 - 1) with 2. change (3 - 2) with 1. change (3 - 3) with 0. eapply HC.
    + eapply frame_trans; [|eapply frame_trans]; apply frame_upd; lia.
    + intros i Hi. assert (i = 0 \/ i = 1 \/ i = 2) as [-> | [-> | ->]] by lia;
        autorewrite with arr; apply u8_word.
    + rewrite vbe_3, !Z.add_0_l. autorewrite with arr. done.
    + rewrite !shr_div by lia. unfold u8. zn.
Qed.

Section Encode.
Context (x : list Z) (n : Z) (Hx : int31 x n) (L : Z) (d0 : list Z).
Abbreviation V := (ival x n).

(** What the loop has written: the low bytes of the value. *)
Record encoding (d : list Z) (len k acc acc_len : Z) : Prop := Encoding {
  enc_len : 0 <= len <= L;
  enc_alen : 0 <= acc_len <= 31;
  enc_k : 1 <= k;
  enc_pos : 31 * (k - 1) = 8 * (L - len) + acc_len;
  enc_acc : acc = bits V (8 * (L - len)) acc_len;
  enc_frame : frame 0 L d0 d;
  enc_bytes : bytes d len (L - len);
  enc_val : vbe d len (L - len) = V mod 2 ^ (8 * (L - len))
}.

(** The bytes written so far, with [j] more in front. *)
Lemma encoding_more d d' len j z :
  0 <= j <= len -> len <= L -> frame (len - j) len d d' ->
  bytes d len (L - len) -> vbe d len (L - len) = V mod 2 ^ (8 * (L - len)) ->
  bytes d' (len - j) j -> vbe d' (len - j) j = z -> z = bits V (8 * (L - len)) (8 * j) ->
  bytes d' (len - j) (L - (len - j)) /\
  vbe d' (len - j) (L - (len - j)) = V mod 2 ^ (8 * (L - (len - j))).
Proof.
  intros Hj Hl HF HB HV HB' HV' Hz. split.
  - intros i Hi. destruct (Z.lt_ge_cases i len); [apply HB'; lia|].
    rewrite (frame_get _ _ _ _ _ HF) by lia. apply HB. lia.
  - replace (L - (len - j)) with (j + (L - len)) by lia. rewrite vbe_split by lia.
    replace (len - j + j) with len by lia. rewrite (vbe_frame d d' len _ _ _ HF) by lia.
    rewrite HV, HV', Hz, <- !bits_0.
    replace (8 * (j + (L - len))) with (8 * (L - len) + 8 * j) by lia. rewrite bits_split by lia.
    rewrite Z.add_0_l. ring.
Qed.

Lemma encode_word k : 1 <= k -> ok (If k <=? n Then load x k Else mret 0) (fun w =>
  w = bits V (31 * (k - 1)) 31).
Proof.
  intros Hk. pose proof (ival_bound x n Hx). destruct Hx as [_ _ Hl HL].
  apply ok_cond; intros Hc; cstep; try lia.
  - apply Z.leb_le in Hc. rewrite <- (val_bits 31 x 1 n) by (done || lia). f_equal. lia.
  - apply Z.leb_gt in Hc. symmetry. apply bits_high; [lia|].
    pose proof (Z.pow_le_mono_r 2 (31 * n) (31 * (k - 1)) ltac:(lia) ltac:(lia)). lia.
Qed.

Lemma encode_loop_ok fuel d len k acc acc_len :
  L <= zlen d0 -> encoding d len k acc acc_len ->
  Z.max 1 (2 * len + b2z (acc_len =? 0)) <= Z.of_nat fuel ->
  ok (encode_loop fuel x n d len k acc acc_len) (fun d' =>
    frame 0 L d0 d' /\ bytes d' 0 L /\ vbe d' 0 L = V mod 2 ^ (8 * L)).
Proof.
  intros HL. revert d len k acc acc_len. induction fuel as [|fuel IH]; intros d len k acc acc_len HE Hf.
  { simpl in Hf. lia. }
  pose proof HE as [Hl Ha Hk Hp Hacc HF HB HV]. pose proof (frame_len _ _ _ _ HF).
  cbn [encode_loop]. apply ok_cond; intros Hc.
  2:{ apply negb_false_iff, Z.eqb_eq in Hc. subst len. cstep. rewrite Z.sub_0_r in *. done. }
  apply negb_true_iff, Z.eqb_neq in Hc. cstep.
  eapply ok_mono; [by apply encode_word|]. intros w Hw. cbv beta zeta.
  apply ok_cond; intros Hc0; [apply Z.eqb_eq in Hc0|apply Z.eqb_neq in Hc0].
  - subst acc_len. apply IH; [|simpl in *; lia]. rewrite Z.add_0_r in Hp.
    split; try done; try lia. by rewrite <- Hp.
  - assert (Ez : acc .| u32 (w << acc_len) = bits V (8 * (L - len)) 32).
    { rewrite Hacc, Hw, Hp, shl_mul by lia. apply bits_acc_full; lia. }
    assert (Eq : w >> (31 - (acc_len - 1)) = bits V (8 * (L - len) + 32) (acc_len - 1)).
    { rewrite Hw, Hp, shr_div by lia.
      replace (8 * (L - len) + 32) with (8 * (L - len) + acc_len + (31 - (acc_len - 1))) by lia.
      rewrite <- (bits_div V _ (31 - (acc_len - 1))) by lia.
      by replace (31 - (acc_len - 1) + (acc_len - 1)) with 31 by lia. }
    rewrite Ez, Eq. pose proof (bits_bound V (8 * (L - len)) 32 ltac:(lia)) as Wz.
    assert (Ef : Z.of_nat (S fuel) = Z.of_nat fuel + 1) by lia. rewrite Ef in Hf.
    apply ok_cond; intros Hc4; [apply Z.leb_le in Hc4|apply Z.leb_gt in Hc4].
    + cstep. eapply ok_mono; [apply (codec_enc (sz:=4) d (len - 4)); [lia|lia|exact Wz]|].
      cbv beta. intros d' (HF' & HB' & HV').
      replace (len - 4 + 4) with len in HF' by lia.
      destruct (encoding_more d d' len 4 (bits V (8 * (L - len)) 32)) as [HB2 HV2]; try done; try lia.
      apply IH.
      * split; try done; try lia; [f_equal; lia|].
        eapply frame_trans; [exact HF|]. by apply (frame_weaken _ _ 0 L _ _ HF'); lia.
      * assert (E0 : (acc_len =? 0) = false) by lia. rewrite E0 in Hf.
        destruct (acc_len - 1 =? 0); simpl b2z in *; lia.
    + eapply ok_mono; [apply encode_tail_ok; lia|]. intros d' (HF' & HB' & HV').
      destruct (encoding_more d d' len len (bits V (8 * (L - len)) (8 * len))) as [HB2 HV2];
        rewrite ?Z.sub_diag; try done; try lia.
      { rewrite HV'. replace 32 with (8 * len + (32 - 8 * len)) by lia. apply bits_mod; lia. }
      rewrite Z.sub_diag, Z.sub_0_r in HB2, HV2. split; [|done].
      eapply frame_trans; [exact HF|]. by apply (frame_weaken _ _ 0 L _ _ HF'); lia.
Qed.
End Encode.

Lemma br_i31_encode_ok dst len x n :
  int31 x n -> 0 <= len <= zlen dst ->
  ok (br_i31_encode dst len x) (fun d =>
    frame 0 len dst d /\ bytes d 0 len /\ vbe d 0 len = ival x n mod 2 ^ (8 * len)).
Proof.
  intros Hx Hl. pose proof Hx as [H1 H2 H3 HLx]. pose proof (int31_n _ _ Hx).
  unfold br_i31_encode. cstep. cstep. cbv zeta. rewrite len_nwords, H2 by done.
  apply ok_cond; intros Hc.
  - apply Z.eqb_eq in Hc. subst n. rewrite Hc in *. apply ok_memset; [lia..|].
    assert (HG : forall i, 0 <= i < len -> get (fillz dst 0 0 len) i = 0)
      by (intros; apply get_fillz_in; lia).
    split; [|split].
    + split; [apply zlen_fillz; lia|]. intros. apply get_fillz_out; lia.
    + intros i Hi. rewrite HG by lia. done.
    + rewrite val_0, Z.mod_0_l by (pose proof (pow_limb_pos 8 ltac:(lia) len); lia).
      assert (HZ : forall k, 0 <= k -> k <= len -> vbe (fillz dst 0 0 len) 0 k = 0).
      { apply (limb_ind (fun k => k <= len -> _)); [done|]. intros k Hk IH Hk'.
        rewrite vbe_succ, IH, HG by lia. lia. }
      apply HZ; lia.
  - apply (encode_loop_ok x n Hx len dst); [lia| |].
    + split; rewrite ?Z.sub_diag; try lia; [by rewrite bits_none|apply frame_refl|apply limbs_nil|].
      symmetry. apply Z.mod_1_r.
    + simpl b2z. lia.
Qed.

(** [br_i31_encode] writes the big-endian bytes of the value, truncated or
    extended with zeros to the requested length; the loop terminates. *)
Theorem br_i31_encode_correct dst len x n :
  int31 x n -> 0 <= len <= zlen dst ->
  ok (br_i31_encode dst len x) (fun d =>
    frame 0 len dst d /\ bytes d 0 len /\ vbe d 0 len = ival x n mod 2 ^ (8 * len)).
Proof. apply br_i31_encode_ok. Qed.

(** * Decoding below a modulus *)

Section DecodeMod.
Context (src m : list Z) (len n tlen : Z).
Context (Hlen : 0 <= len <= zlen src) (HB : bytes src 0 len) (Hm : int31 m n).
Context (Ht1 : len + 4 <= tlen) (Ht2 : 4 * n + 4 <= tlen).
Abbreviation V := (vbe src 0 len).
Abbreviation Mv := (ival m n).

(** The state after [u] bytes, with [P j x r] what [j] words have done. *)
Record passing (P : Z -> list Z -> Z -> Prop) (u : Z) (s : list Z * Z * Z * Z * Z) : Prop := Passing {
  pas_v : 1 <= s.1.1.2;
  pas_len : 0 <= s.2 < 31;
  pas_pos : 8 * u = 31 * (s.1.1.2 - 1) + s.2;
  pas_acc : s.1.2 = bits V (31 * (s.1.1.2 - 1)) s.2;
  pas_inv : P (s.1.1.2 - 1) s.1.1.1.1 s.1.1.1.2
}.

Lemma decode_src u : 0 <= u -> ok (If u <? len Then load src (len - 1 - u) Else mret 0) (fun b =>
  b = bits V (8 * u) 8).
Proof.
  intros Hu. apply ok_cond; intros Hc; cstep.
  - rewrite <- vbe_bits by (done || lia). f_equal.
  - symmetry. apply bits_high; [lia|]. apply Z.ltb_ge in Hc.
    pose proof (vbe_bound src 0 len ltac:(lia) HB).
    pose proof (Z.pow_le_mono_r 2 (8 * len) (8 * u) ltac:(lia) ltac:(lia)). lia.
Qed.

Lemma decode_pass_ok P pass x r :
  P 0 x r ->
  (forall j x r, 0 <= j -> P j x r ->
    ok (decode_mod_word m n pass (j + 1) (bits V (31 * j) 31) x r) (fun '(x', r') => P (j + 1) x' r')) ->
  ok (decode_mod_pass src m len n tlen pass x r) (fun '(x', r') => exists j r1,
    8 * len < 31 * j /\ n < j /\ P j x' r1 /\ r' = (r1 >> 1) .| u32 ((r1 >> 1) << 1)).
Proof.
  intros HP0 HP. pose proof (int31_n _ _ Hm). unfold decode_mod_pass. cstep.
  apply (ok_for_up (passing P)).
  - lia.
  - split; simpl; try lia; [by rewrite bits_none|done].
  - intros u [[[[y s] v] acc] k] Hu [Hv Hk Hp Ha HI]. simpl in *. unfold decode_mod_byte.
    cstep. eapply ok_mono; [apply decode_src; lia|]. intros b ->. cbv beta zeta.
    rewrite Ha, Hp. apply ok_cond; intros Hc.
    + apply Z.leb_le in Hc. destruct (acc31_word V (31 * (v - 1)) k) as [E1 E2]; [lia..|].
      rewrite E1, E2. cstep. specialize (HP (v - 1) y s ltac:(lia) HI).
      replace (v - 1 + 1) with v in HP by lia. eapply ok_mono; [exact HP|].
      intros [y' s'] HP'. cstep. split; simpl; try lia; [f_equal; lia|].
      by replace (v + 1 - 1) with v by lia.
    + apply Z.leb_gt in Hc. cstep. rewrite acc31_more by lia. split; simpl; try done; lia.
  - intros [[[[y s] v] acc] k] [Hv Hk Hp Ha HI]. cbn [fst snd] in *. cstep. exists (v - 1), s.
    split; [lia|]. split; [lia|]. done.
Qed.

(** The comparison of the low words. *)
Definition cmp_inv (x0 : list Z) (j : Z) (x : list Z) (r : Z) : Prop :=
  x = x0 /\ r = u32 (cmp_sign (V mod 2 ^ (31 * j)) (Mv mod 2 ^ (31 * j))).

Lemma cmp_more A B a b P : 0 <= A < P -> 0 <= B < P ->
  cmp_sign (A + P * a) (B + P * b) = if a =? b then cmp_sign A B else cmp_sign a b.
Proof.
  intros HA HB'. unfold cmp_sign.
  destruct (Z.eqb_spec a b) as [->|]; repeat case_match; rewrite ?Z.eqb_eq, ?Z.eqb_neq, ?Z.ltb_lt, ?Z.ltb_ge in *; nia.
Qed.

Lemma cmp_word A B : cmp_sign A B = 0 \/ cmp_sign A B = 1 \/ cmp_sign A B = -1.
Proof. unfold cmp_sign. repeat case_match; auto. Qed.

Lemma cmp_inv_step x0 j x r : 0 <= j -> cmp_inv x0 j x r ->
  ok (decode_mod_word m n false (j + 1) (bits V (31 * j) 31) x r) (fun '(x', r') =>
    cmp_inv x0 (j + 1) x' r').
Proof.
  intros Hj [-> ->]. pose proof (int31_n _ _ Hm) as Hn. pose proof (ival_bound _ _ Hm) as HMb.
  destruct Hm as [_ _ Hml HLm]. set (c := cmp_sign _ _).
  assert (Hc : c = 0 \/ c = 1 \/ c = -1) by apply cmp_word.
  set (a := bits V (31 * j) 31). pose proof (bits_bound V (31 * j) 31 ltac:(lia)) as Wa. fold a in Wa.
  set (b := bits Mv (31 * j) 31). pose proof (bits_bound Mv (31 * j) 31 ltac:(lia)) as Wb. fold b in Wb.
  assert (Ecmp : cmp_sign (V mod 2 ^ (31 * (j + 1))) (Mv mod 2 ^ (31 * (j + 1))) =
    if a =? b then c else cmp_sign a b).
  { replace (31 * (j + 1)) with (31 * j + 31) by lia. rewrite <- !bits_0, !bits_split by lia.
    rewrite !bits_0. apply cmp_more; apply Z.mod_pos_bound, pow_limb_pos; lia. }
  assert (HR : forall r', r' = u32 (if a =? b then c else cmp_sign a b) ->
    cmp_inv x0 (j + 1) x0 r') by (intros r' ->; split; [done|by rewrite Ecmp]).
  unfold decode_mod_word. apply ok_cond; intros Hv.
  - apply Z.leb_le in Hv. apply ok_cond; [done|intros _]. csteps. apply HR.
    assert (Eb : get m (j + 1) = b).
    { unfold b. rewrite <- (val_bits 31 m 1 n) by (done || lia). f_equal. lia. }
    rewrite Eb, CMP_spec by (unfold word; lia).
    rewrite EQ_spec, MUX_spec by (auto with words; done). unfold cmp_sign.
    destruct (Z.eqb_spec a b) as [->|]; [by rewrite Z.ltb_irrefl|]. by destruct (a <? b).
  - apply Z.leb_gt in Hv. csteps; [|done]. apply HR.
    assert (Eb : b = 0).
    { apply bits_high; [lia|]. pose proof (Z.pow_le_mono_r 2 (31 * n) (31 * j) ltac:(lia) ltac:(lia)). lia. }
    rewrite Eb, EQ_spec, MUX_spec by (auto with words; unfold word; lia).
    destruct (Z.eqb_spec a 0) as [->|]; [done|].
    unfold cmp_sign. destruct (Z.eqb_spec a 0), (Z.ltb_spec a 0); done || lia.
Qed.

(** The second pass, with the mask [r0]. *)
Definition write_inv (fits : bool) (x0 : list Z) (j : Z) (x : list Z) (r : Z) : Prop :=
  r = (if fits then 2 ^ 32 - 1 else 0) /\ frame 1 (n + 1) x0 x /\
  forall i, 0 <= i < Z.min j n -> get x (1 + i) = if fits then bits V (31 * i) 31 else 0.

Lemma write_inv_step fits x0 j x r : n + 1 <= zlen x0 -> 0 <= j -> write_inv fits x0 j x r ->
  ok (decode_mod_word m n true (j + 1) (bits V (31 * j) 31) x r) (fun '(x', r') =>
    write_inv fits x0 (j + 1) x' r').
Proof.
  intros Hl Hj (-> & HF & HI). pose proof (frame_len _ _ _ _ HF). pose proof (int31_n _ _ Hm).
  unfold decode_mod_word. apply ok_cond; intros Hv.
  - apply Z.leb_le in Hv. apply ok_cond; [intros _|done]. csteps. split; [done|]. split.
    + eapply frame_trans; [done|]. apply frame_upd; lia.
    + intros i Hi. destruct (Z.eq_dec i j) as [->|].
      * replace (1 + j) with (j + 1) by lia. rewrite get_upd_eq by lia. destruct fits; [|done].
        rewrite Z.land_comm. change (2 ^ 32 - 1) with (Z.ones 32). rewrite Z.land_ones by lia.
        apply Z.mod_small. pose proof (bits_bound V (31 * j) 31). lia.
      * rewrite get_upd_ne by lia. apply HI. lia.
  - apply Z.leb_gt in Hv. csteps; [done|]. split; [done|]. split; [done|].
    intros i Hi. apply HI. lia.
Qed.
End DecodeMod.

(** The mask made of the comparison. *)
Lemma decode_mask A B : let r := u32 (cmp_sign A B) in
  (r >> 1) .| u32 ((r >> 1) << 1) = if A <? B then 2 ^ 32 - 1 else 0.
Proof.
  cbv zeta. unfold cmp_sign. destruct (Z.ltb_spec A B), (Z.eqb_spec A B); done || lia.
Qed.

Lemma br_i31_decode_mod_ok x src len m n :
  0 <= len <= zlen src -> bytes src 0 len -> int31 m n -> n + 1 <= zlen x ->
  let fits := vbe src 0 len <? ival m n in
  ok (br_i31_decode_mod x src len m) (fun '(r, y) =>
    r = b2z fits /\ frame 0 (n + 1) x y /\ get y 0 = get m 0 /\ int31 y n /\
    ival y n = if fits then vbe src 0 len else 0).
Proof.
  intros Hlen HB Hm Hx fits. pose proof (int31_n _ _ Hm). pose proof Hm as [Hm1 Hm2 Hm3 HLm].
  pose proof (ival_bound _ _ Hm). pose proof (vbe_bound src 0 len ltac:(lia) HB).
  unfold br_i31_decode_mod. cstep. cstep. cbv zeta. rewrite len_nwords, Hm2, shl_mul by done.
  change (2 ^ 2) with 4. set (tlen := (if n * 4 <? len then len else n * 4) + 4).
  assert (Ht : len + 4 <= tlen /\ 4 * n + 4 <= tlen)
    by (unfold tlen; destruct (Z.ltb_spec (n * 4) len); lia).
  destruct Ht as [Ht1 Ht2].
  cstep. eapply ok_mono; [apply (decode_pass_ok src m len n tlen Hlen HB Hm Ht1 Ht2
    (cmp_inv src m len n x) false x 0)|].
  { split; [done|]. by rewrite Z.mul_0_r, !Z.mod_1_r. }
  { intros. by apply cmp_inv_step. }
  intros [x1 r1] (j & r0 & Hj1 & Hj2 & [-> Er0] & ->).
  pose proof (Z.pow_le_mono_r 2 (8 * len) (31 * j) ltac:(lia) ltac:(lia)).
  pose proof (Z.pow_le_mono_r 2 (31 * n) (31 * j) ltac:(lia) ltac:(lia)).
  rewrite Er0, decode_mask, !Z.mod_small by lia. fold fits.
  cstep. eapply ok_mono; [apply (decode_pass_ok src m len n tlen Hlen HB Hm Ht1 Ht2
    (write_inv src len n fits x) true)|].
  { split; [done|]. split; [apply frame_refl|lia]. }
  { intros. by apply write_inv_step. }
  intros [x2 r2] (j' & r0' & Hj1' & Hj2' & (-> & HF & HI) & ->). cstep. cstep. cstep.
  pose proof (frame_len _ _ _ _ HF). cstep. cstep.
  assert (HI' : forall i, 0 <= i < n -> get (upd x2 0 (get m 0)) (1 + i) =
    if fits then bits (vbe src 0 len) (31 * i) 31 else 0).
  { intros i Hi. rewrite get_upd_ne by lia. apply HI. lia. }
  assert (Eh : get (upd x2 0 (get m 0)) 0 = get m 0) by (apply get_upd_eq; lia).
  split; [by destruct fits|]. split; [|split; [done|split]].
  - eapply frame_trans; [by apply (frame_weaken _ _ 0 (n + 1) _ _ HF); lia|]. apply frame_upd; lia.
  - split; rewrite ?Eh, ?zlen_upd; try done; [lia|]. intros i Hi.
    replace i with (1 + (i - 1)) by lia. rewrite HI' by lia.
    destruct fits; [apply bits_bound; lia|done].
  - destruct fits eqn:Ef.
    + rewrite (val_of_bits 31 _ 1 n (vbe src 0 len)) by (done || lia). apply Z.mod_small.
      apply Z.ltb_lt in Ef. lia.
    + apply val_zero. intros i Hi. replace i with (1 + (i - 1)) by lia. apply HI'. lia.
Qed.

(** [br_i31_decode_mod] accepts exactly the numbers below the modulus: it
    returns 1 and the number, or 0 and zero, with the modulus's header. *)
Theorem br_i31_decode_mod_correct x src len m n :
  0 <= len <= zlen src -> bytes src 0 len -> int31 m n -> n + 1 <= zlen x ->
  let fits := vbe src 0 len <? ival m n in
  ok (br_i31_decode_mod x src len m) (fun '(r, y) =>
    r = b2z fits /\ frame 0 (n + 1) x y /\ get y 0 = get m 0 /\ int31 y n /\
    ival y n = if fits then vbe src 0 len else 0).
Proof. apply br_i31_decode_mod_ok. Qed.

(** * Decoding with reduction *)

(** The bytes that fit below the modulus are decoded directly. *)
Lemma decode_below x src len m n :
  modulus m n -> int31 x n -> ival x n = 0 -> get x 0 = get m 0 ->
  0 <= len < 2 ^ 28 -> 8 * len < abits (get m 0) -> len <= zlen src -> bytes src 0 len ->
  ok (x ← br_i31_decode x src len; store x 0 (get m 0)) (fun y =>
    frame 0 (n + 1) x y /\ residue y m n /\ ival y n = vbe src 0 len).
Proof.
  intros Hm Hx Hx0 Hxh Hlen Hab Hs HB. pose proof Hm as [Hmi Hmb Hmp]. pose proof (int31_n _ _ Hmi).
  pose proof Hmi as [Hm1 Hm2 Hm3 _]. pose proof Hx as [_ _ Hx3 HLx].
  pose proof (abits_nwords (get m 0) ltac:(lia)) as Hw. rewrite Hm2 in Hw.
  set (nw := dec_words len). assert (Hnw : 0 <= nw <= n) by (unfold nw, dec_words; zn).
  pose proof (vbe_bound src 0 len ltac:(lia) HB) as HV.
  cstep. eapply ok_mono; [apply br_i31_decode_ok; try done; fold nw; lia|].
  fold nw. intros y (h & _ & HF & _ & HL & HE). cbv beta. pose proof (frame_len _ _ _ _ HF). cstep.
  set (y' := upd y 0 (get m 0)). assert (HF0 : frame 0 1 y y') by (apply frame_upd; lia).
  assert (Eh : get y' 0 = get m 0) by (apply get_upd_eq; lia).
  assert (HZ : forall i, 1 + nw <= i < n + 1 -> get y' i = 0).
  { intros i Hi. rewrite (frame_get _ _ _ _ _ HF0), (frame_get _ _ _ _ _ HF) by lia.
    apply (val_eq_0 31 ltac:(lia) x 1 n); [lia|done|done|lia]. }
  assert (EV : ival y' n = vbe src 0 len).
  { replace n with (nw + (n - nw)) by lia. rewrite val_split by lia.
    rewrite (val_zero 31 y' (1 + nw)) by (intros; apply HZ; lia).
    rewrite (val_frame 31 y y' 1 nw 0 1) by (done || lia). lia. }
  assert (HFx : frame 0 (n + 1) x y').
  { eapply frame_trans; [apply (frame_weaken _ _ 0 (n + 1) _ _ HF)|
      apply (frame_weaken _ _ 0 (n + 1) _ _ HF0)]; lia. }
  split; [done|]. split; [|done]. split; [split|done|].
  - by rewrite Eh.
  - by rewrite Eh.
  - rewrite (frame_len _ _ _ _ HFx). lia.
  - intros i Hi. destruct (Z.lt_ge_cases i (1 + nw)); [|by rewrite HZ by lia].
    rewrite (frame_get _ _ _ _ _ HF0) by lia. apply HL. lia.
  - rewrite EV. pose proof (bitlen_bounds _ Hmp).
    pose proof (Z.pow_le_mono_r 2 (8 * len) (bitlen (ival m n) - 1) ltac:(lia) ltac:(lia)). lia.
Qed.

(** One byte more: a full word is multiplied in. *)
Lemma reduce_word acc v k :
  23 <= k < 31 -> 0 <= acc < 2 ^ k -> word 8 v ->
  let k' := k - 23 in
  let w := u32 (acc << (8 - k')) .| (v >> k') in
  let acc' := v .& (0xFF >> (8 - k')) in
  word 31 w /\ 0 <= acc' < 2 ^ k' /\ w * 2 ^ k' + acc' = acc * 2 ^ 8 + v.
Proof.
  intros Hk Ha Hv. cbv zeta. set (k' := k - 23). assert (Hk' : 0 <= k' < 8) by lia.
  assert (E8 : 2 ^ 8 = 2 ^ (8 - k') * 2 ^ k') by (rewrite <- Z.pow_add_r by lia; f_equal; lia).
  pose proof (Z.pow_pos_nonneg 2 k' ltac:(lia) ltac:(lia)).
  pose proof (Z.pow_pos_nonneg 2 (8 - k') ltac:(lia) ltac:(lia)).
  assert (Em : 0xFF >> (8 - k') = 2 ^ k' - 1).
  { rewrite shr_div by lia. symmetry. apply (Z.div_unique_pos _ _ _ (2 ^ (8 - k') - 1)); lia. }
  rewrite Em, land_mask, shl_mul, shr_div by lia. unfold word in *.
  assert (Ek : 2 ^ 31 = 2 ^ k * 2 ^ (8 - k')) by (rewrite <- Z.pow_add_r by lia; f_equal; lia).
  assert (Hv' : 0 <= v / 2 ^ k' < 2 ^ (8 - k')).
  { split; [apply Z.div_pos; lia|apply Z.div_lt_upper_bound; lia]. }
  rewrite u32_small, lor_disjoint' by (unfold word; lia || nia).
  pose proof (Z.mod_pos_bound v (2 ^ k') ltac:(lia)).
  pose proof (Z.div_mod v (2 ^ k') ltac:(lia)).
  split; [nia|]. split; [done|]. rewrite E8. nia.
Qed.

(** The bits left at the end, put under the value shifted down. *)
Lemma reduce_tail acc V1 V n k : 0 < k < 31 -> 0 <= acc < 2 ^ k -> 0 <= n ->
  V = V1 + 2 ^ 31 * n -> word 31 V1 ->
  let w := (acc .| u32 (V1 << k)) .& 0x7FFFFFFF in
  word 31 w /\ V / 2 ^ (31 - k) * 2 ^ 31 + w = V * 2 ^ k + acc.
Proof.
  intros Hk Ha Hn EV HV1. cbv zeta. rewrite mask31, shl_mul by lia. split; [auto with words|].
  pose proof (Z.pow_pos_nonneg 2 k ltac:(lia) ltac:(lia)).
  pose proof (Z.pow_pos_nonneg 2 (31 - k) ltac:(lia) ltac:(lia)).
  assert (Ek : 2 ^ 31 = 2 ^ (31 - k) * 2 ^ k) by (rewrite <- Z.pow_add_r by lia; f_equal; lia).
  assert (E2 : 2 ^ 32 = 2 ^ (32 - k) * 2 ^ k) by (rewrite <- Z.pow_add_r by lia; f_equal; lia).
  assert (E3 : 2 ^ (32 - k) = 2 ^ (31 - k) * 2)
    by (replace (32 - k) with (31 - k + 1) by lia; rewrite Z.pow_add_r by lia; done).
  assert (Eu : u32 (V1 * 2 ^ k) = V1 mod 2 ^ (32 - k) * 2 ^ k)
    by (unfold u32; by rewrite E2, Z.mul_mod_distr_r by lia).
  rewrite Eu, lor_disjoint by lia.
  assert (Ew : (acc + V1 mod 2 ^ (32 - k) * 2 ^ k) mod 2 ^ 31 = V mod 2 ^ (31 - k) * 2 ^ k + acc).
  { rewrite E3, Z.rem_mul_r by lia. set (h := (V1 / 2 ^ (31 - k)) mod 2).
    assert (Em : V mod 2 ^ (31 - k) = V1 mod 2 ^ (31 - k)).
    { rewrite EV, Ek. replace (V1 + _) with (V1 + (2 ^ k * n) * 2 ^ (31 - k)) by ring.
      by rewrite Z.mod_add by lia. }
    rewrite Em. pose proof (Z.mod_pos_bound V1 (2 ^ (31 - k)) ltac:(lia)).
    replace (acc + _) with (V1 mod 2 ^ (31 - k) * 2 ^ k + acc + h * 2 ^ 31) by (rewrite Ek; ring).
    rewrite Z.mod_add by lia. apply Z.mod_small. nia. }
  rewrite Ew. pose proof (Z.div_mod V (2 ^ (31 - k)) ltac:(lia)) as HD.
  rewrite Ek. rewrite HD at 3. ring.
Qed.

Lemma rbitlen_abits h : 0 <= h < 2 ^ 32 - 64 ->
  u32 ((h .& 31) + u32 ((h >> 5) << 5) - (h >> 5)) = abits h.
Proof.
  intros. rewrite land31, shl_mul, shr_div by lia. change (2 ^ 5) with 32. unfold abits, u32. zn.
Qed.

Section DecodeReduce.
Context (src m : list Z) (n : Z) (Hm : modulus m n).
Abbreviation Mv := (ival m n).

(** After [k] bytes: a residue and less than 31 pending bits. *)
Record reducing (x0 : list Z) (k : Z) (s : list Z * Z * Z) : Prop := Reducing {
  red_frame : frame 0 (n + 1) x0 s.1.1;
  red_res : residue s.1.1 m n;
  red_len : 0 <= s.2 < 31;
  red_acc : 0 <= s.1.2 < 2 ^ s.2;
  red_val : eqm Mv (ival s.1.1 n * 2 ^ s.2 + s.1.2) (vbe src 0 k)
}.

Lemma reducing_step x0 len k s : len <= zlen src -> bytes src 0 len -> 0 <= k < len ->
  reducing x0 k s ->
  ok (let '(x, acc, acc_len) := s in
    v ← load src k;
    If 23 <=? acc_len Then
      let acc_len := acc_len - 23 in
      let acc := u32 (acc << (8 - acc_len)) .| (v >> acc_len) in
      x ← br_i31_muladd_small x acc m;
      mret (x, v .& (0xFF >> (8 - acc_len)), acc_len)
    Else mret (x, u32 (acc << 8) .| v, acc_len + 8)) (reducing x0 (k + 1)).
Proof.
  intros Hs HB Hk HR. destruct s as [[x acc] al]. destruct HR as [HF Hx Hal Hacc HE].
  cbn [fst snd] in *. cstep. cstep. pose proof (limbs_get _ _ _ _ k HB ltac:(lia)) as Wv.
  set (v := get src k) in *.
  assert (HV : eqm Mv ((ival x n * 2 ^ al + acc) * 256 + v) (vbe src 0 (k + 1))).
  { rewrite vbe_succ, Z.add_0_l by lia. by rewrite HE. }
  apply ok_cond; intros Hc.
  - apply Z.leb_le in Hc. destruct (reduce_word acc v al) as (Ww & Wa & Ew); [lia|done|done|].
    cbv zeta. set (w := u32 _ .| _) in *. set (acc' := v .& _) in *.
    cstep. eapply ok_mono; [by apply (br_i31_muladd_small_ok x w m n)|].
    intros y (HF' & Hy & EV). cstep. split; cbn [fst snd]; try done; [|lia|].
    + eapply frame_trans; [exact HF|]. apply (frame_weaken _ _ 0 (n + 1) _ _ HF'); lia.
    + rewrite EV, eqm_mod, <- HV. replace (_ + acc') with
        (ival x n * (2 ^ 31 * 2 ^ (al - 23)) + (w * 2 ^ (al - 23) + acc')) by ring.
      rewrite Ew, <- Z.pow_add_r by lia. replace (31 + (al - 23)) with (al + 8) by lia.
      rewrite Z.pow_add_r by lia. change (2 ^ 8) with 256.
      replace (ival x n * (2 ^ al * 256) + (acc * 256 + v)) with ((ival x n * 2 ^ al + acc) * 256 + v) by ring.
      done.
  - apply Z.leb_gt in Hc. cstep. pose proof (Z.pow_pos_nonneg 2 al ltac:(lia) ltac:(lia)).
    assert (Hp : 2 ^ (al + 8) = 2 ^ al * 256) by (rewrite Z.pow_add_r by lia; done).
    pose proof (Z.pow_le_mono_r 2 (al + 8) 31 ltac:(lia) ltac:(lia)). change (2 ^ 8) with 256 in Wv.
    assert (Ea : u32 (acc << 8) .| v = acc * 256 + v).
    { rewrite shl_mul, u32_small by (unfold word; change (2 ^ 8) with 256; lia).
      rewrite lor_disjoint' by lia. change (2 ^ 8) with 256. lia. }
    rewrite Ea. split; cbn [fst snd]; try done; [lia| |].
    + rewrite Hp. lia.
    + rewrite Hp, <- HV.
      replace (ival x n * (2 ^ al * 256) + (acc * 256 + v)) with ((ival x n * 2 ^ al + acc) * 256 + v) by ring.
      done.
Qed.

Lemma reducing_end x0 len s : reducing x0 len s ->
  ok (let '(x, acc, acc_len) := s in
    If negb (acc_len =? 0) Then
      x1 ← load x 1;
      let acc := (acc .| u32 (x1 << acc_len)) .& 0x7FFFFFFF in
      x ← br_i31_rshift x (31 - acc_len);
      br_i31_muladd_small x acc m
    Else mret x) (fun y => frame 0 (n + 1) x0 y /\ residue y m n /\
      eqm Mv (ival y n) (vbe src 0 len)).
Proof.
  intros HR. destruct s as [[x acc] al]. destruct HR as [HF Hx Hal Hacc HE]. cbn [fst snd] in *.
  pose proof (modulus_low m n Hm) as [Hn _]. pose proof Hx as [Hxi Hxh Hxl].
  pose proof Hxi as [_ _ Hx3 HLx]. pose proof (int31_n _ _ Hxi).
  apply ok_cond; intros Hc.
  - apply negb_true_iff, Z.eqb_neq in Hc. cstep. cstep. cbv zeta.
    pose proof (limbs_get _ _ _ _ 1 HLx ltac:(lia)) as W1.
    assert (EV : ival x n = get x 1 + 2 ^ 31 * val 31 x (1 + 1) (n - 1))
      by (rewrite <- val_cons by lia; f_equal; lia).
    assert (0 <= val 31 x (1 + 1) (n - 1)).
    { apply (val_bound 31 ltac:(lia)); [lia|]. apply (limbs_sub 31 x 1 n); [done|lia..]. }
    destruct (reduce_tail acc (get x 1) (ival x n) (val 31 x (1 + 1) (n - 1)) al) as [Ww Ew];
      try done; try lia.
    set (w := (_ .| _) .& _) in *.
    cstep. eapply ok_mono; [apply (br_i31_rshift_ok x n (31 - al)); [done|lia]|].
    intros y (HFy & Hy & EVy). pose proof (frame_len _ _ _ _ HFy).
    pose proof (ival_bound _ _ Hxi).
    assert (Hy' : residue y m n).
    { split; [done|by rewrite (frame_get _ _ _ _ _ HFy) by lia|]. rewrite EVy.
      pose proof (Z.div_le_upper_bound (ival x n) (2 ^ (31 - al)) (ival x n)
        ltac:(apply Z.pow_pos_nonneg; lia)
        ltac:(pose proof (Z.pow_pos_nonneg 2 (31 - al) ltac:(lia) ltac:(lia)); nia)). lia. }
    eapply ok_mono; [by apply (br_i31_muladd_small_ok y w m n)|].
    intros z (HFz & Hz & EVz). split; [|split; [done|]].
    + eapply frame_trans; [exact HF|]. eapply frame_trans; [|by apply (frame_weaken _ _ 0 (n + 1) _ _ HFz); lia].
      apply (frame_weaken _ _ 0 (n + 1) _ _ HFy); lia.
    + by rewrite EVz, eqm_mod, EVy, Ew.
  - apply negb_false_iff, Z.eqb_eq in Hc. subst al. cstep. split; [done|]. split; [done|].
    change (2 ^ 0) with 1 in *. replace acc with 0 in HE by lia.
    by rewrite Z.mul_1_r, Z.add_0_r in HE.
Qed.
End DecodeReduce.

Lemma br_i31_decode_reduce_ok x src len m n :
  modulus m n -> len < 2 ^ 28 -> 0 <= len <= zlen src -> bytes src 0 len -> n + 1 <= zlen x ->
  ok (br_i31_decode_reduce x src len m) (fun y =>
    frame 0 (n + 1) x y /\ residue y m n /\ ival y n = vbe src 0 len mod ival m n).
Proof.
  intros Hm Hlen0 Hlen HB Hx. pose proof Hm as [Hmi Hmb Hmp]. pose proof (int31_n _ _ Hmi).
  pose proof Hmi as [Hm1 Hm2 Hm3 _]. pose proof (modulus_low m n Hm) as [Hn _].
  unfold br_i31_decode_reduce. cstep. cstep. apply ok_cond; intros Hc.
  { apply Z.eqb_eq in Hc. rewrite Hc in Hm2. change (nwords 0) with 0 in Hm2. lia. }
  apply Z.eqb_neq in Hc. cstep. eapply ok_mono; [by apply (br_i31_zero_ok x (get m 0) n)|].
  intros x1 (HF1 & Hh1 & Hx1 & HV1). cbv zeta. rewrite rbitlen_abits, shr_div by (try done; lia).
  set (ab := abits (get m 0)).
  assert (Hab : 0 < ab < 2 ^ 32 - 64) by (unfold ab, abits; zn).
  rewrite u32_small by (unfold word; lia). change (2 ^ 3) with 8.
  set (k := (ab + 7) / 8 - 1). assert (Hk : 0 <= k /\ 8 * k < ab) by (unfold k; zn).
  apply ok_cond; intros Hk'; [apply Z.leb_le in Hk'|apply Z.leb_gt in Hk'].
  - eapply ok_mono; [apply (decode_below x1 src len m n); done || lia|].
    intros y (HF & Hy & EV). split; [by eapply frame_trans|]. split; [done|].
    rewrite EV. symmetry. apply Z.mod_small. rewrite <- EV. by apply residue_bound.
  - pose proof (decode_below x1 src k m n Hm Hx1 HV1 Hh1 ltac:(lia) ltac:(lia) ltac:(lia)
      ltac:(by apply (limbs_sub 8 src 0 len); [|lia..])) as HD.
    apply ok_bind' in HD. cstep. eapply ok_mono; [exact HD|]. intros y0 HD0. cbv beta in HD0.
    cstep. eapply ok_mono; [exact HD0|]. intros y (HF & Hy & EV). cstep.
    assert (HF' : frame 0 (n + 1) x y) by by eapply frame_trans.
    eapply (ok_for_up (reducing src m n x)); [lia| | |].
    + split; cbn [fst snd]; try done. by rewrite EV, Z.mul_1_r, Z.add_0_r.
    + intros i s Hi HR. apply (reducing_step src m n Hm x len); done || lia.
    + intros s HR. eapply ok_mono; [by apply (reducing_end src m n Hm x len s)|].
      intros z (HFz & Hz & Ez). split; [done|]. split; [done|].
      apply eqm_small; [done|]. by apply residue_bound.
Qed.

(** [br_i31_decode_reduce] reads a number of any length modulo [m]. *)
Theorem br_i31_decode_reduce_correct x src len m n :
  modulus m n -> len < 2 ^ 28 -> 0 <= len <= zlen src -> bytes src 0 len -> n + 1 <= zlen x ->
  ok (br_i31_decode_reduce x src len m) (fun y =>
    frame 0 (n + 1) x y /\ residue y m n /\ ival y n = vbe src 0 len mod ival m n).
Proof. apply br_i31_decode_reduce_ok. Qed.

(** * Concrete instances *)

Lemma br_i31_decode_witness :
  ok (br_i31_decode [0; 0; 0] [1; 2; 3; 4; 5] 5) (fun y => exists n, n <= dec_words 5 /\
    frame 0 3 [0; 0; 0] y /\ int31 y n /\ abits (get y 0) = bitlen (ival y n) /\
    ival y n = vbe [1; 2; 3; 4; 5] 0 5).
Proof.
  apply (br_i31_decode_correct [0; 0; 0] [1; 2; 3; 4; 5] 5); [lia|done|by apply limbsb_limbs|done].
Defined.

Lemma br_i31_encode_witness :
  ok (br_i31_encode [0; 0; 0; 0; 0; 0; 0] 6 [33; 5; 1]) (fun d =>
    frame 0 6 [0; 0; 0; 0; 0; 0; 0] d /\ bytes d 0 6 /\ vbe d 0 6 = ival [33; 5; 1] 2 mod 2 ^ 48).
Proof. apply (br_i31_encode_correct [0; 0; 0; 0; 0; 0; 0] 6 [33; 5; 1] 2); [int31_tac|done]. Defined.

Lemma br_i31_decode_mod_witness :
  ok (br_i31_decode_mod [0; 0; 0] [0; 1; 2; 3] 4 [33; 9; 1]) (fun '(r, y) =>
    r = b2z true /\ frame 0 3 [0; 0; 0] y /\ get y 0 = 33 /\ int31 y 2 /\
    ival y 2 = vbe [0; 1; 2; 3] 0 4).
Proof.
  apply (br_i31_decode_mod_correct [0; 0; 0] [0; 1; 2; 3] 4 [33; 9; 1] 2);
    [done|by apply limbsb_limbs|int31_tac|done].
Defined.

Lemma br_i31_decode_reduce_witness :
  ok (br_i31_decode_reduce [0; 0; 0] [255; 1; 2; 3; 4; 5; 6] 7 [33; 9; 1]) (fun y =>
    frame 0 3 [0; 0; 0] y /\ residue y [33; 9; 1] 2 /\
    ival y 2 = vbe [255; 1; 2; 3; 4; 5; 6] 0 7 mod ival [33; 9; 1] 2).
Proof.
  apply (br_i31_decode_reduce_correct [0; 0; 0] [255; 1; 2; 3; 4; 5; 6] 7 [33; 9; 1] 2);
    [int31_tac|done|done|by apply limbsb_limbs|done].
Defined.
