(* ===== verification/I31Monty.v ===== *)
(** Montgomery arithmetic on 31-bit big integers: the product
    ([src/int/i31_montmul.c]), the conversion back ([i31_fmont.c]) and the
    plain multiply-accumulate ([i31_mulacc.c]). *)
From stdpp Require Import base tactics list numbers option.
From Stdlib Require Import ZArith Lia.
From S2P Require Import Prelude CtPrims Limbs I31.
Local Open Scope Z_scope.
Local Open Scope cword_scope.

(** * Code *)

(** One column of the inner loop: the word [d[v+1]] goes down to [d[v]]. *)
Definition montymul_col (y m : list Z) (xu f v : Z) (r : Z) (d : list Z) : M (Z * list Z) :=
  dv ← load d (v + 1);
  yv ← load y (v + 1);
  mv ← load m (v + 1);
  let z := u64 (dv + MUL31 xu yv + MUL31 f mv + r) in
  d ← store d v (u32 z .& 0x7FFFFFFF);
  mret (z >> 31, d).

(** One turn of the outer loop. *)
Definition montymul_row (x y m : list Z) (m0i len len4 u : Z) (d : list Z) (dh : Z)
  : M (list Z * Z) :=
  xu ← load x (u + 1);
  d1 ← load d 1;
  x1 ← load x (u + 1);
  y1 ← load y 1;
  let f := MUL31_lo (u32 (d1 + MUL31_lo x1 y1)) m0i in
  '(r, d) ← for_n (Z.to_nat (len4 / 4)) 0 4 (fun v '(r, d) =>
    '(r, d) ← montymul_col y m xu f v r d;
    '(r, d) ← montymul_col y m xu f (v + 1) r d;
    '(r, d) ← montymul_col y m xu f (v + 2) r d;
    montymul_col y m xu f (v + 3) r d) (0, d);
  '(r, d) ← for_up len4 len (fun v '(r, d) => montymul_col y m xu f v r d) (r, d);
  let zh := u64 (dh + r) in
  d ← store d len (u32 zh .& 0x7FFFFFFF);
  mret (d, zh >> 31).

(** [d] must be distinct from [x], [y] and [m]. *)
Definition br_i31_montymul (d x y m : list Z) (m0i : Z) : M (list Z) :=
  m0 ← load m 0;
  let len := u32 (m0 + 31) >> 5 in
  let len4 := Z.ldiff len 3 in
  d ← br_i31_zero d m0;
  '(d, dh) ← for_up 0 len (fun u '(d, dh) =>
    montymul_row x y m m0i len len4 u d dh) (d, 0);
  d ← store d 0 m0;
  '(c, d) ← br_i31_sub d m 0;
  '(_, d) ← br_i31_sub d m (NEQ (u32 dh) 0 .| NOT c);
  mret d.

Definition from_monty_row (m : list Z) (m0i len : Z) (x : list Z) : M (list Z) :=
  x1 ← load x 1;
  let f := MUL31_lo x1 m0i in
  '(cc, x) ← for_up 0 len (fun v '(cc, x) =>
    xv ← load x (v + 1);
    mv ← load m (v + 1);
    let z := u64 (xv + MUL31 f mv + cc) in
    let cc := z >> 31 in
    If negb (v =? 0) Then
      x ← store x v (u32 z .& 0x7FFFFFFF);
      mret (cc, x)
    Else mret (cc, x)) (0, x);
  store x len (u32 cc).

Definition br_i31_from_monty (x m : list Z) (m0i : Z) : M (list Z) :=
  m0 ← load m 0;
  let len := u32 (m0 + 31) >> 5 in
  x ← for_up 0 len (fun _ x => from_monty_row m m0i len x) x;
  '(c, x) ← br_i31_sub x m 0;
  '(_, x) ← br_i31_sub x m (NOT c);
  mret x.

(** [d] must be distinct from [a] and [b]. *)
Definition br_i31_mulacc (d a b : list Z) : M (list Z) :=
  a0 ← load a 0;
  b0 ← load b 0;
  let alen := u32 (a0 + 31) >> 5 in
  let blen := u32 (b0 + 31) >> 5 in
  let dl := u32 ((a0 .& 31) + (b0 .& 31)) in
  let dh := u32 ((a0 >> 5) + (b0 >> 5)) in
  d ← store d 0 (u32 (u32 (dh << 5) + dl + (u32 (Z.lnot (u32 (dl - 31))) >> 31)));
  for_up 0 blen (fun u d =>
    f ← load b (1 + u);
    '(cc, d) ← for_up 0 alen (fun v '(cc, d) =>
      dv ← load d (1 + u + v);
      av ← load a (1 + v);
      let z := u64 (dv + MUL31 f av + cc) in
      d ← store d (1 + u + v) (u32 z .& 0x7FFFFFFF);
      mret (z >> 31, d)) (0, d);
    store d (1 + u + alen) (u32 cc)) d.

(** * The columns *)

(** The state of the inner loop after [v] columns, from the array [d0]: [T] is
    what the columns have accumulated. *)
Record cols (d0 : list Z) (T : Z -> Z) (v : Z) (rd : Z * list Z) : Prop := Cols {
  cols_r : 0 <= rd.1 < 2 ^ 32;
  cols_frame : frame 0 v d0 rd.2;
  cols_limbs : limbs 31 rd.2 0 v;
  cols_sum : val 31 rd.2 0 v + rd.1 * 2 ^ (31 * v) = T v
}.

Lemma montymul_col_ok y m d0 n xu f T v rd :
  0 <= v < n -> n + 1 <= zlen d0 -> n + 1 <= zlen y -> n + 1 <= zlen m ->
  limbs 31 d0 1 n -> limbs 31 y 1 n -> limbs 31 m 1 n -> word 31 xu -> word 31 f ->
  (forall v, T v = val 31 d0 1 v + xu * ival y v + f * ival m v) ->
  cols d0 T v rd -> ok (montymul_col y m xu f v rd.1 rd.2) (cols d0 T (v + 1)).
Proof.
  intros Hv Hdl Hyl Hml HLd HLy HLm Hxu Hf HT [Hr HF HL HS]. destruct rd as [r d]. simpl in *.
  pose proof (frame_len _ _ _ _ HF) as Hl. unfold montymul_col. csteps.
  rewrite (frame_get _ _ _ _ _ HF) by lia.
  pose proof (limbs_get _ _ _ _ (v + 1) HLd ltac:(lia)) as Wd.
  pose proof (limbs_get _ _ _ _ (v + 1) HLy ltac:(lia)) as Wy.
  pose proof (limbs_get _ _ _ _ (v + 1) HLm ltac:(lia)) as Wm.
  unfold MUL31, word in *.
  assert (0 <= xu * get y (v + 1) <= (2 ^ 31 - 1) * (2 ^ 31 - 1)) by nia.
  assert (0 <= f * get m (v + 1) <= (2 ^ 31 - 1) * (2 ^ 31 - 1)) by nia.
  rewrite (u64_small (xu * _)), (u64_small (f * _)) by (unfold word; lia).
  rewrite u64_small by (unfold word; lia). set (z := get d0 (v + 1) + _ + _ + r).
  rewrite mask31, shr_div by lia.
  replace (u32 z mod 2 ^ 31) with (z mod 2 ^ 31) by (unfold u32; zn).
  set (q := z / 2 ^ 31). set (l := z mod 2 ^ 31).
  assert (Hz : z = q * 2 ^ 31 + l /\ 0 <= l < 2 ^ 31 /\ 0 <= q < 2 ^ 32) by (unfold q, l; zn).
  destruct Hz as (Hz & Hl' & Hq). clearbody q l. split; simpl.
  - done.
  - eapply frame_trans; [by apply (frame_weaken _ _ 0 (v + 1) _ _ HF); lia|]. apply frame_upd; lia.
  - apply limbs_snoc; [apply limbs_upd; done || lia|]. rewrite Z.add_0_l, get_upd_eq by lia. done.
  - rewrite val_succ, val_upd_out, Z.add_0_l, get_upd_eq, (pow_limb 31) by lia.
    rewrite HT. rewrite HT in HS. rewrite !val_succ by lia. rewrite !(Z.add_comm 1 v).
    transitivity (val 31 d 0 v + (z - r) * 2 ^ (31 * v) + r * 2 ^ (31 * v)); [rewrite Hz; ring|].
    unfold z. replace (val 31 d 0 v) with (val 31 d0 1 v + xu * ival y v + f * ival m v - r * 2 ^ (31 * v)) by lia.
    ring.
Qed.

Lemma montymul_row_ok x y m m0i n u d dh :
  1 <= n < 2 ^ 27 -> 0 <= u < n -> n + 1 <= zlen d -> n + 1 <= zlen x -> n + 1 <= zlen y ->
  n + 1 <= zlen m -> limbs 31 d 1 n -> limbs 31 x 1 n -> limbs 31 y 1 n -> limbs 31 m 1 n ->
  word 31 m0i -> (get m 1 * m0i + 1) mod 2 ^ 31 = 0 -> 0 <= dh <= 1 ->
  ok (montymul_row x y m m0i n (Z.ldiff n 3) u d dh) (fun '(d', dh') =>
    exists f, word 31 f /\ frame 0 (n + 1) d d' /\ limbs 31 d' 1 n /\ 0 <= dh' <= 4 /\
    2 ^ 31 * (ival d' n + dh' * 2 ^ (31 * n)) =
      ival d n + dh * 2 ^ (31 * n) + get x (u + 1) * ival y n + f * ival m n).
Proof.
  intros Hn Hu Hdl Hxl Hyl Hml HLd HLx HLy HLm Hi Hinv Hdh.
  unfold montymul_row. csteps.
  pose proof (limbs_get _ _ _ _ (u + 1) HLx ltac:(lia)) as Wx.
  pose proof (limbs_get _ _ _ _ 1 HLd ltac:(lia)) as Wd.
  pose proof (limbs_get _ _ _ _ 1 HLy ltac:(lia)) as Wy.
  set (xu := get x (u + 1)) in *. unfold MUL31_lo at 1. unfold MUL31_lo.
  rewrite !mask31. set (s := get d 1 + xu * get y 1).
  assert (Ef : u32 (u32 (get d 1 + u32 (xu * get y 1) mod 2 ^ 31) * m0i) mod 2 ^ 31 = s * m0i mod 2 ^ 31).
  { assert (E32 : forall a, u32 a mod 2 ^ 31 = a mod 2 ^ 31) by (intros; unfold u32; zn).
    rewrite E32, <- Z.mul_mod_idemp_l, !E32, Z.add_mod_idemp_r, Z.mul_mod_idemp_l by lia. done. }
  rewrite Ef. set (f := s * m0i mod 2 ^ 31).
  assert (Hf : word 31 f) by (apply mask31_word).
  pose (T := fun v => val 31 d 1 v + xu * ival y v + f * ival m v).
  assert (Hcol : forall v rd, 0 <= v < n -> cols d T v rd ->
    ok (montymul_col y m xu f v rd.1 rd.2) (cols d T (v + 1))).
  { intros v rd Hv Hc. by apply (montymul_col_ok y m d n). }
  assert (E4 : Z.ldiff n 3 = 4 * (n / 4)).
  { change 3 with (Z.ones 2). rewrite Z.ldiff_ones_r, shl_mul, shr_div by lia. change (2 ^ 2) with 4. ring. }
  rewrite E4. replace (4 * (n / 4) / 4) with (n / 4) by zn.
  assert (H4 : 0 <= n / 4 /\ 4 * (n / 4) <= n) by zn.
  apply (ok_for_n (fun v => cols d T v)).
  - split; simpl; [lia|apply frame_refl|apply limbs_nil|]. unfold T. by rewrite !val_0, !Z.mul_0_r.
  - intros k [r d'] Hk Hc. rewrite Z.add_0_l in *.
    cstep. eapply ok_mono; [apply (Hcol (k * 4) (r, d') ltac:(lia) Hc)|]. intros [r1 d1] H1.
    cstep. eapply ok_mono; [apply (Hcol (k * 4 + 1) (r1, d1) ltac:(lia) H1)|]. intros [r2 d2] H2.
    cstep. replace (k * 4 + 1 + 1) with (k * 4 + 2) in H2 by lia.
    eapply ok_mono; [apply (Hcol (k * 4 + 2) (r2, d2) ltac:(lia) H2)|]. intros [r3 d3] H3.
    replace (k * 4 + 2 + 1) with (k * 4 + 3) in H3 by lia.
    replace ((k + 1) * 4) with (k * 4 + 3 + 1) by lia. apply (Hcol _ (r3, d3)); [lia|done].
  - intros [r1 d1] H1. rewrite Z2Nat.id in H1 by lia. cstep.
    replace (0 + n / 4 * 4) with (4 * (n / 4)) in H1 by lia.
    apply (ok_for_up (fun v => cols d T v)); [lia|done| |].
    + intros v [r2 d2] Hv H2. by apply (Hcol _ (r2, d2)); [lia|].
    + intros [r2 d2] [Hr HF HL HS]. simpl in *. pose proof (frame_len _ _ _ _ HF). csteps.
      rewrite mask31, shr_div, u64_small by (unfold word; lia).
      replace (u32 (dh + r2) mod 2 ^ 31) with ((dh + r2) mod 2 ^ 31) by (unfold u32; zn).
      set (l := (dh + r2) mod 2 ^ 31). set (q := (dh + r2) / 2 ^ 31).
      assert (Hz : dh + r2 = q * 2 ^ 31 + l /\ 0 <= l < 2 ^ 31 /\ 0 <= q <= 4) by (unfold q, l; zn).
      destruct Hz as (Hz & Hl & Hq). clearbody q l.
      assert (H0 : get d2 0 = 0).
      { assert (E0 : val 31 d2 0 n mod 2 ^ (31 * 1) = get d2 0)
          by (rewrite val_mod, val_1 by (done || lia); done).
        rewrite <- E0.
        replace (val 31 d2 0 n) with (T n - r2 * 2 ^ (31 * (n - 1)) * 2 ^ (31 * 1))
          by (rewrite <- HS, (pow_limb_pred 31 ltac:(lia) n) by lia; change (31 * 1) with 31; ring).
        unfold T. replace n with (n - 1 + 1) at 1 2 3 by lia. rewrite !val_cons by lia.
        change (31 * 1) with 31.
        replace (_ - _) with (s + f * get m 1 + (val 31 d (1 + 1) (n - 1) + xu * val 31 y (1 + 1) (n - 1)
          + f * val 31 m (1 + 1) (n - 1) - r2 * 2 ^ (31 * (n - 1))) * 2 ^ 31) by (unfold s; ring).
        rewrite Z.mod_add by lia. by apply monty_factor. }
      exists f. split; [done|]. split; [|split; [|split; [done|]]].
      * eapply frame_trans; [by apply (frame_weaken _ _ 0 (n + 1) _ _ HF); lia|]. apply frame_upd; lia.
      * apply limbs_pred; replace (1 + (n - 1)) with n by lia; [|by rewrite get_upd_eq by lia].
        apply limbs_upd; [done| |lia..]. apply (limbs_sub 31 d2 0 n); [done|lia..].
      * rewrite val_pred, val_upd_out by lia. replace (1 + (n - 1)) with n by lia.
        rewrite get_upd_eq by lia.
        transitivity (T n + dh * 2 ^ (31 * n)); [|unfold T; ring]. rewrite <- HS.
        replace (val 31 d2 0 n) with (2 ^ 31 * val 31 d2 1 (n - 1)).
        { rewrite (pow_limb_pred 31 ltac:(lia) n) by lia.
          transitivity (2 ^ 31 * val 31 d2 1 (n - 1) + (q * 2 ^ 31 + l) * (2 ^ (31 * (n - 1)) * 2 ^ 31)); [ring|].
          rewrite <- Hz. ring. }
        replace n with (n - 1 + 1) at 2 by lia. rewrite val_cons, H0, Z.add_0_l by lia. done.
Qed.

(** * The Montgomery product *)

(** The last subtraction, shared by the Montgomery routines: the array and the
    carry word [dh] hold a number below twice the modulus. *)
Lemma monty_sub_ok d m n dh :
  modulus m n -> int31 d n -> get d 0 = get m 0 -> 0 <= dh < 2 ^ 32 ->
  ival d n + dh * 2 ^ (31 * n) < 2 * ival m n ->
  ok ('(c, d) ← br_i31_sub d m 0;
      '(_, d) ← br_i31_sub d m (NEQ (u32 dh) 0 .| NOT c);
      mret d) (fun d' =>
    frame 1 (n + 1) d d' /\ residue d' m n /\
    ival d' n = (ival d n + dh * 2 ^ (31 * n)) mod ival m n).
Proof.
  intros Hm Hd Hh Hdh HV. pose proof (int31_n _ _ Hd) as Hn. pose proof Hm as [Hmi _ Hmp].
  pose proof Hmi as [_ _ Hm3 HLm]. pose proof (ival_bound _ _ Hmi). pose proof (ival_bound _ _ Hd).
  cstep. eapply ok_mono; [by apply (br_i31_sub_ok d m n false)|].
  intros [c d1] (HF1 & HL1 & -> & E1). cbv beta iota in *.
  assert (Hd1 : int31 d1 n) by by apply (int31_frame d).
  rewrite (u32_small dh), NEQ_spec by (unfold word; lia).
  assert (EN : NOT (b2z (ival d n <? ival m n)) = b2z (ival m n <=? ival d n)).
  { rewrite Z.leb_antisym. by destruct (ival d n <? ival m n). }
  rewrite EN, b2z_lor. set (b := negb (dh =? 0) || _).
  cstep. eapply ok_mono; [by apply (br_i31_sub_ok d1 m n b)|].
  intros [c' d2] (HF2 & HL2 & _ & E2). cstep.
  assert (HF : frame 1 (n + 1) d d2) by by eapply frame_trans.
  assert (E : ival d2 n = (ival d n + dh * 2 ^ (31 * n)) mod ival m n).
  { rewrite <- (monty_final (ival m n)) by lia. rewrite E2, E1. unfold b.
    destruct (Z.eqb_spec dh 0) as [->|]; simpl.
    - rewrite Z.mul_0_l, Z.add_0_r. destruct (Z.leb_spec (ival m n) (ival d n)); [|done].
      apply Z.mod_small. lia.
    - destruct (Z.leb_spec (ival m n) (ival d n + dh * 2 ^ (31 * n))); [|nia].
      symmetry. apply (Z.mod_unique_pos _ _ (- dh)); nia. }
  split; [done|]. split; [|done]. split.
  - by apply (int31_frame d).
  - rewrite <- Hh. apply (frame_get _ _ _ _ _ HF); lia.
  - rewrite E. apply Z.mod_pos_bound. lia.
Qed.

Lemma br_i31_montymul_ok d x y m n m0i :
  modulus m n -> int31 x n -> residue y m n -> n + 1 <= zlen d ->
  word 31 m0i -> (get m 1 * m0i + 1) mod 2 ^ 31 = 0 ->
  ok (br_i31_montymul d x y m m0i) (fun d' =>
    frame 0 (n + 1) d d' /\ residue d' m n /\
    eqm (ival m n) (ival d' n * 2 ^ (31 * n)) (ival x n * ival y n)).
Proof.
  intros Hm [_ _ Hxl HLx] [Hy _ Hylt] Hdl Hi Hinv. pose proof Hm as [Hmi _ Hmp].
  pose proof (int31_n _ _ Hmi) as Hn. pose proof Hmi as [Hm1 Hm2 Hm3 HLm].
  pose proof (ival_bound _ _ Hy). pose proof (ival_bound _ _ Hmi). pose proof Hy as [_ _ Hyl HLy].
  assert (1 <= n).
  { destruct (Z.eq_dec n 0) as [->|]; [|lia]. rewrite val_0 in Hmp. lia. }
  unfold br_i31_montymul. cstep. cstep. rewrite len_nwords, Hm2 by done.
  cstep. eapply ok_mono; [by apply (br_i31_zero_ok d (get m 0) n)|].
  intros d0 (HF0 & _ & Hd0 & Hv0). cstep.
  apply (ok_for_up (fun u '(d', dh) => frame 0 (n + 1) d d' /\ limbs 31 d' 1 n /\
    0 <= dh <= 1 /\ 0 <= ival d' n + dh * 2 ^ (31 * n) < ival y n + ival m n /\
    eqm (ival m n) ((ival d' n + dh * 2 ^ (31 * n)) * (2 ^ 31) ^ u) (ival x u * ival y n))).
  - lia.
  - rewrite Hv0, val_0, !Z.mul_0_l. split; [done|]. split; [by destruct Hd0|]. split; [lia|]. split; [lia|done].
  - intros u [d1 dh] Hu (HF & HL & Hdh & HV & HE). pose proof (frame_len _ _ _ _ HF).
    eapply ok_mono; [apply (montymul_row_ok x y m m0i n u d1 dh); done || lia|].
    intros [d2 dh2] (f & Hf & HF2 & HL2 & Hdh2 & E2).
    assert (HV2 : 0 <= ival d2 n + dh2 * 2 ^ (31 * n) < ival y n + ival m n).
    { apply (monty_bound (2 ^ 31) (ival m n) (ival y n) ltac:(lia) Hmp
        (ival d1 n + dh * 2 ^ (31 * n)) _ (get x (u + 1)) f); try done; try lia.
      apply (limbs_get _ _ _ _ (u + 1) HLx). lia. }
    split; [by eapply frame_trans|]. split; [done|]. split.
    { pose proof (val_bound 31 ltac:(lia) d2 1 n ltac:(lia) HL2). nia. }
    split; [done|]. rewrite val_succ, (Z.add_comm 1 u), (Z.pow_mul_r 2 31 u) by lia.
    by apply (monty_step (2 ^ 31) (ival m n) (ival y n) ltac:(lia) u (ival x u)
      (ival d1 n + dh * 2 ^ (31 * n)) _ (get x (u + 1)) f); [lia|..].
  - intros [d1 dh] (HF & HL & Hdh & HV & HE). pose proof (frame_len _ _ _ _ HF). cstep. cstep.
    set (d2 := upd d1 0 (get m 0)).
    assert (E0 : get d2 0 = get m 0) by (apply get_upd_eq; lia).
    assert (Ev : ival d2 n = ival d1 n) by (apply val_upd_out; lia).
    assert (HF2 : frame 0 (n + 1) d d2) by (eapply frame_trans; [done|]; apply frame_upd; lia).
    assert (Hd2 : int31 d2 n).
    { split; rewrite ?E0; try done; [rewrite (frame_len _ _ _ _ HF2); lia|].
      apply (limbs_frame 31 d1 d2 1 n 0 1); [done|apply frame_upd; lia|lia..]. }
    eapply ok_mono; [apply (monty_sub_ok d2 m n dh); try done; rewrite ?Ev; lia|].
    intros d3 (HF3 & HR3 & E3). split; [|split; [done|]].
    + eapply frame_trans; [done|]. by apply (frame_weaken _ _ 0 (n + 1) _ _ HF3); lia.
    + rewrite <- Z.pow_mul_r in HE by lia. by rewrite E3, Ev, eqm_mod.
Qed.

(** [br_i31_montymul] computes the Montgomery product [x*y/2^(31*n)] modulo
    [m]: the result is the residue [d'] with [d' * 2^(31*n) = x*y]. *)
Theorem br_i31_montymul_correct d x y m n m0i :
  modulus m n -> residue x m n -> residue y m n -> n + 1 <= zlen d ->
  word 31 m0i -> (get m 1 * m0i + 1) mod 2 ^ 31 = 0 ->
  ok (br_i31_montymul d x y m m0i) (fun d' =>
    frame 0 (n + 1) d d' /\ residue d' m n /\
    (ival d' n * 2 ^ (31 * n)) mod ival m n = (ival x n * ival y n) mod ival m n).
Proof.
  intros Hm [Hx _ _] ????. eapply ok_mono; [by apply (br_i31_montymul_ok d x y m n m0i)|].
  by intros d' (? & ? & []).
Qed.

(** * The conversion back *)

Lemma from_monty_row_ok m m0i n x :
  1 <= n < 2 ^ 27 -> n + 1 <= zlen x -> n + 1 <= zlen m -> limbs 31 x 1 n -> limbs 31 m 1 n ->
  word 31 m0i -> (get m 1 * m0i + 1) mod 2 ^ 31 = 0 ->
  ok (from_monty_row m m0i n x) (fun x' => exists f, word 31 f /\
    frame 1 (n + 1) x x' /\ limbs 31 x' 1 n /\ 2 ^ 31 * ival x' n = ival x n + f * ival m n).
Proof.
  intros Hn Hxl Hml HLx HLm Hi Hinv. unfold from_monty_row. csteps.
  unfold MUL31_lo. rewrite mask31. set (f := u32 _ mod 2 ^ 31).
  assert (Ef : f = get x 1 * m0i mod 2 ^ 31) by (unfold f, u32; zn).
  assert (Hf : word 31 f) by apply mask31_word.
  pose (T := fun v => ival x v + f * ival m v).
  assert (HT : forall v, 0 <= v -> T (v + 1) = T v + (get x (v + 1) + f * get m (v + 1)) * 2 ^ (31 * v)).
  { intros v Hv. unfold T. rewrite !val_succ, (Z.add_comm 1 v) by lia. ring. }
  apply (ok_for_up (fun v '(cc, x') => 0 <= cc < 2 ^ 31 /\ frame 1 v x x' /\
    limbs 31 x' 1 (v - 1) /\ 2 ^ 31 * val 31 x' 1 (v - 1) + cc * 2 ^ (31 * v) = T v)).
  - lia.
  - split; [lia|]. split; [apply frame_refl|]. split; [intros i; lia|].
    unfold T. rewrite !val_0. change (ival x (0 - 1)) with 0. lia.
  - intros v [cc x'] Hv (Hcc & HF & HL & HE). pose proof (frame_len _ _ _ _ HF) as Hlen.
    csteps; rewrite (frame_get _ _ _ _ _ HF) by lia;
      pose proof (limbs_get _ _ _ _ (v + 1) HLx ltac:(lia)) as Wx;
      pose proof (limbs_get _ _ _ _ (v + 1) HLm ltac:(lia)) as Wm;
      unfold MUL31, word in *;
      assert (Hp : 0 <= f * get m (v + 1) <= (2 ^ 31 - 1) * (2 ^ 31 - 1)) by nia;
      rewrite (u64_small (f * _)) by (unfold word; lia); rewrite u64_small by (unfold word; lia);
      rewrite shr_div, ?mask31 by lia; set (z := get x (v + 1) + _ + cc);
      rewrite ?(HT v) by lia; replace (v + 1 - 1) with v by lia;
      (assert (Hz : z = z / 2 ^ 31 * 2 ^ 31 + z mod 2 ^ 31 /\ 0 <= z / 2 ^ 31 < 2 ^ 31) by zn);
      destruct Hz as [Hz Hq].
    + apply negb_true_iff, Z.eqb_neq in H.
      replace (u32 z mod 2 ^ 31) with (z mod 2 ^ 31) by (unfold u32; zn).
      set (q := z / 2 ^ 31) in *. set (l := z mod 2 ^ 31) in *.
      assert (Hl : 0 <= l < 2 ^ 31) by (apply Z.mod_pos_bound; lia). clearbody q l.
      split; [done|]. split; [|split].
      * eapply frame_trans; [by apply (frame_weaken _ _ 1 (v + 1) _ _ HF); lia|]. apply frame_upd; lia.
      * apply limbs_pred; replace (1 + (v - 1)) with v by lia; [|by rewrite get_upd_eq by lia].
        by apply limbs_upd; [|done|lia..].
      * rewrite val_pred, val_upd_out by lia. replace (1 + (v - 1)) with v by lia.
        rewrite get_upd_eq, (pow_limb 31), <- HE, (pow_limb_pred 31 ltac:(lia) v) by lia.
        replace (get x (v + 1) + f * get m (v + 1)) with (q * 2 ^ 31 + l - cc) by (rewrite <- Hz; unfold z; lia).
        ring.
    + apply negb_false_iff, Z.eqb_eq in H. subst v. change (0 + 1) with 1 in *.
      change (2 ^ (31 * 0)) with 1 in *. rewrite !Z.mul_1_r in *.
      assert (E0 : T 0 = 0) by (unfold T; rewrite !val_0; lia).
      assert (E1 : val 31 x' 1 (0 - 1) = 0) by done. rewrite E1 in HE.
      assert (cc = 0) as -> by lia. unfold z in *. rewrite Z.add_0_r in *.
      assert (Hz0 : (get x 1 + f * get m 1) mod 2 ^ 31 = 0) by (rewrite Ef; by apply monty_factor).
      split; [lia|]. split; [|split].
      * by apply (frame_weaken _ _ 1 1 _ _ HF); lia.
      * apply limbs_nil.
      * rewrite Hz0 in Hz. rewrite val_0, E0. lia.
  - intros [cc x'] (Hcc & HF & HL & HE). pose proof (frame_len _ _ _ _ HF). cstep.
    rewrite u32_small by (unfold word; lia). exists f. split; [done|]. split; [|split].
    + eapply frame_trans; [by apply (frame_weaken _ _ 1 (n + 1) _ _ HF); lia|]. apply frame_upd; lia.
    + apply limbs_pred; replace (1 + (n - 1)) with n by lia; [|by rewrite get_upd_eq by lia].
      by apply limbs_upd; [|done|lia..].
    + rewrite val_pred, val_upd_out by lia. replace (1 + (n - 1)) with n by lia.
      rewrite get_upd_eq by lia. fold (T n). rewrite <- HE, (pow_limb_pred 31 ltac:(lia) n) by lia. ring.
Qed.

Lemma br_i31_from_monty_ok x m n m0i :
  modulus m n -> residue x m n -> word 31 m0i -> (get m 1 * m0i + 1) mod 2 ^ 31 = 0 ->
  ok (br_i31_from_monty x m m0i) (fun y =>
    frame 1 (n + 1) x y /\ residue y m n /\ eqm (ival m n) (ival y n * 2 ^ (31 * n)) (ival x n)).
Proof.
  intros Hm Hx Hi Hinv. pose proof Hm as [Hmi _ Hmp]. pose proof Hx as [Hxi Hxh Hxlt].
  pose proof (int31_n _ _ Hmi) as Hn. pose proof Hmi as [Hm1 Hm2 Hm3 HLm].
  pose proof (ival_bound _ _ Hxi). pose proof Hxi as [_ _ Hxl HLx].
  assert (1 <= n).
  { destruct (Z.eq_dec n 0) as [->|]; [|lia]. rewrite val_0 in Hmp. lia. }
  unfold br_i31_from_monty. cstep. cstep. rewrite len_nwords, Hm2 by done. cstep.
  apply (ok_for_up (fun u y => frame 1 (n + 1) x y /\ limbs 31 y 1 n /\ ival y n < ival m n /\
    eqm (ival m n) (ival y n * (2 ^ 31) ^ u) (ival x n * 1))).
  - lia.
  - split; [apply frame_refl|]. split; [done|]. split; [done|]. by rewrite Z.pow_0_r.
  - intros u y Hu (HF & HL & Hlt & HE). pose proof (frame_len _ _ _ _ HF).
    eapply ok_mono; [apply (from_monty_row_ok m m0i n y); done || lia|].
    intros y' (f & Hf & HF' & HL' & E). pose proof (val_bound 31 ltac:(lia) y 1 n ltac:(lia) HL).
    split; [by eapply frame_trans|]. split; [done|]. split; [unfold word in Hf; nia|].
    replace (ival x n * 1) with ((ival x n + 0 * (2 ^ 31) ^ u) * 1) by ring.
    apply (monty_step (2 ^ 31) (ival m n) 1 ltac:(lia) u (ival x n) (ival y n) _ 0 f); [lia|done|lia].
  - intros y (HF & HL & Hlt & HE).
    assert (Hy : int31 y n) by by apply (int31_frame x).
    pose proof (ival_bound _ _ Hy).
    assert (Hyh : get y 0 = get m 0) by (rewrite <- Hxh; apply (frame_get _ _ _ _ _ HF); lia).
    pose proof (monty_sub_ok y m n 0 Hm Hy Hyh ltac:(lia) ltac:(lia)) as HS.
    rewrite Z.mul_0_l, Z.add_0_r in HS. change (NEQ (u32 0) 0) with 0 in HS.
    simpl Z.lor in HS. eapply ok_mono; [exact HS|]. cbv beta. intros z (HF' & HR & E).
    split; [by eapply frame_trans|]. split; [done|].
    rewrite <- Z.pow_mul_r, Z.mul_1_r in HE by lia. by rewrite E, eqm_mod.
Qed.

(** [br_i31_from_monty] divides by [2^(31*n)] modulo [m]. *)
Theorem br_i31_from_monty_correct x m n m0i :
  modulus m n -> residue x m n -> word 31 m0i -> (get m 1 * m0i + 1) mod 2 ^ 31 = 0 ->
  ok (br_i31_from_monty x m m0i) (fun y =>
    frame 1 (n + 1) x y /\ residue y m n /\
    (ival y n * 2 ^ (31 * n)) mod ival m n = ival x n).
Proof.
  intros Hm Hx ??. pose proof Hx as [Hxi _ Hlt]. pose proof (ival_bound _ _ Hxi).
  eapply ok_mono; [by apply (br_i31_from_monty_ok x m n m0i)|].
  intros y (? & ? & [E]). rewrite E, Z.mod_small by lia. done.
Qed.

(** * Multiply and accumulate *)

(** The two announced bit lengths, added. *)
Lemma abits_add ha hb :
  0 <= ha -> 0 <= hb -> ha + hb < 2 ^ 32 - 64 ->
  let dl := u32 ((ha .& 31) + (hb .& 31)) in
  let dh := u32 ((ha >> 5) + (hb >> 5)) in
  let h := u32 (u32 (dh << 5) + dl + (u32 (Z.lnot (u32 (dl - 31))) >> 31)) in
  abits h = abits ha + abits hb /\ 0 <= h <= ha + hb + 1.
Proof.
  intros Ha Hb Hs. cbv zeta.
  assert (E31 : forall x, x .& 31 = x mod 32) by (intros; apply (land_mask x 5); lia).
  rewrite !E31, !shr_div, !shl_mul by lia. change (2 ^ 5) with 32.
  rewrite (u32_small (ha mod 32 + hb mod 32)) by (unfold word; zn).
  rewrite (u32_small (ha / 32 + hb / 32)) by (unfold word; zn).
  set (dl := ha mod 32 + hb mod 32). set (dh := ha / 32 + hb / 32).
  assert (Hdl : 0 <= dl <= 62) by (unfold dl; zn).
  assert (E : u32 (Z.lnot (u32 (dl - 31))) / 2 ^ 31 = b2z (31 <=? dl)).
  { unfold Z.lnot, u32. destruct (Z.leb_spec 31 dl); cbn [b2z]; zn. }
  rewrite E, (u32_small (dh * 32)) by (unfold word, dh; zn). unfold abits, dl, dh in *.
  destruct (Z.leb_spec 31 (ha mod 32 + hb mod 32)); cbn [b2z];
    rewrite u32_small by (unfold word; zn); zn.
Qed.

Lemma mulacc_row_ok d a f o n :
  0 <= o -> 0 <= n -> 1 + o + n < zlen d -> n + 1 <= zlen a ->
  limbs 31 d (1 + o) n -> limbs 31 a 1 n -> word 31 f ->
  ok ('(cc, d) ← for_up 0 n (fun v '(cc, d) =>
        dv ← load d (1 + o + v);
        av ← load a (1 + v);
        let z := u64 (dv + MUL31 f av + cc) in
        d ← store d (1 + o + v) (u32 z .& 0x7FFFFFFF);
        mret (z >> 31, d)) (0, d);
      store d (1 + o + n) (u32 cc)) (fun d' =>
    frame (1 + o) (1 + o + n + 1) d d' /\ limbs 31 d' (1 + o) (n + 1) /\
    val 31 d' (1 + o) (n + 1) = val 31 d (1 + o) n + f * ival a n).
Proof.
  intros Ho Hn Hdl Hal HLd HLa Hf. cstep.
  apply (ok_for_up (fun v '(cc, d') => 0 <= cc < 2 ^ 31 /\ frame (1 + o) (1 + o + v) d d' /\
    limbs 31 d' (1 + o) v /\
    val 31 d' (1 + o) v + cc * 2 ^ (31 * v) = val 31 d (1 + o) v + f * ival a v)).
  - lia.
  - rewrite !val_0, Z.mul_0_r. split; [lia|]. split; [apply frame_refl|].
    split; [apply limbs_nil|lia].
  - intros v [cc d'] Hv (Hcc & HF & HL & HE). pose proof (frame_len _ _ _ _ HF). csteps.
    rewrite (frame_get _ _ _ _ _ HF) by lia.
    pose proof (limbs_get _ _ _ _ (1 + o + v) HLd ltac:(lia)) as Wd.
    pose proof (limbs_get _ _ _ _ (1 + v) HLa ltac:(lia)) as Wa. unfold MUL31, word in *.
    assert (Hp : 0 <= f * get a (1 + v) <= (2 ^ 31 - 1) * (2 ^ 31 - 1)) by nia.
    rewrite (u64_small (f * _)) by (unfold word; lia). rewrite u64_small by (unfold word; lia).
    rewrite shr_div, mask31 by lia. set (z := get d (1 + o + v) + _ + cc).
    replace (u32 z mod 2 ^ 31) with (z mod 2 ^ 31) by (unfold u32; zn).
    assert (Hz : z = z / 2 ^ 31 * 2 ^ 31 + z mod 2 ^ 31 /\ 0 <= z / 2 ^ 31 < 2 ^ 31) by zn.
    destruct Hz as [Hz Hq]. set (q := z / 2 ^ 31) in *. set (l := z mod 2 ^ 31) in *.
    assert (Hl : 0 <= l < 2 ^ 31) by (apply Z.mod_pos_bound; lia). clearbody q l.
    split; [done|]. split; [|split].
    + eapply frame_trans; [by apply (frame_weaken _ _ (1 + o) (1 + o + (v + 1)) _ _ HF); lia|].
      apply frame_upd; lia.
    + apply limbs_snoc; [by apply limbs_upd; [|done|lia..]|]. by rewrite get_upd_eq by lia.
    + rewrite !val_succ, val_upd_out, get_upd_eq, (pow_limb 31) by lia.
      transitivity (val 31 d' (1 + o) v + (z - cc) * 2 ^ (31 * v) + cc * 2 ^ (31 * v));
        [rewrite Hz; ring|].
      unfold z. replace (val 31 d' (1 + o) v) with
        (val 31 d (1 + o) v + f * ival a v - cc * 2 ^ (31 * v)) by lia. ring.
  - intros [cc d'] (Hcc & HF & HL & HE). pose proof (frame_len _ _ _ _ HF). cstep.
    rewrite u32_small by (unfold word; lia). split; [|split].
    + eapply frame_trans; [by apply (frame_weaken _ _ (1 + o) (1 + o + n + 1) _ _ HF); lia|].
      apply frame_upd; lia.
    + apply limbs_snoc; [by apply limbs_upd; [|done|lia..]|]. by rewrite get_upd_eq by lia.
    + rewrite val_succ, val_upd_out, get_upd_eq by lia. done.
Qed.

Lemma br_i31_mulacc_ok d a b na nb :
  int31 a na -> int31 b nb -> get a 0 + get b 0 < 2 ^ 32 - 64 ->
  limbs 31 d 1 na -> na + nb + 1 <= zlen d ->
  ok (br_i31_mulacc d a b) (fun y =>
    0 <= get y 0 <= get a 0 + get b 0 + 1 /\ frame 0 (na + nb + 1) d y /\
    limbs 31 y 1 (na + nb) /\
    abits (get y 0) = abits (get a 0) + abits (get b 0) /\
    val 31 y 1 (na + nb) = ival d na + ival a na * ival b nb).
Proof.
  intros Ha Hb Hs HLd Hdl. pose proof (int31_n _ _ Ha) as Hna. pose proof (int31_n _ _ Hb) as Hnb.
  destruct Ha as [Ha1 Ha2 Ha3 HLa]. destruct Hb as [Hb1 Hb2 Hb3 HLb].
  unfold br_i31_mulacc. cstep. cstep. cstep. cstep. cbv zeta.
  rewrite !len_nwords, Ha2, Hb2 by done. cstep. cstep.
  pose proof (abits_add (get a 0) (get b 0) ltac:(lia) ltac:(lia) Hs) as HA. cbv zeta in HA.
  set (h := u32 (u32 (_ << 5) + _ + _)) in *. destruct HA as [HA Hh]. set (d0 := upd d 0 h).
  assert (HF0 : frame 0 1 d d0) by (apply frame_upd; lia).
  assert (Hl0 : zlen d0 = zlen d) by apply (frame_len _ _ _ _ HF0).
  apply (ok_for_up (fun u y => frame 1 (na + u + 1) d0 y /\ limbs 31 y 1 (na + u) /\
    val 31 y 1 (na + u) = ival d na + ival a na * ival b u)).
  - lia.
  - rewrite Z.add_0_r, val_0, Z.mul_0_r, Z.add_0_r. split; [apply frame_refl|]. split.
    + apply (limbs_frame 31 d d0 1 na 0 1); [done|done|lia..].
    + apply (val_frame 31 d d0 1 na 0 1); [done|lia..].
  - intros u y Hu (HF & HL & HE). pose proof (frame_len _ _ _ _ HF). cstep. cstep.
    pose proof (limbs_get _ _ _ _ (1 + u) HLb ltac:(lia)) as Wb.
    eapply ok_mono; [apply (mulacc_row_ok y a (get b (1 + u)) u na); try done; try lia|].
    { apply (limbs_sub 31 y 1 (na + u)); [done|lia..]. }
    intros y' (HF' & HL' & HE').
    assert (HLu : limbs 31 y' 1 u).
    { apply (limbs_frame 31 y y' 1 u (1 + u) (1 + u + na + 1)); [|done|lia..].
      apply (limbs_sub 31 y 1 (na + u)); [done|lia..]. }
    split; [|split].
    + eapply frame_trans; [by apply (frame_weaken _ _ 1 (na + (u + 1) + 1) _ _ HF); lia|].
      by apply (frame_weaken _ _ 1 (na + (u + 1) + 1) _ _ HF'); lia.
    + intros i Hi. destruct (Z.lt_ge_cases i (1 + u)); [apply HLu; lia|apply HL'; lia].
    + replace (na + (u + 1)) with (u + (na + 1)) by lia. rewrite val_split, HE' by lia.
      rewrite (val_frame 31 y y' 1 u (1 + u) (1 + u + na + 1)) by (done || lia).
      replace (na + u) with (u + na) in HE by lia. rewrite val_split in HE by lia.
      rewrite (val_succ 31 b) by lia.
      transitivity (ival y u + 2 ^ (31 * u) * val 31 y (1 + u) na +
        2 ^ (31 * u) * (get b (1 + u) * ival a na)); [ring|]. rewrite HE. ring.
  - intros y (HF & HL & HE).
    assert (Ey : get y 0 = h)
      by (rewrite (frame_get _ _ _ _ _ HF) by lia; apply get_upd_eq; lia).
    rewrite Ey. split; [done|]. split; [|done].
    eapply frame_trans; [by apply (frame_weaken _ _ 0 (na + nb + 1) _ _ HF0); lia|].
    by apply (frame_weaken _ _ 0 (na + nb + 1) _ _ HF); lia.
Qed.

Lemma nwords_abits h : 0 <= h -> nwords h = (abits h + 30) / 31.
Proof. unfold nwords, abits. zn. Qed.

(** The destination as an integer, when the value fits in the announced bits. *)
Lemma br_i31_mulacc_int d a b na nb :
  int31 a na -> int31 b nb -> get a 0 + get b 0 < 2 ^ 32 - 65 ->
  limbs 31 d 1 na -> na + nb + 1 <= zlen d ->
  let V := ival d na + ival a na * ival b nb in
  let k := abits (get a 0) + abits (get b 0) in
  V < 2 ^ k ->
  ok (br_i31_mulacc d a b) (fun y =>
    int31 y ((k + 30) / 31) /\ ival y ((k + 30) / 31) = V /\ frame 0 (na + nb + 1) d y).
Proof.
  intros Ha Hb Hs HLd Hdl V k HV. pose proof (int31_n _ _ Ha). pose proof (int31_n _ _ Hb).
  eapply ok_mono; [by apply (br_i31_mulacc_ok d a b na nb); done || lia|].
  intros y (Hh & HF & HL & HA & HE). cbv beta. pose proof (frame_len _ _ _ _ HF).
  fold V in HE. fold k in HA.
  destruct Ha as [Ha1 Ha2 Ha3 HLa]. destruct Hb as [Hb1 Hb2 Hb3 HLb].
  rewrite nwords_abits in Ha2, Hb2 by lia.
  assert (Hk0 : 0 <= abits (get a 0) /\ 0 <= abits (get b 0)) by (unfold abits; zn).
  assert (Hn : 0 <= (k + 30) / 31 <= na + nb /\ k <= 31 * ((k + 30) / 31)) by (unfold k in *; zn).
  set (n := (k + 30) / 31) in *. split; [|split; [|done]].
  - split; [lia|by rewrite nwords_abits, HA by lia|lia|].
    apply (limbs_sub 31 y 1 (na + nb)); [done|lia..].
  - rewrite <- (val_mod 31 ltac:(lia) y 1 (na + nb) n) by (done || lia). rewrite HE.
    apply Z.mod_small. split; [|pose proof (Z.pow_le_mono_r 2 k (31 * n)); lia].
    rewrite <- HE. by apply val_bound; [lia|lia|].
Qed.

(** [br_i31_mulacc] adds the full product to [d]: with [na] and [nb] limbs in
    the operands the result has [na + nb] limbs, and its header announces the
    sum of the two announced bit lengths. *)
Theorem br_i31_mulacc_correct d a b na nb :
  int31 a na -> int31 b nb -> get a 0 + get b 0 < 2 ^ 32 - 64 ->
  limbs 31 d 1 na -> na + nb + 1 <= zlen d ->
  ok (br_i31_mulacc d a b) (fun y =>
    frame 0 (na + nb + 1) d y /\ limbs 31 y 1 (na + nb) /\
    abits (get y 0) = abits (get a 0) + abits (get b 0) /\
    val 31 y 1 (na + nb) = ival d na + ival a na * ival b nb).
Proof.
  intros. eapply ok_mono; [by apply (br_i31_mulacc_ok d a b na nb)|]. by intros y (_ & ?).
Qed.

(** * Concrete instances *)

Lemma br_i31_montymul_witness :
  ok (br_i31_montymul [0; 0; 0] [33; 5; 0] [33; 7; 1] [33; 9; 1] 1193046471) (fun d' =>
    frame 0 3 [0; 0; 0] d' /\ residue d' [33; 9; 1] 2 /\
    (ival d' 2 * 2 ^ (31 * 2)) mod ival [33; 9; 1] 2 =
      (ival [33; 5; 0] 2 * ival [33; 7; 1] 2) mod ival [33; 9; 1] 2).
Proof.
  apply (br_i31_montymul_correct [0; 0; 0] [33; 5; 0] [33; 7; 1] [33; 9; 1] 2 1193046471);
    [int31_tac..|done|done|reflexivity].
Defined.

Lemma br_i31_from_monty_witness :
  ok (br_i31_from_monty [33; 5; 0] [33; 9; 1] 1193046471) (fun y =>
    frame 1 3 [33; 5; 0] y /\ residue y [33; 9; 1] 2 /\
    (ival y 2 * 2 ^ (31 * 2)) mod ival [33; 9; 1] 2 = ival [33; 5; 0] 2).
Proof.
  apply (br_i31_from_monty_correct [33; 5; 0] [33; 9; 1] 2 1193046471);
    [int31_tac..|done|reflexivity].
Defined.

Lemma br_i31_mulacc_witness :
  ok (br_i31_mulacc [0; 3; 4; 0; 0] [33; 5; 1] [34; 7; 2]) (fun y =>
    frame 0 5 [0; 3; 4; 0; 0] y /\ limbs 31 y 1 4 /\
    abits (get y 0) = abits 33 + abits 34 /\
    val 31 y 1 4 = ival [0; 3; 4; 0; 0] 2 + ival [33; 5; 1] 2 * ival [34; 7; 2] 2).
Proof.
  apply (br_i31_mulacc_correct [0; 3; 4; 0; 0] [33; 5; 1] [34; 7; 2] 2 2);
    [int31_tac..|done|by apply limbsb_limbs|done].
Defined.
