(* ===== verification/I31Modpow.v ===== *)
(** Modular exponentiation on 31-bit big integers ([src/int/i31_modpow.c]):
    [br_i31_modpow] and its five variants, which differ in their conditional
    copy and in the fences around it.

    The code of the six functions is the same up to these two choices: it is
    written once, over the interface [CondCopy] of the copy, and instantiated. *)
From stdpp Require Import base tactics list numbers option.
From Stdlib Require Import ZArith Lia.
From S2P Require Import Prelude CtPrims Limbs Codec Ccopy I31 I31Mul I31Monty.
Local Open Scope Z_scope.
Local Open Scope cword_scope.

(** * Code *)

Section Code.
Context {R : Type} (copy : Z -> list Z -> R -> list Z -> Z -> M (list Z * R)) (fence : M unit).

Definition modpow_round (e : list Z) (elen : Z) (m : list Z) (m0i mwlen k : Z)
    (s : list Z * R * list Z * list Z) : M (list Z * R * list Z * list Z) :=
  let '(x, r, t1, t2) := s in
  b ← load e (elen - 1 - (k >> 3));
  let ctl := (b >> (k .& 7)) .& 1 in
  t2 ← br_i31_montymul t2 x t1 m m0i;
  _ ← fence;
  '(x, r) ← copy ctl x r t2 mwlen;
  _ ← fence;
  t2 ← br_i31_montymul t2 t1 t1 m m0i;
  t1 ← memcpy t1 0 t2 0 mwlen;
  mret (x, r, t1, t2).

(** Up to the loop: the length of the modulus, and [x] and [t1] set to 1 and to
    the Montgomery representation of the base. *)
Definition modpow_init (x m t1 : list Z) : M (Z * list Z * list Z) :=
  m0 ← load m 0;
  let mwlen := u32 (m0 + 63) >> 5 in
  t1 ← memcpy t1 0 x 0 mwlen;
  t1 ← br_i31_to_monty t1 m;
  x ← br_i31_zero x m0;
  x ← store x 1 1;
  mret (mwlen, x, t1).

Definition modpow_with (x : list Z) (r : R) (e : list Z) (elen : Z) (m : list Z) (m0i : Z)
    (t1 t2 : list Z) : M (list Z * R * list Z * list Z) :=
  '(mwlen, x, t1) ← modpow_init x m t1;
  for_up 0 (u32 (u32 elen << 3)) (modpow_round e elen m m0i mwlen) (x, r, t1, t2).
End Code.

Definition nofence : M unit := mret ().

Definition br_i31_modpow x e elen m m0i t1 t2 :=
  modpow_with copy_v0 nofence x () e elen m m0i t1 t2.
Definition br_i31_modpow_fence x e elen m m0i t1 t2 :=
  modpow_with copy_v0 (tick Fence) x () e elen m m0i t1 t2.
Definition br_i31_modpow_v1 x e elen m m0i t1 t2 :=
  modpow_with copy_v1 nofence x () e elen m m0i t1 t2.
Definition br_i31_modpow_v1_fence x e elen m m0i t1 t2 :=
  modpow_with copy_v1 (tick Fence) x () e elen m m0i t1 t2.
Definition br_i31_modpow_v2 x r e elen m m0i t1 t2 :=
  modpow_with ccopy_v2_words nofence x r e elen m m0i t1 t2.
Definition br_i31_modpow_v2_fence x r e elen m m0i t1 t2 :=
  modpow_with ccopy_v2_words (tick Fence) x r e elen m m0i t1 t2.

(** * The exponent *)

(** The bit [k] of a big-endian exponent is where the code reads it. *)
Lemma vbe_bit e n k :
  0 <= k < 8 * n -> bytes e 0 n ->
  (get e (n - 1 - (k >> 3)) >> (k .& 7)) .& 1 = (vbe e 0 n / 2 ^ k) mod 2.
Proof.
  intros Hk HB. assert (E7 : k .& 7 = k mod 8) by (apply (land_mask k 3); lia).
  assert (E1 : forall x, x .& 1 = x mod 2) by (intros; apply (land_mask x 1); lia).
  rewrite E1, E7, !shr_div by zn. change (2 ^ 3) with 8. set (q := k / 8). set (r := k mod 8).
  assert (Hq : k = 8 * q + r /\ 0 <= r < 8 /\ 0 <= q < n) by (unfold q, r; zn).
  destruct Hq as (Ek & Hr & Hq). clearbody q r. subst k. clear E7.
  rewrite (Z.pow_add_r 2 (8 * q) r), <- Z.div_div by (try apply Z.pow_pos_nonneg; lia).
  assert (E : vbe e 0 n / 2 ^ (8 * q) = vbe e 0 (n - q)).
  { replace n with (n - q + q) at 1 by lia. rewrite vbe_split by lia.
    rewrite Z.div_add_l by (pose proof (pow_limb_pos 8 ltac:(lia) q); lia).
    rewrite Z.div_small; [lia|]. apply vbe_bound; [lia|]. apply (limbs_sub 8 e 0 n); [done|lia..]. }
  rewrite E. replace (n - q) with (n - 1 - q + 1) by lia. rewrite vbe_succ, Z.add_0_l by lia.
  set (b := get e (n - 1 - q)). set (V := vbe e 0 (n - 1 - q)).
  replace (V * 256) with (V * 2 ^ (7 - r) * 2 * 2 ^ r).
  - rewrite Z.div_add_l by (pose proof (Z.pow_pos_nonneg 2 r ltac:(lia) ltac:(lia)); lia).
    by rewrite Z.add_comm, Z.mod_add by lia.
  - change 256 with (2 ^ (7 + 1)). replace (7 + 1) with ((7 - r) + 1 + r) by lia.
    rewrite !Z.pow_add_r by lia. ring.
Qed.

Lemma low_bits E k : 0 <= k -> E mod 2 ^ (k + 1) = E mod 2 ^ k + 2 ^ k * ((E / 2 ^ k) mod 2).
Proof.
  intros. rewrite Z.pow_add_r, Z.pow_1_r by lia. apply Z.rem_mul_r; [|lia].
  pose proof (Z.pow_pos_nonneg 2 k). lia.
Qed.

(** * Copies of residues *)

Lemma int31_words x n : int31 x n -> limbs 32 x 0 (n + 1) /\ n + 1 <= zlen x.
Proof.
  intros [H1 _ H3 HL]. split; [|done]. intros i Hi.
  destruct (Z.eq_dec i 0) as [->|]; [unfold word; lia|]. apply word31_32, HL. lia.
Qed.

Lemma residue_blit d s m n :
  residue s m n -> n + 1 <= zlen d ->
  let d' := blit d 0 s 0 (n + 1) in
  residue d' m n /\ ival d' n = ival s n /\ zlen d' = zlen d.
Proof.
  intros [Hi Hh Hl] Hd d'. pose proof (int31_n _ _ Hi). pose proof Hi as [H1 H2 H3 HL].
  assert (Hg : forall i, 0 <= i < n + 1 -> get d' i = get s i).
  { intros i ?. unfold d'. rewrite get_blit_in by lia. f_equal. lia. }
  assert (Hlen : zlen d' = zlen d) by (apply zlen_blit; lia).
  assert (E : ival d' n = ival s n) by (apply val_ext; intros; apply Hg; lia).
  split; [|done]. split; [split|..]; rewrite ?Hg, ?Hlen, ?E by lia; try done.
  intros i ?. rewrite Hg by lia. apply HL. lia.
Qed.

(** * Correctness, for any copy *)

Section Correct.
Context {R : Type} (room : Z -> R -> Prop)
  (copy : Z -> list Z -> R -> list Z -> Z -> M (list Z * R)) {HC : CondCopy room copy}
  (fence : M unit) (Hfence : ok fence (fun _ => True)).
Context (e m : list Z) (elen m0i n : Z).

(** What the exponentiations require of their public arguments. *)
Record modpow_args : Prop := ModpowArgs {
  args_mod : modulus m n;
  args_gt1 : 1 < ival m n;
  args_m0i : word 31 m0i;
  args_inv : (get m 1 * m0i + 1) mod 2 ^ 31 = 0;
  args_elen : 0 <= elen < 2 ^ 29;
  args_room : elen <= zlen e;
  args_e : bytes e 0 elen
}.

(** The state after [k] rounds, for the base [X]. *)
Record rounds (X k : Z) (s : list Z * R * list Z * list Z) : Prop := Rounds {
  rnd_x : residue s.1.1.1 m n;
  rnd_t1 : residue s.1.2 m n;
  rnd_t2 : n + 1 <= zlen s.2;
  rnd_room : room (n + 1) s.1.1.2;
  rnd_xval : eqm (ival m n) (ival s.1.1.1 n) (X ^ (vbe e 0 elen mod 2 ^ k));
  rnd_tval : eqm (ival m n) (ival s.1.2 n) (X ^ (2 ^ k) * 2 ^ (31 * n))
}.

Lemma args_odd : modpow_args -> Z.odd (ival m n) = true.
Proof.
  intros H. pose proof (modulus_low m n (args_mod H)) as [Hn _].
  replace n with (n - 1 + 1) by lia. rewrite val_cons by lia.
  rewrite Z.odd_add, Z.odd_mul. change (Z.odd (2 ^ 31)) with false. simpl.
  rewrite xorb_false_r. destruct (Z.odd (get m 1)) eqn:Eo; [done|].
  apply (f_equal negb) in Eo. rewrite Z.negb_odd in Eo. apply Z.even_spec in Eo as [c Hc].
  pose proof (args_inv H) as Hi. rewrite Hc in Hi. zn.
Qed.

(** Cancelling the Montgomery factor. *)
Lemma monty_cancel u v : modpow_args ->
  eqm (ival m n) (u * 2 ^ (31 * n)) (v * 2 ^ (31 * n)) -> eqm (ival m n) u v.
Proof.
  intros H E. pose proof (args_mod H) as [Hi _ Hp]. pose proof (int31_n _ _ Hi).
  destruct (pow2_invertible (ival m n) (31 * n) Hp (args_odd H) ltac:(lia)) as [r Hr].
  apply (eqm_cancel _ (2 ^ (31 * n)) r); [done|]. by rewrite !(Z.mul_comm (2 ^ _)).
Qed.

Lemma modpow_round_ok X k s : modpow_args -> 0 <= k < 8 * elen -> rounds X k s ->
  ok (modpow_round copy fence e elen m m0i (n + 1) k s) (rounds X (k + 1)).
Proof.
  intros HA Hk HS. destruct s as [[[x r] t1] t2]. destruct HS as [Hx Ht1 Ht2 Hr Ex Et]. simpl in *.
  pose proof HA as [Hm Hg1 Hi Hinv He1 He2 HB]. unfold modpow_round.
  assert (Hq : 0 <= k >> 3 < elen) by (rewrite shr_div by lia; zn).
  cstep. cstep. cbv zeta. rewrite vbe_bit by (done || lia). set (E := vbe e 0 elen) in *.
  cstep. eapply ok_mono; [apply (br_i31_montymul_ok t2 x t1 m n); try done; by destruct Hx|].
  intros t2' (HF2 & Ht2' & Em2). cstep. eapply ok_mono; [exact Hfence|]. intros _ _.
  set (c := (E / 2 ^ k) mod 2).
  destruct (int31_words _ _ (res_int _ _ _ Hx)) as [Wx Lx].
  destruct (int31_words _ _ (res_int _ _ _ Ht2')) as [Wt Lt].
  pose proof (int31_n _ _ (res_int _ _ _ Hx)) as Hn.
  assert (Ec : c = b2z (c =? 1)) by (unfold c; destruct (Z.eqb_spec (E / 2 ^ k mod 2) 1); simpl; zn).
  rewrite Ec. cstep. eapply ok_mono; [apply (cond_copy (c =? 1) x r t2' (n + 1)); done || lia|].
  intros [x' r'] [-> Hr']. cstep. eapply ok_mono; [exact Hfence|]. intros _ _.
  cstep. eapply ok_mono; [apply (br_i31_montymul_ok t2' t1 t1 m n); try done; by destruct Ht1|].
  intros t2'' (HF2' & Ht2'' & Em2'). destruct (int31_words _ _ (res_int _ _ _ Ht2'')) as [_ Lt''].
  destruct (int31_words _ _ (res_int _ _ _ Ht1)) as [_ Lt1].
  cstep. apply ok_memcpy; try lia. cstep.
  destruct (residue_blit t1 t2'' m n Ht2'' Lt1) as (HR1 & HV1 & _).
  assert (E1 : eqm (ival m n) (ival t2' n) (X ^ (E mod 2 ^ k + 2 ^ k))).
  { apply (monty_cancel _ _ HA). rewrite Em2, Ex, Et, Z.pow_add_r by
      (try apply Z.mod_pos_bound; try apply Z.pow_nonneg; try apply Z.pow_pos_nonneg; lia).
    by rewrite Z.mul_assoc. }
  split; simpl; [|done|done|done| |].
  - destruct (c =? 1); [|done]. by apply residue_blit.
  - rewrite low_bits by lia. fold E. fold c. rewrite Ec. destruct (c =? 1); simpl.
    + destruct (residue_blit x t2' m n Ht2' Lx) as (_ & -> & _). by rewrite Z.mul_1_r.
    + by rewrite Z.mul_0_r, Z.add_0_r.
  - rewrite HV1. apply (monty_cancel _ _ HA). rewrite Em2', Et, Z.pow_add_r, Z.pow_1_r by lia.
    rewrite (Z.mul_comm (2 ^ k) 2), <- Z.add_diag, Z.pow_add_r by (apply Z.pow_nonneg; lia).
    replace (X ^ 2 ^ k * 2 ^ (31 * n) * (X ^ 2 ^ k * 2 ^ (31 * n))) with
      (X ^ 2 ^ k * X ^ 2 ^ k * 2 ^ (31 * n) * 2 ^ (31 * n)) by ring. done.
Qed.

(** Up to the loop. *)
Lemma modpow_init_ok x r t1 t2 :
  modpow_args -> residue x m n -> n + 1 <= zlen t1 -> n + 1 <= zlen t2 -> room (n + 1) r ->
  ok (modpow_init x m t1) (fun '(mwlen, x', t1') =>
    mwlen = n + 1 /\ rounds (ival x n) 0 (x', r, t1', t2)).
Proof.
  intros HA Hx Ht1 Ht2 Hr. pose proof HA as [Hm Hg1 _ _ He1 _ _].
  pose proof (mod_int _ _ Hm) as [Hm1 Hm2 Hm3 _].
  destruct (int31_words _ _ (res_int _ _ _ Hx)) as [_ Lx].
  pose proof (modulus_low m n Hm) as [Hn _].
  unfold modpow_init. cstep. cstep. cbv zeta. rewrite len63_nwords, Hm2 by done.
  cstep. apply ok_memcpy; try lia. destruct (residue_blit t1 x m n Hx Ht1) as (HR1 & HV1 & HL1).
  cstep. eapply ok_mono; [by apply (br_i31_to_monty_ok _ m n)|].
  intros t1' (HF1 & HR1' & HV1'). cstep. eapply ok_mono; [by apply (br_i31_zero_ok x (get m 0) n)|].
  intros x' (HFx & Hx0 & Hx' & HVx). destruct (int31_words _ _ Hx') as [_ Lx']. cstep. cstep. cstep.
  split; [done|]. pose proof Hx' as [Hx1 Hx2 _ HLx].
  assert (HF' : frame 1 (n + 1) x' (upd x' 1 1)) by (apply frame_upd; lia).
  assert (E1 : ival (upd x' 1 1) n = 1).
  { replace n with (n - 1 + 1) by lia. rewrite val_cons, get_upd_eq, val_upd_out by lia.
    replace n with (n - 1 + 1) in HVx by lia. rewrite val_cons in HVx by lia.
    pose proof (limbs_get _ _ _ _ 1 HLx ltac:(lia)).
    assert (0 <= val 31 x' (1 + 1) (n - 1)).
    { apply (val_bound 31 ltac:(lia)); [lia|]. apply (limbs_sub 31 x' 1 n); [done|lia..]. }
    nia. }
  assert (Hpow : forall v, v mod 2 ^ 0 = 0) by (intros; by rewrite Z.mod_1_r).
  split; simpl; [|done|done|done| |].
  - split; [apply (int31_frame x'); try done|..].
    + apply limbs_upd; [done|done|lia..].
    + by rewrite get_upd_ne by lia.
    + lia.
  - rewrite E1, Hpow. done.
  - rewrite HV1', HV1, eqm_mod. change (2 ^ 0) with 1. by rewrite Z.pow_1_r.
Qed.

Lemma elen_bits : modpow_args -> u32 (u32 elen << 3) = 8 * elen.
Proof.
  intros HA. pose proof (args_elen HA).
  rewrite shl_mul, (u32_small elen), u32_small by (unfold word; lia). lia.
Qed.

Lemma modpow_with_ok x r t1 t2 :
  modpow_args -> residue x m n -> n + 1 <= zlen t1 -> n + 1 <= zlen t2 -> room (n + 1) r ->
  ok (modpow_with copy fence x r e elen m m0i t1 t2) (fun '(y, _, _, _) =>
    residue y m n /\ ival y n = ival x n ^ vbe e 0 elen mod ival m n).
Proof.
  intros HA Hx Ht1 Ht2 Hr. unfold modpow_with. rewrite elen_bits by done.
  pose proof HA as [Hm Hg1 _ _ He1 _ HB].
  cstep. eapply ok_mono; [by apply (modpow_init_ok x r t1 t2)|]. intros [[mwlen x1] t1'] [-> Hs].
  apply (ok_for_up (fun k => rounds (ival x n) k)); [lia|done| |].
  - intros k s' Hk HS. by apply modpow_round_ok.
  - intros [[[y r'] t1''] t2'] [Hy _ _ _ Ey _]. simpl in *. split; [done|].
    rewrite (Z.mod_small (vbe _ _ _)) in Ey by (apply vbe_bound; [lia|done]).
    apply eqm_small; [done|]. by apply residue_bound.
Qed.
End Correct.
Arguments modpow_args e m elen m0i n : assert.

(** [C3] [br_i31_modpow] raises the residue [x] to the exponent encoded by the bytes
    of [e], modulo the odd modulus [m]. *)
Theorem br_i31_modpow_correct x e elen m m0i t1 t2 n :
  modpow_args e m elen m0i n -> residue x m n -> n + 1 <= zlen t1 -> n + 1 <= zlen t2 ->
  ok (br_i31_modpow x e elen m m0i t1 t2) (fun '(y, _, _, _) =>
    residue y m n /\ ival y n = ival x n ^ vbe e 0 elen mod ival m n).
Proof.
  intros HA Hx H1 H2. unfold br_i31_modpow.
  exact (modpow_with_ok (fun _ _ => True) copy_v0 nofence I e m elen m0i n x () t1 t2 HA Hx H1 H2 I).
Qed.

(** [C4] The five variants compute the same power. *)
Theorem br_i31_modpow_variants_correct x r e elen m m0i t1 t2 n :
  modpow_args e m elen m0i n -> residue x m n -> n + 1 <= zlen t1 -> n + 1 <= zlen t2 ->
  n + 1 <= zlen r ->
  let good {R : Type} (m' : M (list Z * R * list Z * list Z)) := ok m' (fun '(y, _, _, _) =>
    residue y m n /\ ival y n = ival x n ^ vbe e 0 elen mod ival m n) in
  good (br_i31_modpow_fence x e elen m m0i t1 t2) /\
  good (br_i31_modpow_v1 x e elen m m0i t1 t2) /\
  good (br_i31_modpow_v1_fence x e elen m m0i t1 t2) /\
  good (br_i31_modpow_v2 x r e elen m m0i t1 t2) /\
  good (br_i31_modpow_v2_fence x r e elen m m0i t1 t2).
Proof.
  intros HA Hx H1 H2 Hr good.
  unfold good, br_i31_modpow_fence, br_i31_modpow_v1, br_i31_modpow_v1_fence, br_i31_modpow_v2,
    br_i31_modpow_v2_fence. split_and!.
  - exact (modpow_with_ok (fun _ _ => True) copy_v0 (tick Fence) I e m elen m0i n x () t1 t2 HA Hx H1 H2 I).
  - exact (modpow_with_ok (fun _ _ => True) copy_v1 nofence I e m elen m0i n x () t1 t2 HA Hx H1 H2 I).
  - exact (modpow_with_ok (fun _ _ => True) copy_v1 (tick Fence) I e m elen m0i n x () t1 t2 HA Hx H1 H2 I).
  - exact (modpow_with_ok (fun n r => n <= zlen r) ccopy_v2_words nofence I e m elen m0i n x r t1 t2 HA Hx H1 H2 Hr).
  - exact (modpow_with_ok (fun n r => n <= zlen r) ccopy_v2_words (tick Fence) I e m elen m0i n x r t1 t2 HA Hx H1 H2 Hr).
Qed.

Lemma test_args : modpow_args [5] [33; 9; 1] 1 1193046471 2.
Proof. split; try done; [int31_tac|by apply limbsb_limbs]. Qed.

Lemma br_i31_modpow_correct_witness :
  ok (br_i31_modpow [33; 5; 0] [5] 1 [33; 9; 1] 1193046471 [0; 0; 0] [0; 0; 0]) (fun '(y, _, _, _) =>
    residue y [33; 9; 1] 2 /\
    ival y 2 = ival [33; 5; 0] 2 ^ vbe [5] 0 1 mod ival [33; 9; 1] 2).
Proof. apply br_i31_modpow_correct; [apply test_args|int31_tac|done|done]. Defined.

Lemma br_i31_modpow_variants_correct_witness :
  ok (br_i31_modpow_v2 [33; 5; 0] [0; 0; 0] [5] 1 [33; 9; 1] 1193046471 [0; 0; 0] [0; 0; 0])
    (fun '(y, _, _, _) => residue y [33; 9; 1] 2 /\
      ival y 2 = ival [33; 5; 0] 2 ^ vbe [5] 0 1 mod ival [33; 9; 1] 2).
Proof.
  pose proof (br_i31_modpow_variants_correct [33; 5; 0] [0; 0; 0] [5] 1 [33; 9; 1] 1193046471
    [0; 0; 0] [0; 0; 0] 2 test_args) as H.
  destruct H as (_ & _ & _ & H & _); [int31_tac|done..|exact H].
Defined.
