(* ===== verification/I31Ct.v ===== *)
(** What the 31-bit big integer routines leak: their accesses and branches
    depend on the header words (the announced bit lengths) only, never on the
    limbs.  Hence [br_i31_modpow] is constant-time, while its variants with a
    branching copy reveal the whole exponent. *)
From stdpp Require Import base tactics list numbers option.
From Stdlib Require Import ZArith Lia.
From S2P Require Import Prelude CtPrims Limbs Codec Ccopy I31 I31Mul I31Monty I31Modpow.
Local Open Scope Z_scope.
Local Open Scope cword_scope.

(** [heads h a b]: both arrays have the header [h]. *)
Definition heads (h : Z) (a b : list Z) : Prop := get a 0 = h /\ get b 0 = h.

Lemma heads_upd h a b i v w : heads h a b -> 0 < i -> heads h (upd a i v) (upd b i w).
Proof. intros [H1 H2] Hi. split; rewrite get_upd_ne; lia. Qed.

Lemma heads_set h a b : 0 < zlen a -> 0 < zlen b -> heads h (upd a 0 h) (upd b 0 h).
Proof. intros. split; apply get_upd_eq; lia. Qed.

Lemma heads_blit h a b dp s1 s2 sp n :
  heads h a b -> 0 < dp -> 0 <= sp -> 0 <= n ->
  dp + n <= zlen a -> dp + n <= zlen b -> sp + n <= zlen s1 -> sp + n <= zlen s2 ->
  heads h (blit a dp s1 sp n) (blit b dp s2 sp n).
Proof. intros [H1 H2] ???????. split; rewrite get_blit_out; lia. Qed.

Lemma heads_fillz h a b dp n v w :
  heads h a b -> 0 < dp -> 0 <= n -> dp + n <= zlen a -> dp + n <= zlen b ->
  heads h (fillz a dp v n) (fillz b dp w n).
Proof. intros [H1 H2] ????. split; rewrite get_fillz_out; lia. Qed.

Section Ops.
Context (h : Z).

Lemma br_i31_add_ct a1 a2 b1 b2 c1 c2 : heads h a1 a2 ->
  ct (fun x y => heads h x.2 y.2) (br_i31_add a1 b1 c1) (br_i31_add a2 b2 c2).
Proof.
  intros HH. pose proof HH as [E1 E2]. unfold br_i31_add. ct_step; [done|]. rewrite E1, E2.
  apply ct_for_up_in; [done|]. intros k [cc x] [cc' y] Hk Hxy.
  do 2 (ct_step; [done|]). ct_step; [done|]. intros _ _. ct_step. simpl in *.
  by apply heads_upd; [|lia].
Qed.

Lemma br_i31_sub_ct a1 a2 b1 b2 c1 c2 : heads h a1 a2 ->
  ct (fun x y => heads h x.2 y.2) (br_i31_sub a1 b1 c1) (br_i31_sub a2 b2 c2).
Proof.
  intros HH. pose proof HH as [E1 E2]. unfold br_i31_sub. ct_step; [done|]. rewrite E1, E2.
  apply ct_for_up_in; [done|]. intros k [cc x] [cc' y] Hk Hxy.
  do 2 (ct_step; [done|]). ct_step; [done|]. intros _ _. ct_step. simpl in *.
  by apply heads_upd; [|lia].
Qed.

Lemma br_i31_zero_ct a1 a2 : ct (heads h) (br_i31_zero a1 h) (br_i31_zero a2 h).
Proof.
  unfold br_i31_zero. ct_step; [done|]. intros H1 H2. ct_step; [done..|].
  intros x y (-> & -> & Hn & _ & H3 & H4). rewrite zlen_upd in H3, H4.
  apply heads_fillz; try lia; [apply heads_set; lia|by rewrite zlen_upd..].
Qed.

Lemma muladd_top_ct x1 x2 m1 m2 z1 z2 mlen mblr : heads h x1 x2 ->
  ct (fun s t => heads h s.1.1.1 t.1.1.1)
    (muladd_top x1 m1 z1 mlen mblr) (muladd_top x2 m2 z2 mlen mblr).
Proof.
  intros HH. unfold muladd_top. ct_step; [done|..]; intros _.
  - ct_step; [done|]. ct_step; [done..|]. intros. ct_step; [done|]. intros _ _.
    do 2 (ct_step; [done|]). ct_step. simpl. by apply heads_upd; [apply heads_blit|].
  - do 2 (ct_step; [done|]). ct_step; [done..|]. intros. ct_step; [done|]. intros _ _.
    do 4 (ct_step; [done|]). ct_step. simpl. by apply heads_upd; [apply heads_blit|].
Qed.

Lemma muladd_sub_ct x1 x2 m1 m2 q1 q2 mlen : heads h x1 x2 ->
  ct (fun s t => heads h s.1.1 t.1.1) (muladd_sub x1 m1 q1 mlen) (muladd_sub x2 m2 q2 mlen).
Proof.
  intros HH. unfold muladd_sub. apply ct_for_up_in; [done|].
  intros k [[x cc] tb] [[y cc'] tb'] Hk Hxy. do 2 (ct_step; [done|]).
  ct_step; [done|]. intros _ _. ct_step. simpl in *. by apply heads_upd; [|lia].
Qed.

Lemma br_i31_muladd_small_ct x1 x2 m1 m2 z1 z2 : heads h x1 x2 -> get m1 0 = get m2 0 ->
  ct (heads h) (br_i31_muladd_small x1 z1 m1) (br_i31_muladd_small x2 z2 m2).
Proof.
  intros HH E. unfold br_i31_muladd_small. ct_step; [done|]. rewrite E.
  ct_step; [done|intros _; by apply ct_ret|intros _]. ct_step; [done|intros _|intros _].
  - do 3 (ct_step; [done|]). ct_step; [done|]. intros x y (-> & -> & _ & _). by apply heads_upd.
  - ct_step; [done|]. eapply ct_bind; [by apply muladd_top_ct|].
    intros [[[x a0] a1] b0] [[[y a0'] a1'] b0'] H1. simpl in H1.
    eapply ct_bind; [by apply muladd_sub_ct|].
    intros [[x' cc] tb] [[y' cc'] tb'] H2. simpl in H2.
    eapply ct_bind; [by apply br_i31_add_ct|]. intros [? x''] [? y''] H3. simpl in H3.
    eapply ct_bind; [by apply br_i31_sub_ct|]. intros [? ?] [? ?] H4. by apply ct_ret.
Qed.

Lemma br_i31_to_monty_ct x1 x2 m1 m2 : heads h x1 x2 -> get m1 0 = get m2 0 ->
  ct (heads h) (br_i31_to_monty x1 m1) (br_i31_to_monty x2 m2).
Proof.
  intros HH E. unfold br_i31_to_monty. ct_step; [done|]. rewrite E.
  apply ct_for_down1; [done|done|]. intros. by apply br_i31_muladd_small_ct.
Qed.

Lemma montymul_col_ct y1 y2 m1 m2 xu1 xu2 f1 f2 v r1 r2 d1 d2 :
  ct (fun _ _ => True) (montymul_col y1 m1 xu1 f1 v r1 d1) (montymul_col y2 m2 xu2 f2 v r2 d2).
Proof.
  unfold montymul_col. do 3 (ct_step; [done|]). ct_step; [done|]. intros _ _. by ct_step.
Qed.

Lemma montymul_row_ct x1 x2 y1 y2 m1 m2 i1 i2 len len4 u d1 d2 dh1 dh2 : 0 < len ->
  ct (fun s t => 0 < zlen s.1 /\ 0 < zlen t.1)
    (montymul_row x1 y1 m1 i1 len len4 u d1 dh1) (montymul_row x2 y2 m2 i2 len len4 u d2 dh2).
Proof.
  intros Hlen. unfold montymul_row. do 4 (ct_step; [done|]). cbv zeta.
  eapply (ct_bind (fun _ _ => True)).
  { apply ct_for_n; [done..|]. intros k [? ?] [? ?] _.
    do 3 (eapply ct_bind; [apply montymul_col_ct|]; intros [? ?] [? ?] _).
    apply montymul_col_ct. }
  intros [? ?] [? ?] _. eapply (ct_bind (fun _ _ => True)).
  { apply ct_for_up; [done..|]. intros k [? ?] [? ?] _. apply montymul_col_ct. }
  intros [? ?] [? ?] _. ct_step; [done|]. intros. ct_step. simpl. rewrite !zlen_upd. lia.
Qed.

(** The number of limbs announced is positive when the loop runs. *)
Lemma br_i31_montymul_ct d1 d2 x1 x2 y1 y2 m1 m2 i1 i2 : get m1 0 = h -> get m2 0 = h ->
  ct (heads h) (br_i31_montymul d1 x1 y1 m1 i1) (br_i31_montymul d2 x2 y2 m2 i2).
Proof.
  intros E1 E2. unfold br_i31_montymul. ct_step; [done|]. rewrite E1, E2. cbv zeta.
  eapply ct_bind; [apply br_i31_zero_ct|]. intros z1 z2 Hz. cbv beta.
  eapply (ct_bind (fun _ _ => True)).
  { apply ct_for_up_in; [done|]. intros k [? ?] [? ?] Hk _.
    eapply ct_mono; [apply montymul_row_ct; lia|done]. }
  intros [d3 ?] [d4 ?] _. ct_step; [done|]. intros.
  eapply ct_bind; [by apply br_i31_sub_ct, heads_set; lia|]. intros [? ?] [? ?] H1. simpl in H1.
  eapply ct_bind; [by apply br_i31_sub_ct|]. intros [? ?] [? ?] H2. by apply ct_ret.
Qed.

Lemma br_i31_from_monty_ct x1 x2 m1 m2 i1 i2 : heads h x1 x2 -> get m1 0 = get m2 0 ->
  ct (heads h) (br_i31_from_monty x1 m1 i1) (br_i31_from_monty x2 m2 i2).
Proof.
  intros HH E. unfold br_i31_from_monty. ct_step; [done|]. rewrite E. cbv zeta.
  eapply (ct_bind (heads h)).
  { apply ct_for_up_in; [done|]. intros k x y Hk Hxy. unfold from_monty_row. ct_step; [done|].
    cbv zeta. eapply (ct_bind (fun s t => heads h s.2 t.2)).
    - apply ct_for_up_in; [done|]. intros v [cc x'] [cc' y'] Hv Hs. simpl in Hs.
      do 2 (ct_step; [done|]). cbv zeta. ct_step; [done| |intros _; by apply ct_ret].
      intros Hv0. apply negb_true_iff, Z.eqb_neq in Hv0. ct_step; [done|]. intros _ _.
      ct_step. simpl. apply heads_upd; [done|lia].
    - intros [cc x'] [cc' y'] Hs. simpl in Hs. ct_step; [done|].
      intros ? ? (-> & -> & _ & _). apply heads_upd; [done|lia]. }
  intros x y Hxy. cbv beta.
  eapply ct_bind; [by apply br_i31_sub_ct|]. intros [? ?] [? ?] H1. simpl in H1.
  eapply ct_bind; [by apply br_i31_sub_ct|]. intros [? ?] [? ?] H2. by apply ct_ret.
Qed.
End Ops.

(** * Modular exponentiation *)

Section Modpow.
Context {R : Type} (copy : Z -> list Z -> R -> list Z -> Z -> M (list Z * R)) (fence : M unit).
Context (Hfence : ct (fun _ _ => True) fence fence).
Context (h : Z).

Lemma modpow_round_ct {HC : CtCopy copy} e1 e2 elen m1 m2 i1 i2 mwlen k s1 s2 :
  get m1 0 = h -> get m2 0 = h ->
  ct (fun _ _ => True) (modpow_round copy fence e1 elen m1 i1 mwlen k s1)
    (modpow_round copy fence e2 elen m2 i2 mwlen k s2).
Proof.
  intros E1 E2. destruct s1 as [[[x r] t1] t2], s2 as [[[x' r'] t1'] t2']. unfold modpow_round.
  ct_step; [done|]. cbv zeta. eapply ct_bind; [by apply (br_i31_montymul_ct h)|]. intros ? ? _.
  eapply ct_bind; [apply Hfence|]. intros _ _ _.
  eapply ct_bind; [apply ct_copy|]. intros [? ?] [? ?] _.
  eapply ct_bind; [apply Hfence|]. intros _ _ _.
  eapply ct_bind; [by apply (br_i31_montymul_ct h)|]. intros ? ? _.
  ct_step; [done..|]. intros. by ct_step.
Qed.

Lemma modpow_init_ct x1 x2 m1 m2 t1 t2 :
  get m1 0 = h -> get m2 0 = h -> heads h x1 x2 -> 0 <= h < 2 ^ 32 - 64 ->
  ct (fun s t => s.1.1 = nwords h + 1 /\ t.1.1 = nwords h + 1)
    (modpow_init x1 m1 t1) (modpow_init x2 m2 t2).
Proof.
  intros E1 E2 [Hx1 Hx2] Hh. unfold modpow_init. ct_step; [done|]. rewrite E1, E2. cbv zeta.
  rewrite len63_nwords by done. pose proof (nwords_nonneg h ltac:(lia)).
  ct_step; [done..|]. intros.
  assert (HT : heads h (blit t1 0 x1 0 (nwords h + 1)) (blit t2 0 x2 0 (nwords h + 1)))
    by (split; rewrite get_blit_in by lia; done).
  eapply ct_bind; [apply (br_i31_to_monty_ct h); congruence || done|]. intros ? ? _.
  eapply ct_bind; [apply br_i31_zero_ct|]. intros ? ? _. ct_step; [done|]. intros _ _. by ct_step.
Qed.

Lemma modpow_with_ct {HC : CtCopy copy} x1 x2 r1 r2 e1 e2 elen m1 m2 i1 i2 t1 t2 t1' t2' :
  get m1 0 = h -> get m2 0 = h -> heads h x1 x2 -> 0 <= h < 2 ^ 32 - 64 ->
  ct (fun _ _ => True) (modpow_with copy fence x1 r1 e1 elen m1 i1 t1 t2)
    (modpow_with copy fence x2 r2 e2 elen m2 i2 t1' t2').
Proof.
  intros E1 E2 HH Hh. unfold modpow_with. eapply ct_bind; [by apply modpow_init_ct|].
  intros [[? ?] ?] [[? ?] ?] [H1 H2]. simpl in H1, H2. rewrite H1, H2. apply ct_for_up; [done..|]. intros. by apply modpow_round_ct.
Qed.

(** The bits of the exponent that [k] rounds have read. *)
Lemma modpow_round_reveals {room} {HC : CondCopy room copy} {HL : LeakyCopy copy}
    e1 e2 elen m1 m2 i1 i2 n k s1 s2 X1 X2 :
  ok fence (fun _ => True) -> modpow_args e1 m1 elen i1 n -> modpow_args e2 m2 elen i2 n ->
  get m1 0 = h -> get m2 0 = h -> 0 <= k < 8 * elen ->
  rounds room e1 m1 elen n X1 k s1 -> rounds room e2 m2 elen n X2 k s2 ->
  vbe e1 0 elen mod 2 ^ k = vbe e2 0 elen mod 2 ^ k ->
  reveals (fun s1 s2 => vbe e1 0 elen mod 2 ^ (k + 1) = vbe e2 0 elen mod 2 ^ (k + 1) /\
      rounds room e1 m1 elen n X1 (k + 1) s1 /\ rounds room e2 m2 elen n X2 (k + 1) s2)
    (modpow_round copy fence e1 elen m1 i1 (n + 1) k s1)
    (modpow_round copy fence e2 elen m2 i2 (n + 1) k s2).
Proof.
  intros Hf HA1 HA2 E1 E2 Hk HS1 HS2 HE.
  apply reveals_ok; [|by apply (modpow_round_ok room copy fence Hf)..].
  pose proof (args_e _ _ _ _ _ HA1) as HB1. pose proof (args_e _ _ _ _ _ HA2) as HB2.
  rewrite !low_bits, HE by lia.
  destruct s1 as [[[x r] t1] t2], s2 as [[[x' r'] t1'] t2']. unfold modpow_round.
  eapply reveals_bind; [by apply reveals_ct, ct_load|]. intros b1 b2 [-> ->]. cbv zeta.
  rewrite !vbe_bit by done.
  set (c1 := (vbe e1 0 elen / 2 ^ k) mod 2). set (c2 := (vbe e2 0 elen / 2 ^ k) mod 2).
  assert (Hc1 : c1 = b2z (c1 =? 1)) by (unfold c1; destruct (Z.eqb_spec (vbe e1 0 elen / 2 ^ k mod 2) 1); simpl; zn).
  assert (Hc2 : c2 = b2z (c2 =? 1)) by (unfold c2; destruct (Z.eqb_spec (vbe e2 0 elen / 2 ^ k mod 2) 1); simpl; zn).
  eapply reveals_bind; [by apply reveals_ct, (br_i31_montymul_ct h)|]. intros ? ? _.
  eapply reveals_bind; [apply reveals_ct, Hfence|]. intros _ _ _.
  eapply (reveals_bind (fun _ _ => (c1 =? 1) = (c2 =? 1))).
  { rewrite Hc1, Hc2 at 1. apply leaky_copy. }
  intros [? ?] [? ?] Ec. apply reveals_ct.
  eapply ct_bind; [apply Hfence|]. intros _ _ _.
  eapply ct_bind; [by apply (br_i31_montymul_ct h)|]. intros ? ? _.
  ct_step; [done..|]. intros. ct_step. by rewrite Hc1, Hc2, Ec.
Qed.

Lemma modpow_with_reveals {room} {HC : CondCopy room copy} {HL : LeakyCopy copy}
    x1 x2 r1 r2 e1 e2 elen m1 m2 i1 i2 t1 t2 t1' t2' n :
  ok fence (fun _ => True) -> modpow_args e1 m1 elen i1 n -> modpow_args e2 m2 elen i2 n ->
  get m1 0 = h -> get m2 0 = h -> residue x1 m1 n -> residue x2 m2 n ->
  n + 1 <= zlen t1 -> n + 1 <= zlen t2 -> n + 1 <= zlen t1' -> n + 1 <= zlen t2' ->
  room (n + 1) r1 -> room (n + 1) r2 ->
  reveals (fun _ _ => vbe e1 0 elen = vbe e2 0 elen)
    (modpow_with copy fence x1 r1 e1 elen m1 i1 t1 t2)
    (modpow_with copy fence x2 r2 e2 elen m2 i2 t1' t2').
Proof.
  intros Hf HA1 HA2 E1 E2 Hx1 Hx2 ??????. pose proof HA1 as [Hm1 _ _ _ He _ HB1].
  pose proof HA2 as [_ _ _ _ _ _ HB2].
  assert (Hh : 0 <= h < 2 ^ 32 - 64) by (rewrite <- E1; by destruct Hm1 as [[] _ _]).
  unfold modpow_with. rewrite (elen_bits _ _ _ _ _ HA1).
  eapply reveals_bind.
  { apply (reveals_ok (fun _ _ => True)); [|by apply (modpow_init_ok room e1 m1 elen i1 n x1 r1 t1 t2)
      |by apply (modpow_init_ok room e2 m2 elen i2 n x2 r2 t1' t2')].
    apply reveals_ct. eapply ct_mono; [apply modpow_init_ct; try done|done].
    split; [rewrite <- E1|rewrite <- E2]; by apply res_head with n. }
  intros [[? y1] u1] [[? y2] u2] (_ & [-> Ha] & [-> Hb]).
  eapply reveals_mono.
  { apply (reveals_for_up (fun k s1 s2 =>
      vbe e1 0 elen mod 2 ^ k = vbe e2 0 elen mod 2 ^ k /\
      rounds room e1 m1 elen n (ival x1 n) k s1 /\ rounds room e2 m2 elen n (ival x2 n) k s2)).
    - lia.
    - split; [|done]. by rewrite !Z.mod_1_r.
    - intros k s1 s2 Hk (HE & HS1 & HS2). by apply modpow_round_reveals. }
  intros s1 s2 (HE & _). rewrite !Z.mod_small in HE by (apply vbe_bound; [lia|done]). done.
Qed.
End Modpow.

(** [C1] [br_i31_modpow] and its fenced variant are constant-time: two runs whose
    moduli announce the same bit length, with exponents of the same length in
    bytes, leak the same trace, whatever the base, the exponent and the
    modulus. *)
Theorem br_i31_modpow_constant_time x1 x2 e1 e2 elen m1 m2 i1 i2 t1 t2 t1' t2' n :
  modpow_args e1 m1 elen i1 n -> modpow_args e2 m2 elen i2 n -> get m1 0 = get m2 0 ->
  residue x1 m1 n -> residue x2 m2 n ->
  n + 1 <= zlen t1 -> n + 1 <= zlen t2 -> n + 1 <= zlen t1' -> n + 1 <= zlen t2' ->
  (exists t, trace (br_i31_modpow x1 e1 elen m1 i1 t1 t2) = Some t /\
             trace (br_i31_modpow x2 e2 elen m2 i2 t1' t2') = Some t) /\
  (exists t, trace (br_i31_modpow_fence x1 e1 elen m1 i1 t1 t2) = Some t /\
             trace (br_i31_modpow_fence x2 e2 elen m2 i2 t1' t2') = Some t).
Proof.
  intros HA1 HA2 EH Hx1 Hx2 ????.
  assert (Hh : 0 <= get m1 0 < 2 ^ 32 - 64) by (by destruct HA1 as [[[] _ _] _ _ _ _ _ _]).
  assert (HX : heads (get m1 0) x1 x2) by (split; [|rewrite EH]; by apply res_head with n).
  split; unfold br_i31_modpow, br_i31_modpow_fence.
  - eapply ct_trace; [apply (modpow_with_ct copy_v0 nofence (ct_ret _ () () I) (get m1 0)); done
      |by apply (modpow_with_ok (fun _ _ => True) copy_v0 nofence I)..].
  - eapply ct_trace; [apply (modpow_with_ct copy_v0 (tick Fence) (ct_tick _) (get m1 0)); done
      |by apply (modpow_with_ok (fun _ _ => True) copy_v0 (tick Fence) I)..].
Qed.

(** [C2] The variants with a branching copy reveal the exponent: two runs with the
    same trace used exponents of the same value, fences or not. *)
Theorem br_i31_modpow_variants_reveal x1 x2 r1 r2 e1 e2 elen m1 m2 i1 i2 t1 t2 t1' t2' n :
  modpow_args e1 m1 elen i1 n -> modpow_args e2 m2 elen i2 n -> get m1 0 = get m2 0 ->
  residue x1 m1 n -> residue x2 m2 n ->
  n + 1 <= zlen t1 -> n + 1 <= zlen t2 -> n + 1 <= zlen t1' -> n + 1 <= zlen t2' ->
  n + 1 <= zlen r1 -> n + 1 <= zlen r2 ->
  let leaks {A : Type} (c1 c2 : M A) :=
    trace c1 = trace c2 -> vbe e1 0 elen = vbe e2 0 elen in
  leaks (br_i31_modpow_v1 x1 e1 elen m1 i1 t1 t2) (br_i31_modpow_v1 x2 e2 elen m2 i2 t1' t2') /\
  leaks (br_i31_modpow_v1_fence x1 e1 elen m1 i1 t1 t2)
        (br_i31_modpow_v1_fence x2 e2 elen m2 i2 t1' t2') /\
  leaks (br_i31_modpow_v2 x1 r1 e1 elen m1 i1 t1 t2)
        (br_i31_modpow_v2 x2 r2 e2 elen m2 i2 t1' t2') /\
  leaks (br_i31_modpow_v2_fence x1 r1 e1 elen m1 i1 t1 t2)
        (br_i31_modpow_v2_fence x2 r2 e2 elen m2 i2 t1' t2').
Proof.
  intros HA1 HA2 EH Hx1 Hx2 ?????? leaks.
  assert (HL : forall (R : Type) (room : Z -> R -> Prop) copy (HC : CondCopy room copy)
      (HL : LeakyCopy copy) fence ra rb, ok fence (fun _ => True) ->
      ct (fun _ _ => True) fence fence -> room (n + 1) ra -> room (n + 1) rb ->
      leaks _ (modpow_with copy fence x1 ra e1 elen m1 i1 t1 t2)
              (modpow_with copy fence x2 rb e2 elen m2 i2 t1' t2')).
  { intros R room copy HC HL fence ra rb Hf Hct Hra Hrb.
    intros HT. eapply reveals_trace;
      [apply (modpow_with_reveals copy fence Hct (get m1 0) x1 x2 ra rb e1 e2 elen m1 m2 i1 i2
         t1 t2 t1' t2' n); done
      |by apply (modpow_with_ok room copy fence Hf)|by apply (modpow_with_ok room copy fence Hf)
      |intros ? ? HE; exact HE|exact HT]. }
  pose (room2 := fun (n : Z) (r : list Z) => n <= zlen r). split_and!.
  - exact (HL _ (fun _ _ => True) copy_v1 _ _ nofence () () I (ct_ret _ () () I) I I).
  - exact (HL _ (fun _ _ => True) copy_v1 _ _ (tick Fence) () () I (ct_tick _) I I).
  - exact (HL _ room2 ccopy_v2_words _ _ nofence r1 r2 I (ct_ret _ () () I) H3 H4).
  - exact (HL _ room2 ccopy_v2_words _ _ (tick Fence) r1 r2 I (ct_tick _) H3 H4).
Qed.

(** * Concrete instances *)

Lemma br_i31_modpow_constant_time_witness :
  exists t, trace (br_i31_modpow [33; 5; 0] [5] 1 [33; 9; 1] 1193046471 [0; 0; 0] [0; 0; 0]) = Some t /\
            trace (br_i31_modpow [33; 7; 1] [200] 1 [33; 9; 1] 1193046471 [0; 0; 0] [0; 0; 0]) = Some t.
Proof.
  assert (HA : modpow_args [200] [33; 9; 1] 1 1193046471 2)
    by (split; try done; [int31_tac|by apply limbsb_limbs]).
  destruct (br_i31_modpow_constant_time [33; 5; 0] [33; 7; 1] [5] [200] 1 [33; 9; 1] [33; 9; 1]
    1193046471 1193046471 [0; 0; 0] [0; 0; 0] [0; 0; 0] [0; 0; 0] 2 test_args HA) as [H _];
    [done|int31_tac|int31_tac|done..|exact H].
Defined.

Lemma br_i31_modpow_variants_reveal_witness :
  trace (br_i31_modpow_v1 [33; 5; 0] [5] 1 [33; 9; 1] 1193046471 [0; 0; 0] [0; 0; 0]) <>
  trace (br_i31_modpow_v1 [33; 7; 1] [200] 1 [33; 9; 1] 1193046471 [0; 0; 0] [0; 0; 0]).
Proof.
  assert (HA : modpow_args [200] [33; 9; 1] 1 1193046471 2)
    by (split; try done; [int31_tac|by apply limbsb_limbs]).
  destruct (br_i31_modpow_variants_reveal [33; 5; 0] [33; 7; 1] [0; 0; 0] [0; 0; 0] [5] [200] 1
    [33; 9; 1] [33; 9; 1] 1193046471 1193046471 [0; 0; 0] [0; 0; 0] [0; 0; 0] [0; 0; 0] 2
    test_args HA) as [H _]; [done|int31_tac|int31_tac|done..|].
  intros E. apply H in E. done.
Defined.
