(* ===== verification/I31CodecCt.v ===== *)
(** What the conversions, the reduction and the plain product of the 31-bit big
    integers leak: the lengths and the header words, never the limbs nor the
    bytes. *)
From stdpp Require Import base tactics list numbers option.
From Stdlib Require Import ZArith Lia.
From S2P Require Import Prelude CtPrims Limbs Codec I31 I31Mul I31Codec I31Monty I31Ct.
Local Open Scope Z_scope.
Local Open Scope cword_scope.

Lemma br_i31_bit_length_ct x1 x2 o xlen :
  ct (fun _ _ => True) (br_i31_bit_length x1 o xlen) (br_i31_bit_length x2 o xlen).
Proof.
  unfold br_i31_bit_length. eapply (ct_bind (fun _ _ => True)); [|intros [? ?] [? ?] _; by ct_step].
  apply ct_for_down; [done..|]. intros k [? ?] [? ?] _. ct_step; [done|]. by ct_step.
Qed.

(** Decoding: the positions depend on the length only. *)
Lemma br_i31_decode_ct x1 x2 s1 s2 len :
  ct (fun _ _ => True) (br_i31_decode x1 s1 len) (br_i31_decode x2 s2 len).
Proof.
  unfold br_i31_decode.
  eapply (ct_bind (fun s t => s.2 = t.2 /\ s.1.1.2 = t.1.1.2)).
  - apply ct_for_down; [done..|]. intros k [[[y1 v1] a1] l1] [[[y2 v2] a2] l2] [HL HV]. simpl in HL, HV. subst.
    ct_step; [done|]. cbv zeta. ct_step; [done|intros _|intros _; by ct_step].
    ct_step; [done|]. intros _ _. by ct_step.
  - intros [[[y1 v1] a1] l1] [[[y2 v2] a2] l2] [HL HV]. simpl in HL, HV. subst.
    eapply (ct_bind (fun s t => s.2 = t.2)).
    + ct_step; [done|intros _|intros _; by ct_step]. ct_step; [done|]. intros _ _. by ct_step.
    + intros [z1 w1] [z2 w2] HW. simpl in HW. subst. eapply ct_bind; [apply br_i31_bit_length_ct|].
      intros h1 h2 _. eapply ct_mono; [by apply ct_store|done].
Qed.

Lemma br_enc32be_ct d1 d2 o x1 x2 : ct (fun _ _ => True) (br_enc32be d1 o x1) (br_enc32be d2 o x2).
Proof.
  unfold br_enc32be. do 3 (ct_step; [done|]; intros _ _). eapply ct_mono; [by apply ct_store|done].
Qed.

Lemma encode_loop_ct fuel xlen : forall x1 x2 d1 d2 len k a1 a2 al,
  ct (fun _ _ => True) (encode_loop fuel x1 xlen d1 len k a1 al) (encode_loop fuel x2 xlen d2 len k a2 al).
Proof.
  induction fuel as [|fuel IH]; intros x1 x2 d1 d2 len k a1 a2 al; [by intros ??|]. cbn [encode_loop].
  ct_step; [done|intros _|intros _; by ct_step].
  eapply (ct_bind (fun _ _ => True)).
  { ct_step; [done|intros _|intros _; by ct_step]. eapply ct_mono; [by apply ct_load|done]. }
  intros w1 w2 _. cbv zeta. ct_step; [done|intros _; apply IH|intros _].
  ct_step; [done|intros _|intros _].
  - eapply ct_bind; [apply br_enc32be_ct|]. intros ? ? _. apply IH.
  - do 2 (eapply (ct_bind (fun _ _ => True));
      [ct_step; [done|intros _; eapply ct_mono; [by apply ct_store|done]|intros _; by ct_step]|intros ? ? _]).
    eapply ct_mono; [by apply ct_store|done].
Qed.

Lemma br_i31_encode_ct d1 d2 len x1 x2 : get x1 0 = get x2 0 ->
  ct (fun _ _ => True) (br_i31_encode d1 len x1) (br_i31_encode d2 len x2).
Proof.
  intros E. unfold br_i31_encode. ct_step; [done|]. rewrite E. cbv zeta.
  ct_step; [done|intros _|intros _; apply encode_loop_ct]. eapply ct_mono; [by apply ct_memset|done].
Qed.

Section Ops.
Context (h : Z).

Lemma br_i31_rshift_ct x1 x2 count : heads h x1 x2 ->
  ct (heads h) (br_i31_rshift x1 count) (br_i31_rshift x2 count).
Proof.
  intros HH. pose proof HH as [E1 E2]. unfold br_i31_rshift. ct_step; [done|]. rewrite E1, E2. cbv zeta.
  ct_step; [done|intros _; by ct_step|intros Hl; apply Z.eqb_neq in Hl]. ct_step; [done|]. cbv zeta.
  assert (H0 : 0 <= u32 (h + 31) >> 5) by (apply Z.shiftr_nonneg, u32_word).
  eapply (ct_bind (fun s t => heads h s.1 t.1)).
  - apply ct_for_up_in; [done|]. intros k [y1 r1] [y2 r2] Hk HY. simpl in HY. ct_step; [done|].
    ct_step; [done|]. intros _ _. ct_step. simpl. apply heads_upd; [done|lia].
  - intros [y1 r1] [y2 r2] HY. simpl in HY. eapply ct_mono; [by apply ct_store|].
    intros ? ? (-> & -> & _ & _). apply heads_upd; [done|lia].
Qed.

Lemma store_head_ct x1 x2 : ct (heads h) (store x1 0 h) (store x2 0 h).
Proof.
  eapply ct_mono; [by apply ct_store|]. intros ? ? (-> & -> & H1 & H2). apply heads_set; lia.
Qed.

Lemma br_i31_decode_reduce_ct x1 x2 s1 s2 len m1 m2 : get m1 0 = h -> get m2 0 = h ->
  ct (heads h) (br_i31_decode_reduce x1 s1 len m1) (br_i31_decode_reduce x2 s2 len m2).
Proof.
  intros E1 E2. unfold br_i31_decode_reduce. ct_step; [done|]. rewrite E1, E2.
  ct_step; [done|intros Hz|intros _].
  { apply Z.eqb_eq in Hz. eapply ct_mono; [by apply ct_store|]. intros ? ? (-> & -> & ? & ?).
    split; rewrite get_upd_eq by lia; done. }
  eapply ct_bind; [apply br_i31_zero_ct|]. intros z1 z2 _. cbv zeta.
  ct_step; [done|intros _|intros _].
  { eapply ct_bind; [apply br_i31_decode_ct|]. intros ? ? _. apply store_head_ct. }
  eapply ct_bind; [apply br_i31_decode_ct|]. intros ? ? _.
  eapply ct_bind; [apply store_head_ct|]. intros y1 y2 HY.
  eapply (ct_bind (fun s t => heads h s.1.1 t.1.1 /\ s.2 = t.2)).
  - apply ct_for_up; [done..|]. intros k [[u1 a1] l1] [[u2 a2] l2] [HU HL]. simpl in HU, HL. subst l2.
    ct_step; [done|]. ct_step; [done|intros _|intros _; by ct_step]. cbv zeta.
    eapply ct_bind; [apply br_i31_muladd_small_ct; [exact HU|congruence]|]. intros. by ct_step.
  - intros [[u1 a1] l1] [[u2 a2] l2] [HU HL]. simpl in HU, HL. subst l2.
    ct_step; [done|intros _|intros _; by ct_step]. ct_step; [done|]. cbv zeta.
    eapply ct_bind; [by apply br_i31_rshift_ct|]. intros. apply br_i31_muladd_small_ct; [done|congruence].
Qed.

Lemma br_i31_reduce_ct x1 x2 a1 a2 m1 m2 : get m1 0 = h -> get m2 0 = h -> get a1 0 = get a2 0 ->
  0 < u32 (h + 31) >> 5 -> ct (heads h) (br_i31_reduce x1 a1 m1) (br_i31_reduce x2 a2 m2).
Proof.
  intros E1 E2 EA Hh. unfold br_i31_reduce. ct_step; [done|]. rewrite E1, E2. cbv zeta.
  eapply ct_bind; [apply store_head_ct|]. intros y1 y2 HY.
  ct_step; [done|intros _; by ct_step|intros Hl; apply Z.eqb_neq in Hl].
  ct_step; [done|]. rewrite EA. cbv zeta. ct_step; [done|intros _|intros _].
  - ct_step; [done..|]. intros. apply ct_for_up_in; [by apply heads_blit|].
    intros k u1 u2 Hk HU. eapply ct_mono; [by apply ct_store|]. intros ? ? (-> & -> & _ & _).
    apply heads_upd; [done|]. assert (0 <= u32 (get a2 0 + 31) >> 5) by (apply Z.shiftr_nonneg, u32_word). lia.
  - ct_step; [done..|]. intros. ct_step; [done|]. intros _ _.
    apply ct_for_down1; [done|apply heads_upd; [by apply heads_blit|lia]|].
    intros k u1 u2 HU. ct_step; [done|]. apply br_i31_muladd_small_ct; [done|congruence].
Qed.
End Ops.

(** The product announces the sum of the lengths. *)
Lemma br_i31_mulacc_ct d1 d2 a1 a2 b1 b2 : get a1 0 = get a2 0 -> get b1 0 = get b2 0 ->
  ct (fun x y => get x 0 = get y 0) (br_i31_mulacc d1 a1 b1) (br_i31_mulacc d2 a2 b2).
Proof.
  intros EA EB. unfold br_i31_mulacc. ct_step; [done|]. ct_step; [done|]. rewrite EA, EB. cbv zeta.
  set (al := u32 (get a2 0 + 31) >> 5). match goal with |- ct _ (_ ≫= _) (store _ 0 ?w ≫= _) => set (v := w) end.
  assert (H0 : 0 <= al) by (apply Z.shiftr_nonneg, u32_word).
  clearbody v al. ct_step; [done|]. intros L1 L2. assert (HH : heads v (upd d1 0 v) (upd d2 0 v)) by (apply heads_set; lia).
  revert HH. generalize (upd d1 0 v) (upd d2 0 v). intros e1 e2 HH.
  eapply (ct_mono (heads v)); [|intros ? ? [G1 G2]; exact (eq_trans G1 (eq_sym G2))].
  apply ct_for_up_in; [exact HH|]. intros u u1 u2 Hu HU. ct_step; [done|].
  eapply (ct_bind (fun s t => heads v s.2 t.2)).
  - apply ct_for_up_in; [done|]. intros w [c1 y1] [c2 y2] Hw HY. simpl in HY. do 2 (ct_step; [done|]). cbv zeta.
    ct_step; [done|]. intros _ _. ct_step. simpl. apply heads_upd; [done|lia].
  - intros [c1 y1] [c2 y2] HY. simpl in HY. eapply ct_mono; [by apply ct_store|].
    intros ? ? (-> & -> & _ & _). apply heads_upd; [done|lia].
Qed.
