(* ===== verification/I31Opt.v ===== *)
(** Modular exponentiation with a window, [src/int/i31_modpow2.c]:
    [br_i31_modpow_opt] and its debugging output.

    The temporaries of the function lie in one array [tmp], in slots of [mwlen]
    words: [t1] is the slot 0, [t2] the slot 1 and the power [x^k] of the table
    the slot [k+1].  The modelled pointers [t1], [t2] and [base] are offsets in
    [tmp].  The function prints with [printf]: the code is written over the
    effect [print] of doing so, which leaks the value, and the theorems compare
    the function with the one that would not print. *)
From stdpp Require Import base tactics list numbers option.
From Stdlib Require Import ZArith Lia.
From S2P Require Import Prelude CtPrims Limbs Codec Ccopy I31 I31Mul I31Monty I31Modpow I31Ct.
Local Open Scope Z_scope.
Local Open Scope cword_scope.

(** * Code *)

(** [for (win_len = w; win_len > 1; win_len --) if (...) break;] *)
Fixpoint opt_window (mwlen twlen : Z) (w : nat) : M Z :=
  match w with
  | O => mret 0
  | S w' =>
      If 1 <? Z.of_nat w Then
        If u64 (u32 (u32 (1 << Z.of_nat w) + 1) * mwlen) <=? twlen
        Then mret (Z.of_nat w) Else opt_window mwlen twlen w'
      Else mret (Z.of_nat w)
  end.

(** The window contents; [mlen] is a number of words. *)
Definition opt_table (win_len mlen mwlen : Z) (x m : list Z) (m0i : Z) (tmp : list Z)
    : M (list Z) :=
  let t2 := mwlen in
  If win_len =? 1 Then memcpy tmp t2 x 0 mlen Else
  tmp ← memcpy tmp (t2 + mwlen) x 0 mlen;
  '(tmp, _) ← for_up 2 (u32 (1 << win_len)) (fun _ '(tmp, base) =>
    b ← view tmp base;
    tmp ← at_ptr tmp (base + mwlen) (fun d => br_i31_montymul d b x m m0i);
    mret (tmp, base + mwlen)) (tmp, t2 + mwlen);
  mret tmp.

(** Up to the loop: the table of the powers of [x], and [x] set to the
    representation of 1. *)
Definition opt_start (win_len mlen mwlen : Z) (x m : list Z) (m0i : Z) (tmp : list Z)
    : M (list Z * list Z) :=
  x ← br_i31_to_monty x m;
  tmp ← opt_table win_len mlen mwlen x m m0i tmp;
  m0 ← load m 0;
  x ← br_i31_zero x m0;
  x ← store x (u32 (m0 + 31) >> 5) 1;
  x ← br_i31_muladd_small x 0 m;
  mret (x, tmp).

(** What the loop reads the exponent with: [acc], [acc_len], the position of
    the pointer [e] and the [elen] bytes left. *)
Abbreviation reader := (Z * Z * Z * Z)%type.

(** The next bits of the exponent, and how many they are. *)
Definition opt_bits (e : list Z) (win_len : Z) (rd : reader) : M (Z * Z * reader) :=
  let '(acc, acc_len, p, elen) := rd in
  '(acc, acc_len, p, elen, k) ←
    (If acc_len <? win_len Then
       If 0 <? elen Then
         b ← load e p;
         mret (u32 (acc << 8) .| b, acc_len + 8, p + 1, elen - 1, win_len)
       Else mret (acc, acc_len, p, elen, acc_len)
     Else mret (acc, acc_len, p, elen, win_len));
  let bits := (acc >> (acc_len - k)) .& u32 (u32 (1 << k) - 1) in
  mret (bits, k, (acc, acc_len - k, p, elen)).

(** The constant-time lookup of the power [bits] of the table. *)
Definition opt_lookup (mwlen k bits : Z) (m tmp : list Z) : M (list Z) :=
  let t2 := mwlen in
  m0 ← load m 0;
  tmp ← at_ptr tmp t2 (fun d => br_i31_zero d m0);
  '(tmp, _) ← for_up 1 (u32 (1 << k)) (fun u '(tmp, base) =>
    let mask := u32 (- EQ u bits) in
    tmp ← for_up 1 mwlen (fun v tmp =>
      w ← load tmp (t2 + v);
      b ← load tmp (base + v);
      store tmp (t2 + v) (w .| (mask .& b))) tmp;
    mret (tmp, base + mwlen)) (tmp, t2 + mwlen);
  mret tmp.

(** The [k] squarings of [x]. *)
Definition opt_square (mlen k : Z) (m : list Z) (m0i : Z) (x tmp : list Z)
    : M (list Z * list Z) :=
  for_up 0 k (fun _ '(x, tmp) =>
    tmp ← br_i31_montymul tmp x x m m0i;
    x ← memcpy x 0 tmp 0 mlen;
    mret (x, tmp)) (x, tmp).

Section Code.
Context (print : Z -> M unit).

Definition opt_round (e : list Z) (win_len mlen mwlen : Z) (m : list Z) (m0i : Z)
    (s : list Z * list Z * reader) : M (list Z * list Z * reader) :=
  let '(x, tmp, rd) := s in
  '(bits, k, rd) ← opt_bits e win_len rd;
  '(x, tmp) ← opt_square mlen k m m0i x tmp;
  _ ← print bits;
  tmp ← (If 1 <? win_len Then opt_lookup mwlen k bits m tmp Else mret tmp);
  t2 ← view tmp mwlen;
  tmp ← br_i31_montymul tmp x t2 m m0i;
  x ← ccopy_words (NEQ bits 0) x tmp mlen;
  mret (x, tmp, rd).

(** [while (acc_len > 0 || elen > 0)] *)
Definition opt_more (s : list Z * list Z * reader) : bool :=
  let '(_, _, (_, acc_len, _, elen)) := s in (0 <? acc_len) || (0 <? elen).

(** From the choice of the window on; [fuel] bounds the turns of the loop. *)
Definition opt_power (fuel : nat) (x e : list Z) (elen : Z) (m : list Z) (m0i mlen mwlen win_len : Z)
    (tmp : list Z) : M (list Z * list Z) :=
  '(x, tmp) ← opt_start win_len mlen mwlen x m m0i tmp;
  '(x, tmp, _) ← while fuel opt_more (opt_round e win_len mlen mwlen m m0i)
    (x, tmp, (0, 0, 0, elen));
  x ← br_i31_from_monty x m m0i;
  mret (x, tmp).

Definition modpow_opt (x e : list Z) (elen : Z) (m : list Z) (m0i : Z) (tmp : list Z) (twlen : Z)
    : M (Z * list Z * list Z) :=
  m0 ← load m 0;
  let mlen := u32 (m0 + 63) >> 5 in
  let mwlen := mlen + (mlen .& 1) in
  If twlen <? u64 (mwlen << 1) Then mret (0, x, tmp) Else
  win_len ← opt_window mwlen twlen 5;
  _ ← print win_len;
  '(x, tmp) ← opt_power (Z.to_nat (8 * elen + 1)) x e elen m m0i mlen mwlen win_len tmp;
  mret (1, x, tmp).
End Code.

(** The function as it is, and without its two [printf]. *)
Definition br_i31_modpow_opt := modpow_opt (fun v => tick (Out v)).
Definition br_i31_modpow_opt_silent := modpow_opt (fun _ => mret ()).

(** * The window *)

Lemma opt_window_ok mwlen twlen w :
  (1 <= w <= 5)%nat -> 0 <= mwlen < 2 ^ 28 -> 2 * mwlen <= twlen ->
  ok (opt_window mwlen twlen w) (fun k =>
    1 <= k <= Z.of_nat w /\ (if k =? 1 then 2 else 2 ^ k + 1) * mwlen <= twlen).
Proof.
  intros Hw Hm Ht. induction w as [|w IH]; [lia|]. cbn [opt_window].
  assert (E : 1 << Z.of_nat (S w) = 2 ^ Z.of_nat (S w)) by (rewrite shl_mul by lia; lia).
  assert (H2 : 2 ^ Z.of_nat (S w) <= 2 ^ 5) by (apply Z.pow_le_mono_r; lia).
  pose proof (Z.pow_pos_nonneg 2 (Z.of_nat (S w)) ltac:(lia) ltac:(lia)) as H3.
  rewrite E, !u32_small, u64_small by (unfold word; rewrite ?u32_small; unfold word; nia).
  cstep; [cstep|].
  - apply Z.leb_le in H0. apply Z.ltb_lt in H. cstep. split; [lia|]. by rewrite (proj2 (Z.eqb_neq _ _)) by lia.
  - apply Z.ltb_lt in H. eapply ok_mono; [apply IH; lia|]. cbv beta. intros k [Hk HT]. split; [lia|done].
  - apply Z.ltb_ge in H. cstep. split; [lia|]. by rewrite (proj2 (Z.eqb_eq _ _)) by lia.
Qed.

(** The slots: [mwlen] is the number of words of an integer, made even. *)
Definition even_words (n : Z) : Z := n + 1 + (n + 1) mod 2.

Lemma even_words_eq n : 0 <= n -> (n + 1) + ((n + 1) .& 1) = even_words n.
Proof.
  intros. unfold even_words. f_equal. by apply (land_mask (n + 1) 1).
Qed.

Lemma even_words_bound n : n + 1 <= even_words n <= n + 2.
Proof. unfold even_words. zn. Qed.

(** * Residues in slots *)

Lemma residue_agree x y m n :
  residue x m n -> n + 1 <= zlen y -> (forall i, 0 <= i < n + 1 -> get y i = get x i) ->
  residue y m n /\ ival y n = ival x n.
Proof.
  intros [Hi Hh Hl] Hy Hg. pose proof (int31_n _ _ Hi). pose proof Hi as [H1 H2 H3 HL].
  assert (E : ival y n = ival x n) by (apply val_ext; intros; apply Hg; lia).
  split; [|done]. split; [split|..]; rewrite ?Hg, ?E by lia; try done.
  intros i ?. rewrite Hg by lia. apply HL. lia.
Qed.

Section Slots.
Context (m : list Z) (n : Z).

(** The slot at the offset [o] holds the Montgomery representation of [V]. *)
Record slot (tmp : list Z) (o V : Z) : Prop := Slot {
  slot_off : 0 <= o <= zlen tmp;
  slot_res : residue (drop (Z.to_nat o) tmp) m n;
  slot_val : eqm (ival m n) (ival (drop (Z.to_nat o) tmp) n) (V * 2 ^ (31 * n))
}.

Lemma slot_room tmp o V : slot tmp o V -> 0 <= n /\ o + n + 1 <= zlen tmp.
Proof.
  intros [H [Hi _ _] _]. pose proof (i31_room _ _ Hi). pose proof (int31_n _ _ Hi).
  rewrite zlen_drop in H0 by done. lia.
Qed.

(** A slot is moved by copying it, and kept by writes elsewhere. *)
Lemma slot_agree tmp tmp' o o' V : slot tmp o V -> 0 <= o' -> o' + n + 1 <= zlen tmp' ->
  (forall i, 0 <= i < n + 1 -> get tmp' (o' + i) = get tmp (o + i)) -> slot tmp' o' V.
Proof.
  intros HS Ho' Hl HG. pose proof (slot_room _ _ _ HS). destruct HS as [Ho Hr Hv].
  destruct (residue_agree (drop (Z.to_nat o) tmp) (drop (Z.to_nat o') tmp') m n Hr) as [Hr' Hv'].
  - rewrite zlen_drop by lia. lia.
  - intros i Hi. rewrite !get_drop by lia. by apply HG.
  - split; [lia|done|]. by rewrite Hv'.
Qed.

Lemma slot_frame tmp tmp' o V lo hi : slot tmp o V -> frame lo hi tmp tmp' ->
  o + n + 1 <= lo \/ hi <= o -> slot tmp' o V.
Proof.
  intros HS HF Hd. pose proof (slot_room _ _ _ HS). pose proof HS as [Ho _ _].
  pose proof (frame_len _ _ _ _ HF).
  apply (slot_agree tmp _ o); [done|lia|lia|]. intros i Hi. apply (frame_get _ _ _ _ _ HF); lia.
Qed.

Lemma slot_here x V : residue x m n -> eqm (ival m n) (ival x n) (V * 2 ^ (31 * n)) -> slot x 0 V.
Proof. intros Hr Hv. by split; [lia|rewrite drop_0..]. Qed.

Lemma slot_0 tmp V : slot tmp 0 V ->
  residue tmp m n /\ eqm (ival m n) (ival tmp n) (V * 2 ^ (31 * n)).
Proof. intros [_ Hr Hv]. by rewrite drop_0 in Hr, Hv. Qed.

(** [memcpy] of an integer. *)
Lemma slot_blit d dp s V : slot s 0 V -> 0 <= dp -> dp + n + 1 <= zlen d ->
  frame dp (dp + (n + 1)) d (blit d dp s 0 (n + 1)) /\ slot (blit d dp s 0 (n + 1)) dp V.
Proof.
  intros HS Hdp Hd. pose proof (slot_room _ _ _ HS). split.
  - split; [apply zlen_blit; lia|]. intros. apply get_blit_out; lia.
  - apply (slot_agree s _ 0); [done|lia|rewrite zlen_blit; lia|].
    intros i Hi. rewrite get_blit_in by lia. f_equal. lia.
Qed.

(** Views. *)
Lemma slot_view tmp o V : slot tmp o V -> slot (drop (Z.to_nat o) tmp) 0 V.
Proof. intros [Ho Hr Hv]. split; [lia|by rewrite drop_0..]. Qed.

Lemma slot_splice tmp o d V : 0 <= o <= zlen tmp ->
  frame 0 (n + 1) (drop (Z.to_nat o) tmp) d -> slot d 0 V ->
  frame o (o + (n + 1)) tmp (splice tmp o d) /\ slot (splice tmp o d) o V.
Proof.
  intros Ho HF [_ Hr Hv]. rewrite drop_0 in Hr, Hv.
  assert (HF' : frame (o + 0) (o + (n + 1)) tmp (splice tmp o d)) by (apply frame_splice; done || lia).
  rewrite Z.add_0_r in HF'. split; [done|]. pose proof (frame_len _ _ _ _ HF').
  split; [lia|by rewrite drop_splice..].
Qed.
End Slots.

(** * The exponent *)

Section Bits.
Context (e : list Z) (elen win_len : Z) (Hw : 1 <= win_len <= 5).
Context (He : 0 <= elen <= zlen e) (HB : bytes e 0 elen).

(** The reader has read [p] bytes and keeps their [acc_len] low bits; [seen] is
    the number made of the bits it has delivered. *)
Record reading (rd : reader) : Prop := Reading {
  rd_pos : 0 <= rd.1.2 /\ 0 <= rd.2 /\ rd.1.2 + rd.2 = elen;
  rd_len : 0 <= rd.1.1.2 <= 12;
  rd_word : word 32 rd.1.1.1;
  rd_acc : rd.1.1.1 mod 2 ^ rd.1.1.2 = vbe e 0 rd.1.2 mod 2 ^ rd.1.1.2
}.
Definition seen (rd : reader) : Z := vbe e 0 rd.1.2 / 2 ^ rd.1.1.2.
Definition left (rd : reader) : Z := rd.1.1.2 + 8 * rd.2.

(** The [k] bits below the [al - k] low ones. *)
Lemma next_bits acc V al k : 0 <= k <= al -> acc mod 2 ^ al = V mod 2 ^ al ->
  (acc / 2 ^ (al - k)) mod 2 ^ k = (V / 2 ^ (al - k)) mod 2 ^ k /\
  V / 2 ^ (al - k) = V / 2 ^ al * 2 ^ k + (V / 2 ^ (al - k)) mod 2 ^ k.
Proof.
  intros Hk HE. pose proof (Z.pow_pos_nonneg 2 k ltac:(lia) ltac:(lia)) as Pk.
  pose proof (Z.pow_pos_nonneg 2 (al - k) ltac:(lia) ltac:(lia)) as Pl.
  assert (E : 2 ^ al = 2 ^ (al - k) * 2 ^ k) by (rewrite <- Z.pow_add_r by lia; f_equal; lia).
  assert (F : forall x, (x / 2 ^ (al - k)) mod 2 ^ k = x mod 2 ^ al / 2 ^ (al - k)).
  { intros x. rewrite E, Z.rem_mul_r, (Z.mul_comm (2 ^ (al - k))), Z.div_add by lia.
    rewrite (Z.div_small (x mod _)); [lia|]. apply Z.mod_pos_bound. lia. }
  split; [by rewrite !F, HE|].
  rewrite E, <- Z.div_div, Z.mul_comm by lia. apply Z.div_mod. lia.
Qed.

Lemma read_byte acc V al b : word 32 acc -> 0 <= al <= 4 -> word 8 b ->
  acc mod 2 ^ al = V mod 2 ^ al ->
  let acc' := u32 (acc << 8) .| b in
  word 32 acc' /\ acc' mod 2 ^ (al + 8) = (V * 256 + b) mod 2 ^ (al + 8) /\
  (V * 256 + b) / 2 ^ (al + 8) = V / 2 ^ al.
Proof.
  intros Ha Hal Hb HE acc'. pose proof (Z.pow_pos_nonneg 2 al ltac:(lia) ltac:(lia)) as Pl.
  assert (E8 : 2 ^ (al + 8) = 2 ^ al * 256) by (by rewrite Z.pow_add_r by lia).
  assert (Ea : acc' = acc mod 2 ^ 24 * 2 ^ 8 + b).
  { unfold acc', u32. rewrite shl_mul by lia. change (2 ^ 32) with (2 ^ 24 * 2 ^ 8).
    rewrite Z.mul_mod_distr_r, lor_disjoint' by (done || lia). lia. }
  split; [|split].
  - rewrite Ea. pose proof (Z.mod_pos_bound acc (2 ^ 24) ltac:(lia)). unfold word in *. lia.
  - rewrite Ea, E8. change (2 ^ 8) with 256.
    rewrite <- (Z.add_mod_idemp_l (acc mod _ * 256)), <- (Z.add_mod_idemp_l (V * 256)) by lia.
    rewrite !Z.mul_mod_distr_r by lia. rewrite <- HE. do 3 f_equal.
    replace (2 ^ 24) with (2 ^ al * 2 ^ (24 - al)) by (rewrite <- Z.pow_add_r by lia; f_equal; lia).
    pose proof (Z.pow_pos_nonneg 2 (24 - al) ltac:(lia) ltac:(lia)).
    by rewrite Z.rem_mul_r, (Z.mul_comm (2 ^ al)), Z.mod_add, Z.mod_mod by lia.
  - rewrite E8, Z.mul_comm, (Z.mul_comm (2 ^ al)), <- Z.div_div by lia.
    f_equal. rewrite Z.mul_comm, Z.div_add_l by lia. rewrite Z.div_small by (unfold word in Hb; lia). lia.
Qed.

Lemma reading_end rd : reading rd -> left rd = 0 -> seen rd = vbe e 0 elen.
Proof.
  intros [Hp Hl _ _] H0. unfold left, seen in *. replace rd.1.1.2 with 0 by lia.
  rewrite Z.div_1_r. f_equal. lia.
Qed.

Lemma seen_nonneg rd : reading rd -> 0 <= seen rd.
Proof.
  intros [Hp Hl _ _]. apply Z.div_pos; [|apply Z.pow_pos_nonneg; lia].
  apply vbe_bound; [lia|]. apply (limbs_sub 8 e 0 elen); done || lia.
Qed.

(** One step of the reader. *)
Definition read_step (rd : reader) (r : Z * Z * reader) : Prop :=
  let '(bits, k, rd') := r in
  reading rd' /\ 1 <= k <= win_len /\ 0 <= bits < 2 ^ k /\ left rd' = left rd - k /\
  seen rd' = seen rd * 2 ^ k + bits.

Lemma take_bits acc al p el k :
  reading (acc, al, p, el) -> 1 <= k <= win_len -> k <= al ->
  read_step (acc, al, p, el)
    ((acc >> (al - k)) .& u32 (u32 (1 << k) - 1), k, (acc, al - k, p, el)).
Proof.
  intros [Hp Hl HW HE] Hk Hka. simpl in *.
  assert (2 ^ k <= 2 ^ 5) by (apply Z.pow_le_mono_r; lia).
  pose proof (Z.pow_pos_nonneg 2 k ltac:(lia) ltac:(lia)) as Pk.
  destruct (next_bits acc (vbe e 0 p) al k ltac:(lia) HE) as [E1 E2].
  assert (Eb : (acc >> (al - k)) .& u32 (u32 (1 << k) - 1) = (vbe e 0 p / 2 ^ (al - k)) mod 2 ^ k).
  { rewrite shl_mul, Z.mul_1_l, (u32_small (2 ^ k)), u32_small by (unfold word; lia).
    by rewrite land_mask, shr_div, E1 by lia. }
  unfold read_step, left, seen. simpl. rewrite Eb. split; [|split_and!; try lia].
  - split; simpl; [done|lia|done|].
    assert (Em : 2 ^ al = 2 ^ (al - k) * 2 ^ k) by (rewrite <- Z.pow_add_r by lia; f_equal; lia).
    pose proof (Z.pow_pos_nonneg 2 (al - k) ltac:(lia) ltac:(lia)) as Pl.
    assert (F : forall x, x mod 2 ^ (al - k) = (x mod 2 ^ al) mod 2 ^ (al - k)).
    { intros x. by rewrite Em, Z.rem_mul_r, (Z.mul_comm (2 ^ (al - k))), Z.mod_add, Z.mod_mod by lia. }
    by rewrite F, HE, <- F.
  - apply Z.mod_pos_bound. lia.
  - apply Z.mod_pos_bound. lia.
Qed.

Lemma opt_bits_ok rd : reading rd -> 0 < left rd -> ok (opt_bits e win_len rd) (read_step rd).
Proof.
  intros HR Hl. destruct rd as [[[acc al] p] el]. pose proof HR as [Hp Hal HW HE].
  unfold left in Hl. simpl in *. unfold opt_bits. do 2 cstep; [cstep|].
  - apply Z.ltb_lt in H, H0. do 4 cstep.
    destruct (read_byte acc (vbe e 0 p) al (get e p)) as (W' & E' & S'); [done|lia|by apply HB; lia|done|].
    assert (Ev : vbe e 0 (p + 1) = vbe e 0 p * 256 + get e p) by (apply vbe_succ; lia).
    assert (HR' : reading (u32 (acc << 8) .| get e p, al + 8, p + 1, el - 1))
      by (split; simpl; [lia|lia|done|by rewrite Ev]).
    destruct (take_bits _ _ _ _ win_len HR') as (R1 & R2 & R3 & R4 & R5); [lia|lia|].
    split; [done|]. split; [done|]. split; [done|]. unfold left, seen in *. simpl in *.
    split; [lia|]. by rewrite R5, Ev, S'.
  - apply Z.ltb_lt in H. apply Z.ltb_ge in H0. do 2 cstep. apply take_bits; done || lia.
  - apply Z.ltb_ge in H. do 2 cstep. apply take_bits; done || lia.
Qed.

(** Reading leaks positions only. *)
Lemma opt_bits_ct e1 e2 a1 a2 al p el :
  ct (fun s t => s.1.2 = t.1.2 /\ s.2.1.1.2 = t.2.1.1.2 /\ s.2.1.2 = t.2.1.2 /\ s.2.2 = t.2.2)
    (opt_bits e1 win_len (a1, al, p, el)) (opt_bits e2 win_len (a2, al, p, el)).
Proof.
  unfold opt_bits. eapply (ct_bind (fun s t => s.2 = t.2 /\ s.1.2 = t.1.2 /\
    s.1.1.2 = t.1.1.2 /\ s.1.1.1.2 = t.1.1.1.2)).
  - ct_step; [done|intros _|intros _; by apply ct_ret].
    ct_step; [done|intros _|intros _; by apply ct_ret].
    ct_step; [done|]. by ct_step.
  - intros [[[[? ?] ?] ?] ?] [[[[? ?] ?] ?] ?] (? & ? & ? & ?). simpl in *. subst. by apply ct_ret.
Qed.
End Bits.

(** * Correctness *)

Section Correct.
Context (e m : list Z) (elen m0i n : Z) (HA : modpow_args e m elen m0i n).
Let W := even_words n.

Lemma opt_n : 1 <= n < 2 ^ 27 /\ n + 1 <= W <= n + 2.
Proof.
  pose proof (modulus_low m n (args_mod _ _ _ _ _ HA)) as [Hn _].
  pose proof (int31_n _ _ (mod_int _ _ (args_mod _ _ _ _ _ HA))).
  pose proof (even_words_bound n). unfold W. lia.
Qed.

Lemma montymul_slot d x y A B : slot m n x 0 A -> slot m n y 0 B -> n + 1 <= zlen d ->
  ok (br_i31_montymul d x y m m0i) (fun d' => frame 0 (n + 1) d d' /\ slot m n d' 0 (A * B)).
Proof.
  intros Hx Hy Hd. apply slot_0 in Hx as [Rx Vx], Hy as [Ry Vy].
  pose proof HA as [Hm _ Hi Hinv _ _ _].
  eapply ok_mono; [by apply (br_i31_montymul_ok d x y m n); try done; destruct Rx|].
  intros d' (HF & Hr & Hv). split; [done|]. apply slot_here; [done|].
  apply (monty_cancel e m elen m0i n _ _ HA). rewrite Hv, Vx, Vy.
  by replace (A * 2 ^ (31 * n) * (B * 2 ^ (31 * n))) with (A * B * 2 ^ (31 * n) * 2 ^ (31 * n)) by ring.
Qed.

(** The table of the powers of [X]. *)
Definition table (win_len X : Z) (tmp : list Z) : Prop :=
  forall j, 1 <= j < 2 ^ win_len -> slot m n tmp (if win_len =? 1 then W else W * (j + 1)) (X ^ j).

Lemma table_frame win_len X tmp tmp' : 1 <= win_len ->
  frame 0 (if win_len =? 1 then W else 2 * W) tmp tmp' ->
  table win_len X tmp -> table win_len X tmp'.
Proof.
  intros Hw HF HT j Hj. pose proof opt_n. specialize (HT j Hj).
  eapply slot_frame; [exact HT|exact HF|]. destruct (Z.eqb_spec win_len 1); nia.
Qed.

Lemma opt_table_ok win_len x tmp X : 1 <= win_len <= 5 -> slot m n x 0 X ->
  (if win_len =? 1 then 2 else 2 ^ win_len + 1) * W <= zlen tmp ->
  ok (opt_table win_len (n + 1) W x m m0i tmp) (fun tmp' =>
    zlen tmp' = zlen tmp /\ table win_len X tmp').
Proof.
  intros Hw Hx Hl. pose proof opt_n as [Hn HW]. pose proof (slot_room _ _ _ _ _ Hx) as Lx.
  assert (H2 : 2 ^ win_len <= 2 ^ 5) by (apply Z.pow_le_mono_r; lia).
  unfold opt_table. cbv zeta. cstep; [apply Z.eqb_eq in H|apply Z.eqb_neq in H].
  - subst. change (1 =? 1) with true in Hl. cbv iota in Hl.
    destruct (slot_blit m n tmp W x X Hx) as [HF HS]; [lia..|].
    apply ok_memcpy; try lia. split; [by apply frame_len in HF|]. intros j Hj.
    replace j with 1 by lia. by rewrite Z.pow_1_r.
  - rewrite (proj2 (Z.eqb_neq _ _) H) in Hl.
    assert (2 ^ 2 <= 2 ^ win_len) by (apply Z.pow_le_mono_r; lia).
    destruct (slot_blit m n tmp (W + W) x X Hx) as [HF HS]; [nia..|].
    cstep. apply ok_memcpy; try nia. cstep.
    rewrite shl_mul, Z.mul_1_l, u32_small by (unfold word; lia).
    apply (ok_for_up (fun u '(tmp', base) => base = W * u /\ zlen tmp' = zlen tmp /\
      forall j, 1 <= j < u -> slot m n tmp' (W * (j + 1)) (X ^ j))); [lia| |..].
    + split; [lia|]. split; [by apply frame_len in HF|]. intros j Hj. replace j with 1 by lia.
      rewrite Z.pow_1_r. by replace (W * (1 + 1)) with (W + W) by lia.
    + intros u [tmp' base] Hu (-> & HL & HT).
      assert (Hb : (u + 1) * W <= 2 ^ win_len * W) by nia.
      cstep. apply ok_view; [nia|]. cstep. apply ok_at_ptr; [nia|].
      specialize (HT (u - 1) ltac:(lia)) as HB. replace (W * (u - 1 + 1)) with (W * u) in HB by lia.
      eapply ok_mono.
      { apply (montymul_slot _ _ _ (X ^ (u - 1)) X); [by apply slot_view|done|].
        rewrite zlen_drop; nia. }
      intros d (HFd & HSd). destruct (slot_splice m n tmp' (W * u + W) d _ ltac:(nia) HFd HSd) as [HF' HS'].
      cstep. split; [lia|]. split; [apply frame_len in HF'; lia|]. intros j Hj.
      destruct (Z.eq_dec j u) as [->|].
      * replace (W * (u + 1)) with (W * u + W) by lia.
        replace (X ^ u) with (X ^ (u - 1) * X); [done|].
        rewrite Z.mul_comm, <- Z.pow_succ_r by lia. f_equal. lia.
      * eapply slot_frame; [apply HT; lia|exact HF'|]. nia.
    + intros [tmp' base] (_ & HL & HT). cstep. split; [done|]. intros j Hj.
      rewrite (proj2 (Z.eqb_neq _ _) H). by apply HT.
Qed.

(** What the lookup has put in the limb [v] of [t2] before its turn [u]. *)
Definition sel (tmp : list Z) (bits u v : Z) : Z :=
  if (1 <=? bits) && (bits <? u) then get tmp (W * (bits + 1) + v) else 0.

Lemma sel_step tmp bits u v w : word 32 bits -> word 32 u -> 1 <= u ->
  w = get tmp (W * (u + 1) + v) -> word 31 w ->
  sel tmp bits u v .| (u32 (- EQ u bits) .& w) = sel tmp bits (u + 1) v.
Proof.
  intros Hb Hu Hu1 -> Hw. rewrite EQ_spec by done. unfold sel.
  destruct (Z.eqb_spec u bits) as [->|Hne]; simpl b2z.
  - rewrite Z.ltb_irrefl, andb_false_r, (proj2 (Z.leb_le _ _)), (proj2 (Z.ltb_lt _ _)) by lia.
    rewrite Z.land_comm, (land_mask _ 32) by lia. simpl andb. rewrite Z.lor_0_l. apply Z.mod_small. unfold word in Hw. lia.
  - change (u32 (-0)) with 0. rewrite Z.land_0_l, Z.lor_0_r.
    replace (bits <? u + 1) with (bits <? u); [done|].
    destruct (Z.ltb_spec bits u), (Z.ltb_spec bits (u + 1)); done || lia.
Qed.

Lemma opt_lookup_ok win_len k bits X tmp :
  2 <= win_len <= 5 -> 1 <= k <= win_len -> 0 <= bits < 2 ^ k ->
  (2 ^ win_len + 1) * W <= zlen tmp -> table win_len X tmp ->
  ok (opt_lookup W k bits m tmp) (fun tmp' =>
    frame W (2 * W) tmp tmp' /\ residue (drop (Z.to_nat W) tmp') m n /\
    (1 <= bits -> slot m n tmp' W (X ^ bits))).
Proof.
  intros Hw Hk Hb Hl HT. pose proof opt_n as [Hn HW]. pose proof (args_mod _ _ _ _ _ HA) as Hm.
  pose proof Hm as [[Hm1 Hm2 Hm3 _] _ Hmp].
  assert (HT' : forall j, 1 <= j < 2 ^ win_len -> slot m n tmp (W * (j + 1)) (X ^ j)).
  { intros j Hj. specialize (HT j Hj). by rewrite (proj2 (Z.eqb_neq _ _)) in HT by lia. }
  assert (H2 : 2 ^ k <= 2 ^ win_len) by (apply Z.pow_le_mono_r; lia).
  assert (H3 : 2 ^ win_len <= 2 ^ 5) by (apply Z.pow_le_mono_r; lia).
  assert (H4 : 2 ^ 2 <= 2 ^ win_len) by (apply Z.pow_le_mono_r; lia).
  unfold opt_lookup. cbv zeta. cstep. cstep. cstep. apply ok_at_ptr; [nia|].
  eapply ok_mono; [apply (br_i31_zero_ok _ (get m 0) n); [lia|done|rewrite zlen_drop; nia]|].
  intros z (HFz & Hz0 & Hz & HVz). cbv beta.
  assert (HF0 : frame W (2 * W) tmp (splice tmp W z)).
  { apply (frame_weaken (W + 0) (W + (n + 1))); [|lia..]. apply frame_splice; [nia|lia|done]. }
  set (tmp0 := splice tmp W z) in *. pose proof (frame_len _ _ _ _ HF0) as HL0.
  assert (Hg0 : forall i, 0 <= i -> get tmp0 (W + i) = get z i).
  { intros. rewrite <- get_drop by lia. unfold tmp0. by rewrite drop_splice by nia. }
  cstep. rewrite shl_mul, Z.mul_1_l, u32_small by (unfold word; lia).
  apply (ok_for_up (fun u '(tmp', base) => base = W * (u + 1) /\ frame W (2 * W) tmp tmp' /\
    get tmp' W = get m 0 /\ forall i, 1 <= i <= n -> get tmp' (W + i) = sel tmp bits u i)); [lia| |..].
  - split; [lia|]. split; [done|]. split; [rewrite <- Hz0, <- Hg0 by lia; f_equal; lia|].
    intros i Hi. rewrite Hg0 by lia. unfold sel.
    replace ((1 <=? bits) && (bits <? 1)) with false
      by (destruct (Z.leb_spec 1 bits), (Z.ltb_spec bits 1); done || lia).
    apply (val_eq_0 31 ltac:(lia) z 1 n); [lia|by destruct Hz|done|lia].
  - intros u [tmp1 base] Hu (-> & HF1 & Hh1 & Hg1). pose proof (frame_len _ _ _ _ HF1) as HL1.
    assert (Hbu : (u + 2) * W <= (2 ^ win_len + 1) * W) by nia. cbv zeta. cstep.
    assert (HR : forall tmp' v, frame W (2 * W) tmp tmp' -> 0 <= v ->
      get tmp' (W * (u + 1) + v) = get tmp (W * (u + 1) + v))
      by (intros ? ? HF' ?; apply (frame_get _ _ _ _ _ HF'); nia).
    apply (ok_for_up (fun v tmp' => frame W (2 * W) tmp tmp' /\ get tmp' W = get m 0 /\
      forall i, 1 <= i <= n -> get tmp' (W + i) = sel tmp bits (if i <? v then u + 1 else u) i)); [lia| |..].
    + split; [done|]. split; [done|]. intros i Hi.
      rewrite (proj2 (Z.ltb_ge _ _)) by lia. by apply Hg1.
    + intros v tmp2 Hv (HF2 & Hh2 & Hg2). pose proof (frame_len _ _ _ _ HF2) as HL2.
      cstep. cstep; [nia|]. cstep. cstep; [nia|]. cstep; [nia|]. split; [|split].
      * eapply frame_trans; [exact HF2|]. apply frame_upd; lia.
      * by rewrite get_upd_ne by lia.
      * intros i Hi. destruct (Z.eq_dec i v) as [->|Hne].
        -- rewrite get_upd_eq, Hg2 by nia. rewrite Z.ltb_irrefl, (proj2 (Z.ltb_lt v (v + 1))) by lia.
           specialize (HT' u ltac:(lia)). destruct HT' as [_ [[_ _ _ HLs] _ _] _].
           specialize (HLs v ltac:(lia)). rewrite get_drop in HLs by nia.
           apply sel_step; [unfold word; lia|unfold word; lia|lia|apply HR; done || lia|by rewrite HR by (done || lia)].
        -- rewrite get_upd_ne, Hg2 by lia. f_equal.
           destruct (Z.ltb_spec i v), (Z.ltb_spec i (v + 1)); done || lia.
    + intros tmp2 (HF2 & Hh2 & Hg2). cstep. split; [lia|]. split; [done|]. split; [done|].
      intros i Hi. rewrite Hg2 by lia. by rewrite (proj2 (Z.ltb_lt _ _)) by lia.
  - intros [tmp' base] (_ & HF & Hh & Hg). cstep. pose proof (frame_len _ _ _ _ HF) as HL.
    split; [done|]. destruct (Z_le_gt_dec 1 bits) as [H1|H1].
    + assert (HS : slot m n tmp' W (X ^ bits)).
      { apply (slot_agree m n tmp _ (W * (bits + 1))); [apply HT'; lia|lia|nia|]. intros i Hi.
        destruct (Z.eq_dec i 0) as [->|].
        - rewrite !Z.add_0_r, Hh. specialize (HT' bits ltac:(lia)).
          destruct HT' as [_ [_ Hrh _] _]. rewrite get_drop, Z.add_0_r in Hrh by nia. done.
        - rewrite Hg by lia. unfold sel.
          by rewrite (proj2 (Z.leb_le _ _)), (proj2 (Z.ltb_lt _ _)) by lia. }
      split; [by destruct HS|done].
    + split; [|lia]. apply (residue_agree z); [by split; rewrite ?HVz|rewrite zlen_drop; nia|].
      intros i Hi. rewrite get_drop by lia. destruct (Z.eq_dec i 0) as [->|].
      * by rewrite Z.add_0_r, Hh, Hz0.
      * rewrite Hg by lia. unfold sel. rewrite (proj2 (Z.leb_gt _ _)) by lia.
        symmetry. apply (val_eq_0 31 ltac:(lia) z 1 n); [lia|by destruct Hz|done|lia].
Qed.

Lemma opt_square_ok k x tmp A : 0 <= k -> slot m n x 0 A -> n + 1 <= zlen tmp ->
  ok (opt_square (n + 1) k m m0i x tmp) (fun '(x', tmp') =>
    zlen x' = zlen x /\ slot m n x' 0 (A ^ (2 ^ k)) /\ frame 0 (n + 1) tmp tmp').
Proof.
  intros Hk Hx Hl. pose proof opt_n as [Hn HW]. unfold opt_square.
  apply (ok_for_up (fun i '(x', tmp') => zlen x' = zlen x /\ slot m n x' 0 (A ^ (2 ^ i)) /\
    frame 0 (n + 1) tmp tmp')); [lia| |..].
  - split; [done|]. split; [by rewrite Z.pow_0_r, Z.pow_1_r|apply frame_refl].
  - intros i [x' tmp'] Hi (HL & HS & HF). pose proof (frame_len _ _ _ _ HF).
    pose proof (slot_room _ _ _ _ _ HS) as Lx.
    cstep. eapply ok_mono; [apply (montymul_slot _ _ _ _ _ HS HS); lia|].
    intros t1 [HF1 HS1]. cbv beta. pose proof (frame_len _ _ _ _ HF1).
    destruct (slot_blit m n x' 0 t1 _ HS1) as [HFx HSx]; [lia..|].
    cstep. apply ok_memcpy; try lia. cstep. split; [by apply frame_len in HFx; lia|]. split.
    + replace (A ^ 2 ^ (i + 1)) with (A ^ 2 ^ i * A ^ 2 ^ i); [done|].
      rewrite (Z.add_1_r i), Z.pow_succ_r, (Z.mul_comm 2), Z.pow_mul_r, Z.pow_2_r
        by (try apply Z.pow_nonneg; lia). done.
    + by eapply frame_trans.
  - intros [x' tmp'] HI. exact HI.
Qed.

(** * The loop *)

(** What every turn of the loop keeps: [x] is the power of the base [X] to the
    bits of the exponent read so far. *)
Record opt_state (win_len X L K : Z) (s : list Z * list Z * reader) : Prop := OptState {
  opt_x : slot m n s.1.1 0 (X ^ seen e s.2);
  opt_xlen : zlen s.1.1 = K;
  opt_tmp : zlen s.1.2 = L;
  opt_tab : table win_len X s.1.2;
  opt_rd : reading e elen s.2
}.

Section Round.
Context (print : Z -> M unit) (Hprint : forall v, ok (print v) (fun _ => True)).
Context (win_len X L K : Z) (Hw : 1 <= win_len <= 5).
Context (HL : (if win_len =? 1 then 2 else 2 ^ win_len + 1) * W <= L).

Lemma opt_room : 2 * W <= L.
Proof.
  pose proof opt_n. destruct (win_len =? 1); [done|].
  pose proof (Z.pow_le_mono_r 2 1 win_len ltac:(lia) ltac:(lia)). nia.
Qed.

Lemma opt_round_ok s : opt_state win_len X L K s -> 0 < left s.2 ->
  ok (opt_round print e win_len (n + 1) W m m0i s) (fun s' =>
    opt_state win_len X L K s' /\ exists bits k, read_step e elen win_len s.2 (bits, k, s'.2)).
Proof.
  destruct s as [[x tmp] rd]. intros [Hx HxK Ht HT Hrd] Hleft. simpl in *.
  pose proof opt_n as [Hn HW]. pose proof opt_room as H2W. pose proof HA as [_ _ _ _ He1 He2 HB].
  unfold opt_round. cstep. eapply ok_mono; [apply (opt_bits_ok e elen win_len); done || lia|].
  intros [[bits k] rd'] HS. pose proof HS as (Hrd' & Hk & Hbits & _ & Hseen). cbv beta iota.
  pose proof (slot_room _ _ _ _ _ Hx) as Lx.
  cstep. eapply ok_mono; [eapply (opt_square_ok k x tmp); [lia|exact Hx|lia]|].
  intros [x1 tmp1] (Lx1 & Hx1 & HF1). cbv beta iota. pose proof (frame_len _ _ _ _ HF1).
  assert (HT1 : table win_len X tmp1).
  { apply (table_frame win_len X tmp); [lia| |done].
    eapply frame_weaken; [exact HF1|lia|]. destruct (win_len =? 1); lia. }
  cstep. eapply ok_mono; [apply Hprint|]. intros _ _. cstep.
  assert (Hlook : ok (If 1 <? win_len Then opt_lookup W k bits m tmp1 Else mret tmp1) (fun tmp2 =>
    zlen tmp2 = L /\ table win_len X tmp2 /\ residue (drop (Z.to_nat W) tmp2) m n /\
    (1 <= bits -> slot m n tmp2 W (X ^ bits)))).
  { cstep.
    - apply Z.ltb_lt in H0. rewrite (proj2 (Z.eqb_neq _ _)) in HL by lia.
      eapply ok_mono; [by apply (opt_lookup_ok win_len k bits X tmp1); lia || done|].
      intros tmp2 (HF2 & HR2 & HS2). cbv beta. pose proof (frame_len _ _ _ _ HF2).
      split; [lia|]. split; [|done]. apply (table_frame win_len X tmp1); [lia| |done].
      rewrite (proj2 (Z.eqb_neq _ _)) by lia. eapply frame_weaken; [exact HF2|lia|lia].
    - apply Z.ltb_ge in H0. assert (win_len = 1) as -> by lia. cstep.
      pose proof (HT1 1 ltac:(lia)) as HS1. change (1 =? 1) with true in HS1. cbv iota in HS1.
      split; [lia|]. split; [done|]. split; [by destruct HS1|].
      assert (k = 1) as -> by lia. intros Hb1. by replace bits with 1 by lia. }
  eapply ok_mono; [exact Hlook|]. intros tmp2 (HL2 & HT2 & HR2 & HS2). cbv beta. cstep.
  apply ok_view; [lia|]. cstep. clear Hlook.
  set (t2 := drop (Z.to_nat W) tmp2) in *.
  pose proof HA as [Hm _ Hi Hinv _ _ _]. apply slot_0 in Hx1 as [Rx1 Vx1].
  eapply ok_mono; [apply (br_i31_montymul_ok tmp2 x1 t2 m n); try done; [by destruct Rx1|lia]|].
  intros tmp3 (HF3 & HR3 & HV3). cbv beta. pose proof (frame_len _ _ _ _ HF3).
  destruct (int31_words _ _ (res_int _ _ _ Rx1)) as [Wx1 _].
  destruct (int31_words _ _ (res_int _ _ _ HR3)) as [W3 L3].
  assert (H5 : 2 ^ k <= 2 ^ 5) by (apply Z.pow_le_mono_r; lia).
  cstep. rewrite NEQ_spec by (unfold word; lia).
  eapply ok_mono; [apply ccopy_words_ok; done || lia|]. intros x2 ->. cbv beta. cstep. simpl.
  split; [|by exists bits, k]. split; simpl; [| |lia| |done].
  - pose proof (seen_nonneg e elen HB rd Hrd).
    rewrite Hseen, Z.pow_add_r, Z.pow_mul_r by (try apply Z.mul_nonneg_nonneg; lia).
    destruct (Z.eqb_spec bits 0) as [->|Hb0]; simpl.
    + rewrite Z.pow_0_r, Z.mul_1_r. by apply slot_here.
    + apply (slot_blit m n x1 0 tmp3); [|lia|lia]. apply slot_here; [done|].
      destruct (HS2 ltac:(lia)) as [_ _ V2]. fold t2 in V2.
      apply (monty_cancel e m elen m0i n _ _ HA). rewrite HV3, Vx1, V2.
      match goal with |- eqm _ (?a * ?c * (?b * ?c)) _ =>
        replace (a * c * (b * c)) with (a * b * c * c) by ring end. done.
  - destruct (negb (bits =? 0)); [|lia]. rewrite zlen_blit; lia.
  - apply (table_frame win_len X tmp2); [lia| |done].
    eapply frame_weaken; [exact HF3|lia|]. destruct (win_len =? 1); lia.
Qed.
End Round.

(** * The whole function *)

(** A one in the top limb is below an odd modulus above 1. *)
Lemma top_lt : 2 ^ (31 * (n - 1)) < ival m n.
Proof.
  pose proof HA as [Hm Hg1 _ _ _ _ _]. pose proof (modulus_low m n Hm) as [Hn Hlow].
  assert (2 ^ (31 * (n - 1)) <> ival m n); [|lia]. intros E.
  pose proof (args_odd _ _ _ _ _ HA) as Ho. rewrite <- E in Ho, Hg1.
  destruct (Z.eq_dec n 1) as [->|]; [by rewrite Z.mul_0_r in Hg1|].
  rewrite Z.odd_pow in Ho by lia. done.
Qed.

Lemma opt_one x h : nwords h = n -> get x 0 = get m 0 -> h = get m 0 -> int31 x n -> ival x n = 0 ->
  residue (upd x n 1) m n /\ ival (upd x n 1) n = 2 ^ (31 * (n - 1)).
Proof.
  intros Hh Hx0 -> Hx HV. pose proof opt_n as [Hn HW]. pose proof Hx as [Hx1 Hx2 Hx3 HL].
  assert (E : ival (upd x n 1) n = 2 ^ (31 * (n - 1))).
  { replace n with (n - 1 + 1) at 2 by lia. rewrite val_succ by lia.
    replace (1 + (n - 1)) with n by lia. rewrite get_upd_eq, val_upd_out by lia.
    rewrite val_zero; [lia|]. intros i Hi.
    apply (val_eq_0 31 ltac:(lia) x 1 n); [lia|done..|lia]. }
  split; [|done]. split.
  - apply (int31_frame x); [done|apply frame_upd; lia|apply limbs_upd; done || lia].
  - by rewrite get_upd_ne by lia.
  - rewrite E. apply top_lt.
Qed.

Lemma opt_start_ok win_len x tmp : 1 <= win_len <= 5 -> residue x m n ->
  (if win_len =? 1 then 2 else 2 ^ win_len + 1) * W <= zlen tmp ->
  ok (opt_start win_len (n + 1) W x m m0i tmp) (fun '(x', tmp') =>
    opt_state win_len (ival x n) (zlen tmp) (zlen x) (x', tmp', (0, 0, 0, elen))).
Proof.
  intros Hw Hx Hl. pose proof opt_n as [Hn HW]. pose proof HA as [Hm _ _ _ He1 He2 HB].
  pose proof (mod_int _ _ Hm) as [Hm1 Hm2 Hm3 _].
  unfold opt_start. cstep. eapply ok_mono; [by apply (br_i31_to_monty_ok x m n)|].
  intros x1 (F1 & R1 & V1). cbv beta. apply frame_len in F1.
  assert (S1 : slot m n x1 0 (ival x n)) by (apply slot_here; [done|]; by rewrite V1, eqm_mod).
  cstep. eapply ok_mono; [by apply (opt_table_ok win_len x1 tmp (ival x n))|].
  intros tmp1 [L1 T1]. cbv beta. cstep. cstep. cstep.
  eapply ok_mono; [apply (br_i31_zero_ok x1 (get m 0) n); try done|].
  { by destruct (int31_words _ _ (res_int _ _ _ R1)). }
  intros x2 (F2 & H20 & I2 & V2). cbv beta. apply frame_len in F2. cstep. rewrite len_nwords, Hm2 by done.
  pose proof I2 as [_ _ Hx2 _]. cstep.
  destruct (opt_one x2 (get m 0) Hm2 H20 eq_refl I2 V2) as [R3 V3].
  cstep. eapply ok_mono; [by apply (br_i31_muladd_small_ok _ 0 m n)|].
  intros x4 (F4 & R4 & V4). cbv beta. apply frame_len in F4. rewrite zlen_upd in F4.
  cstep. split; simpl; [|lia|done|done|].
  - change (seen e (0, 0, 0, elen)) with 0. rewrite Z.pow_0_r.
    apply slot_here; [done|]. rewrite V4, V3, eqm_mod, Z.mul_1_l, Z.add_0_r, <- Z.pow_add_r by lia.
    by replace (31 * (n - 1) + 31) with (31 * n) by lia.
  - split; simpl; done || lia.
Qed.

Lemma opt_more_left s : reading e elen s.2 -> opt_more s = negb (left s.2 =? 0).
Proof.
  destruct s as [[? ?] [[[? al] ?] el]]. intros [Hp Hl _ _]. unfold left. simpl in *.
  destruct (Z.ltb_spec 0 al), (Z.ltb_spec 0 el), (Z.eqb_spec (al + 8 * el) 0); done || lia.
Qed.

Section Whole.
Context (print : Z -> M unit) (Hprint : forall v, ok (print v) (fun _ => True)).

(** The loop ends with the fuel given: every turn reads a bit at least. *)
Lemma opt_loop_ok win_len X L K s : 1 <= win_len <= 5 ->
  (if win_len =? 1 then 2 else 2 ^ win_len + 1) * W <= L ->
  opt_state win_len X L K s -> left s.2 = 8 * elen ->
  ok (while (Z.to_nat (8 * elen + 1)) opt_more (opt_round print e win_len (n + 1) W m m0i) s)
    (fun s' => opt_state win_len X L K s' /\ left s'.2 = 0).
Proof.
  intros Hw HL HS Hleft. pose proof (args_elen _ _ _ _ _ HA).
  assert (Hnn : forall s, opt_state win_len X L K s -> 0 <= left s.2)
    by (intros s' [_ _ _ _ [? ? _ _]]; unfold left; lia).
  apply (ok_while (opt_state win_len X L K) (fun s => left s.2)); [done|lia| | |lia].
  - intros s' HS' Ht. rewrite opt_more_left in Ht by by destruct HS'.
    apply negb_true_iff, Z.eqb_neq in Ht. specialize (Hnn _ HS') as H0.
    eapply ok_mono; [by apply (opt_round_ok print Hprint win_len X L K); done || lia|].
    intros s'' (HS'' & bits & k & _ & Hk & _ & El & _). split; [done|].
    specialize (Hnn _ HS''). lia.
  - intros s' HS' Ht. rewrite opt_more_left in Ht by by destruct HS'.
    apply negb_false_iff, Z.eqb_eq in Ht. done.
Qed.

Lemma opt_power_ok win_len x tmp : 1 <= win_len <= 5 -> residue x m n ->
  (if win_len =? 1 then 2 else 2 ^ win_len + 1) * W <= zlen tmp ->
  ok (opt_power print (Z.to_nat (8 * elen + 1)) x e elen m m0i (n + 1) W win_len tmp)
    (fun '(y, tmp') => zlen y = zlen x /\ zlen tmp' = zlen tmp /\ residue y m n /\
       ival y n = ival x n ^ vbe e 0 elen mod ival m n).
Proof.
  intros Hw Hx Hl. unfold opt_power. cstep.
  eapply ok_mono; [by apply opt_start_ok|]. intros [x1 tmp1] HS. cbv beta iota. cstep.
  eapply ok_mono; [by apply (opt_loop_ok win_len (ival x n) (zlen tmp) (zlen x))|].
  intros [[x2 tmp2] rd] [[S2 K2 L2 _ R2] Hl0]. simpl in *. apply slot_0 in S2 as [Rx2 Vx2].
  pose proof HA as [Hm _ Hi Hinv _ _ _].
  cstep. eapply ok_mono; [by apply (br_i31_from_monty_ok x2 m n m0i)|].
  intros y (Fy & Ry & Vy). cbv beta. apply frame_len in Fy. cstep. split; [lia|]. split; [done|]. split; [done|].
  apply eqm_small; [|by apply residue_bound].
  apply (monty_cancel e m elen m0i n _ _ HA). rewrite Vy, Vx2.
  by rewrite (reading_end e elen rd R2 Hl0).
Qed.

(** The window fits in the temporaries; with no room for two integers the
    function gives up. *)
Lemma modpow_opt_ok x tmp twlen : residue x m n -> 0 <= twlen <= zlen tmp -> twlen < 2 ^ 64 ->
  ok (modpow_opt print x e elen m m0i tmp twlen) (fun '(r, y, tmp') =>
    r = b2z (2 * W <=? twlen) /\ zlen y = zlen x /\ zlen tmp' = zlen tmp /\
    if 2 * W <=? twlen
    then residue y m n /\ ival y n = ival x n ^ vbe e 0 elen mod ival m n
    else y = x /\ tmp' = tmp).
Proof.
  intros Hx Ht Ht64. pose proof opt_n as [Hn HW]. pose proof HA as [Hm _ _ _ _ _ _].
  pose proof (mod_int _ _ Hm) as [Hm1 Hm2 Hm3 _].
  unfold modpow_opt. cstep. cstep. cbv zeta.
  rewrite len63_nwords, Hm2, even_words_eq by (done || lia). fold W.
  rewrite shl_mul, u64_small by (unfold word; lia). rewrite (Z.mul_comm W). change (2 ^ 1) with 2.
  cstep.
  - cstep. apply Z.ltb_lt in H. by rewrite (proj2 (Z.leb_gt _ _)) by lia.
  - apply Z.ltb_ge in H. rewrite (proj2 (Z.leb_le _ _)) by lia.
    cstep. eapply ok_mono; [apply (opt_window_ok W twlen 5); lia|]. intros k [Hk HT]. cbv beta.
    cstep. eapply ok_mono; [apply Hprint|]. intros _ _. cstep.
    eapply ok_mono; [by apply (opt_power_ok k x tmp); lia || done|].
    intros [y tmp'] (HK & HL & Hy). cbv beta iota. by cstep.
Qed.
End Whole.
End Correct.

(** * What it leaks *)

(** The public part of the loop state: where the reader is. *)
Definition same_place (s t : reader) : Prop := s.1.1.2 = t.1.1.2 /\ s.1.2 = t.1.2 /\ s.2 = t.2.

Lemma opt_more_same s t : same_place s.2 t.2 -> opt_more s = opt_more t.
Proof.
  destruct s as [[? ?] [[[? ?] ?] ?]], t as [[? ?] [[[? ?] ?] ?]]. intros (E & _ & E').
  simpl in *. by subst.
Qed.

Section Leak.
Context (h : Z) (m1 m2 : list Z) (E1 : get m1 0 = h) (E2 : get m2 0 = h).
Context (Hh : 0 < u32 (h + 31) >> 5).

Lemma opt_table_ct win_len mlen mwlen x1 x2 i1 i2 t1 t2 :
  ct (fun _ _ => True) (opt_table win_len mlen mwlen x1 m1 i1 t1)
    (opt_table win_len mlen mwlen x2 m2 i2 t2).
Proof.
  unfold opt_table. cbv zeta. ct_step; [done|intros _; ct_step; done|intros _].
  ct_step; [done..|]. intros.
  eapply (ct_bind (fun s t => s.2 = t.2)); [|intros [? ?] [? ?] _; by apply ct_ret].
  apply ct_for_up; [done..|]. intros k [u1 b1] [u2 b2] Hb. simpl in Hb. subst b2.
  eapply ct_bind; [apply ct_view|]. intros ? ? _.
  eapply (ct_bind (fun _ _ => True)); [|intros ? ? _; by apply ct_ret].
  apply ct_at_ptr. eapply ct_mono; [by apply (br_i31_montymul_ct h)|done].
Qed.

Lemma opt_start_ct win_len mlen mwlen x1 x2 i1 i2 t1 t2 : heads h x1 x2 ->
  ct (fun s t => heads h s.1 t.1) (opt_start win_len mlen mwlen x1 m1 i1 t1)
    (opt_start win_len mlen mwlen x2 m2 i2 t2).
Proof.
  intros HH. unfold opt_start. eapply ct_bind; [apply (br_i31_to_monty_ct h); congruence || done|].
  intros y1 y2 Hy. eapply ct_bind; [apply opt_table_ct|]. intros u1 u2 _. ct_step; [done|].
  rewrite E1, E2. eapply ct_bind; [apply (br_i31_zero_ct h)|]. intros z1 z2 Hz. ct_step; [done|].
  intros. eapply ct_bind; [apply (br_i31_muladd_small_ct h); [|congruence]|].
  - by apply heads_upd.
  - intros w1 w2 Hw. by ct_step.
Qed.

Lemma opt_square_ct mlen k i1 i2 x1 x2 t1 t2 :
  ct (fun _ _ => True) (opt_square mlen k m1 i1 x1 t1) (opt_square mlen k m2 i2 x2 t2).
Proof.
  unfold opt_square. apply ct_for_up; [done..|]. intros _ [y1 u1] [y2 u2] _.
  eapply ct_bind; [by apply (br_i31_montymul_ct h)|]. intros ? ? _.
  ct_step; [done..|]. intros. by ct_step.
Qed.

Lemma opt_lookup_ct mwlen k b1 b2 t1 t2 :
  ct (fun _ _ => True) (opt_lookup mwlen k b1 m1 t1) (opt_lookup mwlen k b2 m2 t2).
Proof.
  unfold opt_lookup. cbv zeta. ct_step; [done|]. rewrite E1, E2.
  eapply (ct_bind (fun _ _ => True)).
  { apply ct_at_ptr. eapply ct_mono; [apply (br_i31_zero_ct h)|done]. }
  intros u1 u2 _. eapply (ct_bind (fun s t => s.2 = t.2)); [|intros [? ?] [? ?] _; by apply ct_ret].
  apply ct_for_up; [done..|]. intros v [u3 c1] [u4 c2] Hc. simpl in Hc. subst c2.
  eapply (ct_bind (fun _ _ => True)); [|intros ? ? _; by apply ct_ret].
  apply ct_for_up; [done..|]. intros w y1 y2 _. do 2 (ct_step; [done|]). by ct_step.
Qed.

(** The turn up to the [printf], and after it. *)
Lemma opt_round_tail_ct win_len mlen mwlen k b1 b2 i1 i2 x1 x2 t1 t2 rd1 rd2 : same_place rd1 rd2 ->
  let tail m m0i bits x tmp rd :=
    tmp ← (If 1 <? win_len Then opt_lookup mwlen k bits m tmp Else mret tmp);
    t2 ← view tmp mwlen;
    tmp ← br_i31_montymul tmp x t2 m m0i;
    x ← ccopy_words (NEQ bits 0) x tmp mlen;
    mret (x, tmp, rd) : M (list Z * list Z * reader) in
  ct (fun s t => s.2 = rd1 /\ t.2 = rd2) (tail m1 i1 b1 x1 t1 rd1) (tail m2 i2 b2 x2 t2 rd2).
Proof.
  intros Hp tail. unfold tail. eapply (ct_bind (fun _ _ => True)).
  { apply ct_cond; [done|intros _; apply opt_lookup_ct|intros _; by apply ct_ret]. }
  intros u1 u2 _. eapply ct_bind; [apply ct_view|]. intros ? ? _.
  eapply ct_bind; [by apply (br_i31_montymul_ct h)|]. intros ? ? _.
  eapply ct_bind; [apply ccopy_words_ct|]. intros ? ? _. by ct_step.
Qed.

(** A turn of two runs whose readers are in the relation [Q] and which print
    what leaks the same. *)
Lemma opt_round_ct print (Q : reader -> reader -> Prop) win_len mlen mwlen e1 e2 i1 i2 s t :
  (forall rd1 rd2, Q rd1 rd2 -> same_place rd1 rd2) ->
  (forall rd1 rd2, Q rd1 rd2 -> ct (fun a b => a.1.2 = b.1.2 /\ Q a.2 b.2 /\
     ct (fun _ _ => True) (print a.1.1) (print b.1.1)) (opt_bits e1 win_len rd1) (opt_bits e2 win_len rd2)) ->
  Q s.2 t.2 ->
  ct (fun s t => Q s.2 t.2) (opt_round print e1 win_len mlen mwlen m1 i1 s)
    (opt_round print e2 win_len mlen mwlen m2 i2 t).
Proof.
  intros HQ Hbits Hp. destruct s as [[x1 t1] r1], t as [[x2 t2] r2]. simpl in Hp. unfold opt_round.
  eapply ct_bind; [by apply Hbits|].
  intros [[b1 k] rd1] [[b2 k'] rd2] (Hk & Hp' & Hprint). simpl in *. subst k'.
  eapply ct_bind; [apply opt_square_ct|]. intros [? ?] [? ?] _.
  eapply ct_bind; [apply Hprint|]. intros _ _ _.
  eapply ct_mono; [apply opt_round_tail_ct, HQ, Hp'|]. intros s t [-> ->]. done.
Qed.

End Leak.

Section TwoRuns.
Context (e1 e2 m1 m2 : list Z) (elen i1 i2 n : Z).
Context (A1 : modpow_args e1 m1 elen i1 n) (A2 : modpow_args e2 m2 elen i2 n).
Context (EH : get m1 0 = get m2 0).
Let h := get m1 0.
Let W := even_words n.

Lemma two_h : 0 <= h < 2 ^ 32 - 64 /\ nwords h = n /\ 0 < u32 (h + 31) >> 5.
Proof.
  pose proof (opt_n _ _ _ _ _ A1) as [Hn _]. destruct A1 as [[[H1 H2 _ _] _ _] _ _ _ _ _ _].
  fold h in H1, H2. rewrite len_nwords by done. lia.
Qed.

Lemma opt_state_heads win_len X1 X2 L1 L2 K1 K2 s t :
  opt_state e1 m1 elen n win_len X1 L1 K1 s -> opt_state e2 m2 elen n win_len X2 L2 K2 t ->
  heads h s.1.1 t.1.1.
Proof.
  intros [S1 _ _ _ _] [S2 _ _ _ _]. apply slot_0 in S1 as [[_ S1 _] _], S2 as [[_ S2 _] _].
  split; [done|]. unfold h. by rewrite EH.
Qed.

(** One turn with the bits printed. *)
Lemma opt_round_reveals win_len X1 X2 L1 L2 K1 K2 s t : 1 <= win_len <= 5 ->
  (if win_len =? 1 then 2 else 2 ^ win_len + 1) * W <= L1 ->
  (if win_len =? 1 then 2 else 2 ^ win_len + 1) * W <= L2 ->
  let R s t := (same_place s.2 t.2 /\ seen e1 s.2 = seen e2 t.2) /\
    opt_state e1 m1 elen n win_len X1 L1 K1 s /\ opt_state e2 m2 elen n win_len X2 L2 K2 t in
  R s t -> opt_more s = true ->
  reveals R (opt_round (fun v => tick (Out v)) e1 win_len (n + 1) W m1 i1 s)
    (opt_round (fun v => tick (Out v)) e2 win_len (n + 1) W m2 i2 t).
Proof.
  intros Hw HL1 HL2 R [[Hp Hseen] [HS1 HS2]] Hmore. pose proof two_h as (Hh & _ & Hh').
  assert (Hl1 : 0 < left s.2).
  { assert (E : opt_more s = negb (left s.2 =? 0)) by (eapply opt_more_left; by destruct HS1).
    rewrite Hmore in E. symmetry in E. apply negb_true_iff, Z.eqb_neq in E. destruct HS1 as [_ _ _ _ [? ? _ _]].
    unfold left in *. lia. }
  assert (Hl2 : 0 < left t.2) by (destruct Hp as (Ea & _ & Eb); unfold left in *; by rewrite <- Ea, <- Eb).
  assert (Hout : forall v, ok (tick (Out v)) (fun _ => True)) by done.
  apply reveals_ok.
  2: { eapply ok_mono; [by apply (opt_round_ok e1 m1 elen i1 n A1 _ Hout win_len X1 L1 K1)|]. by intros ? []. }
  2: { eapply ok_mono; [by apply (opt_round_ok e2 m2 elen i2 n A2 _ Hout win_len X2 L2 K2)|]. by intros ? []. }
  pose proof (opt_rd _ _ _ _ _ _ _ _ _ HS1) as R1. pose proof (opt_rd _ _ _ _ _ _ _ _ _ HS2) as R2.
  pose proof A1 as [_ _ _ _ B1 C1 D1]. pose proof A2 as [_ _ _ _ B2 C2 D2].
  destruct s as [[x1 t1] [[[a1 al] p] el]], t as [[x2 t2] [[[a2 al'] p'] el']].
  unfold same_place in Hp. simpl in Hp, R1, R2, Hl1, Hl2, Hseen. destruct Hp as (<- & <- & <-). unfold opt_round.
  eapply reveals_bind.
  { apply reveals_ct, ct_ok; [apply opt_bits_ct|apply (opt_bits_ok e1 elen win_len); done || lia
      |apply (opt_bits_ok e2 elen win_len); done || lia]. }
  intros [[b1 k] rd1] [[b2 k'] rd2] ((Hk & Hp) & S1 & S2). simpl in Hk, Hp. subst k'.
  destruct S1 as (_ & _ & _ & _ & S1), S2 as (_ & _ & _ & _ & S2).
  eapply reveals_bind; [by apply reveals_ct, (opt_square_ct h)|]. intros [? ?] [? ?] _.
  eapply reveals_bind; [apply reveals_out|]. intros _ _ <-.
  eapply reveals_mono; [by apply reveals_ct, (opt_round_tail_ct h)|].
  intros s t [-> ->]. split; [done|]. by rewrite S1, S2, Hseen.
Qed.

Context (x1 x2 t1 t2 : list Z) (twlen : Z) (Rx1 : residue x1 m1 n) (Rx2 : residue x2 m2 n).
Context (Ht1 : 0 <= twlen <= zlen t1) (Ht2 : twlen <= zlen t2) (H64 : twlen < 2 ^ 64).

(** The function up to the loop, with the window chosen. *)
Lemma opt_start_runs win_len u1 u2 : 1 <= win_len <= 5 ->
  (if win_len =? 1 then 2 else 2 ^ win_len + 1) * W <= zlen u1 ->
  (if win_len =? 1 then 2 else 2 ^ win_len + 1) * W <= zlen u2 ->
  ct (fun s t => let init s := (s, (0, 0, 0, elen)) : list Z * list Z * reader in
      opt_state e1 m1 elen n win_len (ival x1 n) (zlen u1) (zlen x1) (init s) /\
      opt_state e2 m2 elen n win_len (ival x2 n) (zlen u2) (zlen x2) (init t))
    (opt_start win_len (n + 1) W x1 m1 i1 u1) (opt_start win_len (n + 1) W x2 m2 i2 u2).
Proof.
  intros Hw HL1 HL2. pose proof two_h as (Hh & _ & Hh').
  eapply ct_mono; [apply ct_ok; [apply (opt_start_ct h); try done| |]|].
  - split; [|unfold h; rewrite EH]; by apply res_head with n.
  - by apply (opt_start_ok e1 m1 elen i1 n A1).
  - by apply (opt_start_ok e2 m2 elen i2 n A2).
  - intros [? ?] [? ?] (_ & HS1 & HS2). done.
Qed.

Lemma modpow_opt_ct print (Q : reader -> reader -> Prop) :
  (forall v, ok (print v) (fun _ => True)) ->
  (forall v, ct (fun _ _ => True) (print v) (print v)) ->
  (forall rd1 rd2, Q rd1 rd2 -> same_place rd1 rd2) ->
  (forall win_len rd1 rd2, Q rd1 rd2 -> ct (fun a b => a.1.2 = b.1.2 /\ Q a.2 b.2 /\
     ct (fun _ _ => True) (print a.1.1) (print b.1.1)) (opt_bits e1 win_len rd1) (opt_bits e2 win_len rd2)) ->
  Q (0, 0, 0, elen) (0, 0, 0, elen) ->
  ct (fun _ _ => True) (modpow_opt print x1 e1 elen m1 i1 t1 twlen) (modpow_opt print x2 e2 elen m2 i2 t2 twlen).
Proof.
  intros Hok Hprint HQ Hbits HQ0.
  pose proof two_h as (Hh & Hhn & Hh'). pose proof (opt_n _ _ _ _ _ A1) as [Hn HW]. fold W in HW.
  pose proof (args_elen _ _ _ _ _ A1) as He.
  unfold modpow_opt. ct_step; [done|]. rewrite <- EH. fold h. cbv zeta.
  rewrite len63_nwords, Hhn, even_words_eq by (done || lia). fold W.
  rewrite shl_mul, u64_small by (unfold word; lia).
  ct_step; [done|intros _; by ct_step|intros Hlt; apply Z.ltb_ge in Hlt].
  eapply ct_bind.
  { apply ct_ok; [apply ct_refl|apply (opt_window_ok W twlen 5); lia..]. }
  intros w ? (<- & [Hw HT] & _). eapply ct_bind; [apply Hprint|]. intros _ _ _.
  eapply (ct_bind (fun _ _ => True)); [|intros [? ?] [? ?] _; by ct_step].
  unfold opt_power. eapply ct_bind; [apply opt_start_runs; lia|].
  intros [y1 u1] [y2 u2] [HS1 HS2]. eapply (ct_bind (fun s t => heads h s.1.1 t.1.1)).
  - eapply ct_mono; [apply ct_ok; [| |]|].
    + apply (ct_while (fun s t => Q s.2 t.2)); [done|intros; by apply opt_more_same, HQ|].
      intros s t Hp _. apply (opt_round_ct h); try done. intros. by apply Hbits.
    + by apply (opt_loop_ok e1 m1 elen i1 n A1 _ Hok w _ _ _ _ ltac:(lia) (Z.le_trans _ _ _ HT (proj2 Ht1)) HS1).
    + by apply (opt_loop_ok e2 m2 elen i2 n A2 _ Hok w _ _ _ _ ltac:(lia) (Z.le_trans _ _ _ HT Ht2) HS2).
    + intros s t (_ & [S1 _] & [S2 _]). by eapply opt_state_heads.
  - intros [[z1 ?] ?] [[z2 ?] ?] Hz. simpl in Hz.
    eapply ct_bind; [by apply (br_i31_from_monty_ct h)|]. intros ? ? _. by ct_step.
Qed.

(** Without [printf], whatever the exponents. *)
Lemma modpow_opt_silent_ct :
  ct (fun _ _ => True) (br_i31_modpow_opt_silent x1 e1 elen m1 i1 t1 twlen)
    (br_i31_modpow_opt_silent x2 e2 elen m2 i2 t2 twlen).
Proof.
  apply (modpow_opt_ct _ same_place); [done|intros; by apply ct_ret|done| |done].
  intros w [[[a1 al] p] el] [[[a2 ?] ?] ?] (E1 & E2 & E3). simpl in E1, E2, E3. subst.
  eapply ct_mono; [apply opt_bits_ct|]. intros s t (Hk & Hp). split; [done|]. split; [done|by apply ct_ret].
Qed.

(** As it is, for one exponent. *)
Lemma modpow_opt_same_ct : e1 = e2 ->
  ct (fun _ _ => True) (br_i31_modpow_opt x1 e1 elen m1 i1 t1 twlen)
    (br_i31_modpow_opt x2 e2 elen m2 i2 t2 twlen).
Proof.
  intros EE. apply (modpow_opt_ct _ eq); [done|intros; eapply ct_mono; [apply ct_refl|done]|by intros ? ? ->| |done].
  intros w rd ? <-. rewrite <- EE. eapply ct_mono; [apply ct_refl|]. intros s t <-. split; [done|]. split; [done|].
  eapply ct_mono; [apply ct_refl|done].
Qed.

Lemma modpow_opt_reveals : 2 * W <= twlen ->
  reveals (fun _ _ => vbe e1 0 elen = vbe e2 0 elen)
    (br_i31_modpow_opt x1 e1 elen m1 i1 t1 twlen) (br_i31_modpow_opt x2 e2 elen m2 i2 t2 twlen).
Proof.
  intros HW2. pose proof two_h as (Hh & Hhn & Hh'). pose proof (opt_n _ _ _ _ _ A1) as [Hn HW].
  fold W in HW. pose proof (args_elen _ _ _ _ _ A1) as He.
  unfold br_i31_modpow_opt, modpow_opt.
  eapply reveals_bind; [by apply reveals_ct, ct_load|]. intros ? ? [-> ->]. rewrite <- EH. fold h.
  cbv zeta. rewrite len63_nwords, Hhn, even_words_eq by (done || lia). fold W.
  rewrite shl_mul, u64_small by (unfold word; lia).
  eapply reveals_mono; [apply reveals_cond|by intros ? ? [_ H]; exact H]. intros _.
  rewrite (proj2 (Z.ltb_ge _ _)) by lia.
  eapply reveals_bind.
  { apply reveals_ct, ct_ok; [apply ct_refl|apply (opt_window_ok W twlen 5); lia..]. }
  intros w ? (<- & [Hw HT] & _). eapply reveals_bind; [apply reveals_out|]. intros _ _ _.
  eapply (reveals_bind (fun _ _ => vbe e1 0 elen = vbe e2 0 elen));
    [|intros [? ?] [? ?] ?; by apply reveals_ct, ct_ret].
  unfold opt_power. eapply reveals_bind; [apply reveals_ct, opt_start_runs; lia|].
  intros [y1 u1] [y2 u2] [HS1 HS2].
  eapply (reveals_bind (fun s t => heads h s.1.1 t.1.1 /\ vbe e1 0 elen = vbe e2 0 elen)).
  - assert (Hout : forall v, ok (tick (Out v)) (fun _ => True)) by done.
    eapply reveals_mono.
    { apply reveals_ok.
      - apply (reveals_while (fun s t => (same_place s.2 t.2 /\ seen e1 s.2 = seen e2 t.2) /\
          opt_state e1 m1 elen n w (ival x1 n) (zlen t1) (zlen x1) s /\
          opt_state e2 m2 elen n w (ival x2 n) (zlen t2) (zlen x2) t)).
        + split; [|done]. split; [done|reflexivity].
        + intros s t [[Hp _] _]. by apply opt_more_same.
        + intros s t HR Hm. apply opt_round_reveals; done || lia.
      - by apply (opt_loop_ok e1 m1 elen i1 n A1 _ Hout w _ _ _ _ ltac:(lia) (Z.le_trans _ _ _ HT (proj2 Ht1)) HS1).
      - by apply (opt_loop_ok e2 m2 elen i2 n A2 _ Hout w _ _ _ _ ltac:(lia) (Z.le_trans _ _ _ HT Ht2) HS2). }
    intros s t (([[_ Hseen] [HT1 HT2]] & _) & [_ Hl1] & [_ Hl2]).
    split; [by eapply opt_state_heads|]. rewrite <- (reading_end e1 elen s.2), <- (reading_end e2 elen t.2);
      [done|by destruct HT2|done|by destruct HT1|done].
  - intros [[z1 ?] ?] [[z2 ?] ?] [Hz HE]. simpl in Hz.
    eapply reveals_bind; [by apply reveals_ct, (br_i31_from_monty_ct h)|].
    intros ? ? _. by apply reveals_ct, ct_ret.
Qed.
End TwoRuns.

(** * Properties *)


(** [C6] Without its [printf], [br_i31_modpow_opt] is constant-time: runs with the
    same announced bit length, exponent length and [twlen] leak the same trace.
    With them it reveals the exponent: runs that print the same thing, among the
    rest of their trace, have equal exponents. *)
Theorem br_i31_modpow_opt_leak x1 x2 e1 e2 elen m1 m2 i1 i2 t1 t2 twlen n :
  modpow_args e1 m1 elen i1 n -> modpow_args e2 m2 elen i2 n -> get m1 0 = get m2 0 ->
  residue x1 m1 n -> residue x2 m2 n ->
  2 * even_words n <= twlen <= zlen t1 -> twlen <= zlen t2 -> twlen < 2 ^ 64 ->
  (exists t, trace (br_i31_modpow_opt_silent x1 e1 elen m1 i1 t1 twlen) = Some t /\
             trace (br_i31_modpow_opt_silent x2 e2 elen m2 i2 t2 twlen) = Some t) /\
  (trace (br_i31_modpow_opt x1 e1 elen m1 i1 t1 twlen) =
     trace (br_i31_modpow_opt x2 e2 elen m2 i2 t2 twlen) -> vbe e1 0 elen = vbe e2 0 elen).
Proof.
  intros A1 A2 EH R1 R2 H1 H2 H64. pose proof (opt_n _ _ _ _ _ A1).
  assert (Hok : forall print x e m i t, (forall v, ok (print v) (fun _ => True)) ->
    modpow_args e m elen i n -> residue x m n -> 0 <= twlen <= zlen t ->
    ok (modpow_opt print x e elen m i t twlen) (fun _ => True)).
  { intros print x e m i t Hp A R Ht. eapply ok_mono; [by apply (modpow_opt_ok e m elen i n A print Hp)|done]. }
  split.
  - eapply ct_trace; [apply (modpow_opt_silent_ct e1 e2 m1 m2 elen i1 i2 n A1 A2 EH); done || lia
      |apply Hok; done || lia..].
  - eapply reveals_trace; [apply (modpow_opt_reveals e1 e2 m1 m2 elen i1 i2 n A1 A2 EH); done || lia
      |apply Hok; done || lia|apply Hok; done || lia|intros ? ? HE; exact HE].
Qed.


Lemma br_i31_modpow_opt_leak_witness :
  trace (br_i31_modpow_opt [33; 5; 0] [5] 1 [33; 9; 1] 1193046471 (replicate 20 0) 20) <>
  trace (br_i31_modpow_opt [33; 5; 0] [200] 1 [33; 9; 1] 1193046471 (replicate 20 0) 20).
Proof.
  assert (HA : modpow_args [200] [33; 9; 1] 1 1193046471 2)
    by (split; try done; [int31_tac|by apply limbsb_limbs]).
  destruct (br_i31_modpow_opt_leak [33; 5; 0] [33; 5; 0] [5] [200] 1 [33; 9; 1] [33; 9; 1]
    1193046471 1193046471 (replicate 20 0) (replicate 20 0) 20 2 test_args HA) as [_ H];
    [done|int31_tac|int31_tac|done..|].
  intros E. apply H in E. done.
Defined.
