(* ===== verification/RsaPub.v ===== *)
(** RSA keys and the public-key operation, [src/rsa/rsa_i31_pub.c].

    The stack buffer [tmp] of the C function is an argument of the model: its
    contents are not initialised, and the theorems hold for every contents.  The
    pointers [m], [a] and [t] into it are the buffers that start there, without
    overlap. *)
From stdpp Require Import base tactics list numbers option.
From Stdlib Require Import ZArith Lia.
From S2P Require Import Prelude CtPrims Limbs Codec Ccopy I31 I31Mul I31Codec I31Monty I31Modpow I31Ct I31Opt.
Local Open Scope Z_scope.
Local Open Scope cword_scope.

(** * Keys *)

Record br_rsa_public_key := RsaPublicKey {
  pk_n : list Z; pk_nlen : Z; pk_e : list Z; pk_elen : Z
}.

Record br_rsa_private_key := RsaPrivateKey {
  sk_n_bitlen : Z;
  sk_p : list Z; sk_plen : Z; sk_q : list Z; sk_qlen : Z;
  sk_dp : list Z; sk_dplen : Z; sk_dq : list Z; sk_dqlen : Z;
  sk_iq : list Z; sk_iqlen : Z
}.

Definition BR_MAX_RSA_SIZE : Z := 4096.
Definition BR_MAX_RSA_FACTOR : Z := (BR_MAX_RSA_SIZE + 64) >> 1.

(** * Lengths *)

(** [while (len > 0 && *a == 0) { a ++; len --; }], from the position [o]. *)
Fixpoint skip_zeros (fuel : nat) (a : list Z) (o len : Z) : M (Z * Z) :=
  match fuel with
  | O => None
  | S fuel' =>
      If 0 <? len Then
        b ← load a o;
        If b =? 0 Then skip_zeros fuel' a (o + 1) (len - 1) Else mret (o, len)
      Else mret (o, len)
  end.

(** The number of words for [len] bytes, header included, made even. *)
Definition rsa_fwlen (len : Z) : M Z :=
  '(_, fwlen) ← while (Z.to_nat (len << 3) + 1) (fun '(z, _) => 0 <? z)
    (fun '(z, fwlen) => mret (z - 31, fwlen + 1)) (len << 3, 1);
  mret (fwlen + (fwlen .& 1)).

(** * The public-key operation *)

Definition pub_TLEN : Z := 4 * (2 + (BR_MAX_RSA_SIZE + 30) / 31).

Definition br_rsa_i31_public (x : list Z) (xlen : Z) (pk : br_rsa_public_key) (tmp : list Z)
    : M (Z * list Z) :=
  '(o, nlen) ← skip_zeros (Z.to_nat (pk_nlen pk) + 1) (pk_n pk) 0 (pk_nlen pk);
  If (nlen =? 0) || (BR_MAX_RSA_SIZE >> 3 <? nlen) || negb (xlen =? nlen)
  Then mret (0, x) Else
  fwlen ← rsa_fwlen nlen;
  n ← view (pk_n pk) o;
  m ← region tmp 0 fwlen;
  a ← region tmp fwlen fwlen;
  t ← view tmp (2 * fwlen);
  m ← br_i31_decode m n nlen;
  m1 ← load m 1;
  let m0i := br_i31_ninv31 m1 in
  let r := m0i .& 1 in
  '(r', a) ← br_i31_decode_mod a x xlen m;
  let r := r .& r' in
  '(_, a, _) ← br_i31_modpow_opt a (pk_e pk) (pk_elen pk) m m0i t (pub_TLEN - 2 * fwlen);
  x ← br_i31_encode x xlen a;
  mret (r, x).

(** * Lengths: correctness *)

(** The length in bytes of a number. *)
Definition byte_len (V : Z) : Z := (bitlen V + 7) / 8.

Lemma byte_len_eq V k : 0 < k -> 2 ^ (8 * (k - 1)) <= V < 2 ^ (8 * k) -> byte_len V = k.
Proof.
  intros Hk HV. pose proof (Z.pow_pos_nonneg 2 (8 * (k - 1)) ltac:(lia) ltac:(lia)).
  assert (H1 : bitlen V <= 8 * k) by (apply bitlen_le; lia).
  assert (H2 : ~ bitlen V <= 8 * (k - 1)) by (rewrite bitlen_le by lia; lia).
  unfold byte_len. zn.
Qed.

Lemma byte_len_bound V : 0 <= V -> V < 2 ^ (8 * byte_len V) /\ bitlen V <= 8 * byte_len V.
Proof.
  intros HV. pose proof (bitlen_nonneg V).
  assert (H1 : bitlen V <= 8 * byte_len V) by (unfold byte_len; zn). split; [|done].
  apply bitlen_le; lia.
Qed.

Lemma vbe_drop a o p n : 0 <= o -> 0 <= p -> 0 <= n -> vbe (drop (Z.to_nat o) a) p n = vbe a (o + p) n.
Proof. intros. apply vbe_ext; [done|]. intros i Hi. rewrite get_drop by lia. f_equal. lia. Qed.

Lemma bytes_drop a o p n : 0 <= o -> 0 <= p -> bytes a (o + p) n -> bytes (drop (Z.to_nat o) a) p n.
Proof. intros Ho Hp HB i Hi. rewrite get_drop by lia. apply HB. lia. Qed.

(** Leading zeros are skipped: what is left has the same value and no leading
    zero. *)
Lemma skip_zeros_ok fuel a o len : 0 <= o -> 0 <= len -> o + len <= zlen a -> bytes a o len ->
  len < Z.of_nat fuel ->
  ok (skip_zeros fuel a o len) (fun '(o', len') =>
    o <= o' /\ o' + len' = o + len /\ vbe a o' len' = vbe a o len /\
    len' = byte_len (vbe a o len)).
Proof.
  revert o len. induction fuel as [|fuel IH]; intros o len Ho Hlen Hl HB Hf; [lia|].
  cbn [skip_zeros]. cstep.
  - apply Z.ltb_lt in H. cstep. cstep.
    assert (E : vbe a o len = get a o * 2 ^ (8 * (len - 1)) + vbe a (o + 1) (len - 1))
      by (rewrite <- (vbe_cons a o (len - 1)) by lia; f_equal; lia).
    assert (HB' : bytes a (o + 1) (len - 1)) by (intros i Hi; apply HB; lia).
    cstep.
    + apply Z.eqb_eq in H0. eapply ok_mono; [apply IH; done || lia|].
      intros [o' len'] (H1 & H2 & H3 & H4). rewrite E, H0, Z.mul_0_l, Z.add_0_l.
      split; [lia|]. split; [lia|done].
    + apply Z.eqb_neq in H0. cstep. split; [lia|]. split; [done|]. split; [done|].
      pose proof (vbe_bound a (o + 1) (len - 1) ltac:(lia) HB') as Hv.
      pose proof (limbs_get 8 a o len o HB ltac:(lia)) as Hb.
      symmetry. apply byte_len_eq; [done|].
      replace (8 * len) with (8 * (len - 1) + 8) by lia. rewrite Z.pow_add_r by lia. nia.
  - apply Z.ltb_ge in H. cstep. replace len with 0 by lia. split; [lia|]. done.
Qed.

Lemma rsa_fwlen_ok len : 0 <= len -> ok (rsa_fwlen len) (fun f => f = even_words (dec_words len)).
Proof.
  intros Hlen. unfold rsa_fwlen. rewrite shl_mul by lia. change (2 ^ 3) with 8. cstep.
  apply (ok_while (fun '(z, f) => z = 8 * len - 31 * (f - 1) /\ -31 < z /\ 1 <= f)
    (fun '(z, _) => Z.max 0 z)); [lia|lia| | |lia].
  - intros [z f] (-> & Hz & Hf) Ht. apply Z.ltb_lt in Ht. cstep. lia.
  - intros [z f] (Ez & Hz & Hf) Ht. apply Z.ltb_ge in Ht. cstep.
    replace f with (dec_words len + 1) by (unfold dec_words; zn).
    apply even_words_eq. unfold dec_words. zn.
Qed.

Lemma even_words_mono n k : n <= k -> even_words n <= even_words k.
Proof. unfold even_words. intros. zn. Qed.

(** * The public-key operation: correctness *)

(** [public_key pk N E]: the key has the odd modulus [N] and the exponent [E]. *)
Record public_key (pk : br_rsa_public_key) (N E : Z) : Prop := PublicKey {
  pub_nlen : 0 <= pk_nlen pk <= zlen (pk_n pk);
  pub_nbytes : bytes (pk_n pk) 0 (pk_nlen pk);
  pub_n : vbe (pk_n pk) 0 (pk_nlen pk) = N;
  pub_gt1 : 1 < N;
  pub_odd : Z.odd N = true;
  pub_elen : 0 <= pk_elen pk < 2 ^ 29;
  pub_eroom : pk_elen pk <= zlen (pk_e pk);
  pub_ebytes : bytes (pk_e pk) 0 (pk_elen pk);
  pub_e : vbe (pk_e pk) 0 (pk_elen pk) = E
}.

Lemma ival_odd x n : 1 <= n -> Z.odd (ival x n) = Z.odd (get x 1).
Proof.
  intros Hn. replace n with (n - 1 + 1) by lia. rewrite val_cons by lia.
  rewrite Z.odd_add, Z.odd_mul. change (Z.odd (2 ^ 31)) with false. simpl. apply xorb_false_r.
Qed.

(** The Montgomery coefficient of an odd modulus. *)
Lemma ninv31_modulus m n : modulus m n -> Z.odd (ival m n) = true ->
  let m0i := br_i31_ninv31 (get m 1) in
  word 31 m0i /\ (get m 1 * m0i + 1) mod 2 ^ 31 = 0 /\ m0i .& 1 = 1.
Proof.
  intros Hm Ho m0i. pose proof (modulus_low m n Hm) as [Hn _]. rewrite ival_odd in Ho by done.
  destruct Hm as [[_ _ _ HL] _ _]. pose proof (limbs_get _ _ _ _ 1 HL ltac:(lia)) as W.
  destruct (br_i31_ninv31_ok (get m 1)) as [H1 H2]; [apply word31_32, W|].
  rewrite Ho in H2. fold m0i in H1, H2. split; [done|]. split; [done|].
  rewrite land1_odd. destruct (Z.odd m0i) eqn:E; [done|].
  apply (f_equal negb) in E. rewrite Z.negb_odd in E. apply Z.even_spec in E as [c Hc].
  rewrite Hc in H2. zn.
Qed.

Section Public.
Context (pk : br_rsa_public_key) (N E : Z) (HK : public_key pk N E).

Lemma pow_mod_nonneg (b : bool) v : 0 <= (if b then v else 0) ^ E mod N < N.
Proof. apply Z.mod_pos_bound. pose proof (pub_gt1 _ _ _ HK). lia. Qed.

Lemma br_rsa_i31_public_ok x xlen tmp :
  0 <= xlen <= zlen x -> bytes x 0 xlen -> zlen tmp = 1 + pub_TLEN ->
  let V := vbe x 0 xlen in
  ok (br_rsa_i31_public x xlen pk tmp) (fun '(r, x') =>
    if (xlen =? byte_len N) && (byte_len N <=? 512)
    then r = b2z (V <? N) /\ frame 0 xlen x x' /\ bytes x' 0 xlen /\
         vbe x' 0 xlen = (if V <? N then V else 0) ^ E mod N
    else r = 0 /\ x' = x).
Proof.
  intros Hx HB Ht V. pose proof HK as [K1 K2 K3 K4 K5 K6 K7 K8 K9].
  unfold br_rsa_i31_public. cstep.
  eapply ok_mono; [apply skip_zeros_ok; done || lia|]. rewrite K3.
  intros [o nlen] (Ho & Hon & HV & Hlen). cbv beta iota.
  assert (Hnl : 0 < byte_len N).
  { pose proof (byte_len_bound N ltac:(lia)). unfold byte_len.
    pose proof (bitlen_bounds N ltac:(lia)). destruct (Z.eq_dec (bitlen N) 0) as [E0|];
      [rewrite E0 in *; lia|]. pose proof (bitlen_nonneg N). zn. }
  rewrite (proj2 (Z.eqb_neq nlen 0)) by lia. rewrite shr_div by lia.
  change (BR_MAX_RSA_SIZE / 2 ^ 3) with 512. cbn [orb].
  cstep.
  { cstep. replace ((xlen =? byte_len N) && (byte_len N <=? 512)) with false; [done|].
    rewrite <- Hlen. destruct (Z.ltb_spec 512 nlen), (Z.eqb_spec xlen nlen), (Z.leb_spec nlen 512); done || lia. }
  apply orb_false_iff in H as [H1 H2]. apply Z.ltb_ge in H1. apply negb_false_iff, Z.eqb_eq in H2.
  subst xlen. rewrite Hlen, Z.eqb_refl, (proj2 (Z.leb_le _ _)), <- Hlen by lia. cbn [andb].
  assert (Hfw : even_words (dec_words nlen) <= 134).
  { apply (even_words_mono _ 133). unfold dec_words. zn. }
  pose proof (even_words_bound (dec_words nlen)) as Hew.
  assert (Hdw : 0 <= dec_words nlen) by (unfold dec_words; zn).
  assert (HTL : pub_TLEN = 540) by done.
  cstep. eapply ok_mono; [by apply rsa_fwlen_ok; lia|]. intros f ->. cbv beta.
  set (f := even_words (dec_words nlen)) in *.
  cstep. apply ok_view; [lia|].
  cstep. apply ok_region; [lia..|]. cstep. apply ok_region; [lia..|].
  cstep. apply ok_view; [lia|].
  set (n0 := drop (Z.to_nat o) (pk_n pk)). set (m0 := take _ (drop (Z.to_nat 0) tmp)). set (a0 := take _ (drop _ tmp)).
  set (t0 := drop _ tmp).
  assert (Lm : zlen m0 = f) by (apply zlen_region; lia).
  assert (La : zlen a0 = f) by (apply zlen_region; lia).
  assert (Lt : zlen t0 = 541 - 2 * f) by (unfold t0; rewrite zlen_drop; lia).
  assert (Hn0 : vbe n0 0 nlen = N) by (unfold n0; rewrite vbe_drop, Z.add_0_r by lia; done).
  destruct (br_i31_decode_modulus m0 n0 nlen) as [Hn HD]; try lia.
  { unfold n0. rewrite zlen_drop by lia. lia. }
  { apply bytes_drop; [lia..|]. apply (limbs_sub 8 _ 0 (pk_nlen pk)); [done|lia..]. }
  rewrite Hn0 in Hn, HD. set (n := (bitlen N + 30) / 31) in *.
  cstep. eapply ok_mono; [exact HD|]. intros m (HFm & Hm & Hmh & _ & HmV). cbv beta.
  pose proof (frame_len _ _ _ _ HFm) as Lm'. pose proof (modulus_low m n Hm) as [Hn1 _].
  destruct (ninv31_modulus m n Hm ltac:(by rewrite HmV)) as (I1 & I2 & I3).
  cstep. cstep. cbv zeta. set (m0i := br_i31_ninv31 (get m 1)) in *. rewrite I3.
  cstep. eapply ok_mono; [apply (br_i31_decode_mod_ok a0 x nlen m n); [lia|done|by destruct Hm|lia]|].
  rewrite HmV. fold V. intros [r a] (-> & HFa & Hah & Ha & HaV). cbv beta iota.
  pose proof (frame_len _ _ _ _ HFa) as La'.
  assert (HA : modpow_args (pk_e pk) m (pk_elen pk) m0i n) by (split; done || lia).
  assert (Hra : residue a m n).
  { split; [done|done|]. rewrite HaV, HmV. destruct (Z.ltb_spec V N); lia. }
  pose proof (even_words_mono n (dec_words nlen) ltac:(lia)) as Hmono.
  cstep. eapply ok_mono.
  { apply (modpow_opt_ok (pk_e pk) m (pk_elen pk) m0i n HA (fun v => tick (Out v)) (fun _ => I) a t0);
      [done|lia|lia]. }
  rewrite (proj2 (Z.leb_le _ _)) by lia. intros [[r' a'] t'] (_ & _ & _ & Ra & Va). cbv beta iota.
  cstep. eapply ok_mono; [apply (br_i31_encode_ok x nlen a' n); [by destruct Ra|lia]|].
  intros x' (HFx & HBx & HVx). cbv beta. cstep. split; [|split; [done|split; [done|]]].
  - destruct (V <? N); done.
  - rewrite HVx, Va, HaV, HmV, K9. apply Z.mod_small.
    pose proof (pow_mod_nonneg (V <? N) V). pose proof (byte_len_bound N ltac:(lia)).
    rewrite Hlen. lia.
Qed.
End Public.

(** * Properties *)

(** [C29] [br_rsa_i31_public] requires the exact length of the modulus, its leading
    zeros ignored, and at most 4096 bits; it then returns 1 exactly on the
    values below the modulus, and leaves [x^e mod n] in [x]. *)
Theorem br_rsa_i31_public_correct pk N E x xlen tmp :
  public_key pk N E -> 0 <= xlen <= zlen x -> bytes x 0 xlen -> zlen tmp = 1 + pub_TLEN ->
  let V := vbe x 0 xlen in
  ok (br_rsa_i31_public x xlen pk tmp) (fun '(r, x') =>
    if (xlen =? byte_len N) && (byte_len N <=? 512)
    then r = b2z (V <? N) /\ frame 0 xlen x x' /\ bytes x' 0 xlen /\
         vbe x' 0 xlen = (if V <? N then V else 0) ^ E mod N
    else r = 0 /\ x' = x).
Proof. intros HK. by apply br_rsa_i31_public_ok. Qed.

Definition toy_pk : br_rsa_public_key := RsaPublicKey [0; 143] 2 [7] 1.

Lemma toy_public : public_key toy_pk 143 7.
Proof. split; try done; by apply limbsb_limbs. Qed.

Lemma br_rsa_i31_public_correct_witness :
  ok (br_rsa_i31_public [42] 1 toy_pk (replicate 541 0)) (fun '(r, x') =>
    r = 1 /\ frame 0 1 [42] x' /\ bytes x' 0 1 /\ vbe x' 0 1 = 42 ^ 7 mod 143).
Proof.
  apply (br_rsa_i31_public_correct toy_pk 143 7 [42] 1 (replicate 541 0) toy_public);
    [done|by apply limbsb_limbs|done].
Defined.
