(* ===== verification/RsaPriv.v ===== *)
(** The RSA private-key operation, [src/rsa/rsa_i31_priv.c].

    All the big integers of the function lie in its stack buffer [tmp], in slots
    of [fwlen] words which are reused: the pointers [mq], [mp], [s1], [s2], [t1],
    [t2], [t3] are offsets, and a call on a pointer writes into [tmp] from its
    offset on ([at_ptr]).  No call of the function has a source that overlaps
    what it writes. *)
From stdpp Require Import base tactics list numbers option.
From Stdlib Require Import ZArith Zpow_facts Lia.
From S2P Require Import Prelude CtPrims Limbs Codec Ccopy I31 I31Mul I31Codec I31Monty I31Modpow I31Ct I31Opt RsaPub.
Local Open Scope Z_scope.
Local Open Scope cword_scope.

(** * Code *)

Definition priv_TLEN : Z := 8 * (2 + (BR_MAX_RSA_FACTOR + 30) / 31).

(** The carry of the subtraction of the modulus [n] from [x], both big-endian. *)
Definition priv_borrow (n x : list Z) (xlen : Z) : M Z :=
  for_down xlen (fun u r =>
    wn ← load n u;
    wx ← load x u;
    mret ((u32 (wx - (wn + r)) >> 8) .& 1)) 0.

(** The product of the factors in the slots 0 and 1, in the slot 2. *)
Definition priv_product (fwlen : Z) (tmp : list Z) : M (list Z) :=
  mq ← view tmp 0;
  mq0 ← load mq 0;
  tmp ← at_ptr tmp (2 * fwlen) (fun t2 => br_i31_zero t2 mq0);
  mq ← view tmp 0;
  t1 ← view tmp fwlen;
  at_ptr tmp (2 * fwlen) (fun t2 => br_i31_mulacc t2 mq t1).

(** The factors [q] in the slot 0 and [p] in the slot 2, and the comparison of
    the source value with their product. *)
Definition priv_load (fwlen : Z) (q : list Z) (qlen : Z) (p : list Z) (plen : Z)
    (x : list Z) (xlen : Z) (tmp : list Z) : M (Z * list Z) :=
  tmp ← at_ptr tmp 0 (fun mq => br_i31_decode mq q qlen);
  tmp ← at_ptr tmp fwlen (fun t1 => br_i31_decode t1 p plen);
  tmp ← priv_product fwlen tmp;
  t2 ← view tmp (2 * fwlen);
  t3 ← view tmp (4 * fwlen);
  n ← br_i31_encode (bytes_of t3) xlen t2;
  r ← priv_borrow n x xlen;
  tmp ← memcpy (splice tmp (4 * fwlen) (words_of n (zlen t3))) (2 * fwlen) tmp fwlen fwlen;
  mret (r, tmp).

(** The power [x^d] modulo the factor at [mo], into the slot at [so], with
    temporaries from [t] on. *)
Definition priv_power (fwlen mo so t : Z) (x : list Z) (xlen : Z) (d : list Z) (dlen : Z)
    (tmp : list Z) : M (Z * Z * list Z) :=
  m ← view tmp mo;
  m1 ← load m 1;
  let m0i := br_i31_ninv31 m1 in
  tmp ← at_ptr tmp so (fun s => br_i31_decode_reduce s x xlen m);
  m ← view tmp mo;
  s ← region tmp so fwlen;
  tt ← view tmp t;
  '(r, s, tt) ← br_i31_modpow_opt s d dlen m m0i tt (priv_TLEN - t);
  mret (r, m0i, blit (splice tmp t tt) so s 0 fwlen).

(** [s1 = (s1 - s2) mod p] in Montgomery representation. *)
Definition priv_diff (fwlen : Z) (tmp : list Z) : M (list Z) :=
  s2 ← view tmp fwlen;
  mp ← view tmp (2 * fwlen);
  tmp ← at_ptr tmp (5 * fwlen) (fun t2 => br_i31_reduce t2 s2 mp);
  s1 ← view tmp (3 * fwlen);
  t2 ← view tmp (5 * fwlen);
  '(cc, s1) ← br_i31_sub s1 t2 1;
  '(_, s1) ← br_i31_add s1 mp cc;
  s1 ← br_i31_to_monty s1 mp;
  mret (splice tmp (3 * fwlen) s1).

(** [t2 = s1 * iq mod p]. *)
Definition priv_mul (fwlen p0i : Z) (iq : list Z) (iqlen : Z) (tmp : list Z) : M (list Z) :=
  mp ← view tmp (2 * fwlen);
  tmp ← at_ptr tmp (4 * fwlen) (fun t1 => br_i31_decode_reduce t1 iq iqlen mp);
  s1 ← view tmp (3 * fwlen);
  t1 ← view tmp (4 * fwlen);
  mp ← view tmp (2 * fwlen);
  at_ptr tmp (5 * fwlen) (fun t2 => br_i31_montymul t2 s1 t1 mp p0i).

(** From the two powers to the result, in the slot 1. *)
Definition priv_combine (fwlen p0i : Z) (iq : list Z) (iqlen : Z) (tmp : list Z) : M (list Z) :=
  tmp ← priv_diff fwlen tmp;
  tmp ← priv_mul fwlen p0i iq iqlen tmp;
  mq ← view tmp 0;
  t2 ← view tmp (5 * fwlen);
  at_ptr tmp fwlen (fun t3 => br_i31_mulacc t3 mq t2).

Definition br_rsa_i31_private (x : list Z) (sk : br_rsa_private_key) (tmp : list Z)
    : M (Z * list Z) :=
  '(po, plen) ← skip_zeros (Z.to_nat (sk_plen sk) + 1) (sk_p sk) 0 (sk_plen sk);
  '(qo, qlen) ← skip_zeros (Z.to_nat (sk_qlen sk) + 1) (sk_q sk) 0 (sk_qlen sk);
  len ← (If qlen <? plen Then mret plen Else mret qlen);
  fwlen ← rsa_fwlen len;
  If priv_TLEN <? 6 * fwlen Then mret (0, x) Else
  let xlen := u32 (sk_n_bitlen sk + 7) >> 3 in
  q ← view (sk_q sk) qo;
  p ← view (sk_p sk) po;
  '(r, tmp) ← priv_load fwlen q qlen p plen x xlen tmp;
  '(r2, q0i, tmp) ← priv_power fwlen 0 fwlen (3 * fwlen) x xlen (sk_dq sk) (sk_dqlen sk) tmp;
  let r := r .& r2 in
  '(r1, p0i, tmp) ← priv_power fwlen (2 * fwlen) (3 * fwlen) (4 * fwlen) x xlen
    (sk_dp sk) (sk_dplen sk) tmp;
  let r := r .& r1 in
  tmp ← priv_combine fwlen p0i (sk_iq sk) (sk_iqlen sk) tmp;
  t3 ← view tmp fwlen;
  x ← br_i31_encode x xlen t3;
  mret (p0i .& q0i .& r, x).

(** * Integers in slots *)

(** The slot at [o] holds [V], with the header [h] and [n] limbs. *)
Record numat (tmp : list Z) (o n h V : Z) : Prop := NumAt {
  num_off : 0 <= o <= zlen tmp;
  num_int : int31 (drop (Z.to_nat o) tmp) n;
  num_head : get tmp o = h;
  num_val : ival (drop (Z.to_nat o) tmp) n = V
}.

Lemma numat_room tmp o n h V : numat tmp o n h V -> 0 <= n /\ o + n + 1 <= zlen tmp.
Proof.
  intros [Ho Hi _ _]. pose proof (i31_room _ _ Hi). pose proof (int31_n _ _ Hi).
  rewrite zlen_drop in H by done. lia.
Qed.

Lemma int31_agree x y n : int31 x n -> n + 1 <= zlen y ->
  (forall i, 0 <= i < n + 1 -> get y i = get x i) -> int31 y n /\ ival y n = ival x n.
Proof.
  intros Hi Hy Hg. pose proof (int31_n _ _ Hi). pose proof Hi as [H1 H2 H3 HL].
  split; [|apply val_ext; intros; apply Hg; lia].
  split; rewrite ?Hg by lia; try done. intros i ?. rewrite Hg by lia. apply HL. lia.
Qed.

(** A number is moved by copying it, and kept by writes elsewhere. *)
Lemma numat_agree tmp tmp' o o' n h V : numat tmp o n h V -> 0 <= o' -> o' + n + 1 <= zlen tmp' ->
  (forall i, 0 <= i < n + 1 -> get tmp' (o' + i) = get tmp (o + i)) -> numat tmp' o' n h V.
Proof.
  intros HS Ho' Hl HG. pose proof (numat_room _ _ _ _ _ HS). destruct HS as [Ho Hi Hh Hv].
  destruct (int31_agree (drop (Z.to_nat o) tmp) (drop (Z.to_nat o') tmp') n Hi) as [Hi' Hv'].
  - rewrite zlen_drop by lia. lia.
  - intros i ?. rewrite !get_drop by lia. by apply HG.
  - split; [lia|done| |by rewrite Hv'].
    specialize (HG 0 ltac:(lia)). rewrite !Z.add_0_r in HG. congruence.
Qed.

Lemma numat_frame tmp tmp' o n h V lo hi : numat tmp o n h V -> frame lo hi tmp tmp' ->
  o + n + 1 <= lo \/ hi <= o -> numat tmp' o n h V.
Proof.
  intros HS HF Hd. pose proof (numat_room _ _ _ _ _ HS). pose proof (num_off _ _ _ _ _ HS).
  pose proof (frame_len _ _ _ _ HF).
  apply (numat_agree tmp _ o); [done|lia|lia|]. intros i Hi. apply (frame_get _ _ _ _ _ HF); lia.
Qed.

(** What a call on the pointer at [o] leaves. *)
Lemma numat_splice tmp o d n h V lo hi : 0 <= o <= zlen tmp -> 0 <= lo ->
  frame lo hi (drop (Z.to_nat o) tmp) d -> int31 d n -> get d 0 = h -> ival d n = V ->
  frame (o + lo) (o + hi) tmp (splice tmp o d) /\ numat (splice tmp o d) o n h V.
Proof.
  intros Ho Hlo HF Hi Hh Hv. pose proof (frame_splice tmp o lo hi d Ho Hlo HF) as HF'.
  split; [done|]. pose proof (frame_len _ _ _ _ HF').
  split; [lia|by rewrite drop_splice| |by rewrite drop_splice].
  rewrite <- (Z.add_0_r o) at 2. by rewrite <- get_drop, drop_splice by lia.
Qed.

Lemma numat_residue tmp o n h V m : numat tmp o n h V -> get m 0 = h -> V < ival m n ->
  residue (drop (Z.to_nat o) tmp) m n.
Proof.
  intros [Ho Hi Hh Hv] Hm HV. split; [done| |by rewrite Hv].
  rewrite get_drop, Z.add_0_r by lia. congruence.
Qed.

(** The limbs of a positive number, and a number announced with its true length. *)
Definition nlimbs (V : Z) : Z := (bitlen V + 30) / 31.
Abbreviation factorat tmp o V := (numat tmp o (nlimbs V) (enc_bits (bitlen V)) V).

Lemma factor_modulus tmp o V : 0 < V -> factorat tmp o V ->
  let m := drop (Z.to_nat o) tmp in
  modulus m (nlimbs V) /\ ival m (nlimbs V) = V /\ get m 0 = enc_bits (bitlen V) /\
  get m 0 mod 32 <> 0.
Proof.
  intros HV [Ho Hi Hh Hv] m. assert (E0 : get m 0 = enc_bits (bitlen V))
    by (unfold m; by rewrite get_drop, Z.add_0_r by lia).
  pose proof (bitlen_nonneg V). pose proof (bitlen_bounds V HV).
  split; [|split; [done|split; [done|]]].
  - split; [done| |by fold m in Hv; rewrite Hv]. fold m in Hv. by rewrite E0, Hv, enc_bits_abits.
  - rewrite E0. unfold enc_bits. destruct (Z.eqb_spec (bitlen V) 0) as [E|]; [rewrite E in *; lia|zn].
Qed.

(** * Comparison with the modulus *)

Lemma borrow_byte wx wn (r : bool) : word 8 wx -> word 8 wn ->
  (u32 (wx - (wn + b2z r)) >> 8) .& 1 = b2z (wx <? wn + b2z r).
Proof.
  unfold word. intros Hx Hn. rewrite shr_div by lia.
  assert (Hr : 0 <= b2z r <= 1) by (destruct r; done). set (k := b2z r) in *. clearbody k.
  rewrite (land_mask _ 1) by lia. unfold u32. destruct (Z.ltb_spec wx (wn + k)); cbn [b2z]; zn.
Qed.

Lemma ltb_cons P A B a b : 0 <= a < P -> 0 <= b < P ->
  (A * P + a <? B * P + b) = (A <? B + b2z (a <? b)).
Proof.
  intros Ha Hb. destruct (Z.ltb_spec a b); simpl b2z;
    (destruct (Z.ltb_spec (A * P + a) (B * P + b)), (Z.ltb_spec A (B + 1)), (Z.ltb_spec A (B + 0)));
    done || nia.
Qed.

Lemma priv_borrow_ok n x xlen : 0 <= xlen <= zlen n -> xlen <= zlen x ->
  bytes n 0 xlen -> bytes x 0 xlen ->
  ok (priv_borrow n x xlen) (fun r => r = b2z (vbe x 0 xlen <? vbe n 0 xlen)).
Proof.
  intros Hl Hx Bn Bx. unfold priv_borrow.
  apply (ok_for_down (fun u r => r = b2z (vbe x u (xlen - u) <? vbe n u (xlen - u)))); [lia| | |].
  - by rewrite Z.sub_diag.
  - intros u r Hu ->. cstep. cstep. cstep. cstep. cstep.
    rewrite borrow_byte by (apply Bx || apply Bn; lia). f_equal.
    assert (E : forall a, vbe a u (xlen - u) =
      get a u * 2 ^ (8 * (xlen - (u + 1))) + vbe a (u + 1) (xlen - (u + 1))).
    { intros a. rewrite <- (vbe_cons a u (xlen - (u + 1))) by lia. f_equal. lia. }
    rewrite !E. symmetry. apply ltb_cons; (apply vbe_bound; [lia|]);
      [apply (limbs_sub 8 x 0 xlen)|apply (limbs_sub 8 n 0 xlen)]; done || lia.
  - intros r ->. by rewrite Z.sub_0_r.
Qed.

(** * The steps *)

Lemma bitlen_mul a b : 0 <= a -> 0 <= b -> a * b < 2 ^ (bitlen a + bitlen b).
Proof.
  intros Ha Hb. pose proof (bitlen_nonneg a). pose proof (bitlen_nonneg b).
  rewrite Z.pow_add_r by done.
  assert (a < 2 ^ bitlen a) by (apply bitlen_le; lia).
  assert (b < 2 ^ bitlen b) by (apply bitlen_le; lia). nia.
Qed.

Lemma bitlen_prod a b : 0 <= a -> 0 <= b -> bitlen (a * b) <= bitlen a + bitlen b.
Proof.
  intros. pose proof (bitlen_nonneg a). pose proof (bitlen_nonneg b).
  apply bitlen_le; [nia|lia|]. by apply bitlen_mul.
Qed.

Section Private.
Context (p q fw : Z).
Context (Hp : 1 < p) (Hpo : Z.odd p = true) (Hq : 1 < q) (Hqo : Z.odd q = true).
Context (Hfp : even_words (nlimbs p) <= fw) (Hfq : even_words (nlimbs q) <= fw).
Context (Hfw : 6 * fw <= priv_TLEN).

Lemma priv_sizes : priv_TLEN = 560 /\ 0 < nlimbs p /\ 0 < nlimbs q /\
  nlimbs p + 1 <= fw /\ nlimbs q + 1 <= fw /\ 0 < fw <= 93.
Proof.
  assert (E : priv_TLEN = 560) by done. pose proof (even_words_bound (nlimbs p)).
  pose proof (even_words_bound (nlimbs q)).
  assert (Hl : forall V, 1 < V -> 0 < nlimbs V).
  { intros V HV. pose proof (bitlen_bounds V ltac:(lia)). unfold nlimbs.
    destruct (Z.le_gt_cases (bitlen V) 0) as [H2|]; [|zn].
    pose proof (bitlen_nonneg V). replace (bitlen V) with 0 in * by lia. lia. }
  pose proof (Hl p Hp). pose proof (Hl q Hq). lia.
Qed.

Lemma enc_small V : 1 < V -> nlimbs V <= 92 -> 0 <= enc_bits (bitlen V) <= 32 * 92.
Proof.
  intros HV Hl. pose proof (bitlen_nonneg V). unfold nlimbs, enc_bits in *.
  destruct (Z.eqb_spec (bitlen V) 0); zn.
Qed.

(** The factors loaded. *)
Record loaded (tmp : list Z) : Prop := Loaded {
  ld_len : zlen tmp = 1 + priv_TLEN;
  ld_q : factorat tmp 0 q;
  ld_p : factorat tmp (2 * fw) p
}.

Lemma loaded_frame tmp tmp' lo hi : loaded tmp -> frame lo hi tmp tmp' ->
  (fw <= lo /\ hi <= 2 * fw) \/ 3 * fw <= lo -> loaded tmp'.
Proof.
  intros [L Q P] HF Hd. pose proof priv_sizes as (_ & ? & ? & ? & ? & ?).
  split; [by rewrite (frame_len _ _ _ _ HF)|eapply numat_frame; [exact Q|exact HF|lia]|
    eapply numat_frame; [exact P|exact HF|lia]].
Qed.

Lemma loaded_mod tmp : loaded tmp ->
  let mq := drop (Z.to_nat 0) tmp in
  let mp := drop (Z.to_nat (2 * fw)) tmp in
  (modulus mq (nlimbs q) /\ ival mq (nlimbs q) = q /\ get mq 0 = enc_bits (bitlen q) /\
     get mq 0 mod 32 <> 0) /\
  (modulus mp (nlimbs p) /\ ival mp (nlimbs p) = p /\ get mp 0 = enc_bits (bitlen p) /\
     get mp 0 mod 32 <> 0).
Proof. intros [L Q P]. split; apply factor_modulus; done || lia. Qed.

(** Decoding a factor into a slot. *)
Lemma decode_slot src len V tmp o : 1 < V -> even_words (nlimbs V) <= fw ->
  0 <= len < 2 ^ 28 -> len <= zlen src -> bytes src 0 len -> vbe src 0 len = V ->
  dec_words len + 1 <= fw -> 0 <= o -> o + fw <= zlen tmp ->
  ok (at_ptr tmp o (fun d => br_i31_decode d src len)) (fun tmp' =>
    frame o (o + fw) tmp tmp' /\ factorat tmp' o V).
Proof.
  intros HV HfV Hlen Hs HB <- Hd Ho Hr. pose proof (even_words_bound (nlimbs (vbe src 0 len))).
  assert (0 <= dec_words len) by (unfold dec_words; zn). apply ok_at_ptr; [lia|].
  destruct (br_i31_decode_int (drop (Z.to_nat o) tmp) src len Hlen Hs HB) as [Hn HD];
    [rewrite zlen_drop by lia; lia|].
  eapply ok_mono; [exact HD|]. intros d (HF & Hi & Hh & Hv). cbv beta.
  assert (HF' : frame 0 fw (drop (Z.to_nat o) tmp) d) by (eapply frame_weaken; [exact HF|lia|lia]).
  replace (frame o) with (frame (o + 0)) by (by rewrite Z.add_0_r).
  apply numat_splice; done || lia.
Qed.

(** The slot 2 set to zero, with the length of [q]. *)
Lemma zero_slot tmp : zlen tmp = 1 + priv_TLEN -> factorat tmp 0 q -> factorat tmp fw p ->
  ok (at_ptr tmp (2 * fw) (fun t2 => br_i31_zero t2 (enc_bits (bitlen q)))) (fun tmp1 =>
    frame (2 * fw) (3 * fw) tmp tmp1 /\ factorat tmp1 0 q /\ factorat tmp1 fw p /\
    numat tmp1 (2 * fw) (nlimbs q) (enc_bits (bitlen q)) 0).
Proof.
  intros Ht Fq Fp. pose proof priv_sizes as (HT & Hnp & Hnq & Hp1 & Hq1 & Hf). rewrite HT in *.
  pose proof (enc_small q Hq ltac:(lia)) as Hbq. apply ok_at_ptr; [lia|].
  eapply ok_mono; [apply (br_i31_zero_ok _ (enc_bits (bitlen q)) (nlimbs q));
    [lia|by apply enc_bits_nwords, bitlen_nonneg|rewrite zlen_drop; lia]|].
  intros z (HFz & Hz0 & Hz & HVz). cbv beta.
  destruct (numat_splice tmp (2 * fw) z (nlimbs q) _ 0 0 (nlimbs q + 1) ltac:(lia) ltac:(lia) HFz Hz Hz0 HVz)
    as [HF1 HN1].
  split; [eapply frame_weaken; [exact HF1|lia|lia]|].
  split; [eapply numat_frame; [exact Fq|exact HF1|lia]|].
  split; [eapply numat_frame; [exact Fp|exact HF1|lia]|done].
Qed.

(** The product of the factors, in the slot 2. *)
Lemma product_slot tmp : zlen tmp = 1 + priv_TLEN -> factorat tmp 0 q -> factorat tmp fw p ->
  ok (priv_product fw tmp) (fun tmp' =>
    frame (2 * fw) (4 * fw) tmp tmp' /\
    exists n, int31 (drop (Z.to_nat (2 * fw)) tmp') n /\ ival (drop (Z.to_nat (2 * fw)) tmp') n = q * p).
Proof.
  intros Ht Fq Fp. pose proof priv_sizes as (HT & Hnp & Hnq & Hp1 & Hq1 & Hf).
  destruct (factor_modulus tmp 0 q ltac:(lia) Fq) as (_ & _ & Eq & _).
  pose proof (enc_small q Hq ltac:(lia)) as Hbq. pose proof (enc_small p Hp ltac:(lia)) as Hbp.
  unfold priv_product. cstep. apply ok_view; [lia|]. cstep. cstep; [rewrite zlen_drop; lia|].
  rewrite Eq. cstep. eapply ok_mono; [by apply zero_slot|].
  intros tmp1 (HF1 & Fq1 & Fp1 & HN1). cbv beta. pose proof (frame_len _ _ _ _ HF1) as HL1.
  cstep. apply ok_view; [lia|]. cstep. apply ok_view; [lia|]. apply ok_at_ptr; [lia|].
  destruct (factor_modulus tmp1 0 q ltac:(lia) Fq1) as ([Iq _ _] & Vq & Hhq & _).
  destruct (factor_modulus tmp1 fw p ltac:(lia) Fp1) as ([Ip _ _] & Vp & Hhp & _).
  destruct HN1 as [_ HiN _ HvN].
  eapply ok_mono.
  { apply (br_i31_mulacc_int (drop (Z.to_nat (2 * fw)) tmp1) _ _ (nlimbs q) (nlimbs p)); try done.
    - rewrite Hhq, Hhp. lia.
    - by destruct HiN.
    - rewrite zlen_drop; lia.
    - rewrite HvN, Vq, Vp, Hhq, Hhp, !enc_bits_abits by apply bitlen_nonneg.
      apply bitlen_mul; lia. }
  rewrite HvN, Vq, Vp, Hhq, Hhp, !enc_bits_abits by apply bitlen_nonneg.
  intros y (Iy & Vy & HFy). cbv beta.
  assert (HF2 : frame (2 * fw) (4 * fw) tmp1 (splice tmp1 (2 * fw) y)).
  { eapply frame_weaken; [refine (frame_splice _ _ _ _ _ _ _ HFy); lia|lia|lia]. }
  split.
  - eapply frame_trans; [|exact HF2]. eapply frame_weaken; [exact HF1|lia|lia].
  - rewrite drop_splice by lia. by eexists.
Qed.

(** What the two exponentiations leave of the rest. *)
Definition same_below (so t : Z) (tmp tmp' : list Z) : Prop :=
  zlen tmp' = zlen tmp /\ forall j, 0 <= j -> (j < so \/ so + fw <= j < t) -> get tmp' j = get tmp j.

Lemma power_q_done tmp tmp' : loaded tmp -> same_below fw (3 * fw) tmp tmp' -> loaded tmp'.
Proof.
  intros [L Q P] [HL HG]. pose proof priv_sizes as (HT & _ & _ & ? & ? & ?). split; [lia|..].
  - apply (numat_agree tmp _ 0); [done|lia|lia|]. intros i Hi. apply HG; lia.
  - apply (numat_agree tmp _ (2 * fw)); [done|lia|lia|]. intros i Hi. apply HG; lia.
Qed.

Lemma power_p_done tmp tmp' p0i V : loaded tmp -> same_below (3 * fw) (4 * fw) tmp tmp' ->
  numat tmp fw (nlimbs q) (enc_bits (bitlen q)) V -> p0i = br_i31_ninv31 (get tmp (2 * fw + 1)) ->
  loaded tmp' /\ numat tmp' fw (nlimbs q) (enc_bits (bitlen q)) V /\ word 31 p0i /\
  (get tmp' (2 * fw + 1) * p0i + 1) mod 2 ^ 31 = 0.
Proof.
  intros [L Q P] [HL HG] HN Ep. pose proof priv_sizes as (HT & ? & _ & ? & ? & ?).
  destruct (factor_modulus tmp (2 * fw) p ltac:(lia) P) as (Mp & Vmp & _).
  destruct (ninv31_modulus _ _ Mp ltac:(by rewrite Vmp)) as (I1 & I2 & _).
  rewrite get_drop, <- Ep in I1, I2 by lia. rewrite <- (HG (2 * fw + 1)) in I2 by lia.
  split; [split; [lia|..]|split; [|done]].
  - apply (numat_agree tmp _ 0); [done|lia|lia|]. intros i Hi. apply HG; lia.
  - apply (numat_agree tmp _ (2 * fw)); [done|lia|lia|]. intros i Hi. apply HG; lia.
  - apply (numat_agree tmp _ fw); [done|lia|lia|]. intros i Hi. apply HG; lia.
Qed.

Context (qs ps x : list Z) (qlen plen xlen : Z).
Context (Hqs : 0 <= qlen <= zlen qs) (Hps : 0 <= plen <= zlen ps).
Context (Bqs : bytes qs 0 qlen) (Bps : bytes ps 0 plen).
Context (Vqs : vbe qs 0 qlen = q) (Vps : vbe ps 0 plen = p).
Context (Dq : dec_words qlen + 1 <= fw) (Dp : dec_words plen + 1 <= fw).
Context (Hx : 0 <= xlen <= zlen x) (Bx : bytes x 0 xlen) (Hxlen : xlen = byte_len (p * q)).

Lemma xlen_bound : p * q < 2 ^ (8 * xlen) /\ xlen <= 4 * (561 - 4 * fw).
Proof.
  pose proof priv_sizes as (HT & Hnp & Hnq & Hp1 & Hq1 & Hf).
  assert (Hpq : 0 <= p * q) by nia.
  destruct (byte_len_bound (p * q) Hpq) as [HV _]. rewrite Hxlen. split; [done|].
  pose proof (bitlen_prod p q ltac:(lia) ltac:(lia)).
  unfold byte_len, nlimbs in *. zn.
Qed.

Lemma priv_load_ok tmp : zlen tmp = 1 + priv_TLEN ->
  ok (priv_load fw qs qlen ps plen x xlen tmp) (fun '(r, tmp') =>
    r = b2z (vbe x 0 xlen <? p * q) /\ loaded tmp').
Proof.
  intros Ht. pose proof priv_sizes as (HT & Hnp & Hnq & Hp1 & Hq1 & Hf). pose proof xlen_bound as [HV Hxb].
  assert (Hdw : 0 <= dec_words qlen /\ 0 <= dec_words plen) by (unfold dec_words; zn).
  assert (Hql : qlen < 2 ^ 28 /\ plen < 2 ^ 28) by (unfold dec_words in *; zn).
  unfold priv_load. cstep.
  eapply ok_mono; [apply (decode_slot qs qlen q tmp 0); done || lia|]. intros tmp1 [HF1 Fq1]. cbv beta.
  pose proof (frame_len _ _ _ _ HF1) as HL1. cstep.
  eapply ok_mono; [apply (decode_slot ps plen p tmp1 fw); done || lia|]. intros tmp2 [HF2 Fp2]. cbv beta.
  pose proof (frame_len _ _ _ _ HF2) as HL2.
  pose proof (numat_frame _ _ _ _ _ _ _ _ Fq1 HF2 ltac:(lia)) as Fq2.
  cstep. eapply ok_mono; [by apply (product_slot tmp2); done || lia|].
  intros tmp4 (HF4 & n & Hn & Hv). cbv beta.
  pose proof (frame_len _ _ _ _ HF4) as HL4.
  cstep. apply ok_view; [lia|]. cstep. apply ok_view; [lia|].
  set (t3 := drop (Z.to_nat (4 * fw)) tmp4).
  assert (L3 : zlen t3 = 561 - 4 * fw) by (unfold t3; rewrite zlen_drop; lia).
  cstep. eapply ok_mono; [apply (br_i31_encode_ok (bytes_of t3) xlen _ n Hn); rewrite zlen_bytes_of; lia|].
  intros b (HFb & Bb & Vb). cbv beta. pose proof (frame_len _ _ _ _ HFb) as Lb. rewrite zlen_bytes_of in Lb.
  rewrite Hv, Z.mul_comm, Z.mod_small in Vb by nia.
  cstep. eapply ok_mono; [apply (priv_borrow_ok b x xlen); done || lia|]. intros r ->. cbv beta.
  assert (HF5 : frame (4 * fw) 561 tmp4 (splice tmp4 (4 * fw) (words_of b (zlen t3)))).
  { eapply frame_weaken; [apply (frame_splice tmp4 (4 * fw) 0 (561 - 4 * fw)); [lia|lia|]|lia|lia].
    fold t3. split; [rewrite zlen_words_of; lia|]. intros j Hj Hout.
    rewrite !get_overflow; rewrite ?zlen_words_of; lia. }
  set (tmp5 := splice tmp4 _ _) in *. pose proof (frame_len _ _ _ _ HF5) as HL5.
  cstep. apply ok_memcpy; try lia. cstep. split; [by rewrite Vb|].
  assert (HF6 : frame (2 * fw) (3 * fw) tmp5 (blit tmp5 (2 * fw) tmp4 fw fw)).
  { split; [apply zlen_blit; lia|]. intros. apply get_blit_out; lia. }
  split.
  - rewrite (frame_len _ _ _ _ HF6). lia.
  - eapply numat_frame; [eapply numat_frame; [eapply numat_frame; [exact Fq2|exact HF4|lia]|exact HF5|lia]|
      exact HF6|lia].
  - apply (numat_agree tmp4 _ fw); [eapply numat_frame; [exact Fp2|exact HF4|lia]|lia| |].
    + rewrite (frame_len _ _ _ _ HF6). lia.
    + intros i Hi. rewrite get_blit_in by lia. f_equal. lia.
Qed.

(** A buffer written back. *)
Lemma numat_blit tmp o s n h V k : 0 <= o -> o + k <= zlen tmp -> zlen s = k -> n + 1 <= k ->
  int31 s n -> get s 0 = h -> ival s n = V ->
  frame o (o + k) tmp (blit tmp o s 0 k) /\ numat (blit tmp o s 0 k) o n h V.
Proof.
  intros Ho Hk Hs Hn Hi Hh Hv. pose proof (int31_n _ _ Hi).
  assert (HF : frame o (o + k) tmp (blit tmp o s 0 k)).
  { split; [apply zlen_blit; lia|]. intros. apply get_blit_out; lia. }
  split; [done|]. apply (numat_agree s _ 0); [|lia|rewrite (frame_len _ _ _ _ HF); lia|].
  - split; [lia|by rewrite drop_0|done|by rewrite drop_0].
  - intros i Hi'. rewrite get_blit_in by lia. f_equal. lia.
Qed.

(** A power modulo a factor. *)
Section Power.
Context (f mo so t : Z) (Hf1 : 1 < f) (Hfo : Z.odd f = true) (Hff : even_words (nlimbs f) <= fw).
Context (Hplace : (mo = 0 /\ so = fw /\ t = 3 * fw) \/ (mo = 2 * fw /\ so = 3 * fw /\ t = 4 * fw)).
Context (d : list Z) (dlen : Z) (Hd : 0 <= dlen < 2 ^ 29) (Hdl : dlen <= zlen d) (Bd : bytes d 0 dlen).

(** The base of the power, reduced into its slot. *)
Lemma power_base tmp : zlen tmp = 1 + priv_TLEN -> factorat tmp mo f ->
  ok (at_ptr tmp so (fun s => br_i31_decode_reduce s x xlen (drop (Z.to_nat mo) tmp))) (fun tmp1 =>
    frame so (so + fw) tmp tmp1 /\ factorat tmp1 mo f /\
    numat tmp1 so (nlimbs f) (enc_bits (bitlen f)) (vbe x 0 xlen mod f)).
Proof.
  intros Ht Ff. pose proof priv_sizes as (HT & _ & _ & _ & _ & Hf). pose proof xlen_bound as [_ Hxb].
  pose proof (even_words_bound (nlimbs f)). rewrite HT in *.
  destruct (factor_modulus tmp mo f ltac:(lia) Ff) as (Mm & Vm & Hm & _).
  destruct (modulus_low _ _ Mm) as [Hn1 _]. apply ok_at_ptr; [lia|].
  eapply ok_mono; [apply (br_i31_decode_reduce_ok _ x xlen _ (nlimbs f)); try done; [lia|rewrite zlen_drop; lia]|].
  intros s0 (HFs & Rs & Vs). cbv beta. rewrite Vm in Vs.
  destruct (numat_splice tmp so s0 (nlimbs f) _ _ 0 (nlimbs f + 1) ltac:(lia) ltac:(lia) HFs
    (res_int _ _ _ Rs) (eq_trans (res_head _ _ _ Rs) Hm) Vs) as [HF1 N1].
  split; [eapply frame_weaken; [exact HF1|lia|lia]|]. split; [|done].
  eapply numat_frame; [exact Ff|exact HF1|lia].
Qed.

(** The operands of the exponentiation. *)
Lemma power_args tmp tmp1 : zlen tmp = 1 + priv_TLEN -> factorat tmp mo f ->
  frame so (so + fw) tmp tmp1 -> factorat tmp1 mo f ->
  numat tmp1 so (nlimbs f) (enc_bits (bitlen f)) (vbe x 0 xlen mod f) ->
  let m1 := drop (Z.to_nat mo) tmp1 in
  let s1 := take (Z.to_nat fw) (drop (Z.to_nat so) tmp1) in
  modpow_args d m1 dlen (br_i31_ninv31 (get tmp (mo + 1))) (nlimbs f) /\ ival m1 (nlimbs f) = f /\
  zlen s1 = fw /\ residue s1 m1 (nlimbs f) /\ ival s1 (nlimbs f) = vbe x 0 xlen mod f.
Proof.
  intros Ht Ff HF1 Ff1 N1 m1 s1. pose proof priv_sizes as (HT & _ & _ & _ & _ & Hf).
  pose proof (even_words_bound (nlimbs f)). rewrite HT in *. pose proof (frame_len _ _ _ _ HF1) as HL1.
  destruct (factor_modulus tmp mo f ltac:(lia) Ff) as (Mm & Vm & Hm & _).
  destruct (ninv31_modulus _ _ Mm ltac:(by rewrite Vm)) as (I1 & I2 & I3).
  destruct (modulus_low _ _ Mm) as [Hn1 _]. rewrite (get_drop tmp mo 1) in * by lia.
  destruct (factor_modulus tmp1 mo f ltac:(lia) Ff1) as (Mm1 & Vm1 & Hm1 & _). fold m1 in Mm1, Vm1, Hm1.
  assert (Em1 : get m1 1 = get tmp (mo + 1)).
  { unfold m1. rewrite get_drop by lia. apply (frame_get _ _ _ _ _ HF1); lia. }
  split; [split; try done; [lia|by rewrite Em1]|]. split; [done|].
  assert (Ls : zlen s1 = fw) by (apply zlen_region; lia). split; [done|].
  destruct N1 as [O1 I1' G1 V1]. destruct (int31_agree _ s1 _ I1') as [Is Es]; [lia| |].
  - intros i Hi. unfold s1. rewrite get_region, get_drop by lia. done.
  - split; [split; [done| |]|by rewrite Es].
    + unfold s1. rewrite get_region, Z.add_0_r by lia. by rewrite G1.
    + rewrite Es, V1, Vm1. apply Z.mod_pos_bound. lia.
Qed.

Lemma priv_power_ok tmp : zlen tmp = 1 + priv_TLEN -> factorat tmp mo f ->
  ok (priv_power fw mo so t x xlen d dlen tmp) (fun '(r, m0i, tmp') =>
    r = 1 /\ m0i = br_i31_ninv31 (get tmp (mo + 1)) /\ m0i .& 1 = 1 /\
    same_below so t tmp tmp' /\
    numat tmp' so (nlimbs f) (enc_bits (bitlen f)) (vbe x 0 xlen ^ vbe d 0 dlen mod f)).
Proof.
  intros Ht Ff. pose proof priv_sizes as (HT & _ & _ & _ & _ & Hf).
  pose proof (even_words_bound (nlimbs f)).
  unfold priv_power. cstep. apply ok_view; [lia|]. cstep.
  cstep; [rewrite zlen_drop; lia|]. cbv zeta. cstep. eapply ok_mono; [by apply power_base|].
  intros tmp1 (HF1 & Ff1 & N1). cbv beta. pose proof (frame_len _ _ _ _ HF1) as HL1.
  destruct (power_args tmp tmp1 Ht Ff HF1 Ff1 N1) as (HA & Vm1 & Ls & Rs1 & Vs1). rewrite HT in *.
  destruct (factor_modulus tmp mo f ltac:(lia) Ff) as (Mm & Vm & _).
  destruct (ninv31_modulus _ _ Mm ltac:(by rewrite Vm)) as (_ & _ & I3).
  rewrite (get_drop tmp mo 1) in * by lia. set (m0i := br_i31_ninv31 (get tmp (mo + 1))) in *.
  cstep. apply ok_view; [lia|]. cstep. apply ok_region; [lia..|]. cstep. apply ok_view; [lia|].
  set (m1 := drop (Z.to_nat mo) tmp1) in *. set (s1 := take _ _) in *. set (t1 := drop _ tmp1).
  assert (Lt : zlen t1 = 561 - t) by (unfold t1; rewrite zlen_drop; lia).
  cstep. eapply ok_mono.
  { apply (modpow_opt_ok d m1 dlen m0i (nlimbs f) HA (fun v => tick (Out v)) (fun _ => I) s1 t1);
      [done|lia|lia]. }
  rewrite (proj2 (Z.leb_le _ _)) by lia. intros [[r s2] t2] (-> & Ls2 & Lt2 & Rs2 & Vs2). cbv beta iota.
  cstep. rewrite Vs1, Vm1 in Vs2.
  assert (HF2 : frame t (561 + t) tmp1 (splice tmp1 t t2)).
  { replace (frame t) with (frame (t + 0)) by (by rewrite Z.add_0_r). rewrite (Z.add_comm 561).
    apply frame_splice; [lia|lia|]. split; [done|]. intros j Hj Hout.
    fold t1. rewrite !get_overflow by lia. done. }
  set (tmp2 := splice tmp1 t t2) in *. pose proof (frame_len _ _ _ _ HF2) as HL2.
  destruct (factor_modulus tmp1 mo f ltac:(lia) Ff1) as (_ & _ & Hm1 & _). fold m1 in Hm1.
  destruct (numat_blit tmp2 so s2 (nlimbs f) (enc_bits (bitlen f))
    (vbe x 0 xlen ^ vbe d 0 dlen mod f) fw) as [HF3 N3]; [lia|lia|lia|lia|by destruct Rs2| | |].
  { by rewrite (res_head _ _ _ Rs2). }
  { rewrite Vs2. symmetry. apply Zpow_facts.Zpower_mod. lia. }
  split; [done|]. split; [done|]. split; [done|].
  split; [|done]. split; [rewrite (frame_len _ _ _ _ HF3); lia|]. intros j Hj Hout.
  rewrite (frame_get _ _ _ _ _ HF3), (frame_get _ _ _ _ _ HF2), (frame_get _ _ _ _ _ HF1) by lia. done.
Qed.
End Power.

(** Subtraction modulo [m]. *)
Lemma modsub_ok a b m n : modulus m n -> residue a m n -> residue b m n ->
  ok ('(cc, a') ← br_i31_sub a b 1; '(_, a'') ← br_i31_add a' m cc; mret a'') (fun y =>
    frame 1 (n + 1) a y /\ residue y m n /\ ival y n = (ival a n - ival b n) mod ival m n).
Proof.
  intros Hm Ha Hb. pose proof Hm as [Im _ _]. pose proof (ival_bound _ _ Im).
  pose proof Im as [_ _ Lm HLm]. pose proof Hb as [[_ _ Lb HLb] _ _]. pose proof Ha as [Ia Ha0 _].
  pose proof (residue_bound _ _ _ Ha) as Ba. pose proof (residue_bound _ _ _ Hb) as Bb.
  cstep. change 1 with (b2z true). eapply ok_mono; [by apply (br_i31_sub_ok a b n true)|].
  intros [cc a'] (HF1 & HL1 & -> & HV1). cbv beta iota.
  pose proof (int31_frame a a' n Ia HF1 HL1) as Ia'.
  cstep. eapply ok_mono; [by apply (br_i31_add_ok a' m n)|].
  intros [c2 a''] (HF2 & HL2 & _ & HV2). cbv beta iota. cstep.
  assert (HV : ival a'' n = (ival a n - ival b n) mod ival m n).
  { rewrite HV2, HV1. destruct (Z.ltb_spec (ival a n) (ival b n)).
    - rewrite Z.add_mod_idemp_l, !(Z.mod_small _ (2 ^ _)) by lia.
      apply (Z.mod_unique_pos _ _ (-1)); lia.
    - by rewrite !Z.mod_small by lia. }
  split; [by eapply frame_trans|]. split; [|done]. split.
  - by apply (int31_frame a').
  - rewrite (frame_get _ _ _ _ _ HF2), (frame_get _ _ _ _ _ HF1) by lia. done.
  - rewrite HV. apply Z.mod_pos_bound. lia.
Qed.

(** The Chinese remainder theorem as the code applies it. *)
Lemma crt_eq S1 S2 IQ h : 0 <= S2 < q -> 0 <= S1 < p -> eqm p (q * IQ) 1 ->
  0 <= h < p -> eqm p h ((S1 - S2) * IQ) ->
  let S := S2 + q * h in 0 <= S < p * q /\ S mod p = S1 /\ S mod q = S2.
Proof.
  intros H2 H1 HI Hh HE S. split; [unfold S; nia|]. split.
  - assert (E : eqm p S S1).
    { unfold S. rewrite HE.
      replace (S2 + q * ((S1 - S2) * IQ)) with (S2 + (S1 - S2) * (q * IQ)) by ring.
      rewrite HI. by replace (S2 + (S1 - S2) * 1) with S1 by ring. }
    destruct E as [E]. by rewrite E, Z.mod_small.
  - unfold S. by rewrite Z.mul_comm, Z.mod_add, Z.mod_small by lia.
Qed.

Section Combine.
Context (S1 S2 p0i : Z) (iq : list Z) (iqlen : Z).
Context (HS1 : 0 <= S1 < p) (HS2 : 0 <= S2 < q).
Context (Hiq : 0 <= iqlen < 2 ^ 28) (Liq : iqlen <= zlen iq) (Biq : bytes iq 0 iqlen).
Context (HIQ : eqm p (q * vbe iq 0 iqlen) 1).

(** The slot 3 becomes [(s1 - s2) * R mod p]. *)
Lemma combine_sub tmp : loaded tmp ->
  numat tmp fw (nlimbs q) (enc_bits (bitlen q)) S2 ->
  numat tmp (3 * fw) (nlimbs p) (enc_bits (bitlen p)) S1 ->
  ok (priv_diff fw tmp) (fun tmp' =>
    frame (3 * fw) 561 tmp tmp' /\
    numat tmp' (3 * fw) (nlimbs p) (enc_bits (bitlen p)) (((S1 - S2) * 2 ^ (31 * nlimbs p)) mod p)).
Proof.
  intros HL N2 N1. set (mp := drop (Z.to_nat (2 * fw)) tmp). set (s2 := drop (Z.to_nat fw) tmp).
  pose proof priv_sizes as (HT & Hnp & Hnq & Hp1 & Hq1 & Hf).
  pose proof (ld_len _ HL) as Lt. rewrite HT in Lt.
  destruct (loaded_mod tmp HL) as [_ (Mp & Vp & Hhp & Hp32)]. fold mp in Mp, Vp, Hhp, Hp32.
  unfold priv_diff. cstep. apply ok_view; [lia|]. fold s2. cstep. apply ok_view; [lia|]. fold mp.
  cstep. apply ok_at_ptr; [lia|].
  pose proof N2 as [_ I2 G2 V2]. fold s2 in I2, V2.
  assert (G2' : get s2 0 = enc_bits (bitlen q)) by (unfold s2; by rewrite get_drop, Z.add_0_r by lia).
  eapply ok_mono.
  { apply (br_i31_reduce_ok _ s2 mp (nlimbs p) (nlimbs q)); try done.
    - rewrite V2, G2', enc_bits_abits by apply bitlen_nonneg.
      pose proof (bitlen_bounds q ltac:(lia)). lia.
    - rewrite zlen_drop; lia. }
  intros t (HFt & Rt & Vt). rewrite V2, Vp in Vt. cbv beta.
  destruct (numat_splice tmp (5 * fw) t (nlimbs p) _ _ 0 (nlimbs p + 1) ltac:(lia) ltac:(lia) HFt
    (res_int _ _ _ Rt) (eq_trans (res_head _ _ _ Rt) Hhp) Vt) as [HF1 N5].
  set (tmp1 := splice tmp (5 * fw) t) in *. pose proof (frame_len _ _ _ _ HF1) as HL1.
  pose proof (numat_frame _ _ _ _ _ _ _ _ N1 HF1 ltac:(lia)) as N3.
  cstep. apply ok_view; [lia|]. cstep. apply ok_view; [lia|].
  pose proof (numat_residue _ _ _ _ _ mp N3 Hhp ltac:(lia)) as R3.
  pose proof (numat_residue _ _ _ _ _ mp N5 Hhp ltac:(rewrite Vp; apply Z.mod_pos_bound; lia)) as R5.
  pose proof (modsub_ok _ _ mp (nlimbs p) Mp R3 R5) as HM.
  apply ok_bind' in HM. cstep. eapply ok_mono; [exact HM|]. clear HM. intros [cc a'] HM. cbv beta iota in HM |- *.
  apply ok_bind' in HM. cstep. eapply ok_mono; [exact HM|]. clear HM. intros [c2 a] (HFa & Ra & Va). cbv beta iota.
  rewrite (num_val _ _ _ _ _ N3), (num_val _ _ _ _ _ N5), Vp in Va.
  cstep. eapply ok_mono; [by apply (br_i31_to_monty_ok a mp (nlimbs p))|].
  intros b (HFb & Rb & Vb). cbv beta. cstep.
  assert (HFs : frame 0 (nlimbs p + 1) (drop (Z.to_nat (3 * fw)) tmp1) b).
  { eapply frame_trans; eapply frame_weaken; [exact HFa|lia|lia|exact HFb|lia|lia]. }
  assert (Vb' : ival b (nlimbs p) = ((S1 - S2) * 2 ^ (31 * nlimbs p)) mod p).
  { rewrite Vb, Va, Vp.
    assert (E : eqm p ((S1 - S2 mod p) mod p * 2 ^ (31 * nlimbs p)) ((S1 - S2) * 2 ^ (31 * nlimbs p)))
      by by rewrite !eqm_mod.
    by destruct E. }
  destruct (numat_splice tmp1 (3 * fw) b (nlimbs p) _ _ 0 (nlimbs p + 1) ltac:(lia) ltac:(lia) HFs
    (res_int _ _ _ Rb) (eq_trans (res_head _ _ _ Rb) Hhp) Vb') as [HF2 N6].
  split; [|done]. eapply frame_trans; eapply frame_weaken; [exact HF1|lia|lia|exact HF2|lia|lia].
Qed.
(** The slot 5 becomes [h = (s1 - s2) * iq mod p]. *)
Lemma combine_mul tmp A : loaded tmp -> word 31 p0i ->
  (get tmp (2 * fw + 1) * p0i + 1) mod 2 ^ 31 = 0 ->
  numat tmp (3 * fw) (nlimbs p) (enc_bits (bitlen p)) (A * 2 ^ (31 * nlimbs p) mod p) ->
  ok (priv_mul fw p0i iq iqlen tmp) (fun tmp' =>
    frame (4 * fw) 561 tmp tmp' /\ exists h, 0 <= h < p /\ eqm p h (A * vbe iq 0 iqlen) /\
      numat tmp' (5 * fw) (nlimbs p) (enc_bits (bitlen p)) h).
Proof.
  intros HL Hw Hinv N3. pose proof priv_sizes as (HT & Hnp & Hnq & Hp1 & Hq1 & Hf).
  pose proof (ld_len _ HL) as Lt. rewrite HT in Lt.
  destruct (loaded_mod tmp HL) as [_ (Mp & Vp & Hhp & _)].
  unfold priv_mul. cstep. apply ok_view; [lia|]. cstep. apply ok_at_ptr; [lia|].
  eapply ok_mono; [apply (br_i31_decode_reduce_ok _ iq iqlen _ (nlimbs p)); try done; [lia|lia|rewrite zlen_drop; lia]|].
  intros u (HFu & Ru & Vu). cbv beta. rewrite Vp in Vu.
  destruct (numat_splice tmp (4 * fw) u (nlimbs p) _ _ 0 (nlimbs p + 1) ltac:(lia) ltac:(lia) HFu
    (res_int _ _ _ Ru) (eq_trans (res_head _ _ _ Ru) Hhp) Vu) as [HF1 N4].
  set (tmp1 := splice tmp (4 * fw) u) in *. pose proof (frame_len _ _ _ _ HF1) as HL1.
  pose proof (loaded_frame tmp tmp1 _ _ HL HF1 ltac:(lia)) as LD1.
  pose proof (numat_frame _ _ _ _ _ _ _ _ N3 HF1 ltac:(lia)) as N3'.
  destruct (loaded_mod tmp1 LD1) as [_ (Mp1 & Vp1 & Hhp1 & _)].
  cstep. apply ok_view; [lia|]. cstep. apply ok_view; [lia|]. cstep. apply ok_view; [lia|].
  apply ok_at_ptr; [lia|].
  pose proof (numat_residue _ _ _ _ _ (drop (Z.to_nat (2 * fw)) tmp1) N4 Hhp1
    ltac:(rewrite Vp1; apply Z.mod_pos_bound; lia)) as R4.
  eapply ok_mono.
  { apply (br_i31_montymul_ok _ _ _ _ (nlimbs p) p0i Mp1); [by destruct N3'|done|rewrite zlen_drop; lia|done|].
    rewrite get_drop, (frame_get _ _ _ _ _ HF1) by lia. done. }
  rewrite Vp1, (num_val _ _ _ _ _ N3'), (num_val _ _ _ _ _ N4).
  intros w (HFw & Rw & Ew). cbv beta.
  destruct (numat_splice tmp1 (5 * fw) w (nlimbs p) _ _ 0 (nlimbs p + 1) ltac:(lia) ltac:(lia) HFw
    (res_int _ _ _ Rw) (eq_trans (res_head _ _ _ Rw) Hhp1) eq_refl) as [HF2 N5].
  split.
  { eapply frame_trans; eapply frame_weaken; [exact HF1|lia|lia|exact HF2|lia|lia]. }
  exists (ival w (nlimbs p)). split; [|split; [|done]].
  { pose proof (residue_bound _ _ _ Rw). by rewrite Vp1 in *. }
  destruct (pow2_invertible p (31 * nlimbs p) ltac:(lia) Hpo ltac:(lia)) as [r Hr].
  apply (eqm_cancel _ (2 ^ (31 * nlimbs p)) r); [done|]. rewrite Z.mul_comm, Ew, !eqm_mod.
  by replace (A * 2 ^ (31 * nlimbs p) * vbe iq 0 iqlen) with
    (2 ^ (31 * nlimbs p) * (A * vbe iq 0 iqlen)) by ring.
Qed.

Lemma priv_combine_ok tmp : loaded tmp -> word 31 p0i ->
  (get tmp (2 * fw + 1) * p0i + 1) mod 2 ^ 31 = 0 ->
  numat tmp fw (nlimbs q) (enc_bits (bitlen q)) S2 ->
  numat tmp (3 * fw) (nlimbs p) (enc_bits (bitlen p)) S1 ->
  ok (priv_combine fw p0i iq iqlen tmp) (fun tmp' => zlen tmp' = zlen tmp /\
    exists n S, int31 (drop (Z.to_nat fw) tmp') n /\ ival (drop (Z.to_nat fw) tmp') n = S /\
      0 <= S < p * q /\ S mod p = S1 /\ S mod q = S2).
Proof.
  intros HL Hw Hinv N2 N1. pose proof priv_sizes as (HT & Hnp & Hnq & Hp1 & Hq1 & Hf).
  pose proof (ld_len _ HL) as Lt. rewrite HT in Lt.
  unfold priv_combine. cstep. eapply ok_mono; [by apply (combine_sub tmp)|].
  intros tmp1 [HF1 N3]. cbv beta. pose proof (frame_len _ _ _ _ HF1) as HL1.
  pose proof (loaded_frame tmp tmp1 _ _ HL HF1 ltac:(lia)) as LD1.
  pose proof (numat_frame _ _ _ _ _ _ _ _ N2 HF1 ltac:(lia)) as N2'.
  pose proof (combine_mul tmp1 (S1 - S2) LD1 Hw) as HM.
  rewrite (frame_get _ _ _ _ _ HF1) in HM by lia. specialize (HM Hinv N3).
  cstep. eapply ok_mono; [exact HM|]. intros tmp2 (HF2 & h & Hh & Eh & N5). cbv beta.
  pose proof (frame_len _ _ _ _ HF2) as HL2.
  pose proof (loaded_frame tmp1 tmp2 _ _ LD1 HF2 ltac:(lia)) as LD2.
  pose proof (numat_frame _ _ _ _ _ _ _ _ N2' HF2 ltac:(lia)) as N2''.
  destruct (loaded_mod tmp2 LD2) as [(Mq & Vq & Hhq & _) _].
  cstep. apply ok_view; [lia|]. cstep. apply ok_view; [lia|]. apply ok_at_ptr; [lia|].
  destruct (crt_eq S1 S2 _ h HS2 HS1 HIQ Hh Eh) as (HS & Sp & Sq).
  pose proof (enc_small q Hq ltac:(lia)). pose proof (enc_small p Hp ltac:(lia)).
  assert (G5 : get (drop (Z.to_nat (5 * fw)) tmp2) 0 = enc_bits (bitlen p)).
  { rewrite get_drop, Z.add_0_r by lia. apply (num_head _ _ _ _ _ N5). }
  pose proof N2'' as [_ Id _ Vd]. pose proof N5 as [_ I5 _ V5].
  eapply ok_mono.
  { apply (br_i31_mulacc_int _ _ _ (nlimbs q) (nlimbs p)); [by destruct Mq|done|rewrite Hhq, G5; lia|
      by destruct Id|rewrite zlen_drop; lia|].
    rewrite Vd, Vq, V5, Hhq, G5, !enc_bits_abits by apply bitlen_nonneg.
    pose proof (bitlen_mul q p ltac:(lia) ltac:(lia)). lia. }
  rewrite Vd, Vq, V5. intros y (Iy & Vy & HFy). cbv beta.
  pose proof (frame_splice tmp2 fw 0 (nlimbs q + nlimbs p + 1) _ ltac:(lia) ltac:(lia) HFy) as HF3.
  split; [rewrite (frame_len _ _ _ _ HF3); lia|]. rewrite drop_splice by lia.
  eexists _, (S2 + q * h). split; [exact Iy|]. done.
Qed.
End Combine.
End Private.

(** * The whole operation *)

(** [private_key sk p q dp dq]: the key has the odd factors [p] and [q], the
    exponents [dp] and [dq], the exact length of [p * q] and an inverse of [q]
    modulo [p]; every number may have leading zeros. *)
Record private_key (sk : br_rsa_private_key) (p q dp dq : Z) : Prop := PrivateKey {
  priv_p : 1 < p /\ Z.odd p = true /\ vbe (sk_p sk) 0 (sk_plen sk) = p;
  priv_q : 1 < q /\ Z.odd q = true /\ vbe (sk_q sk) 0 (sk_qlen sk) = q;
  priv_dp : vbe (sk_dp sk) 0 (sk_dplen sk) = dp;
  priv_dq : vbe (sk_dq sk) 0 (sk_dqlen sk) = dq;
  priv_iq : eqm p (q * vbe (sk_iq sk) 0 (sk_iqlen sk)) 1;
  priv_bits : sk_n_bitlen sk = bitlen (p * q);
  priv_bp : 0 <= sk_plen sk <= zlen (sk_p sk) /\ bytes (sk_p sk) 0 (sk_plen sk);
  priv_bq : 0 <= sk_qlen sk <= zlen (sk_q sk) /\ bytes (sk_q sk) 0 (sk_qlen sk);
  priv_bdp : 0 <= sk_dplen sk < 2 ^ 29 /\ sk_dplen sk <= zlen (sk_dp sk) /\
    bytes (sk_dp sk) 0 (sk_dplen sk);
  priv_bdq : 0 <= sk_dqlen sk < 2 ^ 29 /\ sk_dqlen sk <= zlen (sk_dq sk) /\
    bytes (sk_dq sk) 0 (sk_dqlen sk);
  priv_biq : 0 <= sk_iqlen sk < 2 ^ 28 /\ sk_iqlen sk <= zlen (sk_iq sk) /\
    bytes (sk_iq sk) 0 (sk_iqlen sk)
}.

(** The words of a slot, and the size the stack buffer imposes. *)
Definition priv_fwlen (p q : Z) : Z :=
  even_words (dec_words (Z.max (byte_len p) (byte_len q))).

Lemma land_odd_bit a b (c : bool) : a .& 1 = 1 -> b .& 1 = 1 -> (a .& b) .& b2z c = b2z c.
Proof.
  intros Ha Hb. destruct c; simpl; [|apply Z.land_0_r]. by rewrite <- Z.land_assoc, Hb.
Qed.

Section Whole.
Context (sk : br_rsa_private_key) (p q dp dq : Z) (HK : private_key sk p q dp dq).

Lemma nlimbs_words V : 0 <= V -> nlimbs V <= dec_words (byte_len V).
Proof.
  intros HV. destruct (byte_len_bound V HV) as [_ H]. unfold nlimbs, dec_words.
  apply Z.div_le_mono; lia.
Qed.

Lemma priv_places : 1 < p -> 1 < q -> let fw := priv_fwlen p q in
  dec_words (byte_len p) + 1 <= fw /\ dec_words (byte_len q) + 1 <= fw /\
  even_words (nlimbs p) <= fw /\ even_words (nlimbs q) <= fw.
Proof.
  intros Hp Hq fw. pose proof (nlimbs_words p ltac:(lia)). pose proof (nlimbs_words q ltac:(lia)).
  assert (M : forall k, k <= Z.max (byte_len p) (byte_len q) ->
    dec_words k <= dec_words (Z.max (byte_len p) (byte_len q)))
    by (intros; unfold dec_words; apply Z.div_le_mono; lia).
  pose proof (M (byte_len p) ltac:(lia)). pose proof (M (byte_len q) ltac:(lia)).
  pose proof (even_words_bound (dec_words (Z.max (byte_len p) (byte_len q)))).
  unfold fw, priv_fwlen. split; [lia|]. split; [lia|]. split; apply even_words_mono; lia.
Qed.

Lemma br_rsa_i31_private_ok x tmp :
  let N := p * q in
  let xlen := byte_len N in
  let V := vbe x 0 xlen in
  xlen <= zlen x -> bytes x 0 xlen -> zlen tmp = 1 + priv_TLEN ->
  ok (br_rsa_i31_private x sk tmp) (fun '(r, x') =>
    if 6 * priv_fwlen p q <=? priv_TLEN
    then r = b2z (V <? N) /\ frame 0 xlen x x' /\ bytes x' 0 xlen /\
         0 <= vbe x' 0 xlen < N /\
         vbe x' 0 xlen mod p = V ^ dp mod p /\ vbe x' 0 xlen mod q = V ^ dq mod q
    else r = 0 /\ x' = x).
Proof.
  intros N xlen V Hx HB Ht.
  destruct HK as [(Hp & Hpo & Vp) (Hq & Hqo & Vq) Vdp Vdq HIQ Hbits [Lp Bp] [Lq Bq]
    (Ldp & Rdp & Bdp) (Ldq & Rdq & Bdq) (Liq & Riq & Biq)].
  unfold br_rsa_i31_private. cstep.
  eapply ok_mono; [apply skip_zeros_ok; done || lia|]. rewrite Vp.
  intros [po plen] (Hpo' & Hpl & Vpo & Hplen). cbv beta iota. cstep.
  eapply ok_mono; [apply skip_zeros_ok; done || lia|]. rewrite Vq.
  intros [qo qlen] (Hqo' & Hql & Vqo & Hqlen). cbv beta iota.
  assert (Hbl : 0 <= byte_len p /\ 0 <= byte_len q).
  { pose proof (bitlen_nonneg p). pose proof (bitlen_nonneg q). unfold byte_len. zn. }
  cstep. eapply (ok_mono _ (fun len => len = Z.max plen qlen)).
  { cstep; cstep; [apply Z.ltb_lt in H|apply Z.ltb_ge in H]; lia. }
  intros len ->. cbv beta. cstep. eapply ok_mono; [apply rsa_fwlen_ok; lia|].
  rewrite Hplen, Hqlen. fold (priv_fwlen p q). intros fw ->. cbv beta. set (fw := priv_fwlen p q).
  cstep.
  { apply Z.ltb_lt in H. rewrite (proj2 (Z.leb_gt _ _)) by lia. by cstep. }
  apply Z.ltb_ge in H. rewrite (proj2 (Z.leb_le _ _)) by lia. cbv zeta.
  rewrite <- Hplen, <- Hqlen.
  destruct (priv_places Hp Hq) as (Dp & Dq & Fp & Fq). fold fw in Dp, Dq, Fp, Fq.
  rewrite <- Hplen in Dp. rewrite <- Hqlen in Dq.
  destruct (priv_sizes p q fw Hp Hq Fp Fq H) as (HT & Hnp & Hnq & Hp1 & Hq1 & Hf).
  assert (Exlen : u32 (sk_n_bitlen sk + 7) >> 3 = xlen).
  { rewrite Hbits, shr_div, u32_small by (lia || (unfold word; pose proof (bitlen_nonneg N);
      pose proof (bitlen_prod p q ltac:(lia) ltac:(lia)); unfold nlimbs, N in *; zn)). done. }
  rewrite Exlen. assert (Hx0 : 0 <= xlen) by (pose proof (bitlen_nonneg N); unfold xlen, byte_len; zn).
  cstep. apply ok_view; [lia|]. cstep. apply ok_view; [lia|].
  cstep. eapply ok_mono.
  { apply (priv_load_ok p q fw Hp Hq Fp Fq H); rewrite ?zlen_drop, ?vbe_drop, ?Z.add_0_r by lia;
      done || lia || (apply bytes_drop; [lia..|]; eapply (limbs_sub 8 _ 0); [done|lia..]). }
  intros [r tmp1] [-> LD1]. cbv beta iota. fold V. pose proof LD1 as [L1 Q1 P1].
  cstep. eapply ok_mono.
  { eapply priv_power_ok with (p := p) (q := q) (f := q); done || lia. }
  intros [[r2 q0i] tmp2] (-> & _ & Oq & G2 & N2). cbv beta iota. fold V in N2. rewrite Vdq in N2.
  assert (LD2 : loaded p q fw tmp2) by (eapply power_q_done; [..|exact G2]; done).
  pose proof LD2 as [L2 Q2 P2]. cstep. eapply ok_mono.
  { eapply priv_power_ok with (p := p) (q := q) (f := p); done || lia. }
  intros [[r1 p0i] tmp3] (-> & Ep0 & Op & G3 & N3). cbv beta iota. fold V in N3. rewrite Vdp in N3.
  destruct (power_p_done p q fw Hp Hpo Hq Fp Fq H tmp2 tmp3 p0i _ LD2 G3 N2 Ep0) as (LD3 & S2 & I1 & I2).
  pose proof (ld_len _ _ _ _ LD3) as L3.
  cstep. eapply ok_mono.
  { eapply priv_combine_ok with (p := p) (q := q) (S1 := V ^ dp mod p) (S2 := V ^ dq mod q);
      try done; apply Z.mod_pos_bound; lia. }
  intros tmp4 (L4 & n & S & IS & VS & HS & Sp & Sq). cbv beta.
  cstep. apply ok_view; [lia|]. cstep.
  eapply ok_mono; [apply (br_i31_encode_ok x xlen _ n IS); lia|].
  intros x' (HFx & Bx' & Vx'). cbv beta. cstep.
  destruct (byte_len_bound N ltac:(unfold N; nia)) as [HN _].
  rewrite VS, Z.mod_small in Vx' by (fold N in HS; fold xlen in HN; lia).
  split; [|split; [done|split; [done|by rewrite Vx']]].
  etransitivity; [|by apply (land_odd_bit p0i q0i (V <? N))].
  f_equal.
  fold N. by destruct (V <? N).
Qed.
End Whole.

(** * Properties *)

(** [C28] [br_rsa_i31_private] returns 1 on a value below the modulus and 0 on
    another; in both cases what it leaves is the number below [p * q] that is
    [x^dp] modulo [p] and [x^dq] modulo [q].  A key too long for the stack
    buffer is refused and the value left as it is. *)
Theorem br_rsa_i31_private_correct sk p q dp dq x tmp :
  private_key sk p q dp dq -> byte_len (p * q) <= zlen x -> bytes x 0 (byte_len (p * q)) ->
  zlen tmp = 1 + priv_TLEN ->
  let xlen := byte_len (p * q) in
  let V := vbe x 0 xlen in
  ok (br_rsa_i31_private x sk tmp) (fun '(r, x') =>
    if 6 * priv_fwlen p q <=? priv_TLEN
    then r = b2z (V <? p * q) /\ frame 0 xlen x x' /\ bytes x' 0 xlen /\
         0 <= vbe x' 0 xlen < p * q /\
         vbe x' 0 xlen mod p = V ^ dp mod p /\ vbe x' 0 xlen mod q = V ^ dq mod q
    else r = 0 /\ x' = x).
Proof. intros HK. by apply br_rsa_i31_private_ok. Qed.

(** The key of 8 bits with the factors 13 and 11 and the public exponent 7. *)
Definition toy_sk : br_rsa_private_key :=
  RsaPrivateKey 8 [0; 13] 2 [11] 1 [7] 1 [3] 1 [6] 1.

Lemma toy_private : private_key toy_sk 13 11 7 3.
Proof.
  split; [done|done|done|done|by constructor|done|..];
    (split; [done|]); first [apply limbsb_limbs; done|split; [done|apply limbsb_limbs; done]].
Qed.

Lemma br_rsa_i31_private_correct_witness :
  ok (br_rsa_i31_private [42] toy_sk (replicate 561 0)) (fun '(r, x') =>
    r = 1 /\ frame 0 1 [42] x' /\ bytes x' 0 1 /\ 0 <= vbe x' 0 1 < 13 * 11 /\
    vbe x' 0 1 mod 13 = 42 ^ 7 mod 13 /\ vbe x' 0 1 mod 11 = 42 ^ 3 mod 11).
Proof.
  apply (br_rsa_i31_private_correct toy_sk 13 11 7 3 [42] (replicate 561 0) toy_private);
    [done|by apply limbsb_limbs|done].
Defined.
