(* ===== verification/RsaCt.v ===== *)
(** What the RSA private-key operation leaks: for a given key, all inputs give
    the same trace.  The accesses, the branches and even what
    [br_i31_modpow_opt] prints depend on the key only. *)
From stdpp Require Import base tactics list numbers option.
From Stdlib Require Import ZArith Lia.
From S2P Require Import Prelude CtPrims Limbs Codec Ccopy I31 I31Mul I31Codec I31Monty I31Modpow I31Ct I31CodecCt I31Opt RsaPub RsaPriv.
Local Open Scope Z_scope.
Local Open Scope cword_scope.

(** A call on a pointer, with what it leaves alone. *)
Lemma ct_at_ptr_below (P : list Z -> list Z -> Prop) a1 a2 o f1 f2 :
  ct P (f1 (drop (Z.to_nat o) a1)) (f2 (drop (Z.to_nat o) a2)) ->
  ct (fun x y => P (drop (Z.to_nat o) x) (drop (Z.to_nat o) y) /\
       (forall j, 0 <= j < o -> get x j = get a1 j) /\ (forall j, 0 <= j < o -> get y j = get a2 j))
    (at_ptr a1 o f1) (at_ptr a2 o f2).
Proof.
  intros H t1 x1 t2 x2 E1 E2. unfold at_ptr, view in E1, E2.
  destruct (in_range a1 o 0) eqn:R1; [|done]. destruct (in_range a2 o 0) eqn:R2; [|done].
  apply in_range_true in R1, R2. revert t1 x1 t2 x2 E1 E2.
  change (ct (fun x y => P (drop (Z.to_nat o) x) (drop (Z.to_nat o) y) /\
    (forall j, 0 <= j < o -> get x j = get a1 j) /\ (forall j, 0 <= j < o -> get y j = get a2 j))
    ((Some ([Ptr o], drop (Z.to_nat o) a1) : M (list Z)) ≫= fun v => f1 v ≫= fun d => mret (splice a1 o d))
    ((Some ([Ptr o], drop (Z.to_nat o) a2) : M (list Z)) ≫= fun v => f2 v ≫= fun d => mret (splice a2 o d))).
  eapply (ct_bind (fun x y => x = drop (Z.to_nat o) a1 /\ y = drop (Z.to_nat o) a2)).
  { intros t1 x1 t2 x2 [= <- <-] [= <- <-]. done. }
  intros ? ? [-> ->]. eapply ct_bind; [exact H|]. intros d1 d2 HP. apply ct_ret.
  rewrite !drop_splice by lia. split; [done|].
  split; intros j Hj; unfold splice; rewrite !get_lookup, lookup_app_l by (rewrite length_take; lia);
    by rewrite lookup_take_lt by lia.
Qed.

Lemma get_drop_0 a o : 0 <= o -> get (drop (Z.to_nat o) a) 0 = get a o.
Proof. intros. rewrite get_drop by lia. f_equal. lia. Qed.

Lemma priv_borrow_ct n1 n2 x1 x2 xlen :
  ct (fun _ _ => True) (priv_borrow n1 x1 xlen) (priv_borrow n2 x2 xlen).
Proof.
  unfold priv_borrow. apply ct_for_down; [done..|]. intros k r1 r2 _.
  do 2 (ct_step; [done|]). by ct_step.
Qed.

Section Slots.
Context (p q fw : Z).
Context (Hp : 1 < p) (Hpo : Z.odd p = true) (Hq : 1 < q) (Hqo : Z.odd q = true).
Context (Hfp : even_words (nlimbs p) <= fw) (Hfq : even_words (nlimbs q) <= fw).
Context (Hfw : 6 * fw <= priv_TLEN).

Lemma priv_product_ct tmp1 tmp2 : get tmp1 0 = get tmp2 0 -> get tmp1 fw = get tmp2 fw ->
  ct (fun a b => get a (2 * fw) = get b (2 * fw)) (priv_product fw tmp1) (priv_product fw tmp2).
Proof.
  intros E0 E1. destruct (priv_sizes p q fw Hp Hq Hfp Hfq Hfw) as (_ & _ & _ & _ & _ & Hf).
  unfold priv_product. eapply ct_bind; [apply ct_view|]. intros ? ? [-> ->]. ct_step; [done|].
  rewrite !get_drop_0, E0 by lia.
  eapply ct_bind; [apply ct_at_ptr_below, br_i31_zero_ct|]. intros u1 u2 (_ & G1 & G2).
  eapply ct_bind; [apply ct_view|]. intros ? ? [-> ->]. eapply ct_bind; [apply ct_view|]. intros ? ? [-> ->].
  eapply ct_mono; [apply ct_at_ptr_below, br_i31_mulacc_ct|].
  - rewrite !get_drop_0, G1, G2 by lia. done.
  - rewrite !get_drop_0, G1, G2 by lia. done.
  - intros a b (HE & _). by rewrite !get_drop_0 in HE by lia.
Qed.

Context (qs ps x1 x2 : list Z) (qlen plen xlen : Z).
Context (Hqs : 0 <= qlen <= zlen qs) (Hps : 0 <= plen <= zlen ps).
Context (Bqs : bytes qs 0 qlen) (Bps : bytes ps 0 plen).
Context (Vqs : vbe qs 0 qlen = q) (Vps : vbe ps 0 plen = p).
Context (Dq : dec_words qlen + 1 <= fw) (Dp : dec_words plen + 1 <= fw).
Context (Hx1 : 0 <= xlen <= zlen x1) (Bx1 : bytes x1 0 xlen).
Context (Hx2 : 0 <= xlen <= zlen x2) (Bx2 : bytes x2 0 xlen) (Hxlen : xlen = byte_len (p * q)).

Lemma priv_load_ct tmp1 tmp2 : zlen tmp1 = 1 + priv_TLEN -> zlen tmp2 = 1 + priv_TLEN ->
  ct (fun _ _ => True) (priv_load fw qs qlen ps plen x1 xlen tmp1) (priv_load fw qs qlen ps plen x2 xlen tmp2).
Proof.
  intros Ht1 Ht2. destruct (priv_sizes p q fw Hp Hq Hfp Hfq Hfw) as (HT & _ & _ & _ & _ & Hf).
  assert (Hdw : 0 <= dec_words qlen /\ 0 <= dec_words plen) by (unfold dec_words; zn).
  assert (Hql : qlen < 2 ^ 28 /\ plen < 2 ^ 28) by (unfold dec_words in *; zn).
  unfold priv_load. eapply ct_bind.
  { eapply ct_ok; [apply ct_at_ptr_below, br_i31_decode_ct|eapply decode_slot with (V := q)|
      eapply decode_slot with (V := q)]; done || lia. }
  intros u1 u2 (_ & [F1 Q1] & [F2 Q2]). pose proof (frame_len _ _ _ _ F1). pose proof (frame_len _ _ _ _ F2).
  eapply ct_bind.
  { eapply ct_ok; [apply ct_at_ptr_below, br_i31_decode_ct|eapply decode_slot with (V := p)|
      eapply decode_slot with (V := p)]; done || lia. }
  intros v1 v2 (_ & [F3 P3] & [F4 P4]).
  eapply ct_bind; [apply priv_product_ct|].
  { rewrite (frame_get _ _ _ _ _ F3), (frame_get _ _ _ _ _ F4) by lia.
    by rewrite (num_head _ _ _ _ _ Q1), (num_head _ _ _ _ _ Q2). }
  { by rewrite (num_head _ _ _ _ _ P3), (num_head _ _ _ _ _ P4). }
  intros w1 w2 HW. eapply ct_bind; [apply ct_view|]. intros ? ? [-> ->].
  eapply ct_bind; [apply ct_view|]. intros ? ? [-> ->].
  eapply ct_bind; [apply br_i31_encode_ct; by rewrite !get_drop_0 by lia|]. intros n1 n2 _.
  eapply ct_bind; [apply priv_borrow_ct|]. intros r1 r2 _.
  ct_step; [done..|]. intros. by ct_step.
Qed.

(** The exponentiation. *)
Section Power.
Context (f mo so t : Z) (Hf1 : 1 < f) (Hfo : Z.odd f = true) (Hff : even_words (nlimbs f) <= fw).
Context (Hplace : (mo = 0 /\ so = fw /\ t = 3 * fw) \/ (mo = 2 * fw /\ so = 3 * fw /\ t = 4 * fw)).
Context (d : list Z) (dlen : Z) (Hd : 0 <= dlen < 2 ^ 29) (Hdl : dlen <= zlen d) (Bd : bytes d 0 dlen).

Lemma priv_power_ct tmp1 tmp2 : zlen tmp1 = 1 + priv_TLEN -> zlen tmp2 = 1 + priv_TLEN ->
  factorat tmp1 mo f -> factorat tmp2 mo f ->
  ct (fun _ _ => True) (priv_power fw mo so t x1 xlen d dlen tmp1) (priv_power fw mo so t x2 xlen d dlen tmp2).
Proof.
  intros Ht1 Ht2 N1 N2. destruct (priv_sizes p q fw Hp Hq Hfp Hfq Hfw) as (HT & _ & _ & _ & _ & Hf).
  assert (Hmo : 0 <= mo /\ 0 <= so /\ 0 <= t /\ t <= 560) by lia.
  pose proof (even_words_bound (nlimbs f)).
  unfold priv_power. eapply ct_bind; [apply ct_view|]. intros ? ? [-> ->]. ct_step; [done|]. cbv zeta.
  eapply ct_bind.
  { eapply ct_ok.
    - apply ct_at_ptr_below, br_i31_decode_reduce_ct; rewrite get_drop_0 by lia;
        [by apply (num_head _ _ _ _ _ N1)|by apply (num_head _ _ _ _ _ N2)].
    - eapply power_base with (p := p) (q := q) (x := x1) (t := t); done || lia.
    - eapply power_base with (p := p) (q := q) (x := x2) (t := t); done || lia. }
  intros u1 u2 (_ & (F1 & M1 & V1) & (F2 & M2 & V2)).
  pose proof (frame_len _ _ _ _ F1) as L1. pose proof (frame_len _ _ _ _ F2) as L2.
  eapply ct_bind; [apply ct_view|]. intros ? ? [-> ->].
  eapply (ct_bind (fun a b => a = take (Z.to_nat fw) (drop (Z.to_nat so) u1) /\
    b = take (Z.to_nat fw) (drop (Z.to_nat so) u2))).
  { intros e1 y1 e2 y2. unfold region. repeat case_match; try done. by intros [= <- <-] [= <- <-]. }
  intros ? ? [-> ->]. eapply ct_bind; [apply ct_view|]. intros ? ? [-> ->].
  assert (H1 : modpow_args d (drop (Z.to_nat mo) u1) dlen (br_i31_ninv31 (get tmp1 (mo + 1))) (nlimbs f) /\
    residue (take (Z.to_nat fw) (drop (Z.to_nat so) u1)) (drop (Z.to_nat mo) u1) (nlimbs f)).
  { edestruct (power_args p q fw) with (x := x1) (f := f) (tmp := tmp1) (tmp1 := u1) (t := t) as (? & _ & _ & ? & _);
      done || lia. }
  assert (H2 : modpow_args d (drop (Z.to_nat mo) u2) dlen (br_i31_ninv31 (get tmp2 (mo + 1))) (nlimbs f) /\
    residue (take (Z.to_nat fw) (drop (Z.to_nat so) u2)) (drop (Z.to_nat mo) u2) (nlimbs f)).
  { edestruct (power_args p q fw) with (x := x2) (f := f) (tmp := tmp2) (tmp1 := u2) (t := t) as (? & _ & _ & ? & _);
      done || lia. }
  rewrite !get_drop by lia.
  eapply ct_bind.
  { apply (modpow_opt_same_ct d d _ _ dlen _ _ (nlimbs f)); try apply H1; try apply H2; try done;
      rewrite ?get_drop_0, ?zlen_drop by lia; try lia.
    by rewrite (num_head _ _ _ _ _ M1), (num_head _ _ _ _ _ M2). }
  intros [[r s3] t3] [[r' s3'] t3'] _. by ct_step.
Qed.
End Power.

(** The recombination. *)
Context (p0i p0i' : Z) (iq : list Z) (iqlen : Z).

Lemma priv_diff_ct h k tmp1 tmp2 : 0 < u32 (h + 31) >> 5 ->
  get tmp1 (2 * fw) = h -> get tmp2 (2 * fw) = h -> get tmp1 (3 * fw) = h -> get tmp2 (3 * fw) = h ->
  get tmp1 fw = k -> get tmp2 fw = k ->
  ct (fun _ _ => True) (priv_diff fw tmp1) (priv_diff fw tmp2).
Proof.
  intros Hh M1 M2 A1 A2 B1 B2. destruct (priv_sizes p q fw Hp Hq Hfp Hfq Hfw) as (HT & _ & _ & _ & _ & Hf).
  unfold priv_diff. do 2 (eapply ct_bind; [apply ct_view|]; intros ? ? [-> ->]).
  eapply ct_bind.
  { apply ct_at_ptr_below, (br_i31_reduce_ct h); rewrite ?get_drop_0 by lia; congruence || done. }
  intros u1 u2 (_ & G1 & G2). do 2 (eapply ct_bind; [apply ct_view|]; intros ? ? [-> ->]).
  assert (HH : heads h (drop (Z.to_nat (3 * fw)) u1) (drop (Z.to_nat (3 * fw)) u2))
    by (split; rewrite get_drop_0, ?G1, ?G2 by lia; done).
  eapply ct_bind; [by apply (br_i31_sub_ct h)|]. intros [c1 a1] [c2 a2] HA. simpl in HA.
  eapply ct_bind; [by apply (br_i31_add_ct h)|]. intros [c3 a3] [c4 a4] HA'. simpl in HA'.
  eapply ct_bind; [apply (br_i31_to_monty_ct h); [done|rewrite !get_drop_0 by lia; congruence]|].
  intros ? ? _. by ct_step.
Qed.

Lemma priv_mul_ct h tmp1 tmp2 : get tmp1 (2 * fw) = h -> get tmp2 (2 * fw) = h ->
  ct (fun a b => get a (5 * fw) = h /\ get b (5 * fw) = h)
    (priv_mul fw p0i iq iqlen tmp1) (priv_mul fw p0i' iq iqlen tmp2).
Proof.
  intros M1 M2. destruct (priv_sizes p q fw Hp Hq Hfp Hfq Hfw) as (HT & _ & _ & _ & _ & Hf).
  unfold priv_mul. eapply ct_bind; [apply ct_view|]. intros ? ? [-> ->].
  eapply ct_bind.
  { apply ct_at_ptr_below, (br_i31_decode_reduce_ct h); by rewrite get_drop_0 by lia. }
  intros u1 u2 (_ & G1 & G2). do 3 (eapply ct_bind; [apply ct_view|]; intros ? ? [-> ->]).
  eapply ct_mono; [apply ct_at_ptr_below, (br_i31_montymul_ct h); rewrite get_drop_0, ?G1, ?G2 by lia; done|].
  intros a b ([H1 H2] & _). by rewrite !get_drop_0 in H1, H2 by lia.
Qed.

Lemma priv_combine_ct S1 S2 S1' S2' tmp1 tmp2 :
  0 <= S1 < p -> 0 <= S2 < q -> 0 <= S1' < p -> 0 <= S2' < q ->
  0 <= iqlen < 2 ^ 28 -> iqlen <= zlen iq -> bytes iq 0 iqlen ->
  word 31 p0i -> (get tmp1 (2 * fw + 1) * p0i + 1) mod 2 ^ 31 = 0 ->
  word 31 p0i' -> (get tmp2 (2 * fw + 1) * p0i' + 1) mod 2 ^ 31 = 0 ->
  loaded p q fw tmp1 -> loaded p q fw tmp2 ->
  numat tmp1 fw (nlimbs q) (enc_bits (bitlen q)) S2 -> numat tmp1 (3 * fw) (nlimbs p) (enc_bits (bitlen p)) S1 ->
  numat tmp2 fw (nlimbs q) (enc_bits (bitlen q)) S2' -> numat tmp2 (3 * fw) (nlimbs p) (enc_bits (bitlen p)) S1' ->
  ct (fun a b => get a fw = get b fw) (priv_combine fw p0i iq iqlen tmp1) (priv_combine fw p0i' iq iqlen tmp2).
Proof.
  intros R1 R2 R1' R2' Hiq Liq Biq W1 I1 W2 I2 LD1 LD2 B1 A1 B2 A2.
  destruct (priv_sizes p q fw Hp Hq Hfp Hfq Hfw) as (HT & Hnp & _ & Hp1 & _ & Hf).
  pose proof (enc_small p q p Hp ltac:(lia)) as Hep.
  assert (Hh : 0 < u32 (enc_bits (bitlen p) + 31) >> 5).
  { pose proof (bitlen_nonneg p). rewrite len_nwords, enc_bits_nwords by lia. exact Hnp. }
  unfold priv_combine. eapply ct_bind.
  { eapply ct_ok; [apply (priv_diff_ct (enc_bits (bitlen p)) (enc_bits (bitlen q))); try done;
        first [apply (num_head _ _ _ _ _ (ld_p _ _ _ _ LD1))|apply (num_head _ _ _ _ _ (ld_p _ _ _ _ LD2))|
          apply (num_head _ _ _ _ _ A1)|apply (num_head _ _ _ _ _ A2)|
          apply (num_head _ _ _ _ _ B1)|apply (num_head _ _ _ _ _ B2)]
      |eapply (combine_sub p q fw) with (S1 := S1) (S2 := S2)
      |eapply (combine_sub p q fw) with (S1 := S1') (S2 := S2')]; done || lia. }
  intros u1 u2 (_ & [F1 N1] & [F2 N2]).
  assert (LU1 : loaded p q fw u1) by (eapply loaded_frame; [..|exact F1|]; done || lia).
  assert (LU2 : loaded p q fw u2) by (eapply loaded_frame; [..|exact F2|]; done || lia).
  eapply ct_bind.
  { eapply ct_ok; [apply (priv_mul_ct (enc_bits (bitlen p)));
        first [apply (num_head _ _ _ _ _ (ld_p _ _ _ _ LU1))|apply (num_head _ _ _ _ _ (ld_p _ _ _ _ LU2))]
      |eapply (combine_mul p q fw) with (A := S1 - S2)
      |eapply (combine_mul p q fw) with (A := S1' - S2')]; try (done || lia);
      [rewrite (frame_get _ _ _ _ _ F1) by lia|rewrite (frame_get _ _ _ _ _ F2) by lia]; done. }
  intros v1 v2 ([H1 H2] & [F3 _] & [F4 _]).
  assert (LV1 : loaded p q fw v1) by (eapply loaded_frame; [..|exact F3|]; done || lia).
  assert (LV2 : loaded p q fw v2) by (eapply loaded_frame; [..|exact F4|]; done || lia).
  do 2 (eapply ct_bind; [apply ct_view|]; intros ? ? [-> ->]).
  eapply ct_mono; [apply ct_at_ptr_below, br_i31_mulacc_ct|].
  - by rewrite !get_drop_0, (num_head _ _ _ _ _ (ld_q _ _ _ _ LV1)), (num_head _ _ _ _ _ (ld_q _ _ _ _ LV2)) by lia.
  - by rewrite !get_drop_0, H1, H2 by lia.
  - intros a b (HE & _). by rewrite !get_drop_0 in HE by lia.
Qed.
End Slots.

(** * The whole operation *)

Section Whole.
Context (sk : br_rsa_private_key) (p q dp dq : Z) (HK : private_key sk p q dp dq).

(** What follows the choice of the lengths, on two inputs. *)
Lemma private_body_ct fw qs qlen ps plen xlen x1 x2 tmp1 tmp2 : fw = priv_fwlen p q -> 6 * fw <= priv_TLEN ->
  0 <= qlen <= zlen qs -> 0 <= plen <= zlen ps -> bytes qs 0 qlen -> bytes ps 0 plen ->
  vbe qs 0 qlen = q -> vbe ps 0 plen = p -> qlen = byte_len q -> plen = byte_len p ->
  xlen = byte_len (p * q) -> 0 <= xlen <= zlen x1 -> xlen <= zlen x2 -> bytes x1 0 xlen -> bytes x2 0 xlen ->
  zlen tmp1 = 1 + priv_TLEN -> zlen tmp2 = 1 + priv_TLEN ->
  let body x tmp :=
    '(r, tmp) ← priv_load fw qs qlen ps plen x xlen tmp;
    '(r2, q0i, tmp) ← priv_power fw 0 fw (3 * fw) x xlen (sk_dq sk) (sk_dqlen sk) tmp;
    '(r1, p0i, tmp) ← priv_power fw (2 * fw) (3 * fw) (4 * fw) x xlen (sk_dp sk) (sk_dplen sk) tmp;
    tmp ← priv_combine fw p0i (sk_iq sk) (sk_iqlen sk) tmp;
    t3 ← view tmp fw;
    x ← br_i31_encode x xlen t3;
    mret (p0i .& q0i .& ((r .& r2) .& r1), x) : M (Z * list Z) in
  ct (fun _ _ => True) (body x1 tmp1) (body x2 tmp2).
Proof.
  destruct HK as [(Hp & Hpo & Vp) (Hq & Hqo & Vq) Vdp Vdq HIQ Hbits [Lp Bp] [Lq Bq]
    (Ldp & Rdp & Bdp) (Ldq & Rdq & Bdq) (Liq & Riq & Biq)].
  intros -> Hfw Lqs Lps Bqs Bps Vqs Vps Hqlen Hplen Hxl Hx1 Hx2 Bx1 Bx2 Ht1 Ht2 body. unfold body.
  destruct (priv_places p q Hp Hq) as (Dp & Dq & Fp & Fq). set (fw := priv_fwlen p q) in *.
  rewrite <- Hplen in Dp. rewrite <- Hqlen in Dq.
  destruct (priv_sizes p q fw Hp Hq Fp Fq Hfw) as (HT & Hnp & Hnq & Hp1 & Hq1 & Hf).
  eapply ct_bind.
  { eapply ct_ok; [eapply (priv_load_ct p q fw)|eapply (priv_load_ok p q fw)|eapply (priv_load_ok p q fw)];
      done || lia. }
  intros [r tmp] [r' tmp'] (_ & [_ LD1] & [_ LD2]).
  pose proof LD1 as [L1 Q1 P1]. pose proof LD2 as [L2 Q2 P2].
  eapply ct_bind.
  { eapply ct_ok; [eapply (priv_power_ct p q fw) with (f := q)|eapply (priv_power_ok p q fw) with (f := q)|
      eapply (priv_power_ok p q fw) with (f := q)]; done || lia. }
  intros [[r2 q0i] u1] [[r2' q0i'] u2] (_ & (_ & _ & _ & G1 & N1) & (_ & _ & _ & G2 & N2)).
  assert (LU1 : loaded p q fw u1) by (eapply power_q_done; [..|exact G1]; done).
  assert (LU2 : loaded p q fw u2) by (eapply power_q_done; [..|exact G2]; done).
  pose proof LU1 as [L3 Q3 P3]. pose proof LU2 as [L4 Q4 P4].
  eapply ct_bind.
  { eapply ct_ok; [eapply (priv_power_ct p q fw) with (f := p)|eapply (priv_power_ok p q fw) with (f := p)|
      eapply (priv_power_ok p q fw) with (f := p)]; done || lia. }
  intros [[r1 p0i] v1] [[r1' p0i'] v2] (_ & (_ & E3 & _ & G3 & N3) & (_ & E4 & _ & G4 & N4)).
  destruct (power_p_done p q fw Hp Hpo Hq Fp Fq Hfw _ _ _ _ LU1 G3 N1 E3) as (LD3 & S3 & I1 & I2).
  destruct (power_p_done p q fw Hp Hpo Hq Fp Fq Hfw _ _ _ _ LU2 G4 N2 E4) as (LD4 & S4 & I3 & I4).
  eapply ct_bind.
  { eapply (priv_combine_ct p q fw); try done; try (apply Z.mod_pos_bound; lia). }
  intros w1 w2 HW. eapply ct_bind; [apply ct_view|]. intros ? ? [-> ->].
  eapply ct_bind; [apply br_i31_encode_ct; by rewrite !get_drop_0 by lia|]. intros ? ? _. by ct_step.
Qed.

Lemma br_rsa_i31_private_ct x1 x2 tmp1 tmp2 : let xlen := byte_len (p * q) in
  xlen <= zlen x1 -> bytes x1 0 xlen -> xlen <= zlen x2 -> bytes x2 0 xlen ->
  zlen tmp1 = 1 + priv_TLEN -> zlen tmp2 = 1 + priv_TLEN ->
  ct (fun _ _ => True) (br_rsa_i31_private x1 sk tmp1) (br_rsa_i31_private x2 sk tmp2).
Proof.
  intros xlen Hx1 Bx1 Hx2 Bx2 Ht1 Ht2. pose proof HK as HK'.
  destruct HK' as [(Hp & Hpo & Vp) (Hq & Hqo & Vq) _ _ _ Hbits [Lp Bp] [Lq Bq] _ _ _].
  unfold br_rsa_i31_private.
  eapply ct_bind.
  { eapply ct_ok; [apply ct_refl|apply (skip_zeros_ok _ (sk_p sk) 0 (sk_plen sk)); done || lia..]. }
  rewrite Vp. intros [po plen] ? (<- & (Hpo' & Hpl & Vpo & Hplen) & _).
  eapply ct_bind.
  { eapply ct_ok; [apply ct_refl|apply (skip_zeros_ok _ (sk_q sk) 0 (sk_qlen sk)); done || lia..]. }
  rewrite Vq. intros [qo qlen] ? (<- & (Hqo' & Hql & Vqo & Hqlen) & _).
  assert (Hbl : 0 <= byte_len p /\ 0 <= byte_len q).
  { pose proof (bitlen_nonneg p). pose proof (bitlen_nonneg q). unfold byte_len. zn. }
  assert (HM : ok (If qlen <? plen Then mret plen Else mret qlen) (fun len => len = Z.max plen qlen)).
  { cstep; cstep; [apply Z.ltb_lt in H|apply Z.ltb_ge in H]; lia. }
  eapply ct_bind; [eapply ct_ok; [apply ct_refl|exact HM|exact HM]|]. intros len ? (<- & -> & _).
  eapply ct_bind; [eapply ct_ok; [apply ct_refl|apply rsa_fwlen_ok; lia..]|].
  rewrite Hplen, Hqlen. fold (priv_fwlen p q). intros f ? (<- & -> & _).
  rewrite <- Hplen, <- Hqlen.
  ct_step; [done|intros _; by ct_step|intros Hlt]. apply Z.ltb_ge in Hlt. cbv zeta.
  do 2 (eapply ct_bind; [apply ct_view|]; intros ? ? [-> ->]).
  assert (Exlen : u32 (sk_n_bitlen sk + 7) >> 3 = xlen).
  { destruct (priv_places p q Hp Hq) as (_ & _ & Fp & Fq).
    destruct (priv_sizes p q _ Hp Hq Fp Fq Hlt) as (HT & Hnp & Hnq & Hp1 & Hq1 & Hf).
    rewrite Hbits, shr_div, u32_small by (lia || (unfold word; pose proof (bitlen_nonneg (p * q));
      pose proof (bitlen_prod p q ltac:(lia) ltac:(lia)); unfold nlimbs in *; zn)). done. }
  rewrite Exlen. assert (Hx0 : 0 <= xlen) by (pose proof (bitlen_nonneg (p * q)); unfold xlen, byte_len; zn).
  eapply (private_body_ct (priv_fwlen p q)); try done; try lia; rewrite ?zlen_drop, ?vbe_drop, ?Z.add_0_r by lia;
    done || lia || (apply bytes_drop; [lia..|]; eapply (limbs_sub 8 _ 0); [done|lia..]).
Qed.
End Whole.

(** * Property *)

(** [C8] For a given key, [br_rsa_i31_private] leaks the same trace on all
    inputs and for all contents of its stack buffer: neither its accesses and
    branches nor what [br_i31_modpow_opt] prints depend on the value that is
    deciphered or signed. *)
Theorem br_rsa_i31_private_input_independent sk p q dp dq x1 x2 tmp1 tmp2 :
  private_key sk p q dp dq ->
  byte_len (p * q) <= zlen x1 -> bytes x1 0 (byte_len (p * q)) ->
  byte_len (p * q) <= zlen x2 -> bytes x2 0 (byte_len (p * q)) ->
  zlen tmp1 = 1 + priv_TLEN -> zlen tmp2 = 1 + priv_TLEN ->
  exists t, trace (br_rsa_i31_private x1 sk tmp1) = Some t /\
            trace (br_rsa_i31_private x2 sk tmp2) = Some t.
Proof.
  intros HK H1 B1 H2 B2 T1 T2. eapply ct_trace; [by apply (br_rsa_i31_private_ct sk p q dp dq HK)|..].
  - by apply (br_rsa_i31_private_ok sk p q dp dq HK).
  - by apply (br_rsa_i31_private_ok sk p q dp dq HK).
Qed.

Lemma br_rsa_i31_private_input_independent_witness :
  exists t, trace (br_rsa_i31_private [42] toy_sk (replicate 561 0)) = Some t /\
            trace (br_rsa_i31_private [17; 3] toy_sk (replicate 561 7)) = Some t.
Proof.
  apply (br_rsa_i31_private_input_independent toy_sk 13 11 7 3 _ _ _ _ toy_private);
    first [done|by apply limbsb_limbs].
Defined.
