(* ===== verification/Hash.v ===== *)
(** Hash functions: the interface [br_hash_class] promises to its clients, the
    Merkle-Damgard construction as a specification, and the buffering code the
    MD5, SHA-1 and SHA-2 implementations share ([src/hash/md5.c], [sha1.c],
    [sha2small.c], [sha2big.c]), proved to refine it.

    The specification is a function from byte strings to byte strings; a
    context represents the string that has been injected so far. *)
From stdpp Require Import base tactics list numbers option.
From Stdlib Require Import ZArith Lia.
From S2P Require Import Prelude CtPrims Limbs Codec.
Local Open Scope Z_scope.
Local Open Scope cword_scope.

(** * Byte strings *)

(** [slice a o n]: the [n] cells of [a] from [o]. *)
Definition slice (a : list Z) (o n : Z) : list Z := take (Z.to_nat n) (drop (Z.to_nat o) a).

Definition byte_string (s : list Z) : Prop := Forall (word 8) s.

Lemma zlen_slice a o n : 0 <= o -> 0 <= n -> o + n <= zlen a -> zlen (slice a o n) = n.
Proof. intros. unfold slice. rewrite length_take, length_drop. lia. Qed.

Lemma get_slice a o n i : 0 <= o -> 0 <= i < n -> get (slice a o n) i = get a (o + i).
Proof.
  intros. unfold slice. rewrite !get_lookup, lookup_take_lt, lookup_drop by lia. do 2 f_equal. lia.
Qed.

Lemma get_app_l a b i : 0 <= i < zlen a -> get (a ++ b) i = get a i.
Proof. intros. rewrite !get_lookup, lookup_app_l by lia. done. Qed.

Lemma get_app_r a b i : zlen a <= i -> get (a ++ b) i = get b (i - zlen a).
Proof. intros. rewrite !get_lookup, lookup_app_r by lia. do 2 f_equal. lia. Qed.

Lemma zlen_app (a b : list Z) : zlen (a ++ b) = zlen a + zlen b.
Proof. rewrite length_app. lia. Qed.

Lemma get_replicate n v i : 0 <= i < Z.of_nat n -> get (replicate n v) i = v.
Proof. intros. rewrite get_lookup, lookup_replicate_2 by lia. done. Qed.

Lemma bytes_get s : byte_string s <-> bytes s 0 (zlen s).
Proof.
  unfold byte_string. rewrite Forall_lookup. split.
  - intros H i Hi. rewrite get_lookup.
    destruct (lookup_lt_is_Some_2 s (Z.to_nat i) ltac:(lia)) as [x Hx]. rewrite Hx. by eapply H.
  - intros H i x Hx. specialize (H (Z.of_nat i)). rewrite get_lookup, Nat2Z.id, Hx in H.
    apply H. apply lookup_lt_Some in Hx. lia.
Qed.

Lemma byte_string_app a b : byte_string (a ++ b) <-> byte_string a /\ byte_string b.
Proof. apply Forall_app. Qed.

Lemma byte_string_slice a o n : 0 <= o -> 0 <= n -> bytes a o n -> o + n <= zlen a ->
  byte_string (slice a o n).
Proof.
  intros Ho Hn HB Hl. apply bytes_get. rewrite zlen_slice by lia. intros i Hi.
  rewrite get_slice by lia. apply HB. lia.
Qed.

Lemma slice_all a n : zlen a = n -> slice a 0 n = a.
Proof. intros. unfold slice. simpl. rewrite drop_0. apply take_ge. lia. Qed.

Lemma slice_nil a o : slice a o 0 = [].
Proof. done. Qed.

Lemma slice_split a o n k : 0 <= o -> 0 <= n -> 0 <= k -> o + n + k <= zlen a ->
  slice a o (n + k) = slice a o n ++ slice a (o + n) k.
Proof.
  intros. apply list_eq_get; rewrite ?zlen_app, !zlen_slice by lia; [done|].
  intros i Hi. rewrite get_slice by lia. destruct (Z.lt_ge_cases i n).
  - by rewrite get_app_l, get_slice by (rewrite ?zlen_slice; lia).
  - rewrite get_app_r, zlen_slice, get_slice by (rewrite ?zlen_slice; lia). f_equal. lia.
Qed.

(** A block move writes a slice. *)
Lemma slice_blit_in d dp s sp n : 0 <= dp -> 0 <= sp -> 0 <= n -> dp + n <= zlen d -> sp + n <= zlen s ->
  slice (blit d dp s sp n) dp n = slice s sp n.
Proof.
  intros. apply list_eq_get; rewrite !zlen_slice by (rewrite ?zlen_blit; lia); [done|].
  intros i Hi. rewrite !get_slice, get_blit_in by lia. f_equal. lia.
Qed.

Lemma slice_frame a b o n lo hi :
  frame lo hi a b -> 0 <= o -> 0 <= n -> o + n <= zlen a -> o + n <= lo \/ hi <= o ->
  slice b o n = slice a o n.
Proof.
  intros HF ? ? ? ?. pose proof (frame_len _ _ _ _ HF).
  apply list_eq_get; rewrite !zlen_slice by lia; [done|].
  intros i Hi. rewrite !get_slice by lia. apply (frame_get lo hi); [done|lia..].
Qed.

(** A buffer is its slice and its frame. *)
Lemma frame_slice_eq pos len (data d1 d2 : list Z) : 0 <= pos -> 0 <= len -> pos + len <= zlen data ->
  frame pos (pos + len) data d1 -> frame pos (pos + len) data d2 ->
  slice d1 pos len = slice d2 pos len -> d1 = d2.
Proof.
  intros Hp Hlen Hl [L1 G1] [L2 G2] HS. apply list_eq_get; [congruence|]. intros i Hi.
  destruct (Z.lt_ge_cases i pos); [by rewrite G1, G2 by lia|].
  destruct (Z.lt_ge_cases i (pos + len)); [|by rewrite G1, G2 by lia].
  replace i with (pos + (i - pos)) by lia. by rewrite <- !(get_slice _ pos len), HS by lia.
Qed.

Lemma frame_blit d dp s sp n : 0 <= dp -> 0 <= sp -> 0 <= n -> dp + n <= zlen d -> sp + n <= zlen s ->
  frame dp (dp + n) d (blit d dp s sp n).
Proof.
  intros. split; [by apply zlen_blit|]. intros j Hj Hj'. apply get_blit_out; lia.
Qed.

Lemma frame_fillz d dp v n : 0 <= dp -> 0 <= n -> dp + n <= zlen d ->
  frame dp (dp + n) d (fillz d dp v n).
Proof.
  intros. split; [by apply zlen_fillz|]. intros j Hj Hj'. apply get_fillz_out; lia.
Qed.

(** * Words as byte strings *)

(** The bytes of the first [num] words of [v], [sz] bytes each. *)
Definition be_words (sz : Z) (v : list Z) (num : Z) : list Z :=
  map (fun k => u8 (get v (Z.of_nat k / sz) >> (8 * (sz - 1 - Z.of_nat k mod sz))))
    (seq 0 (Z.to_nat (sz * num))).
Definition le_words (sz : Z) (v : list Z) (num : Z) : list Z :=
  map (fun k => u8 (get v (Z.of_nat k / sz) >> (8 * (Z.of_nat k mod sz))))
    (seq 0 (Z.to_nat (sz * num))).

Lemma zlen_be_words sz v num : 0 <= sz * num -> zlen (be_words sz v num) = sz * num.
Proof. intros. unfold be_words. rewrite length_map, length_seq. lia. Qed.

Lemma zlen_le_words sz v num : 0 <= sz * num -> zlen (le_words sz v num) = sz * num.
Proof. intros. unfold le_words. rewrite length_map, length_seq. lia. Qed.

Lemma map_u8_bytes (f : nat -> Z) l : byte_string (map (fun k => u8 (f k)) l).
Proof. apply Forall_map, Forall_true. intros. apply u8_word. Qed.

Lemma be_words_bytes sz v num : byte_string (be_words sz v num).
Proof. apply map_u8_bytes. Qed.
Lemma le_words_bytes sz v num : byte_string (le_words sz v num).
Proof. apply map_u8_bytes. Qed.

Lemma u8_bits x u : 0 <= u -> u8 (x >> (8 * u)) = bits x (8 * u) 8.
Proof. intros. unfold bits. by rewrite shr_div by lia. Qed.

Lemma split_index sz k num : 0 < sz -> 0 <= k < sz * num ->
  0 <= k / sz < num /\ 0 <= k mod sz < sz /\ k = sz * (k / sz) + k mod sz.
Proof.
  intros. pose proof (Z.div_mod k sz ltac:(lia)). pose proof (Z.mod_pos_bound k sz ltac:(lia)).
  assert (0 <= k / sz) by (apply Z.div_pos; lia). repeat split; nia.
Qed.

(** A range of encoded words is their byte string, in either order. *)
Lemma slice_be_words d o sz v num : 0 < sz -> 0 <= o -> 0 <= num -> o + sz * num <= zlen d ->
  bytes d o (sz * num) -> (forall i, 0 <= i < num -> vbe d (o + sz * i) sz = get v i) ->
  slice d o (sz * num) = be_words sz v num.
Proof.
  intros Hsz Ho Hn Hl HB HV. apply list_eq_get; rewrite zlen_slice by nia.
  { by rewrite zlen_be_words by nia. }
  intros k Hk. rewrite get_slice by lia. unfold be_words. rewrite get_map_seq, Z2Nat.id by lia.
  destruct (split_index sz k num Hsz Hk) as (Hi & Hj & Ek).
  set (i := k / sz) in *. set (j := k mod sz) in *. rewrite u8_bits, <- HV by lia.
  rewrite <- vbe_bits by (lia || (apply (limbs_sub 8 d o (sz * num)); [done|nia..])). f_equal. lia.
Qed.

Lemma slice_le_words d o sz v num : 0 < sz -> 0 <= o -> 0 <= num -> o + sz * num <= zlen d ->
  bytes d o (sz * num) -> (forall i, 0 <= i < num -> vle d (o + sz * i) sz = get v i) ->
  slice d o (sz * num) = le_words sz v num.
Proof.
  intros Hsz Ho Hn Hl HB HV. apply list_eq_get; rewrite zlen_slice by nia.
  { by rewrite zlen_le_words by nia. }
  intros k Hk. rewrite get_slice by lia. unfold le_words. rewrite get_map_seq, Z2Nat.id by lia.
  destruct (split_index sz k num Hsz Hk) as (Hi & Hj & Ek).
  set (i := k / sz) in *. set (j := k mod sz) in *. rewrite u8_bits, <- HV by lia.
  rewrite <- (val_bits 8 d _ sz) by (lia || (apply (limbs_sub 8 d o (sz * num)); [done|nia..])).
  f_equal. lia.
Qed.

Lemma range_enc_be {sz enc dec} {HC : WordCodec sz enc dec (fun a o => vbe a o sz)} d o v num :
  0 <= o -> 0 <= num -> num <= zlen v -> o + sz * num <= zlen d ->
  (forall i, 0 <= i < num -> word (8 * sz) (get v i)) ->
  ok (range_enc enc sz d o v num) (fun d' => frame o (o + sz * num) d d' /\
    slice d' o (sz * num) = be_words sz v num).
Proof.
  intros. eapply ok_mono; [by apply range_enc_ok|]. intros d' (HF & HB & HV). split; [done|].
  apply slice_be_words; try done; [by destruct HC|]. by rewrite (frame_len _ _ _ _ HF).
Qed.

Lemma range_enc_le {sz enc dec} {HC : WordCodec sz enc dec (fun a o => vle a o sz)} d o v num :
  0 <= o -> 0 <= num -> num <= zlen v -> o + sz * num <= zlen d ->
  (forall i, 0 <= i < num -> word (8 * sz) (get v i)) ->
  ok (range_enc enc sz d o v num) (fun d' => frame o (o + sz * num) d d' /\
    slice d' o (sz * num) = le_words sz v num).
Proof.
  intros. eapply ok_mono; [by apply range_enc_ok|]. intros d' (HF & HB & HV). split; [done|].
  apply slice_le_words; try done; [by destruct HC|]. by rewrite (frame_len _ _ _ _ HF).
Qed.

(** What is written in a frame, as a block move. *)
Lemma frame_is_blit d d' o n s : 0 <= o -> 0 <= n -> o + n <= zlen d -> zlen s = n ->
  frame o (o + n) d d' -> slice d' o n = s -> d' = blit d o s 0 n.
Proof.
  intros Ho Hn Hl Hs HF HS. pose proof (frame_len _ _ _ _ HF).
  apply list_eq_get; [by rewrite zlen_blit by lia|]. intros i Hi.
  destruct (Z.lt_ge_cases i o); [|destruct (Z.lt_ge_cases i (o + n))].
  - rewrite get_blit_out by lia. apply (frame_get _ _ _ _ _ HF); lia.
  - rewrite get_blit_in, <- HS, get_slice by lia. f_equal. lia.
  - rewrite get_blit_out by lia. apply (frame_get _ _ _ _ _ HF); lia.
Qed.

Lemma enc64be_blit d o x : 0 <= o -> o + 8 <= zlen d -> word 64 x ->
  ok (br_enc64be d o x) (fun d' => d' = blit d o (be_words 8 [x] 1) 0 8).
Proof.
  intros Ho Hl Hx. eapply ok_mono; [by apply codec64be|]. cbv beta. intros d' (HF & HB & HV).
  apply frame_is_blit; try done; try lia. change 8 with (8 * 1) at 1. apply slice_be_words; try done; try lia.
  - by rewrite (frame_len _ _ _ _ HF).
  - intros i Hi. assert (i = 0) as -> by lia. by rewrite Z.add_0_r.
Qed.

Lemma enc64le_blit d o x : 0 <= o -> o + 8 <= zlen d -> word 64 x ->
  ok (br_enc64le d o x) (fun d' => d' = blit d o (le_words 8 [x] 1) 0 8).
Proof.
  intros Ho Hl Hx. eapply ok_mono; [by apply codec64le|]. cbv beta. intros d' (HF & HB & HV).
  apply frame_is_blit; try done; try lia. change 8 with (8 * 1) at 1. apply slice_le_words; try done; try lia.
  - by rewrite (frame_len _ _ _ _ HF).
  - intros i Hi. assert (i = 0) as -> by lia. by rewrite Z.add_0_r.
Qed.

(** * The interface

    [HashClass] holds the operations of a [br_hash_class]; [hash_block] and
    [hash_size] are read from its descriptor word ([block_size],
    [br_digest_size]), [hash_auto] is an automatic context not yet initialised.
    [HashSpec] is what they promise, with [digest] the hash
    function, [hstate] the running state after a message of whole blocks, and
    [hrep c msg] saying that the context [c] has received [msg]. *)
Class HashClass := {
  hctx : Type;
  hash_auto : hctx;
  hash_size : Z;
  hash_block : Z;
  hash_state_size : Z;
  hash_init : hctx -> M hctx;
  hash_update : hctx -> list Z -> Z -> Z -> M hctx;
  hash_out : hctx -> list Z -> Z -> M (list Z);
  hash_state : hctx -> list Z -> Z -> M (list Z * Z);
  hash_set_state : hctx -> list Z -> Z -> Z -> M hctx
}.

Class HashSpec (HC : HashClass) := {
  hshape : hctx -> Prop;
  hrep : hctx -> list Z -> Prop;
  digest : list Z -> list Z;
  hstate : list Z -> list Z;
  hash_size_pos : 0 < hash_size <= 64;
  hash_block_pos : 64 <= hash_block <= 128;
  hash_state_size_pos : 0 < hash_state_size <= 64;
  digest_len msg : zlen (digest msg) = hash_size;
  digest_bytes msg : byte_string (digest msg);
  hash_auto_ok : hshape hash_auto;
  hrep_shape c msg : hrep c msg -> hshape c;
  hrep_bytes c msg : hrep c msg -> byte_string msg;
  hash_init_ok c : hshape c -> ok (hash_init c) (fun c' => hrep c' []);
  hash_update_ok c msg data o len :
    hrep c msg -> 0 <= o -> 0 <= len -> o + len <= zlen data -> bytes data o len ->
    ok (hash_update c data o len) (fun c' => hrep c' (msg ++ slice data o len));
  hash_out_ok c msg dst o :
    hrep c msg -> 0 <= o -> o + hash_size <= zlen dst ->
    ok (hash_out c dst o) (fun d => frame o (o + hash_size) dst d /\
      slice d o hash_size = digest msg);
  hash_state_ok c msg dst o :
    hrep c msg -> 0 <= o -> o + hash_state_size <= zlen dst ->
    ok (hash_state c dst o) (fun '(d, n) => frame o (o + hash_state_size) dst d /\
      n = u64 (zlen msg) /\
      (zlen msg mod hash_block = 0 -> slice d o hash_state_size = hstate msg));
  hash_set_state_ok c msg st o :
    hshape c -> byte_string msg -> zlen msg mod hash_block = 0 -> 0 <= o ->
    o + hash_state_size <= zlen st -> slice st o hash_state_size = hstate msg ->
    ok (hash_set_state c st o (u64 (zlen msg))) (fun c' => hrep c' msg)
}.

(** A message injected in chunks, and the output. *)
Fixpoint hash_updates {HC : HashClass} (c : hctx) (chunks : list (list Z)) : M hctx :=
  match chunks with
  | [] => mret c
  | d :: chunks => c ← hash_update c d 0 (zlen d); hash_updates c chunks
  end.
Definition hash_stream {HC : HashClass} (c : hctx) (chunks : list (list Z)) (dst : list Z) (o : Z)
    : M (list Z) :=
  c ← hash_init c;
  c ← hash_updates c chunks;
  hash_out c dst o.

Section Stream.
Context {HC : HashClass} {HS : HashSpec HC}.

Lemma hash_update_all c msg d : hrep c msg -> byte_string d ->
  ok (hash_update c d 0 (zlen d)) (fun c' => hrep c' (msg ++ d)).
Proof.
  intros HR HB. eapply ok_mono; [apply (hash_update_ok c msg); try done; [lia..|by apply bytes_get]|].
  cbv beta. intros c' H. by rewrite slice_all in H.
Qed.

Lemma hash_updates_ok chunks : forall c msg, hrep c msg -> Forall byte_string chunks ->
  ok (hash_updates c chunks) (fun c' => hrep c' (msg ++ concat chunks)).
Proof.
  induction chunks as [|d l IH]; intros c msg HR HF; cbn [hash_updates].
  - cstep. cbn [concat]. by rewrite app_nil_r.
  - apply Forall_cons_iff in HF as [Hd Hl]. cstep. eapply ok_mono; [by apply hash_update_all|].
    intros c' HR'. eapply ok_mono; [by apply (IH c' (msg ++ d))|]. cbn [concat].
    intros c'' H. by rewrite <- (app_assoc msg) in H.
Qed.

(** Whatever the chunks, the output is the digest of their concatenation. *)
Lemma hash_stream_ok c chunks dst o :
  hshape c -> Forall byte_string chunks -> 0 <= o -> o + hash_size <= zlen dst ->
  ok (hash_stream c chunks dst o) (fun d =>
    frame o (o + hash_size) dst d /\ slice d o hash_size = digest (concat chunks)).
Proof.
  intros Hc HF Ho Hl. unfold hash_stream. cstep. eapply ok_mono; [by apply hash_init_ok|].
  intros c1 H1. cstep. eapply ok_mono; [by apply (hash_updates_ok chunks c1 [])|].
  intros c2 H2. by apply hash_out_ok.
Qed.
End Stream.

(** * The Merkle-Damgard construction *)

Section MerkleDamgard.
Context {V : Type} (B : Z) (comp : list Z -> V -> V).

(** The first [n] blocks of a message. *)
Fixpoint blocks (iv : V) (msg : list Z) (n : nat) : V :=
  match n with
  | O => iv
  | S n => comp (slice msg (B * Z.of_nat n) B) (blocks iv msg n)
  end.

(** The padding: a bit 1, zeros, and the bit length in [B - LF] bytes. *)
Definition md_pad (LF : Z) (lenf : Z -> list Z) (msg : list Z) : list Z :=
  msg ++ [0x80] ++ replicate (Z.to_nat ((LF - 1 - zlen msg) mod B)) 0 ++ lenf (u64 (zlen msg)).

(** The chaining value after the padded message. *)
Definition md_hash (iv : V) (LF : Z) (lenf : Z -> list Z) (msg : list Z) : V :=
  let p := md_pad LF lenf msg in blocks iv p (Z.to_nat (zlen p / B)).

Lemma blocks_ext iv a b n : 0 < B ->
  (forall i, 0 <= i < B * Z.of_nat n -> get a i = get b i) ->
  B * Z.of_nat n <= zlen a -> B * Z.of_nat n <= zlen b -> blocks iv a n = blocks iv b n.
Proof.
  intros HB. induction n as [|n IH]; intros HE Ha Hb; [done|]. cbn [blocks].
  rewrite IH by (intros; try apply HE; lia). f_equal.
  apply list_eq_get; rewrite !zlen_slice by lia; [done|].
  intros i Hi. rewrite !get_slice by lia. apply HE. nia.
Qed.

Lemma blocks_app iv a b n : 0 < B -> B * Z.of_nat n <= zlen a ->
  blocks iv (a ++ b) n = blocks iv a n.
Proof.
  intros HB Hn. apply blocks_ext; [done| |rewrite zlen_app; lia|done].
  intros i Hi. apply get_app_l. lia.
Qed.
End MerkleDamgard.

(** * The buffering code *)

(** A context: the block being filled, the chaining value, and the number of
    bytes received ([br_md5_context] and the like). *)
Record mdctx (V : Type) := Mdctx { cbuf : list Z; cval : V; ccount : Z }.
Arguments Mdctx {V}. Arguments cbuf {V}. Arguments cval {V}. Arguments ccount {V}.

Section Md.
Context {V : Type}.
Context (B LF : Z).
Context (round : list Z -> V -> M V).
Context (enclen : list Z -> Z -> M (list Z)).
Context (encout : V -> list Z -> Z -> M (list Z)).

(** The [while] loop of the [update] functions; [early] says that the count is
    updated before the loop (SHA-2) and not in it (MD5, SHA-1). *)
Fixpoint md_update_loop (fuel : nat) (early : bool) (cc : mdctx V) (ptr : Z)
    (data : list Z) (pos len : Z) : M (mdctx V) :=
  match fuel with
  | O => None
  | S fuel =>
      If 0 <? len Then
        let clen := B - ptr in
        clen ← (If len <? clen Then mret len Else mret clen);
        buf ← memcpy (cbuf cc) ptr data pos clen;
        let ptr := ptr + clen in
        let count := if early then ccount cc else u64 (ccount cc + clen) in
        If ptr =? B Then
          val ← round buf (cval cc);
          md_update_loop fuel early (Mdctx buf val count) 0 data (pos + clen) (len - clen)
        Else
          md_update_loop fuel early (Mdctx buf (cval cc) count) ptr data (pos + clen) (len - clen)
      Else mret cc
  end.

Definition md_update (early : bool) (cc : mdctx V) (data : list Z) (pos len : Z) : M (mdctx V) :=
  let ptr := ccount cc .& (B - 1) in
  let cc := if early then Mdctx (cbuf cc) (cval cc) (u64 (ccount cc + len)) else cc in
  md_update_loop (S (Z.to_nat len)) early cc ptr data pos len.

(** The [out] functions, up to the length; [buf] is an automatic array. *)
Definition md_prepad (cc : mdctx V) : M (list Z * V) :=
  let buf := replicate (Z.to_nat B) 0 in
  let ptr := ccount cc .& (B - 1) in
  buf ← memcpy buf 0 (cbuf cc) 0 ptr;
  buf ← store buf ptr 0x80;
  let ptr := ptr + 1 in
  If LF <? ptr Then
    buf ← memset buf ptr 0 (B - ptr);
    val ← round buf (cval cc);
    buf ← memset buf 0 0 LF;
    mret (buf, val)
  Else
    buf ← memset buf ptr 0 (LF - ptr);
    mret (buf, cval cc).

Definition md_final (cc : mdctx V) : M V :=
  '(buf, val) ← md_prepad cc;
  buf ← enclen buf (ccount cc);
  round buf val.

Definition md_out (cc : mdctx V) (dst : list Z) (o : Z) : M (list Z) :=
  val ← md_final cc;
  encout val dst o.

(** ** What the parts must satisfy *)

Context (k : Z) (HB : B = 2 ^ k) (Hk : 6 <= k < 64) (HLF : 0 < LF < B).
Context (vok : V -> Prop) (comp : list Z -> V -> V).
Context (Hround : forall buf v, zlen buf = B -> byte_string buf -> vok v ->
  ok (round buf v) (fun v' => v' = comp buf v /\ vok v')).
Context (lenf : Z -> list Z) (Hlenf : forall c, zlen (lenf c) = B - LF /\ byte_string (lenf c)).
Context (Henclen : forall buf c, zlen buf = B -> word 64 c ->
  ok (enclen buf c) (fun b => b = blit buf LF (lenf c) 0 (B - LF))).
Context (iv : V) (Hiv : vok iv).

Lemma B_pos : 0 < B.
Proof. rewrite HB. apply Z.pow_pos_nonneg; lia. Qed.

(** The context holds a message: its complete blocks are in the chaining
    value, the rest is at the start of the buffer. *)
Record mdrep0 (cc : mdctx V) (msg : list Z) : Prop := Mdrep0 {
  rep_shape : zlen (cbuf cc) = B;
  rep_msg : byte_string msg;
  rep_vok : vok (cval cc);
  rep_val : cval cc = blocks B comp iv msg (Z.to_nat (zlen msg / B));
  rep_buf : slice (cbuf cc) 0 (zlen msg mod B) = slice msg (B * (zlen msg / B)) (zlen msg mod B)
}.
Record mdrep (cc : mdctx V) (msg : list Z) : Prop := Mdrep {
  rep_0 : mdrep0 cc msg;
  rep_count : ccount cc = u64 (zlen msg)
}.

Lemma ptr_mod n : u64 n .& (B - 1) = n mod B.
Proof.
  rewrite HB, land_mask by lia. unfold u64.
  assert (E : 2 ^ 64 = 2 ^ k * 2 ^ (64 - k)) by (rewrite <- Z.pow_add_r by lia; f_equal; lia).
  rewrite E, Z.rem_mul_r by (try apply Z.pow_pos_nonneg; try apply Z.pow_nonzero; lia).
  rewrite Z.mul_comm, Z.mod_add, Z.mod_mod by (apply Z.pow_nonzero; lia). done.
Qed.

(** The tail of a message, one chunk later. *)
Lemma tail_app msg d : 0 <= zlen d -> zlen msg mod B + zlen d <= B ->
  slice msg (B * (zlen msg / B)) (zlen msg mod B) ++ d =
  slice (msg ++ d) (B * (zlen msg / B)) (zlen msg mod B + zlen d).
Proof.
  intros Hd Hle. pose proof B_pos as HBp. pose proof (Z.div_mod (zlen msg) B ltac:(lia)) as E.
  pose proof (Z.mod_pos_bound (zlen msg) B HBp).
  assert (0 <= zlen msg / B) by (apply Z.div_pos; lia).
  set (q := zlen msg / B) in *. set (r := zlen msg mod B) in *.
  apply list_eq_get; rewrite zlen_app, !zlen_slice by (rewrite ?zlen_app; nia); [done|].
  intros i Hi. rewrite (get_slice (msg ++ d)) by nia. destruct (Z.lt_ge_cases i r).
  - rewrite get_app_l, get_slice, get_app_l by (rewrite ?zlen_slice; nia). done.
  - rewrite get_app_r, zlen_slice, get_app_r by (rewrite ?zlen_slice; nia). f_equal. lia.
Qed.

(** Absorbing a chunk that does not overflow the block. *)
Lemma absorb_part cc msg buf d c :
  mdrep0 cc msg -> zlen buf = B -> byte_string d -> zlen msg mod B + zlen d < B ->
  slice buf 0 (zlen msg mod B + zlen d) = slice (cbuf cc) 0 (zlen msg mod B) ++ d ->
  mdrep0 (Mdctx buf (cval cc) c) (msg ++ d) /\ zlen (msg ++ d) mod B = zlen msg mod B + zlen d.
Proof.
  intros [H1 H2 H3 H4 H5] Hbl Hd Hle HS. pose proof B_pos as HBp.
  pose proof (Z.div_mod (zlen msg) B ltac:(lia)) as E. pose proof (Z.mod_pos_bound (zlen msg) B HBp).
  assert (Eq : zlen (msg ++ d) / B = zlen msg / B).
  { rewrite zlen_app. symmetry. apply (Z.div_unique_pos _ _ _ (zlen msg mod B + zlen d)); lia. }
  assert (Er : zlen (msg ++ d) mod B = zlen msg mod B + zlen d).
  { rewrite zlen_app. symmetry. apply (Z.mod_unique_pos _ _ (zlen msg / B)); lia. }
  assert (0 <= zlen msg / B) by (apply Z.div_pos; lia).
  split; [|done]. split; cbn [cbuf cval]; try done.
  - by apply byte_string_app.
  - rewrite Eq, H4. symmetry. apply blocks_app; [done|]. nia.
  - rewrite Er, Eq, HS, H5. apply tail_app; lia.
Qed.

(** A chunk that completes the block. *)
Lemma full_block cc msg buf d :
  mdrep0 cc msg -> zlen buf = B -> zlen msg mod B + zlen d = B ->
  slice buf 0 B = slice (cbuf cc) 0 (zlen msg mod B) ++ d ->
  buf = slice (msg ++ d) (B * (zlen msg / B)) B.
Proof.
  intros [H1 H2 H3 H4 H5] Hbl Hle HS. pose proof B_pos as HBp.
  pose proof (Z.mod_pos_bound (zlen msg) B HBp).
  rewrite <- (slice_all buf B Hbl) at 1. rewrite HS, H5, tail_app by lia. by rewrite Hle.
Qed.

Lemma full_block_bytes msg d q : byte_string msg -> byte_string d -> 0 <= q ->
  B * q + B <= zlen (msg ++ d) -> byte_string (slice (msg ++ d) (B * q) B).
Proof.
  intros Hm Hd Hq Hl. pose proof B_pos as HBp. apply byte_string_slice; try nia.
  intros i Hi. apply bytes_get; [by apply byte_string_app|]. nia.
Qed.

Lemma absorb_full cc msg buf d c :
  mdrep0 cc msg -> zlen buf = B -> byte_string d -> zlen msg mod B + zlen d = B ->
  slice buf 0 B = slice (cbuf cc) 0 (zlen msg mod B) ++ d -> vok (comp buf (cval cc)) ->
  mdrep0 (Mdctx buf (comp buf (cval cc)) c) (msg ++ d) /\ zlen (msg ++ d) mod B = 0.
Proof.
  intros HR Hbl Hd Hle HS Hvok. pose proof (full_block cc msg buf d HR Hbl Hle HS) as Eb.
  destruct HR as [H1 H2 H3 H4 H5]. pose proof B_pos as HBp.
  pose proof (Z.div_mod (zlen msg) B ltac:(lia)) as E. pose proof (Z.mod_pos_bound (zlen msg) B HBp).
  assert (Eq : zlen (msg ++ d) / B = zlen msg / B + 1).
  { rewrite zlen_app. symmetry. apply (Z.div_unique_pos _ _ _ 0); lia. }
  assert (Er : zlen (msg ++ d) mod B = 0).
  { rewrite zlen_app. symmetry. apply (Z.mod_unique_pos _ _ (zlen msg / B + 1)); lia. }
  assert (0 <= zlen msg / B) by (apply Z.div_pos; lia).
  split; [|done]. split; cbn [cbuf cval]; try done; [by apply byte_string_app| |].
  - rewrite Eq. replace (Z.to_nat (zlen msg / B + 1)) with (S (Z.to_nat (zlen msg / B))) by lia.
    cbn [blocks]. rewrite Z2Nat.id by lia. rewrite <- Eb, H4.
    f_equal. symmetry. apply blocks_app; [done|]. lia.
  - by rewrite Er, !slice_nil.
Qed.

Lemma md_update_loop_ok fuel early cc msg data pos len :
  mdrep0 cc msg -> 0 <= pos -> 0 <= len < Z.of_nat fuel -> pos + len <= zlen data ->
  bytes data pos len -> word 64 (ccount cc) ->
  ok (md_update_loop fuel early cc (zlen msg mod B) data pos len) (fun cc' =>
    mdrep0 cc' (msg ++ slice data pos len) /\
    ccount cc' = if early then ccount cc else u64 (ccount cc + len)).
Proof.
  revert cc msg pos len. pose proof B_pos as HBp.
  induction fuel as [|fuel IH]; intros cc msg pos len HR Hpos Hlen Hl HD Hc; [lia|].
  cbn [md_update_loop]. apply ok_cond; intros H0.
  2:{ apply Z.ltb_ge in H0. assert (len = 0) as -> by lia. cstep. rewrite slice_nil, app_nil_r.
    split; [done|]. destruct early; [done|]. rewrite Z.add_0_r. symmetry. by apply u64_small. }
  apply Z.ltb_lt in H0. pose proof (Z.mod_pos_bound (zlen msg) B HBp) as Hr.
  set (r := zlen msg mod B) in *. cbv zeta. cstep.
  apply (ok_mono _ (fun clen => clen = Z.min len (B - r))).
  { apply ok_cond; intros Hm; cstep; [apply Z.ltb_lt in Hm|apply Z.ltb_ge in Hm]; lia. }
  intros clen Ec. assert (Hcl : 0 < clen <= len /\ r + clen <= B) by lia.
  pose proof (rep_shape _ _ HR) as Hsh. cstep. apply ok_memcpy; try lia.
  set (buf := blit (cbuf cc) r data pos clen). set (d := slice data pos clen).
  assert (Hd : zlen d = clen) by (apply zlen_slice; lia).
  assert (HDd : bytes data pos clen) by (apply (limbs_sub 8 data pos len); [done|lia..]).
  assert (Hdb : byte_string d) by (apply byte_string_slice; done || lia).
  assert (Hbl : zlen buf = B) by (unfold buf; rewrite zlen_blit; lia).
  assert (HS : slice buf 0 (r + clen) = slice (cbuf cc) 0 r ++ d).
  { rewrite slice_split by lia. f_equal.
    - apply (slice_frame _ _ 0 r r (r + clen)); try lia. apply frame_blit; lia.
    - apply slice_blit_in; lia. }
  assert (Ed : slice data pos len = d ++ slice data (pos + clen) (len - clen)).
  { unfold d. rewrite <- slice_split by lia. f_equal. lia. }
  assert (HD' : bytes data (pos + clen) (len - clen))
    by (apply (limbs_sub 8 data pos len); [done|lia..]).
  set (c' := if early then ccount cc else u64 (ccount cc + clen)).
  assert (Hc' : word 64 c') by (unfold c'; destruct early; auto with words).
  assert (Ec' : (if early then c' else u64 (c' + (len - clen))) =
    (if early then ccount cc else u64 (ccount cc + len))).
  { unfold c'. destruct early; [done|]. unfold u64. rewrite Z.add_mod_idemp_l by lia. f_equal. lia. }
  rewrite Ed, app_assoc. apply ok_cond; intros Hf.
  - apply Z.eqb_eq in Hf. rewrite Hf in HS.
    assert (Hfull : zlen msg mod B + zlen d = B) by (fold r; lia).
    pose proof (full_block cc msg buf d HR Hbl Hfull HS) as Eb.
    assert (Hbb : byte_string buf).
    { rewrite Eb. apply full_block_bytes; [by destruct HR|done|apply Z.div_pos; lia|].
      rewrite zlen_app. pose proof (Z.div_mod (zlen msg) B ltac:(lia)). lia. }
    cstep. eapply ok_mono; [apply (Hround buf (cval cc)); [done|done|by destruct HR]|].
    intros v [-> Hv]. destruct (absorb_full cc msg buf d c' HR Hbl Hdb Hfull HS Hv) as [HR' Em].
    rewrite <- Em. eapply ok_mono; [apply IH; cbn [ccount]; try done; lia|].
    cbn [ccount]. by rewrite Ec'.
  - apply Z.eqb_neq in Hf.
    destruct (absorb_part cc msg buf d c' HR Hbl Hdb) as [HR' Em]; [fold r; lia|by rewrite Hd|].
    replace (r + clen) with (zlen (msg ++ d) mod B) by (rewrite Em; fold r; lia).
    eapply ok_mono; [apply IH; cbn [ccount]; try done; lia|]. cbn [ccount]. by rewrite Ec'.
Qed.

Lemma md_update_ok early cc msg data pos len :
  mdrep cc msg -> 0 <= pos -> 0 <= len -> pos + len <= zlen data -> bytes data pos len ->
  ok (md_update early cc data pos len) (fun cc' => mdrep cc' (msg ++ slice data pos len)).
Proof.
  intros [HR HC] Hpos Hlen Hl HD. unfold md_update. rewrite HC, ptr_mod. cbv zeta.
  set (cc1 := if early then _ else _).
  assert (HR1 : mdrep0 cc1 msg) by (unfold cc1; destruct early; [|done]; by destruct HR).
  assert (HC1 : ccount cc1 = if early then u64 (zlen msg + len) else u64 (zlen msg)).
  { unfold cc1. destruct early; [|done]. cbn [ccount]. unfold u64. by rewrite Z.add_mod_idemp_l by lia. }
  eapply ok_mono; [apply md_update_loop_ok; try done; [lia|]|].
  { rewrite HC1. destruct early; auto with words. }
  intros cc' [HR' HC']. split; [done|]. rewrite zlen_app, zlen_slice, HC', HC1 by lia.
  destruct early; [done|]. unfold u64. by rewrite Z.add_mod_idemp_l by lia.
Qed.

(** The contents of the automatic buffer, with its first [r] bytes copied. *)
Lemma final_buf (c : list Z) r n : zlen c = B -> 0 <= r -> 0 <= n -> r + 1 + n <= B ->
  let b := fillz (upd (blit (replicate (Z.to_nat B) 0) 0 c 0 r) r 0x80) (r + 1) 0 n in
  zlen b = B /\ slice b 0 (r + 1 + n) = slice c 0 r ++ [0x80] ++ replicate (Z.to_nat n) 0.
Proof.
  intros Hc Hr Hn Hle b.
  assert (L0 : zlen (replicate (Z.to_nat B) 0) = B) by (rewrite length_replicate; lia).
  assert (L1 : zlen (blit (replicate (Z.to_nat B) 0) 0 c 0 r) = B) by (rewrite zlen_blit; lia).
  assert (L2 : zlen b = B) by (unfold b; rewrite zlen_fillz; rewrite ?zlen_upd; lia).
  split; [done|]. apply list_eq_get.
  { rewrite !zlen_app, !zlen_slice, length_replicate by lia. simpl length. lia. }
  rewrite zlen_slice by lia. intros i Hi. rewrite get_slice, Z.add_0_l by lia. unfold b.
  destruct (Z.lt_ge_cases i r).
  - rewrite get_fillz_out, get_upd_ne, get_blit_in by (rewrite ?zlen_upd; lia).
    rewrite get_app_l, get_slice by (rewrite ?zlen_slice; lia). f_equal. lia.
  - rewrite get_app_r, zlen_slice by (rewrite ?zlen_slice; lia).
    destruct (Z.eq_dec i r) as [->|].
    + rewrite get_fillz_out, get_upd_eq by (rewrite ?zlen_upd; lia). by rewrite Z.sub_diag.
    + rewrite get_fillz_in by (rewrite ?zlen_upd; lia).
      rewrite get_app_r by (simpl; lia). rewrite get_replicate; [done|]. simpl length. lia.
Qed.

(** The length field, after the zeros. *)
Lemma final_len buf lf s : zlen buf = B -> zlen lf = B - LF -> slice buf 0 LF = s ->
  let b := blit buf LF lf 0 (B - LF) in zlen b = B /\ slice b 0 B = s ++ lf.
Proof.
  intros Hb Hlf HS b. assert (Hl : zlen b = B) by (unfold b; rewrite zlen_blit; lia).
  split; [done|]. replace B with (LF + (B - LF)) by lia. rewrite slice_split by lia. f_equal.
  - rewrite <- HS. apply (slice_frame _ _ 0 LF LF (LF + (B - LF))); try lia. apply frame_blit; lia.
  - rewrite Z.add_0_l. unfold b. rewrite slice_blit_in by lia. by apply slice_all.
Qed.

Lemma byte_zeros n : byte_string (replicate n 0).
Proof. apply Forall_replicate. done. Qed.

(** The chaining value of a message made of whole blocks. *)
Lemma rep_whole cc p : mdrep0 cc p -> cval cc = blocks B comp iv p (Z.to_nat (zlen p / B)).
Proof. by intros []. Qed.

(** A whole block absorbed from the automatic buffer. *)
Lemma final_round cc msg buf d :
  mdrep0 cc msg -> zlen buf = B -> byte_string d -> zlen msg mod B + zlen d = B ->
  slice buf 0 B = slice (cbuf cc) 0 (zlen msg mod B) ++ d ->
  ok (round buf (cval cc)) (fun v =>
    mdrep0 (Mdctx buf v 0) (msg ++ d) /\ zlen (msg ++ d) mod B = 0).
Proof.
  intros HR Hbl Hd Hfull HS. pose proof B_pos as HBp.
  pose proof (full_block cc msg buf d HR Hbl Hfull HS) as Eb.
  assert (Hbb : byte_string buf).
  { rewrite Eb. apply full_block_bytes; [by destruct HR|done|apply Z.div_pos; lia|].
    rewrite zlen_app. pose proof (Z.div_mod (zlen msg) B ltac:(lia)). lia. }
  eapply ok_mono; [apply (Hround buf (cval cc)); [done|done|by destruct HR]|].
  intros v [-> Hv]. by apply absorb_full.
Qed.

(** The message, the bit 1 and the zeros. *)
Definition padded (msg : list Z) : list Z :=
  msg ++ [0x80] ++ replicate (Z.to_nat ((LF - 1 - zlen msg) mod B)) 0.

(** The last block lacks its length: [z] follows the whole blocks of [m]. *)
Definition prepadded (msg buf : list Z) (v : V) : Prop :=
  exists c m z, mdrep0 c m /\ cval c = v /\ m ++ z = padded msg /\ byte_string z /\
    zlen buf = B /\ zlen m mod B + zlen z = LF /\
    slice buf 0 LF = slice (cbuf c) 0 (zlen m mod B) ++ z.

Lemma prepad_one cc msg :
  mdrep0 cc msg -> let r := zlen msg mod B in r + 1 <= LF ->
  prepadded msg (fillz (upd (blit (replicate (Z.to_nat B) 0) 0 (cbuf cc) 0 r) r 0x80) (r + 1) 0
    (LF - (r + 1))) (cval cc).
Proof.
  intros HR r Hcase. pose proof B_pos as HBp. pose proof (Z.div_mod (zlen msg) B ltac:(lia)) as E.
  pose proof (Z.mod_pos_bound (zlen msg) B HBp) as Hr. fold r in E, Hr.
  destruct (final_buf (cbuf cc) r (LF - (r + 1))) as [Hl HS]; try lia; [by destruct HR|].
  replace (r + 1 + (LF - (r + 1))) with LF in HS by lia.
  assert (Ez : (LF - 1 - zlen msg) mod B = LF - (r + 1))
    by (symmetry; apply (Z.mod_unique_pos _ _ (- (zlen msg / B))); lia).
  exists cc, msg, ([0x80] ++ replicate (Z.to_nat (LF - (r + 1))) 0). split; [done|]. split; [done|].
  split; [unfold padded; by rewrite Ez|].
  split; [apply byte_string_app; split; [by repeat constructor|apply byte_zeros]|].
  split; [done|]. split; [|done]. fold r. rewrite zlen_app, length_replicate. simpl length. lia.
Qed.

Lemma prepad_two cc msg :
  mdrep0 cc msg -> let r := zlen msg mod B in LF < r + 1 ->
  let b1 := fillz (upd (blit (replicate (Z.to_nat B) 0) 0 (cbuf cc) 0 r) r 0x80) (r + 1) 0
    (B - (r + 1)) in
  ok (round b1 (cval cc)) (fun v => zlen b1 = B /\ prepadded msg (fillz b1 0 0 LF) v).
Proof.
  intros HR r Hcase b1. pose proof B_pos as HBp. pose proof (Z.div_mod (zlen msg) B ltac:(lia)) as E.
  pose proof (Z.mod_pos_bound (zlen msg) B HBp) as Hr. fold r in E, Hr.
  destruct (final_buf (cbuf cc) r (B - (r + 1))) as [Hl HS]; try lia; [by destruct HR|].
  fold b1 in Hl, HS. replace (r + 1 + (B - (r + 1))) with B in HS by lia.
  set (d1 := [0x80] ++ replicate (Z.to_nat (B - (r + 1))) 0) in *.
  assert (Hd1 : zlen d1 = B - r) by (unfold d1; rewrite zlen_app, length_replicate; simpl length; lia).
  eapply ok_mono; [apply (final_round cc msg b1 d1 HR Hl)|]; try done.
  { apply byte_string_app. split; [by repeat constructor|apply byte_zeros]. }
  { fold r. lia. }
  intros v [HR1 Hm1]. split; [done|].
  assert (Ez : (LF - 1 - zlen msg) mod B = B - r - 1 + LF)
    by (symmetry; apply (Z.mod_unique_pos _ _ (- (zlen msg / B) - 1)); lia).
  exists (Mdctx b1 v 0), (msg ++ d1), (replicate (Z.to_nat LF) 0). split; [done|]. split; [done|].
  split; [|split; [apply byte_zeros|split; [by rewrite zlen_fillz by lia|]]].
  - unfold padded, d1. rewrite Ez.
    replace (Z.to_nat (B - r - 1 + LF)) with (Z.to_nat (B - (r + 1)) + Z.to_nat LF)%nat by lia.
    by rewrite replicate_add, <- !app_assoc.
  - rewrite Hm1, length_replicate. split; [lia|]. rewrite slice_nil.
    apply list_eq_get; rewrite zlen_slice by (rewrite ?zlen_fillz; lia); [simpl; rewrite length_replicate; lia|].
    intros i Hi. rewrite get_slice, get_fillz_in by lia. simpl. rewrite get_replicate by lia. done.
Qed.

Lemma md_prepad_ok cc msg :
  mdrep cc msg -> ok (md_prepad cc) (fun '(buf, v) => prepadded msg buf v).
Proof.
  intros [HR HC]. pose proof (rep_shape _ _ HR) as H1. pose proof B_pos as HBp.
  unfold md_prepad. rewrite HC, ptr_mod. cbv zeta.
  pose proof (Z.mod_pos_bound (zlen msg) B HBp) as Hr.
  assert (L0 : zlen (replicate (Z.to_nat B) 0) = B) by (rewrite length_replicate; lia).
  cstep. apply ok_memcpy; try lia. cstep.
  apply ok_store; [rewrite zlen_blit; lia|]. apply ok_cond; intros Hc.
  - apply Z.ltb_lt in Hc. cstep. apply ok_memset; rewrite ?zlen_upd, ?zlen_blit; try lia.
    cstep. eapply ok_mono; [by apply prepad_two|]. cbv beta zeta. intros v [Hl HP].
    cstep. apply ok_memset; try lia. cstep. done.
  - apply Z.ltb_ge in Hc. cstep. apply ok_memset; rewrite ?zlen_upd, ?zlen_blit; try lia.
    cstep. by apply prepad_one.
Qed.

(** A length field completes the padding. *)
Lemma prepadded_round msg buf v lf :
  prepadded msg buf v -> zlen lf = B - LF -> byte_string lf ->
  ok (round (blit buf LF lf 0 (B - LF)) v) (fun v' =>
    v' = blocks B comp iv (padded msg ++ lf) (Z.to_nat (zlen (padded msg ++ lf) / B)) /\ vok v').
Proof.
  intros (c & m & z & HR & <- & HM & Hz & Hl & Hs & HS) Hlf Hb.
  destruct (final_len buf lf _ Hl Hlf HS) as [Hl2 HS2].
  eapply ok_mono; [apply (final_round c m _ (z ++ lf) HR Hl2)|].
  - by apply byte_string_app.
  - rewrite zlen_app. lia.
  - by rewrite HS2, app_assoc.
  - intros v' [[_ _ Hv1 Hv2 _] _]. rewrite <- HM, <- app_assoc. done.
Qed.

Lemma md_pad_padded msg : md_pad B LF lenf msg = padded msg ++ lenf (u64 (zlen msg)).
Proof. unfold md_pad, padded. by rewrite <- !app_assoc. Qed.

(** The final block or blocks are those of the padded message. *)
Lemma md_final_ok cc msg :
  mdrep cc msg -> ok (md_final cc) (fun v => v = md_hash B comp iv LF lenf msg /\ vok v).
Proof.
  intros HR. unfold md_final, md_hash. cstep. eapply ok_mono; [by apply md_prepad_ok|].
  intros [buf v] HP. destruct (Hlenf (u64 (zlen msg))) as [Hll Hlb]. rewrite md_pad_padded. cstep.
  eapply ok_mono.
  { apply Henclen; [by destruct HP as (? & ? & ? & ? & ? & ? & ? & ? & ?)|]. rewrite (rep_count _ _ HR). apply u64_word. }
  intros b ->. rewrite (rep_count _ _ HR). by apply prepadded_round.
Qed.

Lemma blocks_vok msg n : byte_string msg -> B * Z.of_nat n <= zlen msg ->
  vok (blocks B comp iv msg n).
Proof.
  intros Hm. pose proof B_pos as HBp. induction n as [|n IH]; intros Hn; cbn [blocks]; [done|].
  assert (Hs : zlen (slice msg (B * Z.of_nat n) B) = B) by (apply zlen_slice; nia).
  assert (Hb : byte_string (slice msg (B * Z.of_nat n) B)).
  { apply byte_string_slice; try nia. intros i Hi. apply (proj1 (bytes_get _) Hm). nia. }
  destruct (ok_inv _ _ (Hround _ _ Hs Hb (IH ltac:(lia)))) as (t & v & _ & -> & Hv). done.
Qed.

Lemma md_init_ok (cc : mdctx V) : zlen (cbuf cc) = B -> mdrep (Mdctx (cbuf cc) iv 0) [].
Proof.
  intros Hl. pose proof B_pos as HBp. split; [|done]. split; cbn [cbuf cval]; try done.
  - constructor.
Qed.
End Md.

(** * Words read back from their byte string *)

Lemma value_be_words {sz enc dec value} {HC : WordCodec sz enc dec value} f v num i :
  (forall d o, 0 <= o -> o + sz * num <= zlen d ->
    ok (range_enc enc sz d o v num) (fun d' => frame o (o + sz * num) d d' /\
      slice d' o (sz * num) = f)) ->
  0 <= i < num -> num <= zlen v -> (forall i, 0 <= i < num -> word (8 * sz) (get v i)) ->
  value f (sz * i) = get v i.
Proof.
  intros HF Hi Hv Hw. pose proof (codec_size (sz:=sz)) as Hsz.
  set (d := replicate (Z.to_nat (sz * num)) 0).
  assert (Hd : zlen d = sz * num) by (unfold d; rewrite length_replicate; nia).
  pose proof (range_enc_ok (HC:=HC) d 0 v num ltac:(lia) ltac:(lia) Hv ltac:(lia) Hw) as H1.
  pose proof (HF d 0 ltac:(lia) ltac:(lia)) as H2.
  destruct (ok_inv _ _ (ok_and _ _ _ H1 H2)) as (t & d' & _ & (HF' & _ & HV) & _ & HS).
  rewrite slice_all in HS by (rewrite (frame_len _ _ _ _ HF'); lia). subst d'.
  by rewrite <- (HV i Hi).
Qed.

(** What the hash functions use of a range codec: [wds v n] is the byte string
    of the first [n] words of [v]. *)
Class WordBytes (sz : Z) (enc : list Z -> Z -> list Z -> Z -> M (list Z))
    (dec : list Z -> Z -> list Z -> Z -> M (list Z)) (wds : list Z -> Z -> list Z) := {
  wb_size : 0 < sz;
  wb_len v n : 0 <= n -> zlen (wds v n) = sz * n;
  wb_bytes v n : byte_string (wds v n);
  wb_take v n k : 0 <= n <= k -> take (Z.to_nat (sz * n)) (wds v k) = wds v n;
  wb_enc d o v n : 0 <= o -> 0 <= n -> n <= zlen v -> o + sz * n <= zlen d ->
    (forall i, 0 <= i < n -> word (8 * sz) (get v i)) ->
    ok (enc d o v n) (fun d' => frame o (o + sz * n) d d' /\ slice d' o (sz * n) = wds v n);
  wb_dec v u n st o : 0 <= o -> 0 <= n -> n <= zlen v -> n <= zlen u -> o + sz * n <= zlen st ->
    (forall i, 0 <= i < n -> word (8 * sz) (get u i)) -> slice st o (sz * n) = wds u n ->
    ok (dec v n st o) (fun v' => frame 0 n v v' /\ forall i, 0 <= i < n -> get v' i = get u i)
}.

Lemma take_map_seq (f : nat -> Z) n k : (n <= k)%nat ->
  take n (map f (seq 0 k)) = map f (seq 0 n).
Proof.
  intros Hn. rewrite firstn_map. f_equal. replace k with (n + (k - n))%nat by lia.
  rewrite seq_app, take_app_le by (rewrite length_seq; lia). apply take_ge. rewrite length_seq. lia.
Qed.

Lemma dec_words_ok {sz enc dec value} {HC : WordCodec sz enc dec value} wds v u n st o :
  (forall i, 0 <= i < n -> value wds (sz * i) = get u i) -> byte_string wds -> zlen wds = sz * n ->
  0 <= o -> 0 <= n -> n <= zlen v -> o + sz * n <= zlen st -> slice st o (sz * n) = wds ->
  ok (range_dec dec sz v n st o) (fun v' => frame 0 n v v' /\
    forall i, 0 <= i < n -> get v' i = get u i).
Proof.
  intros HV HB HL Ho Hn Hv Hl HS. pose proof (codec_size (sz:=sz)) as Hsz.
  assert (HG : forall i, 0 <= i < sz * n -> get st (o + i) = get wds i)
    by (intros i Hi; rewrite <- HS, get_slice by lia; done).
  eapply ok_mono; [apply range_dec_ok; try done|].
  - intros i Hi. replace i with (o + (i - o)) by lia. rewrite HG by lia.
    apply (proj1 (bytes_get _) HB). lia.
  - intros v' [HF HG']. split; [done|]. intros i Hi. rewrite HG', <- HV by lia.
    apply codec_local. intros j Hj. rewrite <- HG by nia. f_equal. lia.
Qed.

#[export] Instance word_bytes_be {sz enc dec} {HC : WordCodec sz enc dec (fun a o => vbe a o sz)} :
  WordBytes sz (range_enc enc sz) (range_dec dec sz) (be_words sz).
Proof.
  pose proof (codec_size (sz:=sz)) as Hsz. split; try done.
  - intros. apply zlen_be_words. nia.
  - intros. apply be_words_bytes.
  - intros v n k Hk. apply take_map_seq. nia.
  - intros. by apply range_enc_be.
  - intros v u n st o Ho Hn Hv Hu Hl Hw HS. apply (dec_words_ok (HC:=HC) (be_words sz u n)); try done.
    + intros i Hi. apply (value_be_words (HC:=HC) _ u n i); try done.
      intros d o' Ho' Hl'. by apply range_enc_be.
    + apply be_words_bytes.
    + apply zlen_be_words. nia.
Qed.

#[export] Instance word_bytes_le {sz enc dec} {HC : WordCodec sz enc dec (fun a o => vle a o sz)} :
  WordBytes sz (range_enc enc sz) (range_dec dec sz) (le_words sz).
Proof.
  pose proof (codec_size (sz:=sz)) as Hsz. split; try done.
  - intros. apply zlen_le_words. nia.
  - intros. apply le_words_bytes.
  - intros v n k Hk. apply take_map_seq. nia.
  - intros. by apply range_enc_le.
  - intros v u n st o Ho Hn Hv Hu Hl Hw HS. apply (dec_words_ok (HC:=HC) (le_words sz u n)); try done.
    + intros i Hi. apply (value_be_words (HC:=HC) _ u n i); try done.
      intros d o' Ho' Hl'. by apply range_enc_le.
    + apply le_words_bytes.
    + apply zlen_le_words. nia.
Qed.

(** * A hash function of the library *)

(** What [md5.c], [sha1.c], [sha2small.c] and [sha2big.c] choose: the block
    size, the offset of the length, whether [update] counts first, the round
    function, the encoders, the initial value, the words of the state and of
    the output, their size. *)
Record md_desc := MdDesc {
  md_B : Z;
  md_LF : Z;
  md_early : bool;
  md_round : list Z -> list Z -> M (list Z);
  md_enclen : list Z -> Z -> M (list Z);
  md_enc : list Z -> Z -> list Z -> Z -> M (list Z);
  md_dec : list Z -> Z -> list Z -> Z -> M (list Z);
  md_iv : list Z;
  md_nv : Z;
  md_num : Z;
  md_sz : Z
}.

Section Functions.
Context (P : md_desc).

Definition md_init (cc : mdctx (list Z)) : M (mdctx (list Z)) :=
  val ← memcpy (cval cc) 0 (md_iv P) 0 (md_nv P);
  mret (Mdctx (cbuf cc) val 0).

Definition md_inject (cc : mdctx (list Z)) (data : list Z) (pos len : Z) : M (mdctx (list Z)) :=
  md_update (md_B P) (md_round P) (md_early P) cc data pos len.

Definition md_output (cc : mdctx (list Z)) (dst : list Z) (o : Z) : M (list Z) :=
  md_out (md_B P) (md_LF P) (md_round P) (md_enclen P)
    (fun val dst o => md_enc P dst o val (md_num P)) cc dst o.

Definition md_state (cc : mdctx (list Z)) (dst : list Z) (o : Z) : M (list Z * Z) :=
  dst ← md_enc P dst o (cval cc) (md_nv P);
  mret (dst, ccount cc).

Definition md_set_state (cc : mdctx (list Z)) (stb : list Z) (o count : Z) : M (mdctx (list Z)) :=
  val ← md_dec P (cval cc) (md_nv P) stb o;
  mret (Mdctx (cbuf cc) val count).

Definition md_class : HashClass := {|
  hctx := mdctx (list Z);
  hash_auto := Mdctx (replicate (Z.to_nat (md_B P)) 0) (replicate (Z.to_nat (md_nv P)) 0) 0;
  hash_size := md_sz P * md_num P;
  hash_block := md_B P;
  hash_state_size := md_sz P * md_nv P;
  hash_init := md_init;
  hash_update := md_inject;
  hash_out := md_output;
  hash_state := md_state;
  hash_set_state := md_set_state
|}.

(** ** What makes it a hash function *)

Definition md_vok (v : list Z) : Prop :=
  zlen v = md_nv P /\ forall i, 0 <= i < md_nv P -> word (8 * md_sz P) (get v i).

Class MdOk (comp : list Z -> list Z -> list Z) (lenf : Z -> list Z) (wds : list Z -> Z -> list Z) := {
  md_k : Z;
  md_B_k : md_B P = 2 ^ md_k;
  md_k_range : 6 <= md_k <= 7;
  md_LF_range : 0 < md_LF P < md_B P;
  md_round_ok buf v : zlen buf = md_B P -> byte_string buf -> md_vok v ->
    ok (md_round P buf v) (fun v' => v' = comp buf v /\ md_vok v');
  md_lenf_ok c : zlen (lenf c) = md_B P - md_LF P /\ byte_string (lenf c);
  md_enclen_ok buf c : zlen buf = md_B P -> word 64 c ->
    ok (md_enclen P buf c) (fun b => b = blit buf (md_LF P) (lenf c) 0 (md_B P - md_LF P));
  md_words :: WordBytes (md_sz P) (md_enc P) (md_dec P) wds;
  md_iv_ok : md_vok (md_iv P);
  md_num_range : 0 < md_num P <= md_nv P;
  md_size_range : md_sz P * md_nv P <= 64
}.
Context {comp lenf wds} {HM : MdOk comp lenf wds}.

Definition md_rep : mdctx (list Z) -> list Z -> Prop := mdrep (md_B P) md_vok comp (md_iv P).
Definition md_digest (msg : list Z) : list Z :=
  wds (md_hash (md_B P) comp (md_iv P) (md_LF P) lenf msg) (md_num P).
Definition md_hstate (msg : list Z) : list Z :=
  wds (blocks (md_B P) comp (md_iv P) msg (Z.to_nat (zlen msg / md_B P))) (md_nv P).

Lemma md_k6 : 6 <= md_k < 64.
Proof. pose proof md_k_range. lia. Qed.

Lemma md_init_rep c : zlen (cbuf c) = md_B P -> zlen (cval c) = md_nv P ->
  ok (md_init c) (fun c' => md_rep c' []).
Proof.
  intros H1 H2. unfold md_init. destruct md_iv_ok as [Hi _]. pose proof md_num_range. cstep.
  apply ok_memcpy; try lia. cstep.
  replace (blit (cval c) 0 (md_iv P) 0 (md_nv P)) with (md_iv P).
  - apply (md_init_ok (md_B P) md_k md_B_k md_k6); [apply md_iv_ok|done].
  - apply list_eq_get; [rewrite zlen_blit; lia|]. intros i Hi'. rewrite get_blit_in by lia. f_equal. lia.
Qed.

Lemma md_output_rep c msg dst o :
  md_rep c msg -> 0 <= o -> o + md_sz P * md_num P <= zlen dst ->
  ok (md_output c dst o) (fun d => frame o (o + md_sz P * md_num P) dst d /\
    slice d o (md_sz P * md_num P) = md_digest msg).
Proof.
  intros HR Ho Hl. unfold md_output, md_out. cstep. pose proof md_num_range.
  eapply ok_mono; [apply (md_final_ok (md_B P) (md_LF P) (md_round P) (md_enclen P) md_k md_B_k
    md_k6 md_LF_range md_vok comp md_round_ok lenf md_lenf_ok md_enclen_ok _ c msg HR)|].
  intros v [-> [Hv1 Hv2]]. apply wb_enc; try done; try lia. intros i Hi. apply Hv2. lia.
Qed.

Lemma md_state_rep c msg dst o :
  md_rep c msg -> 0 <= o -> o + md_sz P * md_nv P <= zlen dst ->
  ok (md_state c dst o) (fun '(d, n) => frame o (o + md_sz P * md_nv P) dst d /\ n = u64 (zlen msg) /\
    (zlen msg mod md_B P = 0 -> slice d o (md_sz P * md_nv P) = md_hstate msg)).
Proof.
  intros [[H1 H2 [Hv1 Hv2] H4 H5] HC] Ho Hl. unfold md_state. cstep. pose proof md_num_range.
  eapply ok_mono; [apply wb_enc; try done; lia|]. intros d [HF HS]. cstep.
  split; [done|]. split; [done|]. intros _. rewrite HS. unfold md_hstate. by rewrite H4.
Qed.

Lemma md_set_state_rep c msg st o :
  zlen (cbuf c) = md_B P -> zlen (cval c) = md_nv P -> byte_string msg ->
  zlen msg mod md_B P = 0 -> 0 <= o -> o + md_sz P * md_nv P <= zlen st ->
  slice st o (md_sz P * md_nv P) = md_hstate msg ->
  ok (md_set_state c st o (u64 (zlen msg))) (fun c' => md_rep c' msg).
Proof.
  intros Hb Hv Hm Hm0 Ho Hl HS. unfold md_set_state. cstep. pose proof md_num_range.
  set (u := blocks (md_B P) comp (md_iv P) msg (Z.to_nat (zlen msg / md_B P))).
  assert (Hu : md_vok u).
  { pose proof (B_pos (md_B P) md_k md_B_k md_k6) as HB.
    apply (blocks_vok (md_B P) (md_round P) md_k md_B_k md_k6 md_vok comp
      md_round_ok _ md_iv_ok); [done|].
    rewrite Z2Nat.id by (apply Z.div_pos; lia). apply Z.mul_div_le. lia. }
  destruct Hu as [Hu1 Hu2].
  eapply ok_mono; [apply (wb_dec _ u); try done; lia|]. intros v' [HF HG]. cstep.
  assert (v' = u) as ->.
  { apply list_eq_get; rewrite (frame_len _ _ _ _ HF); [lia|]. intros i Hi. apply HG. lia. }
  split; [|done]. split; cbn [cbuf cval]; try done. by rewrite Hm0, !slice_nil.
Qed.

Instance md_spec : HashSpec md_class.
Proof.
  assert (HBp : 64 <= md_B P <= 128).
  { pose proof md_k_range. assert (md_k = 6 \/ md_k = 7) as HK by lia.
    rewrite md_B_k. destruct HK as [-> | ->]; lia. }
  pose proof md_num_range as Hn. pose proof md_size_range as Hsz. pose proof (wb_size (sz:=md_sz P)).
  refine (Build_HashSpec md_class
    (fun c : mdctx (list Z) => zlen (cbuf c) = md_B P /\ zlen (cval c) = md_nv P)
    md_rep md_digest md_hstate _ HBp _ _ _ _ _ _ _ _ _ _ _).
  - cbn. nia.
  - cbn. nia.
  - intros msg. apply wb_len. lia.
  - intros msg. apply wb_bytes.
  - cbn [hash_auto md_class cbuf cval]. rewrite !length_replicate. lia.
  - intros c msg [[H1 _ [H2 _] _ _] _]. done.
  - intros c msg [[_ H1 _ _ _] _]. done.
  - intros c [H1 H2]. by apply md_init_rep.
  - intros c msg data o len HR Ho Hlen Hl HD.
    apply (md_update_ok (md_B P) (md_LF P) (md_round P) md_k md_B_k md_k6 md_LF_range md_vok comp
      md_round_ok (md_iv P) (md_early P) c); done.
  - intros c msg dst o. apply md_output_rep.
  - intros c msg dst o. apply md_state_rep.
  - intros c msg st o [H1 H2]. by apply md_set_state_rep.
Defined.
End Functions.
