(* ===== verification/Fips180.v ===== *)
(** The SHA-2 functions as FIPS 180-4 defines them, apart from any code: the
    logical functions (4.1), the constants as the digits of roots of primes
    (4.2, 5.3), the padding (5.1), the schedule and the rounds (6.2, 6.4). *)
From stdpp Require Import base tactics list numbers option.
From Stdlib Require Import ZArith Lia.
From S2P Require Import Prelude Limbs Codec Hash.
Local Open Scope Z_scope.
Local Open Scope cword_scope.

(** * Roots of primes *)

Definition is_prime (p : Z) : bool :=
  (2 <=? p) && forallb (fun d => negb (p mod Z.of_nat d =? 0)) (seq 2 (Z.to_nat p - 2)).

(** The first [n] primes from [p] on, with [fuel] candidates. *)
Fixpoint primes_from (fuel n : nat) (p : Z) : list Z :=
  match fuel, n with
  | S fuel, S m => if is_prime p then p :: primes_from fuel m (p + 1) else primes_from fuel n (p + 1)
  | _, _ => []
  end.
Definition primes (n : nat) : list Z := primes_from 500 n 2.

(** The cube root of [x] rounded down, bit by bit from the bit [k - 1]. *)
Fixpoint cbrt_from (k : nat) (r x : Z) : Z :=
  match k with
  | O => r
  | S k => let r' := r + 2 ^ Z.of_nat k in cbrt_from k (if r' ^ 3 <=? x then r' else r) x
  end.
Definition cbrt (x : Z) : Z := cbrt_from 80 0 x.

(** The first [w] bits of the fractional part of a root. *)
Definition sqrt_frac (w p : Z) : Z := Z.sqrt (p * 2 ^ (2 * w)) mod 2 ^ w.
Definition cbrt_frac (w p : Z) : Z := cbrt (p * 2 ^ (3 * w)) mod 2 ^ w.

Lemma cbrt_from_ok k : forall r x, 0 <= r -> r ^ 3 <= x < (r + 2 ^ Z.of_nat k) ^ 3 ->
  let c := cbrt_from k r x in 0 <= c /\ c ^ 3 <= x < (c + 1) ^ 3.
Proof.
  induction k as [|k IH]; intros r x Hr [H1 H2]; [done|]. cbn [cbrt_from].
  pose proof (Z.pow_pos_nonneg 2 (Z.of_nat k) ltac:(lia) ltac:(lia)).
  replace (2 ^ Z.of_nat (S k)) with (2 ^ Z.of_nat k + 2 ^ Z.of_nat k) in H2
    by (rewrite Nat2Z.inj_succ, Z.pow_succ_r by lia; lia).
  destruct (Z.leb_spec ((r + 2 ^ Z.of_nat k) ^ 3) x).
  - apply IH; [lia|]. split; [done|]. by rewrite <- Z.add_assoc.
  - by apply IH.
Qed.

(** It is the cube root. *)
Lemma cbrt_ok x : 0 <= x < 2 ^ 240 -> 0 <= cbrt x /\ cbrt x ^ 3 <= x < (cbrt x + 1) ^ 3.
Proof. intros Hx. apply (cbrt_from_ok 80 0 x); [done|]. change (0 ^ 3) with 0. change ((0 + 2 ^ Z.of_nat 80) ^ 3) with (2 ^ 240). lia. Qed.

(** * The functions *)

(** The word, the rounds, and the amounts of the rotations and shifts. *)
Record variant := Variant {
  v_w : Z;
  v_rounds : Z;
  v_S0 : Z * Z * Z;
  v_S1 : Z * Z * Z;
  v_s0 : Z * Z * Z;
  v_s1 : Z * Z * Z
}.
Definition words32 : variant := Variant 32 64 (2, 13, 22) (6, 11, 25) (7, 18, 3) (17, 19, 10).
Definition words64 : variant := Variant 64 80 (28, 34, 39) (14, 18, 41) (1, 8, 7) (19, 61, 6).

Section Sha2.
Context (V : variant).
Notation w := (v_w V).

Definition wW (x : Z) : Z := x mod 2 ^ w.
Definition SHR (n x : Z) : Z := x / 2 ^ n.
Definition ROTR (n x : Z) : Z := x / 2 ^ n .| (x * 2 ^ (w - n)) mod 2 ^ w.
Definition Ch (x y z : Z) : Z := (x .& y) .^ (Z.lnot x .& z).
Definition Maj (x y z : Z) : Z := (x .& y) .^ (x .& z) .^ (y .& z).
Definition Sigma (a : Z * Z * Z) (x : Z) : Z := ROTR a.1.1 x .^ ROTR a.1.2 x .^ ROTR a.2 x.
Definition sigma (a : Z * Z * Z) (x : Z) : Z := ROTR a.1.1 x .^ ROTR a.1.2 x .^ SHR a.2 x.

(** The fractional parts of the cube roots of the first primes. *)
Definition K : list Z := map (cbrt_frac w) (primes (Z.to_nat (v_rounds V))).

(** A word of a block. *)
Definition M_word (block : list Z) (t : Z) : Z := vbe block (w / 8 * t) (w / 8).

(** The message schedule, extended by [n] words. *)
Fixpoint schedule (block : list Z) (n : nat) : list Z :=
  match n with
  | O => map (fun i => M_word block (Z.of_nat i)) (seq 0 16)
  | S n =>
      let W := schedule block n in
      let t := 16 + Z.of_nat n in
      W ++ [wW (sigma (v_s1 V) (get W (t - 2)) + get W (t - 7) + sigma (v_s0 V) (get W (t - 15))
        + get W (t - 16))]
  end.

(** The eight working variables. *)
Definition regs : Type := Z * Z * Z * Z * Z * Z * Z * Z.

Definition sha_round (k W : list Z) (t : Z) (s : regs) : regs :=
  let '(a, b, c, d, e, f, g, h) := s in
  let T1 := h + Sigma (v_S1 V) e + Ch e f g + get k t + get W t in
  let T2 := Sigma (v_S0 V) a + Maj a b c in
  (wW (T1 + T2), a, b, c, wW (d + T1), e, f, g).

Fixpoint rounds (k W : list Z) (n : nat) (s : regs) : regs :=
  match n with
  | O => s
  | S n => sha_round k W (Z.of_nat n) (rounds k W n s)
  end.

Definition regs_of (H : list Z) : regs :=
  (get H 0, get H 1, get H 2, get H 3, get H 4, get H 5, get H 6, get H 7).
Definition compress (block H : list Z) : list Z :=
  let W := schedule block (Z.to_nat (v_rounds V - 16)) in
  let '(a, b, c, d, e, f, g, h) := rounds K W (Z.to_nat (v_rounds V)) (regs_of H) in
  [wW (get H 0 + a); wW (get H 1 + b); wW (get H 2 + c); wW (get H 3 + d);
   wW (get H 4 + e); wW (get H 5 + f); wW (get H 6 + g); wW (get H 7 + h)].

(** Blocks of 16 words; the padding ends with the length in bits, on two words. *)
Definition block_size : Z := 2 * w.
Definition sha_pad (msg : list Z) : list Z :=
  let field := w / 4 in
  msg ++ [0x80] ++ replicate (Z.to_nat ((block_size - field - 1 - zlen msg) mod block_size)) 0
    ++ be_words field [8 * zlen msg] 1.
Definition sha_hash (IV msg : list Z) (num : Z) : list Z :=
  let p := sha_pad msg in
  be_words (w / 8) (fold_left (fun H i => compress (slice p (block_size * Z.of_nat i) block_size) H)
    (seq 0 (Z.to_nat (zlen p / block_size))) IV) num.
End Sha2.

(** The initial values: the fractional parts of square roots of primes. *)
Definition IV_256 : list Z := map (sqrt_frac 32) (primes 8).
Definition IV_512 : list Z := map (sqrt_frac 64) (primes 8).
Definition IV_384 : list Z := map (sqrt_frac 64) (drop 8 (primes 16)).
(** The second 32 bits of these. *)
Definition IV_224 : list Z := map (fun x => x mod 2 ^ 32) IV_384.

Definition SHA224 (msg : list Z) : list Z := sha_hash words32 IV_224 msg 7.
Definition SHA256 (msg : list Z) : list Z := sha_hash words32 IV_256 msg 8.
Definition SHA384 (msg : list Z) : list Z := sha_hash words64 IV_384 msg 6.
Definition SHA512 (msg : list Z) : list Z := sha_hash words64 IV_512 msg 8.

(** The examples of the standard. *)
Example sha256_abc : SHA256 [0x61; 0x62; 0x63] = be_words 4
  [0xBA7816BF; 0x8F01CFEA; 0x414140DE; 0x5DAE2223; 0xB00361A3; 0x96177A9C; 0xB410FF61; 0xF20015AD] 8.
Proof. vm_compute. reflexivity. Qed.
