(* ===== verification/Sha2.v ===== *)
(** SHA-224, SHA-256 ([src/hash/sha2small.c]), SHA-384 and SHA-512
    ([src/hash/sha2big.c]).

    The two files have the same structure on words of 32 and 64 bits; the code
    is written once over the width, the rotation functions and the constants,
    and instantiated twice.  The compression function is proved equal to the
    one of FIPS 180-4 ([Fips180]), with its rotations and its constants; the four
    classes are instances of [HashSpec]. *)
From stdpp Require Import base tactics list numbers option.
From Stdlib Require Import ZArith Lia.
From S2P Require Import Prelude CtPrims Limbs Codec Hash Fips180.
Local Open Scope Z_scope.
Local Open Scope cword_scope.

(** * Code: the round function *)

Definition CH (x y z : Z) : Z := ((y .^ z) .& x) .^ z.
Definition MAJ (x y z : Z) : Z := (y .& z) .| ((y .| z) .& x).

(** The eight working variables. *)
Definition regs : Type := Z * Z * Z * Z * Z * Z * Z * Z.

(** The parameters of a SHA-2 function. *)
Record sha2_params := Sha2Params {
  s2_w : Z;                      (* bits in a word *)
  s2_nr : Z;                     (* rounds *)
  s2_bsg0 : Z -> Z;
  s2_bsg1 : Z -> Z;
  s2_ssg0 : Z -> Z;
  s2_ssg1 : Z -> Z;
  s2_K : list Z;
  s2_dec : list Z -> Z -> list Z -> Z -> M (list Z);
  s2_enc : list Z -> Z -> list Z -> Z -> M (list Z)
}.

Section Sha2.
Context (P : sha2_params).
Definition uW (x : Z) : Z := x mod 2 ^ s2_w P.

Definition SHA2_STEP (w : list Z) (A B C D E F G H j : Z) : M (Z * Z) :=
  kj ← load (s2_K P) j;
  wj ← load w j;
  let T1 := uW (H + s2_bsg1 P E + CH E F G + kj + wj) in
  let T2 := uW (s2_bsg0 P A + MAJ A B C) in
  mret (uW (D + T1), uW (T1 + T2)).

Definition sha2_steps8 (w : list Z) (i : Z) (s : regs) : M regs :=
  let '(a, b, c, d, e, f, g, h) := s in
  '(d, h) ← SHA2_STEP w a b c d e f g h (i + 0);
  '(c, g) ← SHA2_STEP w h a b c d e f g (i + 1);
  '(b, f) ← SHA2_STEP w g h a b c d e f (i + 2);
  '(a, e) ← SHA2_STEP w f g h a b c d e (i + 3);
  '(h, d) ← SHA2_STEP w e f g h a b c d (i + 4);
  '(g, c) ← SHA2_STEP w d e f g h a b c (i + 5);
  '(f, b) ← SHA2_STEP w c d e f g h a b (i + 6);
  '(e, a) ← SHA2_STEP w b c d e f g h a (i + 7);
  mret (a, b, c, d, e, f, g, h).

Definition sha2_sched (buf : list Z) : M (list Z) :=
  w ← s2_dec P (replicate (Z.to_nat (s2_nr P)) 0) 16 buf 0;
  for_up 16 (s2_nr P) (fun i w =>
    w2 ← load w (i - 2);
    w7 ← load w (i - 7);
    w15 ← load w (i - 15);
    w16 ← load w (i - 16);
    store w i (uW (s2_ssg1 P w2 + w7 + s2_ssg0 P w15 + w16))) w.

Definition add_to (val : list Z) (i x : Z) : M (list Z) :=
  v ← load val i;
  store val i (uW (v + x)).

Definition sha2_round (buf val : list Z) : M (list Z) :=
  w ← sha2_sched buf;
  a ← load val 0;
  b ← load val 1;
  c ← load val 2;
  d ← load val 3;
  e ← load val 4;
  f ← load val 5;
  g ← load val 6;
  h ← load val 7;
  '(a, b, c, d, e, f, g, h) ←
    for_n (Z.to_nat (s2_nr P / 8)) 0 8 (sha2_steps8 w) (a, b, c, d, e, f, g, h);
  val ← add_to val 0 a;
  val ← add_to val 1 b;
  val ← add_to val 2 c;
  val ← add_to val 3 d;
  val ← add_to val 4 e;
  val ← add_to val 5 f;
  val ← add_to val 6 g;
  add_to val 7 h.

(** * The code computes it *)

Lemma CH_Ch x y z : CH x y z = Ch x y z.
Proof.
  apply Z.bits_inj'. intros n Hn. unfold CH, Ch.
  rewrite ?Z.lxor_spec, ?Z.land_spec, ?Z.lxor_spec, ?Z.land_spec, Z.lnot_spec by done.
  by destruct (Z.testbit x n), (Z.testbit y n), (Z.testbit z n).
Qed.

Lemma MAJ_Maj x y z : MAJ x y z = Maj x y z.
Proof.
  apply Z.bits_inj'. intros n Hn. unfold MAJ, Maj.
  rewrite !Z.lxor_spec, !Z.lor_spec, !Z.land_spec, !Z.lor_spec.
  by destruct (Z.testbit x n), (Z.testbit y n), (Z.testbit z n).
Qed.

(** The parameters are those of a variant of the standard. *)
Context (V : variant).
Class Sha2Ok : Prop := {
  s2_w_is : s2_w P = v_w V;
  s2_nr_is : s2_nr P = v_rounds V;
  s2_bsg0_is x : s2_bsg0 P x = Sigma V (v_S0 V) x;
  s2_bsg1_is x : s2_bsg1 P x = Sigma V (v_S1 V) x;
  s2_ssg0_is x : s2_ssg0 P x = sigma V (v_s0 V) x;
  s2_ssg1_is x : s2_ssg1 P x = sigma V (v_s1 V) x;
  s2_K_is : s2_K P = K V;
  s2_w_pos : 0 < v_w V;
  s2_rounds : 16 <= v_rounds V /\ v_rounds V mod 8 = 0;
  s2_K_len : zlen (s2_K P) = v_rounds V;
  s2_w_8 : v_w V mod 8 = 0;
  s2_dec_ok v num buf : 0 <= num -> num <= zlen v -> v_w V / 8 * num <= zlen buf ->
    bytes buf 0 (v_w V / 8 * num) ->
    ok (s2_dec P v num buf 0) (fun v' => frame 0 num v v' /\
      forall i, 0 <= i < num -> get v' i = M_word V buf i)
}.
Context {HP : Sha2Ok}.

Lemma uW_wW x : uW x = wW V x.
Proof. unfold uW, wW. by rewrite s2_w_is. Qed.

Lemma wW_add x y : wW V (x + wW V y) = wW V (x + y).
Proof. unfold wW. pose proof s2_w_pos as Hw. apply Z.add_mod_idemp_r. apply Z.pow_nonzero; lia. Qed.

Lemma wW_add_l x y : wW V (wW V x + y) = wW V (x + y).
Proof. by rewrite Z.add_comm, wW_add, Z.add_comm. Qed.

Lemma wW_word x : word (s2_w P) (wW V x).
Proof. pose proof s2_w_pos. rewrite s2_w_is. apply Z.mod_pos_bound, Z.pow_pos_nonneg; lia. Qed.

Lemma zlen_schedule buf n : zlen (schedule V buf n) = 16 + Z.of_nat n.
Proof.
  induction n as [|n IH]; cbn [schedule].
  - done.
  - rewrite zlen_app, IH. simpl length. lia.
Qed.

Lemma get_schedule buf n m i : (n <= m)%nat -> 0 <= i < 16 + Z.of_nat n ->
  get (schedule V buf m) i = get (schedule V buf n) i.
Proof.
  induction 1 as [|m Hm IH]; intros Hi; [done|]. cbn [schedule].
  rewrite get_app_l by (rewrite zlen_schedule; lia). by apply IH.
Qed.

Lemma schedule_next buf m t : 16 <= t < 16 + Z.of_nat m ->
  let W := schedule V buf m in
  get W t = wW V (sigma V (v_s1 V) (get W (t - 2)) + get W (t - 7) + sigma V (v_s0 V) (get W (t - 15))
    + get W (t - 16)).
Proof.
  intros Ht. cbv zeta. set (n := Z.to_nat (t - 16)).
  rewrite (get_schedule buf (S n) m t) by lia. cbn [schedule].
  rewrite get_app_r, zlen_schedule by (rewrite zlen_schedule; lia).
  replace (16 + Z.of_nat n) with t by lia. rewrite Z.sub_diag.
  rewrite !(get_schedule buf n m) by lia. done.
Qed.

Lemma sched_ok buf : zlen buf = 2 * v_w V -> byte_string buf ->
  ok (sha2_sched buf) (fun w => w = schedule V buf (Z.to_nat (v_rounds V - 16))).
Proof.
  intros Hl HB. destruct s2_rounds as [Hn _]. unfold sha2_sched. rewrite s2_nr_is. cstep.
  pose proof s2_w_8 as H8. pose proof s2_w_pos.
  assert (E16 : v_w V / 8 * 16 = 2 * v_w V) by zn.
  eapply ok_mono; [apply s2_dec_ok; rewrite ?length_replicate; try lia|].
  { rewrite E16, <- Hl. by apply bytes_get. }
  intros w0 [HF H0]. pose proof (frame_len _ _ _ _ HF) as Hl0. rewrite length_replicate in Hl0.
  set (S := schedule V buf (Z.to_nat (v_rounds V - 16))).
  apply (ok_for_up (fun i w => zlen w = v_rounds V /\ forall j, 0 <= j < i -> get w j = get S j)).
  - lia.
  - split; [lia|]. intros j Hj. rewrite H0 by lia. unfold S.
    rewrite (get_schedule buf 0) by lia. cbn [schedule].
    rewrite get_lookup, list_lookup_fmap, lookup_seq_lt by lia. simpl. by rewrite Z2Nat.id by lia.
  - intros i w Hi [Hw HS]. csteps. split; [by rewrite zlen_upd|]. intros j Hj.
    destruct (Z.eq_dec j i) as [->|]; [|rewrite get_upd_ne by lia; apply HS; lia].
    rewrite get_upd_eq, !HS, uW_wW, s2_ssg0_is, s2_ssg1_is by lia. unfold S.
    symmetry. apply schedule_next. lia.
  - intros w [Hw HS]. apply list_eq_get; unfold S in *; rewrite ?zlen_schedule; [lia|].
    intros j Hj. apply HS. lia.
Qed.

Lemma SHA2_STEP_ok w A B C D E F G H j (Q : Z * Z -> Prop) :
  0 <= j < zlen w -> 0 <= j < v_rounds V ->
  Q (wW V (D + (H + Sigma V (v_S1 V) E + Ch E F G + get (K V) j + get w j)),
     wW V (H + Sigma V (v_S1 V) E + Ch E F G + get (K V) j + get w j + (Sigma V (v_S0 V) A + Maj A B C))) ->
  ok (SHA2_STEP w A B C D E F G H j) Q.
Proof.
  intros Hw Hj HQ. pose proof s2_K_len. unfold SHA2_STEP. csteps.
  by rewrite CH_Ch, MAJ_Maj, !uW_wW, s2_bsg0_is, s2_bsg1_is, s2_K_is, !wW_add, wW_add_l.
Qed.

Notation round := (sha_round V (K V)).

Lemma steps8_ok w i s : 0 <= i -> i + 8 <= v_rounds V -> zlen w = v_rounds V ->
  ok (sha2_steps8 w i s) (fun s' => s' =
    round w (i + 7) (round w (i + 6) (round w (i + 5) (round w (i + 4)
    (round w (i + 3) (round w (i + 2) (round w (i + 1) (round w i s)))))))).
Proof.
  intros Hi Hn Hw. destruct s as [[[[[[[a b] c] d] e] f] g] h]. unfold sha2_steps8.
  rewrite Z.add_0_r. do 8 (cstep; apply SHA2_STEP_ok; [lia|lia|]). cstep. done.
Qed.

Lemma add_to_ok v i x (Q : list Z -> Prop) :
  0 <= i < zlen v -> Q (upd v i (wW V (get v i + x))) -> ok (add_to v i x) Q.
Proof. intros. unfold add_to. csteps. by rewrite uW_wW. Qed.

(** The round function of the code is the compression function of FIPS 180-4. *)
Lemma sha2_round_ok buf v : zlen buf = 2 * v_w V -> byte_string buf -> zlen v = 8 ->
  ok (sha2_round buf v) (fun v' => v' = compress V buf v).
Proof.
  intros Hl HB Hv. destruct s2_rounds as [Hn Hn8]. unfold sha2_round. rewrite s2_nr_is.
  cstep. eapply ok_mono; [by apply sched_ok|]. intros w ->.
  set (ws := schedule V buf _). assert (Hws : zlen ws = v_rounds V) by (unfold ws; rewrite zlen_schedule; lia).
  do 16 cstep. cstep.
  apply (ok_for_n (fun i s => 0 <= i -> s = rounds V (K V) ws (Z.to_nat i) (Fips180.regs_of v))).
  - done.
  - intros k s Hk HI. eapply ok_mono; [apply steps8_ok; try done; zn|]. cbv beta. intros s' -> _.
    rewrite HI by lia. set (s0 := rounds V (K V) ws (Z.to_nat (0 + k * 8)) _).
    replace (Z.to_nat (0 + (k + 1) * 8)) with (8 + Z.to_nat (0 + k * 8))%nat by lia.
    cbn [rounds Nat.add]. fold s0. rewrite !Nat2Z.inj_succ, Z2Nat.id by lia.
    do 8 (f_equal; try lia).
  - intros s HI. rewrite Z2Nat.id in HI by zn.
    replace (0 + v_rounds V / 8 * 8) with (v_rounds V) in HI by zn. specialize (HI ltac:(lia)).
    unfold compress. fold ws. rewrite <- HI. clear HI.
    destruct s as [[[[[[[a b] c] d] e] f] g] h].
    do 7 (cstep; apply add_to_ok; [rewrite ?zlen_upd; lia|]). apply add_to_ok; [rewrite ?zlen_upd; lia|].
    rewrite !get_upd_ne by lia.
    do 8 (destruct v as [|? v]; [simpl in Hv; lia|]). destruct v as [|? v]; [done|simpl in Hv; lia].
Qed.

(** A chaining value. *)
Definition vok (v : list Z) : Prop := zlen v = 8 /\ forall i, 0 <= i < 8 -> word (s2_w P) (get v i).

Lemma sha_compress_ok buf v : vok (compress V buf v).
Proof.
  unfold compress. destruct (rounds _ _ _ _ _) as [[[[[[[a b] c] d] e] f] g] h].
  split; [done|]. intros i Hi.
  assert (i = 0 \/ i = 1 \/ i = 2 \/ i = 3 \/ i = 4 \/ i = 5 \/ i = 6 \/ i = 7) as HI by lia.
  repeat (destruct HI as [->|HI]; [apply wW_word|]). subst. apply wW_word.
Qed.

Lemma sha2_round_vok buf v : zlen buf = 2 * v_w V -> byte_string buf -> vok v ->
  ok (sha2_round buf v) (fun v' => v' = compress V buf v /\ vok v').
Proof.
  intros ?? [Hv _]. eapply ok_mono; [by apply sha2_round_ok|]. intros v' ->.
  split; [done|apply sha_compress_ok].
Qed.

(** The choices of a SHA-2 function. *)
Definition sha2_desc (B LF : Z) (enclen : list Z -> Z -> M (list Z)) (iv : list Z) (num : Z)
    : md_desc := {|
  md_B := B;
  md_LF := LF;
  md_early := true;
  md_round := sha2_round;
  md_enclen := enclen;
  md_enc := s2_enc P;
  md_dec := s2_dec P;
  md_iv := iv;
  md_nv := 8;
  md_num := num;
  md_sz := s2_w P / 8
|}.
End Sha2.

(** * The 32-bit functions *)

Definition ROTR32 (x n : Z) : Z := u32 (x << (32 - n)) .| (x >> n).
Definition BSG2_0 (x : Z) : Z := ROTR32 x 2 .^ ROTR32 x 13 .^ ROTR32 x 22.
Definition BSG2_1 (x : Z) : Z := ROTR32 x 6 .^ ROTR32 x 11 .^ ROTR32 x 25.
Definition SSG2_0 (x : Z) : Z := ROTR32 x 7 .^ ROTR32 x 18 .^ (x >> 3).
Definition SSG2_1 (x : Z) : Z := ROTR32 x 17 .^ ROTR32 x 19 .^ (x >> 10).

Definition br_sha224_IV : list Z :=
  [0xC1059ED8; 0x367CD507; 0x3070DD17; 0xF70E5939;
   0xFFC00B31; 0x68581511; 0x64F98FA7; 0xBEFA4FA4].
Definition br_sha256_IV : list Z :=
  [0x6A09E667; 0xBB67AE85; 0x3C6EF372; 0xA54FF53A;
   0x510E527F; 0x9B05688C; 0x1F83D9AB; 0x5BE0CD19].
Definition K256 : list Z :=
  [0x428A2F98; 0x71374491; 0xB5C0FBCF; 0xE9B5DBA5;
   0x3956C25B; 0x59F111F1; 0x923F82A4; 0xAB1C5ED5;
   0xD807AA98; 0x12835B01; 0x243185BE; 0x550C7DC3;
   0x72BE5D74; 0x80DEB1FE; 0x9BDC06A7; 0xC19BF174;
   0xE49B69C1; 0xEFBE4786; 0x0FC19DC6; 0x240CA1CC;
   0x2DE92C6F; 0x4A7484AA; 0x5CB0A9DC; 0x76F988DA;
   0x983E5152; 0xA831C66D; 0xB00327C8; 0xBF597FC7;
   0xC6E00BF3; 0xD5A79147; 0x06CA6351; 0x14292967;
   0x27B70A85; 0x2E1B2138; 0x4D2C6DFC; 0x53380D13;
   0x650A7354; 0x766A0ABB; 0x81C2C92E; 0x92722C85;
   0xA2BFE8A1; 0xA81A664B; 0xC24B8B70; 0xC76C51A3;
   0xD192E819; 0xD6990624; 0xF40E3585; 0x106AA070;
   0x19A4C116; 0x1E376C08; 0x2748774C; 0x34B0BCB5;
   0x391C0CB3; 0x4ED8AA4A; 0x5B9CCA4F; 0x682E6FF3;
   0x748F82EE; 0x78A5636F; 0x84C87814; 0x8CC70208;
   0x90BEFFFA; 0xA4506CEB; 0xBEF9A3F7; 0xC67178F2].

Definition sha2small : sha2_params := {|
  s2_w := 32; s2_nr := 64;
  s2_bsg0 := BSG2_0; s2_bsg1 := BSG2_1; s2_ssg0 := SSG2_0; s2_ssg1 := SSG2_1;
  s2_K := K256;
  s2_dec := br_range_dec32be; s2_enc := br_range_enc32be
|}.

(** The length field: the bit count, big-endian. *)
Definition sha2small_len (buf : list Z) (count : Z) : M (list Z) :=
  br_enc64be buf 56 (u64 (count << 3)).

Definition sha2small_desc := sha2_desc sha2small 64 56 sha2small_len.
Definition sha224_desc : md_desc := sha2small_desc br_sha224_IV 7.
Definition sha256_desc : md_desc := sha2small_desc br_sha256_IV 8.

Definition br_sha2small_round := sha2_round sha2small.
Definition sha2small_update := md_inject sha224_desc.
Definition sha2small_out (num : Z) := md_output (sha2small_desc br_sha224_IV num).
Definition br_sha224_init := md_init sha224_desc.
Definition br_sha224_update := sha2small_update.
Definition br_sha224_out := sha2small_out 7.
Definition br_sha224_state := md_state sha224_desc.
Definition br_sha224_set_state := md_set_state sha224_desc.
Definition br_sha256_init := md_init sha256_desc.
Definition br_sha256_out := sha2small_out 8.

(** * The 64-bit functions *)

Definition ROTR64 (x n : Z) : Z := u64 (x << (64 - n)) .| (x >> n).
Definition BSG5_0 (x : Z) : Z := ROTR64 x 28 .^ ROTR64 x 34 .^ ROTR64 x 39.
Definition BSG5_1 (x : Z) : Z := ROTR64 x 14 .^ ROTR64 x 18 .^ ROTR64 x 41.
Definition SSG5_0 (x : Z) : Z := ROTR64 x 1 .^ ROTR64 x 8 .^ (x >> 7).
Definition SSG5_1 (x : Z) : Z := ROTR64 x 19 .^ ROTR64 x 61 .^ (x >> 6).

Definition IV384 : list Z :=
  [0xCBBB9D5DC1059ED8; 0x629A292A367CD507;
   0x9159015A3070DD17; 0x152FECD8F70E5939;
   0x67332667FFC00B31; 0x8EB44A8768581511;
   0xDB0C2E0D64F98FA7; 0x47B5481DBEFA4FA4].
Definition IV512 : list Z :=
  [0x6A09E667F3BCC908; 0xBB67AE8584CAA73B;
   0x3C6EF372FE94F82B; 0xA54FF53A5F1D36F1;
   0x510E527FADE682D1; 0x9B05688C2B3E6C1F;
   0x1F83D9ABFB41BD6B; 0x5BE0CD19137E2179].
Definition K512 : list Z :=
  [0x428A2F98D728AE22; 0x7137449123EF65CD;
   0xB5C0FBCFEC4D3B2F; 0xE9B5DBA58189DBBC;
   0x3956C25BF348B538; 0x59F111F1B605D019;
   0x923F82A4AF194F9B; 0xAB1C5ED5DA6D8118;
   0xD807AA98A3030242; 0x12835B0145706FBE;
   0x243185BE4EE4B28C; 0x550C7DC3D5FFB4E2;
   0x72BE5D74F27B896F; 0x80DEB1FE3B1696B1;
   0x9BDC06A725C71235; 0xC19BF174CF692694;
   0xE49B69C19EF14AD2; 0xEFBE4786384F25E3;
   0x0FC19DC68B8CD5B5; 0x240CA1CC77AC9C65;
   0x2DE92C6F592B0275; 0x4A7484AA6EA6E483;
   0x5CB0A9DCBD41FBD4; 0x76F988DA831153B5;
   0x983E5152EE66DFAB; 0xA831C66D2DB43210;
   0xB00327C898FB213F; 0xBF597FC7BEEF0EE4;
   0xC6E00BF33DA88FC2; 0xD5A79147930AA725;
   0x06CA6351E003826F; 0x142929670A0E6E70;
   0x27B70A8546D22FFC; 0x2E1B21385C26C926;
   0x4D2C6DFC5AC42AED; 0x53380D139D95B3DF;
   0x650A73548BAF63DE; 0x766A0ABB3C77B2A8;
   0x81C2C92E47EDAEE6; 0x92722C851482353B;
   0xA2BFE8A14CF10364; 0xA81A664BBC423001;
   0xC24B8B70D0F89791; 0xC76C51A30654BE30;
   0xD192E819D6EF5218; 0xD69906245565A910;
   0xF40E35855771202A; 0x106AA07032BBD1B8;
   0x19A4C116B8D2D0C8; 0x1E376C085141AB53;
   0x2748774CDF8EEB99; 0x34B0BCB5E19B48A8;
   0x391C0CB3C5C95A63; 0x4ED8AA4AE3418ACB;
   0x5B9CCA4F7763E373; 0x682E6FF3D6B2B8A3;
   0x748F82EE5DEFB2FC; 0x78A5636F43172F60;
   0x84C87814A1F0AB72; 0x8CC702081A6439EC;
   0x90BEFFFA23631E28; 0xA4506CEBDE82BDE9;
   0xBEF9A3F7B2C67915; 0xC67178F2E372532B;
   0xCA273ECEEA26619C; 0xD186B8C721C0C207;
   0xEADA7DD6CDE0EB1E; 0xF57D4F7FEE6ED178;
   0x06F067AA72176FBA; 0x0A637DC5A2C898A6;
   0x113F9804BEF90DAE; 0x1B710B35131C471B;
   0x28DB77F523047D84; 0x32CAAB7B40C72493;
   0x3C9EBE0A15C9BEBC; 0x431D67C49C100D4C;
   0x4CC5D4BECB3E42B6; 0x597F299CFC657E2A;
   0x5FCB6FAB3AD6FAEC; 0x6C44198C4A475817].

Definition sha2big : sha2_params := {|
  s2_w := 64; s2_nr := 80;
  s2_bsg0 := BSG5_0; s2_bsg1 := BSG5_1; s2_ssg0 := SSG5_0; s2_ssg1 := SSG5_1;
  s2_K := K512;
  s2_dec := br_range_dec64be; s2_enc := br_range_enc64be
|}.

Definition sha2big_len (buf : list Z) (count : Z) : M (list Z) :=
  buf ← br_enc64be buf 112 (count >> 61);
  br_enc64be buf 120 (u64 (count << 3)).

Definition sha2big_desc := sha2_desc sha2big 128 112 sha2big_len.
Definition sha384_desc : md_desc := sha2big_desc IV384 6.
Definition sha512_desc : md_desc := sha2big_desc IV512 8.

Definition sha2big_round := sha2_round sha2big.
Definition sha2big_update := md_inject sha384_desc.
Definition sha2big_out (num : Z) := md_output (sha2big_desc IV384 num).
Definition br_sha384_init := md_init sha384_desc.
Definition br_sha384_update := sha2big_update.
Definition br_sha384_out := sha2big_out 6.
Definition br_sha384_state := md_state sha384_desc.
Definition br_sha384_set_state := md_set_state sha384_desc.
Definition br_sha512_init := md_init sha512_desc.
Definition br_sha512_out := sha2big_out 8.

(** * The two sets of parameters *)

(** The rotations of the code. *)
Lemma ROTR32_ok n x : 0 <= n <= 32 -> ROTR32 x n = ROTR words32 n x.
Proof.
  intros Hn. unfold ROTR32, ROTR. cbn [v_w words32]. rewrite shl_mul, shr_div by lia. apply Z.lor_comm.
Qed.
Lemma ROTR64_ok n x : 0 <= n <= 64 -> ROTR64 x n = ROTR words64 n x.
Proof.
  intros Hn. unfold ROTR64, ROTR. cbn [v_w words64]. rewrite shl_mul, shr_div by lia. apply Z.lor_comm.
Qed.

(** The tables of the code are the roots of the primes. *)
Lemma K256_ok : K256 = K words32.
Proof. vm_compute. reflexivity. Qed.
Lemma K512_ok : K512 = K words64.
Proof. vm_compute. reflexivity. Qed.
Lemma IVs_ok : br_sha224_IV = IV_224 /\ br_sha256_IV = IV_256 /\ IV384 = IV_384 /\ IV512 = IV_512.
Proof. vm_compute. done. Qed.

#[export] Instance sha2small_ok : Sha2Ok sha2small words32.
Proof.
  split.
  1, 2: reflexivity.
  1-4: intros x; cbn [sha2small s2_bsg0 s2_bsg1 s2_ssg0 s2_ssg1]; unfold BSG2_0, BSG2_1, SSG2_0, SSG2_1, Sigma, sigma, SHR;
    rewrite !ROTR32_ok, ?shr_div by lia; reflexivity.
  1: apply K256_ok.
  1-4: done.
  intros v num buf. by apply (range_dec_ok (HC:=codec32be) v num buf 0).
Qed.

#[export] Instance sha2big_ok : Sha2Ok sha2big words64.
Proof.
  split.
  1, 2: reflexivity.
  1-4: intros x; cbn [sha2big s2_bsg0 s2_bsg1 s2_ssg0 s2_ssg1]; unfold BSG5_0, BSG5_1, SSG5_0, SSG5_1, Sigma, sigma, SHR;
    rewrite !ROTR64_ok, ?shr_div by lia; reflexivity.
  1: apply K512_ok.
  1-4: done.
  intros v num buf. by apply (range_dec_ok (HC:=codec64be) v num buf 0).
Qed.

(** The length fields as byte strings. *)
Definition sha2small_lenf (c : Z) : list Z := be_words 8 [u64 (c << 3)] 1.
Definition sha2big_lenf (c : Z) : list Z := be_words 8 [c >> 61] 1 ++ be_words 8 [u64 (c << 3)] 1.

Lemma sha2small_len_ok buf c : zlen buf = 64 -> word 64 c ->
  ok (sha2small_len buf c) (fun b => b = blit buf 56 (sha2small_lenf c) 0 (64 - 56)).
Proof. intros. unfold sha2small_len. apply enc64be_blit; auto with words; lia. Qed.

Lemma sha2big_len_ok buf c : zlen buf = 128 -> word 64 c ->
  ok (sha2big_len buf c) (fun b => b = blit buf 112 (sha2big_lenf c) 0 (128 - 112)).
Proof.
  intros Hb Hc. unfold sha2big_len, sha2big_lenf.
  assert (L : forall x, zlen (be_words 8 [x] 1) = 8) by (intros; by rewrite zlen_be_words).
  assert (W : word 64 (c >> 61)) by (unfold word in *; rewrite shr_div by lia; zn).
  cstep. eapply ok_mono; [apply enc64be_blit; [lia|lia|done]|]. intros b1 ->.
  assert (L1 : zlen (blit buf 112 (be_words 8 [c >> 61] 1) 0 8) = 128)
    by (rewrite zlen_blit; rewrite ?L; lia).
  eapply ok_mono; [apply enc64be_blit; [lia|lia|apply u64_word]|]. intros b2 ->.
  set (x := be_words 8 [c >> 61] 1) in *. set (y := be_words 8 [u64 (c << 3)] 1).
  assert (Lx : zlen x = 8) by apply L. assert (Ly : zlen y = 8) by apply L.
  apply list_eq_get; rewrite !zlen_blit by (rewrite ?zlen_app; lia); [done|].
  intros i Hi. destruct (Z.lt_ge_cases i 112); [|destruct (Z.lt_ge_cases i 120)].
  - by rewrite !get_blit_out by (rewrite ?zlen_app; lia).
  - rewrite get_blit_out, !get_blit_in by (rewrite ?zlen_app; lia).
    by rewrite get_app_l by lia.
  - rewrite !get_blit_in by (rewrite ?zlen_app; lia).
    rewrite get_app_r by lia. f_equal. lia.
Qed.

(** * The four classes *)

Definition br_sha224_class := md_class sha224_desc.
Definition br_sha256_class := md_class sha256_desc.
Definition br_sha384_class := md_class sha384_desc.
Definition br_sha512_class := md_class sha512_desc.

Definition vokb (w : Z) (v : list Z) : bool := (zlen v =? 8) && limbsb w v 0 8.

Lemma vok_check P v : vokb (s2_w P) v = true -> vok P v.
Proof.
  unfold vokb. rewrite andb_true_iff, Z.eqb_eq. intros [H1 H2%limbsb_limbs].
  split; [done|]. intros i Hi. by apply H2.
Qed.

Lemma small_lenf c : zlen (sha2small_lenf c) = 64 - 56 /\ byte_string (sha2small_lenf c).
Proof. split; [by apply zlen_be_words|apply be_words_bytes]. Qed.

Lemma big_lenf c : zlen (sha2big_lenf c) = 128 - 112 /\ byte_string (sha2big_lenf c).
Proof.
  unfold sha2big_lenf. split; [by rewrite zlen_app, !zlen_be_words|].
  apply byte_string_app. split; apply be_words_bytes.
Qed.

Lemma round_small v buf iv num : zlen buf = 64 -> byte_string buf -> md_vok (sha2small_desc iv num) v ->
  ok (sha2_round sha2small buf v) (fun v' => v' = compress words32 buf v /\
    md_vok (sha2small_desc iv num) v').
Proof. intros Hl HB Hv. exact (sha2_round_vok sha2small words32 buf v Hl HB Hv). Qed.

Lemma round_big v buf iv num : zlen buf = 128 -> byte_string buf -> md_vok (sha2big_desc iv num) v ->
  ok (sha2_round sha2big buf v) (fun v' => v' = compress words64 buf v /\
    md_vok (sha2big_desc iv num) v').
Proof. intros Hl HB Hv. exact (sha2_round_vok sha2big words64 buf v Hl HB Hv). Qed.

#[export] Instance sha224_ok : MdOk sha224_desc (compress words32) sha2small_lenf (be_words 4).
Proof.
  refine (Build_MdOk sha224_desc _ _ _ 6 eq_refl _ _ (fun b v => round_small v b _ _) small_lenf sha2small_len_ok
    (word_bytes_be (HC:=codec32be)) (vok_check sha2small br_sha224_IV eq_refl) _ _); done.
Defined.
#[export] Instance sha256_ok : MdOk sha256_desc (compress words32) sha2small_lenf (be_words 4).
Proof.
  refine (Build_MdOk sha256_desc _ _ _ 6 eq_refl _ _ (fun b v => round_small v b _ _) small_lenf sha2small_len_ok
    (word_bytes_be (HC:=codec32be)) (vok_check sha2small br_sha256_IV eq_refl) _ _); done.
Defined.
#[export] Instance sha384_ok : MdOk sha384_desc (compress words64) sha2big_lenf (be_words 8).
Proof.
  refine (Build_MdOk sha384_desc _ _ _ 7 eq_refl _ _ (fun b v => round_big v b _ _) big_lenf sha2big_len_ok
    (word_bytes_be (HC:=codec64be)) (vok_check sha2big IV384 eq_refl) _ _); done.
Defined.
#[export] Instance sha512_ok : MdOk sha512_desc (compress words64) sha2big_lenf (be_words 8).
Proof.
  refine (Build_MdOk sha512_desc _ _ _ 7 eq_refl _ _ (fun b v => round_big v b _ _) big_lenf sha2big_len_ok
    (word_bytes_be (HC:=codec64be)) (vok_check sha2big IV512 eq_refl) _ _); done.
Defined.

#[export] Instance br_sha224_spec : HashSpec br_sha224_class := md_spec sha224_desc.
#[export] Instance br_sha256_spec : HashSpec br_sha256_class := md_spec sha256_desc.
#[export] Instance br_sha384_spec : HashSpec br_sha384_class := md_spec sha384_desc.
#[export] Instance br_sha512_spec : HashSpec br_sha512_class := md_spec sha512_desc.

(** The digests are those of the standard. *)
Lemma get_be_word_at sz x i : 0 <= i < sz -> get (be_words sz [x] 1) i = u8 (x >> (8 * (sz - 1 - i))).
Proof.
  intros Hi. unfold be_words. rewrite get_map_seq, Z2Nat.id by lia. by rewrite Z.div_small, Z.mod_small by lia.
Qed.

Lemma be_words_mod sz x : 0 <= sz -> be_words sz [x mod 2 ^ (8 * sz)] 1 = be_words sz [x] 1.
Proof.
  intros Hs. apply list_eq_get; rewrite !zlen_be_words by lia; [done|]. intros i Hi. rewrite !get_be_word_at by lia.
  rewrite !u8_bits by lia. unfold bits. apply Z.bits_inj'. intros n Hn. destruct (Z.lt_ge_cases n 8).
  - rewrite !Z.mod_pow2_bits_low, <- !Z.shiftr_div_pow2, !Z.shiftr_spec, Z.mod_pow2_bits_low by lia. done.
  - by rewrite !Z.mod_pow2_bits_high by lia.
Qed.

Lemma be_words_halves x : be_words 16 [x] 1 = be_words 8 [x >> 64] 1 ++ be_words 8 [x] 1.
Proof.
  apply list_eq_get; rewrite ?zlen_app, !zlen_be_words by lia; [done|]. intros i Hi. rewrite get_be_word_at by lia.
  destruct (Z.lt_ge_cases i 8).
  - rewrite get_app_l, get_be_word_at, Z.shiftr_shiftr by (rewrite ?zlen_be_words; lia). do 2 f_equal. lia.
  - rewrite get_app_r, zlen_be_words, get_be_word_at by (rewrite ?zlen_be_words; lia). do 3 f_equal. lia.
Qed.

Lemma blocks_fold {A} B (comp : list Z -> A -> A) iv msg n :
  blocks B comp iv msg n = fold_left (fun H i => comp (slice msg (B * Z.of_nat i) B) H) (seq 0 n) iv.
Proof. induction n as [|n IH]; [done|]. by rewrite seq_S, fold_left_app, <- IH. Qed.

(** Digests of the Merkle-Damgard construction, when the length field is right. *)
Lemma sha_hash_md V B LF IV lenf msg num : B = block_size V -> LF = B - v_w V / 4 ->
  lenf (u64 (zlen msg)) = be_words (v_w V / 4) [8 * zlen msg] 1 ->
  be_words (v_w V / 8) (md_hash B (compress V) IV LF lenf msg) num = sha_hash V IV msg num.
Proof.
  intros -> -> HL. unfold sha_hash, md_hash. rewrite blocks_fold. unfold md_pad, sha_pad. cbv zeta. by rewrite HL.
Qed.

Lemma small_field (msg : list Z) : sha2small_lenf (u64 (zlen msg)) = be_words 8 [8 * zlen msg] 1.
Proof.
  unfold sha2small_lenf. rewrite <- (be_words_mod 8 (8 * zlen msg)) by lia. do 2 f_equal. rewrite shl_mul by lia.
  unfold u64. rewrite Z.mul_mod_idemp_l by lia. change (2 ^ (8 * 8)) with (2 ^ 64). f_equal. lia.
Qed.

Lemma big_field (msg : list Z) : zlen msg < 2 ^ 64 -> sha2big_lenf (u64 (zlen msg)) = be_words 16 [8 * zlen msg] 1.
Proof.
  intros Hm. rewrite be_words_halves. unfold sha2big_lenf. rewrite u64_small by (unfold word; lia).
  rewrite <- (be_words_mod 8 (8 * zlen msg)) by lia. rewrite shl_mul by lia. f_equal.
  - f_equal. f_equal. rewrite !shr_div by lia. replace (8 * zlen msg) with (zlen msg * 8) by lia.
    change (2 ^ 64) with (2 ^ 61 * 8). by rewrite Z.div_mul_cancel_r by lia.
  - do 2 f_equal. unfold u64. change (2 ^ (8 * 8)) with (2 ^ 64). f_equal. lia.
Qed.

Lemma sha224_digest msg : digest (HashSpec:=br_sha224_spec) msg = SHA224 msg.
Proof. unfold SHA224. destruct IVs_ok as [<- _]. exact (sha_hash_md words32 64 56 _ _ msg 7 eq_refl eq_refl (small_field msg)). Qed.
Lemma sha256_digest msg : digest (HashSpec:=br_sha256_spec) msg = SHA256 msg.
Proof. unfold SHA256. destruct IVs_ok as (_ & <- & _). exact (sha_hash_md words32 64 56 _ _ msg 8 eq_refl eq_refl (small_field msg)). Qed.
Lemma sha384_digest msg : zlen msg < 2 ^ 64 -> digest (HashSpec:=br_sha384_spec) msg = SHA384 msg.
Proof. intros Hm. unfold SHA384. destruct IVs_ok as (_ & _ & <- & _). exact (sha_hash_md words64 128 112 _ _ msg 6 eq_refl eq_refl (big_field msg Hm)). Qed.
Lemma sha512_digest msg : zlen msg < 2 ^ 64 -> digest (HashSpec:=br_sha512_spec) msg = SHA512 msg.
Proof. intros Hm. unfold SHA512. destruct IVs_ok as (_ & _ & _ & <-). exact (sha_hash_md words64 128 112 _ _ msg 8 eq_refl eq_refl (big_field msg Hm)). Qed.

(** [C40] Whatever the chunks a message is injected in, the output of each class is
    the digest of the message under the function of FIPS 180-4, whose constants
    are computed from the roots of the primes, written at [dst + o]; nothing else
    is modified.  SHA-384 and SHA-512 count the bytes of the message on 64 bits. *)
Theorem sha2_stream_correct (c : mdctx (list Z)) chunks dst o :
  zlen (cval c) = 8 -> Forall byte_string chunks -> 0 <= o ->
  let good (HC : HashClass) (m : M (list Z)) (H : list Z -> list Z) n :=
    o + n <= zlen dst ->
    ok m (fun d => frame o (o + n) dst d /\ slice d o n = H (concat chunks)) in
  (zlen (cbuf c) = 64 ->
    good br_sha224_class (hash_stream (HC:=br_sha224_class) c chunks dst o) SHA224 28 /\
    good br_sha256_class (hash_stream (HC:=br_sha256_class) c chunks dst o) SHA256 32) /\
  (zlen (cbuf c) = 128 -> zlen (concat chunks) < 2 ^ 64 ->
    good br_sha384_class (hash_stream (HC:=br_sha384_class) c chunks dst o) SHA384 48 /\
    good br_sha512_class (hash_stream (HC:=br_sha512_class) c chunks dst o) SHA512 64).
Proof.
  intros Hv HF Ho good. split; [intros Hb|intros Hb Hm]; split; intros Hl.
  - rewrite <- (sha224_digest (concat chunks)). by apply (hash_stream_ok (HS:=br_sha224_spec)).
  - rewrite <- (sha256_digest (concat chunks)). by apply (hash_stream_ok (HS:=br_sha256_spec)).
  - rewrite <- (sha384_digest (concat chunks)) by done. by apply (hash_stream_ok (HS:=br_sha384_spec)).
  - rewrite <- (sha512_digest (concat chunks)) by done. by apply (hash_stream_ok (HS:=br_sha512_spec)).
Qed.

(** The code on the message "abc": the vectors of FIPS 180-4. *)
Definition new_ctx (n : nat) : mdctx (list Z) := Mdctx (replicate n 0) (replicate 8 0) 0.
Definition run_hash (HC : HashClass) (c : @hctx HC) (msg : list Z) (n : nat) : option (list Z) :=
  snd <$> hash_stream c [msg] (replicate n 0) 0.

Theorem sha2_vectors :
  let abc := [0x61; 0x62; 0x63] in
  run_hash br_sha224_class (new_ctx 64) abc 28 = Some (be_words 4
    [0x23097D22; 0x3405D822; 0x8642A477; 0xBDA255B3; 0x2AADBCE4; 0xBDA0B3F7; 0xE36C9DA7] 7) /\
  run_hash br_sha256_class (new_ctx 64) abc 32 = Some (be_words 4
    [0xBA7816BF; 0x8F01CFEA; 0x414140DE; 0x5DAE2223; 0xB00361A3; 0x96177A9C; 0xB410FF61;
     0xF20015AD] 8) /\
  run_hash br_sha384_class (new_ctx 128) abc 48 = Some (be_words 8
    [0xCB00753F45A35E8B; 0xB5A03D699AC65007; 0x272C32AB0EDED163; 0x1A8B605A43FF5BED;
     0x8086072BA1E7CC23; 0x58BAECA134C825A7] 6) /\
  run_hash br_sha512_class (new_ctx 128) abc 64 = Some (be_words 8
    [0xDDAF35A193617ABA; 0xCC417349AE204131; 0x12E6FA4E89A97EA2; 0x0A9EEEE64B55D39A;
     0x2192992A274FC1A8; 0x36BA3C23A3FEEBBD; 0x454D4423643CE80E; 0x2A9AC94FA54CA49F] 8).
Proof. vm_compute. done. Qed.

Lemma sha2_stream_correct_witness :
  ok (hash_stream (HC:=br_sha256_class) (new_ctx 64) [[0x61]; []; [0x62; 0x63]] (replicate 40 7) 4)
    (fun d => frame 4 36 (replicate 40 7) d /\ slice d 4 32 = SHA256 [0x61; 0x62; 0x63]).
Proof.
  destruct (sha2_stream_correct (new_ctx 64) [[0x61]; []; [0x62; 0x63]] (replicate 40 7) 4)
    as [H _]; [done|by repeat constructor|done|].
  destruct (H eq_refl) as [_ H']. by apply H'.
Defined.
