(* ===== verification/Md5.v ===== *)
(** MD5 ([src/hash/md5.c]): the round function is the one of RFC 1321, and the
    class [br_md5_class] an instance of [HashSpec]. *)
From stdpp Require Import base tactics list numbers option.
From Stdlib Require Import ZArith Lia.
From S2P Require Import Prelude CtPrims Limbs Codec Hash.
Local Open Scope Z_scope.
Local Open Scope cword_scope.

(** * Code *)

Definition md5_F (B C D : Z) : Z := ((C .^ D) .& B) .^ D.
Definition md5_G (B C D : Z) : Z := ((C .^ B) .& D) .^ C.
Definition md5_H (B C D : Z) : Z := B .^ C .^ D.
Definition md5_I (B C D : Z) : Z := C .^ (B .| u32 (Z.lnot D)).

Definition ROTL (x n : Z) : Z := u32 (x << n) .| (x >> (32 - n)).

Definition br_md5_IV : list Z := [0x67452301; 0xEFCDAB89; 0x98BADCFE; 0x10325476].

Definition md5_K : list Z := [
  0xD76AA478; 0xE8C7B756; 0x242070DB; 0xC1BDCEEE; 0xF57C0FAF; 0x4787C62A; 0xA8304613; 0xFD469501;
  0x698098D8; 0x8B44F7AF; 0xFFFF5BB1; 0x895CD7BE; 0x6B901122; 0xFD987193; 0xA679438E; 0x49B40821;
  0xF61E2562; 0xC040B340; 0x265E5A51; 0xE9B6C7AA; 0xD62F105D; 0x02441453; 0xD8A1E681; 0xE7D3FBC8;
  0x21E1CDE6; 0xC33707D6; 0xF4D50D87; 0x455A14ED; 0xA9E3E905; 0xFCEFA3F8; 0x676F02D9; 0x8D2A4C8A;
  0xFFFA3942; 0x8771F681; 0x6D9D6122; 0xFDE5380C; 0xA4BEEA44; 0x4BDECFA9; 0xF6BB4B60; 0xBEBFBC70;
  0x289B7EC6; 0xEAA127FA; 0xD4EF3085; 0x04881D05; 0xD9D4D039; 0xE6DB99E5; 0x1FA27CF8; 0xC4AC5665;
  0xF4292244; 0x432AFF97; 0xAB9423A7; 0xFC93A039; 0x655B59C3; 0x8F0CCC92; 0xFFEFF47D; 0x85845DD1;
  0x6FA87E4F; 0xFE2CE6E0; 0xA3014314; 0x4E0811A1; 0xF7537E82; 0xBD3AF235; 0x2AD7D2BB; 0xEB86D391].

Definition MP : list Z := [
  1; 6; 11; 0; 5; 10; 15; 4; 9; 14; 3; 8; 13; 2; 7; 12;
  5; 8; 11; 14; 1; 4; 7; 10; 13; 0; 3; 6; 9; 12; 15; 2;
  0; 7; 14; 5; 12; 3; 10; 1; 8; 15; 6; 13; 4; 11; 2; 9].

Definition quad : Type := Z * Z * Z * Z.

(** [b + ROTL(a + f(b, c, d) + m[idx] + K[ki], s)] *)
Definition md5_step (f : Z -> Z -> Z -> Z) (m : list Z) (a b c d : Z) (idx : M Z) (ki s : Z) : M Z :=
  mi ← idx;
  x ← load m mi;
  k ← load md5_K ki;
  mret (u32 (b + ROTL (u32 (a + f b c d + x + k)) s)).

(** The body of the four loops; [idx] is the index into [m]. *)
Definition md5_body (f : Z -> Z -> Z -> Z) (m : list Z) (idx : Z -> M Z) (s0 s1 s2 s3 : Z)
    (i : Z) (s : quad) : M quad :=
  let '(a, b, c, d) := s in
  a ← md5_step f m a b c d (idx (i + 0)) (i + 0) s0;
  d ← md5_step f m d a b c (idx (i + 1)) (i + 1) s1;
  c ← md5_step f m c d a b (idx (i + 2)) (i + 2) s2;
  b ← md5_step f m b c d a (idx (i + 3)) (i + 3) s3;
  mret (a, b, c, d).

Definition md5_add (val : list Z) (i x : Z) : M (list Z) :=
  v ← load val i;
  store val i (u32 (v + x)).

Definition br_md5_round (buf val : list Z) : M (list Z) :=
  a ← load val 0;
  b ← load val 1;
  c ← load val 2;
  d ← load val 3;
  m ← br_range_dec32le (replicate 16 0) 16 buf 0;
  let direct i := mret i in
  let permuted i := load MP (i - 16) in
  s ← for_n 4 0 4 (md5_body md5_F m direct 7 12 17 22) (a, b, c, d);
  s ← for_n 4 16 4 (md5_body md5_G m permuted 5 9 14 20) s;
  s ← for_n 4 32 4 (md5_body md5_H m permuted 4 11 16 23) s;
  '(a, b, c, d) ← for_n 4 48 4 (md5_body md5_I m permuted 6 10 15 21) s;
  val ← md5_add val 0 a;
  val ← md5_add val 1 b;
  val ← md5_add val 2 c;
  md5_add val 3 d.

Definition md5_len (buf : list Z) (count : Z) : M (list Z) :=
  br_enc64le buf 56 (u64 (count << 3)).

Definition md5_desc : md_desc := {|
  md_B := 64; md_LF := 56; md_early := false;
  md_round := br_md5_round; md_enclen := md5_len;
  md_enc := br_range_enc32le; md_dec := br_range_dec32le;
  md_iv := br_md5_IV; md_nv := 4; md_num := 4; md_sz := 4
|}.

Definition br_md5_init := md_init md5_desc.
Definition br_md5_update := md_inject md5_desc.
Definition br_md5_out := md_output md5_desc.
Definition br_md5_state := md_state md5_desc.
Definition br_md5_set_state := md_set_state md5_desc.
Definition br_md5_class : HashClass := md_class md5_desc.

(** * The reference *)

(** The four functions, the message index and the shift of step [t] (RFC 1321). *)
Definition rfc_f (t x y z : Z) : Z :=
  match t / 16 with
  | 0 => (x .& y) .| (Z.lnot x .& z)
  | 1 => (x .& z) .| (y .& Z.lnot z)
  | 2 => x .^ y .^ z
  | _ => y .^ (x .| u32 (Z.lnot z))
  end.
Definition rfc_g (t : Z) : Z :=
  match t / 16 with
  | 0 => t
  | 1 => (5 * t + 1) mod 16
  | 2 => (3 * t + 5) mod 16
  | _ => (7 * t) mod 16
  end.
Definition rfc_s (t : Z) : Z :=
  get [7; 12; 17; 22; 5; 9; 14; 20; 4; 11; 16; 23; 6; 10; 15; 21] (4 * (t / 16) + t mod 4).

(** One step: the roles of the registers rotate. *)
Definition rfc_step (m : list Z) (t : Z) (s : quad) : quad :=
  let '(a, b, c, d) := s in
  (d, u32 (b + ROTL (u32 (a + rfc_f t b c d + get m (rfc_g t) + get md5_K t)) (rfc_s t)), b, c).

Fixpoint rfc_steps (m : list Z) (n : nat) (s : quad) : quad :=
  match n with
  | O => s
  | S n => rfc_step m (Z.of_nat n) (rfc_steps m n s)
  end.

Definition md5_compress (buf v : list Z) : list Z :=
  let m := map (fun k => vle buf (4 * Z.of_nat k) 4) (seq 0 16) in
  let '(a, b, c, d) := rfc_steps m 64 (get v 0, get v 1, get v 2, get v 3) in
  [u32 (get v 0 + a); u32 (get v 1 + b); u32 (get v 2 + c); u32 (get v 3 + d)].

(** * The round function *)

Ltac bitwise :=
  apply Z.bits_inj'; intros; rewrite ?Z.lxor_spec, ?Z.lor_spec, ?Z.land_spec, ?Z.lxor_spec,
    ?Z.lor_spec, ?Z.lnot_spec by done; repeat (case (Z.testbit _ _)); done.

Lemma md5_F_ref x y z : md5_F x y z = (x .& y) .| (Z.lnot x .& z).
Proof. unfold md5_F. bitwise. Qed.
Lemma md5_G_ref x y z : md5_G x y z = (x .& z) .| (y .& Z.lnot z).
Proof. unfold md5_G. bitwise. Qed.

(** What a loop needs of its index function. *)
Definition idx_ok (idx : Z -> M Z) (lo : Z) : Prop :=
  forall t, lo <= t < lo + 16 -> ok (idx t) (fun i => i = rfc_g t).

Lemma direct_ok : idx_ok (fun i => mret i) 0.
Proof.
  intros t Ht. cstep. unfold rfc_g. by rewrite (Z.div_small t 16) by lia.
Qed.

Lemma permuted_ok lo : lo = 16 \/ lo = 32 \/ lo = 48 -> idx_ok (fun i => load MP (i - 16)) lo.
Proof.
  intros Hlo t Ht. assert (HL : zlen MP = 48) by done. cstep.
  assert (H : forallb (fun k => get MP (Z.of_nat k) =? rfc_g (Z.of_nat k + 16)) (seq 0 48) = true)
    by (vm_compute; done).
  rewrite forallb_forall in H. specialize (H (Z.to_nat (t - 16))). rewrite Z2Nat.id in H by lia.
  specialize (H ltac:(apply in_seq; lia)). apply Z.eqb_eq in H. rewrite H. f_equal. lia.
Qed.

Lemma rfc_g_bound t : 0 <= t < 64 -> 0 <= rfc_g t < 16.
Proof.
  intros Ht. assert (H : forallb (fun k => (0 <=? rfc_g (Z.of_nat k)) && (rfc_g (Z.of_nat k) <? 16))
    (seq 0 64) = true) by (vm_compute; done).
  rewrite forallb_forall in H. specialize (H (Z.to_nat t)). rewrite Z2Nat.id in H by lia.
  specialize (H ltac:(apply in_seq; lia)). lia.
Qed.

Lemma md5_step_ok f m a b c d idx t lo s (Q : Z -> Prop) :
  idx_ok idx lo -> 0 <= lo <= 48 -> lo <= t < lo + 16 -> zlen m = 16 ->
  (forall x y z, f x y z = rfc_f t x y z) -> s = rfc_s t ->
  Q (u32 (b + ROTL (u32 (a + rfc_f t b c d + get m (rfc_g t) + get md5_K t)) (rfc_s t))) ->
  ok (md5_step f m a b c d (idx t) t s) Q.
Proof.
  intros HI Hlo Ht Hm Hf -> HQ. unfold md5_step. cstep. eapply ok_mono; [by apply HI|].
  intros i ->. pose proof (rfc_g_bound t ltac:(lia)). assert (HK : zlen md5_K = 64) by done.
  csteps. by rewrite Hf.
Qed.

(** One of the four loops is sixteen steps of the reference. *)
Lemma md5_loop_ok f m idx s0 s1 s2 s3 r s0' :
  0 <= r < 4 -> idx_ok idx (16 * r) -> zlen m = 16 ->
  (forall t x y z, t / 16 = r -> f x y z = rfc_f t x y z) ->
  (forall t, t / 16 = r -> (t mod 4 = 0 -> s0 = rfc_s t) /\ (t mod 4 = 1 -> s1 = rfc_s t) /\
    (t mod 4 = 2 -> s2 = rfc_s t) /\ (t mod 4 = 3 -> s3 = rfc_s t)) ->
  ok (for_n 4 (16 * r) 4 (md5_body f m idx s0 s1 s2 s3) (rfc_steps m (Z.to_nat (16 * r)) s0'))
    (fun s => s = rfc_steps m (Z.to_nat (16 * (r + 1))) s0').
Proof.
  intros Hr HI Hm Hf Hs.
  apply (ok_for_n (fun i s => s = rfc_steps m (Z.to_nat i) s0')); [done| |].
  - intros k s Hk ->. set (t := 16 * r + k * 4).
    replace (Z.to_nat (16 * r + (k + 1) * 4)) with (4 + Z.to_nat t)%nat by lia.
    cbn [rfc_steps Nat.add]. rewrite !Nat2Z.inj_succ, Z2Nat.id by lia.
    destruct (rfc_steps m (Z.to_nat t) s0') as [[[a b] c] d]. unfold md5_body, rfc_step.
    assert (E : forall j, 0 <= j < 4 -> (t + j) / 16 = r /\ (t + j) mod 4 = j).
    { intros j Hj. unfold t. split; [symmetry; apply (Z.div_unique_pos _ _ _ (k * 4 + j)); lia|].
      symmetry. apply (Z.mod_unique_pos _ _ (4 * r + k)); lia. }
    destruct (E 0) as [D0 M0], (E 1) as [D1 M1], (E 2) as [D2 M2], (E 3) as [D3 M3]; try lia.
    cstep. apply (md5_step_ok _ _ _ _ _ _ _ _ (16 * r)); try done; try lia; [auto|by apply Hs|].
    cstep. apply (md5_step_ok _ _ _ _ _ _ _ _ (16 * r)); try done; try lia; [auto|by apply Hs|].
    cstep. apply (md5_step_ok _ _ _ _ _ _ _ _ (16 * r)); try done; try lia; [auto|by apply Hs|].
    cstep. apply (md5_step_ok _ _ _ _ _ _ _ _ (16 * r)); try done; try lia; [auto|by apply Hs|].
    cstep. rewrite Z.add_0_r. unfold Z.succ. rewrite <- !Z.add_assoc. done.
  - intros s ->. do 2 f_equal. lia.
Qed.

(** The shifts written in a loop are those of the reference. *)
Lemma shifts_ok r s0 s1 s2 s3 :
  [get [7; 12; 17; 22; 5; 9; 14; 20; 4; 11; 16; 23; 6; 10; 15; 21] (4 * r);
   get [7; 12; 17; 22; 5; 9; 14; 20; 4; 11; 16; 23; 6; 10; 15; 21] (4 * r + 1);
   get [7; 12; 17; 22; 5; 9; 14; 20; 4; 11; 16; 23; 6; 10; 15; 21] (4 * r + 2);
   get [7; 12; 17; 22; 5; 9; 14; 20; 4; 11; 16; 23; 6; 10; 15; 21] (4 * r + 3)] = [s0; s1; s2; s3] ->
  forall t, t / 16 = r -> (t mod 4 = 0 -> s0 = rfc_s t) /\ (t mod 4 = 1 -> s1 = rfc_s t) /\
    (t mod 4 = 2 -> s2 = rfc_s t) /\ (t mod 4 = 3 -> s3 = rfc_s t).
Proof.
  intros [= <- <- <- <-] t Ht. unfold rfc_s. rewrite Ht.
  repeat split; intros ->; by rewrite ?Z.add_0_r.
Qed.

Lemma md5_add_ok v i x (Q : list Z -> Prop) :
  0 <= i < zlen v -> Q (upd v i (u32 (get v i + x))) -> ok (md5_add v i x) Q.
Proof. intros. unfold md5_add. csteps. done. Qed.

Lemma md5_round_ok buf v : zlen buf = 64 -> byte_string buf -> zlen v = 4 ->
  ok (br_md5_round buf v) (fun v' => v' = md5_compress buf v).
Proof.
  intros Hl HB Hv. unfold br_md5_round. do 8 cstep. cbv zeta. cstep.
  eapply ok_mono; [apply (range_dec_ok (HC:=codec32le) (replicate 16 0) 16 buf 0); try done; try lia|].
  { replace (4 * 16) with (zlen buf) by lia. by apply bytes_get. }
  intros m [HF HG]. pose proof (frame_len _ _ _ _ HF) as Hm. cbv zeta.
  set (s0 := (get v 0, get v 1, get v 2, get v 3)).
  assert (Em : m = map (fun k => vle buf (4 * Z.of_nat k) 4) (seq 0 16)).
  { apply list_eq_get; [done|]. intros i Hi. rewrite HG, get_map_seq by (simpl in Hm; lia).
    by rewrite Z2Nat.id by lia. }
  unfold md5_compress. fold s0. cbv zeta. rewrite <- Em.
  cstep. eapply ok_mono; [apply (md5_loop_ok _ _ _ _ _ _ _ 0 s0); try done|].
  { exact direct_ok. } { intros t x y z Ht. unfold rfc_f. rewrite Ht. apply md5_F_ref. }
  { by apply shifts_ok. }
  intros ? ->. cstep. eapply ok_mono; [apply (md5_loop_ok _ _ _ _ _ _ _ 1 s0); try done|].
  { apply permuted_ok. auto. } { intros t x y z Ht. unfold rfc_f. rewrite Ht. apply md5_G_ref. }
  { by apply shifts_ok. }
  intros ? ->. cstep. eapply ok_mono; [apply (md5_loop_ok _ _ _ _ _ _ _ 2 s0); try done|].
  { apply permuted_ok. auto. } { intros t x y z Ht. unfold rfc_f. by rewrite Ht. }
  { by apply shifts_ok. }
  intros ? ->. cstep. eapply ok_mono; [apply (md5_loop_ok _ _ _ _ _ _ _ 3 s0); try done|].
  { apply permuted_ok. auto. } { intros t x y z Ht. unfold rfc_f. by rewrite Ht. }
  { by apply shifts_ok. }
  intros s' ->. change (Z.to_nat (16 * (3 + 1))) with 64%nat.
  destruct (rfc_steps m 64 s0) as [[[a b] c] d].
  do 3 (cstep; apply md5_add_ok; [rewrite ?zlen_upd; lia|]). apply md5_add_ok; [rewrite ?zlen_upd; lia|].
  rewrite !get_upd_ne by lia.
  do 4 (destruct v as [|? v]; [simpl in Hv; lia|]). destruct v as [|? v]; [done|simpl in Hv; lia].
Qed.

(** * The class *)

Definition md5_lenf (c : Z) : list Z := le_words 8 [u64 (c << 3)] 1.

Lemma md5_lenf_ok c : zlen (md5_lenf c) = 64 - 56 /\ byte_string (md5_lenf c).
Proof. split; [by apply zlen_le_words|apply le_words_bytes]. Qed.

Lemma md5_len_ok buf c : zlen buf = 64 -> word 64 c ->
  ok (md5_len buf c) (fun b => b = blit buf 56 (md5_lenf c) 0 (64 - 56)).
Proof. intros. unfold md5_len. apply enc64le_blit; auto with words; lia. Qed.

Lemma md5_compress_vok buf v : md_vok md5_desc (md5_compress buf v).
Proof.
  unfold md5_compress. destruct (rfc_steps _ 64 _) as [[[a b] c] d]. split; [done|].
  intros i Hi. cbn [md_nv md5_desc] in Hi.
  assert (i = 0 \/ i = 1 \/ i = 2 \/ i = 3) as [-> | [-> | [-> | ->]]] by lia; apply u32_word.
Qed.

Lemma md5_round_vok buf v : zlen buf = 64 -> byte_string buf -> md_vok md5_desc v ->
  ok (br_md5_round buf v) (fun v' => v' = md5_compress buf v /\ md_vok md5_desc v').
Proof.
  intros Hl HB [Hv _]. eapply ok_mono; [by apply md5_round_ok|]. intros v' ->.
  split; [done|apply md5_compress_vok].
Qed.

Lemma md5_iv_ok : md_vok md5_desc br_md5_IV.
Proof.
  split; [done|]. intros i Hi. cbn [md_nv md5_desc] in Hi.
  assert (i = 0 \/ i = 1 \/ i = 2 \/ i = 3) as [-> | [-> | [-> | ->]]] by lia; done.
Qed.

#[export] Instance md5_ok : MdOk md5_desc md5_compress md5_lenf (le_words 4).
Proof.
  refine (Build_MdOk md5_desc _ _ _ 6 eq_refl _ _ md5_round_vok md5_lenf_ok md5_len_ok
    (word_bytes_le (HC:=codec32le)) md5_iv_ok _ _); done.
Defined.

#[export] Instance br_md5_spec : HashSpec br_md5_class := md_spec md5_desc.

(** MD5 of RFC 1321. *)
Definition MD5 (msg : list Z) : list Z :=
  le_words 4 (md_hash 64 md5_compress br_md5_IV 56 md5_lenf msg) 4.
