(* ===== verification/Sha1.v ===== *)
(** SHA-1 ([src/hash/sha1.c]): the round function is the one of FIPS 180-4, and
    the class [br_sha1_class] an instance of [HashSpec].  The theorem on MD5 and
    SHA-1 streams is here too. *)
From stdpp Require Import base tactics list numbers option.
From Stdlib Require Import ZArith Lia.
From S2P Require Import Prelude CtPrims Limbs Codec Hash Md5.
Local Open Scope Z_scope.
Local Open Scope cword_scope.

(** * Code *)

Definition sha1_F (B C D : Z) : Z := ((C .^ D) .& B) .^ D.
Definition sha1_G (B C D : Z) : Z := B .^ C .^ D.
Definition sha1_H (B C D : Z) : Z := (D .& C) .| ((D .| C) .& B).
Definition sha1_I (B C D : Z) : Z := sha1_G B C D.

Definition sha1_K1 : Z := 0x5A827999.
Definition sha1_K2 : Z := 0x6ED9EBA1.
Definition sha1_K3 : Z := 0x8F1BBCDC.
Definition sha1_K4 : Z := 0xCA62C1D6.

Definition br_sha1_IV : list Z := [0x67452301; 0xEFCDAB89; 0x98BADCFE; 0x10325476; 0xC3D2E1F0].

Definition quint : Type := Z * Z * Z * Z * Z.

(** [e += ROTL(a, 5) + f(b, c, d) + K + m[i]; b = ROTL(b, 30)] *)
Definition sha1_step (f : Z -> Z -> Z -> Z) (K : Z) (m : list Z) (a b c d e i : Z) : M (Z * Z) :=
  x ← load m i;
  mret (u32 (e + ROTL a 5 + f b c d + K + x), ROTL b 30).

(** The body of the four loops. *)
Definition sha1_body (f : Z -> Z -> Z -> Z) (K : Z) (m : list Z) (i : Z) (s : quint) : M quint :=
  let '(a, b, c, d, e) := s in
  '(e, b) ← sha1_step f K m a b c d e (i + 0);
  '(d, a) ← sha1_step f K m e a b c d (i + 1);
  '(c, e) ← sha1_step f K m d e a b c (i + 2);
  '(b, d) ← sha1_step f K m c d e a b (i + 3);
  '(a, c) ← sha1_step f K m b c d e a (i + 4);
  mret (a, b, c, d, e).

Definition sha1_sched (buf : list Z) : M (list Z) :=
  m ← br_range_dec32be (replicate 80 0) 16 buf 0;
  for_up 16 80 (fun i m =>
    m3 ← load m (i - 3);
    m8 ← load m (i - 8);
    m14 ← load m (i - 14);
    m16 ← load m (i - 16);
    store m i (ROTL (m3 .^ m8 .^ m14 .^ m16) 1)) m.

Definition br_sha1_round (buf val : list Z) : M (list Z) :=
  a ← load val 0;
  b ← load val 1;
  c ← load val 2;
  d ← load val 3;
  e ← load val 4;
  m ← sha1_sched buf;
  s ← for_n 4 0 5 (sha1_body sha1_F sha1_K1 m) (a, b, c, d, e);
  s ← for_n 4 20 5 (sha1_body sha1_G sha1_K2 m) s;
  s ← for_n 4 40 5 (sha1_body sha1_H sha1_K3 m) s;
  '(a, b, c, d, e) ← for_n 4 60 5 (sha1_body sha1_I sha1_K4 m) s;
  val ← md5_add val 0 a;
  val ← md5_add val 1 b;
  val ← md5_add val 2 c;
  val ← md5_add val 3 d;
  md5_add val 4 e.

Definition sha1_len (buf : list Z) (count : Z) : M (list Z) :=
  br_enc64be buf 56 (u64 (count << 3)).

Definition sha1_desc : md_desc := {|
  md_B := 64; md_LF := 56; md_early := false;
  md_round := br_sha1_round; md_enclen := sha1_len;
  md_enc := br_range_enc32be; md_dec := br_range_dec32be;
  md_iv := br_sha1_IV; md_nv := 5; md_num := 5; md_sz := 4
|}.

Definition br_sha1_init := md_init sha1_desc.
Definition br_sha1_update := md_inject sha1_desc.
Definition br_sha1_out := md_output sha1_desc.
Definition br_sha1_state := md_state sha1_desc.
Definition br_sha1_set_state := md_set_state sha1_desc.
Definition br_sha1_class : HashClass := md_class sha1_desc.

(** * The reference *)

Definition fips_f (t x y z : Z) : Z :=
  match t / 20 with
  | 0 => (x .& y) .^ (Z.lnot x .& z)
  | 2 => (x .& y) .^ (x .& z) .^ (y .& z)
  | _ => x .^ y .^ z
  end.
Definition fips_K (t : Z) : Z := get [0x5A827999; 0x6ED9EBA1; 0x8F1BBCDC; 0xCA62C1D6] (t / 20).

(** The message schedule, extended by [n] words. *)
Fixpoint fips_sched (buf : list Z) (n : nat) : list Z :=
  match n with
  | O => map (fun k => vbe buf (4 * Z.of_nat k) 4) (seq 0 16)
  | S n =>
      let w := fips_sched buf n in
      let t := 16 + Z.of_nat n in
      w ++ [ROTL (get w (t - 3) .^ get w (t - 8) .^ get w (t - 14) .^ get w (t - 16)) 1]
  end.

Definition fips_step (w : list Z) (t : Z) (s : quint) : quint :=
  let '(a, b, c, d, e) := s in
  (u32 (ROTL a 5 + fips_f t b c d + e + fips_K t + get w t), a, ROTL b 30, c, d).

Fixpoint fips_steps (w : list Z) (n : nat) (s : quint) : quint :=
  match n with
  | O => s
  | S n => fips_step w (Z.of_nat n) (fips_steps w n s)
  end.

Definition sha1_compress (buf v : list Z) : list Z :=
  let w := fips_sched buf 64 in
  let '(a, b, c, d, e) := fips_steps w 80 (get v 0, get v 1, get v 2, get v 3, get v 4) in
  [u32 (get v 0 + a); u32 (get v 1 + b); u32 (get v 2 + c); u32 (get v 3 + d); u32 (get v 4 + e)].

(** * The round function *)

Lemma sha1_F_ref x y z : sha1_F x y z = (x .& y) .^ (Z.lnot x .& z).
Proof. unfold sha1_F. bitwise. Qed.
Lemma sha1_H_ref x y z : sha1_H x y z = (x .& y) .^ (x .& z) .^ (y .& z).
Proof. unfold sha1_H. bitwise. Qed.

Lemma zlen_fips_sched buf n : zlen (fips_sched buf n) = 16 + Z.of_nat n.
Proof.
  induction n as [|n IH]; cbn [fips_sched]; [done|]. rewrite zlen_app, IH. simpl length. lia.
Qed.

Lemma get_fips_sched buf n m i : (n <= m)%nat -> 0 <= i < 16 + Z.of_nat n ->
  get (fips_sched buf m) i = get (fips_sched buf n) i.
Proof.
  induction 1 as [|m Hm IH]; intros Hi; [done|]. cbn [fips_sched].
  rewrite get_app_l by (rewrite zlen_fips_sched; lia). by apply IH.
Qed.

Lemma fips_sched_next buf m t : 16 <= t < 16 + Z.of_nat m ->
  let w := fips_sched buf m in
  get w t = ROTL (get w (t - 3) .^ get w (t - 8) .^ get w (t - 14) .^ get w (t - 16)) 1.
Proof.
  intros Ht. cbv zeta. set (n := Z.to_nat (t - 16)).
  rewrite (get_fips_sched buf (S n) m t) by lia. cbn [fips_sched].
  rewrite get_app_r, zlen_fips_sched by (rewrite zlen_fips_sched; lia).
  replace (16 + Z.of_nat n) with t by lia. rewrite Z.sub_diag.
  rewrite !(get_fips_sched buf n m) by lia. done.
Qed.

Lemma sha1_sched_ok buf : zlen buf = 64 -> byte_string buf ->
  ok (sha1_sched buf) (fun w => w = fips_sched buf 64).
Proof.
  intros Hl HB. unfold sha1_sched. cstep.
  eapply ok_mono; [apply (range_dec_ok (HC:=codec32be) (replicate 80 0) 16 buf 0); try done; try lia|].
  { replace (4 * 16) with (zlen buf) by lia. by apply bytes_get. }
  intros w0 [HF H0]. pose proof (frame_len _ _ _ _ HF) as Hl0. rewrite length_replicate in Hl0.
  set (S := fips_sched buf 64).
  apply (ok_for_up (fun i w => zlen w = 80 /\ forall j, 0 <= j < i -> get w j = get S j)).
  - lia.
  - split; [lia|]. intros j Hj. rewrite H0 by lia. unfold S.
    rewrite (get_fips_sched buf 0) by lia. cbn [fips_sched].
    rewrite get_map_seq by lia. by rewrite Z2Nat.id by lia.
  - intros i w Hi [Hw HS]. csteps. split; [by rewrite zlen_upd|]. intros j Hj.
    destruct (Z.eq_dec j i) as [->|]; [|rewrite get_upd_ne by lia; apply HS; lia].
    rewrite get_upd_eq, !HS by lia. unfold S.
    symmetry. apply fips_sched_next. lia.
  - intros w [Hw HS]. apply list_eq_get; unfold S in *; rewrite ?zlen_fips_sched; [lia|].
    intros j Hj. apply HS. lia.
Qed.

Lemma sha1_step_ok f K w a b c d e t (Q : Z * Z -> Prop) :
  0 <= t < zlen w -> (forall x y z, f x y z = fips_f t x y z) -> K = fips_K t ->
  Q (u32 (ROTL a 5 + fips_f t b c d + e + fips_K t + get w t), ROTL b 30) ->
  ok (sha1_step f K w a b c d e t) Q.
Proof.
  intros Ht Hf -> HQ. unfold sha1_step. csteps. rewrite Hf.
  by replace (e + ROTL a 5 + fips_f t b c d) with (ROTL a 5 + fips_f t b c d + e) by lia.
Qed.

Lemma sha1_loop_ok f K w r s0 :
  0 <= r < 4 -> zlen w = 80 -> (forall t x y z, t / 20 = r -> f x y z = fips_f t x y z) ->
  (forall t, t / 20 = r -> K = fips_K t) ->
  ok (for_n 4 (20 * r) 5 (sha1_body f K w) (fips_steps w (Z.to_nat (20 * r)) s0))
    (fun s => s = fips_steps w (Z.to_nat (20 * (r + 1))) s0).
Proof.
  intros Hr Hw Hf HK.
  apply (ok_for_n (fun i s => s = fips_steps w (Z.to_nat i) s0)); [done| |].
  - intros k s Hk ->. set (t := 20 * r + k * 5).
    replace (Z.to_nat (20 * r + (k + 1) * 5)) with (5 + Z.to_nat t)%nat by lia.
    cbn [fips_steps Nat.add]. rewrite !Nat2Z.inj_succ, Z2Nat.id by lia.
    destruct (fips_steps w (Z.to_nat t) s0) as [[[[a b] c] d] e]. unfold sha1_body, fips_step.
    assert (E : forall j, 0 <= j < 5 -> (t + j) / 20 = r).
    { intros j Hj. unfold t. symmetry. apply (Z.div_unique_pos _ _ _ (k * 5 + j)); lia. }
    pose proof (E 0 ltac:(lia)) as D0. pose proof (E 1 ltac:(lia)) as D1.
    pose proof (E 2 ltac:(lia)) as D2. pose proof (E 3 ltac:(lia)) as D3.
    pose proof (E 4 ltac:(lia)) as D4.
    do 5 (cstep; apply sha1_step_ok; [lia|intros; by apply Hf|by apply HK|]).
    cstep. rewrite Z.add_0_r. unfold Z.succ. rewrite <- !(Z.add_assoc t). done.
  - intros s ->. do 2 f_equal. lia.
Qed.

Lemma sha1_round_ok buf v : zlen buf = 64 -> byte_string buf -> zlen v = 5 ->
  ok (br_sha1_round buf v) (fun v' => v' = sha1_compress buf v).
Proof.
  intros Hl HB Hv. unfold br_sha1_round. do 10 cstep. cstep.
  eapply ok_mono; [by apply sha1_sched_ok|]. intros w ->. unfold sha1_compress. cbv zeta.
  set (w := fips_sched buf 64). assert (Hw : zlen w = 80) by (unfold w; by rewrite zlen_fips_sched).
  set (s0 := (get v 0, get v 1, get v 2, get v 3, get v 4)).
  cstep. eapply ok_mono; [apply (sha1_loop_ok _ _ w 0 s0); try done|].
  { intros t x y z Ht. unfold fips_f. rewrite Ht. apply sha1_F_ref. }
  { intros t Ht. unfold fips_K. by rewrite Ht. }
  intros ? ->. cstep. eapply ok_mono; [apply (sha1_loop_ok _ _ w 1 s0); try done|].
  { intros t x y z Ht. unfold fips_f. by rewrite Ht. } { intros t Ht. unfold fips_K. by rewrite Ht. }
  intros ? ->. cstep. eapply ok_mono; [apply (sha1_loop_ok _ _ w 2 s0); try done|].
  { intros t x y z Ht. unfold fips_f. rewrite Ht. apply sha1_H_ref. }
  { intros t Ht. unfold fips_K. by rewrite Ht. }
  intros ? ->. cstep. eapply ok_mono; [apply (sha1_loop_ok _ _ w 3 s0); try done|].
  { intros t x y z Ht. unfold fips_f. by rewrite Ht. } { intros t Ht. unfold fips_K. by rewrite Ht. }
  intros s' ->. change (Z.to_nat (20 * (3 + 1))) with 80%nat.
  destruct (fips_steps w 80 s0) as [[[[a b] c] d] e].
  do 4 (cstep; apply md5_add_ok; [rewrite ?zlen_upd; lia|]). apply md5_add_ok; [rewrite ?zlen_upd; lia|].
  rewrite !get_upd_ne by lia.
  do 5 (destruct v as [|? v]; [simpl in Hv; lia|]). destruct v as [|? v]; [done|simpl in Hv; lia].
Qed.

(** * The class *)

Definition sha1_lenf (c : Z) : list Z := be_words 8 [u64 (c << 3)] 1.

Lemma sha1_lenf_ok c : zlen (sha1_lenf c) = 64 - 56 /\ byte_string (sha1_lenf c).
Proof. split; [by apply zlen_be_words|apply be_words_bytes]. Qed.

Lemma sha1_len_ok buf c : zlen buf = 64 -> word 64 c ->
  ok (sha1_len buf c) (fun b => b = blit buf 56 (sha1_lenf c) 0 (64 - 56)).
Proof. intros. unfold sha1_len. apply enc64be_blit; auto with words; lia. Qed.

Lemma five (P : Z -> Prop) i : 0 <= i < 5 -> P 0 -> P 1 -> P 2 -> P 3 -> P 4 -> P i.
Proof.
  intros Hi ?????. by assert (i = 0 \/ i = 1 \/ i = 2 \/ i = 3 \/ i = 4)
    as [-> | [-> | [-> | [-> | ->]]]] by lia.
Qed.

Lemma sha1_compress_vok buf v : md_vok sha1_desc (sha1_compress buf v).
Proof.
  unfold sha1_compress. destruct (fips_steps _ 80 _) as [[[[a b] c] d] e]. split; [done|].
  intros i Hi. revert i Hi. intros i Hi. apply (five (fun i => word _ (get _ i)) i Hi); apply u32_word.
Qed.

Lemma sha1_round_vok buf v : zlen buf = 64 -> byte_string buf -> md_vok sha1_desc v ->
  ok (br_sha1_round buf v) (fun v' => v' = sha1_compress buf v /\ md_vok sha1_desc v').
Proof.
  intros Hl HB [Hv _]. eapply ok_mono; [by apply sha1_round_ok|]. intros v' ->.
  split; [done|apply sha1_compress_vok].
Qed.

Lemma sha1_iv_ok : md_vok sha1_desc br_sha1_IV.
Proof. split; [done|]. intros i Hi. by apply (five (fun i => word _ (get _ i)) i Hi). Qed.

#[export] Instance sha1_ok : MdOk sha1_desc sha1_compress sha1_lenf (be_words 4).
Proof.
  refine (Build_MdOk sha1_desc _ _ _ 6 eq_refl _ _ sha1_round_vok sha1_lenf_ok sha1_len_ok
    (word_bytes_be (HC:=codec32be)) sha1_iv_ok _ _); done.
Defined.

#[export] Instance br_sha1_spec : HashSpec br_sha1_class := md_spec sha1_desc.

(** SHA-1 of FIPS 180-4. *)
Definition SHA1 (msg : list Z) : list Z :=
  be_words 4 (md_hash 64 sha1_compress br_sha1_IV 56 sha1_lenf msg) 5.
