(* ===== verification/HashPad.v ===== *)
(** The padding of the hash functions seen from outside, and what they leak.

    [HashPad] is what a client that pads by itself relies on: the digest of a
    message is the running state after the message and its padding.  [HashCt] is
    what a client that must not leak relies on: the trace of an operation
    depends on the numbers of bytes, not on the bytes.  The descriptor flags
    [BR_HASHDESC_MD_PADDING_BE] and [BR_HASHDESC_MD_PADDING_128] of
    [br_hash_class] are the class [HashFlags].  MD5, SHA-1 and the SHA-2
    functions discharge both. *)
From stdpp Require Import base tactics list numbers option.
From Stdlib Require Import ZArith Lia.
From S2P Require Import Prelude CtPrims Limbs Codec I31CodecCt Hash Sha2 Md5 Sha1.
Local Open Scope Z_scope.
Local Open Scope cword_scope.

(** * Interfaces *)

Class HashFlags (HC : HashClass) := {
  desc_padding_be : bool;
  desc_padding_128 : bool
}.
Arguments desc_padding_be HC {_}.
Arguments desc_padding_128 HC {_}.

Section Padding.
Context {HC : HashClass} {HF : HashFlags HC}.

(** The least number of padding bytes. *)
Definition pad_min : Z := if desc_padding_128 HC then 17 else 9.

(** The bit length in eight bytes. *)
Definition len_bytes (n : Z) : list Z :=
  if desc_padding_be HC then be_words 8 [u64 (n << 3)] 1 else le_words 8 [u64 (n << 3)] 1.

(** The padding of a message of [n] bytes. *)
Definition pad_zeros (n : Z) : Z := (hash_block - pad_min - n) mod hash_block + (pad_min - 9).
Definition md_tail (n : Z) : list Z :=
  [0x80] ++ replicate (Z.to_nat (pad_zeros n)) 0 ++ len_bytes n.
End Padding.

Class HashPad (HC : HashClass) {HF : HashFlags HC} {HS : HashSpec HC} := {
  block_log : Z;
  block_pow : 0 <= block_log /\ hash_block = 2 ^ block_log;
  size_le_state : hash_size <= hash_state_size;
  hstate_bytes msg : byte_string (hstate msg);
  pad_digest msg : byte_string msg -> zlen msg < 2 ^ 61 ->
    digest msg = take (Z.to_nat hash_size) (hstate (msg ++ md_tail (zlen msg)))
}.

Class HashCt (HC : HashClass) {HS : HashSpec HC} := {
  hlike : hctx -> hctx -> Prop;
  hlike_rep c1 c2 m1 m2 : hrep c1 m1 -> hrep c2 m2 -> zlen m1 = zlen m2 -> hlike c1 c2;
  hash_init_ct c1 c2 : ct hlike (hash_init c1) (hash_init c2);
  hash_update_ct c1 c2 d1 d2 o n : hlike c1 c2 ->
    ct hlike (hash_update c1 d1 o n) (hash_update c2 d2 o n);
  hash_out_ct c1 c2 d1 d2 o : hlike c1 c2 -> blind (hash_out c1 d1 o) (hash_out c2 d2 o);
  hash_state_ct c1 c2 d1 d2 o : hlike c1 c2 ->
    ct (fun x y => snd x = snd y) (hash_state c1 d1 o) (hash_state c2 d2 o);
  hash_set_state_ct c1 c2 s1 s2 o n :
    ct hlike (hash_set_state c1 s1 o n) (hash_set_state c2 s2 o n)
}.

(** * The padding *)

Section Pad.
Context {HC : HashClass} {HF : HashFlags HC}.

Lemma pad_min_cases : pad_min = 9 \/ pad_min = 17.
Proof. unfold pad_min. destruct (desc_padding_128 HC); auto. Qed.

Lemma zlen_len_bytes n : zlen (len_bytes n) = 8.
Proof. unfold len_bytes. destruct (desc_padding_be HC); [by rewrite zlen_be_words|by rewrite zlen_le_words]. Qed.

Lemma len_bytes_bytes n : byte_string (len_bytes n).
Proof. unfold len_bytes. destruct (desc_padding_be HC); [apply be_words_bytes|apply le_words_bytes]. Qed.

Lemma get_be_word x i : 0 <= i < 8 -> get (be_words 8 [x] 1) i = u8 (x >> (56 - 8 * i)).
Proof.
  intros Hi. unfold be_words. rewrite get_map_seq by lia.
  replace (Z.of_nat (Z.to_nat i)) with i by lia.
  rewrite Z.div_small, Z.mod_small by lia. unfold get. simpl. f_equal. f_equal. lia.
Qed.

Lemma get_le_word x i : 0 <= i < 8 -> get (le_words 8 [x] 1) i = u8 (x >> (8 * i)).
Proof.
  intros Hi. unfold le_words. rewrite get_map_seq by lia.
  replace (Z.of_nat (Z.to_nat i)) with i by lia.
  rewrite Z.div_small, Z.mod_small by lia. done.
Qed.

Lemma get_len_bytes n i : 0 <= i < 8 -> get (len_bytes n) i =
  u8 (u64 (n << 3) >> (if desc_padding_be HC then 56 - 8 * i else 8 * i)).
Proof.
  intros Hi. unfold len_bytes. destruct (desc_padding_be HC); [by apply get_be_word|by apply get_le_word].
Qed.
End Pad.

(** The bytes of a tail. *)
Section Tail.
Context {HC : HashClass} {HF : HashFlags HC} {HS : HashSpec HC} (n : Z).

Lemma pad_zeros_range : 0 <= pad_zeros n /\ pad_zeros n < hash_block + 8.
Proof.
  pose proof hash_block_pos. unfold pad_zeros.
  set (a := hash_block - pad_min - n).
  assert (0 <= a mod hash_block < hash_block) by (apply Z.mod_pos_bound; lia).
  destruct pad_min_cases as [E|E]; rewrite E in *; lia.
Qed.

Lemma zlen_md_tail : zlen (md_tail n) = 9 + pad_zeros n.
Proof.
  pose proof pad_zeros_range. unfold md_tail. rewrite !zlen_app, zlen_len_bytes, length_replicate.
  simpl length. lia.
Qed.

Lemma md_tail_bytes : byte_string (md_tail n).
Proof.
  unfold md_tail. apply byte_string_app. split; [by repeat constructor|].
  apply byte_string_app. split; [apply byte_zeros|apply len_bytes_bytes].
Qed.

Lemma get_md_tail i : 0 <= i < 9 + pad_zeros n -> get (md_tail n) i =
  if i =? 0 then 0x80 else if i <=? pad_zeros n then 0 else get (len_bytes n) (i - 1 - pad_zeros n).
Proof.
  intros Hi. pose proof pad_zeros_range. unfold md_tail.
  destruct (Z.eqb_spec i 0) as [->|Hn]; [done|].
  rewrite get_app_r by (simpl length; lia). simpl length.
  destruct (Z.leb_spec i (pad_zeros n)).
  - rewrite get_app_l by (rewrite length_replicate; lia). by rewrite get_replicate by lia.
  - rewrite get_app_r by (rewrite length_replicate; lia). f_equal. rewrite length_replicate. lia.
Qed.

(** The padded message is made of whole blocks. *)
Lemma md_tail_whole : (n + zlen (md_tail n)) mod hash_block = 0.
Proof.
  pose proof hash_block_pos. rewrite zlen_md_tail. unfold pad_zeros.
  set (a := hash_block - pad_min - n). assert (E : a = hash_block * (a / hash_block) + a mod hash_block) by (apply Z.div_mod; lia).
  replace (n + (9 + (a mod hash_block + (pad_min - 9)))) with ((1 - a / hash_block) * hash_block)
    by (unfold a in *; lia).
  apply Z.mod_mul. lia.
Qed.
End Tail.

(** * The functions of the library *)

Section MdPad.
Context (P : md_desc) {comp lenf wds} {HM : MdOk P comp lenf wds}.

Context {HF : HashFlags (md_class P)}.
#[local] Instance md_class_here : HashClass := md_class P.
#[local] Instance md_spec_here : HashSpec md_class_here := md_spec P.
#[local] Instance md_flags_here : HashFlags md_class_here := HF.

Lemma md_tail_pad msg :
  md_LF P = md_B P + 1 - pad_min ->
  lenf (u64 (zlen msg)) = replicate (Z.to_nat (pad_min - 9)) 0 ++ len_bytes (zlen msg) ->
  md_pad (md_B P) (md_LF P) lenf msg = msg ++ md_tail (zlen msg).
Proof.
  intros HL Hl. pose proof (B_pos (md_B P) (md_k P) (md_B_k P) (md_k6 P)). unfold md_pad, md_tail. rewrite Hl.
  f_equal. f_equal. rewrite app_assoc, <- replicate_add. f_equal. f_equal.
  unfold pad_zeros. change hash_block with (md_B P). rewrite HL.
  replace (md_B P + 1 - pad_min - 1 - zlen msg) with (md_B P - pad_min - zlen msg) by lia.
  pose proof (Z.mod_pos_bound (md_B P - pad_min - zlen msg) (md_B P) ltac:(lia)).
  destruct pad_min_cases as [E|E]; rewrite E in *; lia.
Qed.

Lemma md_pad_digest msg :
  md_LF P = md_B P + 1 - pad_min ->
  lenf (u64 (zlen msg)) = replicate (Z.to_nat (pad_min - 9)) 0 ++ len_bytes (zlen msg) ->
  digest msg = take (Z.to_nat hash_size) (hstate (msg ++ md_tail (zlen msg))).
Proof.
  intros HL Hl. pose proof (md_num_range P).
  cbn [digest hstate md_spec_here md_spec]. unfold md_digest, md_hstate, md_hash. cbv zeta.
  rewrite md_tail_pad by done. symmetry. apply (wb_take (WordBytes:=md_words P)). lia.
Qed.

(** ** Leakage *)

(** The parts that run on the data. *)
Class MdCt := {
  md_round_ct b1 b2 v1 v2 : blind (md_round P b1 v1) (md_round P b2 v2);
  md_enclen_ct b1 b2 c : blind (md_enclen P b1 c) (md_enclen P b2 c);
  md_enc_ct d1 d2 o v1 v2 n : blind (md_enc P d1 o v1 n) (md_enc P d2 o v2 n);
  md_dec_ct v1 v2 n s1 s2 o : blind (md_dec P v1 n s1 o) (md_dec P v2 n s2 o)
}.
Context {HT : MdCt}.

#[local] Hint Resolve md_round_ct md_enclen_ct md_enc_ct md_dec_ct : blind.

Definition same_count (c1 c2 : mdctx (list Z)) : Prop := ccount c1 = ccount c2.

Lemma md_loop_ct fuel early : forall c1 c2 ptr d1 d2 pos len, same_count c1 c2 ->
  ct same_count (md_update_loop (md_B P) (md_round P) fuel early c1 ptr d1 pos len)
    (md_update_loop (md_B P) (md_round P) fuel early c2 ptr d2 pos len).
Proof.
  induction fuel as [|fuel IH]; intros c1 c2 ptr d1 d2 pos len HC; [by intros ??|].
  cbn [md_update_loop]. apply ct_cond; [done|intros _|intros _; by apply ct_ret]. cbv zeta.
  eapply (ct_bind eq).
  { apply ct_cond; [done|intros _..]; by apply ct_ret. }
  intros n ? <-. apply blind_bind; [apply blind_memcpy|intros b1 b2]. rewrite HC.
  apply ct_cond; [done|intros _..]; [|by apply IH].
  apply blind_bind; [apply md_round_ct|intros v1 v2]. by apply IH.
Qed.

Lemma md_prepad_ct c1 c2 : same_count c1 c2 ->
  blind (md_prepad (md_B P) (md_LF P) (md_round P) c1) (md_prepad (md_B P) (md_LF P) (md_round P) c2).
Proof.
  intros HC. unfold md_prepad. rewrite HC. cbv zeta.
  blind_auto.
Qed.

Lemma md_inject_ct c1 c2 d1 d2 o n : same_count c1 c2 ->
  ct same_count (md_inject P c1 d1 o n) (md_inject P c2 d2 o n).
Proof.
  intros HC. unfold md_inject, md_update. rewrite HC. apply md_loop_ct.
  by destruct (md_early P).
Qed.

Lemma md_output_ct c1 c2 d1 d2 o : same_count c1 c2 ->
  blind (md_output P c1 d1 o) (md_output P c2 d2 o).
Proof.
  intros HC. unfold md_output, md_out, md_final. blind_step; [|blind_auto].
  blind_step; [by apply md_prepad_ct|]. rewrite HC. blind_auto.
Qed.

Lemma md_init_ct c1 c2 : ct same_count (md_init P c1) (md_init P c2).
Proof. unfold md_init. blind_step; [blind_auto|]. by apply ct_ret. Qed.

Lemma md_state_ct c1 c2 d1 d2 o : same_count c1 c2 ->
  ct (fun x y => snd x = snd y) (md_state P c1 d1 o) (md_state P c2 d2 o).
Proof. intros HC. unfold md_state. blind_step; [blind_auto|]. by apply ct_ret. Qed.

Lemma md_set_state_ct c1 c2 s1 s2 o n : ct same_count (md_set_state P c1 s1 o n) (md_set_state P c2 s2 o n).
Proof. unfold md_set_state. blind_step; [blind_auto|]. by apply ct_ret. Qed.

Lemma md_rep_like c1 c2 m1 m2 : md_rep P (comp:=comp) c1 m1 -> md_rep P (comp:=comp) c2 m2 -> zlen m1 = zlen m2 -> same_count c1 c2.
Proof. intros H1 H2 E. unfold same_count. by rewrite (rep_count _ _ _ _ _ _ H1), (rep_count _ _ _ _ _ _ H2), E. Qed.

Definition md_hash_ct : HashCt (md_class P) (HS:=md_spec P) :=
  Build_HashCt (md_class P) (md_spec P) same_count md_rep_like md_init_ct md_inject_ct md_output_ct
    md_state_ct md_set_state_ct.
End MdPad.


Lemma range_enc_ct enc sz d1 d2 o v1 v2 n :
  (forall d1 d2 o x1 x2, blind (enc d1 o x1) (enc d2 o x2)) ->
  blind (range_enc enc sz d1 o v1 n) (range_enc enc sz d2 o v2 n).
Proof. intros H. unfold range_enc. blind_auto. Qed.
Lemma range_dec_ct dec sz v1 v2 n s1 s2 o :
  (forall s1 s2 o, blind (dec s1 o) (dec s2 o)) ->
  blind (range_dec dec sz v1 n s1 o) (range_dec dec sz v2 n s2 o).
Proof. intros H. unfold range_dec. blind_auto. Qed.

Lemma br_enc32le_ct d1 d2 o x1 x2 : blind (br_enc32le d1 o x1) (br_enc32le d2 o x2).
Proof. unfold br_enc32le. blind_auto. Qed.
Lemma br_dec32le_ct s1 s2 o : blind (br_dec32le s1 o) (br_dec32le s2 o).
Proof. unfold br_dec32le. blind_auto. Qed.
Lemma br_dec32be_ct s1 s2 o : blind (br_dec32be s1 o) (br_dec32be s2 o).
Proof. unfold br_dec32be. blind_auto. Qed.
#[export] Hint Resolve br_enc32be_ct br_enc32le_ct br_dec32le_ct br_dec32be_ct : blind.

Lemma br_enc64le_ct d1 d2 o x1 x2 : blind (br_enc64le d1 o x1) (br_enc64le d2 o x2).
Proof. unfold br_enc64le. blind_auto. Qed.
Lemma br_enc64be_ct d1 d2 o x1 x2 : blind (br_enc64be d1 o x1) (br_enc64be d2 o x2).
Proof. unfold br_enc64be. blind_auto. Qed.
Lemma br_dec64be_ct s1 s2 o : blind (br_dec64be s1 o) (br_dec64be s2 o).
Proof. unfold br_dec64be. blind_auto. Qed.
#[export] Hint Resolve br_enc64le_ct br_enc64be_ct br_dec64be_ct : blind.

Lemma br_range_enc32le_ct d1 d2 o v1 v2 n : blind (br_range_enc32le d1 o v1 n) (br_range_enc32le d2 o v2 n).
Proof. apply range_enc_ct. eauto with blind. Qed.
Lemma br_range_enc32be_ct d1 d2 o v1 v2 n : blind (br_range_enc32be d1 o v1 n) (br_range_enc32be d2 o v2 n).
Proof. apply range_enc_ct. eauto with blind. Qed.
Lemma br_range_enc64be_ct d1 d2 o v1 v2 n : blind (br_range_enc64be d1 o v1 n) (br_range_enc64be d2 o v2 n).
Proof. apply range_enc_ct. eauto with blind. Qed.
Lemma br_range_dec32le_ct v1 v2 n s1 s2 o : blind (br_range_dec32le v1 n s1 o) (br_range_dec32le v2 n s2 o).
Proof. apply range_dec_ct. eauto with blind. Qed.
Lemma br_range_dec32be_ct v1 v2 n s1 s2 o : blind (br_range_dec32be v1 n s1 o) (br_range_dec32be v2 n s2 o).
Proof. apply range_dec_ct. eauto with blind. Qed.
Lemma br_range_dec64be_ct v1 v2 n s1 s2 o : blind (br_range_dec64be v1 n s1 o) (br_range_dec64be v2 n s2 o).
Proof. apply range_dec_ct. eauto with blind. Qed.
#[export] Hint Resolve br_range_enc32le_ct br_range_enc32be_ct br_range_enc64be_ct
  br_range_dec32le_ct br_range_dec32be_ct br_range_dec64be_ct : blind.

(** ** The round functions *)

Lemma SHA2_STEP_ct P w1 w2 a b c d e f g h a' b' c' d' e' f' g' h' j :
  blind (SHA2_STEP P w1 a b c d e f g h j) (SHA2_STEP P w2 a' b' c' d' e' f' g' h' j).
Proof. unfold SHA2_STEP. blind_auto. Qed.
#[export] Hint Resolve SHA2_STEP_ct : blind.

Lemma sha2_steps8_ct P w1 w2 i s1 s2 : blind (sha2_steps8 P w1 i s1) (sha2_steps8 P w2 i s2).
Proof.
  destruct s1 as [[[[[[[a b] c] d] e] f] g] h], s2 as [[[[[[[a' b'] c'] d'] e'] f'] g'] h'].
  unfold sha2_steps8. blind_auto.
Qed.
#[export] Hint Resolve sha2_steps8_ct : blind.

Lemma add_to_ct P v1 v2 i x1 x2 : blind (add_to P v1 i x1) (add_to P v2 i x2).
Proof. unfold add_to. blind_auto. Qed.
Lemma md5_add_ct v1 v2 i x1 x2 : blind (md5_add v1 i x1) (md5_add v2 i x2).
Proof. unfold md5_add. blind_auto. Qed.
#[export] Hint Resolve add_to_ct md5_add_ct : blind.

Lemma sha2_round_ct P b1 b2 v1 v2 :
  (forall v1 v2 n s1 s2 o, blind (s2_dec P v1 n s1 o) (s2_dec P v2 n s2 o)) ->
  blind (sha2_round P b1 v1) (sha2_round P b2 v2).
Proof. intros Hd. unfold sha2_round, sha2_sched. blind_auto. Qed.

Lemma md5_body_ct f m1 m2 idx s0 s1 s2 s3 i a b : (forall i, ct eq (idx i) (idx i)) ->
  blind (md5_body f m1 idx s0 s1 s2 s3 i a) (md5_body f m2 idx s0 s1 s2 s3 i b).
Proof.
  intros HI. destruct a as [[[a1 b1] c1] d1], b as [[[a2 b2] c2] d2]. unfold md5_body, md5_step.
  do 4 (eapply (ct_bind (fun _ _ => True)); [eapply ct_bind; [apply HI|intros ? ? <-]; blind_auto|intros ? ? _]).
  blind_auto.
Qed.

Lemma br_md5_round_ct b1 b2 v1 v2 : blind (br_md5_round b1 v1) (br_md5_round b2 v2).
Proof. unfold br_md5_round. blind_auto; apply md5_body_ct; intros; apply ct_refl. Qed.

Lemma sha1_step_ct f K m1 m2 a b c d e a' b' c' d' e' i :
  blind (sha1_step f K m1 a b c d e i) (sha1_step f K m2 a' b' c' d' e' i).
Proof. unfold sha1_step. blind_auto. Qed.
#[export] Hint Resolve sha1_step_ct : blind.

Lemma sha1_body_ct f K m1 m2 i s1 s2 : blind (sha1_body f K m1 i s1) (sha1_body f K m2 i s2).
Proof.
  destruct s1 as [[[[a b] c] d] e], s2 as [[[[a' b'] c'] d'] e']. unfold sha1_body. blind_auto.
Qed.
#[export] Hint Resolve sha1_body_ct : blind.

Lemma br_sha1_round_ct b1 b2 v1 v2 : blind (br_sha1_round b1 v1) (br_sha1_round b2 v2).
Proof. unfold br_sha1_round, sha1_sched. blind_auto. Qed.

(** * The instances *)

#[export] Instance br_md5_flags : HashFlags br_md5_class :=
  {| desc_padding_be := false; desc_padding_128 := false |}.
#[export] Instance br_sha1_flags : HashFlags br_sha1_class :=
  {| desc_padding_be := true; desc_padding_128 := false |}.
#[export] Instance br_sha224_flags : HashFlags br_sha224_class :=
  {| desc_padding_be := true; desc_padding_128 := false |}.
#[export] Instance br_sha256_flags : HashFlags br_sha256_class :=
  {| desc_padding_be := true; desc_padding_128 := false |}.
#[export] Instance br_sha384_flags : HashFlags br_sha384_class :=
  {| desc_padding_be := true; desc_padding_128 := true |}.
#[export] Instance br_sha512_flags : HashFlags br_sha512_class :=
  {| desc_padding_be := true; desc_padding_128 := true |}.

(** A length below 2^61 has a bit length of 64 bits. *)
Lemma short_len (msg : list Z) : zlen msg < 2 ^ 61 -> u64 (zlen msg) = zlen msg.
Proof. intros. apply u64_small. unfold word. lia. Qed.

Lemma big_tail (msg : list Z) : zlen msg < 2 ^ 61 ->
  sha2big_lenf (u64 (zlen msg)) = replicate 8 0 ++ be_words 8 [u64 (zlen msg << 3)] 1.
Proof.
  intros H. rewrite short_len by done. unfold sha2big_lenf. f_equal.
  by replace (zlen msg >> 61) with 0 by (rewrite shr_div by lia; symmetry; apply Z.div_small; lia).
Qed.

Lemma short_tail (msg : list Z) wds : zlen msg < 2 ^ 61 ->
  wds 8 [u64 (u64 (zlen msg) << 3)] 1 = replicate 0 0 ++ wds 8 [u64 (zlen msg << 3)] 1 :> list Z.
Proof. intros H. by rewrite short_len. Qed.

#[export] Instance br_md5_pad : HashPad br_md5_class.
Proof.
  refine {| block_log := 6 |}; try done; [intros; apply le_words_bytes|]. intros msg _ Hm.
  apply (md_pad_digest md5_desc (HF:=br_md5_flags)); [done|]. by apply (short_tail msg le_words).
Defined.
#[export] Instance br_sha1_pad : HashPad br_sha1_class.
Proof.
  refine {| block_log := 6 |}; try done; [intros; apply be_words_bytes|]. intros msg _ Hm.
  apply (md_pad_digest sha1_desc (HF:=br_sha1_flags)); [done|]. by apply (short_tail msg be_words).
Defined.
#[export] Instance br_sha224_pad : HashPad br_sha224_class.
Proof.
  refine {| block_log := 6 |}; try done; [intros; apply be_words_bytes|]. intros msg _ Hm.
  apply (md_pad_digest sha224_desc (HF:=br_sha224_flags)); [done|]. by apply (short_tail msg be_words).
Defined.
#[export] Instance br_sha256_pad : HashPad br_sha256_class.
Proof.
  refine {| block_log := 6 |}; try done; [intros; apply be_words_bytes|]. intros msg _ Hm.
  apply (md_pad_digest sha256_desc (HF:=br_sha256_flags)); [done|]. by apply (short_tail msg be_words).
Defined.
#[export] Instance br_sha384_pad : HashPad br_sha384_class.
Proof.
  refine {| block_log := 7 |}; try done; [intros; apply be_words_bytes|]. intros msg _ Hm.
  apply (md_pad_digest sha384_desc (HF:=br_sha384_flags)); [done|]. by apply big_tail.
Defined.
#[export] Instance br_sha512_pad : HashPad br_sha512_class.
Proof.
  refine {| block_log := 7 |}; try done; [intros; apply be_words_bytes|]. intros msg _ Hm.
  apply (md_pad_digest sha512_desc (HF:=br_sha512_flags)); [done|]. by apply big_tail.
Defined.

Lemma sha2small_len_ct b1 b2 c : blind (sha2small_len b1 c) (sha2small_len b2 c).
Proof. unfold sha2small_len. blind_auto. Qed.
Lemma sha2big_len_ct b1 b2 c : blind (sha2big_len b1 c) (sha2big_len b2 c).
Proof. unfold sha2big_len. blind_auto. Qed.
Lemma sha2small_round_ct b1 b2 v1 v2 : blind (sha2_round sha2small b1 v1) (sha2_round sha2small b2 v2).
Proof. apply sha2_round_ct. apply br_range_dec32be_ct. Qed.
Lemma sha2big_round_ct b1 b2 v1 v2 : blind (sha2_round sha2big b1 v1) (sha2_round sha2big b2 v2).
Proof. apply sha2_round_ct. apply br_range_dec64be_ct. Qed.

#[export] Instance br_md5_ct : HashCt br_md5_class.
Proof.
  eapply md_hash_ct. split; [apply br_md5_round_ct| |apply br_range_enc32le_ct|apply br_range_dec32le_ct].
  intros. apply br_enc64le_ct.
Defined.
#[export] Instance br_sha1_ct : HashCt br_sha1_class.
Proof.
  eapply md_hash_ct. split; [apply br_sha1_round_ct| |apply br_range_enc32be_ct|apply br_range_dec32be_ct].
  intros. apply br_enc64be_ct.
Defined.
#[export] Instance br_sha224_ct : HashCt br_sha224_class.
Proof.
  eapply md_hash_ct. split; [apply sha2small_round_ct|apply sha2small_len_ct|apply br_range_enc32be_ct|apply br_range_dec32be_ct].
Defined.
#[export] Instance br_sha256_ct : HashCt br_sha256_class.
Proof.
  eapply md_hash_ct. split; [apply sha2small_round_ct|apply sha2small_len_ct|apply br_range_enc32be_ct|apply br_range_dec32be_ct].
Defined.
#[export] Instance br_sha384_ct : HashCt br_sha384_class.
Proof.
  eapply md_hash_ct. split; [apply sha2big_round_ct|apply sha2big_len_ct|apply br_range_enc64be_ct|apply br_range_dec64be_ct].
Defined.
#[export] Instance br_sha512_ct : HashCt br_sha512_class.
Proof.
  eapply md_hash_ct. split; [apply sha2big_round_ct|apply sha2big_len_ct|apply br_range_enc64be_ct|apply br_range_dec64be_ct].
Defined.
