(* ===== verification/Chacha20.v ===== *)
(** ChaCha20 ([src/symcipher/chacha20_ct.c]): the code computes the stream
    cipher of RFC 8439, in constant time; running it twice gives the data back. *)
From stdpp Require Import base tactics list numbers option.
From Stdlib Require Import ZArith Lia.
From S2P Require Import Prelude CtPrims Limbs Codec I31CodecCt Hash HashPad.
Local Open Scope Z_scope.
Local Open Scope cword_scope.

(** * Code *)

Definition CW : list Z := [0x61707865; 0x3320646e; 0x79622d32; 0x6b206574].

(** The statements of [QROUND] on the words [i] and [j] of the state. *)
Definition st_add (st : list Z) (i j : Z) : M (list Z) :=
  x ← load st i; y ← load st j; store st i (u32 (x + y)).
Definition st_xor (st : list Z) (i j : Z) : M (list Z) :=
  x ← load st i; y ← load st j; store st i (x .^ y).
Definition st_rot (st : list Z) (i n : Z) : M (list Z) :=
  x ← load st i; y ← load st i; store st i (u32 (x << n) .| (y >> (32 - n))).

Definition QROUND (st : list Z) (a b c d : Z) : M (list Z) :=
  st ← st_add st a b;
  st ← st_xor st d a;
  st ← st_rot st d 16;
  st ← st_add st c d;
  st ← st_xor st b c;
  st ← st_rot st b 12;
  st ← st_add st a b;
  st ← st_xor st d a;
  st ← st_rot st d 8;
  st ← st_add st c d;
  st ← st_xor st b c;
  st_rot st b 7.

Definition double_round (st : list Z) : M (list Z) :=
  st ← QROUND st 0 4 8 12;
  st ← QROUND st 1 5 9 13;
  st ← QROUND st 2 6 10 14;
  st ← QROUND st 3 7 11 15;
  st ← QROUND st 0 5 10 15;
  st ← QROUND st 1 6 11 12;
  st ← QROUND st 2 7 8 13;
  QROUND st 3 4 9 14.

(** The words [lo] to [hi] of the output: the state plus [src] from [lo - d]. *)
Definition out_words (st src : list Z) (d lo hi : Z) (tmp : list Z) : M (list Z) :=
  for_up lo hi (fun u tmp =>
    x ← load st u;
    y ← load src (u - d);
    br_enc32le tmp (u << 2) (u32 (x + y))) tmp.

(** A block of the key stream. *)
Definition chacha_block (kw ivw : list Z) (cc : Z) : M (list Z) :=
  let state := replicate 16 0 in
  let tmp := replicate 64 0 in
  state ← memcpy state 0 CW 0 4;
  state ← memcpy state 4 kw 0 8;
  state ← store state 12 cc;
  state ← memcpy state 13 ivw 0 3;
  state ← for_up 0 10 (fun _ => double_round) state;
  tmp ← out_words state CW 0 0 4 tmp;
  tmp ← out_words state kw 4 4 12 tmp;
  x ← load state 12;
  tmp ← br_enc32le tmp 48 (u32 (x + cc));
  out_words state ivw 13 13 16 tmp.

(** The loop on the blocks; the data are from [pos]. *)
Fixpoint chacha_loop (fuel : nat) (kw ivw : list Z) (cc : Z) (data : list Z) (pos len : Z)
    : M (list Z * Z) :=
  match fuel with
  | O => None
  | S fuel =>
      If 0 <? len Then
        tmp ← chacha_block kw ivw cc;
        clen ← (If len <? 64 Then mret len Else mret 64);
        data ← for_up 0 clen (fun u data =>
          x ← load data (pos + u); y ← load tmp u; store data (pos + u) (x .^ y)) data;
        chacha_loop fuel kw ivw (u32 (cc + 1)) data (pos + clen) (len - clen)
      Else mret (data, cc)
  end.

Definition br_chacha20_ct_run (key iv : list Z) (cc : Z) (data : list Z) (pos len : Z)
    : M (list Z * Z) :=
  kw ← for_up 0 8 (fun u kw => x ← br_dec32le key (u << 2); store kw u x) (replicate 8 0);
  ivw ← for_up 0 3 (fun u ivw => x ← br_dec32le iv (u << 2); store ivw u x) (replicate 3 0);
  chacha_loop (S (Z.to_nat len)) kw ivw cc data pos len.

(** * RFC 8439 *)

Definition rotl (x n : Z) : Z := (x * 2 ^ n) mod 2 ^ 32 + x / 2 ^ (32 - n).

(** Section 2.1. *)
Definition quarter (s : Z * Z * Z * Z) : Z * Z * Z * Z :=
  let '(a, b, c, d) := s in
  let a := u32 (a + b) in let d := rotl (d .^ a) 16 in
  let c := u32 (c + d) in let b := rotl (b .^ c) 12 in
  let a := u32 (a + b) in let d := rotl (d .^ a) 8 in
  let c := u32 (c + d) in let b := rotl (b .^ c) 7 in
  (a, b, c, d).

(** Section 2.2: the quarter round on four words of the state. *)
Definition quarter_at (st : list Z) (x y z w : Z) : list Z :=
  let '(a, b, c, d) := quarter (get st x, get st y, get st z, get st w) in
  upd (upd (upd (upd st x a) y b) z c) w d.

(** Section 2.3. *)
Definition inner_block (st : list Z) : list Z :=
  let st := quarter_at st 0 4 8 12 in
  let st := quarter_at st 1 5 9 13 in
  let st := quarter_at st 2 6 10 14 in
  let st := quarter_at st 3 7 11 15 in
  let st := quarter_at st 0 5 10 15 in
  let st := quarter_at st 1 6 11 12 in
  let st := quarter_at st 2 7 8 13 in
  quarter_at st 3 4 9 14.

Definition key_words (s : list Z) (n : nat) : list Z := map (fun i => vle s (4 * Z.of_nat i) 4) (seq 0 n).
(** The four constants: the bytes of "expand 32-byte k". *)
Definition chacha_constants : list Z :=
  key_words [101; 120; 112; 97; 110; 100; 32; 51; 50; 45; 98; 121; 116; 101; 32; 107] 4.
Definition chacha_state (key : list Z) (ctr : Z) (nonce : list Z) : list Z :=
  chacha_constants ++ key_words key 8 ++ [ctr] ++ key_words nonce 3.
Definition chacha20_block (key : list Z) (ctr : Z) (nonce : list Z) : list Z :=
  let st := chacha_state key ctr nonce in
  le_words 4 (zip_with (fun x y => u32 (x + y)) (Nat.iter 10 inner_block st) st) 16.

(** Section 2.4: the key stream and the cipher. *)
Definition chacha_stream (key : list Z) (ctr : Z) (nonce : list Z) (i : Z) : Z :=
  get (chacha20_block key (u32 (ctr + i / 64)) nonce) (i mod 64).
Definition chacha20 (key : list Z) (ctr : Z) (nonce : list Z) (msg : list Z) : list Z :=
  map (fun i => get msg (Z.of_nat i) .^ chacha_stream key ctr nonce (Z.of_nat i)) (seq 0 (length msg)).

(** * The quarter round *)

Definition state_ok (st : list Z) : Prop := zlen st = 16 /\ limbs 32 st 0 16.

Lemma rot_rotl x n : word 32 x -> 0 < n < 32 -> u32 (x << n) .| (x >> (32 - n)) = rotl x n.
Proof.
  unfold word. intros Hx Hn. rewrite shl_mul, shr_div by lia. unfold rotl, u32.
  set (k := 32 - n). assert (E : 2 ^ 32 = 2 ^ k * 2 ^ n) by (rewrite <- Z.pow_add_r by lia; f_equal; lia).
  pose proof (Z.pow_pos_nonneg 2 n ltac:(lia) ltac:(lia)). pose proof (Z.pow_pos_nonneg 2 k ltac:(lia) ltac:(lia)).
  rewrite E, Z.mul_mod_distr_r by lia. rewrite lor_disjoint'; [lia|lia|].
  split; [apply Z.div_pos; lia|]. apply Z.div_lt_upper_bound; lia.
Qed.

Lemma rotl_word x n : word 32 x -> 0 < n < 32 -> word 32 (rotl x n).
Proof.
  intros Hx Hn. rewrite <- rot_rotl by done. apply word_lor; [lia|apply u32_word|].
  unfold word in *. rewrite shr_div by lia. split; [apply Z.div_pos; lia|].
  apply Z.div_lt_upper_bound; [lia|]. assert (0 < 2 ^ (32 - n)) by lia. nia.
Qed.

Section Quarter.
Context (st : list Z) (a b c d : Z) (Hl : zlen st = 16)
  (Hr : 0 <= a < 16 /\ 0 <= b < 16 /\ 0 <= c < 16 /\ 0 <= d < 16)
  (Hne : a <> b /\ a <> c /\ a <> d /\ b <> c /\ b <> d /\ c <> d).

Definition qs (A B C D : Z) : list Z := upd (upd (upd (upd st a A) b B) c C) d D.

Lemma qs_len A B C D : zlen (qs A B C D) = 16.
Proof. unfold qs. by rewrite !zlen_upd. Qed.

Ltac qs_solve := unfold qs; repeat first [rewrite get_upd_eq by (rewrite ?zlen_upd; lia)
  | rewrite get_upd_ne by lia]; try done.
Lemma qs_a A B C D : get (qs A B C D) a = A. Proof. qs_solve. Qed.
Lemma qs_b A B C D : get (qs A B C D) b = B. Proof. qs_solve. Qed.
Lemma qs_c A B C D : get (qs A B C D) c = C. Proof. qs_solve. Qed.
Lemma qs_d A B C D : get (qs A B C D) d = D. Proof. qs_solve. Qed.
Lemma qs_out A B C D i : 0 <= i -> i <> a -> i <> b -> i <> c -> i <> d -> get (qs A B C D) i = get st i.
Proof. intros. qs_solve. Qed.

(** The four words and the others determine the state. *)
Lemma qs_eq s A B C D : zlen s = 16 -> get s a = A -> get s b = B -> get s c = C -> get s d = D ->
  (forall i, 0 <= i -> i <> a -> i <> b -> i <> c -> i <> d -> get s i = get st i) -> s = qs A B C D.
Proof.
  intros HL Ea Eb Ec Ed Eo. apply list_eq_get; [rewrite qs_len; lia|]. intros i Hi.
  destruct (Z.eq_dec i a) as [->|]; [by rewrite qs_a|]. destruct (Z.eq_dec i b) as [->|]; [by rewrite qs_b|].
  destruct (Z.eq_dec i c) as [->|]; [by rewrite qs_c|]. destruct (Z.eq_dec i d) as [->|]; [by rewrite qs_d|].
  rewrite qs_out by (done || lia). apply Eo; done || lia.
Qed.

Ltac qs_upd := apply qs_eq; [by rewrite zlen_upd, qs_len|..];
  [first [rewrite get_upd_eq by (rewrite qs_len; lia) | rewrite get_upd_ne by lia]; auto using qs_a, qs_b, qs_c, qs_d..|];
  intros; rewrite get_upd_ne by (done || lia); by apply qs_out.
Lemma upd_a A B C D v : upd (qs A B C D) a v = qs v B C D. Proof. qs_upd. Qed.
Lemma upd_b A B C D v : upd (qs A B C D) b v = qs A v C D. Proof. qs_upd. Qed.
Lemma upd_c A B C D v : upd (qs A B C D) c v = qs A B v D. Proof. qs_upd. Qed.
Lemma upd_d A B C D v : upd (qs A B C D) d v = qs A B C v. Proof. qs_upd. Qed.
Lemma qs_start : st = qs (get st a) (get st b) (get st c) (get st d).
Proof. by apply qs_eq. Qed.

Lemma qs_ok A B C D : limbs 32 st 0 16 -> word 32 A -> word 32 B -> word 32 C -> word 32 D ->
  state_ok (qs A B C D).
Proof.
  intros HL HA HB HC HD. split; [apply qs_len|]. intros i Hi.
  destruct (Z.eq_dec i a) as [->|]; [by rewrite qs_a|]. destruct (Z.eq_dec i b) as [->|]; [by rewrite qs_b|].
  destruct (Z.eq_dec i c) as [->|]; [by rewrite qs_c|]. destruct (Z.eq_dec i d) as [->|]; [by rewrite qs_d|].
  rewrite qs_out by (done || lia). apply HL. lia.
Qed.

Ltac qs_op := unfold st_add, st_xor, st_rot;
  do 2 (cstep; apply ok_load; [rewrite qs_len; lia|]); apply ok_store; [rewrite qs_len; lia|];
  rewrite ?qs_a, ?qs_b, ?qs_c, ?qs_d, ?upd_a, ?upd_b, ?upd_c, ?upd_d.
Lemma add_ab A B C D Q : Q (qs (u32 (A + B)) B C D) -> ok (st_add (qs A B C D) a b) Q.
Proof. intros. by qs_op. Qed.
Lemma add_cd A B C D Q : Q (qs A B (u32 (C + D)) D) -> ok (st_add (qs A B C D) c d) Q.
Proof. intros. by qs_op. Qed.
Lemma xor_da A B C D Q : Q (qs A B C (D .^ A)) -> ok (st_xor (qs A B C D) d a) Q.
Proof. intros. by qs_op. Qed.
Lemma xor_bc A B C D Q : Q (qs A (B .^ C) C D) -> ok (st_xor (qs A B C D) b c) Q.
Proof. intros. by qs_op. Qed.
Lemma rot_d A B C D n Q : word 32 D -> 0 < n < 32 -> Q (qs A B C (rotl D n)) -> ok (st_rot (qs A B C D) d n) Q.
Proof. intros. qs_op. by rewrite rot_rotl. Qed.
Lemma rot_b A B C D n Q : word 32 B -> 0 < n < 32 -> Q (qs A (rotl B n) C D) -> ok (st_rot (qs A B C D) b n) Q.
Proof. intros. qs_op. by rewrite rot_rotl. Qed.

Lemma xor_word x y : word 32 x -> word 32 y -> word 32 (x .^ y).
Proof. by apply word_lxor. Qed.

Lemma QROUND_ok : limbs 32 st 0 16 ->
  ok (QROUND st a b c d) (fun s => s = quarter_at st a b c d /\ state_ok s).
Proof.
  intros HL. unfold QROUND, quarter_at, quarter. cbv zeta.
  assert (HA : word 32 (get st a)) by (apply HL; lia). assert (HB : word 32 (get st b)) by (apply HL; lia).
  assert (HC : word 32 (get st c)) by (apply HL; lia). assert (HD : word 32 (get st d)) by (apply HL; lia).
  rewrite qs_start at 1. revert HA HB HC HD.
  generalize (get st a) as A, (get st b) as B, (get st c) as C, (get st d) as D.
  intros A B C D HA HB HC HD.
  assert (W : forall x n, word 32 x -> 0 < n < 32 -> word 32 (rotl x n)) by apply rotl_word.
  do 2 (cstep; apply add_ab; cstep; apply xor_da; cstep; apply rot_d; [auto 6 using xor_word, u32_word with lia|lia|];
    cstep; apply add_cd; cstep; apply xor_bc; try cstep; apply rot_b; [auto 6 using xor_word, u32_word with lia|lia|]).
  split; [done|]. apply qs_ok; auto 8 using xor_word, u32_word with lia.
Qed.
End Quarter.

(** * The block function *)

Lemma double_round_ok st : state_ok st ->
  ok (double_round st) (fun s => s = inner_block st /\ state_ok s).
Proof.
  intros Hs. unfold double_round, inner_block.
  do 7 (cstep; eapply ok_mono; [apply QROUND_ok; [apply Hs|lia|lia|apply Hs]|]; clear Hs; intros ? [-> Hs]).
  eapply ok_mono; [apply QROUND_ok; [apply Hs|lia|lia|apply Hs]|]. done.
Qed.

Lemma rounds_ok st : state_ok st ->
  ok (for_up 0 10 (fun _ => double_round) st) (fun s => s = Nat.iter 10 inner_block st /\ state_ok s).
Proof.
  intros Hs. apply (ok_for_up (fun i s => s = Nat.iter (Z.to_nat i) inner_block st /\ state_ok s)); [lia|done| |].
  - intros i s Hi [-> Hs']. eapply ok_mono; [by apply double_round_ok|]. intros s' [-> Hs'']. split; [|done].
    replace (Z.to_nat (i + 1)) with (S (Z.to_nat i)) by lia. symmetry. apply Nat.iter_succ.
  - done.
Qed.

(** The first [n] words of a string of output. *)
Definition out_upto (vs tmp : list Z) (n : Z) : Prop :=
  zlen tmp = 64 /\ bytes tmp 0 (4 * n) /\ forall i, 0 <= i < n -> vle tmp (4 * i) 4 = get vs i.

Lemma out_word_ok vs tmp n x : out_upto vs tmp n -> 0 <= n < 16 -> word 32 x -> x = get vs n ->
  ok (br_enc32le tmp (4 * n) x) (fun t => out_upto vs t (n + 1)).
Proof.
  intros (HL & HB & HV) Hn Hx Ex. eapply ok_mono; [apply (codec_enc (WordCodec:=codec32le)); first [done|lia]|].
  intros t (HF & HB' & HV'). split; [rewrite (frame_len _ _ _ _ HF); lia|]. split.
  - intros i Hi. destruct (Z.lt_ge_cases i (4 * n)).
    + rewrite (frame_get _ _ _ _ i HF) by lia. apply HB. lia.
    + apply HB'. lia.
  - intros i Hi. destruct (Z.eq_dec i n) as [->|]; [by rewrite HV'|].
    rewrite <- HV by lia. apply val_ext. intros j Hj. apply (frame_get _ _ _ _ _ HF); lia.
Qed.

Lemma out_words_ok vs st src d lo hi tmp : out_upto vs tmp lo -> 0 <= lo <= hi -> hi <= 16 -> 0 <= lo - d ->
  hi <= zlen st -> hi - d <= zlen src ->
  (forall i, lo <= i < hi -> u32 (get st i + get src (i - d)) = get vs i) ->
  ok (out_words st src d lo hi tmp) (fun t => out_upto vs t hi).
Proof.
  intros HT Hlo Hhi Hd Hst Hsrc HE. apply (ok_for_up (fun u t => out_upto vs t u)); [lia|done| |done].
  intros u t Hu HT'. cstep. apply ok_load; [lia|]. cstep. apply ok_load; [lia|].
  rewrite shl_mul by lia. rewrite Z.mul_comm. apply out_word_ok; [done|lia|apply u32_word|]. apply HE. lia.
Qed.

Lemma zlen_key_words s n : zlen (key_words s n) = Z.of_nat n.
Proof. unfold key_words. by rewrite length_map, length_seq. Qed.

Lemma get_key_words s n i : 0 <= i < Z.of_nat n -> get (key_words s n) i = vle s (4 * i) 4.
Proof. intros. unfold key_words. rewrite get_map_seq by lia. by rewrite Z2Nat.id by lia. Qed.

Lemma key_words_limbs s n : bytes s 0 (4 * Z.of_nat n) -> limbs 32 (key_words s n) 0 (Z.of_nat n).
Proof.
  intros HB i Hi. rewrite get_key_words by lia. apply (val_bound 8); [lia..|].
  apply (limbs_sub 8 s 0 (4 * Z.of_nat n)); [done|lia..].
Qed.

(** The table of the code holds the constants. *)
Lemma chacha_state_CW key ctr nonce : chacha_state key ctr nonce = CW ++ key_words key 8 ++ [ctr] ++ key_words nonce 3.
Proof. reflexivity. Qed.

Section Block.
Context (key nonce : list Z) (Hk : bytes key 0 32) (Hn : bytes nonce 0 12).

Lemma chacha_state_ok cc : word 32 cc -> state_ok (chacha_state key cc nonce).
Proof.
  intros Hc. pose proof (key_words_limbs key 8 Hk) as H1. pose proof (key_words_limbs nonce 3 Hn) as H2.
  split; [by rewrite chacha_state_CW|]. intros i Hi. rewrite chacha_state_CW.
  destruct (Z.lt_ge_cases i 4).
  { rewrite get_app_l by (simpl length; lia). assert (i = 0 \/ i = 1 \/ i = 2 \/ i = 3) as HI by lia.
    destruct HI as [->|[->|[->| ->]]]; done. }
  rewrite get_app_r by (simpl length; lia). change (zlen CW) with 4. destruct (Z.lt_ge_cases i 12).
  { rewrite get_app_l by (rewrite zlen_key_words; lia). apply H1. lia. }
  rewrite get_app_r by (rewrite zlen_key_words; lia). rewrite zlen_key_words.
  destruct (Z.eq_dec i 12) as [->|]; [done|].
  rewrite get_app_r by (simpl length; lia). apply H2. simpl length. lia.
Qed.

Lemma get_zip f (l k : list Z) i : zlen l = zlen k -> 0 <= i < zlen l ->
  get (zip_with f l k) i = f (get l i) (get k i).
Proof.
  intros HL Hi. rewrite !get_lookup, lookup_zip_with.
  destruct (lookup_lt_is_Some_2 l (Z.to_nat i)) as [x ->]; [lia|].
  destruct (lookup_lt_is_Some_2 k (Z.to_nat i)) as [y ->]; [lia|]. done.
Qed.

Lemma chacha_block_ok cc : word 32 cc ->
  ok (chacha_block (key_words key 8) (key_words nonce 3) cc) (fun t => t = chacha20_block key cc nonce).
Proof.
  intros Hc. unfold chacha_block. cbv zeta.
  do 2 (cstep; apply ok_memcpy; [done..|]). cstep. apply ok_store; [done|]. cstep. apply ok_memcpy; [done..|].
  set (st0 := blit _ _ _ _ _). assert (E0 : st0 = chacha_state key cc nonce) by reflexivity.
  rewrite E0. pose proof (chacha_state_ok cc Hc) as HS. unfold chacha20_block. cbv zeta.
  set (st := chacha_state key cc nonce) in *. cstep. eapply ok_mono; [by apply rounds_ok|].
  intros fin [-> HF]. set (fin := Nat.iter 10 inner_block st) in *. destruct HS as [LS _]. destruct HF as [LF _].
  set (vs := zip_with _ _ _).
  assert (HV : forall i, 0 <= i < 16 -> get vs i = u32 (get fin i + get st i))
    by (intros i Hi; unfold vs; rewrite get_zip by lia; done).
  assert (HG : forall i, 4 <= i < 12 -> get st i = get (key_words key 8) (i - 4)).
  { intros i Hi. unfold st. rewrite chacha_state_CW. rewrite get_app_r by (simpl length; lia).
    rewrite get_app_l by (rewrite zlen_key_words; simpl length; lia). done. }
  cstep. eapply ok_mono.
  { apply (out_words_ok vs fin CW 0 0 4); try lia;
      [split; [done|split; intros ? ?; lia]|simpl length; lia|]. intros i Hi. rewrite HV by lia.
    do 2 f_equal. unfold st. rewrite chacha_state_CW. rewrite get_app_l by (simpl length; lia). f_equal. lia. }
  intros t1 H1. cstep. eapply ok_mono.
  { apply (out_words_ok vs fin (key_words key 8) 4 4 12); try lia; [done|rewrite zlen_key_words; lia|].
    intros i Hi. rewrite HV, HG by lia. done. }
  intros t2 H2. cstep. apply ok_load; [lia|]. cstep. eapply ok_mono.
  { apply (out_word_ok vs t2 12); [done|lia|apply u32_word|]. rewrite HV by lia. done. }
  intros t3 H3. eapply ok_mono.
  { apply (out_words_ok vs fin (key_words nonce 3) 13 13 16); try lia; [done|rewrite zlen_key_words; lia|].
    intros i Hi. rewrite HV by lia. do 2 f_equal. unfold st. rewrite chacha_state_CW.
    rewrite get_app_r by (simpl length; lia). rewrite get_app_r by (rewrite zlen_key_words; simpl length; lia).
    rewrite get_app_r by (rewrite zlen_key_words; simpl length; lia). f_equal. rewrite zlen_key_words. simpl length. lia. }
  intros t4 (L4 & B4 & V4). rewrite <- (slice_all t4 64 L4).
  apply (slice_le_words t4 0 4 vs 16); try lia; [done|]. intros i Hi. by apply V4.
Qed.

(** * The cipher *)

Lemma zlen_chacha20_block cc : zlen (chacha20_block key cc nonce) = 64.
Proof. unfold chacha20_block. by rewrite zlen_le_words. Qed.

Lemma xor_block_ok cc data pos n : 0 <= pos -> 0 <= n <= 64 -> pos + n <= zlen data ->
  ok (for_up 0 n (fun u data => x ← load data (pos + u);
        y ← load (chacha20_block key cc nonce) u; store data (pos + u) (x .^ y)) data)
    (fun d => frame pos (pos + n) data d /\ forall i, 0 <= i < n ->
      get d (pos + i) = get data (pos + i) .^ get (chacha20_block key cc nonce) i).
Proof.
  intros Hp Hn' Hl. pose proof (zlen_chacha20_block cc) as HZ.
  apply (ok_for_up (fun u d => frame pos (pos + n) data d /\
    (forall i, u <= i < n -> get d (pos + i) = get data (pos + i)) /\
    forall i, 0 <= i < u -> get d (pos + i) = get data (pos + i) .^ get (chacha20_block key cc nonce) i)).
  - lia.
  - split; [apply frame_refl|]. split; [done|]. lia.
  - intros u d Hu (HF & H1 & H2). pose proof (frame_len _ _ _ _ HF). csteps; try lia.
    split; [eapply frame_trans; [done|]; apply frame_upd; lia|]. split.
    + intros i Hi. rewrite get_upd_ne by lia. apply H1. lia.
    + intros i Hi. destruct (Z.eq_dec i u) as [->|]; [rewrite get_upd_eq, H1 by lia; done|].
      rewrite get_upd_ne by lia. apply H2. lia.
  - intros d (HF & _ & H2). done.
Qed.

Lemma chacha_loop_ok fuel : forall cc data pos len, word 32 cc -> 0 <= pos -> 0 <= len -> pos + len <= zlen data ->
  len < Z.of_nat fuel ->
  ok (chacha_loop fuel (key_words key 8) (key_words nonce 3) cc data pos len) (fun '(d, c) =>
    frame pos (pos + len) data d /\ c = u32 (cc + (len + 63) / 64) /\
    forall i, 0 <= i < len -> get d (pos + i) = get data (pos + i) .^ chacha_stream key cc nonce i).
Proof.
  induction fuel as [|fuel IH]; intros cc data pos len Hc Hp Hlen Hl Hf; [lia|]. cbn [chacha_loop].
  apply ok_cond; intros Ht; [apply Z.ltb_lt in Ht|apply Z.ltb_ge in Ht; cstep].
  2: { assert (len = 0) as -> by lia. split; [apply frame_refl|]. split; [by rewrite Z.add_0_r, u32_small|lia]. }
  cstep. eapply ok_mono; [by apply chacha_block_ok|]. intros ? ->.
  cstep. apply (ok_mono _ (fun n => n = Z.min len 64)).
  { apply ok_cond; intros E; [apply Z.ltb_lt in E|apply Z.ltb_ge in E]; cstep; lia. }
  intros n ->. set (n := Z.min len 64). cstep. eapply ok_mono; [apply (xor_block_ok cc data pos n); lia|].
  intros d1 [HF1 H1]. pose proof (frame_len _ _ _ _ HF1).
  eapply ok_mono; [apply IH; try lia; apply u32_word|]. intros [d c] (HF & -> & HV).
  split; [|split].
  - eapply frame_trans; [eapply frame_weaken; [exact HF1|lia..]|eapply frame_weaken; [exact HF|lia..]].
  - unfold u32. rewrite Z.add_mod_idemp_l by lia. f_equal. unfold n. destruct (Z.min_spec len 64) as [[? ->]|[? ->]].
    + rewrite Z.sub_diag. zn.
    + replace (len + 63) with (len - 64 + 63 + 1 * 64) by lia. rewrite Z.div_add by lia. lia.
  - intros i Hi. unfold chacha_stream. destruct (Z.lt_ge_cases i n).
    + rewrite (frame_get _ _ _ _ (pos + i) HF), H1 by lia.
      rewrite Z.div_small, Z.mod_small, Z.add_0_r, u32_small by (lia || done). done.
    + assert (En : n = 64) by lia. rewrite En in *.
      replace (pos + i) with (pos + 64 + (i - 64)) by lia. rewrite HV by lia.
      rewrite (frame_get _ _ _ _ _ HF1) by lia. unfold chacha_stream.
      assert (Ei : i / 64 = 1 + (i - 64) / 64) by zn. assert (Em : i mod 64 = (i - 64) mod 64) by zn.
      assert (Ec : u32 (u32 (cc + 1) + (i - 64) / 64) = u32 (cc + (1 + (i - 64) / 64)))
        by (unfold u32; rewrite Z.add_mod_idemp_l by lia; f_equal; lia).
      replace (pos + 64 + (i - 64)) with (pos + i) by lia. by rewrite Ei, Em, Ec.
Qed.

Lemma decode_words_ok s n : bytes s 0 (4 * Z.of_nat n) -> 4 * Z.of_nat n <= zlen s ->
  ok (for_up 0 (Z.of_nat n) (fun u kw => x ← br_dec32le s (u << 2); store kw u x) (replicate n 0))
    (fun kw => kw = key_words s n).
Proof.
  intros HB Hl. apply (ok_for_up (fun u kw => zlen kw = Z.of_nat n /\
    forall i, 0 <= i < u -> get kw i = vle s (4 * i) 4)).
  - lia.
  - split; [by rewrite length_replicate|lia].
  - intros u kw Hu [HL HV]. rewrite shl_mul by lia. change (2 ^ 2) with 4. rewrite (Z.mul_comm u). cstep.
    eapply ok_mono; [apply (codec_dec (WordCodec:=codec32le)); [lia|lia|apply (limbs_sub 8 s 0 (4 * Z.of_nat n)); [done|lia..]]|].
    intros x [-> _]. apply ok_store; [lia|]. split; [by rewrite zlen_upd|]. intros i Hi.
    destruct (Z.eq_dec i u) as [->|]; [by rewrite get_upd_eq by lia|]. rewrite get_upd_ne by lia. apply HV. lia.
  - intros kw [HL HV]. apply list_eq_get; [by rewrite zlen_key_words|]. intros i Hi.
    rewrite get_key_words by lia. apply HV. lia.
Qed.
End Block.

Lemma zlen_chacha20 key cc nonce msg : zlen (chacha20 key cc nonce msg) = zlen msg.
Proof. unfold chacha20. by rewrite length_map, length_seq. Qed.

Lemma get_chacha20 key cc nonce msg i : 0 <= i < zlen msg ->
  get (chacha20 key cc nonce msg) i = get msg i .^ chacha_stream key cc nonce i.
Proof. intros. unfold chacha20. rewrite get_map_seq by lia. by rewrite Z2Nat.id by lia. Qed.

(** The counter after [len] bytes. *)
Definition chacha_end (cc len : Z) : Z := u32 (cc + (len + 63) / 64).

Lemma chacha20_run_ok key iv cc data pos len :
  32 <= zlen key -> 12 <= zlen iv -> bytes key 0 32 -> bytes iv 0 12 -> word 32 cc ->
  0 <= pos -> 0 <= len -> pos + len <= zlen data ->
  ok (br_chacha20_ct_run key iv cc data pos len) (fun '(d, c) =>
    frame pos (pos + len) data d /\ c = chacha_end cc len /\
    slice d pos len = chacha20 key cc iv (slice data pos len)).
Proof.
  intros Lk Ln Hk Hn Hc Hp Hlen Hl. unfold br_chacha20_ct_run.
  cstep. eapply ok_mono; [apply (decode_words_ok key 8); done|]. intros ? ->.
  cstep. eapply ok_mono; [apply (decode_words_ok iv 3); done|]. intros ? ->.
  eapply ok_mono; [apply (chacha_loop_ok key iv Hk Hn); done || lia|]. intros [d c] (HF & -> & HV).
  split; [done|]. split; [done|]. pose proof (frame_len _ _ _ _ HF).
  apply list_eq_get; [by rewrite zlen_chacha20, !zlen_slice by lia|]. rewrite zlen_slice by lia.
  intros i Hi. rewrite get_chacha20, !get_slice by (rewrite ?zlen_slice; lia). by apply HV.
Qed.

(** [C25] [br_chacha20_ct_run] xors the data with the key stream of RFC 8439 from
    the block [cc], for every length, and returns the next block number; it
    modifies nothing else. *)
Theorem br_chacha20_ct_run_correct key iv cc data pos len :
  32 <= zlen key -> 12 <= zlen iv -> bytes key 0 32 -> bytes iv 0 12 -> word 32 cc ->
  0 <= pos -> 0 <= len -> pos + len <= zlen data ->
  ok (br_chacha20_ct_run key iv cc data pos len) (fun '(d, c) =>
    frame pos (pos + len) data d /\ c = chacha_end cc len /\
    slice d pos len = chacha20 key cc iv (slice data pos len)).
Proof. apply chacha20_run_ok. Qed.

Lemma br_chacha20_ct_run_correct_witness :
  ok (br_chacha20_ct_run (map Z.of_nat (seq 0 32)) (replicate 12 7) 1 (replicate 80 5) 3 70) (fun '(d, c) =>
    frame 3 73 (replicate 80 5) d /\ c = 3 /\
    slice d 3 70 = chacha20 (map Z.of_nat (seq 0 32)) 1 (replicate 12 7) (replicate 70 5)).
Proof.
  apply (br_chacha20_ct_run_correct (map Z.of_nat (seq 0 32)) (replicate 12 7) 1 (replicate 80 5) 3 70);
    try done; by apply limbsb_limbs.
Defined.

(** Decryption is encryption. *)
Lemma chacha20_involutive key cc nonce msg : chacha20 key cc nonce (chacha20 key cc nonce msg) = msg.
Proof.
  apply list_eq_get; rewrite !zlen_chacha20; [done|]. intros i Hi.
  rewrite !get_chacha20 by (rewrite ?zlen_chacha20; lia).
  by rewrite Z.lxor_assoc, Z.lxor_nilpotent, Z.lxor_0_r.
Qed.

(** Running the cipher again with the same key, nonce and block number gives
    the data back. *)
Theorem br_chacha20_ct_round_trip key iv cc data pos len :
  32 <= zlen key -> 12 <= zlen iv -> bytes key 0 32 -> bytes iv 0 12 -> word 32 cc ->
  0 <= pos -> 0 <= len -> pos + len <= zlen data ->
  ok ('(data, _) ← br_chacha20_ct_run key iv cc data pos len;
      br_chacha20_ct_run key iv cc data pos len) (fun '(d, _) => d = data).
Proof.
  intros Lk Ln Hk Hn Hc Hp Hlen Hl. cstep. eapply ok_mono; [by apply chacha20_run_ok|].
  intros [d c] (HF & _ & HS). pose proof (frame_len _ _ _ _ HF) as L.
  eapply ok_mono; [apply (chacha20_run_ok key iv cc d pos len); done || lia|].
  intros [d' c'] (HF' & _ & HS'). apply (frame_slice_eq pos len data); try done.
  - by eapply frame_trans.
  - by rewrite HS', HS, chacha20_involutive.
Qed.

Lemma br_chacha20_ct_round_trip_witness :
  ok ('(data, _) ← br_chacha20_ct_run (map Z.of_nat (seq 0 32)) (replicate 12 7) 1 (replicate 80 5) 3 70;
      br_chacha20_ct_run (map Z.of_nat (seq 0 32)) (replicate 12 7) 1 data 3 70)
    (fun '(d, _) => d = replicate 80 5).
Proof.
  apply (br_chacha20_ct_round_trip (map Z.of_nat (seq 0 32)) (replicate 12 7) 1 (replicate 80 5) 3 70);
    try done; by apply limbsb_limbs.
Defined.

(** * Leakage *)

Lemma st_add_ct s1 s2 i j : blind (st_add s1 i j) (st_add s2 i j).
Proof. unfold st_add. blind_auto. Qed.
Lemma st_xor_ct s1 s2 i j : blind (st_xor s1 i j) (st_xor s2 i j).
Proof. unfold st_xor. blind_auto. Qed.
Lemma st_rot_ct s1 s2 i n : blind (st_rot s1 i n) (st_rot s2 i n).
Proof. unfold st_rot. blind_auto. Qed.
#[export] Hint Resolve st_add_ct st_xor_ct st_rot_ct : blind.
Lemma QROUND_ct s1 s2 a b c d : blind (QROUND s1 a b c d) (QROUND s2 a b c d).
Proof. unfold QROUND. blind_auto. Qed.
#[export] Hint Resolve QROUND_ct : blind.
Lemma double_round_ct s1 s2 : blind (double_round s1) (double_round s2).
Proof. unfold double_round. blind_auto. Qed.
Lemma out_words_ct s1 s2 c1 c2 d lo hi t1 t2 : blind (out_words s1 c1 d lo hi t1) (out_words s2 c2 d lo hi t2).
Proof. unfold out_words. blind_auto. Qed.
#[export] Hint Resolve double_round_ct out_words_ct : blind.
Lemma chacha_block_ct k1 k2 v1 v2 c1 c2 : blind (chacha_block k1 v1 c1) (chacha_block k2 v2 c2).
Proof. unfold chacha_block. blind_auto. Qed.
#[export] Hint Resolve chacha_block_ct : blind.

Lemma chacha_loop_ct fuel : forall k1 k2 v1 v2 c1 c2 d1 d2 pos len,
  blind (chacha_loop fuel k1 v1 c1 d1 pos len) (chacha_loop fuel k2 v2 c2 d2 pos len).
Proof.
  induction fuel as [|fuel IH]; intros; [by intros ??|]. cbn [chacha_loop].
  apply ct_cond; [done|intros _|intros _; by apply ct_ret].
  apply blind_bind; [blind_auto|intros t1 t2].
  eapply (ct_bind eq); [apply ct_cond; [done|intros _..]; by apply ct_ret|]. intros n ? <-.
  apply blind_bind; [blind_auto|intros e1 e2]. apply IH.
Qed.
#[export] Hint Resolve chacha_loop_ct : blind.

Lemma br_chacha20_ct_run_ct k1 k2 v1 v2 c1 c2 d1 d2 pos len :
  blind (br_chacha20_ct_run k1 v1 c1 d1 pos len) (br_chacha20_ct_run k2 v2 c2 d2 pos len).
Proof. unfold br_chacha20_ct_run. blind_auto. Qed.
#[export] Hint Resolve br_chacha20_ct_run_ct : blind.

(** The example of RFC 8439, section 2.3.2. *)
Example chacha20_rfc :
  option_map snd (chacha_block (key_words (map Z.of_nat (seq 0 32)) 8)
    (key_words [0; 0; 0; 9; 0; 0; 0; 0x4a; 0; 0; 0; 0] 3) 1) = Some (le_words 4
    [0xe4e7f110; 0x15593bd1; 0x1fdd0f50; 0xc47120a3; 0xc7f4d1c7; 0x0368c033; 0x9aaa2204; 0x4e6cd4c3;
     0x466482d2; 0x09aa9f07; 0x05d7c214; 0xa2028bd9; 0xd19c12b5; 0xb94e16de; 0xe883d0cb; 0x4e3c50a2] 16).
Proof. vm_compute. reflexivity. Qed.
