(* ===== verification/BitExpr.v ===== *)
(** Where the bits of an expression come from: masks, shifts, disjunctions and
    exclusive ors of machine words move bits around; [sym] computes, for a bit
    of the result, the bits of the words it is the sum of.  The layouts of
    bitsliced code are checked with it.  Models no code. *)
From stdpp Require Import base tactics list numbers option.
From Stdlib Require Import ZArith Lia.
From S2P Require Import Prelude Limbs.
Local Open Scope Z_scope.
Local Open Scope cword_scope.

(** * Expressions on words *)

Inductive bexpr :=
  | BVar (i : Z)                    (* the [i]th word *)
  | BMask (e : bexpr) (m : Z)       (* conjunction with a constant *)
  | BShl (e : bexpr) (w s : Z)      (* left shift in a word of [w] bits *)
  | BShr (e : bexpr) (s : Z)
  | BOr (a b : bexpr)
  | BXor (a b : bexpr).

Fixpoint beval (env : list Z) (e : bexpr) : Z :=
  match e with
  | BVar i => get env i
  | BMask e m => beval env e .& m
  | BShl e w s => (beval env e << s) mod 2 ^ w
  | BShr e s => beval env e >> s
  | BOr a b => beval env a .| beval env b
  | BXor a b => beval env a .^ beval env b
  end.

(** The bits [(i, n)] - the bit [n] of the [i]th word - of which a bit of the
    result is the sum; the words have [W] bits.  A disjunction must have one
    side that is [0]. *)
Fixpoint sym (W : Z) (e : bexpr) (n : Z) : option (list (Z * Z)) :=
  match e with
  | BVar i => Some (if n <? W then [(i, n)] else [])
  | BMask e m => if Z.testbit m n then sym W e n else Some []
  | BShl e w s => if (0 <=? s) && (s <=? n) && (n <? w) then sym W e (n - s) else if (0 <=? s) && (0 <=? w) then Some [] else None
  | BShr e s => if 0 <=? s then sym W e (n + s) else None
  | BOr a b =>
      match sym W a n, sym W b n with
      | Some [], r | r, Some [] => r
      | _, _ => None
      end
  | BXor a b => a' ← sym W a n; b' ← sym W b n; Some (a' ++ b')
  end.

Definition bit_sum (env : list Z) (l : list (Z * Z)) : bool :=
  fold_right (fun '(i, n) acc => xorb (Z.testbit (get env i) n) acc) false l.

Lemma bit_sum_app env l k : bit_sum env (l ++ k) = xorb (bit_sum env l) (bit_sum env k).
Proof.
  unfold bit_sum. induction l as [|[i n] l IH]; [by destruct (fold_right _ _ k)|]. cbn [app fold_right].
  by rewrite IH, xorb_assoc.
Qed.

Section Sym.
Context (W : Z) (env : list Z) (HW : 0 <= W) (Henv : forall i, word W (get env i)).

Lemma word_high x n : word W x -> W <= n -> Z.testbit x n = false.
Proof.
  unfold word. intros Hx Hn. rewrite <- (Z.mod_small x (2 ^ W)) by done. by apply Z.mod_pow2_bits_high.
Qed.

Lemma sym_ok e : forall n l, 0 <= n -> sym W e n = Some l -> Z.testbit (beval env e) n = bit_sum env l.
Proof.
  induction e as [i|e IH m|e IH w s|e IH s|a IHa b IHb|a IHa b IHb]; intros n l Hn; cbn [sym beval].
  - intros [= <-]. destruct (Z.ltb_spec n W); cbn; [by rewrite xorb_false_r|by apply word_high].
  - rewrite Z.land_spec. destruct (Z.testbit m n).
    + rewrite andb_true_r. by apply IH.
    + intros [= <-]. by rewrite andb_false_r.
  - destruct (Z.leb_spec 0 s); [|done]. destruct (Z.leb_spec s n); destruct (Z.ltb_spec n w); cbn.
    + intros E. rewrite Z.mod_pow2_bits_low, Z.shiftl_spec by lia. apply IH; [lia|done].
    + destruct (Z.leb_spec 0 w); [|done]. intros [= <-]. by rewrite Z.mod_pow2_bits_high by lia.
    + destruct (Z.leb_spec 0 w); [|done]. intros [= <-].
      rewrite Z.mod_pow2_bits_low, Z.shiftl_spec by lia. by apply Z.testbit_neg_r; lia.
    + destruct (Z.leb_spec 0 w); [|done]. intros [= <-]. by rewrite Z.mod_pow2_bits_high by lia.
  - destruct (Z.leb_spec 0 s); [|done]. intros E. rewrite Z.shiftr_spec by lia. apply IH; [lia|done].
  - rewrite Z.lor_spec. destruct (sym W a n) as [[|p la]|] eqn:Ea.
    + intros Eb. by rewrite (IHa n [] Hn Ea), (IHb n l Hn Eb).
    + destruct (sym W b n) as [[|q lb]|] eqn:Eb; [|done..]. intros [= <-].
      by rewrite (IHa n (p :: la) Hn Ea), (IHb n [] Hn Eb), orb_false_r.
    + by destruct (sym W b n) as [[|q lb]|].
  - rewrite Z.lxor_spec. destruct (sym W a n) as [la|] eqn:Ea; [|done].
    destruct (sym W b n) as [lb|] eqn:Eb; [|done]. intros [= <-].
    by rewrite (IHa n la Hn Ea), (IHb n lb Hn Eb), bit_sum_app.
Qed.

(** The results that are words of [R] bits. *)
Fixpoint wordy (R : Z) (e : bexpr) : bool :=
  match e with
  | BVar _ => W <=? R
  | BMask e m => wordy R e && (0 <=? m)
  | BShl _ w _ => w =? R
  | BShr e s => wordy R e && (0 <=? s)
  | BOr a b | BXor a b => wordy R a && wordy R b
  end.

Lemma word_shr R x s : 0 <= s -> word R x -> word R (x >> s).
Proof.
  unfold word. intros Hs Hx. rewrite shr_div by done. pose proof (Z.pow_pos_nonneg 2 s ltac:(lia) Hs).
  split; [apply Z.div_pos; lia|]. apply Z.div_lt_upper_bound; nia.
Qed.

Lemma wordy_ok R e : 0 <= R -> wordy R e = true -> word R (beval env e).
Proof.
  intros HR. induction e as [i|e IH m|e IH w s|e IH s|a IHa b IHb|a IHa b IHb]; cbn [wordy beval];
    rewrite ?andb_true_iff, ?Z.leb_le, ?Z.eqb_eq.
  - intros Hle. pose proof (Z.pow_le_mono_r 2 W R ltac:(lia) Hle). specialize (Henv i). unfold word in *. lia.
  - intros [??]. apply word_land; auto.
  - intros ->. unfold word. apply Z.mod_pos_bound. lia.
  - intros [??]. apply word_shr; auto.
  - intros [??]. apply word_lor; auto.
  - intros [??]. apply word_lxor; auto.
Qed.
End Sym.

(** * Checking a layout *)

(** Sums of bits up to the order of their terms: the terms that occur an odd
    number of times, in order. *)
Definition bit_key (p : Z * Z) : Z := p.1 * 4096 + p.2.
Fixpoint toggle (p : Z * Z) (l : list (Z * Z)) : list (Z * Z) :=
  match l with
  | [] => [p]
  | q :: l' => if decide (p = q) then l' else if bit_key p <? bit_key q then p :: l else q :: toggle p l'
  end.
Definition norm_sum (l : list (Z * Z)) : list (Z * Z) := fold_right toggle [] l.

Lemma bit_sum_cons env p l : bit_sum env (p :: l) = xorb (Z.testbit (get env p.1) p.2) (bit_sum env l).
Proof. by destruct p. Qed.

Lemma bit_sum_toggle env p l : bit_sum env (toggle p l) = xorb (Z.testbit (get env p.1) p.2) (bit_sum env l).
Proof.
  induction l as [|q l IH]; [apply bit_sum_cons|]. cbn [toggle]. case_decide as Ep.
  - subst q. rewrite bit_sum_cons. by rewrite <- xorb_assoc, xorb_nilpotent, xorb_false_l.
  - case_match; [apply bit_sum_cons|]. rewrite !bit_sum_cons, IH, <- !xorb_assoc. f_equal. apply xorb_comm.
Qed.

Lemma bit_sum_norm env l : bit_sum env (norm_sum l) = bit_sum env l.
Proof.
  induction l as [|p l IH]; [done|]. cbn [norm_sum fold_right]. by rewrite bit_sum_toggle, bit_sum_cons, <- IH.
Qed.

Definition sums_eqb (a : option (list (Z * Z))) (b : list (Z * Z)) : bool :=
  match a with Some a => bool_decide (norm_sum a = norm_sum b) | None => false end.

(** Words of [W] bits become a word of [R] bits. *)
Definition check_bits (W R : Z) (e : bexpr) (spec : Z -> list (Z * Z)) : bool :=
  wordy W R e && forallb (fun n => sums_eqb (sym W e (Z.of_nat n)) (spec (Z.of_nat n))) (seq 0 (Z.to_nat R)).

Lemma check_bits_ok W R env e spec : 0 <= W -> 0 <= R -> (forall i, word W (get env i)) -> check_bits W R e spec = true ->
  word R (beval env e) /\ forall n, 0 <= n < R -> Z.testbit (beval env e) n = bit_sum env (spec n).
Proof.
  intros HW HR Henv H. unfold check_bits in H. apply andb_true_iff in H as [Hw H]. rewrite forallb_forall in H.
  split; [by apply (wordy_ok W)|]. intros n Hn. specialize (H (Z.to_nat n)). rewrite Z2Nat.id in H by lia.
  specialize (H ltac:(apply in_seq; lia)). unfold sums_eqb in H. destruct (sym W e n) as [l|] eqn:El; [|done].
  apply (bool_decide_eq_true_1 _) in H. rewrite <- bit_sum_norm, <- H, bit_sum_norm.
  apply (sym_ok W); [done..|lia|done].
Qed.

(** The rank of a word in an array that is given cell by cell. *)
Ltac rank_of l x :=
  lazymatch l with
  | x :: _ => constr:(0%Z)
  | _ :: ?l => let i := rank_of l x in let j := eval cbv in (i + 1)%Z in constr:(j)
  end.

(** The expression of an integer over the words of [q]. *)
Ltac bexpr_of q e :=
  lazymatch e with
  | Z.lxor ?a ?b => let a' := bexpr_of q a in let b' := bexpr_of q b in constr:(BXor a' b')
  | Z.lor ?a ?b => let a' := bexpr_of q a in let b' := bexpr_of q b in constr:(BOr a' b')
  | Z.land ?a ?m => let a' := bexpr_of q a in constr:(BMask a' m)
  | u32 (Z.shiftl ?a ?s) => let a' := bexpr_of q a in constr:(BShl a' 32 s)
  | u64 (Z.shiftl ?a ?s) => let a' := bexpr_of q a in constr:(BShl a' 64 s)
  | u32 ?a => let a' := bexpr_of q a in constr:(BShl a' 32 0)
  | Z.shiftr ?a ?s => let a' := bexpr_of q a in constr:(BShr a' s)
  | _ => let i := rank_of q e in constr:(BVar i)
  end.

(** Where the bits of a word of [W] bits come from, of words [q] given cell by
    cell. *)
Definition layout (W : Z) (q : list Z) (e : Z) (spec : Z -> list (Z * Z)) : Prop :=
  word W e /\ forall n, 0 <= n < W -> Z.testbit e n = bit_sum q (spec n).

(** The words of [q] have [W] bits. *)
Ltac check_layout_of W Hq :=
  lazymatch goal with
  | |- layout ?R ?q ?e ?spec =>
      let b := bexpr_of q e in
      change (layout R q (beval q b) spec);
      apply (check_bits_ok W R q b spec); [discriminate|discriminate|exact Hq|vm_compute; reflexivity]
  end.
Ltac check_layout Hq :=
  lazymatch goal with |- layout ?W _ _ _ => check_layout_of W Hq end.

(** Arrays of [8] words. *)
Lemma eight_words (q : list Z) : zlen q = 8 -> exists a b c d e f g h, q = [a; b; c; d; e; f; g; h].
Proof.
  intros H. do 8 (destruct q as [|? q]; [done|]). destruct q; [by do 8 eexists|]. simpl in H. lia.
Qed.

Lemma limbs_word w q : 0 <= w -> limbs w q 0 (zlen q) -> forall i, word w (get q i).
Proof.
  intros Hw H i. pose proof (Z.pow_pos_nonneg 2 w ltac:(lia) Hw). unfold get.
  destruct (Z.lt_ge_cases (Z.of_nat (Z.to_nat i)) (zlen q)).
  - specialize (H (Z.of_nat (Z.to_nat i))). unfold get in H. rewrite Nat2Z.id in H. apply H. lia.
  - rewrite nth_overflow by lia. unfold word. lia.
Qed.
