(* ===== verification/Clmul.v ===== *)
(** Multiplication of polynomials over GF(2): the product without carries, the
    integer products with holes that compute it, the reversal of the bits, and
    the field of GHASH (NIST SP 800-38D).  Models no code. *)
From stdpp Require Import base tactics list numbers option.
From Stdlib Require Import ZArith Lia.
From S2P Require Import Prelude Limbs BitExpr.
Local Open Scope Z_scope.
Local Open Scope cword_scope.

Lemma word_mono w w' x : 0 <= w <= w' -> word w x -> word w' x.
Proof. unfold word. intros Hw Hx. pose proof (Z.pow_le_mono_r 2 w w' ltac:(lia) ltac:(lia)). lia. Qed.

(** A number without bits above [w]. *)
Lemma word_of_bits w x : 0 <= w -> 0 <= x -> (forall m, w <= m -> Z.testbit x m = false) -> word w x.
Proof.
  intros Hw Hx H. assert (E : x = x mod 2 ^ w).
  { apply Z.bits_inj'. intros p Hp. destruct (Z.lt_ge_cases p w).
    - by rewrite Z.mod_pow2_bits_low by lia.
    - by rewrite Z.mod_pow2_bits_high, H by lia. }
  rewrite E. apply Z.mod_pos_bound, Z.pow_pos_nonneg; lia.
Qed.

(** * Sums modulo 2 *)

Fixpoint xs (n : nat) (f : Z -> bool) : bool :=
  match n with O => false | S n => xorb (xs n f) (f (Z.of_nat n)) end.

Lemma xs_ext n f g : (forall i, 0 <= i < Z.of_nat n -> f i = g i) -> xs n f = xs n g.
Proof. induction n as [|n IH]; intros H; [done|]. cbn [xs]. rewrite IH, H by (intros; apply H; lia) || lia. done. Qed.

Lemma xs_false n f : (forall i, 0 <= i < Z.of_nat n -> f i = false) -> xs n f = false.
Proof. intros H. rewrite (xs_ext n f (fun _ => false)) by done. induction n; [done|]. cbn. by rewrite IHn by (intros; apply H; lia). Qed.

Lemma xs_xorb n f g : xs n (fun i => xorb (f i) (g i)) = xorb (xs n f) (xs n g).
Proof.
  induction n as [|n IH]; [done|]. cbn [xs]. rewrite IH.
  by destruct (xs n f), (xs n g), (f (Z.of_nat n)), (g (Z.of_nat n)).
Qed.

Lemma xs_app n m f : xs (n + m) f = xorb (xs n f) (xs m (fun i => f (Z.of_nat n + i))).
Proof.
  induction m as [|m IH]; [by rewrite Nat.add_0_r, xorb_false_r|]. rewrite Nat.add_succ_r. cbn [xs].
  rewrite IH, xorb_assoc. do 3 f_equal. lia.
Qed.

(** Further terms that are [false] do not count. *)
Lemma xs_more n m f : (n <= m)%nat -> (forall i, Z.of_nat n <= i < Z.of_nat m -> f i = false) -> xs m f = xs n f.
Proof.
  intros Hl H. replace m with (n + (m - n))%nat by lia. rewrite xs_app, (xs_false (m - n)), xorb_false_r; [done|].
  intros i Hi. apply H. lia.
Qed.

Lemma xs_first n f : xs (S n) f = xorb (f 0) (xs n (fun i => f (1 + i))).
Proof. change (S n) with (1 + n)%nat. rewrite xs_app. cbn [xs]. by rewrite xorb_false_l. Qed.

Lemma xs_rev n : forall f, xs n (fun i => f (Z.of_nat n - 1 - i)) = xs n f.
Proof.
  induction n as [|n IH]; intros f; [done|]. rewrite xs_first. cbn [xs]. rewrite xorb_comm.
  rewrite <- (IH f). f_equal; [|f_equal; lia]. apply xs_ext. intros i Hi. f_equal. lia.
Qed.

(** Terms by groups of four. *)
Lemma xs_four n f : xs (4 * n) f =
  xs n (fun i => xorb (xorb (f (4 * i)) (f (4 * i + 1))) (xorb (f (4 * i + 2)) (f (4 * i + 3)))).
Proof.
  induction n as [|n IH]; [done|]. replace (4 * S n)%nat with (S (S (S (S (4 * n))))) by lia. cbn [xs]. rewrite IH.
  replace (Z.of_nat (4 * n)) with (4 * Z.of_nat n) by lia. replace (Z.of_nat (S (4 * n))) with (4 * Z.of_nat n + 1) by lia.
  replace (Z.of_nat (S (S (4 * n)))) with (4 * Z.of_nat n + 2) by lia.
  replace (Z.of_nat (S (S (S (4 * n))))) with (4 * Z.of_nat n + 3) by lia. by rewrite !xorb_assoc.
Qed.

(** * Products without carries *)

(** [y] has at most [n] bits. *)
Fixpoint clmul (n : nat) (x y : Z) : Z :=
  match n with O => 0 | S n => clmul n x y .^ (if Z.testbit y (Z.of_nat n) then x << Z.of_nat n else 0) end.

Lemma clmul_bit n x y m : 0 <= m -> Z.testbit (clmul n x y) m = xs n (fun j => Z.testbit y j && Z.testbit x (m - j)).
Proof.
  intros Hm. induction n as [|n IH]; [apply Z.bits_0|]. cbn [clmul xs]. rewrite Z.lxor_spec, IH. f_equal.
  destruct (Z.testbit y _); [|apply Z.bits_0]. by rewrite Z.shiftl_spec.
Qed.

Lemma clmul_word n w x y : 0 <= w -> word w x -> word (w + Z.of_nat n) (clmul n x y).
Proof.
  intros Hw Hx. induction n as [|n IH]; [unfold word; cbn; lia|]. cbn [clmul]. apply word_lxor.
  - lia.
  - eapply (word_mono (w + Z.of_nat n)); [lia|done].
  - destruct (Z.testbit y _).
    + unfold word in *. rewrite shl_mul by lia. replace (w + Z.of_nat (S n)) with (w + Z.of_nat n + 1) by lia.
      rewrite !Z.pow_add_r by lia. pose proof (Z.pow_pos_nonneg 2 (Z.of_nat n)). change (2 ^ 1) with 2. nia.
    + unfold word. pose proof (Z.pow_pos_nonneg 2 (w + Z.of_nat (S n))). lia.
Qed.

Lemma clmul_nonneg n x y : 0 <= x -> 0 <= clmul n x y.
Proof.
  intros Hx. induction n as [|n IH]; [done|]. cbn [clmul]. apply Z.lxor_nonneg. split; [intros _|done].
  destruct (Z.testbit y _); [|done]. by apply Z.shiftl_nonneg.
Qed.

Lemma clmul_lxor_l n x x' y : clmul n (x .^ x') y = clmul n x y .^ clmul n x' y.
Proof.
  induction n as [|n IH]; [done|]. cbn [clmul]. rewrite IH. destruct (Z.testbit y _).
  - rewrite Z.shiftl_lxor. set (a := clmul n x y). set (b := clmul n x' y). set (c := x << _). set (d := x' << _).
    rewrite !Z.lxor_assoc. f_equal. rewrite <- !(Z.lxor_assoc _ _ d). f_equal. apply Z.lxor_comm.
  - by rewrite !Z.lxor_0_r.
Qed.

Lemma clmul_lxor_r n x y y' : clmul n x (y .^ y') = clmul n x y .^ clmul n x y'.
Proof.
  apply Z.bits_inj'. intros m Hm. rewrite Z.lxor_spec, !clmul_bit, <- xs_xorb by done. apply xs_ext. intros i _.
  rewrite Z.lxor_spec. by destruct (Z.testbit y i), (Z.testbit y' i), (Z.testbit x (m - i)).
Qed.

(** Reversed operands give the reversed product. *)
Definition reversed (w : Z) (x r : Z) : Prop := word w x /\ word w r /\ forall i, 0 <= i < w -> Z.testbit r i = Z.testbit x (w - 1 - i).

Lemma reversed_bit w x r i : 0 <= w -> reversed w x r -> Z.testbit r i = Z.testbit x (w - 1 - i).
Proof.
  intros Hw (Hx & Hr & H). destruct (Z.lt_ge_cases i 0); [rewrite Z.testbit_neg_r, (word_high w Hw x) by (done || lia); done|].
  destruct (Z.lt_ge_cases i w); [by apply H|]. by rewrite (word_high w Hw r), Z.testbit_neg_r by (done || lia).
Qed.

Lemma clmul_reversed n x y xr yr m : 0 <= m <= 2 * Z.of_nat n - 2 -> reversed (Z.of_nat n) x xr -> reversed (Z.of_nat n) y yr ->
  Z.testbit (clmul n xr yr) m = Z.testbit (clmul n x y) (2 * Z.of_nat n - 2 - m).
Proof.
  intros Hm Hx Hy. rewrite !clmul_bit by lia. rewrite <- (xs_rev n). apply xs_ext. intros j Hj.
  rewrite (reversed_bit (Z.of_nat n) x xr), (reversed_bit (Z.of_nat n) y yr) by (done || lia).
  f_equal; f_equal; lia.
Qed.

(** * Integer products with holes *)

(** Numbers with digits in base 16. *)
Fixpoint dig (n : nat) (f : Z -> Z) : Z :=
  match n with O => 0 | S n => dig n f + f (Z.of_nat n) * 16 ^ Z.of_nat n end.
Fixpoint count (n : nat) (f : Z -> bool) : Z :=
  match n with O => 0 | S n => count n f + b2z (f (Z.of_nat n)) end.

Lemma dig_succ n f : dig (S n) f = dig n f + f (Z.of_nat n) * 16 ^ Z.of_nat n.
Proof. done. Qed.

Lemma dig_ext n f g : (forall i, 0 <= i < Z.of_nat n -> f i = g i) -> dig n f = dig n g.
Proof. induction n as [|n IH]; intros H; [done|]. cbn [dig]. rewrite IH, H by (intros; apply H; lia) || lia. done. Qed.

Lemma dig_add n f g : dig n (fun i => f i + g i) = dig n f + dig n g.
Proof. induction n as [|n IH]; [done|]. cbn [dig]. rewrite IH. lia. Qed.

Lemma dig_bound n f : (forall i, 0 <= i < Z.of_nat n -> 0 <= f i <= 15) -> 0 <= dig n f < 16 ^ Z.of_nat n.
Proof.
  induction n as [|n IH]; intros H; [cbn; lia|]. cbn [dig]. specialize (IH ltac:(intros; apply H; lia)).
  specialize (H (Z.of_nat n) ltac:(lia)). rewrite Nat2Z.inj_succ, Z.pow_succ_r by lia. nia.
Qed.

Lemma dig_zero n f : (forall i, 0 <= i < Z.of_nat n -> f i = 0) -> dig n f = 0.
Proof. intros H. rewrite (dig_ext n f (fun _ => 0)) by done. clear H. induction n; cbn; lia. Qed.

Lemma dig_shift n m g : (forall i, i < 0 -> g i = 0) -> dig (m + n) (fun i => g (i - Z.of_nat m)) = 16 ^ Z.of_nat m * dig n g.
Proof.
  intros Hg. induction n as [|n IH].
  - rewrite Nat.add_0_r. cbn [dig]. rewrite Z.mul_0_r. apply dig_zero. intros i Hi. apply Hg. lia.
  - rewrite Nat.add_succ_r. cbn [dig]. rewrite IH. replace (Z.of_nat (m + n) - Z.of_nat m) with (Z.of_nat n) by lia.
    rewrite Nat2Z.inj_add, Z.pow_add_r by lia. lia.
Qed.

Lemma count_bound n f : 0 <= count n f <= Z.of_nat n.
Proof. induction n as [|n IH]; cbn [count]; [lia|]. destruct (f _); cbn [b2z]; lia. Qed.

Lemma count_le n k f : (forall i, k <= i -> f i = false) -> 0 <= k -> count n f <= k.
Proof.
  intros H Hk. destruct (Z.le_gt_cases (Z.of_nat n) k); [pose proof (count_bound n f); lia|].
  induction n as [|n IH]; cbn [count]; [lia|]. destruct (Z.le_gt_cases k (Z.of_nat n)).
  - rewrite (H (Z.of_nat n)) by lia. cbn [b2z]. destruct (Z.eq_dec k (Z.of_nat n)); [pose proof (count_bound n f); lia|].
    specialize (IH ltac:(lia)). lia.
  - lia.
Qed.

Lemma count_zero n f : (forall i, 0 <= i < Z.of_nat n -> f i = false) -> count n f = 0.
Proof. induction n as [|n IH]; intros H; [done|]. cbn [count]. rewrite IH, H by (intros; apply H; lia) || lia. done. Qed.

Lemma count_odd n f : Z.odd (count n f) = xs n f.
Proof. induction n as [|n IH]; [done|]. cbn [count xs]. rewrite Z.odd_add, IH. by destruct (f _). Qed.

(** The digits of a product of two numbers with digits [0] and [1]. *)
Lemma dig_mul n m a b : (forall i, ~ 0 <= i < Z.of_nat n -> a i = false) ->
  dig n (fun i => b2z (a i)) * dig m (fun i => b2z (b i)) = dig (n + m) (fun k => count m (fun j => b j && a (k - j))).
Proof.
  intros Ha. induction m as [|m IH].
  - cbn [dig]. rewrite Z.mul_0_r, dig_zero; [done|]. intros i _. done.
  - rewrite Nat.add_succ_r. cbn [count]. rewrite dig_add, (dig_succ m), Z.mul_add_distr_l, IH. f_equal.
    + rewrite dig_succ, count_zero; [lia|]. intros j Hj. rewrite (Ha (_ - j)) by lia. apply andb_false_r.
    + set (g := fun i => b2z (b (Z.of_nat m) && a i)).
      rewrite (dig_ext (S (n + m)) _ (fun i => g (i - Z.of_nat m))) by done. replace (S (n + m)) with (m + S n)%nat by lia.
      rewrite dig_shift by (intros i Hi; unfold g; rewrite Ha, andb_false_r by lia; done). rewrite dig_succ.
      replace (g (Z.of_nat n)) with 0 by (unfold g; rewrite Ha, andb_false_r by lia; done).
      unfold g. destruct (b (Z.of_nat m)); cbn [andb b2z]; [lia|]. rewrite (dig_zero n (fun _ => 0)) by done. lia.
Qed.

Lemma dig_split n k f : (k < n)%nat -> exists r, dig n f = dig k f + 16 ^ Z.of_nat k * (f (Z.of_nat k) + 16 * r).
Proof.
  induction n as [|n IH]; intros Hk; [lia|]. destruct (decide (k = n)) as [->|]; rewrite dig_succ; [exists 0; lia|].
  destruct IH as [r ->]; [lia|]. exists (r + f (Z.of_nat n) * 16 ^ (Z.of_nat n - Z.of_nat k - 1)).
  replace (Z.of_nat n) with (Z.of_nat k + 1 + (Z.of_nat n - Z.of_nat k - 1)) at 2 by lia.
  rewrite !Z.pow_add_r by lia. lia.
Qed.

(** A digit that the carries of the lower ones do not reach. *)
Lemma dig_bit n k f : 0 <= k < Z.of_nat n -> (forall i, 0 <= i < k -> 0 <= f i <= 15) -> Z.testbit (dig n f) (4 * k) = Z.odd (f k).
Proof.
  intros Hk Hf. destruct (dig_split n (Z.to_nat k) f) as [r ->]; [lia|]. rewrite Z2Nat.id by lia.
  pose proof (dig_bound (Z.to_nat k) f) as HB. rewrite Z2Nat.id in HB by lia. specialize (HB Hf).
  rewrite Z.testbit_odd, shr_div by lia. rewrite Z.pow_mul_r by lia. change (2 ^ 4) with 16.
  rewrite Z.mul_comm, Z.div_add by lia. rewrite Z.div_small, Z.add_0_l by lia. rewrite Z.odd_add, Z.odd_mul.
  by rewrite xorb_false_r.
Qed.

(** Numbers of [n] digits [0] and [1], at the positions [r] modulo [4]. *)
Definition sparse4 (n : nat) (r x : Z) : Prop := 0 <= x /\ forall p, Z.testbit x p = true -> p mod 4 = r /\ p < 4 * Z.of_nat n.
Definition bits4 (n : nat) (a : Z -> bool) : Z := dig n (fun i => b2z (a i)).

Lemma bits4_bound n a : 0 <= bits4 n a < 16 ^ Z.of_nat n.
Proof. apply dig_bound. intros i _. destruct (a i); cbn; lia. Qed.

Lemma bits4_bit n a p : 0 <= p -> Z.testbit (bits4 n a) p = (p mod 4 =? 0) && (p <? 4 * Z.of_nat n) && a (p / 4).
Proof.
  intros Hp. unfold bits4. induction n as [|n IH]; [cbn [dig]; rewrite Z.bits_0; destruct (Z.ltb_spec p (4 * Z.of_nat 0)); [lia|by rewrite andb_false_r]|].
  rewrite dig_succ. pose proof (bits4_bound n a) as HB. unfold bits4 in HB. set (u := dig _ _) in *. set (v := b2z (a (Z.of_nat n))).
  assert (Ep : 16 ^ Z.of_nat n = 2 ^ (4 * Z.of_nat n)) by (rewrite Z.pow_mul_r by lia; done).
  destruct (Z.lt_ge_cases p (4 * Z.of_nat n)).
  - rewrite <- (Z.mod_pow2_bits_low _ (4 * Z.of_nat n)), <- Ep, Z.mod_add, Z.mod_small, IH by lia.
    rewrite !(proj2 (Z.ltb_lt _ _)) by lia. done.
  - replace p with (p - 4 * Z.of_nat n + 4 * Z.of_nat n) at 1 by lia. rewrite <- Z.div_pow2_bits by lia.
    rewrite <- Ep, Z.div_add, Z.div_small, Z.add_0_l by lia. unfold v. destruct (Z.eq_dec p (4 * Z.of_nat n)) as [->|].
    + rewrite Z.sub_diag, (proj2 (Z.ltb_lt (4 * Z.of_nat n) _)) by lia. rewrite Z.mul_comm, Z.mod_mul, Z.div_mul by lia.
      clear. by destruct (a (Z.of_nat n)).
    + assert (E : (p mod 4 =? 0) && (p <? 4 * Z.of_nat (S n)) = false).
      { destruct (Z.eqb_spec (p mod 4) 0); [|done]. apply Z.ltb_ge. pose proof (Z.div_mod p 4). lia. }
      rewrite E. clear E IH. destruct (a (Z.of_nat n)); cbn [b2z andb]; [|apply Z.bits_0]. change 1 with (2 ^ 0). rewrite Z.pow2_bits_eqb by lia.
      by apply Z.eqb_neq; lia.
Qed.

Lemma sparse4_bits n r x : 0 <= r < 4 -> sparse4 n r x -> x = bits4 n (fun i => Z.testbit x (4 * i + r)) << r.
Proof.
  intros Hr [Hx H]. apply Z.bits_inj'. intros p Hp. rewrite Z.shiftl_spec by done.
  destruct (Z.lt_ge_cases p r) as [Hl|Hl].
  - rewrite (Z.testbit_neg_r (bits4 _ _)) by lia. destruct (Z.testbit x p) eqn:E; [|done]. destruct (H p E). zn.
  - rewrite bits4_bit by lia. destruct (Z.eqb_spec ((p - r) mod 4) 0) as [E|E].
    + replace (4 * ((p - r) / 4) + r) with p by zn. destruct (Z.testbit x p) eqn:Ex; [|by rewrite andb_false_r].
      destruct (H p Ex). by rewrite (proj2 (Z.ltb_lt _ _)) by lia.
    + destruct (Z.testbit x p) eqn:Ex; [|done]. destruct (H p Ex). exfalso. apply E. zn.
Qed.

(** The product of two such numbers, at the positions that count. *)
Lemma bits4_mul n a b k : (forall i, ~ 0 <= i < Z.of_nat n -> a i = false) -> 0 <= k <= 15 -> k < 2 * Z.of_nat n ->
  Z.testbit (bits4 n a * bits4 n b) (4 * k) = xs n (fun j => b j && a (k - j)).
Proof.
  intros Ha Hk Hn. unfold bits4. rewrite dig_mul by done. rewrite dig_bit; [apply count_odd|lia|].
  intros i Hi. split; [apply count_bound|]. transitivity (i + 1); [|lia]. apply count_le; [|lia].
  intros j Hj. rewrite (Ha (i - j)) by lia. apply andb_false_r.
Qed.

Lemma bits4_clmul n a b k : (forall i, ~ 0 <= i < Z.of_nat n -> a i = false) -> 0 <= k ->
  Z.testbit (clmul (4 * n) (bits4 n a) (bits4 n b)) (4 * k) = xs n (fun j => b j && a (k - j)).
Proof.
  intros Ha Hk. rewrite clmul_bit, xs_four by lia. apply xs_ext. intros j Hj.
  assert (H0 : forall q, 0 < q < 4 -> Z.testbit (bits4 n b) (4 * j + q) = false).
  { intros q Hq. rewrite bits4_bit by lia. destruct (Z.eqb_spec ((4 * j + q) mod 4) 0); [zn|done]. }
  rewrite !H0 by lia. cbn [andb xorb]. rewrite !xorb_false_r, bits4_bit by lia.
  replace (4 * j mod 4) with 0 by zn. rewrite (proj2 (Z.ltb_lt _ _)) by lia. replace (4 * j / 4) with j by zn. cbn [andb Z.eqb].
  f_equal. destruct (Z.lt_ge_cases (k - j) 0); [rewrite Z.testbit_neg_r, Ha by lia; done|].
  rewrite bits4_bit by lia. replace ((4 * k - 4 * j) mod 4) with 0 by zn. replace ((4 * k - 4 * j) / 4) with (k - j) by zn. cbn [andb Z.eqb].
  destruct (Z.ltb_spec (4 * k - 4 * j) (4 * Z.of_nat n)); [done|]. symmetry. apply Ha. lia.
Qed.

Lemma clmul_shl_l n r x y : 0 <= r -> clmul n (x << r) y = clmul n x y << r.
Proof.
  intros Hr. induction n as [|n IH]; [by rewrite Z.shiftl_0_l|]. cbn [clmul]. rewrite IH, Z.shiftl_lxor. f_equal.
  destruct (Z.testbit y _); [|by rewrite Z.shiftl_0_l]. rewrite !Z.shiftl_shiftl by lia. f_equal. lia.
Qed.

Lemma clmul_shl_r n s x y : 0 <= s <= Z.of_nat n -> (forall j, Z.of_nat n - s <= j -> Z.testbit y j = false) ->
  clmul n x (y << s) = clmul n x y << s.
Proof.
  intros Hs Hy. apply Z.bits_inj'. intros m Hm. rewrite Z.shiftl_spec, clmul_bit by done.
  replace n with (Z.to_nat s + (n - Z.to_nat s))%nat at 1 by lia. rewrite xs_app, xs_false, xorb_false_l.
  2:{ intros i Hi. by rewrite Z.shiftl_spec, Z.testbit_neg_r by lia. }
  rewrite (xs_ext _ _ (fun j => Z.testbit y j && Z.testbit x (m - s - j))).
  2:{ intros i Hi. rewrite Z.shiftl_spec by lia. f_equal; f_equal; lia. }
  destruct (Z.lt_ge_cases m s).
  - rewrite (Z.testbit_neg_r (clmul _ _ _)) by lia. apply xs_false. intros i Hi. rewrite (Z.testbit_neg_r x) by lia. apply andb_false_r.
  - rewrite clmul_bit by lia. symmetry. apply xs_more; [lia|]. intros i Hi. by rewrite Hy by lia.
Qed.

Lemma sparse4_mul n r s x y p : (0 < n)%nat -> 0 <= r < 4 -> 0 <= s < 4 -> sparse4 n r x -> sparse4 n s y -> 0 <= p < 64 ->
  p < 8 * Z.of_nat n -> p mod 4 = (r + s) mod 4 -> Z.testbit (x * y) p = Z.testbit (clmul (4 * n) x y) p.
Proof.
  intros Hn Hr Hs Hx Hy Hp Hp8 E. rewrite (sparse4_bits n r x Hr Hx), (sparse4_bits n s y Hs Hy).
  set (a := fun i => Z.testbit x (4 * i + r)). set (b := fun i => Z.testbit y (4 * i + s)).
  assert (Ha : forall i, ~ 0 <= i < Z.of_nat n -> a i = false).
  { intros i Hi. unfold a. destruct (Z.testbit x _) eqn:T; [|done]. destruct Hx as [Hx0 H].
    destruct (Z.lt_ge_cases (4 * i + r) 0); [by rewrite Z.testbit_neg_r in T|]. destruct (H _ T). zn. }
  rewrite clmul_shl_l, clmul_shl_r by
    (try (intros j Hj; rewrite bits4_bit by lia; destruct (Z.eqb_spec (j mod 4) 0); [|done];
          rewrite (proj2 (Z.ltb_ge _ _)) by (rewrite Nat2Z.inj_mul in Hj; zn); done); lia).
  rewrite !(shl_mul (bits4 _ _)) by lia.
  replace (bits4 n a * 2 ^ r * (bits4 n b * 2 ^ s)) with ((bits4 n a * bits4 n b) << s << r)
    by (rewrite !shl_mul by lia; lia).
  rewrite !Z.shiftl_shiftl, !Z.shiftl_spec by lia. destruct (Z.lt_ge_cases p (r + s)).
  { rewrite !Z.testbit_neg_r by lia. done. }
  set (k := (p - (s + r)) / 4). assert (Ek : p - (s + r) = 4 * k) by (unfold k; zn). rewrite Ek.
  rewrite bits4_mul, bits4_clmul by (done || lia). done.
Qed.

Lemma sparse4_clmul n m r s x y p : sparse4 n r x -> sparse4 n s y -> 0 <= p -> p mod 4 <> (r + s) mod 4 ->
  Z.testbit (clmul m x y) p = false.
Proof.
  intros [_ Hx] [_ Hy] Hp E. rewrite clmul_bit by done. apply xs_false. intros j Hj.
  destruct (Z.testbit y j) eqn:Ey; [|done]. destruct (Z.testbit x (p - j)) eqn:Ex; [|done].
  destruct (Hy _ Ey), (Hx _ Ex). exfalso. apply E. zn.
Qed.

(** The product without carries of two numbers in four parts, bit by bit, from
    integer products. *)
Lemma holes n X Y p : (0 < n)%nat -> (forall r, 0 <= r < 4 -> sparse4 n r (X r)) -> (forall s, 0 <= s < 4 -> sparse4 n s (Y s)) ->
  0 <= p < 64 -> p < 8 * Z.of_nat n ->
  let t := p mod 4 in
  Z.testbit (clmul (4 * n) (X 0 .^ X 1 .^ X 2 .^ X 3) (Y 0 .^ Y 1 .^ Y 2 .^ Y 3)) p =
  xorb (xorb (xorb (Z.testbit (X t * Y 0) p) (Z.testbit (X ((t - 1) mod 4) * Y 1) p))
    (Z.testbit (X ((t - 2) mod 4) * Y 2) p)) (Z.testbit (X ((t - 3) mod 4) * Y 3) p).
Proof.
  intros Hn HX HY Hp Hp8 t. assert (Ht : p mod 4 = t) by done. assert (0 <= t < 4) by (unfold t; zn).
  assert (Hm : forall r s, 0 <= r < 4 -> 0 <= s < 4 -> t = (r + s) mod 4 ->
    Z.testbit (X r * Y s) p = Z.testbit (clmul (4 * n) (X r) (Y s)) p) by (intros; apply (sparse4_mul n r s); auto; lia).
  assert (Hz : forall r s, 0 <= r < 4 -> 0 <= s < 4 -> t <> (r + s) mod 4 -> Z.testbit (clmul (4 * n) (X r) (Y s)) p = false)
    by (intros; apply (sparse4_clmul n _ r s); auto; lia).
  rewrite !clmul_lxor_r, !clmul_lxor_l, !Z.lxor_spec. clearbody t. 
  assert (t = 0 \/ t = 1 \/ t = 2 \/ t = 3) as [->|[->|[->| ->]]] by lia.
  1: change ((0 - 1) mod 4) with 3; change ((0 - 2) mod 4) with 2; change ((0 - 3) mod 4) with 1.
  2: change ((1 - 1) mod 4) with 0; change ((1 - 2) mod 4) with 3; change ((1 - 3) mod 4) with 2.
  3: change ((2 - 1) mod 4) with 1; change ((2 - 2) mod 4) with 0; change ((2 - 3) mod 4) with 3.
  4: change ((3 - 1) mod 4) with 2; change ((3 - 2) mod 4) with 1; change ((3 - 3) mod 4) with 0.
  all: rewrite !Hm by (done || lia).
  all: try rewrite (Hz 0 0) by done; try rewrite (Hz 1 0) by done; try rewrite (Hz 2 0) by done; try rewrite (Hz 3 0) by done.
  all: try rewrite (Hz 0 1) by done; try rewrite (Hz 1 1) by done; try rewrite (Hz 2 1) by done; try rewrite (Hz 3 1) by done.
  all: try rewrite (Hz 0 2) by done; try rewrite (Hz 1 2) by done; try rewrite (Hz 2 2) by done; try rewrite (Hz 3 2) by done.
  all: try rewrite (Hz 0 3) by done; try rewrite (Hz 1 3) by done; try rewrite (Hz 2 3) by done; try rewrite (Hz 3 3) by done.
  all: by rewrite ?xorb_false_l, ?xorb_false_r.
Qed.

Lemma clmul_more n m x y : (n <= m)%nat -> word (Z.of_nat n) y -> clmul m x y = clmul n x y.
Proof.
  intros Hl Hy. apply Z.bits_inj'. intros p Hp. rewrite !clmul_bit by done. apply xs_more; [done|].
  intros i Hi. by rewrite (word_high (Z.of_nat n) ltac:(lia) y) by (done || lia).
Qed.

Lemma clmul_comm n x y : word (Z.of_nat n) x -> word (Z.of_nat n) y -> clmul n x y = clmul n y x.
Proof.
  intros Hx Hy. apply Z.bits_inj'. intros m Hm. rewrite !clmul_bit by done.
  assert (E : forall a b, word (Z.of_nat n) b -> xs n (fun j => Z.testbit b j && Z.testbit a (m - j)) =
    xs (S (Z.to_nat m)) (fun j => Z.testbit b j && Z.testbit a (m - j))).
  { intros a b Hb. destruct (Nat.le_gt_cases n (S (Z.to_nat m))).
    - symmetry. apply xs_more; [done|]. intros i Hi. by rewrite (word_high (Z.of_nat n) ltac:(lia) b) by (done || lia).
    - apply xs_more; [lia|]. intros i Hi. rewrite (Z.testbit_neg_r a) by lia. apply andb_false_r. }
  rewrite !E by done. rewrite <- xs_rev. apply xs_ext. intros j Hj. rewrite andb_comm. f_equal; f_equal; lia.
Qed.

(** Equations of exclusive ors. *)
Ltac xor_ring := apply Z.bits_inj'; let n := fresh "n" in intros n _; rewrite ?Z.lxor_spec, ?Z.bits_0; ring.

(** * The field of GHASH *)

(** Blocks are numbers of 128 bits whose highest bit is the coefficient of 1. *)
Definition gf_R : Z := 0xE1 << 120.
Definition mulx (v : Z) : Z := (v >> 1) .^ (if Z.testbit v 0 then gf_R else 0).

(** Algorithm 1 of SP 800-38D, on the [n] lowest bits of [X]. *)
Fixpoint gf_sum (n : nat) (X V : Z) : Z :=
  match n with O => 0 | S n => (if Z.testbit X (Z.of_nat n) then V else 0) .^ gf_sum n X (mulx V) end.
Definition gf_mul (X Y : Z) : Z := gf_sum 128 X Y.

(** The reduction of a product shifted by one bit. *)
Definition gf_red (v : Z) : Z :=
  let lo := v mod 2 ^ 128 in
  let w := lo .^ ((lo << 127) .^ (lo << 126) .^ (lo << 121)) mod 2 ^ 128 in
  (v >> 128) .^ w .^ (w >> 1) .^ (w >> 2) .^ (w >> 7).

Lemma mulx_lxor a b : mulx (a .^ b) = mulx a .^ mulx b.
Proof.
  unfold mulx. rewrite Z.shiftr_lxor, Z.lxor_spec. destruct (Z.testbit a 0), (Z.testbit b 0); cbn [xorb]; xor_ring.
Qed.

Lemma gf_red_lxor a b : gf_red (a .^ b) = gf_red a .^ gf_red b.
Proof.
  unfold gf_red. cbv zeta. rewrite mod_lxor by lia. rewrite !Z.shiftl_lxor, !(mod_lxor 128) by lia.
  rewrite !Z.shiftr_lxor. xor_ring.
Qed.

(** What holds of the powers of 2 and is kept by sums holds of all words. *)
Lemma word_ind n (P : Z -> Prop) : P 0 -> (forall k, 0 <= k < Z.of_nat n -> P (2 ^ k)) -> (forall a b, P a -> P b -> P (a .^ b)) ->
  forall a, word (Z.of_nat n) a -> P a.
Proof.
  intros H0 Hb Hx. induction n as [|n IH]; intros a Ha.
  - unfold word in Ha. cbn in Ha. by replace a with 0 by lia.
  - set (c := if Z.testbit a (Z.of_nat n) then 2 ^ Z.of_nat n else 0).
    assert (E : a = (a mod 2 ^ Z.of_nat n) .^ c).
    { apply Z.bits_inj'. intros m Hm. rewrite Z.lxor_spec. unfold c.
      assert (Hc : Z.testbit (if Z.testbit a (Z.of_nat n) then 2 ^ Z.of_nat n else 0) m = Z.testbit a (Z.of_nat n) && (Z.of_nat n =? m)).
      { destruct (Z.testbit a _); [by rewrite Z.pow2_bits_eqb by lia|apply Z.bits_0]. }
      rewrite Hc. destruct (Z.lt_trichotomy m (Z.of_nat n)) as [Hl|[->|Hl]].
      - rewrite Z.mod_pow2_bits_low, (proj2 (Z.eqb_neq _ _)), andb_false_r, xorb_false_r by lia. done.
      - rewrite Z.mod_pow2_bits_high, Z.eqb_refl, andb_true_r by lia. by destruct (Z.testbit a _).
      - rewrite Z.mod_pow2_bits_high, (proj2 (Z.eqb_neq _ _)), andb_false_r by lia.
        apply (word_high (Z.of_nat (S n)) ltac:(lia)); [done|lia]. }
    rewrite E. apply Hx.
    + apply IH; [intros k Hk; apply Hb; lia|]. unfold word. apply Z.mod_pos_bound. apply Z.pow_pos_nonneg; lia.
    + unfold c. destruct (Z.testbit a _); [apply Hb; lia|done].
Qed.

Lemma gf_red_mulx u : word 255 u -> gf_red u = mulx (gf_red (u << 1)).
Proof.
  change 255 with (Z.of_nat 255). revert u. apply word_ind.
  - done.
  - assert (H : forallb (fun k => gf_red (2 ^ Z.of_nat k) =? mulx (gf_red (2 ^ Z.of_nat k << 1))) (seq 0 255) = true)
      by (vm_compute; reflexivity).
    intros k Hk. rewrite forallb_forall in H. specialize (H (Z.to_nat k) ltac:(apply in_seq; lia)).
    rewrite Z2Nat.id in H by lia. by apply Z.eqb_eq in H.
  - intros a b Ha Hb. by rewrite gf_red_lxor, Z.shiftl_lxor, gf_red_lxor, mulx_lxor, <- Ha, <- Hb.
Qed.

Lemma gf_sum_red n X Y : (n <= 128)%nat -> word 128 Y -> gf_sum n X (gf_red (Y << Z.of_nat n)) = gf_red (clmul n Y X << 1).
Proof.
  intros Hn HY. induction n as [|n IH]; [done|]. cbn [gf_sum clmul]. rewrite Z.shiftl_lxor, gf_red_lxor.
  rewrite <- IH by lia. assert (E : mulx (gf_red (Y << Z.of_nat (S n))) = gf_red (Y << Z.of_nat n)).
  { rewrite (gf_red_mulx (Y << Z.of_nat n)).
    - rewrite Z.shiftl_shiftl by lia. do 3 f_equal. lia.
    - unfold word in *. rewrite shl_mul by lia. pose proof (Z.pow_le_mono_r 2 (Z.of_nat n) 127 ltac:(lia) ltac:(lia)).
      pose proof (Z.pow_pos_nonneg 2 (Z.of_nat n)). split; [nia|]. change (2 ^ 255) with (2 ^ 128 * 2 ^ 127). nia. }
  rewrite E, Z.lxor_comm. f_equal. destruct (Z.testbit X _); [|done]. rewrite Z.shiftl_shiftl by lia. do 2 f_equal. lia.
Qed.

Lemma gf_red_high Y : word 128 Y -> gf_red (Y << 128) = Y.
Proof.
  intros HY. unfold gf_red. cbv zeta. assert (E : (Y << 128) mod 2 ^ 128 = 0) by (rewrite shl_mul by lia; apply Z.mod_mul; done).
  rewrite E, Z.shiftr_shiftl_l by lia. cbn. by rewrite !Z.lxor_0_r.
Qed.

Lemma gf_mul_red X Y : word 128 X -> word 128 Y -> gf_mul X Y = gf_red (clmul 128 X Y << 1).
Proof.
  intros HX HY. unfold gf_mul. rewrite <- (gf_red_high Y HY) at 1. change (Y << 128) with (Y << Z.of_nat 128).
  by rewrite gf_sum_red, (clmul_comm 128 X Y).
Qed.

(** * Polynomials as arrays of words *)

(** The words of [w] bits [l], the lowest first. *)
Fixpoint join (w : Z) (l : list Z) : Z := match l with [] => 0 | x :: l => x .^ (join w l << w) end.

Lemma join_word w l : 0 <= w -> limbs w l 0 (zlen l) -> word (w * zlen l) (join w l).
Proof.
  intros Hw. induction l as [|x l IH]; intros Hl; [unfold word; cbn; rewrite Z.mul_0_r; lia|]. cbn [join].
  assert (E : zlen (x :: l) = zlen l + 1) by (simpl length; lia). rewrite E, Z.mul_add_distr_l, Z.mul_1_r.
  assert (Hx : word w x) by (specialize (Hl 0 ltac:(lia)); exact Hl).
  assert (Hl' : limbs w l 0 (zlen l)).
  { intros i Hi. specialize (Hl (i + 1) ltac:(simpl length; lia)). by rewrite get_cons_pos, Z.add_simpl_r in Hl by lia. }
  specialize (IH Hl'). apply word_lxor; [nia| |].
  - apply (word_mono w); [nia|done].
  - unfold word in *. rewrite shl_mul, Z.pow_add_r by nia. pose proof (Z.pow_pos_nonneg 2 w). nia.
Qed.

Lemma join_bit w l n : 0 < w -> limbs w l 0 (zlen l) -> 0 <= n -> Z.testbit (join w l) n = Z.testbit (get l (n / w)) (n mod w).
Proof.
  intros Hw. revert n. induction l as [|x l IH]; intros n Hl Hn; cbn [join].
  - rewrite Z.bits_0. replace (get [] (n / w)) with 0 by (unfold get; by destruct (Z.to_nat (n / w))). by rewrite Z.bits_0.
  - assert (Hx : word w x) by (specialize (Hl 0 ltac:(simpl length; lia)); exact Hl).
    assert (Hl' : limbs w l 0 (zlen l)).
    { intros i Hi. specialize (Hl (i + 1) ltac:(simpl length; lia)). by rewrite get_cons_pos, Z.add_simpl_r in Hl by lia. }
    rewrite Z.lxor_spec, Z.shiftl_spec by done. destruct (Z.lt_ge_cases n w).
    + rewrite (Z.testbit_neg_r (join w l)) by lia. rewrite Z.div_small, Z.mod_small, xorb_false_r by lia. done.
    + rewrite (word_high w ltac:(lia) x), xorb_false_l, IH by (done || lia).
      replace ((n - w) / w) with (n / w - 1) by (replace (n - w) with (n + (-1) * w) by lia; rewrite Z.div_add by lia; lia).
      replace ((n - w) mod w) with (n mod w) by (replace (n - w) with (n + (-1) * w) by lia; rewrite Z.mod_add by lia; done).
      assert (1 <= n / w) by (apply Z.div_le_lower_bound; lia).
      by rewrite get_cons_pos by lia.
Qed.

(** The halves of the product of two words. *)
Definition mlo (n : nat) (x y : Z) : Z := clmul n x y mod 2 ^ Z.of_nat n.
Definition mhi (n : nat) (x y : Z) : Z := clmul n x y >> Z.of_nat n.

Lemma mlo_lxor_l n x x' y : mlo n (x .^ x') y = mlo n x y .^ mlo n x' y.
Proof. unfold mlo. by rewrite clmul_lxor_l, mod_lxor by lia. Qed.
Lemma mlo_lxor_r n x y y' : mlo n x (y .^ y') = mlo n x y .^ mlo n x y'.
Proof. unfold mlo. by rewrite clmul_lxor_r, mod_lxor by lia. Qed.
Lemma mhi_lxor_l n x x' y : mhi n (x .^ x') y = mhi n x y .^ mhi n x' y.
Proof. unfold mhi. by rewrite clmul_lxor_l, Z.shiftr_lxor by lia. Qed.
Lemma mhi_lxor_r n x y y' : mhi n x (y .^ y') = mhi n x y .^ mhi n x y'.
Proof. unfold mhi. by rewrite clmul_lxor_r, Z.shiftr_lxor by lia. Qed.

Lemma mlo_word n x y : word (Z.of_nat n) (mlo n x y).
Proof. unfold mlo, word. apply Z.mod_pos_bound, Z.pow_pos_nonneg; lia. Qed.
Lemma mhi_word n x y : word (Z.of_nat n) x -> word (Z.of_nat n) (mhi n x y).
Proof.
  intros Hx. pose proof (clmul_word n (Z.of_nat n) x y ltac:(lia) Hx) as HW. unfold mhi, word in *. rewrite shr_div by lia.
  pose proof (Z.pow_pos_nonneg 2 (Z.of_nat n)). split; [apply Z.div_pos; lia|]. apply Z.div_lt_upper_bound; [lia|].
  rewrite <- Z.pow_add_r by lia. lia.
Qed.
Lemma clmul_halves n x y : clmul n x y = mlo n x y .^ (mhi n x y << Z.of_nat n).
Proof.
  unfold mlo, mhi. apply Z.bits_inj'. intros m Hm. rewrite Z.lxor_spec, Z.shiftl_spec by done.
  destruct (Z.lt_ge_cases m (Z.of_nat n)).
  - by rewrite Z.mod_pow2_bits_low, (Z.testbit_neg_r (_ >> _)), xorb_false_r by lia.
  - rewrite Z.mod_pow2_bits_high by lia.
    rewrite Z.shiftr_spec by lia.
    rewrite xorb_false_l. f_equal. lia.
Qed.

(** The product of polynomials of two parts. *)
Lemma clmul_two n x0 x1 y0 y1 : word (Z.of_nat n) y0 -> word (Z.of_nat n) y1 ->
  let w := Z.of_nat n in
  clmul (2 * n) (join w [x0; x1]) (join w [y0; y1]) =
    clmul n x0 y0 .^ ((clmul n x0 y1 .^ clmul n x1 y0) << w) .^ (clmul n x1 y1 << (2 * w)).
Proof.
  intros H0 H1 w. cbn [join]. rewrite !Z.shiftl_0_l, !Z.lxor_0_r.
  rewrite clmul_lxor_l, !clmul_lxor_r, !clmul_shl_l by lia.
  rewrite !clmul_shl_r by (lia || (intros j Hj; apply (word_high (Z.of_nat n) ltac:(lia)); [done|lia])).
  rewrite !(clmul_more n (2 * n)) by (done || lia). rewrite Z.shiftl_shiftl, Z.shiftl_lxor by lia.
  replace (w + w) with (2 * w) by lia. xor_ring.
Qed.

Lemma clmul_word255 x y : word 128 x -> word 128 y -> word 255 (clmul 128 x y).
Proof.
  intros Hx Hy. apply word_of_bits; [done|by apply clmul_nonneg; apply Hx|]. intros m Hm. rewrite clmul_bit by lia.
  apply xs_false. intros j Hj. rewrite (word_high 128 ltac:(lia) x) by (done || lia). apply andb_false_r.
Qed.
