(* ===== verification/Fips197.v ===== *)
(** AES as FIPS 197 specifies it: bytes as polynomials over GF(2), the two
    ciphers, the key expansion, and that the ciphers are inverse of each other;
    the modes CBC and CTR of SP 800-38A over a block cipher.  Models no code. *)
From stdpp Require Import base tactics list numbers option.
From Stdlib Require Import ZArith Lia Btauto.
From S2P Require Import Prelude Limbs Codec Hash.
Local Open Scope Z_scope.
Local Open Scope cword_scope.

(** * Bytes as elements of GF(2^8) (section 4) *)

(** Multiplication by [x], modulo [x^8 + x^4 + x^3 + x + 1]. *)
Definition xtime (a : Z) : Z := u8 (a << 1) .^ (if Z.testbit a 7 then 0x1b else 0).

(** [c . a], the sum of the [x^i a] for the [n] low bits [i] of [c]. *)
Fixpoint gmul_n (n : nat) (c a : Z) : Z :=
  match n with
  | O => 0
  | S n => (if Z.odd c then a else 0) .^ gmul_n n (c >> 1) (xtime a)
  end.
Definition gmul (c a : Z) : Z := gmul_n 8 c a.

(** The inverse, [a^254] ([0] for [0]). *)
Definition ginv (a : Z) : Z :=
  let a2 := gmul a a in let a4 := gmul a2 a2 in let a8 := gmul a4 a4 in
  let a16 := gmul a8 a8 in let a32 := gmul a16 a16 in
  let a64 := gmul a32 a32 in let a128 := gmul a64 a64 in
  gmul a128 (gmul a64 (gmul a32 (gmul a16 (gmul a8 (gmul a4 a2))))).

(** * The transformations of the state (sections 5.1 and 5.3) *)

Definition rotl8 (b n : Z) : Z := u8 (b << n) .| (b >> (8 - n)).

Definition sub_byte (a : Z) : Z :=
  let b := ginv a in
  b .^ rotl8 b 1 .^ rotl8 b 2 .^ rotl8 b 3 .^ rotl8 b 4 .^ 0x63.
Definition inv_sub_byte (b : Z) : Z :=
  ginv (rotl8 b 1 .^ rotl8 b 3 .^ rotl8 b 6 .^ 0x05).

(** The state is 16 bytes, column by column. *)
Definition cell (s : list Z) (r c : Z) : Z := get s (r + 4 * c).
Definition mk_state (f : Z -> Z -> Z) : list Z :=
  map (fun t => f (Z.of_nat t mod 4) (Z.of_nat t / 4)) (seq 0 16).
Definition aes_state (s : list Z) : Prop := zlen s = 16 /\ byte_string s.

Definition sub_bytes (s : list Z) : list Z := mk_state (fun r c => sub_byte (cell s r c)).
Definition inv_sub_bytes (s : list Z) : list Z := mk_state (fun r c => inv_sub_byte (cell s r c)).
Definition shift_rows (s : list Z) : list Z := mk_state (fun r c => cell s r ((c + r) mod 4)).
Definition inv_shift_rows (s : list Z) : list Z := mk_state (fun r c => cell s r ((c - r) mod 4)).
Definition mix_with (c0 c1 c2 c3 : Z) (s : list Z) : list Z := mk_state (fun r c =>
  gmul c0 (cell s r c) .^ gmul c1 (cell s ((r + 1) mod 4) c)
    .^ gmul c2 (cell s ((r + 2) mod 4) c) .^ gmul c3 (cell s ((r + 3) mod 4) c)).
Definition mix_columns : list Z -> list Z := mix_with 2 3 1 1.
Definition inv_mix_columns : list Z -> list Z := mix_with 14 11 13 9.
Definition add_round_key (k s : list Z) : list Z := mk_state (fun r c => cell s r c .^ cell k r c).

(** The [u]th round key of an expanded key. *)
Definition round_key (w : list Z) (u : nat) : list Z := slice w (16 * Z.of_nat u) 16.

Definition round (w : list Z) (u : nat) (s : list Z) : list Z :=
  add_round_key (round_key w u) (mix_columns (shift_rows (sub_bytes s))).
Definition inv_round (w : list Z) (u : nat) (s : list Z) : list Z :=
  inv_mix_columns (add_round_key (round_key w u) (inv_sub_bytes (inv_shift_rows s))).

Fixpoint rounds (w : list Z) (u : nat) (s : list Z) : list Z :=
  match u with O => s | S u => round w (S u) (rounds w u s) end.
Fixpoint inv_rounds (w : list Z) (u : nat) (s : list Z) : list Z :=
  match u with O => s | S u => inv_rounds w u (inv_round w (S u) s) end.

Definition cipher (w : list Z) (nr : nat) (s : list Z) : list Z :=
  add_round_key (round_key w nr) (shift_rows (sub_bytes
    (rounds w (nr - 1) (add_round_key (round_key w 0) s)))).
Definition inv_cipher (w : list Z) (nr : nat) (s : list Z) : list Z :=
  add_round_key (round_key w 0) (inv_sub_bytes (inv_shift_rows
    (inv_rounds w (nr - 1) (add_round_key (round_key w nr) s)))).

(** * The key expansion (section 5.2) *)

Definition rcon (j : nat) : Z := Nat.iter (j - 1) xtime 1.
Definition rot_word (t : list Z) : list Z := drop 1 t ++ take 1 t.
Definition sub_wd (t : list Z) : list Z := map sub_byte t.
Definition xor_list (a b : list Z) : list Z := zip_with Z.lxor a b.

(** The word [i] of the expanded key, of four bytes, for a key of [nk] words. *)
Definition next_word (nk : nat) (w : list Z) (i : nat) : list Z :=
  let temp := slice w (4 * Z.of_nat (i - 1)) 4 in
  let temp :=
    if decide (i mod nk = 0)%nat then xor_list (sub_wd (rot_word temp)) [rcon (i / nk); 0; 0; 0]
    else if decide (6 < nk /\ i mod nk = 4)%nat then sub_wd temp else temp in
  xor_list (slice w (4 * Z.of_nat (i - nk)) 4) temp.
Fixpoint expand_from (nk : nat) (w : list Z) (i n : nat) : list Z :=
  match n with O => w | S n => expand_from nk (w ++ next_word nk w i) (S i) n end.
Definition key_expansion (nk nr : nat) (key : list Z) : list Z :=
  expand_from nk key nk (4 * (nr + 1) - nk).

(** The number of rounds for a key of [len] bytes. *)
Definition aes_rounds (len : Z) : Z := len / 4 + 6.
Definition aes_key_len (len : Z) : Prop := len = 16 \/ len = 24 \/ len = 32.
Definition aes_expanded (key : list Z) : list Z :=
  key_expansion (Z.to_nat (zlen key / 4)) (Z.to_nat (aes_rounds (zlen key))) key.
Definition aes (key : list Z) : list Z -> list Z :=
  cipher (aes_expanded key) (Z.to_nat (aes_rounds (zlen key))).
Definition aes_inv (key : list Z) : list Z -> list Z :=
  inv_cipher (aes_expanded key) (Z.to_nat (aes_rounds (zlen key))).

(** Appendices B and A.1. *)
Example fips197_cipher :
  aes [0x2b; 0x7e; 0x15; 0x16; 0x28; 0xae; 0xd2; 0xa6; 0xab; 0xf7; 0x15; 0x88; 0x09; 0xcf; 0x4f; 0x3c]
    [0x32; 0x43; 0xf6; 0xa8; 0x88; 0x5a; 0x30; 0x8d; 0x31; 0x31; 0x98; 0xa2; 0xe0; 0x37; 0x07; 0x34]
  = [0x39; 0x25; 0x84; 0x1d; 0x02; 0xdc; 0x09; 0xfb; 0xdc; 0x11; 0x85; 0x97; 0x19; 0x6a; 0x0b; 0x32].
Proof. vm_compute. reflexivity. Qed.

(** * The field *)

Lemma xtime_bit a i : word 8 a -> 0 <= i < 8 ->
  Z.testbit (xtime a) i = xorb ((0 <? i) && Z.testbit a (i - 1)) (Z.testbit 0x1b i && Z.testbit a 7).
Proof.
  intros Ha Hi. unfold xtime, u8. rewrite Z.lxor_spec, Z.mod_pow2_bits_low, Z.shiftl_spec by lia. f_equal.
  - destruct (Z.ltb_spec 0 i); [done|]. by apply Z.testbit_neg_r; lia.
  - destruct (Z.testbit a 7); [by rewrite andb_true_r|]. by rewrite Z.bits_0, andb_false_r.
Qed.

Lemma xtime_word a : word 8 (xtime a).
Proof. unfold xtime. apply word_lxor; [lia|apply u8_word|]. by case_match. Qed.

Lemma byte_bits_eq a b : word 8 a -> word 8 b -> (forall i, 0 <= i < 8 -> Z.testbit a i = Z.testbit b i) -> a = b.
Proof.
  unfold word. intros Ha Hb H. rewrite <- (Z.mod_small a (2 ^ 8)), <- (Z.mod_small b (2 ^ 8)) by done.
  apply Z.bits_inj'. intros i Hi. destruct (Z.lt_ge_cases i 8).
  - rewrite !Z.mod_pow2_bits_low by lia. apply H. lia.
  - by rewrite !Z.mod_pow2_bits_high by lia.
Qed.

Lemma xtime_lxor a b : word 8 a -> word 8 b -> xtime (a .^ b) = xtime a .^ xtime b.
Proof.
  intros Ha Hb. apply byte_bits_eq; [apply xtime_word|apply word_lxor; auto using xtime_word with lia|].
  intros i Hi. rewrite Z.lxor_spec, !xtime_bit, !Z.lxor_spec by (done || by apply word_lxor). btauto.
Qed.

Lemma gmul_word c a : word 8 a -> word 8 (gmul c a).
Proof.
  unfold gmul. generalize 8%nat as n. intros n. revert c a. induction n as [|n IH]; intros c a Ha; [done|].
  cbn [gmul_n]. apply word_lxor; [lia|by case_match|apply IH, xtime_word].
Qed.

(** The products by the constants of the cipher. *)
Lemma gmul_1 a : gmul 1 a = a. Proof. apply Z.lxor_0_r. Qed.
Lemma gmul_2 a : gmul 2 a = xtime a. Proof. apply Z.lxor_0_r. Qed.
Lemma gmul_3 a : gmul 3 a = a .^ xtime a.
Proof. change (gmul 3 a) with (a .^ (xtime a .^ 0)). by rewrite Z.lxor_0_r. Qed.
Lemma gmul_9 a : gmul 9 a = a .^ xtime (xtime (xtime a)).
Proof. change (gmul 9 a) with (a .^ (xtime (xtime (xtime a)) .^ 0)). by rewrite Z.lxor_0_r. Qed.
Lemma gmul_11 a : gmul 11 a = a .^ xtime a .^ xtime (xtime (xtime a)).
Proof.
  change (gmul 11 a) with (a .^ (xtime a .^ (xtime (xtime (xtime a)) .^ 0))).
  by rewrite Z.lxor_0_r, Z.lxor_assoc.
Qed.
Lemma gmul_13 a : gmul 13 a = a .^ xtime (xtime a) .^ xtime (xtime (xtime a)).
Proof.
  change (gmul 13 a) with (a .^ (xtime (xtime a) .^ (xtime (xtime (xtime a)) .^ 0))).
  by rewrite Z.lxor_0_r, Z.lxor_assoc.
Qed.
Lemma gmul_14 a : gmul 14 a = xtime a .^ xtime (xtime a) .^ xtime (xtime (xtime a)).
Proof.
  change (gmul 14 a) with (xtime a .^ (xtime (xtime a) .^ (xtime (xtime (xtime a)) .^ 0))).
  by rewrite Z.lxor_0_r, Z.lxor_assoc.
Qed.

(** A property of bytes by enumeration. *)
Definition all_bytes : list Z := map Z.of_nat (seq 0 256).
Lemma byte_enum (P : Z -> bool) : forallb P all_bytes = true -> forall a, word 8 a -> P a = true.
Proof.
  unfold word. intros H a Ha. rewrite forallb_forall in H. apply H, in_map_iff.
  exists (Z.to_nat a). split; [lia|]. apply in_seq. lia.
Qed.

Lemma wordb_word w x : (0 <=? x) && (x <? 2 ^ w) = true -> word w x.
Proof. rewrite andb_true_iff, Z.leb_le, Z.ltb_lt. done. Qed.

Lemma sub_byte_word a : word 8 a -> word 8 (sub_byte a).
Proof.
  intros Ha. apply wordb_word. revert a Ha.
  apply (byte_enum (fun a => (0 <=? sub_byte a) && (sub_byte a <? 2 ^ 8))). by vm_compute.
Qed.
Lemma inv_sub_byte_word a : word 8 a -> word 8 (inv_sub_byte a).
Proof.
  intros Ha. apply wordb_word. revert a Ha.
  apply (byte_enum (fun a => (0 <=? inv_sub_byte a) && (inv_sub_byte a <? 2 ^ 8))). by vm_compute.
Qed.
Lemma inv_sub_byte_sub_byte a : word 8 a -> inv_sub_byte (sub_byte a) = a.
Proof.
  intros Ha. apply Z.eqb_eq. revert a Ha.
  apply (byte_enum (fun a => inv_sub_byte (sub_byte a) =? a)). by vm_compute.
Qed.

(** [ginv] is the inverse. *)
Lemma ginv_inverse a : word 8 a -> a <> 0 -> gmul a (ginv a) = 1.
Proof.
  intros Ha Hn. assert (H : (a =? 0) || (gmul a (ginv a) =? 1) = true).
  { clear Hn. revert a Ha. apply (byte_enum (fun a => (a =? 0) || (gmul a (ginv a) =? 1))). by vm_compute. }
  apply orb_true_iff in H. rewrite !Z.eqb_eq in H. tauto.
Qed.

(** * States *)

Lemma zlen_mk_state f : zlen (mk_state f) = 16.
Proof. done. Qed.

Lemma cell_mk_state f r c : 0 <= r < 4 -> 0 <= c < 4 -> cell (mk_state f) r c = f r c.
Proof. intros. unfold cell, mk_state. rewrite get_map_seq by lia. f_equal; zn. Qed.

Lemma cell_word s r c : aes_state s -> 0 <= r < 4 -> 0 <= c < 4 -> word 8 (cell s r c).
Proof. intros [HL HB] ? ?. apply bytes_get in HB. apply HB. lia. Qed.

Lemma state_eq s s' : zlen s = 16 -> zlen s' = 16 ->
  (forall r c, 0 <= r < 4 -> 0 <= c < 4 -> cell s r c = cell s' r c) -> s = s'.
Proof.
  intros HL HL' H. apply list_eq_get; [lia|]. intros i Hi.
  replace i with (i mod 4 + 4 * (i / 4)) by zn. apply H; zn.
Qed.

Lemma mk_state_ok f : (forall r c, 0 <= r < 4 -> 0 <= c < 4 -> word 8 (f r c)) -> aes_state (mk_state f).
Proof.
  intros H. split; [done|]. apply Forall_forall. intros x Hx. apply in_map_iff in Hx as (t & <- & Ht).
  apply in_seq in Ht. apply H; zn.
Qed.

Lemma mod4 x : 0 <= x mod 4 < 4.
Proof. zn. Qed.

Section States.
Context (s : list Z) (Hs : aes_state s).

Lemma sub_bytes_ok : aes_state (sub_bytes s).
Proof. apply mk_state_ok. intros. by apply sub_byte_word, cell_word. Qed.
Lemma inv_sub_bytes_ok : aes_state (inv_sub_bytes s).
Proof. apply mk_state_ok. intros. by apply inv_sub_byte_word, cell_word. Qed.
Lemma shift_rows_ok : aes_state (shift_rows s).
Proof. apply mk_state_ok. intros. apply cell_word; auto using mod4. Qed.
Lemma inv_shift_rows_ok : aes_state (inv_shift_rows s).
Proof. apply mk_state_ok. intros. apply cell_word; auto using mod4. Qed.
Lemma mix_with_ok c0 c1 c2 c3 : aes_state (mix_with c0 c1 c2 c3 s).
Proof.
  apply mk_state_ok. intros r c Hr Hc.
  assert (H : forall k i, 0 <= i < 4 -> word 8 (gmul k (cell s i c))) by (intros; by apply gmul_word, cell_word).
  do 3 (apply word_lxor; [lia| |apply H, mod4]). by apply H.
Qed.
Lemma mix_columns_ok : aes_state (mix_columns s).
Proof. apply mix_with_ok. Qed.
Lemma inv_mix_columns_ok : aes_state (inv_mix_columns s).
Proof. apply mix_with_ok. Qed.
Lemma add_round_key_ok k : aes_state k -> aes_state (add_round_key k s).
Proof. intros Hk. apply mk_state_ok. intros. apply word_lxor; [lia|by apply cell_word..]. Qed.

Lemma inv_sub_bytes_sub_bytes : inv_sub_bytes (sub_bytes s) = s.
Proof.
  apply state_eq; [done|apply Hs|]. intros r c Hr Hc. unfold inv_sub_bytes, sub_bytes. rewrite !cell_mk_state by done.
  by apply inv_sub_byte_sub_byte, cell_word.
Qed.
Lemma inv_shift_rows_shift_rows : inv_shift_rows (shift_rows s) = s.
Proof.
  apply state_eq; [done|apply Hs|]. intros r c Hr Hc. unfold inv_shift_rows, shift_rows.
  rewrite !cell_mk_state by auto using mod4. f_equal. zn.
Qed.
Lemma add_round_key_twice k : aes_state k -> add_round_key k (add_round_key k s) = s.
Proof.
  intros Hk. apply state_eq; [done|apply Hs|]. intros r c Hr Hc. unfold add_round_key.
  rewrite !cell_mk_state by done. by rewrite Z.lxor_assoc, Z.lxor_nilpotent, Z.lxor_0_r.
Qed.
End States.

(** [InvMixColumns] is the inverse of [MixColumns]: the products of their
    coefficients cancel without any reduction. *)
Lemma mix_cell c0 c1 c2 c3 s r c : 0 <= r < 4 -> 0 <= c < 4 ->
  cell (mix_with c0 c1 c2 c3 s) r c =
  gmul c0 (cell s r c) .^ gmul c1 (cell s ((r + 1) mod 4) c)
    .^ gmul c2 (cell s ((r + 2) mod 4) c) .^ gmul c3 (cell s ((r + 3) mod 4) c).
Proof. intros. unfold mix_with. by rewrite cell_mk_state. Qed.

Ltac byte_xors := repeat (first [assumption | apply xtime_word | apply word_lxor; [discriminate|..]]).

Lemma mix_cancel a b c d : word 8 a -> word 8 b -> word 8 c -> word 8 d ->
  gmul 14 (gmul 2 a .^ gmul 3 b .^ gmul 1 c .^ gmul 1 d)
    .^ gmul 11 (gmul 2 b .^ gmul 3 c .^ gmul 1 d .^ gmul 1 a)
    .^ gmul 13 (gmul 2 c .^ gmul 3 d .^ gmul 1 a .^ gmul 1 b)
    .^ gmul 9 (gmul 2 d .^ gmul 3 a .^ gmul 1 b .^ gmul 1 c) = a.
Proof.
  intros Ha Hb Hc Hd. rewrite ?gmul_9, ?gmul_11, ?gmul_13, ?gmul_14, ?gmul_1, ?gmul_2, ?gmul_3.
  repeat rewrite xtime_lxor by byte_xors.
  apply Z.bits_inj'. intros i _. rewrite !Z.lxor_spec. btauto.
Qed.

Lemma inv_mix_columns_mix_columns s : aes_state s -> inv_mix_columns (mix_columns s) = s.
Proof.
  intros Hs. apply state_eq; [done|apply Hs|]. intros r c Hr Hc.
  unfold inv_mix_columns, mix_columns. rewrite !mix_cell by auto using mod4.
  assert (r = 0 \/ r = 1 \/ r = 2 \/ r = 3) as Er by lia.
  destruct Er as [->|[->|[->| ->]]]; repeat match goal with |- context [?x mod 4] =>
    let v := eval vm_compute in (x mod 4) in change (x mod 4) with v end;
    apply mix_cancel; apply cell_word; done || lia.
Qed.

(** * The ciphers are inverse of each other *)

Section Ciphers.
Context (w : list Z) (nr : nat) (Hw : byte_string w) (Hlen : 16 * Z.of_nat (nr + 1) <= zlen w) (Hnr : (0 < nr)%nat).

Lemma round_key_ok u : (u <= nr)%nat -> aes_state (round_key w u).
Proof.
  intros Hu. unfold round_key. split; [apply zlen_slice; lia|]. apply byte_string_slice; [lia..| |lia].
  intros i Hi. apply bytes_get in Hw. apply Hw. lia.
Qed.

#[local] Opaque sub_bytes inv_sub_bytes shift_rows inv_shift_rows mix_columns inv_mix_columns add_round_key
  round_key aes_state.

Lemma round_ok u s : (u <= nr)%nat -> aes_state s -> aes_state (round w u s).
Proof. intros Hu Hs. apply add_round_key_ok; [|by apply round_key_ok]. apply mix_columns_ok. by apply shift_rows_ok, sub_bytes_ok. Qed.

Lemma rounds_state u s : (u <= nr)%nat -> aes_state s -> aes_state (rounds w u s).
Proof. intros Hu Hs. induction u as [|u IH]; [done|]. apply round_ok; [done|]. apply IH. lia. Qed.

Lemma cipher_ok s : aes_state s -> aes_state (cipher w nr s).
Proof.
  intros Hs. apply add_round_key_ok; [|by apply round_key_ok]. apply shift_rows_ok, sub_bytes_ok, rounds_state; [lia|].
  apply add_round_key_ok; [done|]. apply round_key_ok. lia.
Qed.

Lemma inv_round_ok u s : (u <= nr)%nat -> aes_state s -> aes_state (inv_round w u s).
Proof.
  intros Hu Hs. apply inv_mix_columns_ok, add_round_key_ok; [|by apply round_key_ok].
  by apply inv_sub_bytes_ok, inv_shift_rows_ok.
Qed.

Lemma inv_rounds_ok u : (u <= nr)%nat -> forall s, aes_state s -> aes_state (inv_rounds w u s).
Proof. induction u as [|u IH]; intros Hu s Hs; [done|]. apply IH; [lia|]. by apply inv_round_ok. Qed.

Lemma inv_cipher_ok s : aes_state s -> aes_state (inv_cipher w nr s).
Proof.
  intros Hs. apply add_round_key_ok; [|apply round_key_ok; lia]. apply inv_sub_bytes_ok, inv_shift_rows_ok, inv_rounds_ok; [lia|].
  apply add_round_key_ok; [done|]. by apply round_key_ok.
Qed.

Lemma inv_sub_shift s : aes_state s -> inv_sub_bytes (inv_shift_rows (shift_rows (sub_bytes s))) = s.
Proof. intros Hs. by rewrite inv_shift_rows_shift_rows, inv_sub_bytes_sub_bytes by auto using sub_bytes_ok. Qed.

Lemma inv_round_step u s : (u <= nr)%nat -> aes_state s ->
  inv_round w u (shift_rows (sub_bytes (round w u s))) = shift_rows (sub_bytes s).
Proof.
  intros Hu Hs. unfold inv_round. rewrite inv_sub_shift by (by apply round_ok). unfold round.
  rewrite add_round_key_twice by (by apply round_key_ok || (apply mix_columns_ok; by apply shift_rows_ok, sub_bytes_ok)).
  apply inv_mix_columns_mix_columns. by apply shift_rows_ok, sub_bytes_ok.
Qed.

Lemma rounds_S u s : rounds w (S u) s = round w (S u) (rounds w u s).
Proof. reflexivity. Qed.
Lemma inv_rounds_S u s : inv_rounds w (S u) s = inv_rounds w u (inv_round w (S u) s).
Proof. reflexivity. Qed.

Lemma inv_rounds_rounds u : (u <= nr)%nat -> forall s, aes_state s ->
  inv_rounds w u (shift_rows (sub_bytes (rounds w u s))) = shift_rows (sub_bytes s).
Proof.
  induction u as [|u IH]; intros Hu s Hs; [reflexivity|]. rewrite inv_rounds_S, rounds_S.
  rewrite (inv_round_step (S u) (rounds w u s) Hu (rounds_state u s ltac:(lia) Hs)). apply IH; [lia|exact Hs].
Qed.

(** The inverse cipher undoes the cipher. *)
Theorem inv_cipher_cipher s : aes_state s -> inv_cipher w nr (cipher w nr s) = s.
Proof.
  intros Hs. unfold inv_cipher, cipher.
  assert (Hk0 : aes_state (round_key w 0)) by (apply round_key_ok; lia).
  assert (Hk : aes_state (round_key w nr)) by (by apply round_key_ok).
  assert (Hs0 : aes_state (add_round_key (round_key w 0) s)) by (apply add_round_key_ok; [exact Hs|exact Hk0]).
  set (s0 := add_round_key (round_key w 0) s) in *.
  assert (HR : aes_state (shift_rows (sub_bytes (rounds w (nr - 1) s0))))
    by (apply shift_rows_ok, sub_bytes_ok, rounds_state; [lia|exact Hs0]).
  rewrite (add_round_key_twice _ HR _ Hk). rewrite (inv_rounds_rounds (nr - 1) ltac:(lia) s0 Hs0).
  rewrite (inv_sub_shift _ Hs0). apply (add_round_key_twice _ Hs _ Hk0).
Qed.
End Ciphers.

(** * The expanded key *)

Lemma xor_list_len a b : zlen a = zlen b -> zlen (xor_list a b) = zlen a.
Proof. intros. unfold xor_list. rewrite length_zip_with. lia. Qed.

Lemma get_xor_list a b i : zlen a = zlen b -> 0 <= i < zlen a -> get (xor_list a b) i = get a i .^ get b i.
Proof.
  intros HL Hi. unfold xor_list. rewrite !get_lookup, lookup_zip_with.
  destruct (lookup_lt_is_Some_2 a (Z.to_nat i)) as [x ->]; [lia|].
  destruct (lookup_lt_is_Some_2 b (Z.to_nat i)) as [y ->]; [lia|]. done.
Qed.

Lemma xor_list_bytes a b : byte_string a -> byte_string b -> byte_string (xor_list a b).
Proof.
  intros Ha. revert b. induction Ha as [|x a Hx Ha IH]; intros b Hb; [constructor|]. destruct Hb as [|y b Hy Hb]; [constructor|].
  constructor; [apply word_lxor; [lia|done..]|by apply IH].
Qed.

Lemma sub_wd_bytes t : byte_string t -> byte_string (sub_wd t).
Proof. intros Ht. apply Forall_map. revert Ht. apply Forall_impl, sub_byte_word. Qed.

Lemma rcon_word j : word 8 (rcon j).
Proof. unfold rcon. destruct (j - 1)%nat; [done|apply xtime_word]. Qed.

Lemma slice_bytes w o n : byte_string w -> byte_string (slice w o n).
Proof. intros H. by apply Forall_take, Forall_drop. Qed.

Lemma rot_word_bytes t : byte_string t -> byte_string (rot_word t).
Proof. intros H. apply Forall_app. split; [by apply Forall_drop|by apply Forall_take]. Qed.

Lemma zlen_rot_word t : zlen (rot_word t) = zlen t.
Proof. unfold rot_word. rewrite length_app, length_drop, length_take. lia. Qed.

Lemma next_word_ok nk w i : byte_string w -> (0 < nk <= i)%nat -> zlen w = 4 * Z.of_nat i ->
  byte_string (next_word nk w i) /\ zlen (next_word nk w i) = 4.
Proof.
  intros Hw Hi HL. unfold next_word. cbv zeta.
  set (t := slice w (4 * Z.of_nat (i - 1)) 4). assert (Bt : byte_string t) by (by apply slice_bytes).
  assert (Lt : zlen t = 4) by (apply zlen_slice; lia).
  set (p := slice w (4 * Z.of_nat (i - nk)) 4). assert (Bp : byte_string p) by (by apply slice_bytes).
  assert (Lp : zlen p = 4) by (apply zlen_slice; lia).
  assert (H : forall q, byte_string q -> zlen q = 4 -> byte_string (xor_list p q) /\ zlen (xor_list p q) = 4)
    by (intros q Bq Lq; split; [by apply xor_list_bytes|rewrite xor_list_len; lia]).
  apply H; repeat case_decide; try done.
  - apply xor_list_bytes; [by apply sub_wd_bytes, rot_word_bytes|]. constructor; [apply rcon_word|]. by repeat (constructor; [done|]).
  - by apply sub_wd_bytes.
  - rewrite xor_list_len; unfold sub_wd; rewrite length_map, zlen_rot_word; done.
  - unfold sub_wd. by rewrite length_map.
Qed.

Lemma expand_from_ok nk n : forall w i, byte_string w -> (0 < nk <= i)%nat -> zlen w = 4 * Z.of_nat i ->
  byte_string (expand_from nk w i n) /\ zlen (expand_from nk w i n) = 4 * Z.of_nat (i + n).
Proof.
  induction n as [|n IH]; intros w i Hw Hi HL; [split; [done|]; cbn [expand_from]; lia|]. cbn [expand_from].
  destruct (next_word_ok nk w i Hw Hi HL) as [HB HN].
  destruct (IH (w ++ next_word nk w i) (S i)) as [H1 H2]; [by apply byte_string_app|lia|rewrite zlen_app; lia|].
  split; [done|]. lia.
Qed.

Lemma aes_expanded_ok key : byte_string key -> aes_key_len (zlen key) ->
  byte_string (aes_expanded key) /\ zlen (aes_expanded key) = 16 * (aes_rounds (zlen key) + 1).
Proof.
  intros Hk HL. unfold aes_expanded, key_expansion.
  destruct (expand_from_ok (Z.to_nat (zlen key / 4))
    (4 * (Z.to_nat (aes_rounds (zlen key)) + 1) - Z.to_nat (zlen key / 4)) key (Z.to_nat (zlen key / 4))) as [H1 H2]; [done|..].
  { destruct HL as [->|[->| ->]]; zn. } { destruct HL as [->|[->| ->]]; done. }
  split; [done|]. rewrite H2. destruct HL as [->|[->| ->]]; done.
Qed.

Lemma aes_rounds_range len : aes_key_len len -> 10 <= aes_rounds len <= 14.
Proof. intros [->|[->| ->]]; done. Qed.

Section Aes.
Context (key : list Z) (Hk : byte_string key) (HL : aes_key_len (zlen key)).

Lemma aes_expanded_rounds : byte_string (aes_expanded key) /\
  16 * Z.of_nat (Z.to_nat (aes_rounds (zlen key)) + 1) <= zlen (aes_expanded key) /\
  (0 < Z.to_nat (aes_rounds (zlen key)))%nat.
Proof.
  destruct (aes_expanded_ok key Hk HL) as [HB ->]. pose proof (aes_rounds_range _ HL). split; [exact HB|]. lia.
Qed.

#[local] Opaque aes_expanded aes_rounds.
Lemma aes_ok s : aes_state s -> aes_state (aes key s).
Proof. destruct aes_expanded_rounds as (HB & HZ & HN). exact (cipher_ok _ _ HB HZ HN s). Qed.
Lemma aes_inv_ok s : aes_state s -> aes_state (aes_inv key s).
Proof. destruct aes_expanded_rounds as (HB & HZ & HN). exact (inv_cipher_ok _ _ HB HZ HN s). Qed.
Lemma aes_inv_aes s : aes_state s -> aes_inv key (aes key s) = s.
Proof. destruct aes_expanded_rounds as (HB & HZ & HN). exact (inv_cipher_cipher _ _ HB HZ HN s). Qed.
End Aes.
