(* ===== verification/AesSbox.v ===== *)
(** The S-box of the bitsliced AES implementations ([src/symcipher/aes_ct.c],
    [aes_ct64.c], [aes_ct_dec.c], [aes_ct64_dec.c]): a circuit of exclusive ors,
    conjunctions and complements, written over any type that has them.  On words
    it is the code; a word is a vector of independent bits, and on bits the
    circuit is the S-box of FIPS 197. *)
From stdpp Require Import base tactics list numbers option.
From Stdlib Require Import ZArith Lia.
From S2P Require Import Prelude Limbs Codec Hash Fips197.
Local Open Scope Z_scope.
Local Open Scope cword_scope.

(** * The circuit *)

(** What the circuit is made of: machine words, or bits. *)
Class Gates (T : Type) := { gxor : T -> T -> T; gand : T -> T -> T; gnot : T -> T }.
Declare Scope gate_scope.
Delimit Scope gate_scope with gate.
Infix "^^" := gxor (at level 50, left associativity) : gate_scope.
Infix "&&&" := gand (at level 40, left associativity) : gate_scope.
Notation "~~ x" := (gnot x) (at level 35, right associativity) : gate_scope.

(** Words of [W] bits: 32 in [aes_ct.c], 64 in [aes_ct64.c]. *)
Definition word_gates (W : Z) : Gates Z :=
  {| gxor := Z.lxor; gand := Z.land; gnot := fun x => Z.lnot x mod 2 ^ W |}.
#[export] Instance gates_bool : Gates bool := {| gxor := xorb; gand := andb; gnot := negb |}.

(** The eight bits of a byte, from the lowest one on. *)
Definition oct (T : Type) : Type := T * T * T * T * T * T * T * T.

(** The circuit of Boyar and Peralta; [x0] is the high bit. *)
Definition Sbox_circuit {T} {G : Gates T} (q : oct T) : oct T :=
  (let '(x7, x6, x5, x4, x3, x2, x1, x0) := q in
  (* Top linear transformation. *)
  let y14 := x3 ^^ x5 in let y13 := x0 ^^ x6 in let y9 := x0 ^^ x3 in let y8 := x0 ^^ x5 in
  let t0 := x1 ^^ x2 in let y1 := t0 ^^ x7 in let y4 := y1 ^^ x3 in let y12 := y13 ^^ y14 in
  let y2 := y1 ^^ x0 in let y5 := y1 ^^ x6 in let y3 := y5 ^^ y8 in let t1 := x4 ^^ y12 in
  let y15 := t1 ^^ x5 in let y20 := t1 ^^ x1 in let y6 := y15 ^^ x7 in let y10 := y15 ^^ t0 in
  let y11 := y20 ^^ y9 in let y7 := x7 ^^ y11 in let y17 := y10 ^^ y11 in let y19 := y10 ^^ y8 in
  let y16 := t0 ^^ y11 in let y21 := y13 ^^ y16 in let y18 := x0 ^^ y16 in
  (* Non-linear section. *)
  let t2 := y12 &&& y15 in let t3 := y3 &&& y6 in let t4 := t3 ^^ t2 in let t5 := y4 &&& x7 in
  let t6 := t5 ^^ t2 in let t7 := y13 &&& y16 in let t8 := y5 &&& y1 in let t9 := t8 ^^ t7 in
  let t10 := y2 &&& y7 in let t11 := t10 ^^ t7 in let t12 := y9 &&& y11 in
  let t13 := y14 &&& y17 in let t14 := t13 ^^ t12 in let t15 := y8 &&& y10 in
  let t16 := t15 ^^ t12 in let t17 := t4 ^^ t14 in let t18 := t6 ^^ t16 in let t19 := t9 ^^ t14 in
  let t20 := t11 ^^ t16 in let t21 := t17 ^^ y20 in let t22 := t18 ^^ y19 in
  let t23 := t19 ^^ y21 in let t24 := t20 ^^ y18 in let t25 := t21 ^^ t22 in
  let t26 := t21 &&& t23 in let t27 := t24 ^^ t26 in let t28 := t25 &&& t27 in
  let t29 := t28 ^^ t22 in let t30 := t23 ^^ t24 in let t31 := t22 ^^ t26 in
  let t32 := t31 &&& t30 in let t33 := t32 ^^ t24 in let t34 := t23 ^^ t33 in
  let t35 := t27 ^^ t33 in let t36 := t24 &&& t35 in let t37 := t36 ^^ t34 in
  let t38 := t27 ^^ t36 in let t39 := t29 &&& t38 in let t40 := t25 ^^ t39 in
  let t41 := t40 ^^ t37 in let t42 := t29 ^^ t33 in let t43 := t29 ^^ t40 in
  let t44 := t33 ^^ t37 in let t45 := t42 ^^ t41 in let z0 := t44 &&& y15 in
  let z1 := t37 &&& y6 in let z2 := t33 &&& x7 in let z3 := t43 &&& y16 in let z4 := t40 &&& y1 in
  let z5 := t29 &&& y7 in let z6 := t42 &&& y11 in let z7 := t45 &&& y17 in
  let z8 := t41 &&& y10 in let z9 := t44 &&& y12 in let z10 := t37 &&& y3 in
  let z11 := t33 &&& y4 in let z12 := t43 &&& y13 in let z13 := t40 &&& y5 in
  let z14 := t29 &&& y2 in let z15 := t42 &&& y9 in let z16 := t45 &&& y14 in
  let z17 := t41 &&& y8 in
  (* Bottom linear transformation. *)
  let t46 := z15 ^^ z16 in let t47 := z10 ^^ z11 in let t48 := z5 ^^ z13 in let t49 := z9 ^^ z10 in
  let t50 := z2 ^^ z12 in let t51 := z2 ^^ z5 in let t52 := z7 ^^ z8 in let t53 := z0 ^^ z3 in
  let t54 := z6 ^^ z7 in let t55 := z16 ^^ z17 in let t56 := z12 ^^ t48 in let t57 := t50 ^^ t53 in
  let t58 := z4 ^^ t46 in let t59 := z3 ^^ t54 in let t60 := t46 ^^ t57 in let t61 := z14 ^^ t57 in
  let t62 := t52 ^^ t58 in let t63 := t49 ^^ t58 in let t64 := z4 ^^ t59 in
  let t65 := t61 ^^ t62 in let t66 := z1 ^^ t63 in let s0 := t59 ^^ t63 in
  let s6 := t56 ^^ ~~ t62 in let s7 := t48 ^^ ~~ t60 in let t67 := t64 ^^ t65 in
  let s3 := t53 ^^ t66 in let s4 := t51 ^^ t66 in let s5 := t47 ^^ t65 in let s1 := t64 ^^ ~~ s3 in
  let s2 := t55 ^^ ~~ t67 in
  (s7, s6, s5, s4, s3, s2, s1, s0))%gate.

(** The linear map that the inverse S-box is made of, with its constant. *)
Definition inv_affine {T} {G : Gates T} (q : oct T) : oct T :=
  (let '(q0, q1, q2, q3, q4, q5, q6, q7) := q in
  let q0 := ~~ q0 in let q1 := ~~ q1 in let q5 := ~~ q5 in let q6 := ~~ q6 in
  (q2 ^^ q5 ^^ q7, q3 ^^ q6 ^^ q0, q4 ^^ q7 ^^ q1, q5 ^^ q0 ^^ q2,
   q6 ^^ q1 ^^ q3, q7 ^^ q2 ^^ q4, q0 ^^ q3 ^^ q5, q1 ^^ q4 ^^ q6))%gate.
Definition invSbox_circuit {T} {G : Gates T} (q : oct T) : oct T :=
  inv_affine (Sbox_circuit (inv_affine q)).

(** The functions on the eight words of [q]. *)
Definition Sbox_with (W : Z) (q : list Z) : M (list Z) :=
  x0 ← load q 7; x1 ← load q 6; x2 ← load q 5; x3 ← load q 4;
  x4 ← load q 3; x5 ← load q 2; x6 ← load q 1; x7 ← load q 0;
  let '(s7, s6, s5, s4, s3, s2, s1, s0) :=
    Sbox_circuit (G:=word_gates W) (x7, x6, x5, x4, x3, x2, x1, x0) in
  q ← store q 7 s0; q ← store q 6 s1; q ← store q 5 s2; q ← store q 4 s3;
  q ← store q 3 s4; q ← store q 2 s5; q ← store q 1 s6; store q 0 s7.

Definition inv_affine_with (W : Z) (q : list Z) : M (list Z) :=
  q0 ← load q 0; q1 ← load q 1; q2 ← load q 2; q3 ← load q 3;
  q4 ← load q 4; q5 ← load q 5; q6 ← load q 6; q7 ← load q 7;
  let '(t0, t1, t2, t3, t4, t5, t6, t7) :=
    inv_affine (G:=word_gates W) (q0, q1, q2, q3, q4, q5, q6, q7) in
  q ← store q 7 t7; q ← store q 6 t6; q ← store q 5 t5; q ← store q 4 t4;
  q ← store q 3 t3; q ← store q 2 t2; q ← store q 1 t1; store q 0 t0.
Definition invSbox_with (W : Z) (q : list Z) : M (list Z) :=
  q ← inv_affine_with W q;
  q ← Sbox_with W q;
  inv_affine_with W q.

(** * Bits of words *)

Definition oct_map {T U} (h : T -> U) (q : oct T) : oct U :=
  let '(a, b, c, d, e, f, g, i) := q in (h a, h b, h c, h d, h e, h f, h g, h i).

Section Hom.
Context {T U} {GT : Gates T} {GU : Gates U} (h : T -> U).
Context (hxor : forall x y, h (gxor x y) = gxor (h x) (h y)).
Context (hand : forall x y, h (gand x y) = gand (h x) (h y)).
Context (hnot : forall x, h (gnot x) = gnot (h x)).

(** A gate of both circuits. *)
Lemma gate_hom {R R'} (rel : R -> R' -> Prop) (x : T) (y : U) (f : T -> R) (g : U -> R') :
  h x = y -> (forall z, rel (f z) (g (h z))) -> rel (f x) (g y).
Proof. by intros <-. Qed.

Ltac gate := lazymatch goal with
  | |- oct_map h (let x := ?e in @?f x) = (let y := ?e' in @?g y) =>
      apply (gate_hom (fun p q => oct_map h p = q) e e' f g);
      [rewrite ?hxor, ?hand, ?hnot; reflexivity|intros ?; cbv beta]
  end.

Lemma Sbox_circuit_hom q : oct_map h (Sbox_circuit q) = Sbox_circuit (oct_map h q).
Proof.
  destruct q as [[[[[[[q0 q1] q2] q3] q4] q5] q6] q7].
  change (oct_map h (q0, q1, q2, q3, q4, q5, q6, q7)) with (h q0, h q1, h q2, h q3, h q4, h q5, h q6, h q7).
  cbv beta iota delta [Sbox_circuit]. repeat gate. reflexivity.
Qed.

Lemma inv_affine_hom q : oct_map h (inv_affine q) = inv_affine (oct_map h q).
Proof.
  destruct q as [[[[[[[q0 q1] q2] q3] q4] q5] q6] q7]. unfold inv_affine. cbn [oct_map].
  by rewrite !hxor, !hnot.
Qed.

Lemma invSbox_circuit_hom q : oct_map h (invSbox_circuit q) = invSbox_circuit (oct_map h q).
Proof. unfold invSbox_circuit. by rewrite inv_affine_hom, Sbox_circuit_hom, inv_affine_hom. Qed.
End Hom.

(** * Bytes across words *)

Definition oct_of_byte (a : Z) : oct bool :=
  let t i := Z.testbit a i in (t 0, t 1, t 2, t 3, t 4, t 5, t 6, t 7).
Definition byte_of_oct (o : oct bool) : Z :=
  let '(a, b, c, d, e, f, g, h) := o in
  b2z a + 2 * b2z b + 4 * b2z c + 8 * b2z d + 16 * b2z e + 32 * b2z f + 64 * b2z g + 128 * b2z h.

Lemma oct_of_byte_of_oct o : oct_of_byte (byte_of_oct o) = o.
Proof. destruct o as [[[[[[[[] []] []] []] []] []] []] []]; reflexivity. Qed.

Lemma byte_of_oct_word o : word 8 (byte_of_oct o).
Proof. destruct o as [[[[[[[a b] c] d] e] f] g] h]. unfold word. cbn [byte_of_oct]. unfold b2z. repeat case_match; lia. Qed.

(** The circuits compute the S-boxes. *)
Lemma Sbox_circuit_byte o : byte_of_oct (Sbox_circuit o) = sub_byte (byte_of_oct o).
Proof.
  rewrite <- (oct_of_byte_of_oct o) at 1. pose proof (byte_of_oct_word o) as H. revert H.
  generalize (byte_of_oct o) as a. intros a Ha. apply Z.eqb_eq. revert a Ha.
  apply (byte_enum (fun a => byte_of_oct (Sbox_circuit (oct_of_byte a)) =? sub_byte a)). by vm_compute.
Qed.

Lemma invSbox_circuit_byte o : byte_of_oct (invSbox_circuit o) = inv_sub_byte (byte_of_oct o).
Proof.
  rewrite <- (oct_of_byte_of_oct o) at 1. pose proof (byte_of_oct_word o) as H. revert H.
  generalize (byte_of_oct o) as a. intros a Ha. apply Z.eqb_eq. revert a Ha.
  apply (byte_enum (fun a => byte_of_oct (invSbox_circuit (oct_of_byte a)) =? inv_sub_byte a)). by vm_compute.
Qed.

(** The eight words as an [oct], and back. *)
Definition words_of (q : list Z) : oct Z :=
  (get q 0, get q 1, get q 2, get q 3, get q 4, get q 5, get q 6, get q 7).
Definition of_words (o : oct Z) : list Z :=
  let '(a, b, c, d, e, f, g, h) := o in [a; b; c; d; e; f; g; h].

(** The byte at the bit position [n] of the eight words. *)
Definition lane (q : list Z) (n : Z) : Z :=
  byte_of_oct (oct_map (fun x => Z.testbit x n) (words_of q)).

Lemma lane_word q n : word 8 (lane q n).
Proof. apply byte_of_oct_word. Qed.

Lemma words_of_of_words o : words_of (of_words o) = o.
Proof. by destruct o as [[[[[[[a b] c] d] e] f] g] h]. Qed.

Lemma lane_bit q n i : 0 <= i < 8 -> Z.testbit (lane q n) i = Z.testbit (get q i) n.
Proof.
  intros Hi. unfold lane.
  set (o := oct_map _ _). assert (E : oct_of_byte (byte_of_oct o) = o) by apply oct_of_byte_of_oct.
  unfold oct_of_byte in E. subst o. unfold words_of in E |- *. cbn [oct_map] in E |- *.
  set (a := byte_of_oct _) in *. injection E as E0 E1 E2 E3 E4 E5 E6 E7.
  assert (i = 0 \/ i = 1 \/ i = 2 \/ i = 3 \/ i = 4 \/ i = 5 \/ i = 6 \/ i = 7) as HI by lia.
  by destruct HI as [->|[->|[->|[->|[->|[->|[->| ->]]]]]]].
Qed.

(** A lane is determined by its bits. *)
Lemma lane_eq q n a : word 8 a -> (forall i, 0 <= i < 8 -> Z.testbit (get q i) n = Z.testbit a i) -> lane q n = a.
Proof. intros Ha H. apply byte_bits_eq; [apply lane_word|done|]. intros i Hi. rewrite lane_bit by done. by apply H. Qed.

(** ** The circuits on words *)

Lemma mod_lnot w x : 0 <= w -> (Z.lnot x mod 2 ^ w) mod 2 ^ w = Z.lnot (x mod 2 ^ w) mod 2 ^ w.
Proof.
  intros Hw. apply Z.bits_inj'. intros n Hn. destruct (Z.lt_ge_cases n w).
  - by rewrite !Z.mod_pow2_bits_low, !Z.lnot_spec, Z.mod_pow2_bits_low by lia.
  - by rewrite !Z.mod_pow2_bits_high by lia.
Qed.

Definition oct_words (W : Z) (o : oct Z) : Prop := oct_map (fun x => x mod 2 ^ W) o = o.

Lemma words_of_words W q : 0 <= W -> zlen q = 8 -> limbs W q 0 8 -> oct_words W (words_of q).
Proof.
  intros HW HL Hq. unfold oct_words, words_of. cbn [oct_map].
  by rewrite !Z.mod_small by (apply Hq; lia).
Qed.

Lemma of_words_limbs W o : 0 <= W -> oct_words W o -> limbs W (of_words o) 0 8.
Proof.
  intros HW Ho. destruct o as [[[[[[[a b] c] d] e] f] g] h]. unfold oct_words in Ho. cbn [oct_map] in Ho.
  injection Ho as E0 E1 E2 E3 E4 E5 E6 E7. intros i Hi.
  assert (i = 0 \/ i = 1 \/ i = 2 \/ i = 3 \/ i = 4 \/ i = 5 \/ i = 6 \/ i = 7) as HI by lia.
  destruct HI as [->|[->|[->|[->|[->|[->|[->| ->]]]]]]]; unfold word; cbn -[Z.pow];
  [rewrite <- E0|rewrite <- E1|rewrite <- E2|rewrite <- E3|rewrite <- E4|rewrite <- E5|rewrite <- E6|rewrite <- E7];
  apply Z.mod_pos_bound; lia.
Qed.

Section WordGates.
Context (W : Z) (HW : 0 <= W).

Lemma word_gates_lane n q : 0 <= n < W ->
  lane (of_words (Sbox_circuit (G:=word_gates W) (words_of q))) n = sub_byte (lane q n) /\
  lane (of_words (invSbox_circuit (G:=word_gates W) (words_of q))) n = inv_sub_byte (lane q n).
Proof.
  intros Hr. unfold lane. rewrite !words_of_of_words.
  rewrite (Sbox_circuit_hom (GT:=word_gates W)), (invSbox_circuit_hom (GT:=word_gates W)),
    Sbox_circuit_byte, invSbox_circuit_byte; [done|..].
  all: intros; cbn [gxor gand gnot word_gates gates_bool]; rewrite ?Z.lxor_spec, ?Z.land_spec; try done.
  all: rewrite Z.mod_pow2_bits_low, Z.lnot_spec by lia; done.
Qed.

Lemma word_gates_limbs q : zlen q = 8 -> limbs W q 0 8 ->
  limbs W (of_words (Sbox_circuit (G:=word_gates W) (words_of q))) 0 8 /\
  limbs W (of_words (invSbox_circuit (G:=word_gates W) (words_of q))) 0 8.
Proof.
  intros HL Hq. pose proof (words_of_words W q HW HL Hq) as Ho. unfold oct_words in Ho.
  split; apply of_words_limbs; try done; unfold oct_words.
  - rewrite (Sbox_circuit_hom (GT:=word_gates W) (GU:=word_gates W)), Ho; [done|..];
      intros; by first [apply mod_lxor|apply mod_land|apply mod_lnot].
  - rewrite (invSbox_circuit_hom (GT:=word_gates W) (GU:=word_gates W)), Ho; [done|..];
      intros; by first [apply mod_lxor|apply mod_land|apply mod_lnot].
Qed.
End WordGates.

Lemma zlen_of_words o : zlen (of_words o) = 8.
Proof. by destruct o as [[[[[[[a b] c] d] e] f] g] h]. Qed.

(** * Leakage: none of the accesses depends on the words *)

Lemma Sbox_with_ct W q1 q2 : blind (Sbox_with W q1) (Sbox_with W q2).
Proof.
  unfold Sbox_with. do 8 (apply blind_bind; [apply blind_load|intros ??]).
  repeat match goal with |- context [Sbox_circuit ?o] => destruct (Sbox_circuit o) as [[[[[[[??]?]?]?]?]?]?] end.
  blind_auto.
Qed.
Lemma inv_affine_with_ct W q1 q2 : blind (inv_affine_with W q1) (inv_affine_with W q2).
Proof. unfold inv_affine_with, inv_affine. blind_auto. Qed.
#[export] Hint Resolve Sbox_with_ct inv_affine_with_ct : blind.
Lemma invSbox_with_ct W q1 q2 : blind (invSbox_with W q1) (invSbox_with W q2).
Proof. unfold invSbox_with. blind_auto. Qed.
#[export] Hint Resolve invSbox_with_ct : blind.
