(* ===== verification/AesSlice.v ===== *)
(** Blocks in bitsliced form: [NB] AES states in eight words, the byte of row
    [r] and column [c] of the state [b] across the bits [R r + NB c + b] of the
    words.  What code that moves bits has to satisfy to be one of the
    transformations of FIPS 197 on every state, and the code that the 32-bit and
    the 64-bit implementation share ([src/symcipher/aes_ct.c],
    [aes_ct_enc.c], [aes_ct_dec.c] and their [aes_ct64] versions). *)
From stdpp Require Import base tactics list numbers option.
From Stdlib Require Import ZArith Lia Btauto.
From S2P Require Import Prelude Limbs Codec Hash BitExpr Fips197 AesSbox.
Local Open Scope Z_scope.
Local Open Scope cword_scope.

(** * Code that the two bitsliced implementations share

    They differ in the width of the words only: [trunc] is the conversion to
    it, [rotr] the rotation by one row of the state and [half] the one by two. *)

(** [SWAPN] on the words [i] and [j] of [q]. *)
Definition SWAPN_with (trunc : Z -> Z) (cl ch s : Z) (q : list Z) (i j : Z) : M (list Z) :=
  a ← load q i;
  b ← load q j;
  q ← store q i ((a .& cl) .| trunc ((b .& cl) << s));
  store q j (((a .& ch) >> s) .| (b .& ch)).
Definition ortho_with (SWAP2 SWAP4 SWAP8 : list Z -> Z -> Z -> M (list Z)) (q : list Z) : M (list Z) :=
  q ← SWAP2 q 0 1;
  q ← SWAP2 q 2 3;
  q ← SWAP2 q 4 5;
  q ← SWAP2 q 6 7;
  q ← SWAP4 q 0 2;
  q ← SWAP4 q 1 3;
  q ← SWAP4 q 4 6;
  q ← SWAP4 q 5 7;
  q ← SWAP8 q 0 4;
  q ← SWAP8 q 1 5;
  q ← SWAP8 q 2 6;
  SWAP8 q 3 7.

(** The round keys are the words of [sk] from [o]. *)
Definition xor_key (q sk : list Z) (o i : Z) : M (list Z) :=
  x ← load q i; k ← load sk (o + i); store q i (x .^ k).
Definition slice_add_round_key (q sk : list Z) (o : Z) : M (list Z) :=
  q ← xor_key q sk o 0;
  q ← xor_key q sk o 1;
  q ← xor_key q sk o 2;
  q ← xor_key q sk o 3;
  q ← xor_key q sk o 4;
  q ← xor_key q sk o 5;
  q ← xor_key q sk o 6;
  xor_key q sk o 7.
(** The one of [aes_ct_dec.c] is a loop. *)
Definition slice_dec_add_round_key (q sk : list Z) (o : Z) : M (list Z) :=
  for_up 0 8 (fun i q => xor_key q sk o i) q.

Definition mix_columns_with (rotr half : Z -> Z) (q : list Z) : M (list Z) :=
  q0 ← load q 0; q1 ← load q 1; q2 ← load q 2; q3 ← load q 3;
  q4 ← load q 4; q5 ← load q 5; q6 ← load q 6; q7 ← load q 7;
  let r0 := rotr q0 in let r1 := rotr q1 in let r2 := rotr q2 in let r3 := rotr q3 in
  let r4 := rotr q4 in let r5 := rotr q5 in let r6 := rotr q6 in let r7 := rotr q7 in
  q ← store q 0 (q7 .^ r7 .^ r0 .^ half (q0 .^ r0));
  q ← store q 1 (q0 .^ r0 .^ q7 .^ r7 .^ r1 .^ half (q1 .^ r1));
  q ← store q 2 (q1 .^ r1 .^ r2 .^ half (q2 .^ r2));
  q ← store q 3 (q2 .^ r2 .^ q7 .^ r7 .^ r3 .^ half (q3 .^ r3));
  q ← store q 4 (q3 .^ r3 .^ q7 .^ r7 .^ r4 .^ half (q4 .^ r4));
  q ← store q 5 (q4 .^ r4 .^ r5 .^ half (q5 .^ r5));
  q ← store q 6 (q5 .^ r5 .^ r6 .^ half (q6 .^ r6));
  store q 7 (q6 .^ r6 .^ r7 .^ half (q7 .^ r7)).

Definition inv_mix_columns_with (rotr half : Z -> Z) (q : list Z) : M (list Z) :=
  q0 ← load q 0; q1 ← load q 1; q2 ← load q 2; q3 ← load q 3;
  q4 ← load q 4; q5 ← load q 5; q6 ← load q 6; q7 ← load q 7;
  let r0 := rotr q0 in let r1 := rotr q1 in let r2 := rotr q2 in let r3 := rotr q3 in
  let r4 := rotr q4 in let r5 := rotr q5 in let r6 := rotr q6 in let r7 := rotr q7 in
  q ← store q 0 (q5 .^ q6 .^ q7 .^ r0 .^ r5 .^ r7 .^ half (q0 .^ q5 .^ q6 .^ r0 .^ r5));
  q ← store q 1 (q0 .^ q5 .^ r0 .^ r1 .^ r5 .^ r6 .^ r7 .^ half (q1 .^ q5 .^ q7 .^ r1 .^ r5 .^ r6));
  q ← store q 2 (q0 .^ q1 .^ q6 .^ r1 .^ r2 .^ r6 .^ r7 .^ half (q0 .^ q2 .^ q6 .^ r2 .^ r6 .^ r7));
  q ← store q 3 (q0 .^ q1 .^ q2 .^ q5 .^ q6 .^ r0 .^ r2 .^ r3 .^ r5 .^
    half (q0 .^ q1 .^ q3 .^ q5 .^ q6 .^ q7 .^ r0 .^ r3 .^ r5 .^ r7));
  q ← store q 4 (q1 .^ q2 .^ q3 .^ q5 .^ r1 .^ r3 .^ r4 .^ r5 .^ r6 .^ r7 .^
    half (q1 .^ q2 .^ q4 .^ q5 .^ q7 .^ r1 .^ r4 .^ r5 .^ r6));
  q ← store q 5 (q2 .^ q3 .^ q4 .^ q6 .^ r2 .^ r4 .^ r5 .^ r6 .^ r7 .^
    half (q2 .^ q3 .^ q5 .^ q6 .^ r2 .^ r5 .^ r6 .^ r7));
  q ← store q 6 (q3 .^ q4 .^ q5 .^ q7 .^ r3 .^ r5 .^ r6 .^ r7 .^
    half (q3 .^ q4 .^ q6 .^ q7 .^ r3 .^ r6 .^ r7));
  store q 7 (q4 .^ q5 .^ q6 .^ r4 .^ r6 .^ r7 .^ half (q4 .^ q5 .^ q7 .^ r4 .^ r7)).

(** * Multiplication by a constant, bit by bit *)

Lemma xtime_0 : xtime 0 = 0.
Proof. reflexivity. Qed.

Lemma gmul_lxor c a b : word 8 a -> word 8 b -> gmul c (a .^ b) = gmul c a .^ gmul c b.
Proof.
  unfold gmul. generalize 8%nat as n. intros n. revert c a b.
  induction n as [|n IH]; intros c a b Ha Hb; [reflexivity|]. cbn [gmul_n].
  rewrite xtime_lxor, IH by (done || apply xtime_word).
  destruct (Z.odd c); rewrite ?Z.lxor_0_l; [|done]. rewrite <- !Z.lxor_assoc. f_equal.
  rewrite !Z.lxor_assoc. f_equal. apply Z.lxor_comm.
Qed.

Lemma gmul_0 c : gmul c 0 = 0.
Proof.
  unfold gmul. generalize 8%nat as n. intros n. revert c. induction n as [|n IH]; intros c; [done|].
  cbn [gmul_n]. rewrite xtime_0, IH. by destruct (Z.odd c).
Qed.

(** The bits of [a] of which the bit [i] of [c . a] is the sum. *)
Definition gmul_srcs (c i : Z) : list Z :=
  List.filter (fun j => Z.testbit (gmul c (2 ^ j)) i) [0; 1; 2; 3; 4; 5; 6; 7].

Definition sum_bits (a : Z) (l : list Z) : bool := fold_right (fun j acc => xorb (Z.testbit a j) acc) false l.

Definition pick (a : Z) (l : list Z) : Z :=
  fold_right (fun j acc => (if Z.testbit a j then 2 ^ j else 0) .^ acc) 0 l.

Lemma pick_all a : word 8 a -> pick a [0; 1; 2; 3; 4; 5; 6; 7] = a.
Proof.
  intros Ha. apply Z.eqb_eq. revert a Ha.
  apply (byte_enum (fun a => pick a [0; 1; 2; 3; 4; 5; 6; 7] =? a)). by vm_compute.
Qed.

Lemma pick_word a l : Forall (fun j => 0 <= j < 8) l -> word 8 (pick a l).
Proof.
  induction 1 as [|j l Hj _ IH]; [done|]. cbn [pick fold_right]. apply word_lxor; [lia| |exact IH].
  case_match; [|done]. unfold word. split; [apply Z.pow_nonneg; lia|]. apply Z.pow_lt_mono_r; lia.
Qed.

Lemma gmul_bit c a i : word 8 a -> Z.testbit (gmul c a) i = sum_bits a (gmul_srcs c i).
Proof.
  intros Ha. rewrite <- (pick_all a Ha) at 1. unfold gmul_srcs.
  assert (HF : Forall (fun j => 0 <= j < 8) [0; 1; 2; 3; 4; 5; 6; 7]) by (repeat constructor; lia).
  revert HF. generalize [0; 1; 2; 3; 4; 5; 6; 7]. intros l HF.
  induction HF as [|j l Hj HF IH]; [cbn [pick fold_right]; by rewrite gmul_0, Z.bits_0|].
  cbn [pick fold_right List.filter]. change (fold_right _ 0 l) with (pick a l).
  rewrite gmul_lxor, Z.lxor_spec, IH; [| |by apply pick_word].
  - destruct (Z.testbit a j) eqn:Ej.
    + destruct (Z.testbit (gmul c (2 ^ j)) i); [|done]. cbn [sum_bits fold_right]. by rewrite Ej.
    + rewrite gmul_0, Z.bits_0, xorb_false_l. destruct (Z.testbit (gmul c (2 ^ j)) i); [|done].
      cbn [sum_bits fold_right]. by rewrite Ej.
  - case_match; [|done]. unfold word. split; [apply Z.pow_nonneg; lia|]. apply Z.pow_lt_mono_r; lia.
Qed.

Lemma gmul_srcs_range c i j : In j (gmul_srcs c i) -> 0 <= j < 8.
Proof. intros H. apply filter_In in H as [H _]. simpl in H. lia. Qed.

(** * Bitsliced states *)

(** Eight words of which the bits are moved and summed up: [spec i n] has the
    bits of [q] of which the bit [n] of the word [i] of [q'] is the sum. *)
Definition layouts (W : Z) (q q' : list Z) (spec : Z -> Z -> list (Z * Z)) : Prop :=
  zlen q' = 8 /\ forall i, 0 <= i < 8 -> layout W q (get q' i) (spec i).

Definition sliced (W : Z) (q : list Z) : Prop := zlen q = 8 /\ limbs W q 0 8.

Lemma layouts_sliced W q q' spec : layouts W q q' spec -> sliced W q'.
Proof. intros [HL H]. split; [done|]. intros i Hi. apply H. lia. Qed.

Lemma sliced_word W q : 0 <= W -> sliced W q -> forall i, word W (get q i).
Proof. intros HW [HL H]. apply limbs_word; [done|]. by rewrite HL. Qed.

(** The bits [(j, m)] of [q] are bits of its lanes. *)
Lemma bit_sum_lane q l m : (forall j, In j l -> 0 <= j < 8) ->
  bit_sum q (map (fun j => (j, m)) l) = sum_bits (lane q m) l.
Proof.
  intros H. induction l as [|j l IH]; [done|]. cbn [map]. rewrite bit_sum_cons. cbn [fst snd sum_bits fold_right].
  rewrite IH by (intros; apply H; by right). rewrite lane_bit; [done|]. apply H. by left.
Qed.

(** The eight words of a concrete array, one by one. *)
Lemma eight_cases (P : Z -> Prop) : P 0 -> P 1 -> P 2 -> P 3 -> P 4 -> P 5 -> P 6 -> P 7 ->
  forall i, 0 <= i < 8 -> P i.
Proof.
  intros P0 P1 P2 P3 P4 P5 P6 P7 i Hi.
  assert (i = 0 \/ i = 1 \/ i = 2 \/ i = 3 \/ i = 4 \/ i = 5 \/ i = 6 \/ i = 7) as HI by lia.
  by destruct HI as [->|[->|[->|[->|[->|[->|[->| ->]]]]]]].
Qed.
Ltac word_of := cbv [get upd insert list_insert nth Z.to_nat Pos.to_nat Pos.iter_op Nat.add].
Ltac word_cases := apply eight_cases; word_of.

(** ** Words of four bytes *)
Lemma get_map (f : Z -> Z) l i : 0 <= i < zlen l -> get (map f l) i = f (get l i).
Proof.
  intros Hi. rewrite !get_lookup, list_lookup_fmap.
  by destruct (lookup_lt_is_Some_2 l (Z.to_nat i)) as [y ->]; [lia|].
Qed.

Definition wbytes (x : Z) : list Z := le_words 4 [x] 1.

Lemma zlen_wbytes x : zlen (wbytes x) = 4.
Proof. reflexivity. Qed.

Lemma get_wbytes x r : 0 <= r < 4 -> get (wbytes x) r = u8 (x >> (8 * r)).
Proof.
  intros Hr. unfold wbytes, le_words. rewrite get_map_seq, Z2Nat.id by (simpl; lia).
  rewrite Z.div_small, Z.mod_small by lia. reflexivity.
Qed.

Lemma wbytes_eq x t : zlen t = 4 -> (forall r, 0 <= r < 4 -> u8 (x >> (8 * r)) = get t r) -> wbytes x = t.
Proof. intros HL H. apply list_eq_get; rewrite zlen_wbytes; [done|]. intros r Hr. rewrite get_wbytes by done. by apply H. Qed.

Lemma wbytes_bytes x : byte_string (wbytes x).
Proof. apply le_words_bytes. Qed.

Lemma u8_shr_bit x k i : 0 <= k -> 0 <= i < 8 -> Z.testbit (u8 (x >> k)) i = Z.testbit x (k + i).
Proof. intros. unfold u8. rewrite Z.mod_pow2_bits_low, Z.shiftr_spec by lia. f_equal. lia. Qed.

Lemma wbytes_lxor x y : wbytes (x .^ y) = xor_list (wbytes x) (wbytes y).
Proof.
  apply wbytes_eq; [by rewrite xor_list_len|]. intros r Hr. rewrite get_xor_list, !get_wbytes by done.
  rewrite Z.shiftr_lxor. unfold u8. by apply mod_lxor.
Qed.

Lemma wbytes_byte c : word 8 c -> wbytes c = [c; 0; 0; 0].
Proof.
  intros Hc. apply wbytes_eq; [done|]. intros r Hr. unfold word in Hc.
  assert (r = 0 \/ 1 <= r) as [->|Hr1] by lia; [by apply u8_small|].
  rewrite shr_div by lia. rewrite Z.div_small.
  - assert (r = 1 \/ r = 2 \/ r = 3) as HR by lia. by destruct HR as [->|[->| ->]].
  - split; [lia|]. apply Z.lt_le_trans with (2 ^ 8); [lia|]. apply Z.pow_le_mono_r; lia.
Qed.

(** Encoding and decoding are the bytes of the word. *)
Lemma enc32_wbytes d o x : 0 <= o -> o + 4 <= zlen d -> word 32 x ->
  ok (br_enc32le d o x) (fun d' => frame o (o + 4) d d' /\ slice d' o 4 = wbytes x).
Proof.
  intros Ho Hl Hx. eapply ok_mono; [apply (codec_enc (WordCodec:=codec32le)); [lia|lia|done]|].
  intros d' (HF & HB & HV). pose proof (frame_len _ _ _ _ HF). split; [done|]. unfold wbytes.
  apply (slice_le_words d' o 4 [x] 1); try lia; [done|]. intros i Hi. replace i with 0 by lia.
  by rewrite Z.mul_0_r, Z.add_0_r.
Qed.

Lemma vle_wbytes s o : 0 <= o -> o + 4 <= zlen s -> bytes s o 4 ->
  word 32 (vle s o 4) /\ wbytes (vle s o 4) = slice s o 4.
Proof.
  intros Ho Hl HB. destruct (ok_inv _ _ (codec_dec (WordCodec:=codec32le) s o Ho Hl HB)) as (t & x & _ & -> & Hx).
  split; [done|]. symmetry. unfold wbytes.
  apply (slice_le_words s o 4 [vle s o 4] 1); try lia; [done|]. intros i Hi. replace i with 0 by lia.
  by rewrite Z.mul_0_r, Z.add_0_r.
Qed.

Lemma dec32_wbytes s o : 0 <= o -> o + 4 <= zlen s -> bytes s o 4 ->
  ok (br_dec32le s o) (fun x => word 32 x /\ wbytes x = slice s o 4).
Proof.
  intros Ho Hl HB. eapply ok_mono; [apply (codec_dec (WordCodec:=codec32le)); [lia|lia|done]|].
  intros x [-> _]. by apply vle_wbytes.
Qed.

Lemma range_dec32_wbytes v num s o : 0 <= o -> 0 <= num -> num <= zlen v -> o + 4 * num <= zlen s -> bytes s o (4 * num) ->
  ok (br_range_dec32le v num s o) (fun v' => frame 0 num v v' /\
    forall i, 0 <= i < num -> word 32 (get v' i) /\ wbytes (get v' i) = slice s (o + 4 * i) 4).
Proof.
  intros Ho Hn Hv Hl HB. eapply ok_mono; [apply (range_dec_ok (HC:=codec32le)); done|].
  intros v' [HF HG]. split; [done|]. intros i Hi. rewrite HG by done.
  apply vle_wbytes; [lia|lia|]. apply (limbs_sub 8 s o (4 * num)); [done|lia..].
Qed.

(** Four words are a block. *)
Definition wblock (w : Z * Z * Z * Z) : list Z :=
  let '(a, b, c, d) := w in le_words 4 [a; b; c; d] 4.
Definition words4 (w : Z * Z * Z * Z) : Prop :=
  let '(a, b, c, d) := w in word 32 a /\ word 32 b /\ word 32 c /\ word 32 d.

Lemma wblock_app a b c d : wblock (a, b, c, d) = wbytes a ++ wbytes b ++ wbytes c ++ wbytes d.
Proof. reflexivity. Qed.

Lemma wblock_ok w : aes_state (wblock w).
Proof. destruct w as [[[a b] c] d]. split; [done|apply le_words_bytes]. Qed.

Lemma xor_list_app a b a' b' : zlen a = zlen a' -> xor_list (a ++ b) (a' ++ b') = xor_list a a' ++ xor_list b b'.
Proof. intros H. unfold xor_list. apply zip_with_app. lia. Qed.

Lemma wblock_lxor a b c d a' b' c' d' :
  wblock (a .^ a', b .^ b', c .^ c', d .^ d') = xor_list (wblock (a, b, c, d)) (wblock (a', b', c', d')).
Proof. rewrite !wblock_app, !wbytes_lxor. by rewrite !xor_list_app. Qed.

Lemma slice_16 s o : 0 <= o -> o + 16 <= zlen s ->
  slice s o 16 = slice s o 4 ++ slice s (o + 4) 4 ++ slice s (o + 8) 4 ++ slice s (o + 12) 4.
Proof.
  intros Ho Hl. change 16 with (4 + (4 + (4 + 4))). rewrite !slice_split by lia. replace (o + 4 + 4) with (o + 8) by lia. by replace (o + 8 + 4) with (o + 12) by lia.
Qed.

Lemma cell_le_words ws r c : 0 <= r < 4 -> 0 <= c < 4 -> cell (le_words 4 ws 4) r c = u8 (get ws c >> (8 * r)).
Proof.
  intros Hr Hc. unfold cell, le_words. rewrite get_map_seq, Z2Nat.id by (simpl; lia).
  replace ((r + 4 * c) / 4) with c by zn. by replace ((r + 4 * c) mod 4) with r by zn.
Qed.

(** The S-boxes on sliced states. *)
Lemma load8_ok {B} (q : list Z) (f : Z -> Z -> Z -> Z -> Z -> Z -> Z -> Z -> M B) (P : B -> Prop) :
  zlen q = 8 -> ok (f (get q 0) (get q 1) (get q 2) (get q 3) (get q 4) (get q 5) (get q 6) (get q 7)) P ->
  ok (q0 ← load q 0; q1 ← load q 1; q2 ← load q 2; q3 ← load q 3;
      q4 ← load q 4; q5 ← load q 5; q6 ← load q 6; q7 ← load q 7; f q0 q1 q2 q3 q4 q5 q6 q7) P.
Proof. intros HL H. do 16 cstep. exact H. Qed.

Lemma store8_ok (q : list Z) s0 s1 s2 s3 s4 s5 s6 s7 (P : list Z -> Prop) : zlen q = 8 ->
  P [s0; s1; s2; s3; s4; s5; s6; s7] ->
  ok (q ← store q 7 s7; q ← store q 6 s6; q ← store q 5 s5; q ← store q 4 s4;
      q ← store q 3 s3; q ← store q 2 s2; q ← store q 1 s1; store q 0 s0) P /\
  ok (q ← store q 0 s0; q ← store q 1 s1; q ← store q 2 s2; q ← store q 3 s3;
      q ← store q 4 s4; q ← store q 5 s5; q ← store q 6 s6; store q 7 s7) P.
Proof.
  intros HL H. destruct (eight_words q HL) as (a & b & c & d & e & f & g & h & ->).
  split; do 15 cstep; exact H.
Qed.

Lemma Sbox_words W q P : zlen q = 8 -> P (of_words (Sbox_circuit (G:=word_gates W) (words_of q))) ->
  ok (Sbox_with W q) P.
Proof.
  intros HL H. unfold Sbox_with. do 16 cstep. unfold words_of in H.
  destruct (Sbox_circuit _) as [[[[[[[s0 s1] s2] s3] s4] s5] s6] s7]. by apply store8_ok.
Qed.

Lemma inv_affine_words W q P : zlen q = 8 -> P (of_words (inv_affine (G:=word_gates W) (words_of q))) ->
  ok (inv_affine_with W q) P.
Proof.
  intros HL H. unfold inv_affine_with. do 16 cstep. unfold words_of in H.
  destruct (inv_affine _) as [[[[[[[s0 s1] s2] s3] s4] s5] s6] s7]. by apply store8_ok.
Qed.

Lemma Sbox_with_ok W q : 0 <= W -> sliced W q ->
  ok (Sbox_with W q) (fun q' => sliced W q' /\ forall n, 0 <= n < W -> lane q' n = sub_byte (lane q n)).
Proof.
  intros HW [HL Hq]. apply Sbox_words; [done|]. split; [split; [apply zlen_of_words|exact (proj1 (word_gates_limbs W HW q HL Hq))]|].
  intros n Hn. exact (proj1 (word_gates_lane W n q Hn)).
Qed.

Lemma invSbox_with_ok W q : 0 <= W -> sliced W q ->
  ok (invSbox_with W q) (fun q' => sliced W q' /\ forall n, 0 <= n < W -> lane q' n = inv_sub_byte (lane q n)).
Proof.
  intros HW [HL Hq]. unfold invSbox_with. cstep. apply inv_affine_words; [done|].
  cstep. apply Sbox_words; [apply zlen_of_words|]. apply inv_affine_words; [apply zlen_of_words|].
  rewrite !words_of_of_words. split; [split; [apply zlen_of_words|exact (proj2 (word_gates_limbs W HW q HL Hq))]|].
  intros n Hn. exact (proj2 (word_gates_lane W n q Hn)).
Qed.

(** A loop on the words. *)
Lemma map_words_ok (f : Z -> Z) q : zlen q = 8 ->
  ok (for_up 0 8 (fun i q => x ← load q i; store q i (f x)) q)
    (fun q' => zlen q' = 8 /\ forall i, 0 <= i < 8 -> get q' i = f (get q i)).
Proof.
  intros HL. apply (ok_for_up (fun i q' => zlen q' = 8 /\ (forall j, 0 <= j < i -> get q' j = f (get q j)) /\
    forall j, i <= j < 8 -> get q' j = get q j)); [lia|split; [done|split; [lia|done]]| |].
  - intros i q' Hi (HL' & H1 & H2). csteps. rewrite zlen_upd. split; [done|]. split; intros j Hj.
    + destruct (Z.eq_dec j i) as [->|]; [by rewrite get_upd_eq, H2 by lia|]. rewrite get_upd_ne by lia. apply H1. lia.
    + rewrite get_upd_ne by lia. apply H2. lia.
  - intros q' (HL' & H1 & _). done.
Qed.

(** The bit [n] of the word [i] comes from the bit [n - n mod 8 + i] of the word
    [n mod 8]: the words are columns of 8 x 8 squares of bits, and become rows. *)
Definition transposed (i n : Z) : list (Z * Z) := [(n mod 8, n - n mod 8 + i)].

Lemma transposed_lane W q q' n : layouts W q q' transposed -> 0 <= n < W ->
  lane q' n = u8 (get q (n mod 8) >> (8 * (n / 8))).
Proof.
  intros [_ HE] Hn. apply lane_eq; [apply u8_word|]. intros i Hi. rewrite (proj2 (HE i Hi)) by done.
  unfold transposed. rewrite bit_sum_cons, u8_shr_bit by zn. cbn [fst snd bit_sum fold_right]. rewrite xorb_false_r.
  f_equal. zn.
Qed.

Lemma transposed_byte W q q' i r : layouts W q q' transposed -> 0 <= i < 8 -> 0 <= r -> 8 * r + 8 <= W ->
  u8 (get q' i >> (8 * r)) = lane q (8 * r + i).
Proof.
  intros [_ HE] Hi Hr HrW. apply byte_bits_eq; [apply u8_word|apply lane_word|]. intros m Hm.
  rewrite u8_shr_bit, lane_bit by lia. rewrite (proj2 (HE i Hi)) by lia. unfold transposed.
  rewrite bit_sum_cons. cbn [fst snd bit_sum fold_right]. rewrite xorb_false_r. f_equal; [f_equal; zn|zn].
Qed.

(** The accesses to the eight words in front of an array. *)
Lemma eight_words_app (q r : list Z) : zlen q = 8 ->
  exists a b c d e f g h, q = [a; b; c; d; e; f; g; h] /\ q ++ r = a :: b :: c :: d :: e :: f :: g :: h :: r.
Proof. intros H. destruct (eight_words q H) as (a & b & c & d & e & f & g & h & ->). by do 8 eexists. Qed.

Ltac swap_step := unfold SWAPN_with at 1; do 2 (cstep; apply ok_load; [simpl length; lia|]); cstep; word_of;
  apply ok_store; [simpl length; lia|]; apply ok_store; [rewrite zlen_upd; simpl length; lia|]; word_of.

Section Slices.
Context (NB : Z) (HNB : NB = 2 \/ NB = 4).
Let R : Z := 4 * NB.
Let W : Z := 4 * R.

Definition slice_pos (r c b : Z) : Z := 4 * NB * r + NB * c + b.
Definition blk (q : list Z) (b : Z) : list Z := mk_state (fun r c => lane q (slice_pos r c b)).

Lemma slice_pos_range r c b : 0 <= r < 4 -> 0 <= c < 4 -> 0 <= b < NB -> 0 <= slice_pos r c b < 16 * NB.
Proof. unfold slice_pos. destruct HNB as [->| ->]; lia. Qed.

Lemma cell_blk q b r c : 0 <= r < 4 -> 0 <= c < 4 -> cell (blk q b) r c = lane q (slice_pos r c b).
Proof. apply cell_mk_state. Qed.

Lemma blk_ok q b : aes_state (blk q b).
Proof. apply mk_state_ok. intros. apply lane_word. Qed.

(** The transformations that act on bytes. *)
Lemma blk_map (f : Z -> Z) q q' b : 0 <= b < NB -> (forall n, 0 <= n < 16 * NB -> lane q' n = f (lane q n)) ->
  blk q' b = mk_state (fun r c => f (cell (blk q b) r c)).
Proof.
  intros Hb H. apply state_eq; [done..|]. intros r c Hr Hc.
  rewrite cell_mk_state, !cell_blk by done. apply H. by apply slice_pos_range.
Qed.

Lemma blk_sub_bytes q q' b : 0 <= b < NB -> (forall n, 0 <= n < 16 * NB -> lane q' n = sub_byte (lane q n)) ->
  blk q' b = sub_bytes (blk q b).
Proof. apply blk_map. Qed.
Lemma blk_inv_sub_bytes q q' b : 0 <= b < NB -> (forall n, 0 <= n < 16 * NB -> lane q' n = inv_sub_byte (lane q n)) ->
  blk q' b = inv_sub_bytes (blk q b).
Proof. apply blk_map. Qed.

(** Moves of bits inside each word. *)
Definition sr_pos (n : Z) : Z := n / (4 * NB) * (4 * NB) + (n mod (4 * NB) + NB * (n / (4 * NB))) mod (4 * NB).
Definition isr_pos (n : Z) : Z := n / (4 * NB) * (4 * NB) + (n mod (4 * NB) - NB * (n / (4 * NB))) mod (4 * NB).

Lemma slice_pos_div r c b : 0 <= c < 4 -> 0 <= b < NB ->
  slice_pos r c b / (4 * NB) = r /\ slice_pos r c b mod (4 * NB) = NB * c + b.
Proof. unfold slice_pos. destruct HNB as [->| ->]; intros; split; zn. Qed.

Lemma sr_pos_eq r c b : 0 <= r < 4 -> 0 <= c < 4 -> 0 <= b < NB ->
  sr_pos (slice_pos r c b) = slice_pos r ((c + r) mod 4) b.
Proof.
  intros Hr Hc Hb. unfold sr_pos. destruct (slice_pos_div r c b Hc Hb) as [-> ->]. unfold slice_pos.
  destruct HNB as [->| ->]; zn.
Qed.
Lemma isr_pos_eq r c b : 0 <= r < 4 -> 0 <= c < 4 -> 0 <= b < NB ->
  isr_pos (slice_pos r c b) = slice_pos r ((c - r) mod 4) b.
Proof.
  intros Hr Hc Hb. unfold isr_pos. destruct (slice_pos_div r c b Hc Hb) as [-> ->]. unfold slice_pos.
  destruct HNB as [->| ->]; zn.
Qed.

Lemma blk_move (f : Z -> Z) (g : Z -> Z -> Z) q q' b : 0 <= b < NB ->
  layouts (16 * NB) q q' (fun i n => [(i, f n)]) ->
  (forall r c, 0 <= r < 4 -> 0 <= c < 4 -> 0 <= g r c < 4 /\ f (slice_pos r c b) = slice_pos r (g r c) b) ->
  blk q' b = mk_state (fun r c => cell (blk q b) r (g r c)).
Proof.
  intros Hb [_ HL] Hf. apply state_eq; [done..|]. intros r c Hr Hc. destruct (Hf r c Hr Hc) as [Hg E].
  rewrite cell_mk_state, !cell_blk by done. apply lane_eq; [apply lane_word|]. intros i Hi.
  rewrite (proj2 (HL i Hi)) by (by apply slice_pos_range). rewrite bit_sum_cons, E. cbn [fst snd].
  rewrite lane_bit by done. apply xorb_false_r.
Qed.

Lemma blk_shift_rows q q' b : 0 <= b < NB -> layouts (16 * NB) q q' (fun i n => [(i, sr_pos n)]) ->
  blk q' b = shift_rows (blk q b).
Proof. intros Hb HL. apply (blk_move sr_pos); [done..|]. intros. split; [apply mod4|by apply sr_pos_eq]. Qed.
Lemma blk_inv_shift_rows q q' b : 0 <= b < NB -> layouts (16 * NB) q q' (fun i n => [(i, isr_pos n)]) ->
  blk q' b = inv_shift_rows (blk q b).
Proof. intros Hb HL. apply (blk_move isr_pos); [done..|]. intros. split; [apply mod4|by apply isr_pos_eq]. Qed.

(** The sums of [MixColumns]. *)
Definition mix_sum (c0 c1 c2 c3 i n : Z) : list (Z * Z) :=
  let term c k := map (fun j => (j, (n + k * (4 * NB)) mod (16 * NB))) (gmul_srcs c i) in
  term c0 0 ++ term c1 1 ++ term c2 2 ++ term c3 3.

Lemma blk_mix c0 c1 c2 c3 q q' b : 0 <= b < NB -> layouts (16 * NB) q q' (mix_sum c0 c1 c2 c3) ->
  blk q' b = mix_with c0 c1 c2 c3 (blk q b).
Proof.
  intros Hb [_ HL]. apply state_eq; [done..|]. intros r c Hr Hc. rewrite mix_cell by done.
  assert (E : forall k, (slice_pos r c b + k * (4 * NB)) mod (16 * NB) = slice_pos ((r + k) mod 4) c b)
    by (intros k; unfold slice_pos; destruct HNB as [->| ->]; zn).
  rewrite !cell_blk by auto using mod4. apply lane_eq.
  { do 3 (apply word_lxor; [lia| |apply gmul_word, lane_word]). apply gmul_word, lane_word. }
  intros i Hi. rewrite (proj2 (HL i Hi)) by (by apply slice_pos_range). unfold mix_sum.
  rewrite !bit_sum_app, !bit_sum_lane by (intros j; apply gmul_srcs_range). rewrite !E, Z.add_0_r, (Z.mod_small r) by lia.
  rewrite !Z.lxor_spec, !gmul_bit by apply lane_word. by rewrite !xorb_assoc.
Qed.

Lemma blk_mix_columns q q' b : 0 <= b < NB -> layouts (16 * NB) q q' (mix_sum 2 3 1 1) ->
  blk q' b = mix_columns (blk q b).
Proof. apply blk_mix. Qed.
Lemma blk_inv_mix_columns q q' b : 0 <= b < NB -> layouts (16 * NB) q q' (mix_sum 14 11 13 9) ->
  blk q' b = inv_mix_columns (blk q b).
Proof. apply blk_mix. Qed.

(** The exclusive or with a sliced key. *)
Lemma blk_add q k q' b : 0 <= b < NB -> (forall i, 0 <= i < 8 -> get q' i = get q i .^ get k i) ->
  blk q' b = add_round_key (blk k b) (blk q b).
Proof.
  intros Hb H. apply state_eq; [done..|]. intros r c Hr Hc. unfold add_round_key.
  rewrite cell_mk_state, !cell_blk by done. apply lane_eq; [apply word_lxor; auto using lane_word with lia|].
  intros i Hi. by rewrite H, !Z.lxor_spec, !lane_bit by done.
Qed.
End Slices.

(** * The ciphers on sliced states

    The two bitsliced implementations have the same rounds over functions of
    their own. *)
Class SliceOps := {
  so_Sbox : list Z -> M (list Z);
  so_invSbox : list Z -> M (list Z);
  so_shift_rows : list Z -> M (list Z);
  so_inv_shift_rows : list Z -> M (list Z);
  so_mix_columns : list Z -> M (list Z);
  so_inv_mix_columns : list Z -> M (list Z);
  (** The exclusive or with the eight words of a key from an offset, in the
      encryption and in the decryption. *)
  so_add_round_key : list Z -> list Z -> Z -> M (list Z);
  so_dec_add_round_key : list Z -> list Z -> Z -> M (list Z) }.

Definition bitslice_encrypt {SO : SliceOps} (num_rounds : Z) (skey q : list Z) : M (list Z) :=
  q ← so_add_round_key q skey 0;
  q ← for_up 1 num_rounds (fun u q =>
    q ← so_Sbox q;
    q ← so_shift_rows q;
    q ← so_mix_columns q;
    so_add_round_key q skey (u << 3)) q;
  q ← so_Sbox q;
  q ← so_shift_rows q;
  so_add_round_key q skey (num_rounds << 3).

Definition bitslice_decrypt {SO : SliceOps} (num_rounds : Z) (skey q : list Z) : M (list Z) :=
  q ← so_dec_add_round_key q skey (num_rounds << 3);
  q ← for_down1 (u32 (num_rounds - 1)) (fun u q =>
    q ← so_inv_shift_rows q;
    q ← so_invSbox q;
    q ← so_dec_add_round_key q skey (u << 3);
    so_inv_mix_columns q) q;
  q ← so_inv_shift_rows q;
  q ← so_invSbox q;
  so_dec_add_round_key q skey 0.

(** What the functions compute on words of [16 NB] bits. *)
Definition key_added (W : Z) (q sk : list Z) (o : Z) (q' : list Z) : Prop :=
  sliced W q' /\ forall i, 0 <= i < 8 -> get q' i = get q i .^ get sk (o + i).

Class SliceLaws (NB : Z) (SO : SliceOps) : Prop := {
  sl_NB : NB = 2 \/ NB = 4;
  sl_Sbox q : sliced (16 * NB) q -> ok (so_Sbox q) (fun q' => sliced (16 * NB) q' /\
    forall n, 0 <= n < 16 * NB -> lane q' n = sub_byte (lane q n));
  sl_invSbox q : sliced (16 * NB) q -> ok (so_invSbox q) (fun q' => sliced (16 * NB) q' /\
    forall n, 0 <= n < 16 * NB -> lane q' n = inv_sub_byte (lane q n));
  sl_shift_rows q : sliced (16 * NB) q ->
    ok (so_shift_rows q) (fun q' => layouts (16 * NB) q q' (fun i n => [(i, sr_pos NB n)]));
  sl_inv_shift_rows q : sliced (16 * NB) q ->
    ok (so_inv_shift_rows q) (fun q' => layouts (16 * NB) q q' (fun i n => [(i, isr_pos NB n)]));
  sl_mix_columns q : sliced (16 * NB) q ->
    ok (so_mix_columns q) (fun q' => layouts (16 * NB) q q' (mix_sum NB 2 3 1 1));
  sl_inv_mix_columns q : sliced (16 * NB) q ->
    ok (so_inv_mix_columns q) (fun q' => layouts (16 * NB) q q' (mix_sum NB 14 11 13 9));
  sl_add_round_key q sk o : sliced (16 * NB) q -> 0 <= o -> o + 8 <= zlen sk -> limbs (16 * NB) sk o 8 ->
    ok (so_add_round_key q sk o) (key_added (16 * NB) q sk o);
  sl_dec_add_round_key q sk o : sliced (16 * NB) q -> 0 <= o -> o + 8 <= zlen sk -> limbs (16 * NB) sk o 8 ->
    ok (so_dec_add_round_key q sk o) (key_added (16 * NB) q sk o) }.

Lemma key_added_words W q sk o q' : 0 <= W -> zlen q' = 8 -> sliced W q -> limbs W sk o 8 ->
  (forall i, 0 <= i < 8 -> get q' i = get q i .^ get sk (o + i)) -> key_added W q sk o q'.
Proof.
  intros HW HL Hq Hk HE. split; [split; [done|]|exact HE]. intros i Hi. rewrite HE by lia.
  apply word_lxor; [lia|apply Hq; lia|apply Hk; lia].
Qed.

Section KeyAdded.
Context (W : Z) (HW : 0 <= W) (q sk : list Z) (o : Z) (Hq : sliced W q) (Ho : 0 <= o) (Hl : o + 8 <= zlen sk) (Hk : limbs W sk o 8).

Lemma slice_dec_add_round_key_ok : ok (slice_dec_add_round_key q sk o) (key_added W q sk o).
Proof.
  pose proof (proj1 Hq) as HL.
  apply (ok_for_up (fun i q' => zlen q' = 8 /\ (forall j, 0 <= j < i -> get q' j = get q j .^ get sk (o + j)) /\
    forall j, i <= j < 8 -> get q' j = get q j)); [lia|split; [done|split; [lia|done]]| |].
  - intros i q' Hi (HL' & H1 & H2). unfold xor_key. csteps; try lia. rewrite zlen_upd. split; [done|].
    split; intros j Hj.
    + destruct (Z.eq_dec j i) as [->|]; [by rewrite get_upd_eq, H2 by lia|]. rewrite get_upd_ne by lia. apply H1. lia.
    + rewrite get_upd_ne by lia. apply H2. lia.
  - intros q' (HL' & H1 & _). by apply (key_added_words W).
Qed.

Lemma slice_add_round_key_ok : ok (slice_add_round_key q sk o) (key_added W q sk o).
Proof.
  pose proof (proj1 Hq) as HL. unfold slice_add_round_key, xor_key.
  repeat first [apply ok_bind | apply ok_load; [rewrite ?zlen_upd; lia|]
    | apply ok_store; [rewrite ?zlen_upd; lia|]].
  apply (key_added_words W); [lia|by rewrite !zlen_upd|done..|].
  destruct (eight_words q HL) as (a & b & c & d & e & f & g & h & ->).
  apply eight_cases; reflexivity.
Qed.
End KeyAdded.

(** The array [sk] has the round keys of [w], sliced, once for every block. *)
Definition sliced_keys (NB : Z) (sk w : list Z) (nr : Z) : Prop :=
  8 * (nr + 1) <= zlen sk /\ limbs (16 * NB) sk 0 (8 * (nr + 1)) /\
  forall u b, 0 <= u <= nr -> 0 <= b < NB -> blk NB (slice sk (8 * u) 8) b = round_key w (Z.to_nat u).

Section Rounds.
Context {NB : Z} {SO : SliceOps} {SL : SliceLaws NB SO}.
Context (sk w : list Z) (nr : Z) (Hnr : 1 <= nr < 2 ^ 16) (Hk : sliced_keys NB sk w nr).

(** A sliced state that holds the states [f 0], [f 1], ... *)
Definition holds (q : list Z) (f : Z -> list Z) : Prop :=
  sliced (16 * NB) q /\ forall b, 0 <= b < NB -> blk NB q b = f b.

#[local] Opaque sub_bytes inv_sub_bytes shift_rows inv_shift_rows mix_columns inv_mix_columns add_round_key
  blk aes_state.

Lemma Sbox_holds q f : holds q f -> ok (so_Sbox q) (fun q' => holds q' (fun b => sub_bytes (f b))).
Proof.
  intros [Hq Hf]. eapply ok_mono; [by apply sl_Sbox|]. intros q' [Hq' HE]. split; [done|].
  intros b Hb. rewrite <- Hf by done. by apply (blk_sub_bytes NB sl_NB).
Qed.
Lemma invSbox_holds q f : holds q f -> ok (so_invSbox q) (fun q' => holds q' (fun b => inv_sub_bytes (f b))).
Proof.
  intros [Hq Hf]. eapply ok_mono; [by apply sl_invSbox|]. intros q' [Hq' HE]. split; [done|].
  intros b Hb. rewrite <- Hf by done. by apply (blk_inv_sub_bytes NB sl_NB).
Qed.
Lemma shift_rows_holds q f : holds q f -> ok (so_shift_rows q) (fun q' => holds q' (fun b => shift_rows (f b))).
Proof.
  intros [Hq Hf]. eapply ok_mono; [by apply sl_shift_rows|]. intros q' HL. split; [exact (layouts_sliced _ _ _ _ HL)|].
  intros b Hb. rewrite <- Hf by done. by apply (blk_shift_rows NB sl_NB).
Qed.
Lemma inv_shift_rows_holds q f : holds q f ->
  ok (so_inv_shift_rows q) (fun q' => holds q' (fun b => inv_shift_rows (f b))).
Proof.
  intros [Hq Hf]. eapply ok_mono; [by apply sl_inv_shift_rows|]. intros q' HL. split; [exact (layouts_sliced _ _ _ _ HL)|].
  intros b Hb. rewrite <- Hf by done. by apply (blk_inv_shift_rows NB sl_NB).
Qed.
Lemma mix_columns_holds q f : holds q f -> ok (so_mix_columns q) (fun q' => holds q' (fun b => mix_columns (f b))).
Proof.
  intros [Hq Hf]. eapply ok_mono; [by apply sl_mix_columns|]. intros q' HL. split; [exact (layouts_sliced _ _ _ _ HL)|].
  intros b Hb. rewrite <- Hf by done. by apply (blk_mix_columns NB sl_NB).
Qed.
Lemma inv_mix_columns_holds q f : holds q f ->
  ok (so_inv_mix_columns q) (fun q' => holds q' (fun b => inv_mix_columns (f b))).
Proof.
  intros [Hq Hf]. eapply ok_mono; [by apply sl_inv_mix_columns|]. intros q' HL. split; [exact (layouts_sliced _ _ _ _ HL)|].
  intros b Hb. rewrite <- Hf by done. by apply (blk_inv_mix_columns NB sl_NB).
Qed.

Lemma key_added_holds q f u q' : holds q f -> 0 <= u <= nr -> key_added (16 * NB) q sk (8 * u) q' ->
  holds q' (fun b => add_round_key (round_key w (Z.to_nat u)) (f b)).
Proof.
  intros [Hq Hf] Hu [Hq' HE]. split; [done|]. intros b Hb. destruct Hk as (HL & _ & HK).
  rewrite <- Hf, <- (HK u b) by done. apply blk_add; [done|]. intros i Hi. rewrite HE, get_slice by lia. done.
Qed.
Lemma add_round_key_holds q f u : holds q f -> 0 <= u <= nr ->
  ok (so_add_round_key q sk (8 * u)) (fun q' => holds q' (fun b => add_round_key (round_key w (Z.to_nat u)) (f b))).
Proof.
  intros Hq Hu. destruct Hk as (HL & HB & _). eapply ok_mono.
  - apply sl_add_round_key; [apply Hq|lia|lia|]. apply (limbs_sub _ sk 0 (8 * (nr + 1))); [done|lia..].
  - intros q'. by apply key_added_holds.
Qed.
Lemma dec_add_round_key_holds q f u : holds q f -> 0 <= u <= nr ->
  ok (so_dec_add_round_key q sk (8 * u)) (fun q' => holds q' (fun b => add_round_key (round_key w (Z.to_nat u)) (f b))).
Proof.
  intros Hq Hu. destruct Hk as (HL & HB & _). eapply ok_mono.
  - apply sl_dec_add_round_key; [apply Hq|lia|lia|]. apply (limbs_sub _ sk 0 (8 * (nr + 1))); [done|lia..].
  - intros q'. by apply key_added_holds.
Qed.

Lemma shl3 u : u << 3 = 8 * u.
Proof. rewrite shl_mul by lia. lia. Qed.

Lemma bitslice_encrypt_ok q f : holds q f ->
  ok (bitslice_encrypt nr sk q) (fun q' => holds q' (fun b => cipher w (Z.to_nat nr) (f b))).
Proof.
  intros Hq. unfold bitslice_encrypt, cipher. rewrite shl3.
  cstep. eapply ok_mono; [apply (add_round_key_holds q f 0); [done|lia]|]. intros q0 H0.
  set (g := fun b => add_round_key (round_key w 0) (f b)). change (holds q0 g) in H0.
  cstep. apply (ok_for_up (fun u q' => holds q' (fun b => rounds w (Z.to_nat (u - 1)) (g b)))); [lia|done| |].
  - intros u q1 Hu H1. rewrite shl3. cstep. eapply ok_mono; [apply (Sbox_holds _ _ H1)|]. intros q2 H2.
    cstep. eapply ok_mono; [apply (shift_rows_holds _ _ H2)|]. intros q3 H3.
    cstep. eapply ok_mono; [apply (mix_columns_holds _ _ H3)|]. intros q4 H4.
    eapply ok_mono; [apply (add_round_key_holds q4 _ u H4); lia|]. intros q5 [H5 H6]. split; [done|].
    intros b Hb. rewrite H6 by done. replace (Z.to_nat (u + 1 - 1)) with (S (Z.to_nat (u - 1))) by lia.
    rewrite rounds_S. unfold round. by replace (S (Z.to_nat (u - 1))) with (Z.to_nat u) by lia.
  - intros q1 H1. cstep. eapply ok_mono; [apply (Sbox_holds _ _ H1)|]. intros q2 H2.
    cstep. eapply ok_mono; [apply (shift_rows_holds _ _ H2)|]. intros q3 H3.
    eapply ok_mono; [apply (add_round_key_holds q3 _ nr H3); lia|]. intros q4 [H4 H5]. split; [done|].
    intros b Hb. rewrite H5 by done. by replace (Z.to_nat (nr - 1)) with (Z.to_nat nr - 1)%nat by lia.
Qed.

Lemma bitslice_decrypt_ok q f : holds q f ->
  ok (bitslice_decrypt nr sk q) (fun q' => holds q' (fun b => inv_cipher w (Z.to_nat nr) (f b))).
Proof.
  intros Hq. unfold bitslice_decrypt, inv_cipher. rewrite shl3, u32_small by (unfold word; lia).
  cstep. eapply ok_mono; [apply (dec_add_round_key_holds q f nr); [done|lia]|]. intros q0 H0.
  set (g := fun b => add_round_key (round_key w (Z.to_nat nr)) (f b)). change (holds q0 g) in H0.
  cstep. apply (ok_for_down1 (fun u q' => exists h, holds q' h /\
    forall b, inv_rounds w (Z.to_nat u) (h b) = inv_rounds w (Z.to_nat nr - 1) (g b))); [lia| | |].
  - exists g. split; [done|]. intros b. by replace (Z.to_nat (nr - 1)) with (Z.to_nat nr - 1)%nat by lia.
  - intros u q1 Hu (h & H1 & HE). rewrite shl3. cstep. eapply ok_mono; [apply (inv_shift_rows_holds _ _ H1)|]. intros q2 H2.
    cstep. eapply ok_mono; [apply (invSbox_holds _ _ H2)|]. intros q3 H3.
    cstep. eapply ok_mono; [apply (dec_add_round_key_holds q3 _ u H3); lia|]. intros q4 H4.
    eapply ok_mono; [apply (inv_mix_columns_holds _ _ H4)|]. intros q5 H5. eexists. split; [exact H5|].
    intros b. rewrite <- HE. replace (Z.to_nat u) with (S (Z.to_nat (u - 1))) by lia.
    rewrite inv_rounds_S. reflexivity.
  - intros q1 (h & H1 & HE). cstep. eapply ok_mono; [apply (inv_shift_rows_holds _ _ H1)|]. intros q2 H2.
    cstep. eapply ok_mono; [apply (invSbox_holds _ _ H2)|]. intros q3 H3.
    eapply ok_mono; [apply (dec_add_round_key_holds q3 _ 0 H3); lia|]. intros q4 [H4 H5]. split; [done|].
    intros b Hb. rewrite H5 by done. unfold g in HE. rewrite <- HE. reflexivity.
Qed.
End Rounds.

(** * Leakage of the shared code *)

Lemma SWAPN_with_ct t cl ch s q1 q2 i j : blind (SWAPN_with t cl ch s q1 i j) (SWAPN_with t cl ch s q2 i j).
Proof. unfold SWAPN_with. blind_auto. Qed.
Lemma xor_key_ct q1 q2 k1 k2 o i : blind (xor_key q1 k1 o i) (xor_key q2 k2 o i).
Proof. unfold xor_key. blind_auto. Qed.
#[export] Hint Resolve SWAPN_with_ct xor_key_ct : blind.
Lemma slice_add_round_key_ct q1 q2 k1 k2 o : blind (slice_add_round_key q1 k1 o) (slice_add_round_key q2 k2 o).
Proof. unfold slice_add_round_key. blind_auto. Qed.
Lemma slice_dec_add_round_key_ct q1 q2 k1 k2 o : blind (slice_dec_add_round_key q1 k1 o) (slice_dec_add_round_key q2 k2 o).
Proof. unfold slice_dec_add_round_key. blind_auto. Qed.
Lemma mix_columns_with_ct r h q1 q2 : blind (mix_columns_with r h q1) (mix_columns_with r h q2).
Proof. unfold mix_columns_with. blind_auto. Qed.
Lemma inv_mix_columns_with_ct r h q1 q2 : blind (inv_mix_columns_with r h q1) (inv_mix_columns_with r h q2).
Proof. unfold inv_mix_columns_with. blind_auto. Qed.
#[export] Hint Resolve slice_add_round_key_ct slice_dec_add_round_key_ct mix_columns_with_ct inv_mix_columns_with_ct : blind.

(** The leakage of the rounds is the one of their functions. *)
Class SliceCt (SO : SliceOps) : Prop := {
  sc_Sbox q1 q2 : blind (so_Sbox q1) (so_Sbox q2);
  sc_invSbox q1 q2 : blind (so_invSbox q1) (so_invSbox q2);
  sc_shift_rows q1 q2 : blind (so_shift_rows q1) (so_shift_rows q2);
  sc_inv_shift_rows q1 q2 : blind (so_inv_shift_rows q1) (so_inv_shift_rows q2);
  sc_mix_columns q1 q2 : blind (so_mix_columns q1) (so_mix_columns q2);
  sc_inv_mix_columns q1 q2 : blind (so_inv_mix_columns q1) (so_inv_mix_columns q2);
  sc_add_round_key q1 q2 k1 k2 o : blind (so_add_round_key q1 k1 o) (so_add_round_key q2 k2 o);
  sc_dec_add_round_key q1 q2 k1 k2 o : blind (so_dec_add_round_key q1 k1 o) (so_dec_add_round_key q2 k2 o) }.
#[export] Hint Resolve sc_Sbox sc_invSbox sc_shift_rows sc_inv_shift_rows sc_mix_columns sc_inv_mix_columns
  sc_add_round_key sc_dec_add_round_key : blind.

Lemma bitslice_encrypt_ct {SO} {SC : SliceCt SO} nr k1 k2 q1 q2 :
  blind (bitslice_encrypt nr k1 q1) (bitslice_encrypt nr k2 q2).
Proof. unfold bitslice_encrypt. blind_auto. Qed.
Lemma bitslice_decrypt_ct {SO} {SC : SliceCt SO} nr k1 k2 q1 q2 :
  blind (bitslice_decrypt nr k1 q1) (bitslice_decrypt nr k2 q2).
Proof.
  unfold bitslice_decrypt. apply blind_bind; [blind_auto|intros]. apply blind_bind; [|intros; blind_auto].
  apply ct_for_down1; [done..|]. intros. blind_auto.
Qed.
