(* ===== verification/AesKeys.v ===== *)
(** The key expansion of AES over words ([src/symcipher/aes_ct.c],
    [aes_ct64.c]): the implementations differ in how they substitute the
    bytes of a word and store the words; what they share, over the class
    [KeyWords] of the operations on words. *)
From stdpp Require Import base tactics list numbers option.
From Stdlib Require Import ZArith Lia.
From S2P Require Import Prelude Limbs Codec Hash BitExpr Fips197 AesSbox AesSlice.
Local Open Scope Z_scope.
Local Open Scope cword_scope.

(** * Code *)

Definition Rcon : list Z := [0x01; 0x02; 0x04; 0x08; 0x10; 0x20; 0x40; 0x80; 0x1B; 0x36].

(** The number of rounds, [0] for a length that is not allowed. *)
Definition key_rounds (key_len : Z) : M Z :=
  If key_len =? 16 Then mret 10
  Else If key_len =? 24 Then mret 12
  Else If key_len =? 32 Then mret 14 Else mret 0.

(** The word that is mixed into the one [nk] words before; [sub] is the
    substitution of the bytes of a word. *)
Definition mixed_word (sub : Z -> M Z) (nk tmp j k : Z) : M Z :=
  If j =? 0 Then
    let tmp := u32 (tmp << 24) .| (tmp >> 8) in
    x ← sub tmp;
    r ← load Rcon k;
    mret (x .^ r)
  Else If (6 <? nk) && (j =? 4) Then sub tmp Else mret tmp.

(** * The words of FIPS 197 *)

Lemma rot_ok x : word 32 x ->
  let y := u32 (x << 24) .| (x >> 8) in word 32 y /\ wbytes y = rot_word (wbytes x).
Proof.
  intros Hx y. assert (HL : layout 32 [x] y (fun n => [(0, (n + 8) mod 32)])).
  { assert (HW : forall i, word 32 (get [x] i)) by (apply limbs_word; [lia|]; intros i Hi; by replace i with 0 by (simpl in Hi; lia)).
    unfold y. check_layout HW. }
  destruct HL as [Hy HB]. split; [done|]. apply wbytes_eq; [done|]. intros r Hr.
  assert (E : get (rot_word (wbytes x)) r = u8 (x >> (8 * ((r + 1) mod 4)))).
  { assert (r = 0 \/ r = 1 \/ r = 2 \/ r = 3) as HR by lia. by destruct HR as [->|[->|[->| ->]]]. }
  rewrite E. apply byte_bits_eq; [apply u8_word..|]. intros i Hi. rewrite !u8_shr_bit by zn. rewrite HB by lia.
  rewrite bit_sum_cons. cbn [fst snd bit_sum fold_right]. rewrite xorb_false_r. change (get [x] 0) with x. f_equal. zn.
Qed.

Lemma key_rounds_ok len : aes_key_len len -> ok (key_rounds len) (fun n => n = aes_rounds len).
Proof.
  intros Hlen. unfold key_rounds.
  destruct Hlen as [->|[->| ->]]; repeat (apply ok_cond; [intros; try done|intros; try done]); reflexivity.
Qed.

Lemma slice_app_l (a b : list Z) o n : 0 <= o -> 0 <= n -> o + n <= zlen a -> slice (a ++ b) o n = slice a o n.
Proof.
  intros. apply list_eq_get; rewrite !zlen_slice by (rewrite ?zlen_app; lia); [done|]. intros i Hi.
  rewrite !get_slice by lia. apply get_app_l. lia.
Qed.
Lemma slice_app_r (a b : list Z) n : zlen b = n -> slice (a ++ b) (zlen a) n = b.
Proof. intros <-. unfold slice. rewrite !Nat2Z.id, drop_app_length. apply take_ge. lia. Qed.

Lemma Rcon_ok k : 0 <= k < 10 -> get Rcon k = rcon (Z.to_nat (k + 1)).
Proof.
  intros Hk. assert (H : forallb (fun k => get Rcon (Z.of_nat k) =? rcon (k + 1)) (seq 0 10) = true) by by vm_compute.
  rewrite forallb_forall in H. specialize (H (Z.to_nat k) ltac:(apply in_seq; lia)). apply Z.eqb_eq in H.
  rewrite Z2Nat.id in H by lia. rewrite H. f_equal. lia.
Qed.

Section Keysched.
Context (key : list Z) (nk : nat) (Hkey : byte_string key) (Hnk : nk = 4%nat \/ nk = 6%nat \/ nk = 8%nat)
  (Hlen : zlen key = 4 * Z.of_nat nk).

(** The first [i] words of the expanded key. *)
Definition key_words_upto (i : Z) : list Z := expand_from nk key nk (Z.to_nat i - nk).

Lemma expand_from_snoc n : forall w i, expand_from nk w i (S n) =
  expand_from nk w i n ++ next_word nk (expand_from nk w i n) (i + n).
Proof.
  induction n as [|n IH]; intros w i; [by rewrite Nat.add_0_r|].
  cbn [expand_from]. cbn [expand_from] in IH. rewrite IH. do 2 f_equal. lia.
Qed.

Lemma key_words_upto_ok i : Z.of_nat nk <= i ->
  byte_string (key_words_upto i) /\ zlen (key_words_upto i) = 4 * i.
Proof.
  intros Hi. destruct (expand_from_ok nk (Z.to_nat i - nk) key nk) as [H1 H2]; [done|lia|lia|].
  split; [done|]. unfold key_words_upto. rewrite H2. lia.
Qed.

Lemma key_words_upto_succ i : Z.of_nat nk <= i ->
  key_words_upto (i + 1) = key_words_upto i ++ next_word nk (key_words_upto i) (Z.to_nat i).
Proof.
  intros Hi. unfold key_words_upto. replace (Z.to_nat (i + 1) - nk)%nat with (S (Z.to_nat i - nk)) by lia.
  rewrite expand_from_snoc. do 2 f_equal. lia.
Qed.

(** The words of an array, [f i] the [i]th one. *)
Definition holds_words (f : Z -> Z) (w : list Z) (i : Z) : Prop :=
  forall u, 0 <= u < i -> word 32 (f u) /\ wbytes (f u) = slice w (4 * u) 4.

Lemma holds_words_mono f i : Z.of_nat nk <= i -> holds_words f (key_words_upto i) i ->
  holds_words f (key_words_upto (i + 1)) i.
Proof.
  intros Hi H u Hu. destruct (H u Hu) as [Hw ->]. split; [done|]. rewrite key_words_upto_succ by done.
  destruct (key_words_upto_ok i Hi). symmetry. apply slice_app_l; lia.
Qed.

(** The word that is mixed into the word [i - nk]. *)
Lemma mixed_ok sub i tmp j k t :
  (forall x, word 32 x -> ok (sub x) (fun y => word 32 y /\ wbytes y = sub_wd (wbytes x))) ->
  0 <= i -> Z.of_nat nk <= i < 4 * Z.of_nat nk + 28 -> word 32 tmp -> wbytes tmp = t ->
  j = i mod Z.of_nat nk -> k = i / Z.of_nat nk - 1 ->
  ok (mixed_word sub (Z.of_nat nk) tmp j k)
    (fun y => word 32 y /\ wbytes y =
      if decide (Z.to_nat i mod nk = 0)%nat then xor_list (sub_wd (rot_word t)) [rcon (Z.to_nat i / nk); 0; 0; 0]
      else if decide (6 < nk /\ Z.to_nat i mod nk = 4)%nat then sub_wd t else t).
Proof.
  intros Hsub Hi0 Hi Ht <- -> ->.
  assert (Em : i mod Z.of_nat nk = Z.of_nat (Z.to_nat i mod nk)) by (rewrite Nat2Z.inj_mod, Z2Nat.id; lia).
  assert (Ed : i / Z.of_nat nk = Z.of_nat (Z.to_nat i / nk)) by (rewrite Nat2Z.inj_div, Z2Nat.id; lia).
  assert (Hd : 1 <= i / Z.of_nat nk <= 10) by (destruct Hnk as [->|[->| ->]]; zn).
  apply ok_cond; intros Ej; [apply Z.eqb_eq in Ej|apply Z.eqb_neq in Ej].
  - cbv zeta. destruct (rot_ok tmp Ht) as [Hr Er]. set (y := u32 (tmp << 24) .| (tmp >> 8)) in *.
    cstep. eapply ok_mono; [by apply Hsub|]. intros x [Hx Ex].
    cstep. apply ok_load; [simpl length; lia|]. cstep. rewrite Rcon_ok by lia.
    rewrite decide_True by lia. replace (Z.to_nat (i / Z.of_nat nk - 1 + 1)) with (Z.to_nat i / nk)%nat by lia.
    pose proof (rcon_word (Z.to_nat i / nk)) as Hc. split.
    + apply word_lxor; [lia|done|]. unfold word in *. lia.
    + by rewrite wbytes_lxor, Ex, Er, (wbytes_byte _ Hc).
  - rewrite decide_False by lia. apply ok_cond; intros E.
    + apply andb_true_iff in E as [E1 E2]. rewrite Z.ltb_lt in E1. rewrite Z.eqb_eq in E2.
      rewrite decide_True by lia. by apply Hsub.
    + apply andb_false_iff in E. rewrite Z.ltb_ge, Z.eqb_neq in E. rewrite decide_False by lia. by apply ok_ret.
Qed.


(** The new word. *)
Lemma new_word_ok sub i f j k : Z.of_nat nk <= i < 4 * Z.of_nat nk + 28 ->
  (forall x, word 32 x -> ok (sub x) (fun y => word 32 y /\ wbytes y = sub_wd (wbytes x))) ->
  holds_words f (key_words_upto i) i -> j = i mod Z.of_nat nk -> k = i / Z.of_nat nk - 1 ->
  ok (mixed_word sub (Z.of_nat nk) (f (i - 1)) j k) (fun y =>
    word 32 (y .^ f (i - Z.of_nat nk)) /\
    wbytes (y .^ f (i - Z.of_nat nk)) = slice (key_words_upto (i + 1)) (4 * i) 4).
Proof.
  intros Hi Hsub HF Hj Hk. destruct (key_words_upto_ok i) as [HB HZ]; [lia|].
  assert (Hnk0 : 4 <= Z.of_nat nk <= 8) by lia.
  destruct (HF (i - 1) ltac:(lia)) as [Htw Htb]. destruct (HF (i - Z.of_nat nk) ltac:(lia)) as [How Hob].
  eapply ok_mono; [eapply (mixed_ok sub i (f (i - 1)) j k); try done; lia|]. intros y [Hy Ey].
  split; [by apply word_lxor|].
  destruct (next_word_ok nk (key_words_upto i) (Z.to_nat i)) as [_ HN]; [done|lia|lia|].
  rewrite key_words_upto_succ by lia. rewrite <- HZ, slice_app_r by done.
  rewrite Z.lxor_comm, wbytes_lxor, Ey, ?Htb, Hob. unfold next_word. cbv zeta.
  replace (4 * Z.of_nat (Z.to_nat i - nk)) with (4 * (i - Z.of_nat nk)) by lia.
  by replace (4 * Z.of_nat (Z.to_nat i - 1)) with (4 * (i - 1)) by lia.
Qed.

(** The counters of the loop. *)
Definition next_turn (i j k : Z) : Prop := j = i mod Z.of_nat nk /\ k = i / Z.of_nat nk - 1.
Lemma next_turn_ok {A} i j k (x : A) (Q : A * Z * Z -> Prop) : 0 <= i -> next_turn i j k ->
  (forall j k, next_turn (i + 1) j k -> Q (x, j, k)) ->
  ok (If j + 1 =? Z.of_nat nk Then mret (x, 0, k + 1) Else mret (x, j + 1, k)) Q.
Proof.
  intros Hi [Hj Hk] HQ. assert (Hjr : 0 <= j < Z.of_nat nk) by (rewrite Hj; apply Z.mod_pos_bound; lia).
  apply ok_cond; intros E; [apply Z.eqb_eq in E|apply Z.eqb_neq in E]; apply ok_ret, HQ; subst k;
    (destruct Hnk as [E'|[E'|E']]; unfold next_turn; rewrite E' in *; zn).
Qed.
End Keysched.

(** The whole schedule, for a key of [len] bytes. *)
Lemma schedule_bounds len nk : aes_key_len len -> nk = Z.to_nat (len / 4) ->
  len = 4 * Z.of_nat nk /\ (nk = 4%nat \/ nk = 6%nat \/ nk = 8%nat) /\
  Z.of_nat nk <= 4 * (aes_rounds len + 1) <= 4 * Z.of_nat nk + 28.
Proof. intros Hlen ->. destruct Hlen as [->|[->| ->]]; (split; [reflexivity|]; split; [auto|]; split; vm_compute; discriminate). Qed.

Lemma key_words_all key nk : nk = Z.to_nat (zlen key / 4) ->
  key_words_upto key nk (4 * (aes_rounds (zlen key) + 1)) = aes_expanded key.
Proof.
  intros ->. unfold aes_expanded, key_expansion, key_words_upto. f_equal.
  pose proof (Z.div_pos (zlen key) 4 ltac:(lia) ltac:(lia)). unfold aes_rounds. lia.
Qed.
Lemma key_words_none key nk : key_words_upto key nk (Z.of_nat nk) = key.
Proof. unfold key_words_upto. by rewrite Nat2Z.id, Nat.sub_diag. Qed.

(** The turns of the expansion depend on the counters only. *)
Lemma key_rounds_ct len : ct eq (key_rounds len) (key_rounds len).
Proof. apply ct_refl. Qed.
Lemma mixed_word_ct sub nk t1 t2 j k : (forall x y, blind (sub x) (sub y)) ->
  blind (mixed_word sub nk t1 j k) (mixed_word sub nk t2 j k).
Proof.
  intros H. unfold mixed_word. apply ct_cond; [done|intros _|intros _].
  - cbv zeta. apply blind_bind; [apply H|intros]. blind_auto.
  - apply ct_cond; [done|intros _; apply H|intros _; apply blind_ret].
Qed.
