(* ===== verification/Modes.v ===== *)
(** The modes of operation CBC and CTR of SP 800-38A over a block cipher, and
    the interfaces [br_block_cbcenc_class], [br_block_cbcdec_class] and
    [br_block_ctr_class] ([inc/bearssl_block.h]) as classes: the operations of a
    vtable, and what an implementation promises. *)
From stdpp Require Import base tactics list numbers option.
From Stdlib Require Import ZArith Lia.
From S2P Require Import Prelude Limbs Codec Hash BitExpr Fips197 AesSbox AesSlice.
Local Open Scope Z_scope.
Local Open Scope cword_scope.

(** * The modes *)

Section Modes.
Context (B : Z).

(** [n] blocks of [msg]; [F] is the forward cipher, [G] the inverse one. *)
Fixpoint cbc_enc (F : list Z -> list Z) (n : nat) (iv msg : list Z) : list Z :=
  match n with
  | O => []
  | S n => let c := F (xor_list iv (slice msg 0 B)) in c ++ cbc_enc F n c (drop (Z.to_nat B) msg)
  end.
Fixpoint cbc_dec (G : list Z -> list Z) (n : nat) (iv msg : list Z) : list Z :=
  match n with
  | O => []
  | S n => let c := slice msg 0 B in xor_list iv (G c) ++ cbc_dec G n c (drop (Z.to_nat B) msg)
  end.
(** The last block of ciphertext, or the first vector: the vector for the
    blocks that follow. *)
Definition cbc_next (iv c : list Z) : list Z := slice (iv ++ c) (zlen c) B.

(** Counter mode with a 32-bit counter after the nonce [iv]. *)
Definition ctr_block (F : list Z -> list Z) (iv : list Z) (cc : Z) : list Z := F (iv ++ be_words 4 [u32 cc] 1).
Definition ctr_stream (F : list Z -> list Z) (iv : list Z) (cc i : Z) : Z :=
  get (ctr_block F iv (cc + i / B)) (i mod B).
Definition ctr (F : list Z -> list Z) (iv : list Z) (cc : Z) (msg : list Z) : list Z :=
  map (fun i => get msg (Z.of_nat i) .^ ctr_stream F iv cc (Z.of_nat i)) (seq 0 (length msg)).
(** The counter after a message of [len] bytes. *)
Definition ctr_end (cc len : Z) : Z := u32 (cc + (len + B - 1) / B).

Definition block (s : list Z) : Prop := zlen s = B /\ byte_string s.

Lemma xor_list_cancel a b : zlen a = zlen b -> xor_list a (xor_list a b) = b.
Proof.
  intros HL. apply list_eq_get; rewrite xor_list_len; rewrite ?xor_list_len; try lia.
  intros i Hi. rewrite !get_xor_list by (rewrite ?xor_list_len; lia).
  by rewrite <- Z.lxor_assoc, Z.lxor_nilpotent, Z.lxor_0_l.
Qed.

Context (HB : 0 < B) (F G : list Z -> list Z).
Context (HF : forall x, block x -> block (F x)) (HG : forall x, block x -> G (F x) = x).

Lemma slice_block msg n : byte_string msg -> zlen msg = B * Z.of_nat (S n) ->
  block (slice msg 0 B) /\ zlen (drop (Z.to_nat B) msg) = B * Z.of_nat n /\ byte_string (drop (Z.to_nat B) msg).
Proof.
  intros Hm HL. assert (B <= zlen msg) by nia. split; [split|split].
  - apply zlen_slice; lia.
  - by apply slice_bytes.
  - rewrite zlen_drop by lia. lia.
  - by apply Forall_drop.
Qed.

Lemma xor_block iv x : block iv -> block x -> block (xor_list iv x).
Proof. intros [L1 B1] [L2 B2]. split; [rewrite xor_list_len; lia|by apply xor_list_bytes]. Qed.

Lemma cbc_enc_ok n : forall iv msg, block iv -> byte_string msg -> zlen msg = B * Z.of_nat n ->
  byte_string (cbc_enc F n iv msg) /\ zlen (cbc_enc F n iv msg) = zlen msg.
Proof.
  induction n as [|n IH]; intros iv msg Hiv Hm HL; [split; [constructor|simpl in *; lia]|].
  destruct (slice_block msg n Hm HL) as (H1 & H2 & H3). cbn [cbc_enc].
  destruct (HF _ (xor_block iv _ Hiv H1)) as [HL1 HB1]. set (c := F _) in *.
  destruct (IH c _ (conj HL1 HB1) H3 H2) as [IH1 IH2]. split; [by apply byte_string_app|].
  rewrite zlen_app, IH2. lia.
Qed.

(** Decryption undoes encryption. *)
Lemma cbc_dec_enc n : forall iv msg, block iv -> byte_string msg -> zlen msg = B * Z.of_nat n ->
  cbc_dec G n iv (cbc_enc F n iv msg) = msg.
Proof.
  induction n as [|n IH]; intros iv msg Hiv Hm HL.
  { destruct msg; [done|]. simpl in HL. lia. }
  destruct (slice_block msg n Hm HL) as (H1 & H2 & H3). cbn [cbc_enc cbc_dec].
  pose proof (xor_block iv _ Hiv H1) as Hx. pose proof (HF _ Hx) as Hc. set (c := F (xor_list iv (slice msg 0 B))) in *.
  assert (E1 : slice (c ++ cbc_enc F n c (drop (Z.to_nat B) msg)) 0 B = c).
  { unfold slice. rewrite drop_0. apply take_app_length'. destruct Hc. lia. }
  assert (E2 : drop (Z.to_nat B) (c ++ cbc_enc F n c (drop (Z.to_nat B) msg)) = cbc_enc F n c (drop (Z.to_nat B) msg)).
  { apply drop_app_length'. destruct Hc. lia. }
  rewrite E1, E2, IH by done. unfold c at 1. rewrite HG by done.
  rewrite xor_list_cancel by (destruct Hiv, H1; lia). unfold slice. rewrite drop_0. apply take_drop.
Qed.

Lemma zlen_ctr iv cc msg : zlen (ctr F iv cc msg) = zlen msg.
Proof. unfold ctr. by rewrite length_map, length_seq. Qed.
Lemma get_ctr iv cc msg i : 0 <= i < zlen msg -> get (ctr F iv cc msg) i = get msg i .^ ctr_stream F iv cc i.
Proof. intros. unfold ctr. rewrite get_map_seq by lia. by rewrite Z2Nat.id by lia. Qed.
Lemma ctr_involutive iv cc msg : ctr F iv cc (ctr F iv cc msg) = msg.
Proof.
  apply list_eq_get; rewrite !zlen_ctr; [done|]. intros i Hi. rewrite !get_ctr by (rewrite ?zlen_ctr; lia).
  by rewrite Z.lxor_assoc, Z.lxor_nilpotent, Z.lxor_0_r.
Qed.
End Modes.

(** ** One block at a time in a buffer *)

Lemma slice_of_slice (a : list Z) o n k : 0 <= o -> 0 <= k <= n -> o + n <= zlen a -> slice (slice a o n) 0 k = slice a o k.
Proof.
  intros. apply list_eq_get; rewrite !zlen_slice; rewrite ?zlen_slice; try lia. intros i Hi.
  rewrite !get_slice by lia. f_equal.
Qed.
Lemma drop_slice (a : list Z) o n k : 0 <= o -> 0 <= k <= n -> o + n <= zlen a ->
  drop (Z.to_nat k) (slice a o n) = slice a (o + k) (n - k).
Proof.
  intros. apply list_eq_get; rewrite zlen_drop; rewrite ?zlen_slice; try lia.
  intros i Hi. rewrite get_drop, !get_slice by lia. f_equal. lia.
Qed.

Lemma cbc_enc_step B F n iv data buf : 0 < B -> 0 <= buf -> buf + B * Z.of_nat (S n) <= zlen data ->
  cbc_enc B F (S n) iv (slice data buf (B * Z.of_nat (S n))) =
  F (xor_list iv (slice data buf B)) ++
    cbc_enc B F n (F (xor_list iv (slice data buf B))) (slice data (buf + B) (B * Z.of_nat n)).
Proof.
  intros HB Hb Hl. cbn [cbc_enc]. rewrite slice_of_slice, drop_slice by nia. do 2 f_equal. f_equal. lia.
Qed.
Lemma cbc_dec_step B G n iv data buf : 0 < B -> 0 <= buf -> buf + B * Z.of_nat (S n) <= zlen data ->
  cbc_dec B G (S n) iv (slice data buf (B * Z.of_nat (S n))) =
  xor_list iv (G (slice data buf B)) ++ cbc_dec B G n (slice data buf B) (slice data (buf + B) (B * Z.of_nat n)).
Proof.
  intros HB Hb Hl. cbn [cbc_dec]. rewrite slice_of_slice, drop_slice by nia. do 2 f_equal. f_equal. lia.
Qed.

Lemma cbc_next_nil B iv : zlen iv = B -> cbc_next B iv [] = iv.
Proof. intros. unfold cbc_next. rewrite app_nil_r. by apply slice_all. Qed.
Lemma cbc_next_app B iv c d : zlen iv = B -> zlen c = B -> cbc_next B iv (c ++ d) = cbc_next B c d.
Proof.
  intros Hi Hc. unfold cbc_next. rewrite zlen_app, Hc. pose proof (Nat2Z.is_nonneg (length d)).
  apply list_eq_get; rewrite !zlen_slice; rewrite ?zlen_app; try lia. intros i HI.
  rewrite !get_slice by lia. rewrite get_app_r by lia. f_equal. lia.
Qed.
Lemma cbc_next_one B iv c : zlen iv = B -> zlen c = B -> cbc_next B iv c = c.
Proof. intros Hi Hc. rewrite <- (app_nil_r c) at 1. rewrite cbc_next_app by done. by apply cbc_next_nil. Qed.

(** Decryption block by block: the block before the block [k], the vector for
    the first. *)
Definition cbc_prev (B : Z) (iv data : list Z) (buf k : Z) : list Z :=
  if decide (k = 0) then iv else slice data (buf + B * (k - 1)) B.

Lemma cbc_dec_blocks B G n : forall iv data out buf, 0 < B -> 0 <= buf -> buf + B * Z.of_nat n <= zlen data -> zlen out = zlen data ->
  (forall k, 0 <= k < Z.of_nat n -> slice out (buf + B * k) B = xor_list (cbc_prev B iv data buf k) (G (slice data (buf + B * k) B))) ->
  slice out buf (B * Z.of_nat n) = cbc_dec B G n iv (slice data buf (B * Z.of_nat n)).
Proof.
  induction n as [|n IH]; intros iv data out buf HB Hb Hl HL H.
  { change (Z.of_nat 0) with 0. by rewrite Z.mul_0_r, !slice_nil. }
  rewrite cbc_dec_step by (done || lia). pose proof (H 0 ltac:(lia)) as H0. unfold cbc_prev in H0.
  rewrite decide_True, !Z.mul_0_r, !Z.add_0_r in H0 by done. rewrite <- H0.
  assert (HI : slice out (buf + B) (B * Z.of_nat n) = cbc_dec B G n (slice data buf B) (slice data (buf + B) (B * Z.of_nat n))).
  { apply IH; try lia. intros k Hk. replace (buf + B + B * k) with (buf + B * (k + 1)) by lia. rewrite H by lia.
    unfold cbc_prev. rewrite (decide_False (P:=k + 1 = 0)) by lia. f_equal. case_decide as E; [subst k|]; f_equal; lia. }
  rewrite <- HI.
  replace (B * Z.of_nat (S n)) with (B + B * Z.of_nat n) by lia. apply slice_split; lia.
Qed.

Lemma cbc_next_blocks B iv data buf n : 0 < B -> zlen iv = B -> 0 <= buf -> buf + B * Z.of_nat n <= zlen data ->
  cbc_next B iv (slice data buf (B * Z.of_nat n)) = cbc_prev B iv data buf (Z.of_nat n).
Proof.
  intros HB Hiv Hb Hl. unfold cbc_prev. destruct n as [|n].
  { change (Z.of_nat 0) with 0. by rewrite Z.mul_0_r, slice_nil, cbc_next_nil. }
  rewrite decide_False by lia. unfold cbc_next. assert (HZ : zlen (slice data buf (B * Z.of_nat (S n))) = B * Z.of_nat (S n)) by (apply zlen_slice; lia).
  apply list_eq_get; rewrite !zlen_slice; rewrite ?zlen_app; try lia. intros i Hi. rewrite !get_slice by lia.
  rewrite get_app_r by lia. rewrite get_slice by lia. f_equal. lia.
Qed.

(** ** Counter mode, some blocks at a time *)

(** Two functions that agree on the first bytes and, further on, with the
    counter moved: the step of a loop over [m] blocks. *)
Lemma ctr_stream_next B F iv cc m i : 0 < B -> 0 <= m -> B * m <= i ->
  ctr_stream B F iv (u32 (cc + m)) (i - B * m) = ctr_stream B F iv cc i.
Proof.
  intros HB Hm Hi. unfold ctr_stream, ctr_block.
  assert (E : (i - B * m) / B = i / B - m).
  { replace (i - B * m) with (i + (- m) * B) by lia. rewrite Z.div_add by lia. lia. }
  assert (E' : (i - B * m) mod B = i mod B).
  { replace (i - B * m) with (i + (- m) * B) by lia. apply Z.mod_add. lia. }
  assert (E'' : u32 (u32 (cc + m) + (i / B - m)) = u32 (cc + i / B)).
  { unfold u32. rewrite Z.add_mod_idemp_l by lia. f_equal. lia. }
  by rewrite E, E', E''.
Qed.

(** * Padding with zeros *)

(** The blocks of 16 bytes of a string, the last one completed with zeros. *)
Definition pad_block (m : list Z) : list Z := m ++ replicate (16 - length m) 0.
Fixpoint padded_blocks (n : nat) (s : list Z) : list (list Z) :=
  match n with
  | O => []
  | S n =>
      if decide (zlen s = 0) then []
      else pad_block (take 16 s) :: padded_blocks n (drop 16 s)
  end.

Lemma block_pad m : byte_string m -> zlen m <= 16 -> block 16 (pad_block m).
Proof.
  intros HB HL. unfold pad_block. split; [rewrite zlen_app, length_replicate; lia|].
  apply byte_string_app. split; [done|by apply Forall_replicate].
Qed.

Lemma padded_blocks_ok n : forall seed, byte_string seed -> Forall (block 16) (padded_blocks n seed).
Proof.
  induction n as [|n IH]; intros seed HB; cbn [padded_blocks]; [constructor|]. case_decide; [constructor|].
  constructor; [|apply IH, Forall_drop, HB]. apply block_pad; [by apply Forall_take|]. rewrite length_take. lia.
Qed.

(** Any number of turns above the length gives the same blocks. *)
Lemma padded_blocks_more n m s : zlen s <= Z.of_nat n -> zlen s <= Z.of_nat m -> padded_blocks n s = padded_blocks m s.
Proof.
  revert m s. induction n as [|n IH]; intros m s Hn Hm.
  - destruct m; cbn [padded_blocks]; [done|]. by rewrite decide_True by lia.
  - destruct m as [|m]; cbn [padded_blocks]; [by rewrite decide_True by lia|]. case_decide; [done|]. f_equal.
    apply IH; rewrite length_drop; lia.
Qed.

Lemma padded_blocks_step n s : 0 < zlen s <= Z.of_nat n -> padded_blocks n s = pad_block (take 16 s) :: padded_blocks n (drop 16 s).
Proof.
  intros Hn. destruct n as [|n]; [lia|]. cbn [padded_blocks]. rewrite decide_False by lia. f_equal.
  apply (padded_blocks_more n (S n)); rewrite length_drop; lia.
Qed.

Lemma padded_blocks_app k : forall n s t, zlen s = 16 * Z.of_nat k -> zlen s + zlen t <= Z.of_nat n ->
  padded_blocks n (s ++ t) = padded_blocks n s ++ padded_blocks n t.
Proof.
  induction k as [|k IH]; intros n s t Hs Hn.
  - destruct s; [|simpl in Hs; lia]. cbn [app]. by destruct n.
  - rewrite (padded_blocks_step n (s ++ t)), (padded_blocks_step n s) by (rewrite ?zlen_app; lia).
    rewrite take_app_le, drop_app_le by lia. cbn [app]. f_equal. apply IH; rewrite length_drop; lia.
Qed.

(** * The interfaces *)

(** [init ctx key pos len] reads the key at [pos]; [run] has the vector and the
    data, at [pos]. *)
Class CbcClass := {
  cbc_ctx : Type;
  cbc_block_size : Z;
  cbc_init : cbc_ctx -> list Z -> Z -> Z -> M cbc_ctx;
  cbc_run : cbc_ctx -> list Z -> list Z -> Z -> Z -> M (list Z * list Z) }.
Class CtrClass := {
  ctr_ctx : Type;
  ctr_block_size : Z;
  ctr_init : ctr_ctx -> list Z -> Z -> Z -> M ctr_ctx;
  ctr_run : ctr_ctx -> list Z -> Z -> list Z -> Z -> Z -> M (list Z * Z) }.

(** What an implementation of CBC promises: [cbc_cipher key] are the blocks
    that the mode [cbc_mode] ([cbc_enc] or [cbc_dec]) works on. *)
Inductive direction := Encrypt | Decrypt.
Definition cbc_mode (d : direction) (B : Z) (F : list Z -> list Z) (n : nat) (iv msg : list Z) : list Z :=
  match d with Encrypt => cbc_enc B F n iv msg | Decrypt => cbc_dec B F n iv msg end.
(** The text whose last block is the next vector. *)
Definition cbc_text (d : direction) (msg out : list Z) : list Z :=
  match d with Encrypt => out | Decrypt => msg end.

Class CbcSpec (d : direction) (C : CbcClass) := {
  cbc_alloc : cbc_ctx -> Prop;
  cbc_key : Z -> Prop;
  cbc_cipher : list Z -> list Z -> list Z;
  cbc_rep : cbc_ctx -> list Z -> Prop;
  cbc_block_pos : 0 < cbc_block_size;
  cbc_init_ok c key pos len : cbc_alloc c -> cbc_key len -> 0 <= pos -> pos + len <= zlen key -> bytes key pos len ->
    ok (cbc_init c key pos len) (fun c => cbc_rep c (slice key pos len));
  cbc_run_ok c key iv data pos n : cbc_rep c key -> block cbc_block_size iv ->
    0 <= pos -> pos + cbc_block_size * Z.of_nat n <= zlen data -> bytes data pos (cbc_block_size * Z.of_nat n) ->
    word 64 (zlen data) ->
    let len := cbc_block_size * Z.of_nat n in
    ok (cbc_run c iv data pos len) (fun '(iv', data') => frame pos (pos + len) data data' /\
      slice data' pos len = cbc_mode d cbc_block_size (cbc_cipher key) n iv (slice data pos len) /\
      iv' = cbc_next cbc_block_size iv (cbc_text d (slice data pos len) (slice data' pos len))) }.

Class CtrSpec (C : CtrClass) := {
  ctr_alloc : ctr_ctx -> Prop;
  ctr_key : Z -> Prop;
  ctr_cipher : list Z -> list Z -> list Z;
  ctr_rep : ctr_ctx -> list Z -> Prop;
  (** The counter that [run] returns; it is the one of the block that follows
      when the data are whole blocks. *)
  ctr_next : Z -> Z -> Z;
  ctr_next_whole cc n : 0 <= n -> ctr_next cc (ctr_block_size * n) = u32 (cc + n);
  ctr_block_pos : 4 < ctr_block_size;
  ctr_rep_alloc c key : ctr_rep c key -> ctr_alloc c;
  ctr_init_ok c key pos len : ctr_alloc c -> ctr_key len -> 0 <= pos -> pos + len <= zlen key -> bytes key pos len ->
    ok (ctr_init c key pos len) (fun c => ctr_rep c (slice key pos len));
  ctr_run_ok c key iv cc data pos len : ctr_rep c key -> zlen iv = ctr_block_size - 4 -> byte_string iv -> word 32 cc ->
    0 <= pos -> 0 <= len -> pos + len <= zlen data -> bytes data pos len -> len < 2 ^ 64 ->
    ok (ctr_run c iv cc data pos len) (fun '(data', cc') => frame pos (pos + len) data data' /\
      slice data' pos len = ctr ctr_block_size (ctr_cipher key) iv cc (slice data pos len) /\
      cc' = ctr_next cc len) }.

(** The implementations that count a last partial block as well. *)
Class CtrCounts (C : CtrClass) {CS : CtrSpec C} : Prop :=
  ctr_counts cc len : 0 <= len -> ctr_next cc len = ctr_end ctr_block_size cc len.

(** The implementations whose block cipher is AES. *)
Class AesMode (C : CtrClass) (CS : CtrSpec C) : Prop := {
  am_block : ctr_block_size = 16;
  am_keys len : aes_key_len len -> ctr_key len;
  am_cipher key : ctr_cipher key = aes key }.

(** The key setup and the runs on contexts that are alike, as those of keys of
    the same length are, have the same leakage. *)
Class CtrCt (C : CtrClass) (CS : CtrSpec C) := {
  ctr_alike : ctr_ctx -> ctr_ctx -> Prop;
  ctr_rep_alike c1 c2 k1 k2 : ctr_rep c1 k1 -> ctr_rep c2 k2 -> zlen k1 = zlen k2 -> ctr_alike c1 c2;
  ctr_init_ct c1 c2 k1 k2 pos len : ct ctr_alike (ctr_init c1 k1 pos len) (ctr_init c2 k2 pos len);
  ctr_run_ct c1 c2 iv1 iv2 cc1 cc2 data1 data2 pos len : ctr_alike c1 c2 ->
    blind (ctr_run c1 iv1 cc1 data1 pos len) (ctr_run c2 iv2 cc2 data2 pos len) }.

(** * Implementations are interchangeable *)

(** A buffer after the key setup and a run. *)
Definition cbc_once (C : CbcClass) (c : @cbc_ctx C) (key iv data : list Z) (pos n : Z) : M (list Z * list Z) :=
  c ← cbc_init c key 0 (zlen key);
  cbc_run c iv data pos n.
Definition ctr_once (C : CtrClass) (c : @ctr_ctx C) (key iv : list Z) (cc : Z) (data : list Z) (pos len : Z) : M (list Z * Z) :=
  c ← ctr_init c key 0 (zlen key);
  ctr_run c iv cc data pos len.

Lemma whole_key key : byte_string key -> bytes key 0 (zlen key) /\ slice key 0 (zlen key) = key.
Proof. intros H. split; [by apply bytes_get|by apply slice_all]. Qed.

Section Once.
Context (key data : list Z) (pos : Z) (Hkey : byte_string key) (Hpos : 0 <= pos) (Hdata : word 64 (zlen data)).

Lemma cbc_once_ok d C (S : CbcSpec d C) (c : @cbc_ctx C) iv n : cbc_alloc c -> cbc_key (zlen key) -> block cbc_block_size iv ->
  pos + cbc_block_size * Z.of_nat n <= zlen data -> bytes data pos (cbc_block_size * Z.of_nat n) ->
  let len := cbc_block_size * Z.of_nat n in
  ok (cbc_once C c key iv data pos len) (fun '(iv', data') => frame pos (pos + len) data data' /\
    slice data' pos len = cbc_mode d cbc_block_size (cbc_cipher key) n iv (slice data pos len) /\
    iv' = cbc_next cbc_block_size iv (cbc_text d (slice data pos len) (slice data' pos len))).
Proof.
  intros Hc Hk Hiv Hl HB len. destruct (whole_key key Hkey) as [Hkb Hks]. unfold cbc_once. cstep.
  eapply ok_mono; [apply (cbc_init_ok c key 0); done || lia|]. intros c' HR. rewrite Hks in HR. by apply cbc_run_ok.
Qed.

Lemma ctr_once_ok C (S : CtrSpec C) (c : @ctr_ctx C) iv cc len : ctr_alloc c -> ctr_key (zlen key) ->
  zlen iv = ctr_block_size - 4 -> byte_string iv -> word 32 cc -> 0 <= len -> pos + len <= zlen data -> bytes data pos len ->
  ok (ctr_once C c key iv cc data pos len) (fun '(data', cc') => frame pos (pos + len) data data' /\
    slice data' pos len = ctr ctr_block_size (ctr_cipher key) iv cc (slice data pos len) /\ cc' = ctr_next cc len).
Proof.
  intros Hc Hk Hiv Bi Hcc Hn Hl HB. destruct (whole_key key Hkey) as [Hkb Hks]. unfold ctr_once. cstep.
  eapply ok_mono; [apply (ctr_init_ok c key 0); done || lia|]. intros c' HR. rewrite Hks in HR. apply ctr_run_ok; done || (unfold word in *; lia).
Qed.

(** Two implementations of the mode of the same cipher. *)
Lemma cbc_same d C1 (S1 : CbcSpec d C1) C2 (S2 : CbcSpec d C2) (c1 : @cbc_ctx C1) (c2 : @cbc_ctx C2) iv n B :
  @cbc_block_size C1 = B -> @cbc_block_size C2 = B -> @cbc_cipher d C1 S1 key = @cbc_cipher d C2 S2 key ->
  cbc_alloc c1 -> cbc_alloc c2 -> @cbc_key d C1 S1 (zlen key) -> @cbc_key d C2 S2 (zlen key) -> block B iv ->
  pos + B * Z.of_nat n <= zlen data -> bytes data pos (B * Z.of_nat n) ->
  ok (cbc_once C1 c1 key iv data pos (B * Z.of_nat n))
    (fun x => ok (cbc_once C2 c2 key iv data pos (B * Z.of_nat n)) (fun y => x = y)).
Proof.
  intros E1 E2 EC A1 A2 K1 K2 Hiv Hl HB. pose proof (@cbc_block_pos d C1 S1) as HBp.
  eapply ok_mono; [rewrite <- E1; apply (cbc_once_ok d C1 S1 c1 iv n); rewrite ?E1; done|]. rewrite E1.
  intros [v1 d1] (F1 & H1 & ->).
  eapply ok_mono; [rewrite <- E2; apply (cbc_once_ok d C2 S2 c2 iv n); rewrite ?E2; done|]. rewrite E2.
  intros [v2 d2] (F2 & H2 & ->).
  assert (d1 = d2) as -> by (apply (frame_slice_eq pos (B * Z.of_nat n) data); try done; [nia|by rewrite H1, H2, EC]). done.
Qed.

Lemma ctr_same C1 (S1 : CtrSpec C1) C2 (S2 : CtrSpec C2) (c1 : @ctr_ctx C1) (c2 : @ctr_ctx C2) iv cc len B :
  @ctr_block_size C1 = B -> @ctr_block_size C2 = B -> @ctr_cipher C1 S1 key = @ctr_cipher C2 S2 key ->
  ctr_alloc c1 -> ctr_alloc c2 -> @ctr_key C1 S1 (zlen key) -> @ctr_key C2 S2 (zlen key) -> zlen iv = B - 4 -> byte_string iv ->
  word 32 cc -> 0 <= len -> pos + len <= zlen data -> bytes data pos len ->
  ok (ctr_once C1 c1 key iv cc data pos len) (fun x => ok (ctr_once C2 c2 key iv cc data pos len)
    (fun y => x.1 = y.1 /\ x.2 = @ctr_next C1 S1 cc len /\ y.2 = @ctr_next C2 S2 cc len)).
Proof.
  intros E1 E2 EC A1 A2 K1 K2 Hiv Bi Hc Hn Hl HB.
  eapply ok_mono; [apply (ctr_once_ok C1 S1 c1 iv cc len); rewrite ?E1; done|]. rewrite E1. intros [d1 v1] (F1 & H1 & ->).
  eapply ok_mono; [apply (ctr_once_ok C2 S2 c2 iv cc len); rewrite ?E2; done|]. rewrite E2. intros [d2 v2] (F2 & H2 & ->).
  split; [|done]. apply (frame_slice_eq pos len data); try done. cbn [fst]. by rewrite H1, H2, EC.
Qed.
End Once.

(** * Runs that leak the same exist *)

Section Traces.
Context (key1 key2 data1 data2 : list Z) (pos : Z) (Hk1 : byte_string key1) (Hk2 : byte_string key2) (Hpos : 0 <= pos)
  (Hd1 : word 64 (zlen data1)) (Hd2 : word 64 (zlen data2)).

Lemma cbc_once_trace d C1 (S1 : CbcSpec d C1) C2 (S2 : CbcSpec d C2) (c1 : @cbc_ctx C1) (c2 : @cbc_ctx C2) iv1 iv2 n B :
  @cbc_block_size C1 = B -> @cbc_block_size C2 = B -> cbc_alloc c1 -> cbc_alloc c2 ->
  @cbc_key d C1 S1 (zlen key1) -> @cbc_key d C2 S2 (zlen key2) -> block B iv1 -> block B iv2 ->
  pos + B * Z.of_nat n <= zlen data1 -> pos + B * Z.of_nat n <= zlen data2 ->
  bytes data1 pos (B * Z.of_nat n) -> bytes data2 pos (B * Z.of_nat n) ->
  blind (cbc_once C1 c1 key1 iv1 data1 pos (B * Z.of_nat n)) (cbc_once C2 c2 key2 iv2 data2 pos (B * Z.of_nat n)) ->
  exists t, trace (cbc_once C1 c1 key1 iv1 data1 pos (B * Z.of_nat n)) = Some t /\
    trace (cbc_once C2 c2 key2 iv2 data2 pos (B * Z.of_nat n)) = Some t.
Proof.
  intros E1 E2 A1 A2 K1 K2 V1 V2 L1 L2 B1 B2 HC. eapply ct_trace; [exact HC| |].
  - rewrite <- E1. apply (cbc_once_ok key1 data1 pos Hk1 Hpos Hd1 d C1 S1 c1 iv1 n); rewrite ?E1; done.
  - rewrite <- E2. apply (cbc_once_ok key2 data2 pos Hk2 Hpos Hd2 d C2 S2 c2 iv2 n); rewrite ?E2; done.
Qed.

Lemma ctr_once_trace C (S : CtrSpec C) (CT : CtrCt C S) (c1 c2 : @ctr_ctx C) iv1 iv2 cc1 cc2 len :
  ctr_alloc c1 -> ctr_alloc c2 -> ctr_key (zlen key1) -> zlen key1 = zlen key2 ->
  zlen iv1 = ctr_block_size - 4 -> zlen iv2 = ctr_block_size - 4 -> byte_string iv1 -> byte_string iv2 ->
  word 32 cc1 -> word 32 cc2 -> 0 <= len -> pos + len <= zlen data1 -> pos + len <= zlen data2 ->
  bytes data1 pos len -> bytes data2 pos len ->
  exists t, trace (ctr_once C c1 key1 iv1 cc1 data1 pos len) = Some t /\
    trace (ctr_once C c2 key2 iv2 cc2 data2 pos len) = Some t.
Proof.
  intros A1 A2 HK E V1 V2 I1 I2 W1 W2 Hn L1 L2 B1 B2. assert (HK2 : ctr_key (zlen key2)) by (by rewrite <- E).
  eapply (ct_trace (fun _ _ => True));
    [|by apply (ctr_once_ok key1 data1 pos Hk1 Hpos Hd1 C S c1)|by apply (ctr_once_ok key2 data2 pos Hk2 Hpos Hd2 C S c2)].
  unfold ctr_once. rewrite E. eapply ct_bind; [apply ctr_init_ct|]. intros x y HA. by apply ctr_run_ct.
Qed.
End Traces.
