(* ===== verification/Ghash.v ===== *)
(** GHASH ([src/hash/ghash_ctmul.c], [ghash_ctmul32.c], [ghash_ctmul64.c]): the
    code of the three portable implementations, and the function they promise.
    [Clmul] has the arithmetic. *)
From stdpp Require Import base tactics list numbers option.
From Stdlib Require Import ZArith Lia.
From S2P Require Import Prelude CtPrims Limbs Codec Hash BitExpr Fips197 Modes Clmul.
Local Open Scope Z_scope.
Local Open Scope cword_scope.

(** [br_ghash] of [inc/bearssl_hash.h]: the function has the value [y], the key
    [h] and the data, at [pos]; it returns the new value. *)
Definition br_ghash : Type := list Z -> list Z -> list Z -> Z -> Z -> M (list Z).

(** * Code *)

(** The next block, completed with zeros: [(src, its place, buf, len)]. *)
Definition ghash_src (data : list Z) (buf len : Z) : M (list Z * Z * Z * Z) :=
  If 16 <=? len Then mret (data, buf, buf + 16, len - 16)
  Else
    tmp ← memcpy (replicate 16 0) 0 data buf len;
    tmp ← memset tmp len 0 (16 - len);
    mret (tmp, 0, buf, 0).

(** [RMS] of [rev32] and [rev64], for words of [w] bits. *)
Definition RMS (u : Z -> Z) (x m s : Z) : Z := u ((x .& m) << s) .| ((x >> s) .& m).

(** ** 64-bit words *)

Definition bmul64 (x y : Z) : Z :=
  let x0 := x .& 0x1111111111111111 in
  let x1 := x .& 0x2222222222222222 in
  let x2 := x .& 0x4444444444444444 in
  let x3 := x .& 0x8888888888888888 in
  let y0 := y .& 0x1111111111111111 in
  let y1 := y .& 0x2222222222222222 in
  let y2 := y .& 0x4444444444444444 in
  let y3 := y .& 0x8888888888888888 in
  let z0 := u64 (x0 * y0) .^ u64 (x1 * y3) .^ u64 (x2 * y2) .^ u64 (x3 * y1) in
  let z1 := u64 (x0 * y1) .^ u64 (x1 * y0) .^ u64 (x2 * y3) .^ u64 (x3 * y2) in
  let z2 := u64 (x0 * y2) .^ u64 (x1 * y1) .^ u64 (x2 * y0) .^ u64 (x3 * y3) in
  let z3 := u64 (x0 * y3) .^ u64 (x1 * y2) .^ u64 (x2 * y1) .^ u64 (x3 * y0) in
  let z0 := z0 .& 0x1111111111111111 in
  let z1 := z1 .& 0x2222222222222222 in
  let z2 := z2 .& 0x4444444444444444 in
  let z3 := z3 .& 0x8888888888888888 in
  z0 .| z1 .| z2 .| z3.

Definition rev64 (x : Z) : Z :=
  let x := RMS u64 x 0x5555555555555555 1 in
  let x := RMS u64 x 0x3333333333333333 2 in
  let x := RMS u64 x 0x0F0F0F0F0F0F0F0F 4 in
  let x := RMS u64 x 0x00FF00FF00FF00FF 8 in
  let x := RMS u64 x 0x0000FFFF0000FFFF 16 in
  u64 (x << 32) .| (x >> 32).

(** The product of [y] and [h], before the reduction. *)
Definition ctmul64_product (h0 h1 h0r h1r h2 h2r y0 y1 : Z) : Z * Z * Z * Z :=
  let y0r := rev64 y0 in
  let y1r := rev64 y1 in
  let y2 := y0 .^ y1 in
  let y2r := y0r .^ y1r in
  let z0 := bmul64 y0 h0 in
  let z1 := bmul64 y1 h1 in
  let z2 := bmul64 y2 h2 in
  let z0h := bmul64 y0r h0r in
  let z1h := bmul64 y1r h1r in
  let z2h := bmul64 y2r h2r in
  let z2 := z2 .^ (z0 .^ z1) in
  let z2h := z2h .^ (z0h .^ z1h) in
  let z0h := rev64 z0h >> 1 in
  let z1h := rev64 z1h >> 1 in
  let z2h := rev64 z2h >> 1 in
  (z0, z0h .^ z2, z1 .^ z2h, z1h).

Definition ctmul64_reduce (v0 v1 v2 v3 : Z) : Z * Z :=
  let v3 := u64 (v3 << 1) .| (v2 >> 63) in
  let v2 := u64 (v2 << 1) .| (v1 >> 63) in
  let v1 := u64 (v1 << 1) .| (v0 >> 63) in
  let v0 := u64 (v0 << 1) in
  let v2 := v2 .^ (v0 .^ (v0 >> 1) .^ (v0 >> 2) .^ (v0 >> 7)) in
  let v1 := v1 .^ (u64 (v0 << 63) .^ u64 (v0 << 62) .^ u64 (v0 << 57)) in
  let v3 := v3 .^ (v1 .^ (v1 >> 1) .^ (v1 >> 2) .^ (v1 >> 7)) in
  let v2 := v2 .^ (u64 (v1 << 63) .^ u64 (v1 << 62) .^ u64 (v1 << 57)) in
  (v2, v3).

Fixpoint ctmul64_loop (fuel : nat) (h0 h1 h0r h1r h2 h2r y0 y1 : Z) (data : list Z) (buf len : Z) : M (Z * Z) :=
  match fuel with
  | O => None
  | S fuel =>
      If 0 <? len Then
        '(src, p, buf, len) ← ghash_src data buf len;
        x ← br_dec64be src p;
        let y1 := y1 .^ x in
        x ← br_dec64be src (p + 8);
        let y0 := y0 .^ x in
        let '(v0, v1, v2, v3) := ctmul64_product h0 h1 h0r h1r h2 h2r y0 y1 in
        let '(y0, y1) := ctmul64_reduce v0 v1 v2 v3 in
        ctmul64_loop fuel h0 h1 h0r h1r h2 h2r y0 y1 data buf len
      Else mret (y0, y1)
  end.

Definition br_ghash_ctmul64 : br_ghash := fun y h data pos len =>
  y1 ← br_dec64be y 0;
  y0 ← br_dec64be y 8;
  h1 ← br_dec64be h 0;
  h0 ← br_dec64be h 8;
  let h0r := rev64 h0 in
  let h1r := rev64 h1 in
  let h2 := h0 .^ h1 in
  let h2r := h0r .^ h1r in
  '(y0, y1) ← ctmul64_loop (S (Z.to_nat len)) h0 h1 h0r h1r h2 h2r y0 y1 data pos len;
  y ← br_enc64be y 0 y1;
  br_enc64be y 8 y0.

(** ** 32-bit words *)

(** The product of two words: its high and low halves. *)
Definition bmul (x y : Z) : Z * Z :=
  let x0 := x .& 0x11111111 in
  let x1 := x .& 0x22222222 in
  let x2 := x .& 0x44444444 in
  let x3 := x .& 0x88888888 in
  let y0 := y .& 0x11111111 in
  let y1 := y .& 0x22222222 in
  let y2 := y .& 0x44444444 in
  let y3 := y .& 0x88888888 in
  let z0 := MUL x0 y0 .^ MUL x1 y3 .^ MUL x2 y2 .^ MUL x3 y1 in
  let z1 := MUL x0 y1 .^ MUL x1 y0 .^ MUL x2 y3 .^ MUL x3 y2 in
  let z2 := MUL x0 y2 .^ MUL x1 y1 .^ MUL x2 y0 .^ MUL x3 y3 in
  let z3 := MUL x0 y3 .^ MUL x1 y2 .^ MUL x2 y1 .^ MUL x3 y0 in
  let z0 := z0 .& 0x1111111111111111 in
  let z1 := z1 .& 0x2222222222222222 in
  let z2 := z2 .& 0x4444444444444444 in
  let z3 := z3 .& 0x8888888888888888 in
  let z := z0 .| z1 .| z2 .| z3 in
  (u32 (z >> 32), u32 z).

(** [MUL32] and the masks that follow: the high and low halves. *)
Definition MUL32 (x y : Z) : Z * Z :=
  let mul32tmp := MUL x y in
  (u32 (mul32tmp >> 32) .& 0x11111111, u32 mul32tmp .& 0x11111111).

(** The variant of [BR_SLOW_MUL], with nine multiplications. *)
Definition bmul_slow (x y : Z) : Z * Z :=
  let x0 := x .& 0x11111111 in
  let x1 := x .& 0x22222222 in
  let x2 := x .& 0x44444444 in
  let x3 := x .& 0x88888888 in
  let y0 := y .& 0x11111111 in
  let y1 := y .& 0x22222222 in
  let y2 := y .& 0x44444444 in
  let y3 := y .& 0x88888888 in
  let a0 := x0 in
  let b0 := y0 in
  let a1 := x1 >> 1 in
  let b1 := y1 >> 1 in
  let a2 := a0 .^ a1 in
  let b2 := b0 .^ b1 in
  let a3 := x2 >> 2 in
  let b3 := y2 >> 2 in
  let a4 := x3 >> 3 in
  let b4 := y3 >> 3 in
  let a5 := a3 .^ a4 in
  let b5 := b3 .^ b4 in
  let a6 := a0 .^ a3 in
  let b6 := b0 .^ b3 in
  let a7 := a1 .^ a4 in
  let b7 := b1 .^ b4 in
  let a8 := a6 .^ a7 in
  let b8 := b6 .^ b7 in
  let '(b0, a0) := MUL32 b0 a0 in
  let '(b1, a1) := MUL32 b1 a1 in
  let '(b2, a2) := MUL32 b2 a2 in
  let '(b3, a3) := MUL32 b3 a3 in
  let '(b4, a4) := MUL32 b4 a4 in
  let '(b5, a5) := MUL32 b5 a5 in
  let '(b6, a6) := MUL32 b6 a6 in
  let '(b7, a7) := MUL32 b7 a7 in
  let '(b8, a8) := MUL32 b8 a8 in
  let a2 := a2 .^ (a0 .^ a1) in
  let b2 := b2 .^ (b0 .^ b1) in
  let a0 := a0 .^ (u32 (a2 << 1) .^ u32 (a1 << 2)) in
  let b0 := b0 .^ (u32 (b2 << 1) .^ u32 (b1 << 2)) in
  let a5 := a5 .^ (a3 .^ a4) in
  let b5 := b5 .^ (b3 .^ b4) in
  let a3 := a3 .^ (u32 (a5 << 1) .^ u32 (a4 << 2)) in
  let b3 := b3 .^ (u32 (b5 << 1) .^ u32 (b4 << 2)) in
  let a8 := a8 .^ (a6 .^ a7) in
  let b8 := b8 .^ (b6 .^ b7) in
  let a6 := a6 .^ (u32 (a8 << 1) .^ u32 (a7 << 2)) in
  let b6 := b6 .^ (u32 (b8 << 1) .^ u32 (b7 << 2)) in
  let a6 := a6 .^ (a0 .^ a3) in
  let b6 := b6 .^ (b0 .^ b3) in
  (b0 .^ u32 (b6 << 2) .^ u32 (b3 << 4) .^ (a6 >> 30) .^ (a3 >> 28), a0 .^ u32 (a6 << 2) .^ u32 (a3 << 4)).

(** The product of [yw] and [hw], of four words each. *)
Definition ctmul_product (mul : Z -> Z -> Z * Z) (yw hw : list Z) : list Z :=
  let a0 := get yw 0 in let b0 := get hw 0 in
  let a1 := get yw 1 in let b1 := get hw 1 in
  let a2 := a0 .^ a1 in let b2 := b0 .^ b1 in
  let a3 := get yw 2 in let b3 := get hw 2 in
  let a4 := get yw 3 in let b4 := get hw 3 in
  let a5 := a3 .^ a4 in let b5 := b3 .^ b4 in
  let a6 := a0 .^ a3 in let b6 := b0 .^ b3 in
  let a7 := a1 .^ a4 in let b7 := b1 .^ b4 in
  let a8 := a6 .^ a7 in let b8 := b6 .^ b7 in
  let '(b0, a0) := mul b0 a0 in
  let '(b1, a1) := mul b1 a1 in
  let '(b2, a2) := mul b2 a2 in
  let '(b3, a3) := mul b3 a3 in
  let '(b4, a4) := mul b4 a4 in
  let '(b5, a5) := mul b5 a5 in
  let '(b6, a6) := mul b6 a6 in
  let '(b7, a7) := mul b7 a7 in
  let '(b8, a8) := mul b8 a8 in
  let c0 := a0 in
  let c1 := b0 .^ a2 .^ a0 .^ a1 in
  let c2 := a1 .^ b2 .^ b0 .^ b1 in
  let c3 := b1 in
  let d0 := a3 in
  let d1 := b3 .^ a5 .^ a3 .^ a4 in
  let d2 := a4 .^ b5 .^ b3 .^ b4 in
  let d3 := b4 in
  let e0 := a6 in
  let e1 := b6 .^ a8 .^ a6 .^ a7 in
  let e2 := a7 .^ b8 .^ b6 .^ b7 in
  let e3 := b7 in
  let e0 := e0 .^ (c0 .^ d0) in
  let e1 := e1 .^ (c1 .^ d1) in
  let e2 := e2 .^ (c2 .^ d2) in
  let e3 := e3 .^ (c3 .^ d3) in
  [c0; c1; c2 .^ e0; c3 .^ e1; d0 .^ e2; d1 .^ e3; d2; d3].

(** The product shifted by one bit, and the reduction. *)
Definition words_shift (d : list Z) : list Z :=
  [u32 (get d 0 << 1);
   u32 (get d 1 << 1) .| (get d 0 >> 31);
   u32 (get d 2 << 1) .| (get d 1 >> 31);
   u32 (get d 3 << 1) .| (get d 2 >> 31);
   u32 (get d 4 << 1) .| (get d 3 >> 31);
   u32 (get d 5 << 1) .| (get d 4 >> 31);
   u32 (get d 6 << 1) .| (get d 5 >> 31);
   u32 (get d 7 << 1) .| (get d 6 >> 31)].
Definition reduce_step (zw : list Z) (i : Z) : list Z :=
  let lw := get zw i in
  let zw := upd zw (i + 4) (get zw (i + 4) .^ (lw .^ (lw >> 1) .^ (lw >> 2) .^ (lw >> 7))) in
  upd zw (i + 3) (get zw (i + 3) .^ (u32 (lw << 31) .^ u32 (lw << 30) .^ u32 (lw << 25))).
Definition words_reduce (zw : list Z) : list Z :=
  let zw := fold_left reduce_step [0; 1; 2; 3] zw in
  [get zw 4; get zw 5; get zw 6; get zw 7].

(** The four words at [p], the last one first. *)
Definition words_in (a : list Z) (p : Z) : M (list Z) :=
  w3 ← br_dec32be a p;
  w2 ← br_dec32be a (p + 4);
  w1 ← br_dec32be a (p + 8);
  w0 ← br_dec32be a (p + 12);
  mret [w0; w1; w2; w3].
Definition words_out (a w : list Z) : M (list Z) :=
  a ← br_enc32be a 0 (get w 3);
  a ← br_enc32be a 4 (get w 2);
  a ← br_enc32be a 8 (get w 1);
  br_enc32be a 12 (get w 0).

(** The loop of the two functions, over their products. *)
Fixpoint ctmul_loop (fuel : nat) (product : list Z -> list Z) (yw data : list Z) (buf len : Z) : M (list Z) :=
  match fuel with
  | O => None
  | S fuel =>
      If 0 <? len Then
        '(src, p, buf, len) ← ghash_src data buf len;
        x ← words_in src p;
        let yw := xor_list yw x in
        let zw := words_shift (product yw) in
        ctmul_loop fuel product (words_reduce zw) data buf len
      Else mret yw
  end.

Definition ghash_words (product : list Z -> list Z -> list Z) : br_ghash := fun y h data pos len =>
  yw ← words_in y 0;
  hw ← words_in h 0;
  yw ← ctmul_loop (S (Z.to_nat len)) (fun yw => product yw hw) yw data pos len;
  words_out y yw.

Definition br_ghash_ctmul : br_ghash := ghash_words (ctmul_product bmul).
Definition br_ghash_ctmul_slow : br_ghash := ghash_words (ctmul_product bmul_slow).

(** ** 32-bit words, low halves of the products only *)

Definition bmul32 (x y : Z) : Z :=
  let x0 := x .& 0x11111111 in
  let x1 := x .& 0x22222222 in
  let x2 := x .& 0x44444444 in
  let x3 := x .& 0x88888888 in
  let y0 := y .& 0x11111111 in
  let y1 := y .& 0x22222222 in
  let y2 := y .& 0x44444444 in
  let y3 := y .& 0x88888888 in
  let z0 := u32 (x0 * y0) .^ u32 (x1 * y3) .^ u32 (x2 * y2) .^ u32 (x3 * y1) in
  let z1 := u32 (x0 * y1) .^ u32 (x1 * y0) .^ u32 (x2 * y3) .^ u32 (x3 * y2) in
  let z2 := u32 (x0 * y2) .^ u32 (x1 * y1) .^ u32 (x2 * y0) .^ u32 (x3 * y3) in
  let z3 := u32 (x0 * y3) .^ u32 (x1 * y2) .^ u32 (x2 * y1) .^ u32 (x3 * y0) in
  let z0 := z0 .& 0x11111111 in
  let z1 := z1 .& 0x22222222 in
  let z2 := z2 .& 0x44444444 in
  let z3 := z3 .& 0x88888888 in
  z0 .| z1 .| z2 .| z3.

Definition rev32 (x : Z) : Z :=
  let x := RMS u32 x 0x55555555 1 in
  let x := RMS u32 x 0x33333333 2 in
  let x := RMS u32 x 0x0F0F0F0F 4 in
  let x := RMS u32 x 0x00FF00FF 8 in
  u32 (x << 16) .| (x >> 16).

(** The operands of the multiplications, of the words [w] and of the reversed
    ones [r]. *)
Definition ctmul32_operands (w r : list Z) : list Z :=
  let a0 := get w 0 in
  let a1 := get w 1 in
  let a2 := get w 2 in
  let a3 := get w 3 in
  let a4 := a0 .^ a1 in
  let a5 := a2 .^ a3 in
  let a6 := a0 .^ a2 in
  let a7 := a1 .^ a3 in
  let a8 := a6 .^ a7 in
  let a9 := get r 0 in
  let a10 := get r 1 in
  let a11 := get r 2 in
  let a12 := get r 3 in
  let a13 := a9 .^ a10 in
  let a14 := a11 .^ a12 in
  let a15 := a9 .^ a11 in
  let a16 := a10 .^ a12 in
  let a17 := a15 .^ a16 in
  [a0; a1; a2; a3; a4; a5; a6; a7; a8; a9; a10; a11; a12; a13; a14; a15; a16; a17].

Definition ctmul32_product (hwr yw hw : list Z) : list Z :=
  let a := ctmul32_operands yw (map rev32 yw) in
  let b := ctmul32_operands hw hwr in
  let c := zip_with bmul32 a b in
  let c4 := get c 4 .^ (get c 0 .^ get c 1) in
  let c5 := get c 5 .^ (get c 2 .^ get c 3) in
  let c8 := get c 8 .^ (get c 6 .^ get c 7) in
  let c13 := get c 13 .^ (get c 9 .^ get c 10) in
  let c14 := get c 14 .^ (get c 11 .^ get c 12) in
  let c17 := get c 17 .^ (get c 15 .^ get c 16) in
  let d0 := get c 0 in
  let d1 := c4 .^ (rev32 (get c 9) >> 1) in
  let d2 := get c 1 .^ get c 0 .^ get c 2 .^ get c 6 .^ (rev32 c13 >> 1) in
  let d3 := c4 .^ c5 .^ c8 .^ (rev32 (get c 10 .^ get c 9 .^ get c 11 .^ get c 15) >> 1) in
  let d4 := get c 2 .^ get c 1 .^ get c 3 .^ get c 7 .^ (rev32 (c13 .^ c14 .^ c17) >> 1) in
  let d5 := c5 .^ (rev32 (get c 11 .^ get c 10 .^ get c 12 .^ get c 16) >> 1) in
  let d6 := get c 3 .^ (rev32 c14 >> 1) in
  let d7 := rev32 (get c 12) >> 1 in
  [d0; d1; d2; d3; d4; d5; d6; d7].

Definition br_ghash_ctmul32 : br_ghash := fun y h data pos len =>
  yw ← words_in y 0;
  hw ← words_in h 0;
  let hwr := map rev32 hw in
  yw ← ctmul_loop (S (Z.to_nat len)) (fun yw => ctmul32_product hwr yw hw) yw data pos len;
  words_out y yw.

(** * What an implementation promises *)

(** GHASH of SP 800-38D from the value [y], on the blocks of [data]. *)
Definition ghash_val (H Y : Z) (data : list Z) : Z :=
  fold_left (fun Y b => gf_mul (Y .^ vbe b 0 16) H) (padded_blocks (length data) data) Y.
Definition ghash (h y data : list Z) : list Z := be_words 16 [ghash_val (vbe h 0 16) (vbe y 0 16) data] 1.

(** The leakage of two runs on data of the same length is the same. *)
Class GhashSpec (gh : br_ghash) : Prop := {
  ghash_ok y h data pos len : block 16 y -> block 16 h -> 0 <= pos -> 0 <= len -> pos + len <= zlen data -> bytes data pos len ->
    ok (gh y h data pos len) (fun y' => y' = ghash h y (slice data pos len));
  ghash_ct y1 y2 h1 h2 data1 data2 pos len : blind (gh y1 h1 data1 pos len) (gh y2 h2 data2 pos len) }.

Lemma gf_sum_word n X V : word 128 V -> word 128 (gf_sum n X V).
Proof.
  revert V. induction n as [|n IH]; intros V HV; [done|]. cbn [gf_sum]. apply word_lxor; [done| |].
  - by destruct (Z.testbit X _).
  - apply IH. unfold mulx. apply word_lxor; [done| |by destruct (Z.testbit V 0)].
    apply (word_shr 128); [done..|]. done.
Qed.

Lemma ghash_val_word H Y data : word 128 H -> word 128 Y -> word 128 (ghash_val H Y data).
Proof.
  intros HH. unfold ghash_val. generalize (padded_blocks (length data) data). intros bs. revert Y.
  induction bs as [|b bs IH]; intros Y HY; [done|]. cbn [fold_left]. apply IH. by apply gf_sum_word.
Qed.

Lemma vbe_block s : block 16 s -> word 128 (vbe s 0 16).
Proof.
  intros [HL HB]. apply bytes_get in HB. rewrite HL in HB. pose proof (vbe_bound s 0 16 ltac:(lia) HB). done.
Qed.

Lemma block_of_val s V : block 16 s -> vbe s 0 16 = V -> s = be_words 16 [V] 1.
Proof.
  intros [HL HB] <-. apply bytes_get in HB. rewrite HL in HB. rewrite <- (slice_be_words s 0 16 [vbe s 0 16] 1); try lia.
  - symmetry. by apply slice_all.
  - done.
  - intros i Hi. assert (i = 0) as -> by lia. change (get [vbe s 0 16] 0) with (vbe s 0 16). by replace (0 + 16 * 0) with 0 by lia.
Qed.

Lemma be_words_block V : block 16 (be_words 16 [V] 1).
Proof. split; [by rewrite zlen_be_words|apply be_words_bytes]. Qed.

(** The value of an encoded word. *)
Lemma vbe_be_words sz x : 0 < sz -> word (8 * sz) x -> vbe (be_words sz [x] 1) 0 sz = x.
Proof.
  intros Hsz Hx. assert (H : forall n, 0 <= n -> n <= sz -> vbe (be_words sz [x] 1) 0 n = x >> (8 * (sz - n))).
  { apply (limb_ind (fun n => n <= sz -> vbe (be_words sz [x] 1) 0 n = x >> (8 * (sz - n)))).
    - intros _. transitivity 0; [done|]. rewrite Z.sub_0_r, shr_div by lia. symmetry. by apply Z.div_small.
    - intros n Hn IH Hle. rewrite vbe_succ, IH, Z.add_0_l by lia.
      assert (E : get (be_words sz [x] 1) n = u8 (x >> (8 * (sz - (n + 1))))).
      { unfold be_words. rewrite get_map_seq, Z2Nat.id by lia. rewrite Z.div_small, Z.mod_small by lia.
        change (get [x] 0) with x. do 2 f_equal. lia. }
      rewrite E. unfold u8. replace (8 * (sz - n)) with (8 * (sz - (n + 1)) + 8) by lia.
      rewrite <- Z.shiftr_shiftr, (shr_div _ 8) by lia. change (2 ^ 8) with 256. pose proof (Z.div_mod (x >> (8 * (sz - (n + 1)))) 256). lia. }
  rewrite H by lia. by rewrite Z.sub_diag, Z.shiftr_0_r.
Qed.

Lemma ghash_block h y data : block 16 (ghash h y data).
Proof. apply be_words_block. Qed.

Lemma ghash_nil h y : block 16 y -> ghash h y [] = y.
Proof. intros Hy. symmetry. unfold ghash. change (ghash_val (vbe h 0 16) (vbe y 0 16) []) with (vbe y 0 16). exact (block_of_val y _ Hy eq_refl). Qed.

(** The function on whole blocks, then on the rest. *)
Lemma ghash_app h y a b k : block 16 h -> block 16 y -> zlen a = 16 * Z.of_nat k -> ghash h (ghash h y a) b = ghash h y (a ++ b).
Proof.
  intros Hh Hy Ha. unfold ghash. f_equal. f_equal. rewrite vbe_be_words by (try done; apply ghash_val_word; by apply vbe_block).
  unfold ghash_val. rewrite length_app. rewrite (padded_blocks_app k (length a + length b)) by (done || lia).
  rewrite fold_left_app. rewrite (padded_blocks_more (length a + length b) (length a) a) by lia.
  by rewrite (padded_blocks_more (length a + length b) (length b) b) by lia.
Qed.
