(* ===== verification/GhashMul.v ===== *)
(** The multiplications of [Ghash] compute the product of the field of GHASH:
    the products with holes, the reversals, Karatsuba's arrangement of the
    partial products and the reductions. *)
From stdpp Require Import base tactics list numbers option.
From Stdlib Require Import ZArith Lia.
From S2P Require Import Prelude CtPrims Limbs BitExpr Clmul Ghash.
Local Open Scope Z_scope.
Local Open Scope cword_scope.

(** * Masks and holes *)

(** [m] is the mask of the positions [r] modulo [4] below [4 * n]. *)
Definition is_mask (n : nat) (r m : Z) : bool :=
  (0 <=? m) && (m <? 2 ^ (4 * Z.of_nat n)) &&
  forallb (fun p => Bool.eqb (Z.testbit m (Z.of_nat p)) (Z.of_nat p mod 4 =? r)) (seq 0 (4 * n)).

Lemma mask_bit n r m p : is_mask n r m = true -> 0 <= p < 4 * Z.of_nat n -> Z.testbit m p = (p mod 4 =? r).
Proof.
  intros H Hp. unfold is_mask in H. apply andb_true_iff in H as [_ H]. rewrite forallb_forall in H.
  specialize (H (Z.to_nat p) ltac:(apply in_seq; lia)). rewrite Z2Nat.id in H by lia. by apply Bool.eqb_prop.
Qed.

Lemma mask_sparse n r m x : is_mask n r m = true -> 0 <= x -> sparse4 n r (x .& m).
Proof.
  intros H Hx. pose proof H as H'. unfold is_mask in H'. rewrite !andb_true_iff, Z.leb_le, Z.ltb_lt in H'.
  destruct H' as [[Hm Hm'] _]. split; [apply Z.land_nonneg; by left|]. intros p Hp. rewrite Z.land_spec in Hp.
  apply andb_true_iff in Hp as [_ Hp]. destruct (Z.lt_ge_cases p 0); [by rewrite Z.testbit_neg_r in Hp|].
  destruct (Z.lt_ge_cases p (4 * Z.of_nat n)) as [Hl|Hl].
  - rewrite (mask_bit n r) in Hp by (done || lia). apply Z.eqb_eq in Hp. lia.
  - by rewrite (word_high (4 * Z.of_nat n) ltac:(lia) m) in Hp by (unfold word; lia).
Qed.

Lemma mask_parts n m0 m1 m2 m3 x : is_mask n 0 m0 = true -> is_mask n 1 m1 = true -> is_mask n 2 m2 = true -> is_mask n 3 m3 = true ->
  word (4 * Z.of_nat n) x -> x = (x .& m0) .^ (x .& m1) .^ (x .& m2) .^ (x .& m3).
Proof.
  intros H0 H1 H2 H3 Hx. apply Z.bits_inj'. intros p Hp. rewrite !Z.lxor_spec, !Z.land_spec.
  destruct (Z.lt_ge_cases p (4 * Z.of_nat n)); [|by rewrite (word_high (4 * Z.of_nat n) ltac:(lia) x) by (done || lia)].
  rewrite (mask_bit n 0 m0), (mask_bit n 1 m1), (mask_bit n 2 m2), (mask_bit n 3 m3) by (done || lia).
  pose proof (Z.mod_pos_bound p 4 ltac:(lia)). assert (p mod 4 = 0 \/ p mod 4 = 1 \/ p mod 4 = 2 \/ p mod 4 = 3) as HC by lia.
  destruct (Z.testbit x p); [|done]. by destruct HC as [-> | [-> | [-> | ->]]].
Qed.

(** The common form of [bmul], [bmul32] and [bmul64]: the operands are masked,
    multiplied in a word, and the sums masked. *)
Definition mul_holes (u : Z -> Z) (m0 m1 m2 m3 k0 k1 k2 k3 x y : Z) : Z :=
  let x0 := x .& m0 in let x1 := x .& m1 in let x2 := x .& m2 in let x3 := x .& m3 in
  let y0 := y .& m0 in let y1 := y .& m1 in let y2 := y .& m2 in let y3 := y .& m3 in
  let z0 := u (x0 * y0) .^ u (x1 * y3) .^ u (x2 * y2) .^ u (x3 * y1) in
  let z1 := u (x0 * y1) .^ u (x1 * y0) .^ u (x2 * y3) .^ u (x3 * y2) in
  let z2 := u (x0 * y2) .^ u (x1 * y1) .^ u (x2 * y0) .^ u (x3 * y3) in
  let z3 := u (x0 * y3) .^ u (x1 * y2) .^ u (x2 * y1) .^ u (x3 * y0) in
  (z0 .& k0) .| (z1 .& k1) .| (z2 .& k2) .| (z3 .& k3).

Section MulHoles.
Context (n N : nat) (u : Z -> Z) (m0 m1 m2 m3 k0 k1 k2 k3 : Z).
Context (Hn : (0 < n <= N)%nat) (HN : (N <= 16)%nat) (HN2 : (N <= 2 * n)%nat).
Context (Hu : forall z p, 0 <= p < 4 * Z.of_nat N -> Z.testbit (u z) p = Z.testbit z p).
Context (M0 : is_mask n 0 m0 = true) (M1 : is_mask n 1 m1 = true) (M2 : is_mask n 2 m2 = true) (M3 : is_mask n 3 m3 = true).
Context (K0 : is_mask N 0 k0 = true) (K1 : is_mask N 1 k1 = true) (K2 : is_mask N 2 k2 = true) (K3 : is_mask N 3 k3 = true).

Lemma mul_holes_bit x y p : word (4 * Z.of_nat n) x -> word (4 * Z.of_nat n) y -> 0 <= p < 4 * Z.of_nat N ->
  Z.testbit (mul_holes u m0 m1 m2 m3 k0 k1 k2 k3 x y) p = Z.testbit (clmul (4 * n) x y) p.
Proof.
  intros Hx Hy Hp. set (m := fun r => if r =? 0 then m0 else if r =? 1 then m1 else if r =? 2 then m2 else m3).
  assert (Hm : forall z r, word (4 * Z.of_nat n) z -> 0 <= r < 4 -> sparse4 n r (z .& m r)).
  { intros z r [Hz _] Hr. assert (r = 0 \/ r = 1 \/ r = 2 \/ r = 3) as [-> | [-> | [-> | ->]]] by lia; by apply mask_sparse. }
  pose proof (holes n (fun r => x .& m r) (fun r => y .& m r) p ltac:(lia) (fun r => Hm x r Hx) (fun r => Hm y r Hy) ltac:(lia) ltac:(lia)) as HH.
  cbv beta zeta in HH.
  assert (EX : x = (x .& m 0) .^ (x .& m 1) .^ (x .& m 2) .^ (x .& m 3)) by by apply (mask_parts n).
  assert (EY : y = (y .& m 0) .^ (y .& m 1) .^ (y .& m 2) .^ (y .& m 3)) by by apply (mask_parts n).
  rewrite <- EX, <- EY in HH. rewrite HH. clear HH EX EY. unfold mul_holes. cbv zeta.
  rewrite !Z.lor_spec, !Z.land_spec, !Z.lxor_spec, !Hu by done.
  rewrite (mask_bit N 0 k0), (mask_bit N 1 k1), (mask_bit N 2 k2), (mask_bit N 3 k3) by done.
  pose proof (Z.mod_pos_bound p 4 ltac:(lia)). assert (p mod 4 = 0 \/ p mod 4 = 1 \/ p mod 4 = 2 \/ p mod 4 = 3) as HC by lia.
  destruct HC as [-> | [-> | [-> | ->]]]; cbn [Z.eqb Pos.eqb].
  1: change (m ((0 - 1) mod 4)) with m3; change (m ((0 - 2) mod 4)) with m2; change (m ((0 - 3) mod 4)) with m1.
  2: change (m ((1 - 1) mod 4)) with m0; change (m ((1 - 2) mod 4)) with m3; change (m ((1 - 3) mod 4)) with m2.
  3: change (m ((2 - 1) mod 4)) with m1; change (m ((2 - 2) mod 4)) with m0; change (m ((2 - 3) mod 4)) with m3.
  4: change (m ((3 - 1) mod 4)) with m2; change (m ((3 - 2) mod 4)) with m1; change (m ((3 - 3) mod 4)) with m0.
  all: change (m 0) with m0; change (m 1) with m1; change (m 2) with m2; change (m 3) with m3.
  all: rewrite ?andb_false_r, ?andb_true_r, ?orb_false_l, ?orb_false_r; ring.
Qed.
End MulHoles.

Lemma u64_bit z p : 0 <= p < 64 -> Z.testbit (u64 z) p = Z.testbit z p.
Proof. intros Hp. unfold u64. by rewrite Z.mod_pow2_bits_low by lia. Qed.
Lemma u32_bit z p : 0 <= p < 32 -> Z.testbit (u32 z) p = Z.testbit z p.
Proof. intros Hp. unfold u32. by rewrite Z.mod_pow2_bits_low by lia. Qed.

(** Words with the same bits. *)
Lemma word_bits_eq w a b : 0 <= w -> word w a -> word w b -> (forall p, 0 <= p < w -> Z.testbit a p = Z.testbit b p) -> a = b.
Proof.
  intros Hw Ha Hb H. apply Z.bits_inj'. intros p Hp. destruct (Z.lt_ge_cases p w); [by apply H|].
  by rewrite !(word_high w Hw).
Qed.

Lemma bmul64_ok x y : word 64 x -> word 64 y -> bmul64 x y = mlo 64 x y.
Proof.
  intros Hx Hy. assert (HE : forall p, 0 <= p < 64 -> Z.testbit (bmul64 x y) p = Z.testbit (clmul 64 x y) p).
  { intros p Hp. apply (mul_holes_bit 16 16 u64); done || lia || (intros; by apply u64_bit). }
  apply (word_bits_eq 64); [done| |apply mlo_word|].
  - unfold bmul64. cbv zeta. repeat apply word_lor; try lia; apply word_land; try lia; repeat apply word_lxor; try lia; apply u64_word.
  - intros p Hp. rewrite HE by done. unfold mlo. by rewrite Z.mod_pow2_bits_low by lia.
Qed.

Lemma bmul32_ok x y : word 32 x -> word 32 y -> bmul32 x y = mlo 32 x y.
Proof.
  intros Hx Hy. assert (HE : forall p, 0 <= p < 32 -> Z.testbit (bmul32 x y) p = Z.testbit (clmul 32 x y) p).
  { intros p Hp. apply (mul_holes_bit 8 8 u32); done || lia || (intros; by apply u32_bit). }
  apply (word_bits_eq 32); [done| |apply mlo_word|].
  - unfold bmul32. cbv zeta. repeat apply word_lor; try lia; apply word_land; try lia; repeat apply word_lxor; try lia; apply u32_word.
  - intros p Hp. rewrite HE by done. unfold mlo. by rewrite Z.mod_pow2_bits_low by lia.
Qed.

#[local] Opaque clmul.

Lemma bmul_ok x y : word 32 x -> word 32 y -> bmul x y = (mhi 32 x y, mlo 32 x y).
Proof.
  intros Hx Hy. set (z := mul_holes u64 0x11111111 0x22222222 0x44444444 0x88888888
    0x1111111111111111 0x2222222222222222 0x4444444444444444 0x8888888888888888 x y).
  assert (HE : z = clmul 32 x y).
  { apply (word_bits_eq 64); [done| |apply (clmul_word 32 32); done|].
    - unfold z, mul_holes. cbv zeta. repeat apply word_lor; try lia; apply word_land; try lia; repeat apply word_lxor; try lia; apply u64_word.
    - intros p Hp. apply (mul_holes_bit 8 16 u64); done || lia || (intros; by apply u64_bit). }
  transitivity (u32 (z >> 32), u32 z); [done|]. rewrite HE.
  rewrite (u32_small (clmul 32 x y >> 32)) by (by apply (mhi_word 32)). unfold mhi, mlo, u32. by change (Z.of_nat 32) with 32.
Qed.

(** * The variant with nine multiplications *)

Lemma sparse4_lxor n r x y : sparse4 n r x -> sparse4 n r y -> sparse4 n r (x .^ y).
Proof.
  intros [Hx Bx] [Hy By]. split; [by apply Z.lxor_nonneg|]. intros p. rewrite Z.lxor_spec.
  destruct (Z.testbit x p) eqn:Ex; [by auto|]. destruct (Z.testbit y p) eqn:Ey; [by auto|done].
Qed.

Lemma sparse4_shr n r x : 0 <= r < 4 -> sparse4 n r x -> sparse4 n 0 (x >> r).
Proof.
  intros Hr [Hx Bx]. split; [by apply Z.shiftr_nonneg|]. intros p Hp.
  destruct (Z.lt_ge_cases p 0); [by rewrite Z.testbit_neg_r in Hp|]. rewrite Z.shiftr_spec in Hp by lia.
  destruct (Bx _ Hp). zn.
Qed.

Lemma sparse4_word n r x : sparse4 n r x -> word (4 * Z.of_nat n) x.
Proof.
  intros [Hx Bx]. apply word_of_bits; [lia|done|]. intros m Hm. destruct (Z.testbit x m) eqn:Ex; [|done]. destruct (Bx m Ex). lia.
Qed.

(** A mask keeps the positions that count. *)
Lemma MUL32_ok x y : sparse4 8 0 x -> sparse4 8 0 y -> MUL32 x y =
  (u32 (clmul 32 x y >> 32) .& 0x11111111, u32 (clmul 32 x y) .& 0x11111111).
Proof.
  intros Hx Hy. assert (HB : forall p, 0 <= p < 64 -> p mod 4 = 0 -> Z.testbit (MUL x y) p = Z.testbit (clmul 32 x y) p).
  { intros p Hp Ep. unfold MUL. rewrite u64_bit by done. apply (sparse4_mul 8 0 0 x y p); done || lia. }
  assert (HM : forall p, 0 <= p < 32 -> Z.testbit 0x11111111 p = (p mod 4 =? 0)) by (intros p Hp; by apply (mask_bit 8 0)).
  unfold MUL32. cbv zeta. set (z := MUL x y) in *. set (c := clmul 32 x y) in *.
  assert (E1 : u32 (z >> 32) .& 0x11111111 = u32 (c >> 32) .& 0x11111111).
  { apply (word_bits_eq 32); [done|by apply word_land; [|apply u32_word|]..|]. intros p Hp.
    rewrite !Z.land_spec, !u32_bit, !Z.shiftr_spec, HM by lia. destruct (Z.eqb_spec (p mod 4) 0); [|by rewrite !andb_false_r].
    by rewrite HB by zn. }
  assert (E2 : u32 z .& 0x11111111 = u32 c .& 0x11111111).
  { apply (word_bits_eq 32); [done|by apply word_land; [|apply u32_word|]..|]. intros p Hp.
    rewrite !Z.land_spec, !u32_bit, HM by lia. destruct (Z.eqb_spec (p mod 4) 0); [|by rewrite !andb_false_r].
    by rewrite HB by lia. }
  by rewrite E1, E2.
Qed.

(** The bits of the product in those of the sixteen partial ones, which have
    bits at the multiples of 4 only. *)
Definition slow_bits (p : Z) : list (Z * Z) :=
  concat (map (fun r => concat (map (fun s => let q := p - (r + s) in
    if (0 <=? q) && (q mod 4 =? 0) then [(4 * r + s, q)] else []) [0; 1; 2; 3])) [0; 1; 2; 3]).

Section Slow.
Context (a0 a1 a2 a3 b0 b1 b2 b3 : Z).
Context (A0 : sparse4 8 0 a0) (A1 : sparse4 8 0 a1) (A2 : sparse4 8 0 a2) (A3 : sparse4 8 0 a3).
Context (B0 : sparse4 8 0 b0) (B1 : sparse4 8 0 b1) (B2 : sparse4 8 0 b2) (B3 : sparse4 8 0 b3).
Let P x y := clmul 32 x y.
Let env := [P b0 a0; P b0 a1; P b0 a2; P b0 a3; P b1 a0; P b1 a1; P b1 a2; P b1 a3;
            P b2 a0; P b2 a1; P b2 a2; P b2 a3; P b3 a0; P b3 a1; P b3 a2; P b3 a3].

Lemma slow_part r s x y p : 0 <= r < 4 -> 0 <= s < 4 -> sparse4 8 0 x -> sparse4 8 0 y -> get env (4 * r + s) = P x y -> 0 <= p ->
  Z.testbit (clmul 32 (x << r) (y << s)) p =
  bit_sum env (let q := p - (r + s) in if (0 <=? q) && (q mod 4 =? 0) then [(4 * r + s, q)] else []).
Proof.
  intros Hr Hs Hx Hy HE Hp. cbv zeta. rewrite clmul_shl_l by lia. rewrite clmul_shl_r; [|lia|].
  2:{ intros j Hj. destruct (Z.testbit y j) eqn:Ey; [|done]. destruct Hy as [_ Hy]. destruct (Hy j Ey). zn. }
  rewrite Z.shiftl_shiftl, Z.shiftl_spec by lia. replace (p - (s + r)) with (p - (r + s)) by lia.
  destruct (Z.leb_spec 0 (p - (r + s))); [|by rewrite Z.testbit_neg_r by lia]. destruct (Z.eqb_spec ((p - (r + s)) mod 4) 0); cbn [andb].
  - rewrite bit_sum_cons. cbn [fst snd bit_sum fold_right]. by rewrite HE, xorb_false_r.
  - by apply (sparse4_clmul 8 32 0 0 x y).
Qed.

Lemma slow_bits_ok p : 0 <= p ->
  Z.testbit (clmul 32 (b0 .^ (b1 << 1) .^ (b2 << 2) .^ (b3 << 3)) (a0 .^ (a1 << 1) .^ (a2 << 2) .^ (a3 << 3))) p =
  bit_sum env (slow_bits p).
Proof.
  intros Hp. unfold slow_bits. cbn [map concat]. rewrite !bit_sum_app.
  rewrite <- !(slow_part 0 0 b0 a0), <- !(slow_part 0 1 b0 a1), <- !(slow_part 0 2 b0 a2), <- !(slow_part 0 3 b0 a3) by (done || lia).
  rewrite <- !(slow_part 1 0 b1 a0), <- !(slow_part 1 1 b1 a1), <- !(slow_part 1 2 b1 a2), <- !(slow_part 1 3 b1 a3) by (done || lia).
  rewrite <- !(slow_part 2 0 b2 a0), <- !(slow_part 2 1 b2 a1), <- !(slow_part 2 2 b2 a2), <- !(slow_part 2 3 b2 a3) by (done || lia).
  rewrite <- !(slow_part 3 0 b3 a0), <- !(slow_part 3 1 b3 a1), <- !(slow_part 3 2 b3 a2), <- !(slow_part 3 3 b3 a3) by (done || lia).
  rewrite !Z.shiftl_0_r, !clmul_lxor_r, !clmul_lxor_l, !Z.lxor_spec. cbn [bit_sum fold_right]. ring.
Qed.
End Slow.

Lemma sparse4_shl_shr n r x : 0 <= r < 4 -> sparse4 n r x -> (x >> r) << r = x.
Proof.
  intros Hr [Hx Bx]. apply Z.bits_inj'. intros p Hp. rewrite Z.shiftl_spec by done. destruct (Z.lt_ge_cases p r).
  - rewrite (Z.testbit_neg_r (x >> r)) by lia. destruct (Z.testbit x p) eqn:Ex; [|done]. destruct (Bx p Ex). zn.
  - rewrite Z.shiftr_spec by lia. f_equal. lia.
Qed.

Lemma forall_word w l : 0 <= w -> Forall (word w) l -> forall i, word w (get l i).
Proof.
  intros Hw HF i. unfold get. destruct (Nat.lt_ge_cases (Z.to_nat i) (length l)).
  - by apply (proj1 (List.Forall_forall _ _) HF), nth_In.
  - rewrite nth_overflow by done. unfold word. pose proof (Z.pow_pos_nonneg 2 w). lia.
Qed.

Lemma bmul_slow_ok x y : word 32 x -> word 32 y -> bmul_slow x y = (mhi 32 x y, mlo 32 x y).
Proof.
  intros Hx Hy. assert (HP : forall z, word 32 z -> let a0 := z .& 0x11111111 in let a1 := (z .& 0x22222222) >> 1 in
    let a2 := (z .& 0x44444444) >> 2 in let a3 := (z .& 0x88888888) >> 3 in
    sparse4 8 0 a0 /\ sparse4 8 0 a1 /\ sparse4 8 0 a2 /\ sparse4 8 0 a3 /\ z = a0 .^ (a1 << 1) .^ (a2 << 2) .^ (a3 << 3)).
  { intros z Hz a0 a1 a2 a3. assert (0 <= z) by apply Hz.
    pose proof (mask_sparse 8 0 0x11111111 z eq_refl ltac:(done)) as S0. pose proof (mask_sparse 8 1 0x22222222 z eq_refl ltac:(done)) as S1.
    pose proof (mask_sparse 8 2 0x44444444 z eq_refl ltac:(done)) as S2. pose proof (mask_sparse 8 3 0x88888888 z eq_refl ltac:(done)) as S3.
    split; [done|]. split; [by apply (sparse4_shr 8 1)|]. split; [by apply (sparse4_shr 8 2)|]. split; [by apply (sparse4_shr 8 3)|].
    unfold a1, a2, a3. rewrite (sparse4_shl_shr 8 1), (sparse4_shl_shr 8 2), (sparse4_shl_shr 8 3) by done.
    by apply (mask_parts 8). }
  destruct (HP x Hx) as (A0 & A1 & A2 & A3 & EX). destruct (HP y Hy) as (B0 & B1 & B2 & B3 & EY). clear HP.
  unfold bmul_slow. cbv zeta. set (a0 := x .& 0x11111111) in *. set (a1 := (x .& 0x22222222) >> 1) in *.
  set (a2 := (x .& 0x44444444) >> 2) in *. set (a3 := (x .& 0x88888888) >> 3) in *. set (b0 := y .& 0x11111111) in *.
  set (b1 := (y .& 0x22222222) >> 1) in *. set (b2 := (y .& 0x44444444) >> 2) in *. set (b3 := (y .& 0x88888888) >> 3) in *.
  pose proof (slow_bits_ok a0 a1 a2 a3 b0 b1 b2 b3 A0 A1 A2 A3 B0 B1 B2 B3) as HB. cbv zeta in HB. rewrite <- EX, <- EY in HB.
  rewrite <- (clmul_comm 32 x y Hx Hy) in HB. clear EX EY.
  rewrite !MUL32_ok by (repeat apply sparse4_lxor; done). cbv iota beta.
  rewrite !clmul_lxor_l, !clmul_lxor_r.
  assert (HW : forall u v, sparse4 8 0 u -> word 64 (clmul 32 u v)).
  { intros u v Hu. apply (clmul_word 32 32); [done|]. by apply (sparse4_word 8 0). }
  match type of HB with forall p, _ -> _ = bit_sum ?e _ => set (q := e) in HB end.
  assert (Hq : forall i, word 64 (get q i)).
  { apply forall_word; [done|]. subst q. repeat constructor; by apply HW. }
  clear HW A0 A1 A2 A3 B0 B1 B2 B3. clearbody a0 a1 a2 a3 b0 b1 b2 b3.
  match goal with |- (?h, ?l) = _ => set (hi := h); set (lo := l) end.
  assert (HL : layout 32 q lo slow_bits) by (subst q lo; check_layout_of 64 Hq).
  assert (HH : layout 32 q hi (fun n => slow_bits (n + 32))) by (subst q hi; check_layout_of 64 Hq).
  assert (E1 : hi = mhi 32 x y).
  { destruct HH as [Wh HH]. apply (word_bits_eq 32); [done..|by apply (mhi_word 32)|]. intros p Hp.
    rewrite HH by done. unfold mhi. rewrite Z.shiftr_spec by lia. by rewrite HB by lia. }
  assert (E2 : lo = mlo 32 x y).
  { destruct HL as [Wl HL]. apply (word_bits_eq 32); [done..|apply mlo_word|]. intros p Hp.
    rewrite HL by done. unfold mlo. rewrite Z.mod_pow2_bits_low by lia. by rewrite HB by lia. }
  by rewrite E1, E2.
Qed.

(** * The reversals *)

Lemma one_word w x : 0 <= w -> word w x -> forall i, word w (get [x] i).
Proof. intros Hw Hx. apply (forall_word w [x] Hw). constructor; [done|constructor]. Qed.

Lemma bit_sum_one x n : bit_sum [x] [(0, n)] = Z.testbit x n.
Proof. cbn. apply xorb_false_r. Qed.

(** [y] has the bits of [x] at the positions with the bits [s] changed. *)
Definition flipped (w s x y : Z) : Prop := word w y /\ forall n, 0 <= n < w -> Z.testbit y n = Z.testbit x (n .^ s).

Lemma flipped_layout w s x y : layout w [x] y (fun n => [(0, n .^ s)]) -> flipped w s x y.
Proof. intros [Hy H]. split; [done|]. intros n Hn. by rewrite H, bit_sum_one by done. Qed.

Lemma flipped_trans w s t x y z : (forall n, 0 <= n < w -> 0 <= n .^ t < w) -> flipped w s x y -> flipped w t y z ->
  flipped w (t .^ s) x z.
Proof.
  intros Ht [_ Hy] [Hz H]. split; [done|]. intros n Hn. by rewrite H, Hy, Z.lxor_assoc by auto.
Qed.

Lemma flip_range w t : 0 <= w ->
  forallb (fun n => (0 <=? Z.of_nat n .^ t) && (Z.of_nat n .^ t <? w)) (seq 0 (Z.to_nat w)) = true ->
  forall n, 0 <= n < w -> 0 <= n .^ t < w.
Proof.
  intros Hw H n Hn. rewrite forallb_forall in H. specialize (H (Z.to_nat n) ltac:(apply in_seq; lia)).
  rewrite Z2Nat.id, andb_true_iff, Z.leb_le, Z.ltb_lt in H by lia. done.
Qed.

Lemma flipped_reversed w s x y : 0 <= w -> forallb (fun n => Z.of_nat n .^ s =? w - 1 - Z.of_nat n) (seq 0 (Z.to_nat w)) = true ->
  word w x -> flipped w s x y -> reversed w x y.
Proof.
  intros Hw HS Hx [Hy H]. split; [done|]. split; [done|]. intros i Hi. rewrite H by done. f_equal.
  rewrite forallb_forall in HS. specialize (HS (Z.to_nat i) ltac:(apply in_seq; lia)).
  rewrite Z2Nat.id in HS by lia. by apply Z.eqb_eq in HS.
Qed.

(** Each step of the reversals is checked on its own. *)
Ltac flip_step W :=
  let Hx := fresh in intros x Hx; apply flipped_layout; unfold RMS;
  let HW := fresh in pose proof (one_word W x ltac:(done) Hx) as HW; check_layout HW.

Lemma RMS64_ok :
  (forall x, word 64 x -> flipped 64 1 x (RMS u64 x 0x5555555555555555 1)) /\
  (forall x, word 64 x -> flipped 64 2 x (RMS u64 x 0x3333333333333333 2)) /\
  (forall x, word 64 x -> flipped 64 4 x (RMS u64 x 0x0F0F0F0F0F0F0F0F 4)) /\
  (forall x, word 64 x -> flipped 64 8 x (RMS u64 x 0x00FF00FF00FF00FF 8)) /\
  (forall x, word 64 x -> flipped 64 16 x (RMS u64 x 0x0000FFFF0000FFFF 16)) /\
  (forall x, word 64 x -> flipped 64 32 x (u64 (x << 32) .| (x >> 32))).
Proof. split; [|split; [|split; [|split; [|split]]]]; flip_step 64. Qed.

Lemma RMS32_ok :
  (forall x, word 32 x -> flipped 32 1 x (RMS u32 x 0x55555555 1)) /\
  (forall x, word 32 x -> flipped 32 2 x (RMS u32 x 0x33333333 2)) /\
  (forall x, word 32 x -> flipped 32 4 x (RMS u32 x 0x0F0F0F0F 4)) /\
  (forall x, word 32 x -> flipped 32 8 x (RMS u32 x 0x00FF00FF 8)) /\
  (forall x, word 32 x -> flipped 32 16 x (u32 (x << 16) .| (x >> 16))).
Proof. split; [|split; [|split; [|split]]]; flip_step 32. Qed.

Lemma rev64_ok x : word 64 x -> reversed 64 x (rev64 x).
Proof.
  intros Hx. unfold rev64. cbv zeta. destruct RMS64_ok as (H1 & H2 & H4 & H8 & H16 & H32).
  pose proof (H1 x Hx) as F. pose proof (flipped_trans _ _ _ _ _ _ (flip_range 64 2 ltac:(lia) eq_refl) F (H2 _ (proj1 F))) as F2.
  pose proof (flipped_trans _ _ _ _ _ _ (flip_range 64 4 ltac:(lia) eq_refl) F2 (H4 _ (proj1 F2))) as F4.
  pose proof (flipped_trans _ _ _ _ _ _ (flip_range 64 8 ltac:(lia) eq_refl) F4 (H8 _ (proj1 F4))) as F8.
  pose proof (flipped_trans _ _ _ _ _ _ (flip_range 64 16 ltac:(lia) eq_refl) F8 (H16 _ (proj1 F8))) as F16.
  pose proof (flipped_trans _ _ _ _ _ _ (flip_range 64 32 ltac:(lia) eq_refl) F16 (H32 _ (proj1 F16))) as F32.
  refine (flipped_reversed 64 _ x _ _ _ Hx F32); [done|by vm_compute].
Qed.

Lemma rev32_ok x : word 32 x -> reversed 32 x (rev32 x).
Proof.
  intros Hx. unfold rev32. cbv zeta. destruct RMS32_ok as (H1 & H2 & H4 & H8 & H16).
  pose proof (H1 x Hx) as F. pose proof (flipped_trans _ _ _ _ _ _ (flip_range 32 2 ltac:(lia) eq_refl) F (H2 _ (proj1 F))) as F2.
  pose proof (flipped_trans _ _ _ _ _ _ (flip_range 32 4 ltac:(lia) eq_refl) F2 (H4 _ (proj1 F2))) as F4.
  pose proof (flipped_trans _ _ _ _ _ _ (flip_range 32 8 ltac:(lia) eq_refl) F4 (H8 _ (proj1 F4))) as F8.
  pose proof (flipped_trans _ _ _ _ _ _ (flip_range 32 16 ltac:(lia) eq_refl) F8 (H16 _ (proj1 F8))) as F16.
  refine (flipped_reversed 32 _ x _ _ _ Hx F16); [done|by vm_compute].
Qed.

Lemma reversed_lxor w x r y s : 0 <= w -> reversed w x r -> reversed w y s -> reversed w (x .^ y) (r .^ s).
Proof.
  intros Hw (Hx & Hr & H) (Hy & Hs & H'). split; [by apply word_lxor|]. split; [by apply word_lxor|].
  intros i Hi. by rewrite !Z.lxor_spec, H, H'.
Qed.

Lemma reversed_eq w x r s : 0 <= w -> reversed w x r -> reversed w x s -> r = s.
Proof.
  intros Hw (_ & Hr & H) (_ & Hs & H'). apply (word_bits_eq w); [done..|]. intros p Hp. by rewrite H, H'.
Qed.

(** The high half, from the product of the reversed words. *)
Lemma reversed_mhi n x y xr yr r : (0 < n)%nat -> reversed (Z.of_nat n) x xr -> reversed (Z.of_nat n) y yr ->
  reversed (Z.of_nat n) (mlo n xr yr) r -> r >> 1 = mhi n x y.
Proof.
  intros Hn Hx Hy Hr. assert (Wx : word (Z.of_nat n) x) by apply Hx. assert (Wr : word (Z.of_nat n) r) by apply Hr.
  apply (word_bits_eq (Z.of_nat n)); [lia|apply word_shr; [lia..|done]|by apply mhi_word|]. intros p Hp.
  rewrite Z.shiftr_spec, (reversed_bit (Z.of_nat n) (mlo n xr yr)) by (done || lia). unfold mhi. rewrite Z.shiftr_spec by lia.
  destruct (Z.eq_dec p (Z.of_nat n - 1)) as [->|].
  - rewrite (Z.testbit_neg_r (mlo _ _ _)) by lia. symmetry. rewrite clmul_bit by lia. apply xs_false. intros j Hj.
    rewrite (word_high (Z.of_nat n) ltac:(lia) x) by (done || lia). apply andb_false_r.
  - unfold mlo. rewrite Z.mod_pow2_bits_low by lia. rewrite (clmul_reversed n x y) by (done || lia). f_equal. lia.
Qed.

(** * The products *)

Lemma word_xor64 a b : word 64 a -> word 64 b -> word 64 (a .^ b).
Proof. by apply word_lxor. Qed.
Lemma word_xor32 a b : word 32 a -> word 32 b -> word 32 (a .^ b).
Proof. by apply word_lxor. Qed.

Lemma mhi64_rev x y : word 64 x -> word 64 y -> rev64 (bmul64 (rev64 x) (rev64 y)) >> 1 = mhi 64 x y.
Proof.
  intros Hx Hy. pose proof (rev64_ok x Hx) as Rx. pose proof (rev64_ok y Hy) as Ry.
  rewrite bmul64_ok by (apply Rx || apply Ry). apply (reversed_mhi 64 x y (rev64 x) (rev64 y)); [lia|done..|].
  apply rev64_ok, mlo_word.
Qed.

Lemma rev64_lxor x y : word 64 x -> word 64 y -> rev64 (x .^ y) = rev64 x .^ rev64 y.
Proof.
  intros Hx Hy. apply (reversed_eq 64 (x .^ y)); [lia|by apply rev64_ok, word_xor64|].
  by apply reversed_lxor; [|apply rev64_ok..].
Qed.

Lemma bmul64_word x y : word 64 x -> word 64 y -> word 64 (bmul64 x y).
Proof. intros Hx Hy. rewrite bmul64_ok by done. apply mlo_word. Qed.

Lemma quad_eq {A} (a b c d a' b' c' d' : A) : a = a' -> b = b' -> c = c' -> d = d' -> (a, b, c, d) = (a', b', c', d').
Proof. by intros -> -> -> ->. Qed.

Lemma cons_eq {A} (a b : A) l k : a = b -> l = k -> a :: l = b :: k.
Proof. by intros -> ->. Qed.

Lemma ctmul64_product_ok h0 h1 y0 y1 : word 64 h0 -> word 64 h1 -> word 64 y0 -> word 64 y1 ->
  let h0r := rev64 h0 in let h1r := rev64 h1 in
  ctmul64_product h0 h1 h0r h1r (h0 .^ h1) (h0r .^ h1r) y0 y1 =
  (mlo 64 y0 h0, mhi 64 y0 h0 .^ (mlo 64 y0 h1 .^ mlo 64 y1 h0), mlo 64 y1 h1 .^ (mhi 64 y0 h1 .^ mhi 64 y1 h0), mhi 64 y1 h1).
Proof.
  intros H0 H1 Y0 Y1 h0r h1r. unfold ctmul64_product. cbv zeta.
  unfold h0r, h1r. clear h0r h1r. rewrite <- !rev64_lxor by done.
  assert (WR : forall x, word 64 x -> word 64 (rev64 x)) by (intros x Hx; apply (rev64_ok x Hx)).
  pose proof (word_xor64 h0 h1 H0 H1) as H2. pose proof (word_xor64 y0 y1 Y0 Y1) as Y2.
  rewrite !(rev64_lxor (bmul64 _ _)) by (repeat first [apply word_xor64|apply bmul64_word|apply WR]; done).
  rewrite !Z.shiftr_lxor, !mhi64_rev, !bmul64_ok by done.
  rewrite !mlo_lxor_l, !mlo_lxor_r, !mhi_lxor_l, !mhi_lxor_r.
  apply quad_eq; xor_ring.
Qed.

(** * The reductions *)

(** The bits of the reduction of a product shifted by one bit, whose bits are
    those of the words of [w] bits of the environment. *)
Definition shift_bits (w n : Z) : list (Z * Z) := if n <=? 0 then [] else [((n - 1) / w, (n - 1) mod w)].
Definition low_bits (w n : Z) : list (Z * Z) :=
  if n <? 128 then shift_bits w n ++ shift_bits w (n - 127) ++ shift_bits w (n - 126) ++ shift_bits w (n - 121) else [].
Definition red_bits (w n : Z) : list (Z * Z) :=
  shift_bits w (n + 128) ++ low_bits w n ++ low_bits w (n + 1) ++ low_bits w (n + 2) ++ low_bits w (n + 7).

Section Red.
Context (w : Z) (l : list Z) (Hw : 0 < w) (Hl : limbs w l 0 (zlen l)).
Let v := join w l << 1.

Lemma shift_bits_ok n : Z.testbit v n = bit_sum l (shift_bits w n).
Proof.
  unfold shift_bits, v. destruct (Z.leb_spec n 0).
  - destruct (Z.eq_dec n 0) as [->|]; [|by rewrite Z.testbit_neg_r by lia]. by rewrite Z.shiftl_spec, Z.testbit_neg_r by lia.
  - rewrite Z.shiftl_spec, (join_bit w) by (done || lia). rewrite bit_sum_cons. cbn [fst snd bit_sum fold_right].
    by rewrite xorb_false_r.
Qed.

Lemma gf_red_bit m : 0 <= m < 128 -> Z.testbit (gf_red v) m = bit_sum l (red_bits w m).
Proof.
  intros Hm. unfold red_bits, gf_red. cbv zeta. set (lo := v mod 2 ^ 128).
  set (x := lo .^ ((lo << 127) .^ (lo << 126) .^ (lo << 121)) mod 2 ^ 128).
  assert (Elo : forall n, n < 128 -> Z.testbit lo n = bit_sum l (shift_bits w n)).
  { intros n Hn. rewrite <- shift_bits_ok. destruct (Z.lt_ge_cases n 0); [by rewrite !Z.testbit_neg_r by lia|].
    unfold lo. by rewrite Z.mod_pow2_bits_low by lia. }
  assert (Ex : forall n, 0 <= n -> Z.testbit x n = bit_sum l (low_bits w n)).
  { intros n Hn. unfold low_bits, x. rewrite Z.lxor_spec. destruct (Z.ltb_spec n 128).
    - rewrite Z.mod_pow2_bits_low, !Z.lxor_spec, !Z.shiftl_spec, !Elo, !bit_sum_app by lia. ring.
    - rewrite Z.mod_pow2_bits_high by lia. unfold lo. by rewrite Z.mod_pow2_bits_high by lia. }
  rewrite !Z.lxor_spec, !Z.shiftr_spec, !Ex, shift_bits_ok, !bit_sum_app by lia. ring.
Qed.

(** Words with these bits are the reduced product. *)
Lemma red_words r : limbs w r 0 (zlen r) -> w * zlen r = 128 ->
  (forall i n, 0 <= i < zlen r -> 0 <= n < w -> Z.testbit (get r i) n = bit_sum l (red_bits w (w * i + n))) ->
  word 128 (gf_red v) -> join w r = gf_red v.
Proof.
  intros Hr HL HB HV. apply (word_bits_eq 128); [done| |done|].
  - rewrite <- HL. apply join_word; [lia|done].
  - intros p Hp. rewrite (join_bit w) by (done || lia). pose proof (Z.mod_pos_bound p w Hw).
    assert (0 <= p / w < zlen r) by (split; [apply Z.div_pos; lia|apply Z.div_lt_upper_bound; lia]).
    rewrite HB, gf_red_bit by lia. f_equal. f_equal. rewrite <- Z.div_mod by lia. done.
Qed.
End Red.

Lemma gf_red_word v : word 256 v -> word 128 (gf_red v).
Proof.
  intros Hv. assert (Hh : word 128 (v >> 128)).
  { unfold word in *. rewrite shr_div by lia. split; [apply Z.div_pos; lia|]. apply Z.div_lt_upper_bound; [lia|].
    change (2 ^ 128 * 2 ^ 128) with (2 ^ 256). lia. }
  assert (Hm : forall x, word 128 (x mod 2 ^ 128)) by (intros x; apply Z.mod_pos_bound; lia).
  unfold gf_red. cbv zeta. set (x := _ .^ _ mod 2 ^ 128).
  assert (Hx : word 128 x) by (apply word_lxor; [lia|apply Hm..]).
  repeat (apply word_lxor; [lia| |]); try done; apply word_shr; done || lia.
Qed.

Lemma shl1_word v : word 255 v -> word 256 (v << 1).
Proof. unfold word. intros Hv. rewrite shl_mul by lia. change (2 ^ 256) with (2 ^ 255 * 2 ^ 1). lia. Qed.

(** The array given cell by cell. *)
Lemma cells_ok w l (P : Z -> Z -> Prop) : (forall i, 0 <= i < zlen l -> word w (get l i) /\ P i (get l i)) ->
  limbs w l 0 (zlen l) /\ forall i, 0 <= i < zlen l -> P i (get l i).
Proof. intros H. split; [intros i Hi; by apply H; lia|by intros; apply H]. Qed.

Lemma ctmul64_reduce_ok v0 v1 v2 v3 : word 64 v0 -> word 64 v1 -> word 64 v2 -> word 64 v3 ->
  word 255 (join 64 [v0; v1; v2; v3]) ->
  let '(y0, y1) := ctmul64_reduce v0 v1 v2 v3 in
  word 64 y0 /\ word 64 y1 /\ join 64 [y0; y1] = gf_red (join 64 [v0; v1; v2; v3] << 1).
Proof.
  intros H0 H1 H2 H3 HV. unfold ctmul64_reduce. cbv zeta.
  set (l := [v0; v1; v2; v3]) in *. assert (HF : Forall (word 64) l) by (repeat (constructor; [done|]); constructor).
  pose proof (forall_word 64 l ltac:(done) HF) as HW.
  match goal with |- word 64 ?a /\ word 64 ?b /\ _ => set (y0 := a); set (y1 := b) end.
  assert (L0 : layout 64 l y0 (red_bits 64)) by (subst l y0; check_layout HW).
  assert (L1 : layout 64 l y1 (fun n => red_bits 64 (64 + n))) by (subst l y1; check_layout HW).
  clearbody y0 y1. destruct L0 as [W0 B0]. destruct L1 as [W1 B1]. split; [done|]. split; [done|].
  assert (HR : forall i, 0 <= i < 2 -> word 64 (get [y0; y1] i) /\ forall n, 0 <= n < 64 -> Z.testbit (get [y0; y1] i) n = bit_sum l (red_bits 64 (64 * i + n))).
  { intros i Hi. assert (i = 0 \/ i = 1) as [-> | ->] by lia; [by split|]. by split. }
  apply red_words; [lia| |intros i Hi; apply HR; simpl in Hi; lia|done|intros i n Hi Hn; apply HR; done|by apply gf_red_word, shl1_word].
  intros i Hi. apply HW.
Qed.

(** * Products of two and four words *)

Lemma join_product n x0 x1 y0 y1 : let w := Z.of_nat n in word w y0 -> word w y1 ->
  join w [mlo n x0 y0; mhi n x0 y0 .^ (mlo n x0 y1 .^ mlo n x1 y0); mlo n x1 y1 .^ (mhi n x0 y1 .^ mhi n x1 y0); mhi n x1 y1] =
  clmul (2 * n) (join w [x0; x1]) (join w [y0; y1]).
Proof.
  intros w H0 H1. unfold w. rewrite clmul_two by done. rewrite !(clmul_halves n). cbn [join]. rewrite !Z.shiftl_0_l, !Z.lxor_0_r.
  rewrite !Z.shiftl_lxor, !Z.shiftl_shiftl by lia. replace (Z.of_nat n + 2 * Z.of_nat n) with (Z.of_nat n + Z.of_nat n + Z.of_nat n) by lia.
  replace (2 * Z.of_nat n) with (Z.of_nat n + Z.of_nat n) by lia.
  rewrite !Z.add_assoc. xor_ring.
Qed.

Lemma limbs_two w a b : word w a -> word w b -> limbs w [a; b] 0 2.
Proof. intros Ha Hb i Hi. by assert (i = 0 \/ i = 1) as [-> | ->] by lia. Qed.

Lemma ctmul64_step_ok h0 h1 y0 y1 : word 64 h0 -> word 64 h1 -> word 64 y0 -> word 64 y1 ->
  let h0r := rev64 h0 in let h1r := rev64 h1 in
  let '(v0, v1, v2, v3) := ctmul64_product h0 h1 h0r h1r (h0 .^ h1) (h0r .^ h1r) y0 y1 in
  let '(y0', y1') := ctmul64_reduce v0 v1 v2 v3 in
  word 64 y0' /\ word 64 y1' /\ join 64 [y0'; y1'] = gf_mul (join 64 [y0; y1]) (join 64 [h0; h1]).
Proof.
  intros H0 H1 Y0 Y1 h0r h1r. unfold h0r, h1r. rewrite ctmul64_product_ok by done.
  pose proof (join_product 64 y0 y1 h0 h1 H0 H1) as EP. cbv zeta in EP. change (Z.of_nat 64) with 64 in EP. change (2 * 64)%nat with 128%nat in EP.
  assert (WY : word 128 (join 64 [y0; y1])) by (apply (join_word 64); [done|by apply limbs_two]).
  assert (WH : word 128 (join 64 [h0; h1])) by (apply (join_word 64); [done|by apply limbs_two]).
  rewrite gf_mul_red by done. rewrite <- EP.
  apply ctmul64_reduce_ok; try (repeat apply word_xor64; first [apply mlo_word|by apply (mhi_word 64)]).
  rewrite EP. apply clmul_word255; done.
Qed.

(** The eight columns of the product of two arrays of four words. *)
Definition columns (x0 x1 x2 x3 y0 y1 y2 y3 : Z) : list Z :=
  let L := mlo 32 in let H := mhi 32 in
  [L x0 y0;
   L x0 y1 .^ L x1 y0 .^ H x0 y0;
   L x0 y2 .^ L x1 y1 .^ L x2 y0 .^ H x0 y1 .^ H x1 y0;
   L x0 y3 .^ L x1 y2 .^ L x2 y1 .^ L x3 y0 .^ H x0 y2 .^ H x1 y1 .^ H x2 y0;
   L x1 y3 .^ L x2 y2 .^ L x3 y1 .^ H x0 y3 .^ H x1 y2 .^ H x2 y1 .^ H x3 y0;
   L x2 y3 .^ L x3 y2 .^ H x1 y3 .^ H x2 y2 .^ H x3 y1;
   L x3 y3 .^ H x2 y3 .^ H x3 y2;
   H x3 y3].

Lemma join_pairs a b c d : join 32 [a; b; c; d] = join 64 [join 32 [a; b]; join 32 [c; d]].
Proof.
  cbn [join]. rewrite !Z.shiftl_0_l, !Z.lxor_0_r, !Z.shiftl_lxor, !Z.shiftl_shiftl by lia. change (32 + 32) with 64.
  change (32 + 64) with 96. xor_ring.
Qed.

(** Shifts by constants. *)
Ltac norm_shifts := repeat match goal with |- context [Z.shiftl ?a (?b + ?c)] =>
  let d := eval vm_compute in (b + c) in change (Z.shiftl a (b + c)) with (Z.shiftl a d) end.

Lemma join_columns x0 x1 x2 x3 y0 y1 y2 y3 : word 32 y0 -> word 32 y1 -> word 32 y2 -> word 32 y3 ->
  join 32 (columns x0 x1 x2 x3 y0 y1 y2 y3) = clmul 128 (join 32 [x0; x1; x2; x3]) (join 32 [y0; y1; y2; y3]).
Proof.
  intros H0 H1 H2 H3. rewrite !join_pairs. change 64 with (Z.of_nat 64). change 128%nat with (2 * 64)%nat. rewrite clmul_two.
  2: by apply (join_word 32); [|apply limbs_two].
  2: by apply (join_word 32); [|apply limbs_two].
  change (Z.of_nat 64) with 64. change (2 * 64) with 128.
  change 64%nat with (2 * 32)%nat. change 32 with (Z.of_nat 32). rewrite !clmul_two by done. change (Z.of_nat 32) with 32.
  change (2 * 32) with 64. rewrite !(clmul_halves 32). unfold columns. cbv zeta. cbn [join]. change (Z.of_nat 32) with 32.
  rewrite !Z.shiftl_0_l, !Z.lxor_0_r, !Z.shiftl_lxor, !Z.shiftl_shiftl by lia. norm_shifts. 
  xor_ring.
Qed.

Lemma ctmul_product_ok mul x0 x1 x2 x3 y0 y1 y2 y3 : (forall x y, word 32 x -> word 32 y -> mul x y = (mhi 32 x y, mlo 32 x y)) ->
  word 32 x0 -> word 32 x1 -> word 32 x2 -> word 32 x3 -> word 32 y0 -> word 32 y1 -> word 32 y2 -> word 32 y3 ->
  ctmul_product mul [y0; y1; y2; y3] [x0; x1; x2; x3] = columns x0 x1 x2 x3 y0 y1 y2 y3.
Proof.
  intros Hm X0 X1 X2 X3 Y0 Y1 Y2 Y3. unfold ctmul_product.
  change (get [y0; y1; y2; y3] 0) with y0. change (get [y0; y1; y2; y3] 1) with y1.
  change (get [y0; y1; y2; y3] 2) with y2. change (get [y0; y1; y2; y3] 3) with y3.
  change (get [x0; x1; x2; x3] 0) with x0. change (get [x0; x1; x2; x3] 1) with x1.
  change (get [x0; x1; x2; x3] 2) with x2. change (get [x0; x1; x2; x3] 3) with x3.
  cbv zeta. rewrite !Hm by (repeat apply word_xor32; done). cbv iota beta.
  rewrite !mlo_lxor_l, !mlo_lxor_r, !mhi_lxor_l, !mhi_lxor_r. unfold columns. cbv zeta.
  repeat (apply cons_eq; [xor_ring|]). done.
Qed.

(** ** The product of the low halves only *)

Lemma bmul32_comm x y : word 32 x -> word 32 y -> bmul32 y x = mlo 32 x y.
Proof. intros Hx Hy. rewrite bmul32_ok by done. unfold mlo. by rewrite (clmul_comm 32 y x). Qed.

Lemma bmul32_word x y : word 32 x -> word 32 y -> word 32 (bmul32 x y).
Proof. intros Hx Hy. rewrite bmul32_ok by done. apply mlo_word. Qed.

Lemma rev32_lxor x y : word 32 x -> word 32 y -> rev32 (x .^ y) = rev32 x .^ rev32 y.
Proof.
  intros Hx Hy. apply (reversed_eq 32 (x .^ y)); [lia|by apply rev32_ok, word_xor32|].
  by apply reversed_lxor; [|apply rev32_ok..].
Qed.

Lemma mhi32_rev x y : word 32 x -> word 32 y -> rev32 (bmul32 (rev32 y) (rev32 x)) >> 1 = mhi 32 x y.
Proof.
  intros Hx Hy. pose proof (rev32_ok x Hx) as Rx. pose proof (rev32_ok y Hy) as Ry.
  rewrite bmul32_comm by (apply Rx || apply Ry). apply (reversed_mhi 32 x y (rev32 x) (rev32 y)); [lia|done..|].
  apply rev32_ok, mlo_word.
Qed.

Ltac words32 := repeat first [done | apply word_xor32 | apply bmul32_word | match goal with H : forall x, _ -> word 32 (rev32 x) |- _ => apply H end].

Lemma ctmul32_product_ok x0 x1 x2 x3 y0 y1 y2 y3 :
  word 32 x0 -> word 32 x1 -> word 32 x2 -> word 32 x3 -> word 32 y0 -> word 32 y1 -> word 32 y2 -> word 32 y3 ->
  ctmul32_product (map rev32 [x0; x1; x2; x3]) [y0; y1; y2; y3] [x0; x1; x2; x3] = columns x0 x1 x2 x3 y0 y1 y2 y3.
Proof.
  intros X0 X1 X2 X3 Y0 Y1 Y2 Y3.
  assert (WR : forall x, word 32 x -> word 32 (rev32 x)) by (intros x Hx; apply (rev32_ok x Hx)).
  cbv [ctmul32_product ctmul32_operands map zip_with get nth Z.to_nat Pos.to_nat Pos.iter_op Nat.add].
  rewrite <- !rev32_lxor by words32.
  repeat match goal with |- context [rev32 (?a .^ ?b)] =>
    match a with context [bmul32] => rewrite (rev32_lxor a b) by words32 end end.
  rewrite !Z.shiftr_lxor, !mhi32_rev by words32. rewrite !bmul32_comm by words32.
  rewrite !mlo_lxor_l, !mlo_lxor_r, !mhi_lxor_l, !mhi_lxor_r. unfold columns. cbv zeta.
  repeat (apply cons_eq; [xor_ring|]). done.
Qed.

(** ** The reduction of eight words *)

Lemma words_reduce_ok d : zlen d = 8 -> limbs 32 d 0 8 -> word 255 (join 32 d) ->
  let r := words_reduce (words_shift d) in
  zlen r = 4 /\ limbs 32 r 0 4 /\ join 32 r = gf_red (join 32 d << 1).
Proof.
  intros HL Hd HV r. pose proof (limbs_word 32 d ltac:(lia)) as HW. rewrite HL in HW. specialize (HW Hd).
  assert (HR : forall i, 0 <= i < 4 -> layout 32 d (get r i) (fun n => red_bits 32 (32 * i + n))).
  { intros i Hi. subst r. destruct (eight_words d HL) as (d0 & d1 & d2 & d3 & d4 & d5 & d6 & d7 & ->).
    assert (i = 0 \/ i = 1 \/ i = 2 \/ i = 3) as [-> | [-> | [-> | ->]]] by lia;
      cbv [words_reduce words_shift reduce_step fold_left get upd insert list_insert nth Z.to_nat Pos.to_nat Pos.iter_op Nat.add Z.add Pos.add Pos.succ];
      check_layout HW. }
  assert (Lr : zlen r = 4) by done. clearbody r. split; [done|].
  assert (Wr : limbs 32 r 0 4) by (intros i Hi; apply HR; lia). split; [done|].
  apply red_words; [lia|by rewrite HL|by rewrite Lr|by rewrite Lr| |by apply gf_red_word, shl1_word].
  intros i n Hi Hn. apply (HR i); lia.
Qed.
