(* ===== verification/GhashOk.v ===== *)
(** The three implementations of GHASH promise what [Ghash.GhashSpec] states. *)
From stdpp Require Import base tactics list numbers option.
From Stdlib Require Import ZArith Lia.
From S2P Require Import Prelude CtPrims Limbs Codec Hash HashPad BitExpr Fips197 Modes Clmul Ghash GhashMul.
Local Open Scope Z_scope.
Local Open Scope cword_scope.
#[local] Opaque clmul gf_mul.

(** * Blocks and words *)

Lemma ghash_val_step H Y s : 0 < zlen s ->
  ghash_val H Y s = ghash_val H (gf_mul (Y .^ vbe (pad_block (take 16 s)) 0 16) H) (drop 16 s).
Proof.
  intros Hs. unfold ghash_val. rewrite (padded_blocks_step (length s) s) by lia. cbn [fold_left].
  by rewrite (padded_blocks_more (length s) (length (drop 16 s))) by (rewrite ?length_drop; lia).
Qed.

Lemma ghash_src_ok data buf len : 0 <= buf -> 0 < len -> buf + len <= zlen data -> bytes data buf len ->
  ok (ghash_src data buf len) (fun '(src, p, buf', len') => 0 <= p /\ p + 16 <= zlen src /\ bytes src p 16 /\
    slice src p 16 = pad_block (take 16 (slice data buf len)) /\
    0 <= buf' /\ 0 <= len' < len /\ buf' + len' <= zlen data /\ bytes data buf' len' /\
    slice data buf' len' = drop 16 (slice data buf len)).
Proof.
  intros Hb Hn Hl HB. unfold ghash_src. apply ok_cond; intros E; [apply Z.leb_le in E|apply Z.leb_gt in E].
  - apply ok_ret. split; [done|]. split; [lia|]. split; [by apply (limbs_sub 8 data buf len); [|lia..]|].
    split.
    { unfold pad_block, slice. rewrite take_take. change (Z.to_nat 16) with 16%nat. replace (16 `min` Z.to_nat len)%nat with 16%nat by lia.
      rewrite length_take, length_drop. replace (16 - _)%nat with 0%nat by lia. by rewrite app_nil_r. }
    split; [lia|]. split; [lia|]. split; [lia|]. split; [by apply (limbs_sub 8 data buf len); [|lia..]|].
    by rewrite <- (drop_slice data buf len 16) by lia.
  - cstep. apply ok_memcpy; rewrite ?length_replicate; try lia. cstep.
    assert (L1 : zlen (blit (replicate 16 0) 0 data buf len) = 16) by (rewrite zlen_blit; rewrite ?length_replicate; lia).
    apply ok_memset; [lia..|]. apply ok_ret.
    assert (ES : fillz (blit (replicate 16 0) 0 data buf len) len 0 (16 - len) = pad_block (take 16 (slice data buf len))).
    { pose proof (zlen_slice data buf len ltac:(lia) ltac:(lia) Hl) as Ls. rewrite take_ge by lia. unfold pad_block.
      apply list_eq_get; rewrite zlen_fillz by lia; [rewrite zlen_app, length_replicate; lia|]. intros i Hi.
      destruct (Z.lt_ge_cases i len).
      - rewrite get_fillz_out, get_blit_in, get_app_l, get_slice by (rewrite ?length_replicate; lia). f_equal. lia.
      - rewrite get_fillz_in, get_app_r, get_replicate by lia. done. }
    assert (BP : block 16 (pad_block (take 16 (slice data buf len)))).
    { apply block_pad; [|rewrite length_take; lia]. apply Forall_take. apply byte_string_slice; [lia|lia|done|lia]. }
    rewrite ES. destruct BP as [LP BP]. split; [done|]. split; [lia|]. split; [apply bytes_get in BP; by rewrite LP in BP|].
    split; [by apply slice_all|]. split; [lia|]. split; [lia|]. split; [lia|]. split; [intros i Hi; lia|].
    pose proof (zlen_slice data buf len ltac:(lia) ltac:(lia) Hl). rewrite drop_ge by lia. by rewrite slice_nil.
Qed.

Lemma add_lxor w a b : 0 <= w -> word w a -> a .^ (b << w) = b * 2 ^ w + a.
Proof.
  intros Hw Ha. rewrite Z.add_comm, <- shl_mul by done. symmetry. apply Z.add_nocarry_lxor.
  apply Z.bits_inj'. intros n Hn. rewrite Z.land_spec, Z.bits_0, Z.shiftl_spec by done. destruct (Z.lt_ge_cases n w).
  - rewrite (Z.testbit_neg_r b) by lia. apply andb_false_r.
  - by rewrite (word_high w Hw a).
Qed.

Lemma join_vbe2 a p : bytes a p 16 -> join 64 [vbe a (p + 8) 8; vbe a p 8] = vbe a p 16.
Proof.
  intros HB. cbn [join]. rewrite Z.shiftl_0_l, Z.lxor_0_r, add_lxor; [|done|].
  - change 16 with (8 + 8). by rewrite vbe_split by lia.
  - apply (vbe_bound a (p + 8) 8); [done|]. by apply (limbs_sub 8 a p 16); [|lia..].
Qed.

Lemma join_vbe4 a p : bytes a p 16 -> join 32 [vbe a (p + 12) 4; vbe a (p + 8) 4; vbe a (p + 4) 4; vbe a p 4] = vbe a p 16.
Proof.
  intros HB. assert (HW : forall o, 0 <= o -> o + 4 <= 16 -> word 32 (vbe a (p + o) 4)).
  { intros o Ho Ho'. apply (vbe_bound a (p + o) 4); [done|]. by apply (limbs_sub 8 a p 16); [|lia..]. }
  cbn [join]. rewrite Z.shiftl_0_l, Z.lxor_0_r, !add_lxor by (try done; apply HW; lia).
  change 16 with (4 + (4 + (4 + 4))). rewrite !vbe_split by lia. change (8 * (4 + (4 + 4))) with 96. change (8 * (4 + 4)) with 64.
  change (8 * 4) with 32. rewrite <- !Z.add_assoc. change (4 + 4) with 8. change (4 + 8) with 12.
  change (2 ^ 96) with (2 ^ 32 * 2 ^ 32 * 2 ^ 32). change (2 ^ 64) with (2 ^ 32 * 2 ^ 32). ring.
Qed.

(** The block that is encoded at the end. *)
Lemma block_out d V : zlen d = 16 -> bytes d 0 16 -> vbe d 0 16 = V -> d = be_words 16 [V] 1.
Proof. intros HL HB. apply block_of_val. split; [done|]. apply bytes_get. by rewrite HL. Qed.

(** * [br_ghash_ctmul64] *)

Lemma vbe_word a p n : 0 <= n -> bytes a p n -> word (8 * n) (vbe a p n).
Proof. intros Hn HB. by apply vbe_bound. Qed.

Lemma join2_xor w a b c d : join w [a .^ c; b .^ d] = join w [a; b] .^ join w [c; d].
Proof. cbn [join]. rewrite !Z.shiftl_0_l, !Z.lxor_0_r, Z.shiftl_lxor. xor_ring. Qed.

Lemma vbe_slice a p n : 0 <= p -> 0 <= n -> p + n <= zlen a -> vbe (slice a p n) 0 n = vbe a p n.
Proof. intros. apply vbe_ext; [done|]. intros i Hi. by rewrite Z.add_0_l, get_slice by lia. Qed.

Lemma ctmul64_loop_ok h0 h1 fuel : word 64 h0 -> word 64 h1 -> forall y0 y1 data buf len, word 64 y0 -> word 64 y1 ->
  0 <= buf -> 0 <= len < Z.of_nat fuel -> buf + len <= zlen data -> bytes data buf len ->
  ok (ctmul64_loop fuel h0 h1 (rev64 h0) (rev64 h1) (h0 .^ h1) (rev64 h0 .^ rev64 h1) y0 y1 data buf len)
    (fun '(y0', y1') => word 64 y0' /\ word 64 y1' /\
      join 64 [y0'; y1'] = ghash_val (join 64 [h0; h1]) (join 64 [y0; y1]) (slice data buf len)).
Proof.
  intros H0 H1. induction fuel as [|fuel IH]; intros y0 y1 data buf len Y0 Y1 Hb Hn Hl HB; [lia|]. cbn [ctmul64_loop].
  apply ok_cond; intros E; [apply Z.ltb_lt in E|apply Z.ltb_ge in E].
  2:{ assert (len = 0) as -> by lia. cstep. by rewrite slice_nil. }
  cstep. eapply ok_mono; [by apply ghash_src_ok; [|lia|..]|].
  intros [[[src p] buf'] len'] (Hp & Lp & Bp & Sp & Hb' & Hn' & Hl' & HB' & ES).
  assert (BH : bytes src p 8) by (by apply (limbs_sub 8 src p 16); [|lia..]).
  assert (BL : bytes src (p + 8) 8) by (by apply (limbs_sub 8 src p 16); [|lia..]).
  cstep. eapply ok_mono; [apply (codec_dec (WordCodec:=codec64be)); [done|lia|done]|]. intros xh [-> Wh].
  cstep. eapply ok_mono; [apply (codec_dec (WordCodec:=codec64be)); [lia|lia|done]|]. intros xl [-> Wl].
  pose proof (ctmul64_step_ok h0 h1 (y0 .^ vbe src (p + 8) 8) (y1 .^ vbe src p 8) H0 H1 (word_xor64 _ _ Y0 Wl) (word_xor64 _ _ Y1 Wh)) as HS.
  cbv zeta in HS. destruct (ctmul64_product _ _ _ _ _ _ _ _) as [[[v0 v1] v2] v3].
  destruct (ctmul64_reduce v0 v1 v2 v3) as [z0 z1]. destruct HS as (Z0 & Z1 & EZ).
  eapply ok_mono; [apply (IH z0 z1 data buf' len'); done || lia|]. intros [r0 r1] (R0 & R1 & ER).
  split; [done|]. split; [done|]. rewrite ER, EZ, join2_xor, join_vbe2 by done.
  rewrite (ghash_val_step _ _ (slice data buf len)) by (rewrite zlen_slice; lia).
  by rewrite ES, <- Sp, vbe_slice by lia.
Qed.

Lemma ctmul64_correct y h data pos len : block 16 y -> block 16 h -> 0 <= pos -> 0 <= len -> pos + len <= zlen data -> bytes data pos len ->
  ok (br_ghash_ctmul64 y h data pos len) (fun y' => y' = ghash h y (slice data pos len)).
Proof.
  intros [Ly By] [Lh Bh] Hp Hn Hl HB. apply bytes_get in By, Bh. rewrite Ly in By. rewrite Lh in Bh. unfold br_ghash_ctmul64.
  assert (S8 : forall a, bytes a 0 16 -> bytes a 0 8 /\ bytes a 8 8)
    by (intros a Ha; split; by apply (limbs_sub 8 a 0 16); [|lia..]).
  destruct (S8 y By) as [By0 By8]. destruct (S8 h Bh) as [Bh0 Bh8].
  cstep. eapply ok_mono; [apply (codec_dec (WordCodec:=codec64be)); [done|lia|done]|]. intros y1 [-> Y1].
  cstep. eapply ok_mono; [apply (codec_dec (WordCodec:=codec64be)); [done|lia|done]|]. intros y0 [-> Y0].
  cstep. eapply ok_mono; [apply (codec_dec (WordCodec:=codec64be)); [done|lia|done]|]. intros h1 [-> H1].
  cstep. eapply ok_mono; [apply (codec_dec (WordCodec:=codec64be)); [done|lia|done]|]. intros h0 [-> H0].
  cstep. eapply ok_mono; [apply ctmul64_loop_ok; done || lia|]. intros [r0 r1] (R0 & R1 & ER).
  rewrite !(join_vbe2 _ 0) in ER by done.
  cstep. eapply ok_mono; [apply (codec_enc (WordCodec:=codec64be)); [done|lia|done]|]. intros d (F1 & B1 & V1).
  pose proof (frame_len _ _ _ _ F1) as L1. eapply ok_mono; [apply (codec_enc (WordCodec:=codec64be)); [done|lia|done]|].
  intros d' (F2 & B2 & V2). pose proof (frame_len _ _ _ _ F2) as L2. unfold ghash.
  assert (G1 : forall i, 0 <= i < 8 -> get d' i = get d i) by (intros i Hi; apply (frame_get _ _ _ _ _ F2); lia).
  assert (BD : bytes d' 0 16).
  { intros i Hi. destruct (Z.lt_ge_cases i 8); [rewrite G1 by lia; apply B1; lia|apply B2; lia]. }
  apply block_out; [lia|done|]. rewrite <- ER, <- (join_vbe2 d' 0) by done. cbv beta in V1, V2. change (0 + 8) with 8.
  rewrite V2, (vbe_ext d' d 0 0 8), V1; [done|done|]. intros i Hi. apply G1. lia.
Qed.

(** * [br_ghash_ctmul] and [br_ghash_ctmul32] *)

Lemma four_words (q : list Z) : zlen q = 4 -> exists a b c d, q = [a; b; c; d].
Proof.
  intros H. do 4 (destruct q as [|? q]; [done|]). destruct q; [by do 4 eexists|]. simpl in H. lia.
Qed.

Lemma limbs_four w a b c d : word w a -> word w b -> word w c -> word w d -> limbs w [a; b; c; d] 0 4.
Proof. intros Ha Hb Hc Hd i Hi. by assert (i = 0 \/ i = 1 \/ i = 2 \/ i = 3) as [-> | [-> | [-> | ->]]] by lia. Qed.

(** Four words whose polynomial is [v]. *)
Definition words4 (w : list Z) (v : Z) : Prop := zlen w = 4 /\ limbs 32 w 0 4 /\ join 32 w = v.

Lemma words4_word w v : words4 w v -> word 128 v.
Proof. intros (HL & HW & <-). replace 128 with (32 * zlen w) by lia. apply join_word; [done|]. by rewrite HL. Qed.

Lemma words_in_ok a p : 0 <= p -> p + 16 <= zlen a -> bytes a p 16 -> ok (words_in a p) (fun w => words4 w (vbe a p 16)).
Proof.
  intros Hp Hl HB. assert (HS : forall o, 0 <= o -> o + 4 <= 16 -> bytes a (p + o) 4)
    by (intros o Ho Ho'; by apply (limbs_sub 8 a p 16); [|lia..]).
  pose proof (HS 0 ltac:(lia) ltac:(lia)) as HS0. rewrite Z.add_0_r in HS0. unfold words_in.
  cstep. eapply ok_mono; [apply (codec_dec (WordCodec:=codec32be)); [done|lia|done]|]. intros w3 [-> W3].
  cstep. eapply ok_mono; [apply (codec_dec (WordCodec:=codec32be)); [lia|lia|apply HS; lia]|]. intros w2 [-> W2].
  cstep. eapply ok_mono; [apply (codec_dec (WordCodec:=codec32be)); [lia|lia|apply HS; lia]|]. intros w1 [-> W1].
  cstep. eapply ok_mono; [apply (codec_dec (WordCodec:=codec32be)); [lia|lia|apply HS; lia]|]. intros w0 [-> W0].
  apply ok_ret. split; [done|]. split; [by apply limbs_four|]. by apply join_vbe4.
Qed.

Lemma words_out_ok a w v : zlen a = 16 -> words4 w v -> ok (words_out a w) (fun d => d = be_words 16 [v] 1).
Proof.
  intros La (Lw & Ww & <-). destruct (four_words w Lw) as (w0 & w1 & w2 & w3 & ->).
  pose proof (Ww 0 ltac:(lia)) as W0. pose proof (Ww 1 ltac:(lia)) as W1. pose proof (Ww 2 ltac:(lia)) as W2. pose proof (Ww 3 ltac:(lia)) as W3.
  change (word 32 w0) in W0. change (word 32 w1) in W1. change (word 32 w2) in W2. change (word 32 w3) in W3.
  unfold words_out. change (get [w0; w1; w2; w3] 3) with w3. change (get [w0; w1; w2; w3] 2) with w2.
  change (get [w0; w1; w2; w3] 1) with w1. change (get [w0; w1; w2; w3] 0) with w0.
  cstep. eapply ok_mono; [apply (codec_enc (WordCodec:=codec32be)); [done|lia|done]|]. intros d3 (F3 & B3 & V3). pose proof (frame_len _ _ _ _ F3).
  cstep. eapply ok_mono; [apply (codec_enc (WordCodec:=codec32be)); [done|lia|done]|]. intros d2 (F2 & B2 & V2). pose proof (frame_len _ _ _ _ F2).
  cstep. eapply ok_mono; [apply (codec_enc (WordCodec:=codec32be)); [done|lia|done]|]. intros d1 (F1 & B1 & V1). pose proof (frame_len _ _ _ _ F1).
  eapply ok_mono; [apply (codec_enc (WordCodec:=codec32be)); [done|lia|done]|]. intros d (F0 & B0 & V0). pose proof (frame_len _ _ _ _ F0).
  assert (G3 : forall i, 0 <= i < 4 -> get d i = get d3 i).
  { intros i Hi. by rewrite (frame_get _ _ _ _ _ F0), (frame_get _ _ _ _ _ F1), (frame_get _ _ _ _ _ F2) by lia. }
  assert (G2 : forall i, 4 <= i < 8 -> get d i = get d2 i).
  { intros i Hi. by rewrite (frame_get _ _ _ _ _ F0), (frame_get _ _ _ _ _ F1) by lia. }
  assert (G1 : forall i, 8 <= i < 12 -> get d i = get d1 i).
  { intros i Hi. by rewrite (frame_get _ _ _ _ _ F0) by lia. }
  assert (BD : bytes d 0 16).
  { intros i Hi. assert (i < 4 \/ 4 <= i < 8 \/ 8 <= i < 12 \/ 12 <= i) as [|[|[|]]] by lia.
    - rewrite G3 by lia. apply B3. lia.
    - rewrite G2 by lia. apply B2. lia.
    - rewrite G1 by lia. apply B1. lia.
    - apply B0. lia. }
  apply block_out; [lia|done|]. rewrite <- (join_vbe4 d 0) by done. cbv beta in V0, V1, V2, V3.
  change (0 + 12) with 12. change (0 + 8) with 8. change (0 + 4) with 4.
  rewrite V0, (vbe_ext d d1 8 8 4), V1, (vbe_ext d d2 4 4 4), V2, (vbe_ext d d3 0 0 4), V3; try done.
  all: intros i Hi; first [apply G3; lia|apply G2; lia|apply G1; lia].
Qed.

(** A product of four words by the words of [h]. *)
Definition product_ok (product : list Z -> list Z) (H : Z) : Prop :=
  forall yw v, words4 yw v -> zlen (product yw) = 8 /\ limbs 32 (product yw) 0 8 /\ join 32 (product yw) = clmul 128 H v.

Lemma words4_xor a b u v : words4 a u -> words4 b v -> words4 (xor_list a b) (u .^ v).
Proof.
  intros (La & Wa & <-) (Lb & Wb & <-). destruct (four_words a La) as (a0 & a1 & a2 & a3 & ->).
  destruct (four_words b Lb) as (b0 & b1 & b2 & b3 & ->). split; [done|]. split.
  - intros i Hi. rewrite get_xor_list by (simpl length; lia). apply word_xor32; [apply Wa|apply Wb]; lia.
  - change (xor_list [a0; a1; a2; a3] [b0; b1; b2; b3]) with [a0 .^ b0; a1 .^ b1; a2 .^ b2; a3 .^ b3].
    rewrite !join_pairs, !join2_xor. done.
Qed.

Lemma ctmul_step_ok product H yw v : product_ok product H -> word 128 H -> words4 yw v ->
  words4 (words_reduce (words_shift (product yw))) (gf_mul v H).
Proof.
  intros HP HH Hv. destruct (HP yw v Hv) as (LP & WP & EP). pose proof (words4_word _ _ Hv) as WV.
  destruct (words_reduce_ok (product yw) LP WP) as (LR & WR & ER).
  { rewrite EP. by apply clmul_word255. }
  split; [done|]. split; [done|]. rewrite ER, EP, gf_mul_red by done. by rewrite (clmul_comm 128 H v).
Qed.

Lemma ctmul_loop_ok product H fuel : product_ok product H -> word 128 H -> forall yw v data buf len, words4 yw v ->
  0 <= buf -> 0 <= len < Z.of_nat fuel -> buf + len <= zlen data -> bytes data buf len ->
  ok (ctmul_loop fuel product yw data buf len) (fun yw' => words4 yw' (ghash_val H v (slice data buf len))).
Proof.
  intros HP HH. induction fuel as [|fuel IH]; intros yw v data buf len Hv Hb Hn Hl HB; [lia|]. cbn [ctmul_loop].
  apply ok_cond; intros E; [apply Z.ltb_lt in E|apply Z.ltb_ge in E].
  2:{ assert (len = 0) as -> by lia. cstep. by rewrite slice_nil. }
  cstep. eapply ok_mono; [by apply ghash_src_ok; [|lia|..]|].
  intros [[[src p] buf'] len'] (Hp & Lp & Bp & Sp & Hb' & Hn' & Hl' & HB' & ES).
  cstep. eapply ok_mono; [by apply words_in_ok|]. intros x Hx.
  pose proof (ctmul_step_ok product H _ _ HP HH (words4_xor _ _ _ _ Hv Hx)) as HS.
  eapply ok_mono; [apply (IH _ _ data buf' len' HS); done || lia|]. intros yw' HY.
  rewrite (ghash_val_step _ _ (slice data buf len)) by (rewrite zlen_slice; lia).
  by rewrite <- Sp, <- ES, vbe_slice by lia.
Qed.

(** The frame of the two functions: the words of [y] and [h], the loop, and the
    words of the result. *)
Lemma ghash_frame_ok y h data pos len (body : list Z -> list Z -> list Z) : block 16 y -> block 16 h ->
  0 <= pos -> 0 <= len -> pos + len <= zlen data -> bytes data pos len ->
  (forall hw, words4 hw (vbe h 0 16) -> product_ok (body hw) (vbe h 0 16)) ->
  ok (yw ← words_in y 0; hw ← words_in h 0;
      yw ← ctmul_loop (S (Z.to_nat len)) (body hw) yw data pos len; words_out y yw)
    (fun y' => y' = ghash h y (slice data pos len)).
Proof.
  intros Hy Hh Hp Hn Hl HB HP. pose proof (vbe_block h Hh) as WH. destruct Hy as [Ly By]. destruct Hh as [Lh Bh].
  apply bytes_get in By, Bh. rewrite Ly in By. rewrite Lh in Bh.
  cstep. eapply ok_mono; [apply words_in_ok; done || lia|]. intros yw Hy.
  cstep. eapply ok_mono; [apply words_in_ok; done || lia|]. intros hw Hw.
  cstep. eapply ok_mono; [apply (ctmul_loop_ok (body hw) (vbe h 0 16) _ (HP hw Hw) WH yw (vbe y 0 16)); done || lia|]. intros yw' HY.
  by apply words_out_ok.
Qed.

(** * The products *)

Lemma columns_ok x0 x1 x2 x3 y0 y1 y2 y3 : word 32 x0 -> word 32 x1 -> word 32 x2 -> word 32 x3 ->
  limbs 32 (columns x0 x1 x2 x3 y0 y1 y2 y3) 0 8.
Proof.
  intros X0 X1 X2 X3. assert (HL : forall x y, word 32 (mlo 32 x y)) by (intros; apply mlo_word).
  assert (HH : forall x y, word 32 x -> word 32 (mhi 32 x y)) by (intros; by apply (mhi_word 32)).
  assert (HF : Forall (word 32) (columns x0 x1 x2 x3 y0 y1 y2 y3)).
  { unfold columns. cbv zeta. repeat (constructor; [repeat apply word_xor32; first [apply HL|by apply HH]|]). constructor. }
  intros i _. by apply forall_word.
Qed.

Lemma columns_product product hw H : words4 hw H ->
  (forall x0 x1 x2 x3 y0 y1 y2 y3, word 32 x0 -> word 32 x1 -> word 32 x2 -> word 32 x3 ->
    word 32 y0 -> word 32 y1 -> word 32 y2 -> word 32 y3 ->
    hw = [x0; x1; x2; x3] -> product [y0; y1; y2; y3] = columns x0 x1 x2 x3 y0 y1 y2 y3) ->
  product_ok product H.
Proof.
  intros (Lh & Wh & <-) HP yw v (Ly & Wy & <-). destruct (four_words hw Lh) as (x0 & x1 & x2 & x3 & ->).
  destruct (four_words yw Ly) as (y0 & y1 & y2 & y3 & ->).
  pose proof (Wh 0 ltac:(lia)) as X0. pose proof (Wh 1 ltac:(lia)) as X1. pose proof (Wh 2 ltac:(lia)) as X2. pose proof (Wh 3 ltac:(lia)) as X3.
  pose proof (Wy 0 ltac:(lia)) as Y0. pose proof (Wy 1 ltac:(lia)) as Y1. pose proof (Wy 2 ltac:(lia)) as Y2. pose proof (Wy 3 ltac:(lia)) as Y3.
  rewrite (HP x0 x1 x2 x3 y0 y1 y2 y3) by done. split; [done|]. split; [by apply columns_ok|]. by apply join_columns.
Qed.

Lemma ctmul_mul_ok mul y h data pos len : (forall x y, word 32 x -> word 32 y -> mul x y = (mhi 32 x y, mlo 32 x y)) ->
  block 16 y -> block 16 h -> 0 <= pos -> 0 <= len -> pos + len <= zlen data -> bytes data pos len ->
  ok (ghash_words (ctmul_product mul) y h data pos len) (fun y' => y' = ghash h y (slice data pos len)).
Proof.
  intros Hm Hy Hh Hp Hn Hl HB. unfold ghash_words. apply (ghash_frame_ok y h data pos len (fun hw yw => ctmul_product mul yw hw)); try done.
  intros hw Hw. apply (columns_product _ hw); [done|]. intros ???????? ???????? ->. by apply ctmul_product_ok.
Qed.

Lemma ctmul32_correct y h data pos len : block 16 y -> block 16 h -> 0 <= pos -> 0 <= len -> pos + len <= zlen data -> bytes data pos len ->
  ok (br_ghash_ctmul32 y h data pos len) (fun y' => y' = ghash h y (slice data pos len)).
Proof.
  intros Hy Hh Hp Hn Hl HB. unfold br_ghash_ctmul32.
  apply (ghash_frame_ok y h data pos len (fun hw yw => ctmul32_product (map rev32 hw) yw hw)); try done.
  intros hw Hw. apply (columns_product _ hw); [done|]. intros ???????? ???????? ->. by apply ctmul32_product_ok.
Qed.

(** * Leakage *)

Lemma ghash_src_ct data1 data2 buf len : ct (fun '(_, p1, b1, n1) '(_, p2, b2, n2) => p1 = p2 /\ b1 = b2 /\ n1 = n2)
  (ghash_src data1 buf len) (ghash_src data2 buf len).
Proof.
  unfold ghash_src. apply ct_cond; [done|intros _; by apply ct_ret|intros _].
  apply blind_bind; [blind_auto|intros]. apply blind_bind; [blind_auto|intros]. by apply ct_ret.
Qed.

Lemma words_in_ct a b o : blind (words_in a o) (words_in b o).
Proof. unfold words_in. blind_auto. Qed.
Lemma words_out_ct a b v w : blind (words_out a v) (words_out b w).
Proof. unfold words_out. blind_auto. Qed.
#[export] Hint Resolve words_in_ct words_out_ct : blind.

Lemma ctmul64_loop_ct fuel a0 a1 a2 a3 a4 a5 b0 b1 b2 b3 b4 b5 : forall y0 y1 z0 z1 data1 data2 buf len,
  blind (ctmul64_loop fuel a0 a1 a2 a3 a4 a5 y0 y1 data1 buf len) (ctmul64_loop fuel b0 b1 b2 b3 b4 b5 z0 z1 data2 buf len).
Proof.
  induction fuel as [|fuel IH]; intros; [by intros ??|]. cbn [ctmul64_loop].
  apply ct_cond; [done|intros _|intros _; by apply ct_ret].
  eapply ct_bind; [apply ghash_src_ct|]. intros [[[s1 p1] u1] n1] [[[s2 p2] u2] n2] (<- & <- & <-).
  apply blind_bind; [blind_auto|intros]. apply blind_bind; [blind_auto|intros]. cbv zeta.
  destruct (ctmul64_product _ _ _ _ _ _ _ _) as [[[v0 v1] v2] v3]. destruct (ctmul64_product _ _ _ _ _ _ _ _) as [[[w0 w1] w2] w3].
  destruct (ctmul64_reduce v0 v1 v2 v3), (ctmul64_reduce w0 w1 w2 w3). apply IH.
Qed.

Lemma ctmul_loop_ct fuel prod1 prod2 : forall y1 y2 data1 data2 buf len,
  blind (ctmul_loop fuel prod1 y1 data1 buf len) (ctmul_loop fuel prod2 y2 data2 buf len).
Proof.
  induction fuel as [|fuel IH]; intros; [by intros ??|]. cbn [ctmul_loop].
  apply ct_cond; [done|intros _|intros _; by apply ct_ret].
  eapply ct_bind; [apply ghash_src_ct|]. intros [[[s1 p1] u1] n1] [[[s2 p2] u2] n2] (<- & <- & <-).
  apply blind_bind; [blind_auto|intros]. apply IH.
Qed.
#[export] Hint Resolve ctmul64_loop_ct ctmul_loop_ct : blind.

(** * The instances *)

#[export] Instance ctmul64_spec : GhashSpec br_ghash_ctmul64.
Proof. split; [apply ctmul64_correct|]. intros. unfold br_ghash_ctmul64. blind_auto. Qed.
#[export] Instance ctmul_spec : GhashSpec br_ghash_ctmul.
Proof. split; [intros; apply ctmul_mul_ok; [apply bmul_ok|done..]|]. intros. unfold br_ghash_ctmul, ghash_words. blind_auto. Qed.
#[export] Instance ctmul_slow_spec : GhashSpec br_ghash_ctmul_slow.
Proof. split; [intros; apply ctmul_mul_ok; [apply bmul_slow_ok|done..]|]. intros. unfold br_ghash_ctmul_slow, ghash_words. blind_auto. Qed.
#[export] Instance ctmul32_spec : GhashSpec br_ghash_ctmul32.
Proof. split; [apply ctmul32_correct|]. intros. unfold br_ghash_ctmul32. blind_auto. Qed.

(** [C20] The four GHASH functions, which multiply with integer products of
    words with holes in four ways, all compute GHASH of SP 800-38D on any string,
    the last block completed with zeros. *)
Theorem br_ghash_equiv y h data pos len :
  block 16 y -> block 16 h -> 0 <= pos -> 0 <= len -> pos + len <= zlen data -> bytes data pos len ->
  Forall (fun gh : br_ghash => ok (gh y h data pos len) (fun y' => y' = ghash h y (slice data pos len)))
    [br_ghash_ctmul64; br_ghash_ctmul; br_ghash_ctmul_slow; br_ghash_ctmul32].
Proof. intros. repeat (apply Forall_cons_2; [by apply ghash_ok|]). constructor. Qed.

Lemma br_ghash_equiv_witness :
  ok (br_ghash_ctmul64 (replicate 16 1) (replicate 16 2) (replicate 50 3) 4 37) (fun y' => y' = ghash (replicate 16 2) (replicate 16 1) (replicate 37 3)).
Proof.
  assert (H1 : forall x, word 8 x -> block 16 (replicate 16 x)) by (intros x Hx; split; [done|by apply Forall_replicate]).
  assert (H2 : bytes (replicate 50 3) 4 37) by (by apply limbsb_limbs).
  pose proof (br_ghash_equiv (replicate 16 1) (replicate 16 2) (replicate 50 3) 4 37 (H1 1 ltac:(done)) (H1 2 ltac:(done))
    ltac:(lia) ltac:(lia) ltac:(by vm_compute) H2) as H. exact (Forall_inv H).
Defined.
