(* ===== verification/AesCt.v ===== *)
(** The bitsliced AES on 32-bit words ([src/symcipher/aes_ct.c],
    [aes_ct_enc.c], [aes_ct_dec.c]): two blocks in eight words.  The key
    schedule and the two ciphers are those of FIPS 197, in constant time. *)
From stdpp Require Import base tactics list numbers option.
From Stdlib Require Import ZArith Lia.
From S2P Require Import Prelude CtPrims Limbs Codec Hash HashPad BitExpr Fips197 AesSbox AesSlice AesKeys.
Local Open Scope Z_scope.
Local Open Scope cword_scope.

(** * Code *)

Definition br_aes_ct_bitslice_Sbox : list Z -> M (list Z) := Sbox_with 32.
Definition br_aes_ct_bitslice_invSbox : list Z -> M (list Z) := invSbox_with 32.

Definition SWAPN := SWAPN_with u32.
Definition SWAP2 := SWAPN 0x55555555 0xAAAAAAAA 1.
Definition SWAP4 := SWAPN 0x33333333 0xCCCCCCCC 2.
Definition SWAP8 := SWAPN 0x0F0F0F0F 0xF0F0F0F0 4.

Definition br_aes_ct_ortho : list Z -> M (list Z) := ortho_with SWAP2 SWAP4 SWAP8.

Definition sub_word (x : Z) : M Z :=
  q ← for_up 0 8 (fun i q => store q i x) (replicate 8 0);
  q ← br_aes_ct_ortho q;
  q ← br_aes_ct_bitslice_Sbox q;
  q ← br_aes_ct_ortho q;
  load q 0.

(** One turn of the key expansion; the state is [(skey, tmp, j, k)]. *)
Definition keysched_step (nk i : Z) (st : list Z * Z * Z * Z) : M (list Z * Z * Z * Z) :=
  let '(skey, tmp, j, k) := st in
  tmp ← mixed_word sub_word nk tmp j k;
  x ← load skey ((i - nk) << 1);
  let tmp := tmp .^ x in
  skey ← store skey ((i << 1) + 0) tmp;
  skey ← store skey ((i << 1) + 1) tmp;
  If j + 1 =? nk Then mret ((skey, tmp), 0, k + 1) Else mret ((skey, tmp), j + 1, k).

(** [br_aes_ct_keysched]: the array of compressed keys and the number of
    rounds ([0] for a length that is not allowed); the key is at [pos]. *)
Definition br_aes_ct_keysched (comp_skey key : list Z) (pos key_len : Z) : M (list Z * Z) :=
  num_rounds ← key_rounds key_len;
  If num_rounds =? 0 Then mret (comp_skey, 0) Else
  let nk := key_len >> 2 in
  let nkf := u32 ((num_rounds + 1) << 2) in
  '(skey, tmp) ← for_up 0 nk (fun i '(skey, tmp) =>
    tmp ← br_dec32le key (pos + (i << 2));
    skey ← store skey ((i << 1) + 0) tmp;
    skey ← store skey ((i << 1) + 1) tmp;
    mret (skey, tmp)) (replicate 120 0, 0);
  '(skey, tmp, j, k) ← for_up nk nkf (keysched_step nk) (skey, tmp, 0, 0);
  skey ← for_n (Z.to_nat ((nkf + 3) / 4)) 0 4 (fun i skey => at_ptr skey (i << 1) br_aes_ct_ortho) skey;
  '(comp_skey, _) ← for_up 0 nkf (fun i '(comp_skey, j) =>
    a ← load skey (j + 0);
    b ← load skey (j + 1);
    comp_skey ← store comp_skey i ((a .& 0x55555555) .| (b .& 0xAAAAAAAA));
    mret (comp_skey, j + 2)) (comp_skey, 0);
  mret (comp_skey, num_rounds).

Definition br_aes_ct_skey_expand (skey : list Z) (num_rounds : Z) (comp_skey : list Z) : M (list Z) :=
  let n := u32 ((num_rounds + 1) << 2) in
  '(skey, _) ← for_up 0 n (fun u '(skey, v) =>
    x ← load comp_skey u;
    let y := x in
    let x := x .& 0x55555555 in
    skey ← store skey (v + 0) (x .| u32 (x << 1));
    let y := y .& 0xAAAAAAAA in
    skey ← store skey (v + 1) (y .| (y >> 1));
    mret (skey, v + 2)) (skey, 0);
  mret skey.

(** ** The rounds

    The round keys are the words of [sk] from [o]. *)
Definition add_round_key : list Z -> list Z -> Z -> M (list Z) := slice_add_round_key.
(** The one of [aes_ct_dec.c] is a loop. *)
Definition dec_add_round_key : list Z -> list Z -> Z -> M (list Z) := slice_dec_add_round_key.

(** The body of the loops [for (i = 0; i < 8; i ++)] of [shift_rows] and
    [inv_shift_rows]. *)
Definition shift_rows_word (x : Z) : Z :=
  (x .& 0x000000FF)
    .| ((x .& 0x0000FC00) >> 2) .| u32 ((x .& 0x00000300) << 6)
    .| ((x .& 0x00F00000) >> 4) .| u32 ((x .& 0x000F0000) << 4)
    .| ((x .& 0xC0000000) >> 6) .| u32 ((x .& 0x3F000000) << 2).
Definition inv_shift_rows_word (x : Z) : Z :=
  (x .& 0x000000FF)
    .| u32 ((x .& 0x00003F00) << 2) .| ((x .& 0x0000C000) >> 6)
    .| u32 ((x .& 0x000F0000) << 4) .| ((x .& 0x00F00000) >> 4)
    .| u32 ((x .& 0x03000000) << 6) .| ((x .& 0xFC000000) >> 2).
Definition shift_rows (q : list Z) : M (list Z) :=
  for_up 0 8 (fun i q => x ← load q i; store q i (shift_rows_word x)) q.
Definition inv_shift_rows (q : list Z) : M (list Z) :=
  for_up 0 8 (fun i q => x ← load q i; store q i (inv_shift_rows_word x)) q.

Definition rotr16 (x : Z) : Z := u32 (x << 16) .| (x >> 16).
Definition rotr8 (x : Z) : Z := (x >> 8) .| u32 (x << 24).
Definition mix_columns : list Z -> M (list Z) := mix_columns_with rotr8 rotr16.
Definition inv_mix_columns : list Z -> M (list Z) := inv_mix_columns_with rotr8 rotr16.

#[export] Instance slice32 : SliceOps := {|
  so_Sbox := br_aes_ct_bitslice_Sbox;
  so_invSbox := br_aes_ct_bitslice_invSbox;
  so_shift_rows := shift_rows;
  so_inv_shift_rows := inv_shift_rows;
  so_mix_columns := mix_columns;
  so_inv_mix_columns := inv_mix_columns;
  so_add_round_key := add_round_key;
  so_dec_add_round_key := dec_add_round_key |}.
Definition br_aes_ct_bitslice_encrypt : Z -> list Z -> list Z -> M (list Z) := bitslice_encrypt.
Definition br_aes_ct_bitslice_decrypt : Z -> list Z -> list Z -> M (list Z) := bitslice_decrypt.

(** * Orthogonalisation *)

Lemma ortho_ok q r (Q : list Z -> Prop) : sliced 32 q ->
  (forall q', layouts 32 q q' transposed -> Q (q' ++ r)) -> ok (br_aes_ct_ortho (q ++ r)) Q.
Proof.
  intros Hq HQ. pose proof (sliced_word 32 q ltac:(lia) Hq) as HW. destruct Hq as [HL _].
  destruct (eight_words_app q r HL) as (a & b & c & d & e & f & g & h & Eq & Er). rewrite Er. subst q.
  unfold br_aes_ct_ortho, ortho_with, SWAP2, SWAP4, SWAP8, SWAPN.
  do 11 (cstep; swap_step). swap_step.
  match goal with |- Q (?a :: ?b :: ?c :: ?d :: ?e :: ?f :: ?g :: ?h :: r) =>
    apply (HQ [a; b; c; d; e; f; g; h]) end.
  split; [done|]. word_cases; check_layout HW.
Qed.

(** * The linear layers *)

Ltac slice_cases Hq :=
  let HW := fresh in pose proof (sliced_word 32 _ ltac:(lia) Hq) as HW;
  let HL := fresh in pose proof (proj1 Hq) as HL;
  let E := fresh in destruct (eight_words _ HL) as (? & ? & ? & ? & ? & ? & ? & ? & E); subst.

Lemma shift_rows_layout q : sliced 32 q ->
  ok (shift_rows q) (fun q' => layouts 32 q q' (fun i n => [(i, sr_pos 2 n)])).
Proof.
  intros Hq. eapply ok_mono; [apply map_words_ok, Hq|]. intros q' [HL' HE]. split; [done|]. intros i Hi.
  rewrite HE by done. clear HL' HE. revert i Hi. slice_cases Hq. word_cases; unfold shift_rows_word; check_layout H.
Qed.

Lemma inv_shift_rows_layout q : sliced 32 q ->
  ok (inv_shift_rows q) (fun q' => layouts 32 q q' (fun i n => [(i, isr_pos 2 n)])).
Proof.
  intros Hq. eapply ok_mono; [apply map_words_ok, Hq|]. intros q' [HL' HE]. split; [done|]. intros i Hi.
  rewrite HE by done. clear HL' HE. revert i Hi. slice_cases Hq. word_cases; unfold inv_shift_rows_word; check_layout H.
Qed.

Lemma mix_columns_layout q : sliced 32 q -> ok (mix_columns q) (fun q' => layouts 32 q q' (mix_sum 2 2 3 1 1)).
Proof.
  intros Hq. unfold mix_columns, mix_columns_with. apply load8_ok; [apply Hq|]. cbv zeta. apply store8_ok; [apply Hq|].
  slice_cases Hq. split; [done|]. word_cases; unfold rotr16, rotr8; check_layout H.
Qed.

Lemma inv_mix_columns_layout q : sliced 32 q -> ok (inv_mix_columns q) (fun q' => layouts 32 q q' (mix_sum 2 14 11 13 9)).
Proof.
  intros Hq. unfold inv_mix_columns, inv_mix_columns_with. apply load8_ok; [apply Hq|]. cbv zeta. apply store8_ok; [apply Hq|].
  slice_cases Hq. split; [done|]. word_cases; unfold rotr16, rotr8; check_layout H.
Qed.

#[export] Instance slice32_laws : SliceLaws 2 slice32.
Proof.
  split.
  - by left.
  - intros q Hq. by apply (Sbox_with_ok 32).
  - intros q Hq. by apply (invSbox_with_ok 32).
  - apply shift_rows_layout.
  - apply inv_shift_rows_layout.
  - apply mix_columns_layout.
  - apply inv_mix_columns_layout.
  - intros q sk o Hq Ho Hl Hk. by apply (slice_add_round_key_ok 32).
  - intros q sk o Hq Ho Hl Hk. by apply (slice_dec_add_round_key_ok 32).
Qed.

(** ** Words in, words out *)

(** The block [b] of the words of a pair of blocks. *)
Definition pair_block (q : list Z) (b : Z) : list Z :=
  le_words 4 [get q b; get q (2 + b); get q (4 + b); get q (6 + b)] 4.

Lemma pair_block_ok q b : aes_state (pair_block q b).
Proof. split; [done|apply le_words_bytes]. Qed.

Lemma cell_pair_block q b r c : 0 <= r < 4 -> 0 <= c < 4 -> cell (pair_block q b) r c = u8 (get q (2 * c + b) >> (8 * r)).
Proof.
  intros Hr Hc. unfold pair_block. rewrite cell_le_words by done.
  assert (c = 0 \/ c = 1 \/ c = 2 \/ c = 3) as HC by lia. by destruct HC as [->|[->|[->| ->]]].
Qed.

Lemma ortho_in q q' b : layouts 32 q q' transposed -> 0 <= b < 2 -> blk 2 q' b = pair_block q b.
Proof.
  intros HT Hb. apply state_eq; [done..|]. intros r c Hr Hc. rewrite cell_blk, cell_pair_block by done.
  unfold slice_pos. rewrite (transposed_lane 32 q q') by (done || lia). do 2 f_equal; [f_equal; zn|zn].
Qed.

Lemma ortho_out q q' b : layouts 32 q q' transposed -> 0 <= b < 2 -> pair_block q' b = blk 2 q b.
Proof.
  intros HT Hb. apply state_eq; [done..|]. intros r c Hr Hc. rewrite cell_blk, cell_pair_block by done.
  unfold slice_pos. rewrite (transposed_byte 32 q q') by (done || lia). f_equal. lia.
Qed.

(** * The key schedule *)

Lemma ortho8_ok q (Q : list Z -> Prop) : sliced 32 q ->
  (forall q', layouts 32 q q' transposed -> Q q') -> ok (br_aes_ct_ortho q) Q.
Proof. intros Hq HQ. rewrite <- (app_nil_r q). apply ortho_ok; [done|]. intros q' H. rewrite app_nil_r. by apply HQ. Qed.

Lemma sub_word_ok x : word 32 x -> ok (sub_word x) (fun y => word 32 y /\ wbytes y = sub_wd (wbytes x)).
Proof.
  intros Hx. unfold sub_word. cstep. apply (ok_for_up (fun i q => zlen q = 8 /\ forall j, 0 <= j < i -> get q j = x));
    [lia|split; [done|lia]| |].
  { intros i q Hi [HL HE]. cstep. rewrite zlen_upd. split; [done|]. intros j Hj.
    destruct (Z.eq_dec j i) as [->|]; [by rewrite get_upd_eq by lia|]. rewrite get_upd_ne by lia. apply HE. lia. }
  intros q [HL HE]. assert (Hq : sliced 32 q) by (split; [done|]; intros i Hi; by rewrite HE by lia).
  cstep. apply ortho8_ok; [done|]. intros q1 H1.
  cstep. eapply ok_mono; [apply (Sbox_with_ok 32); [lia|exact (layouts_sliced _ _ _ _ H1)]|]. intros q2 [Hq2 H2].
  cstep. apply ortho8_ok; [done|]. intros q3 H3. cstep; [rewrite (proj1 H3); lia|].
  split; [apply (layouts_sliced _ _ _ _ H3); lia|]. apply wbytes_eq; [unfold sub_wd; by rewrite length_map|].
  intros r Hr. rewrite (transposed_byte 32 q2 q3 0 r H3) by lia. rewrite H2, (transposed_lane 32 q q1 _ H1), HE by zn.
  replace ((8 * r + 0) / 8) with r by zn. rewrite <- get_wbytes by done. unfold sub_wd.
  rewrite get_map by (rewrite zlen_wbytes; lia). reflexivity.
Qed.

(** ** The expansion *)

Section Keysched.
Context (key : list Z) (nk : nat) (Hkey : byte_string key) (Hnk : nk = 4%nat \/ nk = 6%nat \/ nk = 8%nat)
  (Hlen : zlen key = 4 * Z.of_nat nk).

(** Pairs of equal words of [skey]. *)
Definition paired (skey w : list Z) (i : Z) : Prop :=
  zlen skey = 120 /\ (forall u, 0 <= u < i -> get skey (2 * u + 1) = get skey (2 * u)) /\
  holds_words (fun u => get skey (2 * u)) w i.

Lemma paired_store {A} skey w i x (f : list Z -> M A) Q : paired skey w i -> 0 <= i < 60 -> word 32 x ->
  wbytes x = slice w (4 * i) 4 -> (forall s, paired s w (i + 1) -> get s (2 * i) = x -> ok (f s) Q) ->
  ok (skey ← store skey ((i << 1) + 0) x; skey ← store skey ((i << 1) + 1) x; f skey) Q.
Proof.
  intros (HL & HP & HW) Hi Hx Hb HQ. rewrite shl_mul by lia. change (2 ^ 1) with 2.
  do 4 cstep. set (s := upd (upd skey _ _) _ _).
  assert (E : forall u, 0 <= u -> get s u = if decide (u / 2 = i) then x else get skey u).
  { intros u Hu. unfold s. destruct (Z.eq_dec u (i * 2 + 1)) as [->|].
    - rewrite get_upd_eq by (rewrite zlen_upd; lia). rewrite decide_True by zn. done.
    - rewrite get_upd_ne by lia. destruct (Z.eq_dec u (i * 2 + 0)) as [->|].
      + rewrite get_upd_eq by lia. rewrite decide_True by zn. done.
      + rewrite get_upd_ne by lia. rewrite decide_False by zn. done. }
  apply HQ; [split; [unfold s; by rewrite !zlen_upd|]|].
  split; intros u Hu; rewrite !E by lia; replace (2 * u / 2) with u by zn.
  - replace ((2 * u + 1) / 2) with u by zn. case_decide; [done|]. apply HP. lia.
  - case_decide; [by subst u|]. apply HW. lia.
  - rewrite E by lia. rewrite decide_True by zn. done.
Qed.

(** The loop that reads the key. *)
Lemma read_key_ok kbuf pos : 0 <= pos -> pos + 4 * Z.of_nat nk <= zlen kbuf -> slice kbuf pos (4 * Z.of_nat nk) = key ->
  bytes kbuf pos (4 * Z.of_nat nk) ->
  ok (for_up 0 (Z.of_nat nk) (fun i '(skey, tmp) =>
        tmp ← br_dec32le kbuf (pos + (i << 2));
        skey ← store skey ((i << 1) + 0) tmp;
        skey ← store skey ((i << 1) + 1) tmp;
        mret (skey, tmp)) (replicate 120 0, 0))
     (fun '(skey, tmp) => paired skey key (Z.of_nat nk) /\ tmp = get skey (2 * (Z.of_nat nk - 1))).
Proof.
  intros Hp Hl HE HB. eapply ok_mono.
  - apply (ok_for_up (fun i '(skey, tmp) => paired skey key i /\ (0 < i -> tmp = get skey (2 * (i - 1)))));
      [lia|split; [split; [done|split; [lia|intros u Hu; lia]]|lia]| |intros st H; exact H].
    intros i [skey tmp] Hi [HP _]. rewrite (shl_mul i 2) by lia. change (2 ^ 2) with 4. cstep.
    eapply ok_mono; [apply dec32_wbytes; [lia|lia|apply (limbs_sub 8 kbuf pos (4 * Z.of_nat nk)); [done|lia..]]|].
    intros x [Hx Ex]. apply (paired_store skey key i); [done|destruct Hnk as [->|[->| ->]]; lia|done| |].
    + rewrite Ex, <- HE. apply list_eq_get; rewrite !zlen_slice; try lia; rewrite ?zlen_slice; try lia.
      intros j Hj. rewrite !get_slice by lia. f_equal. lia.
    + intros s HP' Hg. apply ok_ret. split; [done|]. intros _. rewrite <- Hg. f_equal. lia.
  - intros [skey tmp] [HP Ht]. split; [done|]. apply Ht. destruct Hnk as [->|[->| ->]]; lia.
Qed.

(** The invariant of the loop of the expansion. *)
Definition keysched_inv (i : Z) (st : list Z * Z * Z * Z) : Prop :=
  let '(skey, tmp, j, k) := st in
  paired skey (key_words_upto key nk i) i /\ tmp = get skey (2 * (i - 1)) /\ next_turn nk i j k.

Lemma keysched_step_ok i st : Z.of_nat nk <= i < 4 * Z.of_nat nk + 28 -> keysched_inv i st ->
  ok (keysched_step (Z.of_nat nk) i st) (keysched_inv (i + 1)).
Proof.
  destruct st as [[[skey tmp] j] k]. intros Hi (HP & Ht & Hjk). unfold keysched_step. pose proof (proj1 HP) as HL.
  assert (Hi60 : i < 60) by (destruct Hnk as [E|[E|E]]; rewrite E in *; lia).
  cstep. rewrite Ht. eapply ok_mono.
  { apply (new_word_ok key nk Hkey Hnk Hlen sub_word i (fun u => get skey (2 * u)) j k); [lia|apply sub_word_ok|apply HP|apply Hjk..]. }
  intros y [Hy Ey]. rewrite (shl_mul (i - Z.of_nat nk)) by lia. change (2 ^ 1) with 2. rewrite (Z.mul_comm (i - _)).
  cstep. apply ok_load; [lia|]. cbv zeta. apply (paired_store skey (key_words_upto key nk (i + 1)) i); [|lia|done|done|].
  { destruct HP as (_ & HP & HW). split; [done|]. split; [done|]. by apply holds_words_mono; [..|lia|]. }
  intros s HP' Hg. apply (next_turn_ok key nk Hnk Hlen i); [lia|done|]. intros j' k' Hjk'. split; [done|]. split; [|done].
  rewrite <- Hg. f_equal. lia.
Qed.
End Keysched.

(** ** Round keys in bitsliced form *)

Lemma ortho_at_ok sk o Q : 0 <= o -> o + 8 <= zlen sk -> limbs 32 sk o 8 ->
  (forall sk', frame o (o + 8) sk sk' -> layouts 32 (slice sk o 8) (slice sk' o 8) transposed -> Q sk') ->
  ok (at_ptr sk o br_aes_ct_ortho) Q.
Proof.
  intros Ho Hl Hk HQ. apply ok_at_ptr; [lia|].
  assert (E : drop (Z.to_nat o) sk = slice sk o 8 ++ drop (Z.to_nat (o + 8)) sk).
  { unfold slice. replace (Z.to_nat (o + 8)) with (Z.to_nat o + Z.to_nat 8)%nat by lia.
    rewrite <- drop_drop. symmetry. apply take_drop. }
  rewrite E. assert (HS : zlen (slice sk o 8) = 8) by (apply zlen_slice; lia).
  apply ortho_ok; [split; [done|]; intros i Hi; rewrite get_slice by lia; apply Hk; lia|].
  intros q' HT. pose proof (proj1 HT) as HL'.
  assert (HF : frame o (o + 8) sk (splice sk o (q' ++ drop (Z.to_nat (o + 8)) sk))).
  { replace o with (o + 0) at 1 by lia. apply frame_splice; [lia|lia|]. rewrite E. split; [rewrite !zlen_app; lia|].
    intros j Hj Hout. rewrite !get_app_r by lia. f_equal. lia. }
  apply HQ; [exact HF|]. replace (slice (splice sk o _) o 8) with q'; [done|]. unfold slice. rewrite drop_splice by lia.
  rewrite take_app_length'; [done|lia].
Qed.

(** [skey] is [skey0] with its first [8 t] words orthogonalised. *)
Lemma ortho_loop_ok sk0 n : 8 * Z.of_nat n <= zlen sk0 -> limbs 32 sk0 0 (8 * Z.of_nat n) ->
  ok (for_n n 0 4 (fun i skey => at_ptr skey (i << 1) br_aes_ct_ortho) sk0) (fun sk => zlen sk = zlen sk0 /\
    forall u, 0 <= u < Z.of_nat n -> layouts 32 (slice sk0 (8 * u) 8) (slice sk (8 * u) 8) transposed).
Proof.
  intros Hl Hk. set (I := fun t sk => zlen sk = zlen sk0 /\
    (forall u, 0 <= u < t -> layouts 32 (slice sk0 (8 * u) 8) (slice sk (8 * u) 8) transposed) /\
    forall j, 8 * t <= j -> get sk j = get sk0 j).
  apply (ok_for_n (fun i sk => I (i / 4) sk)).
  - change (0 / 4) with 0. split; [done|]. split; [lia|done].
  - intros t sk Ht HI. replace (0 + t * 4) with (t * 4) in * by lia.
    replace ((0 + (t + 1) * 4) / 4) with (t + 1) by zn. rewrite Z.div_mul in HI by lia. destruct HI as (HL & H1 & H2).
    rewrite shl_mul by lia. replace (t * 4 * 2 ^ 1) with (8 * t) by lia.
    apply ortho_at_ok; [lia|lia| |].
    { intros j Hj. rewrite H2 by lia. apply Hk. lia. }
    intros sk' HF HT. pose proof (frame_len _ _ _ _ HF). split; [lia|]. split.
    + intros u Hu. destruct (Z.eq_dec u t) as [->|].
      * replace (slice sk0 (8 * t) 8) with (slice sk (8 * t) 8); [done|].
        apply list_eq_get; rewrite !zlen_slice by lia; [done|]. intros j Hj. rewrite !get_slice by lia. apply H2. lia.
      * replace (slice sk' (8 * u) 8) with (slice sk (8 * u) 8); [apply H1; lia|].
        symmetry. apply (slice_frame _ _ _ _ _ _ HF); lia.
    + intros j Hj. rewrite (frame_get _ _ _ _ j HF) by lia. apply H2. lia.
  - intros sk HI. replace ((0 + Z.of_nat n * 4) / 4) with (Z.of_nat n) in HI by zn.
    destruct HI as (HL & H1 & _). done.
Qed.

(** Compressed round keys: the word [4 u + j] has at the bit [8 r + 2 c + b] the
    bit [2 j + b] of the byte of row [r] and column [c] of the round key [u]. *)
Definition compressed (comp w : list Z) (nr : Z) : Prop :=
  4 * (nr + 1) <= zlen comp /\ forall u j, 0 <= u <= nr -> 0 <= j < 4 -> word 32 (get comp (4 * u + j)) /\
    forall r c b, 0 <= r < 4 -> 0 <= c < 4 -> 0 <= b < 2 ->
      Z.testbit (get comp (4 * u + j)) (8 * r + 2 * c + b) = Z.testbit (get w (16 * u + 4 * c + r)) (2 * j + b).

(** What the array has after the ortho loop: the rows of the key bytes. *)
Definition ortho_keys (sk w : list Z) (nr : Z) : Prop :=
  8 * (nr + 1) <= zlen sk /\ forall u i, 0 <= u <= nr -> 0 <= i < 8 -> word 32 (get sk (8 * u + i)) /\
    forall r c b, 0 <= r < 4 -> 0 <= c < 4 -> 0 <= b < 2 ->
      Z.testbit (get sk (8 * u + i)) (8 * r + 2 * c + b) = Z.testbit (get w (16 * u + 4 * c + r)) i.

Lemma paired_ortho sk0 sk w nr : 0 <= nr -> nr <= 14 -> paired sk0 w (4 * (nr + 1)) -> zlen w = 16 * (nr + 1) ->
  zlen sk = zlen sk0 ->
  (forall u, 0 <= u < nr + 1 -> layouts 32 (slice sk0 (8 * u) 8) (slice sk (8 * u) 8) transposed) ->
  ortho_keys sk w nr.
Proof.
  intros Hnr Hnr' (HL & HP & HW') HZ HL' HT. split; [lia|]. intros u i Hu Hi.
  destruct (HT u ltac:(lia)) as [_ HTi]. destruct (HTi i Hi) as [HW HB]. rewrite get_slice in HW, HB by lia.
  split; [exact HW|]. intros r c b Hr Hc Hb. rewrite HB by lia. unfold transposed.
  rewrite bit_sum_cons. cbn [fst snd bit_sum fold_right]. rewrite xorb_false_r.
  replace ((8 * r + 2 * c + b) mod 8) with (2 * c + b) by zn.
  replace (8 * r + 2 * c + b - (2 * c + b) + i) with (8 * r + i) by lia.
  rewrite get_slice by lia. pose proof (HP (4 * u + c) ltac:(lia)) as He. destruct (HW' (4 * u + c) ltac:(lia)) as (Hw & Hb').
  assert (E : get sk0 (8 * u + (2 * c + b)) = get sk0 (2 * (4 * u + c))).
  { assert (b = 0 \/ b = 1) as [->| ->] by lia; [f_equal; lia|]. rewrite <- He. f_equal. lia. }
  rewrite E, <- u8_shr_bit, <- get_wbytes, Hb', get_slice by lia. f_equal. f_equal. lia.
Qed.

(** The compression keeps the even bits of the even words and the odd bits of
    the odd ones. *)
Lemma compress_ok a b x : word 32 a -> word 32 b -> x = (a .& 0x55555555) .| (b .& 0xAAAAAAAA) ->
  word 32 x /\ forall n, 0 <= n < 32 -> Z.testbit x n = Z.testbit (if decide (n mod 2 = 0) then a else b) n.
Proof.
  intros Ha Hb ->. assert (HW : forall i, word 32 (get [a; b] i)).
  { apply limbs_word; [lia|]. intros i Hi. simpl in Hi. by assert (i = 0 \/ i = 1) as [->| ->] by lia. }
  assert (H : layout 32 [a; b] ((a .& 0x55555555) .| (b .& 0xAAAAAAAA)) (fun n => [(n mod 2, n)])) by (check_layout HW).
  destruct H as [Hx H]. split; [done|]. intros n Hn. rewrite H by done. rewrite bit_sum_cons.
  cbn [fst snd bit_sum fold_right]. rewrite xorb_false_r. f_equal.
  case_decide as E; [by rewrite E|]. by replace (n mod 2) with 1 by zn.
Qed.

Lemma expand_word_ok x y d : word 32 x -> (d = 0 /\ y = (x .& 0x55555555) .| u32 ((x .& 0x55555555) << 1) \/
    d = 1 /\ y = (x .& 0xAAAAAAAA) .| ((x .& 0xAAAAAAAA) >> 1)) ->
  word 32 y /\ forall n, 0 <= n < 32 -> Z.testbit y n = Z.testbit x (n - n mod 2 + d).
Proof.
  intros Hx H. assert (HW : forall i, word 32 (get [x] i)).
  { apply limbs_word; [lia|]. intros i Hi. simpl in Hi. by replace i with 0 by lia. }
  assert (HL : layout 32 [x] y (fun n => [(0, n - n mod 2 + d)])) by (destruct H as [[-> ->]|[-> ->]]; check_layout HW).
  destruct HL as [Hy HL]. split; [done|]. intros n Hn. rewrite HL by done. rewrite bit_sum_cons.
  cbn [fst snd bit_sum fold_right]. by rewrite xorb_false_r.
Qed.

Lemma compress_loop_ok comp sk n w nr : n = 4 * (nr + 1) -> 0 <= nr -> n <= zlen comp -> ortho_keys sk w nr ->
  ok (for_up 0 n (fun i '(comp_skey, j) =>
        a ← load sk (j + 0);
        b ← load sk (j + 1);
        comp_skey ← store comp_skey i ((a .& 0x55555555) .| (b .& 0xAAAAAAAA));
        mret (comp_skey, j + 2)) (comp, 0))
    (fun '(c, _) => zlen c = zlen comp /\ compressed c w nr).
Proof.
  intros En Hnr Hl [Hs HK].
  apply (ok_for_up (fun i '(c, j) => zlen c = zlen comp /\ j = 2 * i /\ forall m, 0 <= m < i ->
    get c m = (get sk (2 * m) .& 0x55555555) .| (get sk (2 * m + 1) .& 0xAAAAAAAA))).
  - lia.
  - split; [done|]. split; [done|lia].
  - intros i [c j] Hi (HL & -> & HE). do 7 cstep. rewrite zlen_upd. split; [done|]. split; [lia|].
    intros m Hm. destruct (Z.eq_dec m i) as [->|].
    + rewrite get_upd_eq by lia. by rewrite Z.add_0_r.
    + rewrite get_upd_ne by lia. apply HE. lia.
  - intros [c j] (HL & _ & HE). split; [done|]. split; [lia|]. intros u i Hu Hi.
    destruct (HK u (2 * i) Hu ltac:(lia)) as [Ha HBa]. destruct (HK u (2 * i + 1) Hu ltac:(lia)) as [Hb HBb].
    replace (8 * u + 2 * i) with (2 * (4 * u + i)) in * by lia.
    replace (8 * u + (2 * i + 1)) with (2 * (4 * u + i) + 1) in * by lia.
    destruct (compress_ok _ _ _ Ha Hb (HE (4 * u + i) ltac:(lia))) as [Hx HB]. split; [exact Hx|].
    intros r c' b Hr Hc Hb'. rewrite HB by lia. assert (b = 0 \/ b = 1) as [->| ->] by lia.
    + rewrite decide_True by zn. rewrite (HBa r c' 0) by lia. f_equal. lia.
    + rewrite decide_False by zn. by rewrite (HBb r c' 1) by lia.
Qed.

Lemma keysched_ok comp kbuf pos len : aes_key_len len -> 60 <= zlen comp -> 0 <= pos -> pos + len <= zlen kbuf ->
  bytes kbuf pos len ->
  ok (br_aes_ct_keysched comp kbuf pos len) (fun '(c, nr) => nr = aes_rounds len /\ zlen c = zlen comp /\
    compressed c (aes_expanded (slice kbuf pos len)) nr).
Proof.
  intros Hlen Hc Hp Hl HB. unfold br_aes_ct_keysched.
  set (key := slice kbuf pos len). pose proof (aes_rounds_range len Hlen) as Hnr. set (nr := aes_rounds len) in *.
  destruct (schedule_bounds len _ Hlen eq_refl) as (Enk & Hnk & Hnr4). set (nk := Z.to_nat (len / 4)) in *. fold nr in Hnr4.
  assert (Hkl : zlen key = len) by (apply zlen_slice; lia).
  assert (Hkey : byte_string key) by (apply byte_string_slice; [lia|lia|done|done]).
  cstep. eapply ok_mono; [by apply key_rounds_ok|]. fold nr. intros n ->.
  apply ok_cond; intros E; [apply Z.eqb_eq in E; lia|clear E]. cbv zeta.
  rewrite shr_div by lia. change (2 ^ 2) with 4. replace (len / 4) with (Z.of_nat nk) by lia.
  rewrite (shl_mul (nr + 1)) by lia. change (2 ^ 2) with 4. rewrite u32_small by (unfold word; lia).
  rewrite (Z.mul_comm (nr + 1)).
  cstep. eapply ok_mono; [apply (read_key_ok key nk Hnk ltac:(lia) kbuf pos); [lia|lia|by rewrite <- Enk|by rewrite <- Enk]|].
  intros [skey tmp] [HP Ht].
  cstep. apply (ok_mono _ (keysched_inv key nk (4 * (nr + 1)))).
  { apply (ok_for_up (fun i st => keysched_inv key nk i st)); [lia| | |done].
    - split; [by rewrite key_words_none|]. split; [done|]. unfold next_turn. rewrite Z.mod_same, Z.div_same by lia. done.
    - intros i st Hi HI. apply (keysched_step_ok key nk Hkey Hnk ltac:(lia)); [lia|done]. }
  intros [[[sk0 tmp'] j] k] (HP' & _).
  set (w := aes_expanded key).
  assert (Ew : key_words_upto key nk (4 * (nr + 1)) = w)
    by (unfold nr; rewrite <- Hkl; apply key_words_all; by rewrite Hkl).
  rewrite Ew in HP'.
  assert (HZ : zlen w = 16 * (nr + 1)) by (unfold w; rewrite (proj2 (aes_expanded_ok key Hkey ltac:(by rewrite Hkl))), Hkl; done).
  assert (Hk0 : limbs 32 sk0 0 (8 * (nr + 1))).
  { intros i Hi. destruct HP' as (_ & H2 & H3). destruct (H3 (i / 2) ltac:(zn)) as (H1 & _).
    assert (i = 2 * (i / 2) \/ i = 2 * (i / 2) + 1) as [E|E] by zn; rewrite E; [done|rewrite H2 by zn; done]. }
  cstep. replace (Z.to_nat ((4 * (nr + 1) + 3) / 4)) with (Z.to_nat (nr + 1)) by (f_equal; zn).
  eapply ok_mono.
  { apply (ortho_loop_ok sk0 (Z.to_nat (nr + 1))); rewrite Z2Nat.id by lia; [rewrite (proj1 HP'); lia|done]. }
  intros sk [HL HT]. rewrite Z2Nat.id in HT by lia.
  cstep. eapply ok_mono; [apply (compress_loop_ok comp sk _ w nr); [done|lia|lia|]|].
  { apply (paired_ortho sk0); try done; lia. }
  intros [c j'] [HLc HC]. apply ok_ret. done.
Qed.

(** ** Decompression *)

Lemma expanded_keys sk comp w nr : 0 <= nr -> compressed comp w nr -> byte_string w -> zlen w = 16 * (nr + 1) ->
  8 * (nr + 1) <= zlen sk ->
  (forall m, 0 <= m < 4 * (nr + 1) ->
    get sk (2 * m) = (get comp m .& 0x55555555) .| u32 ((get comp m .& 0x55555555) << 1) /\
    get sk (2 * m + 1) = (get comp m .& 0xAAAAAAAA) .| ((get comp m .& 0xAAAAAAAA) >> 1)) ->
  sliced_keys 2 sk w nr.
Proof.
  intros Hnr [Hc HC] Hw HZ Hl HE. split; [done|].
  assert (HB : forall u i, 0 <= u <= nr -> 0 <= i < 8 -> word 32 (get sk (8 * u + i)) /\
    forall r c b, 0 <= r < 4 -> 0 <= c < 4 -> 0 <= b < 2 ->
      Z.testbit (get sk (8 * u + i)) (8 * r + 2 * c + b) = Z.testbit (get w (16 * u + 4 * c + r)) i).
  { intros u i Hu Hi. set (m := 4 * u + i / 2). assert (Hm : 0 <= i / 2 < 4) by zn.
    destruct (HC u (i / 2) Hu Hm) as [Hx HX]. destruct (HE m ltac:(unfold m; lia)) as [E0 E1].
    assert (HY : word 32 (get sk (8 * u + i)) /\ forall n, 0 <= n < 32 ->
      Z.testbit (get sk (8 * u + i)) n = Z.testbit (get comp m) (n - n mod 2 + i mod 2)).
    { apply expand_word_ok; [exact Hx|]. assert (i mod 2 = 0 \/ i mod 2 = 1) as [Em|Em] by zn.
      - left. split; [done|]. rewrite <- E0. f_equal. unfold m. zn.
      - right. split; [done|]. rewrite <- E1. f_equal. unfold m. zn. }
    destruct HY as [Hy HY]. split; [exact Hy|]. intros r c b Hr Hc' Hb. rewrite HY by lia.
    replace (8 * r + 2 * c + b - (8 * r + 2 * c + b) mod 2 + i mod 2) with (8 * r + 2 * c + i mod 2) by zn.
    unfold m. rewrite HX by zn. f_equal. zn. }
  split.
  - intros k Hk. replace k with (8 * (k / 8) + k mod 8) by zn. apply HB; zn.
  - intros u b Hu Hb. apply state_eq; [done|apply zlen_slice; lia|]. intros r c Hr Hc'. rewrite cell_blk by done.
    unfold cell, round_key. rewrite get_slice by lia. apply lane_eq; [apply bytes_get in Hw; apply Hw; lia|].
    intros i Hi. rewrite get_slice by lia. unfold slice_pos. rewrite (proj2 (HB u i Hu Hi)) by done. f_equal. f_equal. lia.
Qed.

Lemma skey_expand_ok sk comp w nr : 0 <= nr < 2 ^ 16 -> compressed comp w nr -> byte_string w -> zlen w = 16 * (nr + 1) ->
  8 * (nr + 1) <= zlen sk ->
  ok (br_aes_ct_skey_expand sk nr comp) (fun sk => sliced_keys 2 sk w nr).
Proof.
  intros Hnr HC Hw HZ Hl. unfold br_aes_ct_skey_expand. rewrite shl_mul by lia. change (2 ^ 2) with 4.
  rewrite u32_small by (unfold word; lia). cbv zeta. cstep. eapply ok_mono.
  - apply (ok_for_up (fun i '(s, v) => zlen s = zlen sk /\ v = 2 * i /\ forall m, 0 <= m < i ->
      get s (2 * m) = (get comp m .& 0x55555555) .| u32 ((get comp m .& 0x55555555) << 1) /\
      get s (2 * m + 1) = (get comp m .& 0xAAAAAAAA) .| ((get comp m .& 0xAAAAAAAA) >> 1)));
      [lia|split; [done|split; [done|lia]]| |intros st H; exact H].
    intros i [s v] Hi (HL & -> & HE). destruct HC as [HcL _]. do 7 cstep. rewrite !zlen_upd. split; [done|]. split; [lia|].
    intros m Hm. destruct (Z.eq_dec m i) as [->|].
    + rewrite (get_upd_eq _ (2 * i + 1)) by (rewrite zlen_upd; lia).
      rewrite get_upd_ne by lia. rewrite Z.add_0_r, get_upd_eq by lia. done.
    + rewrite !get_upd_ne by lia. apply HE. lia.
  - intros [s v] (HL & _ & HE). apply ok_ret. apply (expanded_keys s comp); try done; [lia|lia|].
    intros m Hm. apply HE. lia.
Qed.

(** * Two blocks through the cipher *)

(** The expanded round keys of an AES key. *)
Definition aes_ct_keys (sk key : list Z) : Prop :=
  byte_string key /\ aes_key_len (zlen key) /\ sliced_keys 2 sk (aes_expanded key) (aes_rounds (zlen key)).

Lemma encrypt_pair_ok sk key q : aes_ct_keys sk key -> sliced 32 q ->
  ok (q ← br_aes_ct_ortho q;
      q ← br_aes_ct_bitslice_encrypt (aes_rounds (zlen key)) sk q;
      br_aes_ct_ortho q)
    (fun q' => sliced 32 q' /\ forall b, 0 <= b < 2 -> pair_block q' b = aes key (pair_block q b)).
Proof.
  intros (Hk & HL & HS) Hq. pose proof (aes_rounds_range _ HL).
  cstep. apply ortho8_ok; [done|]. intros q1 H1.
  cstep. eapply ok_mono.
  { apply (bitslice_encrypt_ok (SL:=slice32_laws) sk (aes_expanded key) (aes_rounds (zlen key)) ltac:(lia) HS q1 (pair_block q)).
    split; [exact (layouts_sliced _ _ _ _ H1)|]. intros b Hb. by apply ortho_in. }
  intros q2 [Hq2 H2]. apply ortho8_ok; [exact Hq2|]. intros q3 H3. split; [exact (layouts_sliced _ _ _ _ H3)|].
  intros b Hb. rewrite (ortho_out q2 q3 b H3 Hb). by apply H2.
Qed.

Lemma decrypt_pair_ok sk key q : aes_ct_keys sk key -> sliced 32 q ->
  ok (q ← br_aes_ct_ortho q;
      q ← br_aes_ct_bitslice_decrypt (aes_rounds (zlen key)) sk q;
      br_aes_ct_ortho q)
    (fun q' => sliced 32 q' /\ forall b, 0 <= b < 2 -> pair_block q' b = aes_inv key (pair_block q b)).
Proof.
  intros (Hk & HL & HS) Hq. pose proof (aes_rounds_range _ HL).
  cstep. apply ortho8_ok; [done|]. intros q1 H1.
  cstep. eapply ok_mono.
  { apply (bitslice_decrypt_ok (SL:=slice32_laws) sk (aes_expanded key) (aes_rounds (zlen key)) ltac:(lia) HS q1 (pair_block q)).
    split; [exact (layouts_sliced _ _ _ _ H1)|]. intros b Hb. by apply ortho_in. }
  intros q2 [Hq2 H2]. apply ortho8_ok; [exact Hq2|]. intros q3 H3. split; [exact (layouts_sliced _ _ _ _ H3)|].
  intros b Hb. rewrite (ortho_out q2 q3 b H3 Hb). by apply H2.
Qed.

(** * Leakage: the number of rounds only *)

Lemma ortho_ct q1 q2 : blind (br_aes_ct_ortho q1) (br_aes_ct_ortho q2).
Proof. unfold br_aes_ct_ortho, ortho_with, SWAP2, SWAP4, SWAP8, SWAPN. blind_auto. Qed.
#[export] Hint Resolve ortho_ct : blind.

#[export] Instance slice32_ct : SliceCt slice32.
Proof.
  split; intros; cbn [slice32 so_Sbox so_invSbox so_shift_rows so_inv_shift_rows so_mix_columns so_inv_mix_columns
    so_add_round_key so_dec_add_round_key].
  - apply Sbox_with_ct.
  - apply invSbox_with_ct.
  - unfold shift_rows. blind_auto.
  - unfold inv_shift_rows. blind_auto.
  - apply mix_columns_with_ct.
  - apply inv_mix_columns_with_ct.
  - blind_auto.
  - blind_auto.
Qed.

Lemma encrypt_ct nr k1 k2 q1 q2 : blind (br_aes_ct_bitslice_encrypt nr k1 q1) (br_aes_ct_bitslice_encrypt nr k2 q2).
Proof. apply (bitslice_encrypt_ct (SC:=slice32_ct)). Qed.
Lemma decrypt_ct nr k1 k2 q1 q2 : blind (br_aes_ct_bitslice_decrypt nr k1 q1) (br_aes_ct_bitslice_decrypt nr k2 q2).
Proof. apply (bitslice_decrypt_ct (SC:=slice32_ct)). Qed.
#[export] Hint Resolve encrypt_ct decrypt_ct : blind.

Lemma sub_word_ct x y : blind (sub_word x) (sub_word y).
Proof.
  unfold sub_word. apply blind_bind; [blind_auto|intros]. apply blind_bind; [blind_auto|intros].
  apply blind_bind; [apply Sbox_with_ct|intros]. blind_auto.
Qed.
#[export] Hint Resolve sub_word_ct : blind.

(** The turns of the expansion depend on the counters only. *)
Definition same_turn (s1 s2 : list Z * Z * Z * Z) : Prop := s1.1.2 = s2.1.2 /\ s1.2 = s2.2.

Lemma keysched_step_ct nk i s1 s2 : same_turn s1 s2 -> ct same_turn (keysched_step nk i s1) (keysched_step nk i s2).
Proof.
  destruct s1 as [[[a1 t1] j1] k1], s2 as [[[a2 t2] j2] k2]. intros [E1 E2]. cbn in E1, E2. subst j2 k2.
  unfold keysched_step. apply blind_bind; [apply mixed_word_ct, sub_word_ct|intros].
  do 3 (apply blind_bind; [blind_auto|intros]).
  apply ct_cond; [done|intros _|intros _]; by apply ct_ret.
Qed.

Lemma keysched_ct c1 c2 k1 k2 pos len :
  ct (fun x y => x.2 = y.2) (br_aes_ct_keysched c1 k1 pos len) (br_aes_ct_keysched c2 k2 pos len).
Proof.
  unfold br_aes_ct_keysched. eapply ct_bind; [apply ct_refl|]. intros nr ? <-.
  apply ct_cond; [done|intros _; by apply ct_ret|intros _]. cbv zeta.
  apply blind_bind; [blind_auto|intros [a1 t1] [a2 t2]].
  eapply (ct_bind same_turn); [apply ct_for_up; [done..|]; intros; by apply keysched_step_ct|].
  intros [[[b1 u1] j1] m1] [[[b2 u2] j2] m2] _.
  apply blind_bind.
  { apply ct_for_n; [done..|]. intros i x y _. eapply ct_at_ptr. blind_auto. }
  intros d1 d2.
  eapply (ct_bind (fun x y => x.2 = y.2)).
  { apply ct_for_up; [done..|]. intros i [x j] [y ?] E. cbn in E. subst.
    do 3 (apply blind_bind; [blind_auto|intros]). by apply ct_ret. }
  intros [e1 j] [e2 ?] _. by apply ct_ret.
Qed.

Lemma skey_expand_ct s1 s2 nr c1 c2 : blind (br_aes_ct_skey_expand s1 nr c1) (br_aes_ct_skey_expand s2 nr c2).
Proof.
  unfold br_aes_ct_skey_expand. cbv zeta. apply blind_bind; [|intros [??] [??]; apply blind_ret].
  eapply blind_mono. apply (ct_for_up (fun x y => x.2 = y.2)); [done..|]. intros i [x j] [y ?] E. cbn in E. subst.
  do 3 (apply blind_bind; [blind_auto|intros]). by apply ct_ret.
Qed.
#[export] Hint Resolve skey_expand_ct : blind.
