(* ===== verification/AesCt64.v ===== *)
(** The bitsliced AES on 64-bit words ([src/symcipher/aes_ct64.c],
    [aes_ct64_enc.c], [aes_ct64_dec.c]): four blocks in eight words, whose
    bytes are interleaved first.  The key schedule and the two ciphers are those
    of FIPS 197, in constant time. *)
From stdpp Require Import base tactics list numbers option.
From Stdlib Require Import ZArith Lia.
From S2P Require Import Prelude CtPrims Limbs Codec Hash HashPad BitExpr Fips197 AesSbox AesSlice AesKeys.
Local Open Scope Z_scope.
Local Open Scope cword_scope.

(** * Code *)

Definition br_aes_ct64_bitslice_Sbox : list Z -> M (list Z) := Sbox_with 64.
Definition br_aes_ct64_bitslice_invSbox : list Z -> M (list Z) := invSbox_with 64.

Definition SWAPN := SWAPN_with u64.
Definition SWAP2 := SWAPN 0x5555555555555555 0xAAAAAAAAAAAAAAAA 1.
Definition SWAP4 := SWAPN 0x3333333333333333 0xCCCCCCCCCCCCCCCC 2.
Definition SWAP8 := SWAPN 0x0F0F0F0F0F0F0F0F 0xF0F0F0F0F0F0F0F0 4.

Definition br_aes_ct64_ortho : list Z -> M (list Z) := ortho_with SWAP2 SWAP4 SWAP8.

(** The two halves of [br_aes_ct64_interleave_in] on one word, and of
    [br_aes_ct64_interleave_out]. *)
Definition spread (x : Z) : Z :=
  let x := x .| u64 (x << 16) in
  let x := x .& 0x0000FFFF0000FFFF in
  let x := x .| u64 (x << 8) in
  x .& 0x00FF00FF00FF00FF.
Definition gather (x : Z) : Z :=
  let x := x .| (x >> 8) in
  let x := x .& 0x0000FFFF0000FFFF in
  u32 x .| u32 (x >> 16).

(** The words at [o] of [w] go to the words [i] and [j] of [q]. *)
Definition br_aes_ct64_interleave_in (q : list Z) (i j : Z) (w : list Z) (o : Z) : M (list Z) :=
  x0 ← load w o;
  x1 ← load w (o + 1);
  x2 ← load w (o + 2);
  x3 ← load w (o + 3);
  q ← store q i (spread x0 .| u64 (spread x2 << 8));
  store q j (spread x1 .| u64 (spread x3 << 8)).
Definition br_aes_ct64_interleave_out (w : list Z) (o q0 q1 : Z) : M (list Z) :=
  let x0 := q0 .& 0x00FF00FF00FF00FF in
  let x1 := q1 .& 0x00FF00FF00FF00FF in
  let x2 := (q0 >> 8) .& 0x00FF00FF00FF00FF in
  let x3 := (q1 >> 8) .& 0x00FF00FF00FF00FF in
  w ← store w o (gather x0);
  w ← store w (o + 1) (gather x1);
  w ← store w (o + 2) (gather x2);
  store w (o + 3) (gather x3).

Definition sub_word (x : Z) : M Z :=
  q ← memset (replicate 8 0) 0 0 8;
  q ← store q 0 x;
  q ← br_aes_ct64_ortho q;
  q ← br_aes_ct64_bitslice_Sbox q;
  q ← br_aes_ct64_ortho q;
  x ← load q 0;
  mret (u32 x).

(** One turn of the key expansion; the state is [(skey, tmp, j, k)]. *)
Definition keysched_step (nk i : Z) (st : list Z * Z * Z * Z) : M (list Z * Z * Z * Z) :=
  let '(skey, tmp, j, k) := st in
  tmp ← mixed_word sub_word nk tmp j k;
  x ← load skey (i - nk);
  let tmp := tmp .^ x in
  skey ← store skey i tmp;
  If j + 1 =? nk Then mret ((skey, tmp), 0, k + 1) Else mret ((skey, tmp), j + 1, k).

(** One bit of each of the words [h], ..., [h + 3] in every four bits. *)
Definition compress_word (q : list Z) (h : Z) : M Z :=
  a ← load q h;
  b ← load q (h + 1);
  c ← load q (h + 2);
  d ← load q (h + 3);
  mret ((a .& 0x1111111111111111) .| (b .& 0x2222222222222222)
    .| (c .& 0x4444444444444444) .| (d .& 0x8888888888888888)).

(** One turn of the compression; the state is [(comp_skey, j)]. *)
Definition compress_step (skey : list Z) (i : Z) (st : list Z * Z) : M (list Z * Z) :=
  let '(comp_skey, j) := st in
  q ← br_aes_ct64_interleave_in (replicate 8 0) 0 4 skey i;
  x ← load q 0; q ← store q 1 x;
  x ← load q 0; q ← store q 2 x;
  x ← load q 0; q ← store q 3 x;
  x ← load q 4; q ← store q 5 x;
  x ← load q 4; q ← store q 6 x;
  x ← load q 4; q ← store q 7 x;
  q ← br_aes_ct64_ortho q;
  x ← compress_word q 0;
  comp_skey ← store comp_skey (j + 0) x;
  x ← compress_word q 4;
  comp_skey ← store comp_skey (j + 1) x;
  mret (comp_skey, j + 2).

(** [br_aes_ct64_keysched]: the array of compressed keys and the number of
    rounds ([0] for a length that is not allowed); the key is at [pos]. *)
Definition br_aes_ct64_keysched (comp_skey key : list Z) (pos key_len : Z) : M (list Z * Z) :=
  num_rounds ← key_rounds key_len;
  If num_rounds =? 0 Then mret (comp_skey, 0) Else
  let nk := key_len >> 2 in
  let nkf := u32 ((num_rounds + 1) << 2) in
  skey ← br_range_dec32le (replicate 60 0) (key_len >> 2) key pos;
  tmp ← load skey ((key_len >> 2) - 1);
  '(skey, tmp, j, k) ← for_up nk nkf (keysched_step nk) (skey, tmp, 0, 0);
  '(comp_skey, _) ← for_n (Z.to_nat ((nkf + 3) / 4)) 0 4 (compress_step skey) (comp_skey, 0);
  mret (comp_skey, num_rounds).

(** [(x << 4) - x] for the four parts of a compressed word. *)
Definition expand_part (x : Z) : Z := u64 (u64 (x << 4) - x).
Definition br_aes_ct64_skey_expand (skey : list Z) (num_rounds : Z) (comp_skey : list Z) : M (list Z) :=
  let n := u32 ((num_rounds + 1) << 1) in
  '(skey, _) ← for_up 0 n (fun u '(skey, v) =>
    x ← load comp_skey u;
    let x0 := x .& 0x1111111111111111 in
    let x1 := x .& 0x2222222222222222 in
    let x2 := x .& 0x4444444444444444 in
    let x3 := x .& 0x8888888888888888 in
    let x1 := x1 >> 1 in
    let x2 := x2 >> 2 in
    let x3 := x3 >> 3 in
    skey ← store skey (v + 0) (expand_part x0);
    skey ← store skey (v + 1) (expand_part x1);
    skey ← store skey (v + 2) (expand_part x2);
    skey ← store skey (v + 3) (expand_part x3);
    mret (skey, v + 4)) (skey, 0);
  mret skey.

(** ** The rounds

    The round keys are the words of [sk] from [o]. *)
Definition add_round_key : list Z -> list Z -> Z -> M (list Z) := slice_add_round_key.
(** The one of [aes_ct64_dec.c] is a loop. *)
Definition dec_add_round_key : list Z -> list Z -> Z -> M (list Z) := slice_dec_add_round_key.

(** The body of the loops [for (i = 0; i < 8; i ++)] of [shift_rows] and
    [inv_shift_rows]. *)
Definition shift_rows_word (x : Z) : Z :=
  (x .& 0x000000000000FFFF)
    .| ((x .& 0x00000000FFF00000) >> 4)
    .| u64 ((x .& 0x00000000000F0000) << 12)
    .| ((x .& 0x0000FF0000000000) >> 8)
    .| u64 ((x .& 0x000000FF00000000) << 8)
    .| ((x .& 0xF000000000000000) >> 12)
    .| u64 ((x .& 0x0FFF000000000000) << 4).
Definition inv_shift_rows_word (x : Z) : Z :=
  (x .& 0x000000000000FFFF)
    .| u64 ((x .& 0x000000000FFF0000) << 4)
    .| ((x .& 0x00000000F0000000) >> 12)
    .| u64 ((x .& 0x000000FF00000000) << 8)
    .| ((x .& 0x0000FF0000000000) >> 8)
    .| u64 ((x .& 0x000F000000000000) << 12)
    .| ((x .& 0xFFF0000000000000) >> 4).
Definition shift_rows (q : list Z) : M (list Z) :=
  for_up 0 8 (fun i q => x ← load q i; store q i (shift_rows_word x)) q.
Definition inv_shift_rows (q : list Z) : M (list Z) :=
  for_up 0 8 (fun i q => x ← load q i; store q i (inv_shift_rows_word x)) q.

Definition rotr32 (x : Z) : Z := u64 (x << 32) .| (x >> 32).
Definition rotr_row (x : Z) : Z := (x >> 16) .| u64 (x << 48).
Definition mix_columns : list Z -> M (list Z) := mix_columns_with rotr_row rotr32.
Definition inv_mix_columns : list Z -> M (list Z) := inv_mix_columns_with rotr_row rotr32.

#[export] Instance slice64 : SliceOps := {|
  so_Sbox := br_aes_ct64_bitslice_Sbox;
  so_invSbox := br_aes_ct64_bitslice_invSbox;
  so_shift_rows := shift_rows;
  so_inv_shift_rows := inv_shift_rows;
  so_mix_columns := mix_columns;
  so_inv_mix_columns := inv_mix_columns;
  so_add_round_key := add_round_key;
  so_dec_add_round_key := dec_add_round_key |}.
Definition br_aes_ct64_bitslice_encrypt : Z -> list Z -> list Z -> M (list Z) := bitslice_encrypt.
Definition br_aes_ct64_bitslice_decrypt : Z -> list Z -> list Z -> M (list Z) := bitslice_decrypt.

(** * Orthogonalisation *)

Lemma ortho64_ok q (Q : list Z -> Prop) : sliced 64 q ->
  (forall q', layouts 64 q q' transposed -> Q q') -> ok (br_aes_ct64_ortho q) Q.
Proof.
  intros Hq HQ. pose proof (sliced_word 64 q ltac:(lia) Hq) as HW. destruct Hq as [HL _].
  destruct (eight_words q HL) as (a & b & c & d & e & f & g & h & ->).
  unfold br_aes_ct64_ortho, ortho_with, SWAP2, SWAP4, SWAP8, SWAPN.
  do 11 (cstep; swap_step). swap_step. apply HQ. split; [done|]. word_cases; check_layout HW.
Qed.

(** * The linear layers *)

Ltac slice_cases Hq :=
  let HW := fresh in pose proof (sliced_word 64 _ ltac:(lia) Hq) as HW;
  let HL := fresh in pose proof (proj1 Hq) as HL;
  let E := fresh in destruct (eight_words _ HL) as (? & ? & ? & ? & ? & ? & ? & ? & E); subst.

Lemma shift_rows64_layout q : sliced 64 q ->
  ok (shift_rows q) (fun q' => layouts 64 q q' (fun i n => [(i, sr_pos 4 n)])).
Proof.
  intros Hq. eapply ok_mono; [apply map_words_ok, Hq|]. intros q' [HL' HE]. split; [done|]. intros i Hi.
  rewrite HE by done. clear HL' HE. revert i Hi. slice_cases Hq. word_cases; unfold shift_rows_word; check_layout H.
Qed.

Lemma inv_shift_rows64_layout q : sliced 64 q ->
  ok (inv_shift_rows q) (fun q' => layouts 64 q q' (fun i n => [(i, isr_pos 4 n)])).
Proof.
  intros Hq. eapply ok_mono; [apply map_words_ok, Hq|]. intros q' [HL' HE]. split; [done|]. intros i Hi.
  rewrite HE by done. clear HL' HE. revert i Hi. slice_cases Hq. word_cases; unfold inv_shift_rows_word; check_layout H.
Qed.

Lemma mix_columns64_layout q : sliced 64 q -> ok (mix_columns q) (fun q' => layouts 64 q q' (mix_sum 4 2 3 1 1)).
Proof.
  intros Hq. unfold mix_columns, mix_columns_with. apply load8_ok; [apply Hq|]. cbv zeta. apply store8_ok; [apply Hq|].
  slice_cases Hq. split; [done|]. word_cases; unfold rotr32, rotr_row; check_layout H.
Qed.

Lemma inv_mix_columns64_layout q : sliced 64 q ->
  ok (inv_mix_columns q) (fun q' => layouts 64 q q' (mix_sum 4 14 11 13 9)).
Proof.
  intros Hq. unfold inv_mix_columns, inv_mix_columns_with. apply load8_ok; [apply Hq|]. cbv zeta. apply store8_ok; [apply Hq|].
  slice_cases Hq. split; [done|]. word_cases; unfold rotr32, rotr_row; check_layout H.
Qed.

#[export] Instance slice64_laws : SliceLaws 4 slice64.
Proof.
  split.
  - by right.
  - intros q Hq. by apply (Sbox_with_ok 64).
  - intros q Hq. by apply (invSbox_with_ok 64).
  - apply shift_rows64_layout.
  - apply inv_shift_rows64_layout.
  - apply mix_columns64_layout.
  - apply inv_mix_columns64_layout.
  - intros q sk o Hq Ho Hl Hk. by apply (slice_add_round_key_ok 64).
  - intros q sk o Hq Ho Hl Hk. by apply (slice_dec_add_round_key_ok 64).
Qed.

(** ** Words in, words out *)

(** The block [b] of the interleaved words of four blocks: the word [b] has the
    columns [0] and [2] of it, the word [4 + b] the other two. *)
Definition quad_block (q : list Z) (b : Z) : list Z :=
  mk_state (fun r c => u8 (get q (4 * (c mod 2) + b) >> (8 * (2 * r + c / 2)))).

Lemma quad_block_ok q b : aes_state (quad_block q b).
Proof. apply mk_state_ok. intros. apply u8_word. Qed.

Lemma ortho64_in q q' b : layouts 64 q q' transposed -> 0 <= b < 4 -> blk 4 q' b = quad_block q b.
Proof.
  intros HT Hb. apply state_eq; [done..|]. intros r c Hr Hc. unfold quad_block. rewrite cell_blk, cell_mk_state by done.
  unfold slice_pos. rewrite (transposed_lane 64 q q') by (done || lia). do 2 f_equal; [f_equal; zn|zn].
Qed.

Lemma ortho64_out q q' b : layouts 64 q q' transposed -> 0 <= b < 4 -> quad_block q' b = blk 4 q b.
Proof.
  intros HT Hb. apply state_eq; [done..|]. intros r c Hr Hc. unfold quad_block. rewrite cell_blk, cell_mk_state by done.
  unfold slice_pos. rewrite (transposed_byte 64 q q') by (done || zn). f_equal. zn.
Qed.

(** The words of [16] bytes. *)
Definition words_at (w : list Z) (o : Z) : list Z := wblock (get w o, get w (o + 1), get w (o + 2), get w (o + 3)).

Lemma cell_words_at w o r c : 0 <= r < 4 -> 0 <= c < 4 -> cell (words_at w o) r c = u8 (get w (o + c) >> (8 * r)).
Proof.
  intros Hr Hc. unfold words_at, wblock. rewrite cell_le_words by done.
  assert (c = 0 \/ c = 1 \/ c = 2 \/ c = 3) as HC by lia. by destruct HC as [->|[->|[->| ->]]]; rewrite ?Z.add_0_r.
Qed.

(** The bytes of the first word at the even places, of the second at the odd. *)
Lemma spread_ok x y : word 32 x -> word 32 y ->
  let z := spread x .| u64 (spread y << 8) in
  word 64 z /\ forall k, 0 <= k < 8 -> u8 (z >> (8 * k)) = u8 ((if decide (k mod 2 = 0) then x else y) >> (8 * (k / 2))).
Proof.
  intros Hx Hy z. assert (HW : forall i, word 32 (get [x; y] i)).
  { apply limbs_word; [lia|]. intros i Hi. simpl in Hi. by assert (i = 0 \/ i = 1) as [->| ->] by lia. }
  assert (HL : layout 64 [x; y] z (fun n => [((n / 8) mod 2, 8 * (n / 16) + n mod 8)])).
  { unfold z, spread. cbv zeta. check_layout_of 32 HW. }
  destruct HL as [Hz HB]. split; [done|]. intros k Hk. apply byte_bits_eq; [apply u8_word..|]. intros i Hi.
  rewrite !u8_shr_bit by zn. rewrite HB by lia. rewrite bit_sum_cons. cbn [fst snd bit_sum fold_right].
  rewrite xorb_false_r. replace ((8 * k + i) / 8) with k by zn.
  replace (8 * ((8 * k + i) / 16) + (8 * k + i) mod 8) with (8 * (k / 2) + i) by zn.
  case_decide as E; [by rewrite E|]. by replace (k mod 2) with 1 by zn.
Qed.

Lemma gather_ok x s : word 64 x -> s = 0 \/ s = 8 ->
  let z := gather ((x >> s) .& 0x00FF00FF00FF00FF) in
  word 32 z /\ forall r, 0 <= r < 4 -> u8 (z >> (8 * r)) = u8 (x >> (8 * (2 * r + s / 8))).
Proof.
  intros Hx Hs z. assert (HW : forall i, word 64 (get [x] i)).
  { apply limbs_word; [lia|]. intros i Hi. simpl in Hi. by replace i with 0 by lia. }
  assert (HL : layout 32 [x] z (fun n => [(0, 16 * (n / 8) + s + n mod 8)])).
  { unfold z, gather. cbv zeta. destruct Hs as [-> | ->]; check_layout_of 64 HW. }
  destruct HL as [Hz HB]. split; [done|]. intros r Hr. apply byte_bits_eq; [apply u8_word..|]. intros i Hi.
  rewrite !u8_shr_bit by zn. rewrite HB by lia. rewrite bit_sum_cons. cbn [fst snd bit_sum fold_right].
  rewrite xorb_false_r. change (get [x] 0) with x. f_equal. zn.
Qed.

Lemma interleave_in_ok q b w o (Q : list Z -> Prop) : sliced 64 q -> 0 <= b < 4 -> 0 <= o -> o + 4 <= zlen w -> limbs 32 w o 4 ->
  (forall q', sliced 64 q' -> quad_block q' b = words_at w o ->
    (forall b', 0 <= b' < 4 -> b' <> b -> quad_block q' b' = quad_block q b') -> Q q') ->
  ok (br_aes_ct64_interleave_in q b (b + 4) w o) Q.
Proof.
  intros [HL Hq] Hb Ho Hl Hw HQ. unfold br_aes_ct64_interleave_in. do 11 cstep.
  destruct (spread_ok (get w o) (get w (o + 2))) as [HA HAb]; [apply Hw; lia..|].
  destruct (spread_ok (get w (o + 1)) (get w (o + 3))) as [HB HBb]; [apply Hw; lia..|].
  set (x := spread (get w o) .| _) in *. set (y := spread (get w (o + 1)) .| _) in *.
  set (q' := upd (upd q b x) (b + 4) y).
  assert (HG : forall j, 0 <= j < 8 -> get q' j = if decide (j = b + 4) then y else if decide (j = b) then x else get q j).
  { intros j Hj. unfold q'. case_decide as E; [subst; by rewrite get_upd_eq by (rewrite zlen_upd; lia)|].
    rewrite get_upd_ne by lia. case_decide as E'; [subst; by rewrite get_upd_eq by lia|]. by rewrite get_upd_ne by lia. }
  apply HQ.
  - split; [unfold q'; by rewrite !zlen_upd|]. intros j Hj. rewrite HG by lia.
    case_decide; [exact HB|]. case_decide; [exact HA|]. apply Hq. lia.
  - apply state_eq; [apply quad_block_ok|apply wblock_ok|]. intros r c Hr Hc. rewrite cell_words_at by done.
    unfold quad_block. rewrite cell_mk_state by done. rewrite HG by zn.
    assert (c = 0 \/ c = 1 \/ c = 2 \/ c = 3) as HC by lia. destruct HC as [->|[->|[->| ->]]].
    + rewrite decide_False, decide_True by zn. rewrite HAb, decide_True by zn. rewrite (Z.add_0_r o). do 2 f_equal. zn.
    + rewrite decide_True by zn. rewrite HBb, decide_True by zn. do 2 f_equal. zn.
    + rewrite decide_False, decide_True by zn. rewrite HAb, decide_False by zn. do 2 f_equal. zn.
    + rewrite decide_True by zn. rewrite HBb, decide_False by zn. do 2 f_equal. zn.
  - intros b' Hb' Hne. apply state_eq; [apply quad_block_ok..|]. intros r c Hr Hc. unfold quad_block.
    rewrite !cell_mk_state by done. rewrite HG by zn. rewrite !decide_False by zn. done.
Qed.

Lemma interleave_out_ok w o q b : sliced 64 q -> 0 <= b < 4 -> 0 <= o -> o + 4 <= zlen w ->
  ok (br_aes_ct64_interleave_out w o (get q b) (get q (b + 4))) (fun w' =>
    frame o (o + 4) w w' /\ limbs 32 w' o 4 /\ words_at w' o = quad_block q b).
Proof.
  intros [HL Hq] Hb Ho Hl. unfold br_aes_ct64_interleave_out. cbv zeta. do 7 cstep.
  assert (Ha : word 64 (get q b)) by (apply Hq; lia). assert (Hb' : word 64 (get q (b + 4))) by (apply Hq; lia).
  pose proof (gather_ok (get q b) 0 Ha ltac:(by left)) as G0. rewrite Z.shiftr_0_r in G0.
  pose proof (gather_ok (get q (b + 4)) 0 Hb' ltac:(by left)) as G1. rewrite Z.shiftr_0_r in G1.
  pose proof (gather_ok (get q b) 8 Ha ltac:(by right)) as G2.
  pose proof (gather_ok (get q (b + 4)) 8 Hb' ltac:(by right)) as G3. cbv zeta in *.
  set (y0 := gather (get q b .& _)) in *. set (y1 := gather (get q (b + 4) .& _)) in *.
  set (y2 := gather (get q b >> 8 .& _)) in *. set (y3 := gather (get q (b + 4) >> 8 .& _)) in *.
  set (w' := upd _ (o + 3) y3).
  assert (HG : get w' o = y0 /\ get w' (o + 1) = y1 /\ get w' (o + 2) = y2 /\ get w' (o + 3) = y3).
  { unfold w'. repeat split; repeat first [rewrite get_upd_eq by (rewrite ?zlen_upd; lia) | rewrite get_upd_ne by lia]; done. }
  destruct HG as (E0 & E1 & E2 & E3). split; [|split].
  - unfold w'. do 3 (eapply frame_trans; [|apply frame_upd; lia]). apply frame_upd; lia.
  - intros j Hj. assert (j = o \/ j = o + 1 \/ j = o + 2 \/ j = o + 3) as HJ by lia.
    destruct HJ as [->|[->|[->| ->]]]; rewrite ?E0, ?E1, ?E2, ?E3; [apply G0|apply G1|apply G2|apply G3].
  - apply state_eq; [apply wblock_ok|apply quad_block_ok|]. intros r c Hr Hc. rewrite cell_words_at by done.
    unfold quad_block. rewrite cell_mk_state by done.
    assert (c = 0 \/ c = 1 \/ c = 2 \/ c = 3) as HC by lia.
    destruct HC as [->|[->|[->| ->]]]; rewrite ?Z.add_0_r, ?E0, ?E1, ?E2, ?E3.
    + rewrite (proj2 G0) by done. apply (f_equal u8), f_equal2; [apply (f_equal (get q))|]; zn.
    + rewrite (proj2 G1) by done. apply (f_equal u8), f_equal2; [apply (f_equal (get q))|]; zn.
    + rewrite (proj2 G2) by done. apply (f_equal u8), f_equal2; [apply (f_equal (get q))|]; zn.
    + rewrite (proj2 G3) by done. apply (f_equal u8), f_equal2; [apply (f_equal (get q))|]; zn.
Qed.

(** * The key schedule *)

Lemma sub_word64_ok x : word 32 x -> ok (sub_word x) (fun y => word 32 y /\ wbytes y = sub_wd (wbytes x)).
Proof.
  intros Hx. unfold sub_word. cstep. apply ok_memset; [lia|lia|done|].
  change (fillz (replicate 8 0) 0 0 8) with (replicate 8 0). cstep. apply ok_store; [done|].
  change (upd (replicate 8 0) 0 x) with [x; 0; 0; 0; 0; 0; 0; 0]. set (q := [x; 0; 0; 0; 0; 0; 0; 0]).
  assert (Hx64 : word 64 x) by (unfold word in *; lia).
  assert (Hq : sliced 64 q) by (split; [done|]; unfold q; intros j Hj; change (0 <= j < 8) in Hj; revert j Hj; apply eight_cases; done).
  cstep. apply ortho64_ok; [done|]. intros q1 H1.
  cstep. eapply ok_mono; [apply (Sbox_with_ok 64); [lia|exact (layouts_sliced _ _ _ _ H1)]|]. intros q2 [Hq2 H2].
  cstep. apply ortho64_ok; [done|]. intros q3 H3. cstep. apply ok_load; [rewrite (proj1 H3); lia|]. cstep.
  split; [apply Z.mod_pos_bound; lia|]. apply wbytes_eq; [unfold sub_wd; by rewrite length_map|].
  intros r Hr. replace (u8 (u32 (get q3 0) >> (8 * r))) with (u8 (get q3 0 >> (8 * r))).
  2:{ apply byte_bits_eq; [apply u8_word..|]. intros i Hi. rewrite !u8_shr_bit by lia. unfold u32.
      by rewrite Z.mod_pow2_bits_low by lia. }
  rewrite (transposed_byte 64 q2 q3 0 r H3) by lia. rewrite H2, (transposed_lane 64 q q1 _ H1) by zn.
  replace ((8 * r + 0) mod 8) with 0 by zn. change (get q 0) with x.
  replace ((8 * r + 0) / 8) with r by zn. rewrite <- get_wbytes by done. unfold sub_wd.
  rewrite get_map by (rewrite zlen_wbytes; lia). reflexivity.
Qed.

Section Keysched.
Context (key : list Z) (nk : nat) (Hkey : byte_string key) (Hnk : nk = 4%nat \/ nk = 6%nat \/ nk = 8%nat)
  (Hlen : zlen key = 4 * Z.of_nat nk).

(** The invariant of the loop of the expansion. *)
Definition keysched64_inv (i : Z) (st : list Z * Z * Z * Z) : Prop :=
  let '(skey, tmp, j, k) := st in
  zlen skey = 60 /\ holds_words (get skey) (key_words_upto key nk i) i /\ tmp = get skey (i - 1) /\ next_turn nk i j k.

Lemma keysched64_step_ok i st : Z.of_nat nk <= i < 4 * Z.of_nat nk + 28 -> keysched64_inv i st ->
  ok (keysched_step (Z.of_nat nk) i st) (keysched64_inv (i + 1)).
Proof.
  destruct st as [[[skey tmp] j] k]. intros Hi (HL & HH & Ht & Hjk). unfold keysched_step.
  assert (Hi60 : i < 60) by (destruct Hnk as [E|[E|E]]; rewrite E in *; lia).
  cstep. rewrite Ht. eapply ok_mono.
  { apply (new_word_ok key nk Hkey Hnk Hlen sub_word i (get skey) j k); [lia|apply sub_word64_ok|apply HH|apply Hjk..]. }
  intros y [Hy Ey]. cstep. apply ok_load; [lia|]. cbv zeta. cstep. apply ok_store; [lia|].
  apply (next_turn_ok key nk Hnk Hlen i); [lia|done|]. intros j' k' Hjk'.
  split; [by rewrite zlen_upd|]. split; [|split; [|done]].
  - intros u Hu. destruct (Z.eq_dec u i) as [->|]; [by rewrite get_upd_eq by lia|]. rewrite get_upd_ne by lia.
    apply (holds_words_mono key nk Hkey Hnk Hlen (get skey) i); [lia|done|lia].
  - replace (i + 1 - 1) with i by lia. by rewrite get_upd_eq by lia.
Qed.
End Keysched.

(** ** Round keys, compressed

    The word [2 u + h] has at the bit of the row [r], the column [c] and the
    block [b] the bit [4 h + b] of the byte of the round key [u]. *)
Definition compressed64 (comp w : list Z) (nr : Z) : Prop :=
  2 * (nr + 1) <= zlen comp /\ forall u h, 0 <= u <= nr -> 0 <= h < 2 -> word 64 (get comp (2 * u + h)) /\
    forall r c b, 0 <= r < 4 -> 0 <= c < 4 -> 0 <= b < 4 ->
      Z.testbit (get comp (2 * u + h)) (slice_pos 4 r c b) = Z.testbit (get w (16 * u + 4 * c + r)) (4 * h + b).

Lemma compress_word_ok q h : sliced 64 q -> h = 0 \/ h = 4 ->
  ok (compress_word q h) (fun x => word 64 x /\
    forall n, 0 <= n < 64 -> Z.testbit x n = Z.testbit (get q (h + n mod 4)) n).
Proof.
  intros Hq Hh. pose proof (sliced_word 64 q ltac:(lia) Hq) as HW. destruct Hq as [HL _]. unfold compress_word.
  do 9 cstep.
  destruct (eight_words q HL) as (a & b & c & d & e & f & g & k & ->).
  match goal with |- word 64 ?x /\ _ => assert (HB : layout 64 [a; b; c; d; e; f; g; k] x (fun n => [(h + n mod 4, n)])) end.
  { destruct Hh as [-> | ->];
      repeat match goal with |- context [get _ (?i + ?j)] => let v := eval cbv in (i + j) in change (i + j) with v end;
      word_of; check_layout HW. }
  destruct HB as [Hx HB]. split; [done|]. intros n Hn. rewrite HB by done. rewrite bit_sum_cons.
  cbn [fst snd bit_sum fold_right]. apply xorb_false_r.
Qed.

(** The four copies of a word. *)
Lemma copies_ok q (Q : list Z -> Prop) : sliced 64 q ->
  (forall q', sliced 64 q' -> (forall b, 0 <= b < 4 -> quad_block q' b = quad_block q 0) -> Q q') ->
  forall f : list Z -> M (list Z * Z), forall P, (forall q', Q q' -> ok (f q') P) ->
  ok (x ← load q 0; q ← store q 1 x;
      x ← load q 0; q ← store q 2 x;
      x ← load q 0; q ← store q 3 x;
      x ← load q 4; q ← store q 5 x;
      x ← load q 4; q ← store q 6 x;
      x ← load q 4; q ← store q 7 x; f q) P.
Proof.
  intros [HL Hq] HQ f P HP. destruct (eight_words q HL) as (a & b & c & d & e & g & h & k & ->).
  do 6 (cstep; apply ok_load; [simpl length; lia|]; cstep; apply ok_store; [rewrite ?zlen_upd; simpl length; lia|]; word_of).
  apply HP, HQ.
  - split; [done|]. pose proof (Hq 0 ltac:(lia)) as H0. pose proof (Hq 4 ltac:(lia)) as H4.
    intros j Hj. change (0 <= j < 8) in Hj. revert j Hj. by apply eight_cases.
  - intros b' Hb. apply state_eq; [apply quad_block_ok..|]. intros r c' Hr Hc. unfold quad_block.
    rewrite !cell_mk_state by done. do 2 f_equal.
    assert (c' mod 2 = 0 \/ c' mod 2 = 1) as [->| ->] by zn;
    assert (b' = 0 \/ b' = 1 \/ b' = 2 \/ b' = 3) as HB by lia; by destruct HB as [->|[->|[->| ->]]].
Qed.

(** One round key is compressed. *)
Lemma compress_step_ok skey w nr u comp : 0 <= u <= nr -> 4 * (nr + 1) <= zlen skey ->
  holds_words (get skey) w (4 * (nr + 1)) -> zlen w = 16 * (nr + 1) -> 2 * (nr + 1) <= zlen comp ->
  ok (compress_step skey (4 * u) (comp, 2 * u)) (fun '(c, j) => j = 2 * (u + 1) /\ frame (2 * u) (2 * u + 2) comp c /\
    forall h, 0 <= h < 2 -> word 64 (get c (2 * u + h)) /\
    forall r c' b, 0 <= r < 4 -> 0 <= c' < 4 -> 0 <= b < 4 ->
      Z.testbit (get c (2 * u + h)) (slice_pos 4 r c' b) = Z.testbit (get w (16 * u + 4 * c' + r)) (4 * h + b)).
Proof.
  intros Hu Hs HH HZ Hc. unfold compress_step. cstep.
  assert (Hz : sliced 64 (replicate 8 0)) by (split; [done|]; by apply limbsb_limbs).
  apply (interleave_in_ok (replicate 8 0) 0 skey (4 * u)); [done|lia|lia|lia| |].
  { intros j Hj. apply HH. lia. }
  intros q Hq HE _. eapply (copies_ok q _ Hq (fun q' H1 H2 => conj H1 H2)). intros q1 [Hq1 H1].
  cstep. apply ortho64_ok; [done|]. intros q2 HT.
  assert (HK : forall r c b i, 0 <= r < 4 -> 0 <= c < 4 -> 0 <= b < 4 -> 0 <= i < 8 ->
    Z.testbit (get q2 i) (slice_pos 4 r c b) = Z.testbit (get w (16 * u + 4 * c + r)) i).
  { intros r c b i Hr Hc' Hb Hi. rewrite <- lane_bit by done. rewrite <- cell_blk by done.
    rewrite (ortho64_in q1 q2 b HT Hb), H1, HE by done. rewrite cell_words_at by done.
    destruct (HH (4 * u + c) ltac:(lia)) as [_ Ew]. rewrite <- get_wbytes, Ew, get_slice by lia. do 2 f_equal. lia. }
  pose proof (layouts_sliced _ _ _ _ HT) as Hq2.
  cstep. eapply ok_mono; [apply (compress_word_ok q2 0); [done|by left]|]. intros x [Hx Bx].
  cstep. apply ok_store; [lia|].
  cstep. eapply ok_mono; [apply (compress_word_ok q2 4); [done|by right]|]. intros y [Hy By].
  cstep. apply ok_store; [rewrite zlen_upd; lia|]. cstep. split; [lia|]. split.
  { eapply frame_trans; apply frame_upd; lia. }
  assert (HP : forall r c' b, 0 <= r < 4 -> 0 <= c' < 4 -> 0 <= b < 4 ->
    0 <= slice_pos 4 r c' b < 64 /\ slice_pos 4 r c' b mod 4 = b) by (unfold slice_pos; intros; zn).
  intros h Hh. assert (h = 0 \/ h = 1) as [->| ->] by lia.
  - rewrite get_upd_ne, get_upd_eq by lia. split; [done|]. intros r c' b Hr Hc' Hb.
    destruct (HP r c' b Hr Hc' Hb) as [HP1 HP2]. rewrite Bx, HP2 by done. apply HK; lia.
  - rewrite get_upd_eq by (rewrite zlen_upd; lia). split; [done|]. intros r c' b Hr Hc' Hb.
    destruct (HP r c' b Hr Hc' Hb) as [HP1 HP2]. rewrite By, HP2 by done. apply HK; lia.
Qed.

Lemma compress_loop64_ok skey w nr comp : 0 <= nr -> 4 * (nr + 1) <= zlen skey ->
  holds_words (get skey) w (4 * (nr + 1)) -> zlen w = 16 * (nr + 1) -> 2 * (nr + 1) <= zlen comp ->
  ok (for_n (Z.to_nat (nr + 1)) 0 4 (compress_step skey) (comp, 0))
    (fun '(c, _) => zlen c = zlen comp /\ compressed64 c w nr).
Proof.
  intros Hnr Hs HH HZ Hc. apply (ok_for_n (fun i '(c, j) => j = i / 2 /\ zlen c = zlen comp /\
    forall u h, 0 <= u < i / 4 -> 0 <= h < 2 -> word 64 (get c (2 * u + h)) /\
    forall r c' b, 0 <= r < 4 -> 0 <= c' < 4 -> 0 <= b < 4 ->
      Z.testbit (get c (2 * u + h)) (slice_pos 4 r c' b) = Z.testbit (get w (16 * u + 4 * c' + r)) (4 * h + b))).
  - split; [done|]. split; [done|]. change (0 / 4) with 0. lia.
  - intros u [c j] Hu (-> & HL & HI). replace (0 + u * 4) with (4 * u) in * by lia.
    replace (0 + (u + 1) * 4) with (4 * (u + 1)) in * by lia. replace (4 * u / 2) with (2 * u) by zn.
    rewrite Z.mul_comm, Z.div_mul in HI by lia.
    eapply ok_mono; [apply (compress_step_ok skey w nr u c); try done; lia|]. intros [c' j] (-> & HF & HN).
    split; [zn|]. split; [by rewrite (frame_len _ _ _ _ HF)|]. rewrite (Z.mul_comm 4), Z.div_mul by lia.
    intros v h Hv Hh. destruct (Z.eq_dec v u) as [->|]; [by apply HN|].
    rewrite (frame_get _ _ _ _ (2 * v + h) HF) by lia. apply HI; lia.
  - intros [c j] (_ & HL & HI). split; [done|]. split; [lia|]. intros u h Hu Hh. apply HI; [zn|done].
Qed.

Lemma keysched64_ok comp kbuf pos len : aes_key_len len -> 30 <= zlen comp -> 0 <= pos -> pos + len <= zlen kbuf ->
  bytes kbuf pos len ->
  ok (br_aes_ct64_keysched comp kbuf pos len) (fun '(c, nr) => nr = aes_rounds len /\ zlen c = zlen comp /\
    compressed64 c (aes_expanded (slice kbuf pos len)) nr).
Proof.
  intros Hlen Hc Hp Hl HB. unfold br_aes_ct64_keysched.
  set (key := slice kbuf pos len). pose proof (aes_rounds_range len Hlen) as Hnr. set (nr := aes_rounds len) in *.
  destruct (schedule_bounds len _ Hlen eq_refl) as (Enk & Hnk & Hnr4). set (nk := Z.to_nat (len / 4)) in *. fold nr in Hnr4.
  assert (Hkl : zlen key = len) by (apply zlen_slice; lia).
  assert (Hkey : byte_string key) by (apply byte_string_slice; [lia|lia|done|done]).
  assert (Hlk : zlen key = 4 * Z.of_nat nk) by lia.
  cstep. eapply ok_mono; [by apply key_rounds_ok|]. fold nr. intros n ->.
  apply ok_cond; intros E; [apply Z.eqb_eq in E; lia|clear E]. cbv zeta.
  rewrite shr_div by lia. change (2 ^ 2) with 4. replace (len / 4) with (Z.of_nat nk) by lia.
  rewrite (shl_mul (nr + 1)) by lia. change (2 ^ 2) with 4. rewrite u32_small by (unfold word; lia).
  rewrite (Z.mul_comm (nr + 1)).
  cstep. eapply ok_mono; [apply range_dec32_wbytes; [lia|lia|simpl length; lia|lia|by rewrite <- Enk]|].
  intros skey [HF HW]. pose proof (frame_len _ _ _ _ HF) as HLs. change (zlen (replicate 60 0)) with 60 in HLs.
  cstep. apply ok_load; [lia|].
  cstep. apply (ok_mono _ (keysched64_inv key nk (4 * (nr + 1)))).
  { apply (ok_for_up (fun i st => keysched64_inv key nk i st)); [lia| | |done].
    - split; [done|]. split; [|split; [done|]].
      + rewrite key_words_none. intros u Hu. destruct (HW u Hu) as [H1 H2]. split; [done|]. rewrite H2.
        apply list_eq_get; rewrite !zlen_slice by lia; [done|]. intros i Hi. unfold key. rewrite !get_slice by lia. f_equal. lia.
      + unfold next_turn. rewrite Z.mod_same, Z.div_same by lia. done.
    - intros i st Hi HI. apply (keysched64_step_ok key nk Hkey Hnk Hlk); [lia|done]. }
  intros [[[sk0 tmp'] j] k] (HL0 & HH & _).
  set (w := aes_expanded key).
  assert (Ew : key_words_upto key nk (4 * (nr + 1)) = w)
    by (unfold nr; rewrite <- Hkl; apply key_words_all; by rewrite Hkl).
  rewrite Ew in HH.
  assert (HZ : zlen w = 16 * (nr + 1)) by (unfold w; rewrite (proj2 (aes_expanded_ok key Hkey ltac:(by rewrite Hkl))), Hkl; done).
  cstep. replace (Z.to_nat ((4 * (nr + 1) + 3) / 4)) with (Z.to_nat (nr + 1)) by (f_equal; zn).
  eapply ok_mono; [apply (compress_loop64_ok sk0 w nr comp); try done; lia|].
  intros [c j'] [HLc HC]. by apply ok_ret.
Qed.

(** ** Decompression *)

(** [15 x] of a word with one bit in every four: words whose bits are in the
    first [k] of every four, and the next shift of [y]. *)
Definition below4 (k y : Z) : Prop := forall n, Z.testbit y n = true -> n mod 4 < k.
Definition sparse (y : Z) : Prop := 0 <= y <= 0x1111111111111111 /\ below4 1 y.

Lemma lor_shift a y k : below4 k a -> sparse y -> 0 <= k < 4 ->
  a .| u64 (y << k) = a + y * 2 ^ k /\ below4 (k + 1) (a .| u64 (y << k)).
Proof.
  intros Ha [Hy HB] Hk.
  assert (HS : forall n, Z.testbit (y << k) n = true -> n mod 4 = k).
  { intros n H. destruct (Z.lt_ge_cases n 0); [by rewrite Z.testbit_neg_r in H|].
    rewrite Z.shiftl_spec in H by done. destruct (Z.lt_ge_cases (n - k) 0); [by rewrite Z.testbit_neg_r in H|].
    apply HB in H. zn. }
  assert (E : u64 (y << k) = y << k).
  { apply Z.mod_small. rewrite shl_mul by lia. pose proof (Z.pow_le_mono_r 2 k 3). nia. }
  rewrite E, <- shl_mul by lia. split.
  - assert (E0 : a .& (y << k) = 0).
    { apply Z.bits_inj'. intros n _. rewrite Z.land_spec, Z.bits_0. apply andb_false_iff.
      destruct (Z.testbit a n) eqn:Ea; [|by left]. right. destruct (Z.testbit (y << k) n) eqn:Ey; [|done].
      apply Ha in Ea. apply HS in Ey. lia. }
    by rewrite Z.add_nocarry_lxor, Z.lxor_lor.
  - intros n H. rewrite Z.lor_spec in H. apply orb_true_iff in H as [H|H]; [apply Ha in H; lia|apply HS in H; lia].
Qed.

Lemma expand_part_lor y : sparse y -> expand_part y = y .| u64 (y << 1) .| u64 (y << 2) .| u64 (y << 3).
Proof.
  intros Hs. pose proof Hs as [Hy HB]. unfold expand_part, u64 at 1 2. rewrite Zminus_mod_idemp_l.
  destruct (lor_shift y y 1 HB Hs ltac:(lia)) as [E1 H1]. destruct (lor_shift _ y 2 H1 Hs ltac:(lia)) as [E2 H2].
  destruct (lor_shift _ y 3 H2 Hs ltac:(lia)) as [E3 _]. rewrite E3, E2, E1.
  rewrite shl_mul by lia. rewrite Z.mod_small by lia. lia.
Qed.

(** The bits of the four parts. *)
Definition part_mask (i : Z) : Z := 0x1111111111111111 * 2 ^ i.
Lemma land_le x m : 0 <= m -> x .& m <= m.
Proof.
  intros Hm. assert (E : Z.ldiff (x .& m) m = 0).
  { apply Z.bits_inj'. intros n _. rewrite Z.ldiff_spec, Z.land_spec, Z.bits_0. by destruct (Z.testbit x n), (Z.testbit m n). }
  apply Z.sub_nocarry_ldiff in E. pose proof (proj2 (Z.ldiff_nonneg m (x .& m)) ltac:(by left)). lia.
Qed.
Lemma part_sparse x i : 0 <= i < 4 -> sparse ((x .& part_mask i) >> i).
Proof.
  intros Hi.
  assert (HM : forall n, 0 <= n -> Z.testbit (part_mask i) (n + i) = true -> n mod 4 = 0).
  { intros n Hn. unfold part_mask. rewrite <- shl_mul, Z.shiftl_spec by lia. replace (n + i - i) with n by lia. intros H.
    destruct (Z.lt_ge_cases n 64) as [Hn'|Hn'].
    - assert (HF : forallb (fun n => implb (Z.testbit 0x1111111111111111 (Z.of_nat n)) (Z.of_nat n mod 4 =? 0)) (seq 0 64) = true)
        by (vm_compute; reflexivity).
      rewrite forallb_forall in HF. specialize (HF (Z.to_nat n) ltac:(apply in_seq; lia)).
      rewrite Z2Nat.id, H in HF by lia. by apply Z.eqb_eq.
    - rewrite <- (Z.mod_small 0x1111111111111111 (2 ^ 64)) in H by lia. by rewrite Z.mod_pow2_bits_high in H by lia. }
  split.
  - split; [apply Z.shiftr_nonneg, Z.land_nonneg; right; unfold part_mask; pose proof (Z.pow_pos_nonneg 2 i); lia|].
    rewrite shr_div by lia. pose proof (Z.pow_pos_nonneg 2 i ltac:(lia) ltac:(lia)).
    apply Z.div_le_upper_bound; [lia|]. rewrite Z.mul_comm. change (_ * 2 ^ i) with (part_mask i).
    apply land_le. unfold part_mask. lia.
  - intros n H. destruct (Z.lt_ge_cases n 0); [by rewrite Z.testbit_neg_r in H|].
    rewrite Z.shiftr_spec, Z.land_spec in H by done. apply andb_true_iff in H as [_ H]. rewrite (HM n) by done. lia.
Qed.

(** The bit [n] of the part [i] of a compressed word. *)
Lemma expand_part_ok x i m : word 64 x -> 0 <= i < 4 -> m = part_mask i ->
  let y := expand_part ((x .& m) >> i) in
  word 64 y /\ forall n, 0 <= n < 64 -> Z.testbit y n = Z.testbit x (n - n mod 4 + i).
Proof.
  intros Hx Hi -> y. unfold y. rewrite expand_part_lor by (by apply part_sparse).
  assert (HW : forall i, word 64 (get [x] i)).
  { apply limbs_word; [lia|]. intros j Hj. simpl in Hj. by replace j with 0 by lia. }
  match goal with |- word 64 ?e /\ _ => assert (HL : layout 64 [x] e (fun n => [(0, n - n mod 4 + i)])) end.
  { assert (i = 0 \/ i = 1 \/ i = 2 \/ i = 3) as HI by lia.
    destruct HI as [->|[->|[->| ->]]]; check_layout HW. }
  destruct HL as [Hy HB]. split; [done|]. intros n Hn. rewrite HB by done. rewrite bit_sum_cons.
  cbn [fst snd bit_sum fold_right]. apply xorb_false_r.
Qed.

Lemma expanded_keys64 sk comp w nr : 0 <= nr -> compressed64 comp w nr -> byte_string w -> zlen w = 16 * (nr + 1) ->
  8 * (nr + 1) <= zlen sk ->
  (forall m i, 0 <= m < 2 * (nr + 1) -> 0 <= i < 4 -> get sk (4 * m + i) = expand_part ((get comp m .& part_mask i) >> i)) ->
  sliced_keys 4 sk w nr.
Proof.
  intros Hnr [Hc HC] Hw HZ Hl HE. split; [done|].
  assert (HB : forall u i, 0 <= u <= nr -> 0 <= i < 8 -> word 64 (get sk (8 * u + i)) /\
    forall r c b, 0 <= r < 4 -> 0 <= c < 4 -> 0 <= b < 4 ->
      Z.testbit (get sk (8 * u + i)) (slice_pos 4 r c b) = Z.testbit (get w (16 * u + 4 * c + r)) i).
  { intros u i Hu Hi. destruct (HC u (i / 4) Hu ltac:(zn)) as [Hx HX].
    replace (8 * u + i) with (4 * (2 * u + i / 4) + i mod 4) by zn. rewrite HE by zn.
    destruct (expand_part_ok (get comp (2 * u + i / 4)) (i mod 4) _ Hx ltac:(zn) eq_refl) as [Hy HY]. split; [exact Hy|].
    intros r c b Hr Hc' Hb. rewrite HY by (unfold slice_pos; lia).
    replace (slice_pos 4 r c b - slice_pos 4 r c b mod 4 + i mod 4) with (slice_pos 4 r c (i mod 4)) by (unfold slice_pos; zn).
    rewrite HX by zn. f_equal. zn. }
  split.
  - intros k Hk. replace k with (8 * (k / 8) + k mod 8) by zn. apply HB; zn.
  - intros u b Hu Hb. apply state_eq; [done|apply zlen_slice; lia|]. intros r c Hr Hc'. rewrite cell_blk by done.
    unfold cell, round_key. rewrite get_slice by lia. apply lane_eq; [apply bytes_get in Hw; apply Hw; lia|].
    intros i Hi. rewrite get_slice by lia. rewrite (proj2 (HB u i Hu Hi)) by done. f_equal. f_equal. lia.
Qed.

Lemma skey_expand64_ok sk comp w nr : 0 <= nr < 2 ^ 16 -> compressed64 comp w nr -> byte_string w -> zlen w = 16 * (nr + 1) ->
  8 * (nr + 1) <= zlen sk ->
  ok (br_aes_ct64_skey_expand sk nr comp) (fun sk => sliced_keys 4 sk w nr).
Proof.
  intros Hnr HC Hw HZ Hl. unfold br_aes_ct64_skey_expand. rewrite shl_mul by lia. change (2 ^ 1) with 2.
  rewrite u32_small by (unfold word; lia). cbv zeta. cstep. eapply ok_mono.
  - apply (ok_for_up (fun u '(s, v) => zlen s = zlen sk /\ v = 4 * u /\ forall m i, 0 <= m < u -> 0 <= i < 4 ->
      get s (4 * m + i) = expand_part ((get comp m .& part_mask i) >> i)));
      [lia|split; [done|split; [done|lia]]| |intros st H; exact H].
    intros u [s v] Hu (HL & -> & HE). pose proof (proj1 HC) as HcL. do 11 cstep. rewrite !zlen_upd.
    split; [done|]. split; [lia|]. intros m i Hm Hi. destruct (Z.eq_dec m u) as [->|].
    + assert (i = 0 \/ i = 1 \/ i = 2 \/ i = 3) as HI by lia.
      destruct HI as [->|[->|[->| ->]]]; repeat first [rewrite get_upd_eq by (rewrite ?zlen_upd; lia) | rewrite get_upd_ne by lia];
        [by rewrite Z.shiftr_0_r|done..].
    + rewrite !get_upd_ne by lia. apply HE; lia.
  - intros [s v] (HL & _ & HE). apply ok_ret. apply (expanded_keys64 s comp); try done; [lia|lia|].
    intros m i Hm Hi. apply HE; lia.
Qed.

(** * Four blocks through the cipher *)

(** The expanded round keys of an AES key. *)
Definition aes_ct64_keys (sk key : list Z) : Prop :=
  byte_string key /\ aes_key_len (zlen key) /\ sliced_keys 4 sk (aes_expanded key) (aes_rounds (zlen key)).

Lemma encrypt_quad_ok {B} sk key q (f : list Z -> M B) P : aes_ct64_keys sk key -> sliced 64 q ->
  (forall q', sliced 64 q' -> (forall b, 0 <= b < 4 -> quad_block q' b = aes key (quad_block q b)) -> ok (f q') P) ->
  ok (q ← br_aes_ct64_ortho q;
      q ← br_aes_ct64_bitslice_encrypt (aes_rounds (zlen key)) sk q;
      q ← br_aes_ct64_ortho q; f q) P.
Proof.
  intros (Hk & HL & HS) Hq HP. pose proof (aes_rounds_range _ HL).
  cstep. apply ortho64_ok; [done|]. intros q1 H1.
  cstep. eapply ok_mono.
  { apply (bitslice_encrypt_ok (SL:=slice64_laws) sk (aes_expanded key) (aes_rounds (zlen key)) ltac:(lia) HS q1 (quad_block q)).
    split; [exact (layouts_sliced _ _ _ _ H1)|]. intros b Hb. by apply ortho64_in. }
  intros q2 [Hq2 H2]. cstep. apply ortho64_ok; [exact Hq2|]. intros q3 H3. apply HP; [exact (layouts_sliced _ _ _ _ H3)|].
  intros b Hb. rewrite (ortho64_out q2 q3 b H3 Hb). by apply H2.
Qed.

Lemma decrypt_quad_ok {B} sk key q (f : list Z -> M B) P : aes_ct64_keys sk key -> sliced 64 q ->
  (forall q', sliced 64 q' -> (forall b, 0 <= b < 4 -> quad_block q' b = aes_inv key (quad_block q b)) -> ok (f q') P) ->
  ok (q ← br_aes_ct64_ortho q;
      q ← br_aes_ct64_bitslice_decrypt (aes_rounds (zlen key)) sk q;
      q ← br_aes_ct64_ortho q; f q) P.
Proof.
  intros (Hk & HL & HS) Hq HP. pose proof (aes_rounds_range _ HL).
  cstep. apply ortho64_ok; [done|]. intros q1 H1.
  cstep. eapply ok_mono.
  { apply (bitslice_decrypt_ok (SL:=slice64_laws) sk (aes_expanded key) (aes_rounds (zlen key)) ltac:(lia) HS q1 (quad_block q)).
    split; [exact (layouts_sliced _ _ _ _ H1)|]. intros b Hb. by apply ortho64_in. }
  intros q2 [Hq2 H2]. cstep. apply ortho64_ok; [exact Hq2|]. intros q3 H3. apply HP; [exact (layouts_sliced _ _ _ _ H3)|].
  intros b Hb. rewrite (ortho64_out q2 q3 b H3 Hb). by apply H2.
Qed.

(** * Leakage: the number of rounds only *)

Lemma ortho64_ct q1 q2 : blind (br_aes_ct64_ortho q1) (br_aes_ct64_ortho q2).
Proof. unfold br_aes_ct64_ortho, ortho_with, SWAP2, SWAP4, SWAP8, SWAPN. blind_auto. Qed.
Lemma interleave_in_ct q1 q2 i j w1 w2 o :
  blind (br_aes_ct64_interleave_in q1 i j w1 o) (br_aes_ct64_interleave_in q2 i j w2 o).
Proof. unfold br_aes_ct64_interleave_in. blind_auto. Qed.
Lemma interleave_out_ct w1 w2 o a1 a2 b1 b2 :
  blind (br_aes_ct64_interleave_out w1 o a1 b1) (br_aes_ct64_interleave_out w2 o a2 b2).
Proof. unfold br_aes_ct64_interleave_out. blind_auto. Qed.
#[export] Hint Resolve ortho64_ct interleave_in_ct interleave_out_ct : blind.

#[export] Instance slice64_ct : SliceCt slice64.
Proof.
  split; intros; cbn [slice64 so_Sbox so_invSbox so_shift_rows so_inv_shift_rows so_mix_columns so_inv_mix_columns
    so_add_round_key so_dec_add_round_key].
  - apply Sbox_with_ct.
  - apply invSbox_with_ct.
  - unfold shift_rows. blind_auto.
  - unfold inv_shift_rows. blind_auto.
  - apply mix_columns_with_ct.
  - apply inv_mix_columns_with_ct.
  - blind_auto.
  - blind_auto.
Qed.

Lemma encrypt64_ct nr k1 k2 q1 q2 : blind (br_aes_ct64_bitslice_encrypt nr k1 q1) (br_aes_ct64_bitslice_encrypt nr k2 q2).
Proof. apply (bitslice_encrypt_ct (SC:=slice64_ct)). Qed.
Lemma decrypt64_ct nr k1 k2 q1 q2 : blind (br_aes_ct64_bitslice_decrypt nr k1 q1) (br_aes_ct64_bitslice_decrypt nr k2 q2).
Proof. apply (bitslice_decrypt_ct (SC:=slice64_ct)). Qed.
Lemma compress_word_ct q1 q2 h : blind (compress_word q1 h) (compress_word q2 h).
Proof. unfold compress_word. blind_auto. Qed.
#[export] Hint Resolve encrypt64_ct decrypt64_ct compress_word_ct : blind.

Lemma sub_word64_ct x y : blind (sub_word x) (sub_word y).
Proof.
  unfold sub_word. do 3 (apply blind_bind; [blind_auto|intros]).
  apply blind_bind; [apply Sbox_with_ct|intros]. blind_auto.
Qed.
#[export] Hint Resolve sub_word64_ct : blind.

Lemma keysched64_step_ct nk i s1 s2 : s1.1.2 = s2.1.2 /\ s1.2 = s2.2 ->
  ct (fun s1 s2 => s1.1.2 = s2.1.2 /\ s1.2 = s2.2) (keysched_step nk i s1) (keysched_step nk i s2).
Proof.
  destruct s1 as [[[a1 t1] j1] k1], s2 as [[[a2 t2] j2] k2]. intros [E1 E2]. cbn in E1, E2. subst j2 k2.
  unfold keysched_step. apply blind_bind; [apply mixed_word_ct, sub_word64_ct|intros].
  do 2 (apply blind_bind; [blind_auto|intros]).
  apply ct_cond; [done|intros _|intros _]; by apply ct_ret.
Qed.

Lemma compress_step_ct s1 s2 i c1 c2 j : ct (fun x y => x.2 = y.2) (compress_step s1 i (c1, j)) (compress_step s2 i (c2, j)).
Proof. unfold compress_step. do 18 (apply blind_bind; [blind_auto|intros]). by apply ct_ret. Qed.

Lemma keysched64_ct c1 c2 k1 k2 pos len :
  ct (fun x y => x.2 = y.2) (br_aes_ct64_keysched c1 k1 pos len) (br_aes_ct64_keysched c2 k2 pos len).
Proof.
  unfold br_aes_ct64_keysched. eapply ct_bind; [apply ct_refl|]. intros nr ? <-.
  apply ct_cond; [done|intros _; by apply ct_ret|intros _]. cbv zeta.
  do 2 (apply blind_bind; [blind_auto|intros]).
  eapply (ct_bind (fun s1 s2 => s1.1.2 = s2.1.2 /\ s1.2 = s2.2)); [apply ct_for_up; [done..|]; intros; by apply keysched64_step_ct|].
  intros [[[b1 u1] j1] m1] [[[b2 u2] j2] m2] _.
  eapply (ct_bind (fun x y => x.2 = y.2)).
  { apply ct_for_n; [done..|]. intros i [s j] [s' ?] E. cbn in E. subst. apply compress_step_ct. }
  intros [e1 j] [e2 ?] _. by apply ct_ret.
Qed.

Lemma skey_expand64_ct s1 s2 nr c1 c2 : blind (br_aes_ct64_skey_expand s1 nr c1) (br_aes_ct64_skey_expand s2 nr c2).
Proof.
  unfold br_aes_ct64_skey_expand. cbv zeta. apply blind_bind; [|intros [??] [??]; apply blind_ret].
  eapply blind_mono. apply (ct_for_up (fun x y => x.2 = y.2)); [done..|]. intros i [x j] [y ?] E. cbn in E. subst.
  do 5 (apply blind_bind; [blind_auto|intros]). by apply ct_ret.
Qed.
#[export] Hint Resolve skey_expand64_ct : blind.
