(* ===== verification/AesCtModes.v ===== *)
(** CBC and CTR over the bitsliced AES on 32-bit words
    ([src/symcipher/aes_ct_cbcenc.c], [aes_ct_cbcdec.c], [aes_ct_ctr.c]):
    they compute the modes of SP 800-38A over AES, and discharge the interfaces
    of [Modes]. *)
From stdpp Require Import base tactics list numbers option.
From Stdlib Require Import ZArith Lia.
From S2P Require Import Prelude CtPrims Limbs Codec Hash HashPad BitExpr Fips197 AesSbox AesSlice AesKeys Modes AesCt.
Local Open Scope Z_scope.
Local Open Scope cword_scope.

(** * Code *)

(** [br_aes_ct_cbcenc_keys], [br_aes_ct_cbcdec_keys], [br_aes_ct_ctr_keys]. *)
Record aes_ct_keys_ctx := AesCtKeys { ct_skey : list Z; ct_num_rounds : Z }.

Definition br_aes_ct_init (ctx : aes_ct_keys_ctx) (key : list Z) (pos len : Z) : M aes_ct_keys_ctx :=
  '(skey, num_rounds) ← br_aes_ct_keysched (ct_skey ctx) key pos len;
  mret (AesCtKeys skey num_rounds).
Definition br_aes_ct_cbcenc_init := br_aes_ct_init.
Definition br_aes_ct_cbcdec_init := br_aes_ct_init.
Definition br_aes_ct_ctr_init := br_aes_ct_init.

(** Four words from the bytes at [o], and four words to them. *)
Definition dec4 (src : list Z) (o : Z) : M (Z * Z * Z * Z) :=
  a ← br_dec32le src o;
  b ← br_dec32le src (o + 4);
  c ← br_dec32le src (o + 8);
  d ← br_dec32le src (o + 12);
  mret (a, b, c, d).
Definition enc4 (dst : list Z) (o a b c d : Z) : M (list Z) :=
  dst ← br_enc32le dst o a;
  dst ← br_enc32le dst (o + 4) b;
  dst ← br_enc32le dst (o + 8) c;
  br_enc32le dst (o + 12) d.

(** The words of the second block set to zero. *)
Definition zero_words (q : list Z) : M (list Z) :=
  q ← store q 1 0; q ← store q 3 0; q ← store q 5 0; store q 7 0.

(** Four words of the data, added to the words [iv], become the first block. *)
Definition xor_words (q data : list Z) (buf : Z) (iv : Z * Z * Z * Z) : M (list Z) :=
  let '(iv0, iv1, iv2, iv3) := iv in
  x ← br_dec32le data buf; q ← store q 0 (iv0 .^ x);
  x ← br_dec32le data (buf + 4); q ← store q 2 (iv1 .^ x);
  x ← br_dec32le data (buf + 8); q ← store q 4 (iv2 .^ x);
  x ← br_dec32le data (buf + 12); store q 6 (iv3 .^ x).

(** ** CBC encryption: the second block of [q] is not used. *)
Fixpoint cbcenc_loop (fuel : nat) (num_rounds : Z) (sk_exp q : list Z) (iv : Z * Z * Z * Z) (data : list Z) (buf len : Z)
    : M (Z * Z * Z * Z * list Z) :=
  match fuel with
  | O => None
  | S fuel =>
      If 0 <? len Then
        q ← xor_words q data buf iv;
        q ← (q ← br_aes_ct_ortho q;
             q ← br_aes_ct_bitslice_encrypt num_rounds sk_exp q;
             br_aes_ct_ortho q);
        iv0 ← load q 0; iv1 ← load q 2; iv2 ← load q 4; iv3 ← load q 6;
        data ← enc4 data buf iv0 iv1 iv2 iv3;
        cbcenc_loop fuel num_rounds sk_exp q (iv0, iv1, iv2, iv3) data (buf + 16) (u64 (len - 16))
      Else mret (iv, data)
  end.

Definition br_aes_ct_cbcenc_run (ctx : aes_ct_keys_ctx) (iv data : list Z) (pos len : Z) : M (list Z * list Z) :=
  let q := replicate 8 0 in
  q ← zero_words q;
  sk_exp ← br_aes_ct_skey_expand (replicate 120 0) (ct_num_rounds ctx) (ct_skey ctx);
  ivw ← dec4 iv 0;
  '(iv0, iv1, iv2, iv3, data) ← cbcenc_loop (S (Z.to_nat len)) (ct_num_rounds ctx) sk_exp q ivw data pos len;
  iv ← enc4 iv 0 iv0 iv1 iv2 iv3;
  mret (iv, data).

(** ** CBC decryption, two blocks at a time. *)
Definition load4 (q : list Z) (a b c d : Z) : M (Z * Z * Z * Z) :=
  w ← load q a; x ← load q b; y ← load q c; z ← load q d; mret (w, x, y, z).
(** The words [o], [o + 2], [o + 4], [o + 6] from four words of the data. *)
Definition dec_words (q data : list Z) (buf o : Z) : M (list Z) :=
  x ← br_dec32le data buf; q ← store q o x;
  x ← br_dec32le data (buf + 4); q ← store q (o + 2) x;
  x ← br_dec32le data (buf + 8); q ← store q (o + 4) x;
  x ← br_dec32le data (buf + 12); store q (o + 6) x.
(** The block of [q] at [o], with the words [iv] added, to the data. *)
Definition enc_words (data q : list Z) (buf o : Z) (iv : Z * Z * Z * Z) : M (list Z) :=
  let '(iv0, iv1, iv2, iv3) := iv in
  x ← load q o; data ← br_enc32le data buf (x .^ iv0);
  x ← load q (o + 2); data ← br_enc32le data (buf + 4) (x .^ iv1);
  x ← load q (o + 4); data ← br_enc32le data (buf + 8) (x .^ iv2);
  x ← load q (o + 6); br_enc32le data (buf + 12) (x .^ iv3).

Fixpoint cbcdec_loop (fuel : nat) (num_rounds : Z) (sk_exp : list Z) (iv : Z * Z * Z * Z) (data : list Z) (buf len : Z)
    : M (Z * Z * Z * Z * list Z) :=
  match fuel with
  | O => None
  | S fuel =>
      If 0 <? len Then
        let q := replicate 8 0 in
        q ← dec_words q data buf 0;
        q ← (If 32 <=? len Then dec_words q data (buf + 16) 1 Else zero_words q);
        sq ← memcpy (replicate 8 0) 0 q 0 8;
        q ← (q ← br_aes_ct_ortho q;
             q ← br_aes_ct_bitslice_decrypt num_rounds sk_exp q;
             br_aes_ct_ortho q);
        data ← enc_words data q buf 0 iv;
        If len <? 32 Then
          iv ← load4 sq 0 2 4 6;
          mret (iv, data)
        Else
        iv ← load4 sq 0 2 4 6;
        data ← enc_words data q (buf + 16) 1 iv;
        iv ← load4 sq 1 3 5 7;
        cbcdec_loop fuel num_rounds sk_exp iv data (buf + 32) (len - 32)
      Else mret (iv, data)
  end.

Definition br_aes_ct_cbcdec_run (ctx : aes_ct_keys_ctx) (iv data : list Z) (pos len : Z) : M (list Z * list Z) :=
  sk_exp ← br_aes_ct_skey_expand (replicate 120 0) (ct_num_rounds ctx) (ct_skey ctx);
  ivw ← dec4 iv 0;
  '(iv0, iv1, iv2, iv3, data) ← cbcdec_loop (S (Z.to_nat len)) (ct_num_rounds ctx) sk_exp ivw data pos len;
  iv ← enc4 iv 0 iv0 iv1 iv2 iv3;
  mret (iv, data).

(** ** CTR *)

Definition xorbuf (dst : list Z) (d : Z) (src : list Z) (len : Z) : M (list Z) :=
  for_up 0 len (fun i dst => x ← load dst (d + i); y ← load src i; store dst (d + i) (x .^ y)) dst.

(** The key stream of two blocks. *)
Definition ctr_pair (num_rounds : Z) (sk_exp : list Z) (iv0 iv1 iv2 cc : Z) : M (list Z) :=
  let q := replicate 8 0 in
  q ← store q 1 iv0; q ← store q 0 iv0;
  q ← store q 3 iv1; q ← store q 2 iv1;
  q ← store q 5 iv2; q ← store q 4 iv2;
  q ← store q 6 (br_swap32 cc);
  q ← store q 7 (br_swap32 (u32 (cc + 1)));
  q ← (q ← br_aes_ct_ortho q;
       q ← br_aes_ct_bitslice_encrypt num_rounds sk_exp q;
       br_aes_ct_ortho q);
  let tmp := replicate 32 0 in
  x ← load q 0; tmp ← br_enc32le tmp 0 x;
  x ← load q 2; tmp ← br_enc32le tmp 4 x;
  x ← load q 4; tmp ← br_enc32le tmp 8 x;
  x ← load q 6; tmp ← br_enc32le tmp 12 x;
  x ← load q 1; tmp ← br_enc32le tmp 16 x;
  x ← load q 3; tmp ← br_enc32le tmp 20 x;
  x ← load q 5; tmp ← br_enc32le tmp 24 x;
  x ← load q 7; br_enc32le tmp 28 x.

Fixpoint ctr_loop (fuel : nat) (num_rounds : Z) (sk_exp : list Z) (iv0 iv1 iv2 cc : Z) (data : list Z) (buf len : Z)
    : M (list Z * Z) :=
  match fuel with
  | O => None
  | S fuel =>
      If 0 <? len Then
        tmp ← ctr_pair num_rounds sk_exp iv0 iv1 iv2 cc;
        If len <=? 32 Then
          data ← xorbuf data buf tmp len;
          If 16 <? len Then mret (data, u32 (u32 (cc + 1) + 1)) Else mret (data, u32 (cc + 1))
        Else
        data ← xorbuf data buf tmp 32;
        ctr_loop fuel num_rounds sk_exp iv0 iv1 iv2 (u32 (cc + 2)) data (buf + 32) (len - 32)
      Else mret (data, cc)
  end.

Definition br_aes_ct_ctr_run (ctx : aes_ct_keys_ctx) (iv : list Z) (cc : Z) (data : list Z) (pos len : Z)
    : M (list Z * Z) :=
  sk_exp ← br_aes_ct_skey_expand (replicate 120 0) (ct_num_rounds ctx) (ct_skey ctx);
  iv0 ← br_dec32le iv 0; iv1 ← br_dec32le iv 4; iv2 ← br_dec32le iv 8;
  ctr_loop (S (Z.to_nat len)) (ct_num_rounds ctx) sk_exp iv0 iv1 iv2 cc data pos len.

(** * Blocks in the data *)

Lemma dec_block_ok s o : 0 <= o -> o + 16 <= zlen s -> bytes s o 16 ->
  ok (dec4 s o) (fun w => words4 w /\ wblock w = slice s o 16).
Proof.
  intros Ho Hl HB. unfold dec4.
  assert (H : forall k, 0 <= k <= 12 -> bytes s (o + k) 4) by (intros k Hk; apply (limbs_sub 8 s o 16); [done|lia..]).
  cstep. eapply ok_mono; [apply dec32_wbytes; [lia|lia|]|]; [rewrite <- (Z.add_0_r o); apply H; lia|]. intros a [Wa Ea].
  cstep. eapply ok_mono; [apply dec32_wbytes; [lia|lia|apply H; lia]|]. intros b [Wb Eb].
  cstep. eapply ok_mono; [apply dec32_wbytes; [lia|lia|apply H; lia]|]. intros c [Wc Ec].
  cstep. eapply ok_mono; [apply dec32_wbytes; [lia|lia|apply H; lia]|]. intros d [Wd Ed].
  apply ok_ret. split; [done|]. rewrite wblock_app, Ea, Eb, Ec, Ed. symmetry. by apply slice_16.
Qed.

(** The four encodings of a block: each leaves the previous ones. *)
Lemma four_encs d o d1 d2 d3 d4 a b c e : 0 <= o -> o + 16 <= zlen d ->
  frame o (o + 4) d d1 -> slice d1 o 4 = wbytes a ->
  frame (o + 4) (o + 4 + 4) d1 d2 -> slice d2 (o + 4) 4 = wbytes b ->
  frame (o + 8) (o + 8 + 4) d2 d3 -> slice d3 (o + 8) 4 = wbytes c ->
  frame (o + 12) (o + 12 + 4) d3 d4 -> slice d4 (o + 12) 4 = wbytes e ->
  frame o (o + 16) d d4 /\ slice d4 o 16 = wblock (a, b, c, e).
Proof.
  intros Ho Hl F1 E1 F2 E2 F3 E3 F4 E4.
  pose proof (frame_len _ _ _ _ F1). pose proof (frame_len _ _ _ _ F2).
  pose proof (frame_len _ _ _ _ F3). pose proof (frame_len _ _ _ _ F4). split.
  - eapply frame_trans; [eapply frame_weaken; [exact F1|lia..]|].
    eapply frame_trans; [eapply frame_weaken; [exact F2|lia..]|].
    eapply frame_trans; [eapply frame_weaken; [exact F3|lia..]|]. eapply frame_weaken; [exact F4|lia..].
  - rewrite slice_16, wblock_app by lia. rewrite <- E1, <- E2, <- E3, E4.
    assert (G1 : slice d4 o 4 = slice d1 o 4).
    { rewrite (slice_frame _ _ _ _ _ _ F4), (slice_frame _ _ _ _ _ _ F3) by lia. apply (slice_frame _ _ _ _ _ _ F2); lia. }
    assert (G2 : slice d4 (o + 4) 4 = slice d2 (o + 4) 4).
    { rewrite (slice_frame _ _ _ _ _ _ F4) by lia. apply (slice_frame _ _ _ _ _ _ F3); lia. }
    assert (G3 : slice d4 (o + 8) 4 = slice d3 (o + 8) 4) by (apply (slice_frame _ _ _ _ _ _ F4); lia).
    by rewrite G1, G2, G3.
Qed.

Lemma enc_block_ok d o a b c e : 0 <= o -> o + 16 <= zlen d -> words4 (a, b, c, e) ->
  ok (enc4 d o a b c e) (fun d' => frame o (o + 16) d d' /\ slice d' o 16 = wblock (a, b, c, e)).
Proof.
  intros Ho Hl (Wa & Wb & Wc & We). unfold enc4.
  cstep. eapply ok_mono; [apply enc32_wbytes; [lia|lia|done]|]. intros d1 [F1 E1]. pose proof (frame_len _ _ _ _ F1).
  cstep. eapply ok_mono; [apply enc32_wbytes; [lia|lia|done]|]. intros d2 [F2 E2]. pose proof (frame_len _ _ _ _ F2).
  cstep. eapply ok_mono; [apply enc32_wbytes; [lia|lia|done]|]. intros d3 [F3 E3]. pose proof (frame_len _ _ _ _ F3).
  eapply ok_mono; [apply enc32_wbytes; [lia|lia|done]|]. intros d4 [F4 E4].
  by apply (four_encs d o d1 d2 d3 d4).
Qed.

Lemma enc_words_ok d q o b iv : 0 <= o -> o + 16 <= zlen d -> sliced 32 q -> 0 <= b < 2 -> words4 iv ->
  ok (enc_words d q o b iv) (fun d' => frame o (o + 16) d d' /\ slice d' o 16 = xor_list (pair_block q b) (wblock iv)).
Proof.
  destruct iv as [[[iv0 iv1] iv2] iv3]. intros Ho Hl [HL Hq] Hb (W0 & W1 & W2 & W3). unfold enc_words.
  assert (HX : forall i iv, 0 <= i < 8 -> word 32 iv -> word 32 (get q i .^ iv)) by (intros; apply word_lxor; auto with lia).
  cstep. apply ok_load; [lia|]. cstep. eapply ok_mono; [apply enc32_wbytes; [lia|lia|apply HX; [lia|done]]|].
  intros d1 [F1 E1]. pose proof (frame_len _ _ _ _ F1).
  cstep. apply ok_load; [lia|]. cstep. eapply ok_mono; [apply enc32_wbytes; [lia|lia|apply HX; [lia|done]]|].
  intros d2 [F2 E2]. pose proof (frame_len _ _ _ _ F2).
  cstep. apply ok_load; [lia|]. cstep. eapply ok_mono; [apply enc32_wbytes; [lia|lia|apply HX; [lia|done]]|].
  intros d3 [F3 E3]. pose proof (frame_len _ _ _ _ F3).
  cstep. apply ok_load; [lia|]. eapply ok_mono; [apply enc32_wbytes; [lia|lia|apply HX; [lia|done]]|]. intros d4 [F4 E4].
  destruct (four_encs d o d1 d2 d3 d4 _ _ _ _ Ho Hl F1 E1 F2 E2 F3 E3 F4 E4) as [HF HE]. split; [done|].
  rewrite HE, wblock_lxor. unfold pair_block. by rewrite !(Z.add_comm b).
Qed.

Lemma sliced_upd W q i v : sliced W q -> 0 <= i < 8 -> word W v -> sliced W (upd q i v).
Proof. intros [HL Hq] Hi Hv. split; [by rewrite zlen_upd|]. apply limbs_upd; [done|done|lia|lia]. Qed.

Ltac get_upds := repeat first [rewrite get_upd_eq by (rewrite ?zlen_upd; lia) | rewrite get_upd_ne by lia].

Lemma xor_words_ok q data buf iv : sliced 32 q -> 0 <= buf -> buf + 16 <= zlen data -> bytes data buf 16 -> words4 iv ->
  ok (xor_words q data buf iv) (fun q' => sliced 32 q' /\ pair_block q' 0 = xor_list (wblock iv) (slice data buf 16)).
Proof.
  destruct iv as [[[iv0 iv1] iv2] iv3]. intros Hq Hb Hl HB (W0 & W1 & W2 & W3). unfold xor_words. pose proof (proj1 Hq) as HL.
  assert (H : forall k, 0 <= k <= 12 -> bytes data (buf + k) 4) by (intros k Hk; apply (limbs_sub 8 data buf 16); [done|lia..]).
  cstep. eapply ok_mono; [apply dec32_wbytes; [lia|lia|]|]; [rewrite <- (Z.add_0_r buf); apply H; lia|]. intros a [Wa Ea].
  cstep. apply ok_store; [lia|].
  cstep. eapply ok_mono; [apply dec32_wbytes; [lia|lia|apply H; lia]|]. intros b [Wb Eb].
  cstep. apply ok_store; [rewrite ?zlen_upd; lia|].
  cstep. eapply ok_mono; [apply dec32_wbytes; [lia|lia|apply H; lia]|]. intros c [Wc Ec].
  cstep. apply ok_store; [rewrite ?zlen_upd; lia|].
  cstep. eapply ok_mono; [apply dec32_wbytes; [lia|lia|apply H; lia]|]. intros d [Wd Ed].
  apply ok_store; [rewrite ?zlen_upd; lia|]. split; [repeat (apply sliced_upd; [|lia|by apply word_lxor]); done|].
  unfold pair_block. get_upds. change (le_words 4 _ 4) with (wblock (iv0 .^ a, iv1 .^ b, iv2 .^ c, iv3 .^ d)).
  rewrite wblock_lxor. f_equal. rewrite wblock_app, Ea, Eb, Ec, Ed. symmetry. by apply slice_16.
Qed.

Lemma dec_pair_ok q data buf o : sliced 32 q -> 0 <= buf -> buf + 16 <= zlen data -> bytes data buf 16 -> o = 0 \/ o = 1 ->
  ok (dec_words q data buf o) (fun q' => sliced 32 q' /\ pair_block q' o = slice data buf 16 /\
    pair_block q' (1 - o) = pair_block q (1 - o)).
Proof.
  intros Hq Hb Hl HB Ho. unfold dec_words. pose proof (proj1 Hq) as HL.
  assert (H : forall k, 0 <= k <= 12 -> bytes data (buf + k) 4) by (intros k Hk; apply (limbs_sub 8 data buf 16); [done|lia..]).
  cstep. eapply ok_mono; [apply dec32_wbytes; [lia|lia|]|]; [rewrite <- (Z.add_0_r buf); apply H; lia|]. intros a [Wa Ea].
  cstep. apply ok_store; [lia|].
  cstep. eapply ok_mono; [apply dec32_wbytes; [lia|lia|apply H; lia]|]. intros b [Wb Eb].
  cstep. apply ok_store; [rewrite ?zlen_upd; lia|].
  cstep. eapply ok_mono; [apply dec32_wbytes; [lia|lia|apply H; lia]|]. intros c [Wc Ec].
  cstep. apply ok_store; [rewrite ?zlen_upd; lia|].
  cstep. eapply ok_mono; [apply dec32_wbytes; [lia|lia|apply H; lia]|]. intros d [Wd Ed].
  apply ok_store; [rewrite ?zlen_upd; lia|]. split; [repeat (apply sliced_upd; [|lia|done]); done|].
  split; unfold pair_block; [rewrite (Z.add_comm 2 o), (Z.add_comm 4 o), (Z.add_comm 6 o)|]; get_upds; [|done].
  change (le_words 4 _ 4) with (wblock (a, b, c, d)). rewrite wblock_app, Ea, Eb, Ec, Ed. symmetry. by apply slice_16.
Qed.

Lemma zero_words_ok q : sliced 32 q -> ok (zero_words q) (fun q' => sliced 32 q' /\ pair_block q' 0 = pair_block q 0).
Proof.
  intros Hq. pose proof (proj1 Hq) as HL. unfold zero_words. do 7 cstep. split; [repeat (apply sliced_upd; [|lia|done]); done|].
  unfold pair_block. by get_upds.
Qed.

Lemma load4_ok q b : sliced 32 q -> b = 0 \/ b = 1 ->
  ok (load4 q b (b + 2) (b + 4) (b + 6)) (fun w => words4 w /\ wblock w = pair_block q b).
Proof.
  intros [HL Hq] Hb. unfold load4. csteps; try lia. split; [repeat split; apply Hq; lia|].
  unfold pair_block. by rewrite !(Z.add_comm b).
Qed.

Lemma sliced_zero : sliced 32 (replicate 8 0).
Proof. split; [done|]. intros i Hi. by rewrite get_replicate by lia. Qed.

(** The counter is encoded in big-endian order. *)
Lemma swap32_ok x : word 32 x -> word 32 (br_swap32 x) /\ wbytes (br_swap32 x) = be_words 4 [x] 1.
Proof.
  intros Hx. assert (HW : forall i, word 32 (get [x] i)).
  { apply limbs_word; [lia|]. intros i Hi. simpl in Hi. by replace i with 0 by lia. }
  assert (HL : layout 32 [x] (br_swap32 x) (fun n => [(0, 8 * (3 - n / 8) + n mod 8)])).
  { unfold br_swap32. cbv zeta. check_layout HW. }
  destruct HL as [Hs HB]. split; [done|]. apply wbytes_eq; [done|]. intros r Hr. unfold be_words.
  rewrite get_map_seq, Z2Nat.id by (simpl; lia). rewrite Z.div_small, Z.mod_small by lia. change (get [x] 0) with x.
  apply byte_bits_eq; [apply u8_word..|]. intros i Hi. rewrite !u8_shr_bit by lia. rewrite HB by lia.
  rewrite bit_sum_cons. cbn [fst snd bit_sum fold_right]. rewrite xorb_false_r. change (get [x] 0) with x. f_equal. zn.
Qed.


Lemma xorbuf_ok d pos t len : 0 <= pos -> 0 <= len -> pos + len <= zlen d -> len <= zlen t ->
  ok (xorbuf d pos t len) (fun d' => frame pos (pos + len) d d' /\
    forall i, 0 <= i < len -> get d' (pos + i) = get d (pos + i) .^ get t i).
Proof.
  intros Hp Hn Hl Ht. eapply ok_mono.
  - apply (ok_for_up (fun u d' => frame pos (pos + len) d d' /\
      (forall i, u <= i < len -> get d' (pos + i) = get d (pos + i)) /\
      forall i, 0 <= i < u -> get d' (pos + i) = get d (pos + i) .^ get t i)); [lia| | |intros d' H; exact H].
    + split; [apply frame_refl|]. split; [done|lia].
    + intros u d' Hu (HF & H1 & H2). pose proof (frame_len _ _ _ _ HF). csteps; try lia.
      split; [eapply frame_trans; [done|]; apply frame_upd; lia|]. split; intros i Hi.
      * rewrite get_upd_ne by lia. apply H1. lia.
      * destruct (Z.eq_dec i u) as [->|]; [rewrite get_upd_eq, H1 by lia; done|]. rewrite get_upd_ne by lia. apply H2. lia.
  - intros d' (HF & _ & H2). done.
Qed.


(** * CBC encryption *)

Lemma bytes_after d d' pos n k : frame pos (pos + n) d d' -> 0 <= pos -> 0 <= n -> bytes d (pos + n) k -> bytes d' (pos + n) k.
Proof. intros HF Hp Hn HB. apply (limbs_frame 8 d d' (pos + n) k _ _ HB HF); lia. Qed.

Section Keys.
Context (key sk : list Z) (HK : aes_ct_keys sk key).
Let nr := aes_rounds (zlen key).

Lemma cbcenc_loop_ok fuel : forall n q iv data buf, (n < fuel)%nat -> sliced 32 q -> words4 iv ->
  0 <= buf -> buf + 16 * Z.of_nat n <= zlen data -> bytes data buf (16 * Z.of_nat n) -> word 64 (zlen data) ->
  ok (cbcenc_loop fuel nr sk q iv data buf (16 * Z.of_nat n)) (fun '(iv', d) =>
    frame buf (buf + 16 * Z.of_nat n) data d /\
    slice d buf (16 * Z.of_nat n) = cbc_enc 16 (aes key) n (wblock iv) (slice data buf (16 * Z.of_nat n)) /\
    words4 iv' /\ wblock iv' = cbc_next 16 (wblock iv) (slice d buf (16 * Z.of_nat n))).
Proof.
  induction fuel as [|fuel IH]; intros n q iv data buf Hf Hq Hiv Hb Hl HB H64; [lia|]. cbn [cbcenc_loop].
  pose proof (proj1 (wblock_ok iv)) as Liv.
  apply ok_cond; intros Ht; [apply Z.ltb_lt in Ht|apply Z.ltb_ge in Ht].
  2: { assert (n = 0%nat) as -> by lia. apply ok_ret. split; [apply frame_refl|]. change (16 * Z.of_nat 0) with 0.
    rewrite !slice_nil. split; [done|]. split; [done|]. symmetry. by apply cbc_next_nil. }
  destruct n as [|n]; [lia|]. rewrite Nat2Z.inj_succ in *.
  cstep. eapply ok_mono; [apply xor_words_ok; try done; [lia|apply (limbs_sub 8 data buf (16 * Z.succ (Z.of_nat n))); [done|lia..]]|].
  intros q1 [Hq1 E1]. cstep. eapply ok_mono; [by apply (encrypt_pair_ok sk key q1)|]. intros q2 [Hq2 E2].
  specialize (E2 0 ltac:(lia)). rewrite E1 in E2. set (c := aes key _) in E2.
  pose proof (proj1 Hq2) as HL2. do 8 cstep.
  assert (HW : words4 (get q2 0, get q2 2, get q2 4, get q2 6)) by (repeat split; apply Hq2; lia).
  cstep. eapply ok_mono; [apply (enc_block_ok data buf); [lia|lia|exact HW]|]. intros d1 [F1 S1].
  change (wblock _) with (pair_block q2 0) in S1. rewrite E2 in S1. pose proof (frame_len _ _ _ _ F1).
  rewrite u64_small by (unfold word in *; lia). replace (16 * Z.succ (Z.of_nat n) - 16) with (16 * Z.of_nat n) by lia.
  eapply ok_mono; [apply (IH n q2 _ d1 (buf + 16)); try done; try lia|].
  { apply (bytes_after data); [done|lia|lia|]. apply (limbs_sub 8 data buf (16 * Z.succ (Z.of_nat n))); [done|lia..]. }
  { unfold word in *. lia. }
  intros [iv' d] (F2 & S2 & HW' & EV). change (wblock (get q2 0, get q2 2, get q2 4, get q2 6)) with (pair_block q2 0) in S2, EV.
  rewrite E2 in S2, EV. pose proof (frame_len _ _ _ _ F2).
  assert (Lc : zlen c = 16) by (rewrite <- S1; apply zlen_slice; lia).
  assert (ES : slice d buf (16 * Z.succ (Z.of_nat n)) = c ++ slice d (buf + 16) (16 * Z.of_nat n)).
  { replace (16 * Z.succ (Z.of_nat n)) with (16 + 16 * Z.of_nat n) by lia. rewrite slice_split by lia. f_equal.
    rewrite <- S1. apply (slice_frame _ _ _ _ _ _ F2); lia. }
  split; [|split; [|split; [done|]]].
  - eapply frame_trans; [eapply frame_weaken; [exact F1|lia..]|eapply frame_weaken; [exact F2|lia..]].
  - rewrite <- Nat2Z.inj_succ, cbc_enc_step by lia. rewrite Nat2Z.inj_succ. rewrite ES, S2. fold c. do 2 f_equal.
    apply (slice_frame _ _ _ _ _ _ F1); lia.
  - rewrite EV, ES. symmetry. by apply cbc_next_app.
Qed.

(** * CBC decryption *)

(** The words kept aside are those of the blocks. *)
Lemma copy_words_ok q : sliced 32 q -> ok (memcpy (replicate 8 0) 0 q 0 8) (fun sq => sq = q).
Proof.
  intros [HL _]. apply ok_memcpy; rewrite ?length_replicate; try lia.
  apply list_eq_get; rewrite zlen_blit; rewrite ?length_replicate; try lia. intros i Hi.
  rewrite get_blit_in by (rewrite ?length_replicate; lia). f_equal. lia.
Qed.

Lemma cbcdec_loop_ok fuel : forall n iv data buf, (n < fuel)%nat -> words4 iv ->
  0 <= buf -> buf + 16 * Z.of_nat n <= zlen data -> bytes data buf (16 * Z.of_nat n) ->
  ok (cbcdec_loop fuel nr sk iv data buf (16 * Z.of_nat n)) (fun '(iv', d) =>
    frame buf (buf + 16 * Z.of_nat n) data d /\
    slice d buf (16 * Z.of_nat n) = cbc_dec 16 (aes_inv key) n (wblock iv) (slice data buf (16 * Z.of_nat n)) /\
    words4 iv' /\ wblock iv' = cbc_next 16 (wblock iv) (slice data buf (16 * Z.of_nat n))).
Proof.
  induction fuel as [|fuel IH]; intros n iv data buf Hf Hiv Hb Hl HB; [lia|]. cbn [cbcdec_loop].
  pose proof (proj1 (wblock_ok iv)) as Liv.
  apply ok_cond; intros Ht; [apply Z.ltb_lt in Ht|apply Z.ltb_ge in Ht].
  2: { assert (n = 0%nat) as -> by lia. apply ok_ret. split; [apply frame_refl|]. change (16 * Z.of_nat 0) with 0.
    rewrite !slice_nil. split; [done|]. split; [done|]. symmetry. by apply cbc_next_nil. }
  destruct n as [|n]; [lia|].
  set (c0 := slice data buf 16). set (c1 := slice data (buf + 16) 16).
  cbv zeta. cstep. eapply ok_mono; [apply (dec_pair_ok (replicate 8 0) data buf 0); [apply sliced_zero|lia|lia| |by left]|].
  { apply (limbs_sub 8 data buf (16 * Z.of_nat (S n))); [done|lia..]. }
  intros q0 (Hq0 & E0 & _). fold c0 in E0.
  cstep. apply (ok_mono _ (fun q => sliced 32 q /\ pair_block q 0 = c0 /\ ((0 < n)%nat -> pair_block q 1 = c1))).
  { apply ok_cond; intros E; [apply Z.leb_le in E|apply Z.leb_gt in E].
    - eapply ok_mono; [apply (dec_pair_ok q0 data (buf + 16) 1); [done|lia|lia| |by right]|].
      { apply (limbs_sub 8 data buf (16 * Z.of_nat (S n))); [done|lia..]. }
      intros q (Hq & H1 & H0). change (1 - 1) with 0 in H0. rewrite H0. done.
    - eapply ok_mono; [by apply zero_words_ok|]. intros q (Hq & H0). rewrite H0. split; [done|]. split; [done|]. lia. }
  intros q (Hq & EA & EB). cstep. eapply ok_mono; [by apply copy_words_ok|]. intros ? ->.
  cstep. eapply ok_mono; [by apply (decrypt_pair_ok sk key q)|]. intros q2 [Hq2 E2].
  pose proof (E2 0 ltac:(lia)) as G0. pose proof (E2 1 ltac:(lia)) as G1. rewrite EA in G0.
  cstep. eapply ok_mono; [apply (enc_words_ok data q2 buf 0 iv); try done; lia|]. intros d1 [F1 S1].
  pose proof (frame_len _ _ _ _ F1).
  rewrite G0 in S1. assert (Lc0 : zlen c0 = 16) by (apply zlen_slice; lia).
  assert (HX : forall a b, zlen a = 16 -> zlen b = 16 -> xor_list a b = xor_list b a).
  { intros a b La Lb. apply list_eq_get; rewrite !xor_list_len; try lia. intros i Hi.
    rewrite !get_xor_list by lia. apply Z.lxor_comm. }
  assert (HA : forall c, aes_state c -> zlen (aes_inv key c) = 16) by (intros c Hc; by apply aes_inv_ok; [apply HK|apply HK|]).
  assert (Bc : forall o, buf <= o -> o + 16 <= buf + 16 * Z.of_nat (S n) -> aes_state (slice data o 16)).
  { intros o Ho Ho'. split; [apply zlen_slice; lia|]. apply byte_string_slice; [lia..| |lia].
    apply (limbs_sub 8 data buf (16 * Z.of_nat (S n))); [done|lia..]. }
  rewrite HX in S1 by (done || apply HA, Bc; lia).
  apply ok_cond; intros E; [apply Z.ltb_lt in E|apply Z.ltb_ge in E].
  - assert (n = 0%nat) as -> by lia. cstep. eapply ok_mono; [by apply (load4_ok q 0); [|left]|]. intros w [Hw Ew].
    apply ok_ret. change (16 * Z.of_nat 1) with 16. split; [done|]. split.
    + pose proof (cbc_dec_step 16 (aes_inv key) 0 (wblock iv) data buf ltac:(lia) Hb Hl) as HS.
      change (16 * Z.of_nat 1) with 16 in HS. rewrite S1, HS. fold c0. cbn [cbc_dec]. by rewrite app_nil_r.
    + split; [done|]. rewrite Ew, EA. fold c0. symmetry. by apply cbc_next_one.
  - destruct n as [|n]; [lia|]. specialize (EB ltac:(lia)). rewrite EB in G1.
    cstep. eapply ok_mono; [by apply (load4_ok q 0); [|left]|]. intros w [Hw Ew]. rewrite EA in Ew.
    cstep. eapply ok_mono; [apply (enc_words_ok d1 q2 (buf + 16) 1 w); try done; lia|]. intros d2 [F2 S2].
    pose proof (frame_len _ _ _ _ F2). rewrite G1, Ew in S2.
    assert (Lc1 : zlen c1 = 16) by (apply zlen_slice; lia).
    rewrite HX in S2 by (done || apply HA, Bc; lia).
    cstep. eapply ok_mono; [by apply (load4_ok q 1); [|right]|]. intros w' [Hw' Ew']. rewrite EB in Ew'.
    replace (16 * Z.of_nat (S (S n)) - 32) with (16 * Z.of_nat n) by lia.
    assert (F12 : frame buf (buf + 32) data d2).
    { eapply frame_trans; [eapply frame_weaken; [exact F1|lia..]|eapply frame_weaken; [exact F2|lia..]]. }
    eapply ok_mono; [apply (IH n w' d2 (buf + 32)); [lia|done|lia|lia|]|].
    { apply (bytes_after data); [done|lia|lia|]. apply (limbs_sub 8 data buf (16 * Z.of_nat (S (S n)))); [done|lia..]. }
    intros [iv' d] (F3 & S3 & HW3 & EV3). pose proof (frame_len _ _ _ _ F3).
    assert (Ed2 : slice d2 (buf + 32) (16 * Z.of_nat n) = slice data (buf + 32) (16 * Z.of_nat n)) by (apply (slice_frame _ _ _ _ _ _ F12); lia).
    rewrite Ed2 in S3, EV3.
    assert (Edata : slice data buf (16 * Z.of_nat (S (S n))) = c0 ++ c1 ++ slice data (buf + 32) (16 * Z.of_nat n)).
    { replace (16 * Z.of_nat (S (S n))) with (16 + (16 + 16 * Z.of_nat n)) by lia. rewrite !slice_split by lia.
      by replace (buf + 16 + 16) with (buf + 32) by lia. }
    split; [|split; [|split; [done|]]].
    + eapply frame_trans; [eapply frame_weaken; [exact F12|lia..]|eapply frame_weaken; [exact F3|lia..]].
    + rewrite cbc_dec_step by lia. rewrite cbc_dec_step by lia. fold c0 c1.
      replace (buf + 16 + 16) with (buf + 32) by lia. rewrite Ew' in S3. rewrite <- S3, <- S2, <- S1.
      replace (16 * Z.of_nat (S (S n))) with (16 + (16 + 16 * Z.of_nat n)) by lia. rewrite !slice_split by lia.
      replace (buf + 16 + 16) with (buf + 32) by lia. f_equal; [|f_equal].
      * rewrite (slice_frame _ _ _ _ _ _ F3) by lia. apply (slice_frame _ _ _ _ _ _ F2); lia.
      * apply (slice_frame _ _ _ _ _ _ F3); lia.
    + rewrite EV3, Edata, Ew'. symmetry. rewrite (cbc_next_app 16 _ c0) by done. by apply cbc_next_app.
Qed.

(** * CTR *)

Section Ctr.
Context (iv0 iv1 iv2 : Z) (Hiv : word 32 iv0 /\ word 32 iv1 /\ word 32 iv2).
Let iv := wbytes iv0 ++ wbytes iv1 ++ wbytes iv2.

Lemma ctr_pair_ok cc : word 32 cc -> ok (ctr_pair nr sk iv0 iv1 iv2 cc) (fun t => zlen t = 32 /\
  slice t 0 16 = ctr_block (aes key) iv cc /\ slice t 16 16 = ctr_block (aes key) iv (cc + 1)).
Proof.
  intros Hc. destruct Hiv as (H0 & H1 & H2). unfold ctr_pair. cbv zeta.
  destruct (swap32_ok cc Hc) as [Hs0 Es0]. destruct (swap32_ok (u32 (cc + 1)) (u32_word _)) as [Hs1 Es1].
  assert (HL0 : zlen (replicate 8 0) = 8) by done.
  do 16 cstep.
  set (q := upd _ 7 _). assert (Hq : sliced 32 q) by (unfold q; repeat (apply sliced_upd; [|lia|done]); apply sliced_zero).
  assert (E0 : pair_block q 0 = iv ++ be_words 4 [u32 cc] 1).
  { rewrite u32_small by done. change (pair_block q 0) with (wblock (iv0, iv1, iv2, br_swap32 cc)).
    rewrite wblock_app, Es0. unfold iv. by rewrite <- !app_assoc. }
  assert (E1 : pair_block q 1 = iv ++ be_words 4 [u32 (cc + 1)] 1).
  { change (pair_block q 1) with (wblock (iv0, iv1, iv2, br_swap32 (u32 (cc + 1)))).
    rewrite wblock_app, Es1. unfold iv. by rewrite <- !app_assoc. }
  clearbody q. cstep. eapply ok_mono; [by apply (encrypt_pair_ok sk key q)|]. intros q2 [Hq2 EP].
  pose proof (EP 0 ltac:(lia)) as EP0. pose proof (EP 1 ltac:(lia)) as EP1. rewrite E0 in EP0. rewrite E1 in EP1.
  pose proof (proj1 Hq2) as HL2.
  assert (HX : forall i, 0 <= i < 8 -> word 32 (get q2 i)) by (intros; apply Hq2; lia).
  set (tmp := replicate 32 0). assert (HT : zlen tmp = 32) by done. clearbody tmp.
  cstep. apply ok_load; [lia|]. cstep. eapply ok_mono; [apply enc32_wbytes; [lia|lia|apply HX; lia]|].
  intros d1 [F1 S1]. pose proof (frame_len _ _ _ _ F1).
  cstep. apply ok_load; [lia|]. cstep. eapply ok_mono; [apply enc32_wbytes; [lia|lia|apply HX; lia]|].
  intros d2 [F2 S2]. pose proof (frame_len _ _ _ _ F2).
  cstep. apply ok_load; [lia|]. cstep. eapply ok_mono; [apply enc32_wbytes; [lia|lia|apply HX; lia]|].
  intros d3 [F3 S3]. pose proof (frame_len _ _ _ _ F3).
  cstep. apply ok_load; [lia|]. cstep. eapply ok_mono; [apply enc32_wbytes; [lia|lia|apply HX; lia]|].
  intros d4 [F4 S4]. pose proof (frame_len _ _ _ _ F4).
  cstep. apply ok_load; [lia|]. cstep. eapply ok_mono; [apply enc32_wbytes; [lia|lia|apply HX; lia]|].
  intros d5 [F5 S5]. pose proof (frame_len _ _ _ _ F5).
  cstep. apply ok_load; [lia|]. cstep. eapply ok_mono; [apply enc32_wbytes; [lia|lia|apply HX; lia]|].
  intros d6 [F6 S6]. pose proof (frame_len _ _ _ _ F6).
  cstep. apply ok_load; [lia|]. cstep. eapply ok_mono; [apply enc32_wbytes; [lia|lia|apply HX; lia]|].
  intros d7 [F7 S7]. pose proof (frame_len _ _ _ _ F7).
  cstep. apply ok_load; [lia|]. eapply ok_mono; [apply enc32_wbytes; [lia|lia|apply HX; lia]|].
  intros d8 [F8 S8]. pose proof (frame_len _ _ _ _ F8).
  destruct (four_encs tmp 0 d1 d2 d3 d4 _ _ _ _ ltac:(lia) ltac:(lia) F1 S1 F2 S2 F3 S3 F4 S4) as [_ SA].
  destruct (four_encs d4 16 d5 d6 d7 d8 _ _ _ _ ltac:(lia) ltac:(lia) F5 S5 F6 S6 F7 S7 F8 S8) as [FB SB].
  split; [lia|]. split.
  - rewrite (slice_frame _ _ _ _ _ _ FB), SA by lia. exact EP0.
  - rewrite SB. exact EP1.
Qed.

Lemma pair_stream cc t i : zlen t = 32 -> slice t 0 16 = ctr_block (aes key) iv cc ->
  slice t 16 16 = ctr_block (aes key) iv (cc + 1) -> 0 <= i < 32 -> get t i = ctr_stream 16 (aes key) iv cc i.
Proof.
  intros HL E0 E1 Hi. unfold ctr_stream. destruct (Z.lt_ge_cases i 16).
  - rewrite Z.div_small, Z.mod_small, Z.add_0_r, <- E0, get_slice by lia. f_equal.
  - replace (i / 16) with 1 by zn. replace (i mod 16) with (i - 16) by zn. rewrite <- E1, get_slice by lia. f_equal. lia.
Qed.

Lemma ctr_loop_ok fuel : forall cc data buf len, len < Z.of_nat fuel -> word 32 cc -> 0 <= buf -> 0 <= len ->
  buf + len <= zlen data ->
  ok (ctr_loop fuel nr sk iv0 iv1 iv2 cc data buf len) (fun '(d, cc') => frame buf (buf + len) data d /\
    cc' = ctr_end 16 cc len /\
    forall i, 0 <= i < len -> get d (buf + i) = get data (buf + i) .^ ctr_stream 16 (aes key) iv cc i).
Proof.
  induction fuel as [|fuel IH]; intros cc data buf len Hf Hc Hb Hn Hl; [lia|]. cbn [ctr_loop]. unfold ctr_end.
  apply ok_cond; intros Ht; [apply Z.ltb_lt in Ht|apply Z.ltb_ge in Ht].
  2: { assert (len = 0) as -> by lia. apply ok_ret. split; [apply frame_refl|].
    rewrite Z.div_small, Z.add_0_r, u32_small by (done || lia). split; [done|lia]. }
  cstep. eapply ok_mono; [by apply ctr_pair_ok|]. intros t (HT & E0 & E1).
  apply ok_cond; intros E; [apply Z.leb_le in E|apply Z.leb_gt in E].
  - cstep. eapply ok_mono; [apply (xorbuf_ok data buf t len); lia|]. intros d [HF HV].
    assert (HS : forall i, 0 <= i < len -> get d (buf + i) = get data (buf + i) .^ ctr_stream 16 (aes key) iv cc i)
      by (intros i Hi; rewrite HV, (pair_stream cc t) by (done || lia); done).
    apply ok_cond; intros E'; [apply Z.ltb_lt in E'|apply Z.ltb_ge in E']; apply ok_ret; (split; [done|]); (split; [|done]).
    + replace ((len + 16 - 1) / 16) with 2 by zn. unfold u32. rewrite Z.add_mod_idemp_l by lia. f_equal. lia.
    + by replace ((len + 16 - 1) / 16) with 1 by zn.
  - cstep. eapply ok_mono; [apply (xorbuf_ok data buf t 32); lia|]. intros d [HF HV]. pose proof (frame_len _ _ _ _ HF).
    eapply ok_mono; [apply (IH (u32 (cc + 2)) d (buf + 32) (len - 32)); try lia; apply u32_word|].
    intros [d' cc'] (HF' & -> & HV'). split; [|split].
    + eapply frame_trans; [eapply frame_weaken; [exact HF|lia..]|eapply frame_weaken; [exact HF'|lia..]].
    + unfold ctr_end, u32. rewrite Z.add_mod_idemp_l by lia. f_equal. zn.
    + intros i Hi. destruct (Z.lt_ge_cases i 32).
      * rewrite (frame_get _ _ _ _ (buf + i) HF') by lia. rewrite HV, (pair_stream cc t) by (done || lia). done.
      * replace (buf + i) with (buf + 32 + (i - 32)) by lia. rewrite HV' by lia.
        rewrite (frame_get _ _ _ _ _ HF) by lia. f_equal.
        by rewrite <- (ctr_stream_next 16 (aes key) iv cc 2 i) by lia.
Qed.
End Ctr.
End Keys.

(** * The interfaces *)

Definition aes_ct_alloc (ctx : aes_ct_keys_ctx) : Prop := zlen (ct_skey ctx) = 60.
(** The context holds the expansion of [key]. *)
Definition aes_ct_rep (ctx : aes_ct_keys_ctx) (key : list Z) : Prop :=
  aes_ct_alloc ctx /\ byte_string key /\ aes_key_len (zlen key) /\ ct_num_rounds ctx = aes_rounds (zlen key) /\
  compressed (ct_skey ctx) (aes_expanded key) (aes_rounds (zlen key)).

Lemma aes_ct_init_ok c key pos len : aes_ct_alloc c -> aes_key_len len -> 0 <= pos -> pos + len <= zlen key ->
  bytes key pos len -> ok (br_aes_ct_init c key pos len) (fun c => aes_ct_rep c (slice key pos len)).
Proof.
  intros Hc Hlen Hp Hl HB. unfold br_aes_ct_init. assert (HL : 16 <= len <= 32) by (destruct Hlen as [->|[->| ->]]; lia).
  cstep. eapply ok_mono; [apply keysched_ok; try done; unfold aes_ct_alloc in Hc; lia|]. intros [s nr] (-> & Hs & HC).
  apply ok_ret. unfold aes_ct_rep. cbn [ct_skey ct_num_rounds]. rewrite zlen_slice by lia.
  split; [unfold aes_ct_alloc in *; cbn; lia|]. split; [apply byte_string_slice; done || lia|]. done.
Qed.

Lemma aes_ct_expand_ok c key : aes_ct_rep c key ->
  ok (br_aes_ct_skey_expand (replicate 120 0) (ct_num_rounds c) (ct_skey c)) (fun sk => aes_ct_keys sk key).
Proof.
  intros (_ & Hk & HL & -> & HC). pose proof (aes_rounds_range _ HL). destruct (aes_expanded_ok key Hk HL) as [HB HZ].
  eapply ok_mono; [apply (skey_expand_ok _ _ (aes_expanded key)); try done; [lia|rewrite length_replicate; lia]|].
  intros sk HS. done.
Qed.

Lemma aes_ct_rounds c key : aes_ct_rep c key -> ct_num_rounds c = aes_rounds (zlen key).
Proof. by intros (_ & _ & _ & H & _). Qed.

Lemma block_eq s s' : zlen s = 16 -> zlen s' = 16 -> frame 0 16 s s' -> slice s' 0 16 = s'.
Proof. intros _ H _. by apply slice_all. Qed.

Lemma aes_cbcenc_run_ok c key iv data pos n : aes_ct_rep c key -> block 16 iv ->
  0 <= pos -> pos + 16 * Z.of_nat n <= zlen data -> bytes data pos (16 * Z.of_nat n) -> word 64 (zlen data) ->
  ok (br_aes_ct_cbcenc_run c iv data pos (16 * Z.of_nat n)) (fun '(iv', d) =>
    frame pos (pos + 16 * Z.of_nat n) data d /\
    slice d pos (16 * Z.of_nat n) = cbc_enc 16 (aes key) n iv (slice data pos (16 * Z.of_nat n)) /\
    iv' = cbc_next 16 iv (slice d pos (16 * Z.of_nat n))).
Proof.
  intros HR [Liv Biv] Hp Hl HB H64. unfold br_aes_ct_cbcenc_run. rewrite (aes_ct_rounds c key HR).
  cbv zeta. cstep. eapply ok_mono; [exact (zero_words_ok _ sliced_zero)|]. intros q [Hq _].
  cstep. rewrite <- (aes_ct_rounds c key HR) at 1. eapply ok_mono; [by apply aes_ct_expand_ok|]. intros sk HK.
  cstep. eapply ok_mono; [apply dec_block_ok; [lia|lia|by apply bytes_get in Biv; rewrite Liv in Biv]|]. intros w [Hw Ew].
  rewrite slice_all in Ew by done.
  cstep. eapply ok_mono; [apply (cbcenc_loop_ok key sk HK _ n); try done; lia|].
  intros [[[[a b] e] f] d] (HF & HS & HW & EV). cstep.
  eapply ok_mono; [apply (enc_block_ok iv 0); [lia|lia|done]|]. intros iv' [FV SV]. pose proof (frame_len _ _ _ _ FV).
  apply ok_ret. rewrite Ew in HS, EV. split; [done|]. split; [done|]. rewrite <- EV, <- SV. symmetry. apply slice_all. lia.
Qed.

Lemma aes_cbcdec_run_ok c key iv data pos n : aes_ct_rep c key -> block 16 iv ->
  0 <= pos -> pos + 16 * Z.of_nat n <= zlen data -> bytes data pos (16 * Z.of_nat n) ->
  ok (br_aes_ct_cbcdec_run c iv data pos (16 * Z.of_nat n)) (fun '(iv', d) =>
    frame pos (pos + 16 * Z.of_nat n) data d /\
    slice d pos (16 * Z.of_nat n) = cbc_dec 16 (aes_inv key) n iv (slice data pos (16 * Z.of_nat n)) /\
    iv' = cbc_next 16 iv (slice data pos (16 * Z.of_nat n))).
Proof.
  intros HR [Liv Biv] Hp Hl HB. unfold br_aes_ct_cbcdec_run. rewrite (aes_ct_rounds c key HR).
  cstep. rewrite <- (aes_ct_rounds c key HR) at 1. eapply ok_mono; [by apply aes_ct_expand_ok|]. intros sk HK.
  cstep. eapply ok_mono; [apply dec_block_ok; [lia|lia|by apply bytes_get in Biv; rewrite Liv in Biv]|]. intros w [Hw Ew].
  rewrite slice_all in Ew by done.
  cstep. eapply ok_mono; [apply (cbcdec_loop_ok key sk HK _ n); try done; lia|].
  intros [[[[a b] e] f] d] (HF & HS & HW & EV). cstep.
  eapply ok_mono; [apply (enc_block_ok iv 0); [lia|lia|done]|]. intros iv' [FV SV]. pose proof (frame_len _ _ _ _ FV).
  apply ok_ret. rewrite Ew in HS, EV. split; [done|]. split; [done|]. rewrite <- EV, <- SV. symmetry. apply slice_all. lia.
Qed.

Lemma aes_ctr_run_ok c key iv cc data pos len : aes_ct_rep c key -> zlen iv = 12 -> byte_string iv -> word 32 cc ->
  0 <= pos -> 0 <= len -> pos + len <= zlen data ->
  ok (br_aes_ct_ctr_run c iv cc data pos len) (fun '(d, cc') => frame pos (pos + len) data d /\
    slice d pos len = ctr 16 (aes key) iv cc (slice data pos len) /\ cc' = ctr_end 16 cc len).
Proof.
  intros HR Liv Biv Hc Hp Hn Hl. unfold br_aes_ct_ctr_run. rewrite (aes_ct_rounds c key HR).
  apply bytes_get in Biv. rewrite Liv in Biv.
  cstep. rewrite <- (aes_ct_rounds c key HR) at 1. eapply ok_mono; [by apply aes_ct_expand_ok|]. intros sk HK.
  assert (HB : forall k, 0 <= k <= 8 -> bytes iv k 4) by (intros k Hk; apply (limbs_sub 8 iv 0 12); [done|lia..]).
  cstep. eapply ok_mono; [apply dec32_wbytes; [lia|lia|apply HB; lia]|]. intros a [Wa Ea].
  cstep. eapply ok_mono; [apply dec32_wbytes; [lia|lia|apply HB; lia]|]. intros b [Wb Eb].
  cstep. eapply ok_mono; [apply dec32_wbytes; [lia|lia|apply HB; lia]|]. intros e [We Ee].
  eapply ok_mono; [apply (ctr_loop_ok key sk HK a b e); try done; lia|]. intros [d cc'] (HF & -> & HV).
  rewrite Ea, Eb, Ee in HV. assert (EI : slice iv 0 4 ++ slice iv 4 4 ++ slice iv 8 4 = iv).
  { transitivity (slice iv 0 12); [|by apply slice_all]. change 12 with (4 + (4 + 4)). by rewrite !slice_split by lia. }
  rewrite EI in HV. pose proof (frame_len _ _ _ _ HF). split; [done|]. split; [|done].
  apply list_eq_get; [by rewrite zlen_ctr, !zlen_slice by lia|]. rewrite zlen_slice by lia. intros i Hi.
  rewrite get_ctr, !get_slice by (rewrite ?zlen_slice; lia). by apply HV.
Qed.

#[export] Instance aes_ct_cbcenc : CbcClass :=
  {| cbc_ctx := aes_ct_keys_ctx; cbc_block_size := 16; cbc_init := br_aes_ct_cbcenc_init; cbc_run := br_aes_ct_cbcenc_run |}.
Definition aes_ct_cbcdec : CbcClass :=
  {| cbc_ctx := aes_ct_keys_ctx; cbc_block_size := 16; cbc_init := br_aes_ct_cbcdec_init; cbc_run := br_aes_ct_cbcdec_run |}.
#[export] Instance aes_ct_ctr : CtrClass :=
  {| ctr_ctx := aes_ct_keys_ctx; ctr_block_size := 16; ctr_init := br_aes_ct_ctr_init; ctr_run := br_aes_ct_ctr_run |}.

#[export] Instance aes_ct_cbcenc_spec : CbcSpec Encrypt aes_ct_cbcenc.
Proof.
  refine {| cbc_alloc := (aes_ct_alloc : @cbc_ctx aes_ct_cbcenc -> Prop); cbc_key := aes_key_len; cbc_cipher := aes;
    cbc_rep := (aes_ct_rep : @cbc_ctx aes_ct_cbcenc -> _ -> Prop) |}.
  - done.
  - intros c key pos len. apply aes_ct_init_ok.
  - intros c key iv data pos n. apply aes_cbcenc_run_ok.
Defined.

#[export] Instance aes_ct_cbcdec_spec : CbcSpec Decrypt aes_ct_cbcdec.
Proof.
  refine {| cbc_alloc := (aes_ct_alloc : @cbc_ctx aes_ct_cbcdec -> Prop); cbc_key := aes_key_len; cbc_cipher := aes_inv;
    cbc_rep := (aes_ct_rep : @cbc_ctx aes_ct_cbcdec -> _ -> Prop) |}.
  - done.
  - intros c key pos len. apply aes_ct_init_ok.
  - intros c key iv data pos n HR Hiv Hp Hl HB _. by apply aes_cbcdec_run_ok.
Defined.

#[export] Instance aes_ct_ctr_spec : CtrSpec aes_ct_ctr.
Proof.
  refine {| ctr_alloc := (aes_ct_alloc : @ctr_ctx aes_ct_ctr -> Prop); ctr_key := aes_key_len; ctr_cipher := aes;
    ctr_rep := (aes_ct_rep : @ctr_ctx aes_ct_ctr -> _ -> Prop); ctr_next := ctr_end 16 |}.
  - intros cc n Hn. unfold ctr_end, u32. cbn [ctr_block_size aes_ct_ctr]. do 2 f_equal. zn.
  - done.
  - by intros c key [H _].
  - intros c key pos len. apply aes_ct_init_ok.
  - intros c key iv cc data pos len HR Hiv Bi Hc Hp Hn Hl _ _. by apply aes_ctr_run_ok.
Defined.

#[export] Instance aes_ct_ctr_counts : CtrCounts aes_ct_ctr.
Proof. intros cc len _. reflexivity. Qed.

(** * Leakage: the lengths only *)

Lemma dec4_ct s1 s2 o : blind (dec4 s1 o) (dec4 s2 o).
Proof. unfold dec4. blind_auto. Qed.
Lemma enc4_ct d1 d2 o a1 b1 c1 e1 a2 b2 c2 e2 : blind (enc4 d1 o a1 b1 c1 e1) (enc4 d2 o a2 b2 c2 e2).
Proof. unfold enc4. blind_auto. Qed.
Lemma load4_ct q1 q2 a b c d : blind (load4 q1 a b c d) (load4 q2 a b c d).
Proof. unfold load4. blind_auto. Qed.
Lemma zero_words_ct q1 q2 : blind (zero_words q1) (zero_words q2).
Proof. unfold zero_words. blind_auto. Qed.
Lemma xor_words_ct q1 q2 d1 d2 b v1 v2 : blind (xor_words q1 d1 b v1) (xor_words q2 d2 b v2).
Proof. destruct v1 as [[[??]?]?], v2 as [[[??]?]?]. unfold xor_words. blind_auto. Qed.
Lemma dec_words_ct q1 q2 d1 d2 b o : blind (dec_words q1 d1 b o) (dec_words q2 d2 b o).
Proof. unfold dec_words. blind_auto. Qed.
Lemma enc_words_ct d1 d2 q1 q2 b o v1 v2 : blind (enc_words d1 q1 b o v1) (enc_words d2 q2 b o v2).
Proof. destruct v1 as [[[??]?]?], v2 as [[[??]?]?]. unfold enc_words. blind_auto. Qed.
#[export] Hint Resolve dec4_ct enc4_ct load4_ct zero_words_ct xor_words_ct dec_words_ct enc_words_ct : blind.

Lemma cbcenc_loop_ct fuel nr : forall k1 k2 q1 q2 v1 v2 d1 d2 buf len,
  blind (cbcenc_loop fuel nr k1 q1 v1 d1 buf len) (cbcenc_loop fuel nr k2 q2 v2 d2 buf len).
Proof.
  induction fuel as [|fuel IH]; intros; [by intros ??|]. cbn [cbcenc_loop].
  apply ct_cond; [done|intros _|intros _; by apply ct_ret].
  do 7 (apply blind_bind; [blind_auto|intros]). apply IH.
Qed.
Lemma cbcdec_loop_ct fuel nr : forall k1 k2 v1 v2 d1 d2 buf len,
  blind (cbcdec_loop fuel nr k1 v1 d1 buf len) (cbcdec_loop fuel nr k2 v2 d2 buf len).
Proof.
  induction fuel as [|fuel IH]; intros; [by intros ??|]. cbn [cbcdec_loop]. cbv zeta.
  apply ct_cond; [done|intros _|intros _; by apply ct_ret].
  do 5 (apply blind_bind; [blind_auto|intros]). apply ct_cond; [done|intros _; blind_auto|intros _].
  do 3 (apply blind_bind; [blind_auto|intros]). apply IH.
Qed.
Lemma ctr_pair_ct nr k1 k2 a1 a2 b1 b2 e1 e2 c1 c2 : blind (ctr_pair nr k1 a1 b1 e1 c1) (ctr_pair nr k2 a2 b2 e2 c2).
Proof. unfold ctr_pair. blind_auto. Qed.
Lemma xorbuf_ct d1 d2 p t1 t2 len : blind (xorbuf d1 p t1 len) (xorbuf d2 p t2 len).
Proof. unfold xorbuf. blind_auto. Qed.
#[export] Hint Resolve cbcenc_loop_ct cbcdec_loop_ct ctr_pair_ct xorbuf_ct : blind.
Lemma ctr_loop_ct fuel nr : forall k1 k2 a1 a2 b1 b2 e1 e2 c1 c2 d1 d2 buf len,
  blind (ctr_loop fuel nr k1 a1 b1 e1 c1 d1 buf len) (ctr_loop fuel nr k2 a2 b2 e2 c2 d2 buf len).
Proof.
  induction fuel as [|fuel IH]; intros; [by intros ??|]. cbn [ctr_loop].
  apply ct_cond; [done|intros _|intros _; by apply ct_ret].
  apply blind_bind; [blind_auto|intros]. apply ct_cond; [done|intros _; blind_auto|intros _].
  apply blind_bind; [blind_auto|intros]. apply IH.
Qed.
#[export] Hint Resolve ctr_loop_ct : blind.

Definition same_rounds (c1 c2 : aes_ct_keys_ctx) : Prop := ct_num_rounds c1 = ct_num_rounds c2.

Lemma aes_ct_init_ct c1 c2 k1 k2 pos len : ct same_rounds (br_aes_ct_init c1 k1 pos len) (br_aes_ct_init c2 k2 pos len).
Proof.
  unfold br_aes_ct_init. eapply ct_bind; [apply keysched_ct|]. intros [s1 n1] [s2 n2] E. apply ct_ret. exact E.
Qed.
Lemma aes_ct_cbcenc_ct c1 c2 v1 v2 d1 d2 pos len : same_rounds c1 c2 ->
  blind (br_aes_ct_cbcenc_run c1 v1 d1 pos len) (br_aes_ct_cbcenc_run c2 v2 d2 pos len).
Proof. intros E. unfold br_aes_ct_cbcenc_run. rewrite E. blind_auto. Qed.
Lemma aes_ct_cbcdec_ct c1 c2 v1 v2 d1 d2 pos len : same_rounds c1 c2 ->
  blind (br_aes_ct_cbcdec_run c1 v1 d1 pos len) (br_aes_ct_cbcdec_run c2 v2 d2 pos len).
Proof. intros E. unfold br_aes_ct_cbcdec_run. rewrite E. blind_auto. Qed.
Lemma aes_ct_ctr_ct c1 c2 v1 v2 cc1 cc2 d1 d2 pos len : same_rounds c1 c2 ->
  blind (br_aes_ct_ctr_run c1 v1 cc1 d1 pos len) (br_aes_ct_ctr_run c2 v2 cc2 d2 pos len).
Proof. intros E. unfold br_aes_ct_ctr_run. rewrite E. blind_auto. Qed.

#[export] Instance aes_ct_mode : AesMode aes_ct_ctr aes_ct_ctr_spec.
Proof. by split. Qed.

#[export] Instance aes_ct_ctr_blind : CtrCt aes_ct_ctr aes_ct_ctr_spec.
Proof.
  refine {| ctr_alike := (same_rounds : @ctr_ctx aes_ct_ctr -> _ -> Prop) |}.
  - intros c1 c2 k1 k2 (_ & _ & _ & E1 & _) (_ & _ & _ & E2 & _) E. unfold same_rounds. by rewrite E1, E2, E.
  - intros. apply aes_ct_init_ct.
  - intros. by apply aes_ct_ctr_ct.
Defined.

(** * Properties *)

Definition aes_fresh : aes_ct_keys_ctx := AesCtKeys (replicate 60 0) 0.

Lemma aes_fresh_alloc : aes_ct_alloc aes_fresh.
Proof. done. Qed.

(** CBC encryption with the bitsliced AES, from the bytes of a key to the
    bytes of the data: the blocks from [pos] become the ones of the mode of
    SP 800-38A over the cipher of FIPS 197, the vector the last of them, and
    nothing else changes. *)
Theorem br_aes_ct_cbcenc_correct key iv data pos n :
  byte_string key -> aes_key_len (zlen key) -> block 16 iv ->
  0 <= pos -> pos + 16 * Z.of_nat n <= zlen data -> bytes data pos (16 * Z.of_nat n) -> word 64 (zlen data) ->
  ok (cbc_once aes_ct_cbcenc aes_fresh key iv data pos (16 * Z.of_nat n)) (fun '(iv', d) =>
    frame pos (pos + 16 * Z.of_nat n) data d /\
    slice d pos (16 * Z.of_nat n) = cbc_enc 16 (aes key) n iv (slice data pos (16 * Z.of_nat n)) /\
    iv' = cbc_next 16 iv (slice d pos (16 * Z.of_nat n))).
Proof.
  intros Hk HL Hiv Hp Hl HB H64. destruct (whole_key key Hk) as [Hkb Hks]. unfold cbc_once. cstep.
  eapply ok_mono; [apply (aes_ct_init_ok aes_fresh); done || lia|]. intros c HR. rewrite Hks in HR.
  by apply aes_cbcenc_run_ok.
Qed.

Lemma br_aes_ct_cbcenc_correct_witness :
  ok (cbc_once aes_ct_cbcenc aes_fresh (replicate 24 5) (replicate 16 6) (replicate 40 7) 3 (16 * Z.of_nat 2)) (fun '(iv', d) =>
    frame 3 (3 + 16 * Z.of_nat 2) (replicate 40 7) d /\
    slice d 3 (16 * Z.of_nat 2) =
      cbc_enc 16 (aes (replicate 24 5)) 2 (replicate 16 6) (slice (replicate 40 7) 3 (16 * Z.of_nat 2)) /\
    iv' = cbc_next 16 (replicate 16 6) (slice d 3 (16 * Z.of_nat 2))).
Proof.
  apply (br_aes_ct_cbcenc_correct (replicate 24 5) (replicate 16 6) (replicate 40 7) 3 2).
  - by apply Forall_replicate.
  - right. by left.
  - split; [done|]. by apply Forall_replicate.
  - done.
  - done.
  - by apply limbsb_limbs.
  - done.
Defined.

(** [C14] Decryption with the bitsliced AES, which works on two blocks at a
    time, gives back what encryption was given - data of any number of blocks,
    vector and key of any allowed length. *)
Theorem br_aes_ct_cbc_round_trip key iv data pos n :
  byte_string key -> aes_key_len (zlen key) -> block 16 iv ->
  0 <= pos -> pos + 16 * Z.of_nat n <= zlen data -> bytes data pos (16 * Z.of_nat n) -> word 64 (zlen data) ->
  ok ('(_, data) ← cbc_once aes_ct_cbcenc aes_fresh key iv data pos (16 * Z.of_nat n);
      cbc_once aes_ct_cbcdec aes_fresh key iv data pos (16 * Z.of_nat n)) (fun '(_, d) => d = data).
Proof.
  intros Hk HL Hiv Hp Hl HB H64. destruct (whole_key key Hk) as [Hkb Hks]. unfold cbc_once.
  assert (Hs : byte_string (slice data pos (16 * Z.of_nat n))) by (apply byte_string_slice; done || lia).
  assert (HZ : zlen (slice data pos (16 * Z.of_nat n)) = 16 * Z.of_nat n) by (apply zlen_slice; lia).
  assert (HE : forall x, block 16 x -> block 16 (aes key x)) by (intros x Hx; by apply aes_ok).
  cstep. cstep. eapply ok_mono; [apply (aes_ct_init_ok aes_fresh); done || lia|]. intros c HR. rewrite Hks in HR.
  eapply ok_mono; [by apply (aes_cbcenc_run_ok c key)|]. intros [iv' d] (HF & HS & _). pose proof (frame_len _ _ _ _ HF).
  cstep. eapply ok_mono; [apply (aes_ct_init_ok aes_fresh); done || lia|]. intros c' HR'. rewrite Hks in HR'.
  eapply ok_mono; [apply (aes_cbcdec_run_ok c' key iv d pos n); try done; try lia|].
  { intros i Hi. destruct (cbc_enc_ok 16 ltac:(lia) (aes key) HE n iv _ Hiv Hs HZ) as [HB' HL'].
    rewrite <- HS in HB', HL'. apply bytes_get in HB'. specialize (HB' (i - pos) ltac:(lia)).
    rewrite get_slice in HB' by lia. by replace (pos + (i - pos)) with i in HB' by lia. }
  intros [iv'' d'] (HF' & HS' & _). apply (frame_slice_eq pos (16 * Z.of_nat n) data); [done|lia|done|by eapply frame_trans|done|].
  rewrite HS', HS. apply cbc_dec_enc; try done. intros x Hx. by apply aes_inv_aes.
Qed.

Lemma br_aes_ct_cbc_round_trip_witness :
  ok ('(_, data) ← cbc_once aes_ct_cbcenc aes_fresh (replicate 32 5) (replicate 16 6) (replicate 50 7) 1 (16 * Z.of_nat 3);
      cbc_once aes_ct_cbcdec aes_fresh (replicate 32 5) (replicate 16 6) data 1 (16 * Z.of_nat 3))
    (fun '(_, d) => d = replicate 50 7).
Proof.
  apply (br_aes_ct_cbc_round_trip (replicate 32 5) (replicate 16 6) (replicate 50 7) 1 3).
  - by apply Forall_replicate.
  - right. by right.
  - split; [done|]. by apply Forall_replicate.
  - done.
  - done.
  - by apply limbsb_limbs.
  - done.
Defined.

(** [C15] The bitsliced AES is constant-time: for two keys of the same length,
    two vectors and two texts of the same length, the two runs exist and leak
    the same trace, from the key schedule on, in CBC encryption and decryption of
    any number of blocks and in CTR mode on any number of bytes. *)
Theorem br_aes_ct_constant_time (c1 c2 : aes_ct_keys_ctx) key1 key2 iv1 iv2 (data1 data2 : list Z) ctr_iv1 ctr_iv2 cc1 cc2 pos n len :
  aes_ct_alloc c1 -> aes_ct_alloc c2 -> byte_string key1 -> byte_string key2 -> aes_key_len (zlen key1) -> zlen key1 = zlen key2 ->
  block 16 iv1 -> block 16 iv2 -> zlen ctr_iv1 = 12 -> zlen ctr_iv2 = 12 -> byte_string ctr_iv1 -> byte_string ctr_iv2 ->
  word 32 cc1 -> word 32 cc2 -> 0 <= pos -> 16 * Z.of_nat n <= len -> pos + len <= zlen data1 -> pos + len <= zlen data2 ->
  bytes data1 pos len -> bytes data2 pos len -> word 64 (zlen data1) -> word 64 (zlen data2) ->
  (exists t, trace (cbc_once aes_ct_cbcenc c1 key1 iv1 data1 pos (16 * Z.of_nat n)) = Some t /\
    trace (cbc_once aes_ct_cbcenc c2 key2 iv2 data2 pos (16 * Z.of_nat n)) = Some t) /\
  (exists t, trace (cbc_once aes_ct_cbcdec c1 key1 iv1 data1 pos (16 * Z.of_nat n)) = Some t /\
    trace (cbc_once aes_ct_cbcdec c2 key2 iv2 data2 pos (16 * Z.of_nat n)) = Some t) /\
  (exists t, trace (ctr_once aes_ct_ctr c1 key1 ctr_iv1 cc1 data1 pos len) = Some t /\
    trace (ctr_once aes_ct_ctr c2 key2 ctr_iv2 cc2 data2 pos len) = Some t).
Proof.
  intros A1 A2 K1 K2 HL E V1 V2 I1 I2 J1 J2 W1 W2 Hp Hn L1 L2 B1 B2 D1 D2.
  assert (HL2 : aes_key_len (zlen key2)) by (by rewrite <- E).
  assert (S1 : bytes data1 pos (16 * Z.of_nat n)) by (apply (limbs_sub 8 data1 pos len); [done|lia..]).
  assert (S2 : bytes data2 pos (16 * Z.of_nat n)) by (apply (limbs_sub 8 data2 pos len); [done|lia..]).
  split; [|split].
  - apply (cbc_once_trace key1 key2 data1 data2 pos K1 K2 Hp D1 D2 Encrypt _ aes_ct_cbcenc_spec _ aes_ct_cbcenc_spec); try done; try lia.
    unfold cbc_once. rewrite E. eapply ct_bind; [apply aes_ct_init_ct|intros x y H]. by apply aes_ct_cbcenc_ct.
  - apply (cbc_once_trace key1 key2 data1 data2 pos K1 K2 Hp D1 D2 Decrypt _ aes_ct_cbcdec_spec _ aes_ct_cbcdec_spec); try done; try lia.
    unfold cbc_once. rewrite E. eapply ct_bind; [apply aes_ct_init_ct|intros x y H]. by apply aes_ct_cbcdec_ct.
  - apply (ctr_once_trace key1 key2 data1 data2 pos K1 K2 Hp D1 D2 _ aes_ct_ctr_spec aes_ct_ctr_blind); done || lia.
Qed.

Lemma br_aes_ct_constant_time_witness :
  (exists t, trace (cbc_once aes_ct_cbcenc aes_fresh (replicate 16 1) (replicate 16 6) (replicate 60 7) 1 (16 * Z.of_nat 3)) = Some t /\
    trace (cbc_once aes_ct_cbcenc aes_fresh (replicate 16 2) (replicate 16 5) (replicate 60 8) 1 (16 * Z.of_nat 3)) = Some t) /\
  (exists t, trace (cbc_once aes_ct_cbcdec aes_fresh (replicate 16 1) (replicate 16 6) (replicate 60 7) 1 (16 * Z.of_nat 3)) = Some t /\
    trace (cbc_once aes_ct_cbcdec aes_fresh (replicate 16 2) (replicate 16 5) (replicate 60 8) 1 (16 * Z.of_nat 3)) = Some t) /\
  (exists t, trace (ctr_once aes_ct_ctr aes_fresh (replicate 16 1) (replicate 12 3) 4 (replicate 60 7) 1 55) = Some t /\
    trace (ctr_once aes_ct_ctr aes_fresh (replicate 16 2) (replicate 12 5) 9 (replicate 60 8) 1 55) = Some t).
Proof.
  apply (br_aes_ct_constant_time aes_fresh aes_fresh (replicate 16 1) (replicate 16 2) (replicate 16 6) (replicate 16 5)
    (replicate 60 7) (replicate 60 8) (replicate 12 3) (replicate 12 5) 4 9 1 3 55);
    first [done | by apply Forall_replicate | by left | by apply limbsb_limbs | split; [done|by apply Forall_replicate]].
Defined.

(** A key of a length that AES does not have: the schedule stops and reports no
    round. *)
Lemma br_aes_ct_bad_key comp key pos len : ~ aes_key_len len ->
  br_aes_ct_keysched comp key pos len = Some ([Br false; Br false; Br false; Br true], (comp, 0)).
Proof.
  intros Hn. unfold br_aes_ct_keysched, AesKeys.key_rounds, cond.
  destruct (Z.eqb_spec len 16); [destruct Hn; by left|]. destruct (Z.eqb_spec len 24); [destruct Hn; right; by left|].
  destruct (Z.eqb_spec len 32); [destruct Hn; right; by right|]. reflexivity.
Qed.

(** The first block of SP 800-38A, F.2.1. *)
Example aes_ct_cbc_sp800_38a :
  option_map snd (cbc_once aes_ct_cbcenc aes_fresh
    [0x2b; 0x7e; 0x15; 0x16; 0x28; 0xae; 0xd2; 0xa6; 0xab; 0xf7; 0x15; 0x88; 0x09; 0xcf; 0x4f; 0x3c]
    (map Z.of_nat (seq 0 16))
    [0x6b; 0xc1; 0xbe; 0xe2; 0x2e; 0x40; 0x9f; 0x96; 0xe9; 0x3d; 0x7e; 0x11; 0x73; 0x93; 0x17; 0x2a] 0 16) =
  Some (let c := [0x76; 0x49; 0xab; 0xac; 0x81; 0x19; 0xb2; 0x46; 0xce; 0xe9; 0x8e; 0x9b; 0x12; 0xe9; 0x19; 0x7d] in (c, c)).
Proof. vm_compute. reflexivity. Qed.
