(* ===== verification/AesCt64Modes.v ===== *)
(** CBC and CTR over the bitsliced AES on 64-bit words
    ([src/symcipher/aes_ct64_cbcenc.c], [aes_ct64_cbcdec.c],
    [aes_ct64_ctr.c]): they compute the modes of SP 800-38A over AES, four
    blocks at a time where the mode allows it, and discharge the interfaces of
    [Modes].  The counter that the CTR function returns does not count a last
    partial block. *)
From stdpp Require Import base tactics list numbers option.
From Stdlib Require Import ZArith Lia.
From S2P Require Import Prelude CtPrims Limbs Codec Hash HashPad BitExpr Fips197 AesSbox AesSlice AesKeys Modes AesCtModes AesCt64.
Local Open Scope Z_scope.
Local Open Scope cword_scope.

(** * Code *)

(** [br_aes_ct64_cbcenc_keys], [br_aes_ct64_cbcdec_keys],
    [br_aes_ct64_ctr_keys]. *)
Record aes_ct64_keys_ctx := AesCt64Keys { ct64_skey : list Z; ct64_num_rounds : Z }.

Definition br_aes_ct64_init (ctx : aes_ct64_keys_ctx) (key : list Z) (pos len : Z) : M aes_ct64_keys_ctx :=
  '(skey, num_rounds) ← br_aes_ct64_keysched (ct64_skey ctx) key pos len;
  mret (AesCt64Keys skey num_rounds).
Definition br_aes_ct64_cbcenc_init := br_aes_ct64_init.
Definition br_aes_ct64_cbcdec_init := br_aes_ct64_init.
Definition br_aes_ct64_ctr_init := br_aes_ct64_init.

(** The arrays [q] and [w1] of the CBC functions are not initialised: [stack p]
    is what they hold at the turn for the data at [p]. *)
Section Stack.
Context (stack : Z -> list Z).

(** ** CBC encryption: the words of one block are set *)
Definition xor_block (ivw data : list Z) (buf : Z) : M (list Z) :=
  let w := replicate 4 0 in
  a ← load ivw 0; x ← br_dec32le data buf; w ← store w 0 (a .^ x);
  a ← load ivw 1; x ← br_dec32le data (buf + 4); w ← store w 1 (a .^ x);
  a ← load ivw 2; x ← br_dec32le data (buf + 8); w ← store w 2 (a .^ x);
  a ← load ivw 3; x ← br_dec32le data (buf + 12); store w 3 (a .^ x).

Fixpoint cbcenc64_loop (fuel : nat) (num_rounds : Z) (sk_exp ivw data : list Z) (buf len : Z) : M (list Z * list Z) :=
  match fuel with
  | O => None
  | S fuel =>
      If 0 <? len Then
        w ← xor_block ivw data buf;
        q ← br_aes_ct64_interleave_in (stack buf) 0 4 w 0;
        q ← br_aes_ct64_ortho q;
        q ← br_aes_ct64_bitslice_encrypt num_rounds sk_exp q;
        q ← br_aes_ct64_ortho q;
        q0 ← load q 0;
        q4 ← load q 4;
        w ← br_aes_ct64_interleave_out w 0 q0 q4;
        ivw ← memcpy ivw 0 w 0 4;
        w0 ← load w 0;
        w1 ← load w 1;
        w2 ← load w 2;
        w3 ← load w 3;
        data ← enc4 data buf w0 w1 w2 w3;
        cbcenc64_loop fuel num_rounds sk_exp ivw data (buf + 16) (u64 (len - 16))
      Else mret (ivw, data)
  end.

Definition br_aes_ct64_cbcenc_run (ctx : aes_ct64_keys_ctx) (iv data : list Z) (pos len : Z) : M (list Z * list Z) :=
  sk_exp ← br_aes_ct64_skey_expand (replicate 120 0) (ct64_num_rounds ctx) (ct64_skey ctx);
  ivw ← br_range_dec32le (replicate 4 0) 4 iv 0;
  '(ivw, data) ← cbcenc64_loop (S (Z.to_nat len)) (ct64_num_rounds ctx) sk_exp ivw data pos len;
  iv ← br_range_enc32le iv 0 ivw 4;
  mret (iv, data).

(** ** CBC decryption *)

(** The words of four blocks, interleaved, and back. *)
Definition four_in (w : list Z) : M (list Z) :=
  for_up 0 4 (fun i q => br_aes_ct64_interleave_in q i (i + 4) w (i << 2)) (replicate 8 0).
Definition four_out (q w : list Z) : M (list Z) :=
  for_up 0 4 (fun i w => a ← load q i; b ← load q (i + 4); br_aes_ct64_interleave_out w (i << 2) a b) w.

(** [w2[i] ^= v[i - d]] for [i] from [lo] to [hi]. *)
Definition xor_from (w2 v : list Z) (lo hi d : Z) : M (list Z) :=
  for_up lo hi (fun i w2 => x ← load w2 i; y ← load v (i - d); store w2 i (x .^ y)) w2.

Fixpoint cbcdec64_loop (fuel : nat) (num_rounds : Z) (sk_exp ivw data : list Z) (buf len : Z) : M (list Z * list Z) :=
  match fuel with
  | O => None
  | S fuel =>
      If 0 <? len Then
        w1 ← (If 64 <=? len Then br_range_dec32le (stack buf) 16 data buf
              Else br_range_dec32le (stack buf) (len >> 2) data buf);
        q ← four_in w1;
        q ← br_aes_ct64_ortho q;
        q ← br_aes_ct64_bitslice_decrypt num_rounds sk_exp q;
        q ← br_aes_ct64_ortho q;
        w2 ← four_out q (replicate 16 0);
        w2 ← xor_from w2 ivw 0 4 0;
        If 64 <=? len Then
          w2 ← xor_from w2 w1 4 16 4;
          ivw ← memcpy ivw 0 w1 12 4;
          data ← br_range_enc32le data buf w2 16;
          cbcdec64_loop fuel num_rounds sk_exp ivw data (buf + 64) (len - 64)
        Else
          let j := len >> 2 in
          w2 ← xor_from w2 w1 4 j 4;
          ivw ← memcpy ivw 0 w1 (j - 4) 4;
          data ← br_range_enc32le data buf w2 j;
          mret (ivw, data)
      Else mret (ivw, data)
  end.

Definition br_aes_ct64_cbcdec_run (ctx : aes_ct64_keys_ctx) (iv data : list Z) (pos len : Z) : M (list Z * list Z) :=
  sk_exp ← br_aes_ct64_skey_expand (replicate 120 0) (ct64_num_rounds ctx) (ct64_skey ctx);
  ivw ← br_range_dec32le (replicate 4 0) 4 iv 0;
  '(ivw, data) ← cbcdec64_loop (S (Z.to_nat len)) (ct64_num_rounds ctx) sk_exp ivw data pos len;
  iv ← br_range_enc32le iv 0 ivw 4;
  mret (iv, data).
End Stack.

(** ** CTR *)

Definition xorbuf : list Z -> Z -> list Z -> Z -> M (list Z) := AesCtModes.xorbuf.

(** The key stream of four blocks. *)
Definition ctr_quad (num_rounds : Z) (sk_exp ivw : list Z) (cc : Z) : M (list Z) :=
  w ← memcpy (replicate 16 0) 0 ivw 0 16;
  w ← store w 3 (br_swap32 cc);
  w ← store w 7 (br_swap32 (u32 (cc + 1)));
  w ← store w 11 (br_swap32 (u32 (cc + 2)));
  w ← store w 15 (br_swap32 (u32 (cc + 3)));
  q ← four_in w;
  q ← br_aes_ct64_ortho q;
  q ← br_aes_ct64_bitslice_encrypt num_rounds sk_exp q;
  q ← br_aes_ct64_ortho q;
  w ← four_out q w;
  br_range_enc32le (replicate 64 0) 0 w 16.

Fixpoint ctr64_loop (fuel : nat) (num_rounds : Z) (sk_exp ivw : list Z) (cc : Z) (data : list Z) (buf len : Z)
    : M (list Z * Z) :=
  match fuel with
  | O => None
  | S fuel =>
      If 0 <? len Then
        tmp ← ctr_quad num_rounds sk_exp ivw cc;
        If len <=? 64 Then
          data ← xorbuf data buf tmp len;
          mret (data, u32 (cc + (u32 len >> 4)))
        Else
        data ← xorbuf data buf tmp 64;
        ctr64_loop fuel num_rounds sk_exp ivw (u32 (cc + 4)) data (buf + 64) (len - 64)
      Else mret (data, cc)
  end.

(** The vector, four times. *)
Definition ctr_words (iv : list Z) : M (list Z) :=
  ivw ← br_range_dec32le (replicate 16 0) 3 iv 0;
  ivw ← memcpy ivw 4 ivw 0 3;
  ivw ← memcpy ivw 8 ivw 0 3;
  memcpy ivw 12 ivw 0 3.

Definition br_aes_ct64_ctr_run (ctx : aes_ct64_keys_ctx) (iv : list Z) (cc : Z) (data : list Z) (pos len : Z)
    : M (list Z * Z) :=
  sk_exp ← br_aes_ct64_skey_expand (replicate 120 0) (ct64_num_rounds ctx) (ct64_skey ctx);
  ivw ← ctr_words iv;
  ctr64_loop (S (Z.to_nat len)) (ct64_num_rounds ctx) sk_exp ivw cc data pos len.

(** * Blocks in arrays of words *)

Lemma words_at_ext w w' o o' : (forall i, 0 <= i < 4 -> get w (o + i) = get w' (o' + i)) -> words_at w o = words_at w' o'.
Proof.
  intros H. unfold words_at. pose proof (H 0 ltac:(lia)) as H0. rewrite !Z.add_0_r in H0.
  by rewrite H0, (H 1), (H 2), (H 3) by lia.
Qed.

(** Decoded words are the blocks of the data. *)
Lemma dec_quads_ok v m s o : 0 <= m -> 4 * m <= zlen v -> limbs 32 v 0 (zlen v) -> 0 <= o -> o + 16 * m <= zlen s ->
  bytes s o (16 * m) ->
  ok (br_range_dec32le v (4 * m) s o) (fun v' => zlen v' = zlen v /\ limbs 32 v' 0 (zlen v) /\
    forall k, 0 <= k < m -> words_at v' (4 * k) = slice s (o + 16 * k) 16).
Proof.
  intros Hm Hv Hw Ho Hl HB.
  eapply ok_mono; [apply range_dec32_wbytes; [lia|lia|lia|lia|]|]; [apply (limbs_sub 8 s o (16 * m)); [done|lia..]|].
  intros v' [HF HG]. pose proof (frame_len _ _ _ _ HF). split; [done|]. split.
  - intros i Hi. destruct (Z.lt_ge_cases i (4 * m)); [apply HG; lia|]. rewrite (frame_get _ _ _ _ i HF) by lia. apply Hw. lia.
  - intros k Hk. unfold words_at. rewrite wblock_app, slice_16 by lia.
    destruct (HG (4 * k) ltac:(lia)) as [_ ->]. destruct (HG (4 * k + 1) ltac:(lia)) as [_ ->].
    destruct (HG (4 * k + 2) ltac:(lia)) as [_ ->]. destruct (HG (4 * k + 3) ltac:(lia)) as [_ ->].
    replace (o + 4 * (4 * k)) with (o + 16 * k) by lia. replace (o + 4 * (4 * k + 1)) with (o + 16 * k + 4) by lia.
    replace (o + 4 * (4 * k + 2)) with (o + 16 * k + 8) by lia. by replace (o + 4 * (4 * k + 3)) with (o + 16 * k + 12) by lia.
Qed.

(** Encoded words are blocks. *)
Lemma slice_words w n k : 0 <= k -> 4 * k + 4 <= n -> slice (le_words 4 w n) (16 * k) 16 = words_at w (4 * k).
Proof.
  intros Hk Hn. pose proof (zlen_le_words 4 w n ltac:(lia)) as HL.
  apply state_eq; [apply zlen_slice; lia|apply wblock_ok|].
  intros r c Hr Hc. rewrite cell_words_at by done. unfold cell. rewrite get_slice by lia. unfold le_words.
  rewrite get_map_seq, Z2Nat.id by lia. replace ((16 * k + (r + 4 * c)) / 4) with (4 * k + c) by zn.
  by replace ((16 * k + (r + 4 * c)) mod 4) with r by zn.
Qed.

Lemma enc_quads_ok d o w m : 0 <= m -> 4 * m <= zlen w -> limbs 32 w 0 (4 * m) -> 0 <= o -> o + 16 * m <= zlen d ->
  ok (br_range_enc32le d o w (4 * m)) (fun d' => frame o (o + 16 * m) d d' /\
    forall k, 0 <= k < m -> slice d' (o + 16 * k) 16 = words_at w (4 * k)).
Proof.
  intros Hm Hv Hw Ho Hl.
  eapply ok_mono; [apply (range_enc_le (HC:=codec32le)); [lia|lia|lia|lia|intros i Hi; apply Hw; lia]|].
  intros d' [HF HS]. replace (4 * (4 * m)) with (16 * m) in * by lia. split; [done|]. intros k Hk.
  pose proof (frame_len _ _ _ _ HF). rewrite <- (slice_words w (4 * m) k) by lia. rewrite <- HS.
  apply list_eq_get; rewrite !zlen_slice; rewrite ?zlen_slice; try lia. intros i Hi. rewrite !get_slice by lia. f_equal. lia.
Qed.

(** The loops over the four blocks. *)
Lemma four_in_ok w : zlen w = 16 -> limbs 32 w 0 16 ->
  ok (four_in w) (fun q => sliced 64 q /\ forall b, 0 <= b < 4 -> quad_block q b = words_at w (4 * b)).
Proof.
  intros HL Hw. unfold four_in.
  apply (ok_for_up (fun i q => sliced 64 q /\ forall b, 0 <= b < i -> quad_block q b = words_at w (4 * b))).
  - lia.
  - split; [|lia]. split; [done|]. by apply limbsb_limbs.
  - intros i q Hi [Hq HE]. rewrite shl_mul by lia. replace (i * 2 ^ 2) with (4 * i) by lia.
    apply interleave_in_ok; [done|lia|lia|lia|apply (limbs_sub 32 w 0 16); [done|lia..]|].
    intros q' Hq' Ei Eo. split; [done|]. intros b Hb. destruct (Z.eq_dec b i) as [->|]; [done|].
    rewrite Eo by lia. apply HE. lia.
  - done.
Qed.

Lemma four_out_ok q w : sliced 64 q -> zlen w = 16 ->
  ok (four_out q w) (fun w' => zlen w' = 16 /\ limbs 32 w' 0 16 /\
    forall b, 0 <= b < 4 -> words_at w' (4 * b) = quad_block q b).
Proof.
  intros Hq HL. pose proof (proj1 Hq) as HLq. unfold four_out.
  apply (ok_for_up (fun i w' => zlen w' = 16 /\ limbs 32 w' 0 (4 * i) /\
    forall b, 0 <= b < i -> words_at w' (4 * b) = quad_block q b)).
  - lia.
  - split; [done|]. split; [intros i Hi; lia|lia].
  - intros i w' Hi (HL' & HW & HE). rewrite shl_mul by lia. replace (i * 2 ^ 2) with (4 * i) by lia.
    cstep. apply ok_load; [lia|]. cstep. apply ok_load; [lia|].
    eapply ok_mono; [apply (interleave_out_ok w' (4 * i) q i); [done|lia..]|].
    intros v (HF & HV & Ev). split; [rewrite (frame_len _ _ _ _ HF); lia|]. split.
    + intros j Hj. destruct (Z.lt_ge_cases j (4 * i)); [rewrite (frame_get _ _ _ _ j HF) by lia; apply HW; lia|].
      apply HV. lia.
    + intros b Hb. destruct (Z.eq_dec b i) as [->|]; [done|]. rewrite <- HE by lia. apply words_at_ext.
      intros j Hj. apply (frame_get _ _ _ _ _ HF); lia.
  - done.
Qed.

Lemma xor_from_ok w v lo hi d : 0 <= lo -> hi <= zlen w -> 0 <= lo - d -> hi - d <= zlen v ->
  ok (xor_from w v lo hi d) (fun w' => zlen w' = zlen w /\
    forall i, 0 <= i -> get w' i = if decide (lo <= i < hi) then get w i .^ get v (i - d) else get w i).
Proof.
  intros Hlo Hhi Hd Hv. destruct (Z.lt_ge_cases hi lo) as [HN|HN].
  { unfold xor_from, for_up. replace (Z.to_nat (hi - lo)) with 0%nat by lia. cbn [for_n]. cstep. cstep. split; [done|].
    intros i Hi. by rewrite decide_False by lia. }
  apply (ok_for_up (fun u w' => zlen w' = zlen w /\
    forall i, 0 <= i -> get w' i = if decide (lo <= i < u) then get w i .^ get v (i - d) else get w i)); [done| | |done].
  - split; [done|]. intros i Hi. by rewrite decide_False by lia.
  - intros u w' Hu [HL HE]. csteps; try lia. rewrite zlen_upd. split; [done|]. intros i Hi.
    destruct (Z.eq_dec i u) as [->|].
    + rewrite get_upd_eq, HE by lia. by rewrite decide_False, decide_True by lia.
    + rewrite get_upd_ne, HE by lia. by destruct (decide (lo <= i < u)); [rewrite decide_True by lia|rewrite decide_False by lia].
Qed.

(** Exclusive or of words, block by block. *)
Lemma words_at_lxor w v t o p : (forall i, 0 <= i < 4 -> get t (o + i) = get w (o + i) .^ get v (p + i)) ->
  words_at t o = xor_list (words_at w o) (words_at v p).
Proof.
  intros H. unfold words_at. pose proof (H 0 ltac:(lia)) as H0. rewrite !Z.add_0_r in H0.
  by rewrite H0, (H 1), (H 2), (H 3), wblock_lxor by lia.
Qed.

Section Keys.
Context (key sk : list Z) (HK : aes_ct64_keys sk key).
Let nr := aes_rounds (zlen key).

(** The vector in words. *)
Definition vector (ivw iv : list Z) : Prop := zlen ivw = 4 /\ limbs 32 ivw 0 4 /\ words_at ivw 0 = iv.

Lemma words_at_len w o : zlen (words_at w o) = 16.
Proof. apply wblock_ok. Qed.

Section Cbc.
Context (stack : Z -> list Z).

(** ** CBC encryption *)

Lemma xor_vector_ok ivw iv data buf : vector ivw iv -> 0 <= buf -> buf + 16 <= zlen data -> bytes data buf 16 ->
  ok (xor_block ivw data buf) (fun w => zlen w = 4 /\ limbs 32 w 0 4 /\ words_at w 0 = xor_list iv (slice data buf 16)).
Proof.
  intros (HL & HW & HE) Hb Hl HB. unfold xor_block. cbv zeta.
  assert (H : forall k, 0 <= k <= 12 -> bytes data (buf + k) 4) by (intros k Hk; apply (limbs_sub 8 data buf 16); [done|lia..]).
  cstep. apply ok_load; [lia|]. cstep. eapply ok_mono; [apply dec32_wbytes; [lia|lia|]|]; [rewrite <- (Z.add_0_r buf); apply H; lia|].
  intros a [Wa Ea]. cstep. apply ok_store; [done|].
  cstep. apply ok_load; [lia|]. cstep. eapply ok_mono; [apply dec32_wbytes; [lia|lia|apply H; lia]|]. intros b [Wb Eb].
  cstep. apply ok_store; [rewrite zlen_upd; simpl length; lia|].
  cstep. apply ok_load; [lia|]. cstep. eapply ok_mono; [apply dec32_wbytes; [lia|lia|apply H; lia]|]. intros c [Wc Ec].
  cstep. apply ok_store; [rewrite !zlen_upd; simpl length; lia|].
  cstep. apply ok_load; [lia|]. cstep. eapply ok_mono; [apply dec32_wbytes; [lia|lia|apply H; lia]|]. intros d [Wd Ed].
  apply ok_store; [rewrite !zlen_upd; simpl length; lia|].
  match goal with |- context [upd (upd (upd (upd ?w 0 ?x) 1 ?y) 2 ?z) 3 ?t] =>
    change (upd (upd (upd (upd w 0 x) 1 y) 2 z) 3 t) with [x; y; z; t] end. split; [done|].
  split.
  - intros i Hi. assert (i = 0 \/ i = 1 \/ i = 2 \/ i = 3) as HI by lia.
    destruct HI as [->|[->|[->| ->]]]; (apply word_lxor; [lia|apply HW; lia|done]).
  - change (wblock (get ivw 0 .^ a, get ivw 1 .^ b, get ivw 2 .^ c, get ivw 3 .^ d) = xor_list iv (slice data buf 16)).
    rewrite wblock_lxor. change (wblock (get ivw 0, get ivw 1, get ivw 2, get ivw 3)) with (words_at ivw 0). rewrite HE. f_equal.
    rewrite wblock_app, Ea, Eb, Ec, Ed. symmetry. by apply slice_16.
Qed.

Lemma copy_vector_ok ivw w o (Q : list Z -> Prop) : zlen ivw = 4 -> 0 <= o -> o + 4 <= zlen w -> limbs 32 w o 4 ->
  (forall v, vector v (words_at w o) -> Q v) -> ok (memcpy ivw 0 w o 4) Q.
Proof.
  intros HL Ho Hl HW HQ. apply ok_memcpy; try lia. apply HQ.
  assert (HG : forall i, 0 <= i < 4 -> get (blit ivw 0 w o 4) i = get w (o + i)).
  { intros i Hi. rewrite get_blit_in by lia. f_equal. lia. }
  split; [rewrite zlen_blit; lia|]. split.
  - intros i Hi. rewrite HG by lia. apply HW. lia.
  - apply words_at_ext. intros i Hi. rewrite Z.add_0_l. by apply HG.
Qed.

Lemma cbcenc64_loop_ok (Hst : forall p, sliced 64 (stack p)) fuel : forall n ivw iv data buf, (n < fuel)%nat -> vector ivw iv ->
  0 <= buf -> buf + 16 * Z.of_nat n <= zlen data -> bytes data buf (16 * Z.of_nat n) -> word 64 (zlen data) ->
  ok (cbcenc64_loop stack fuel nr sk ivw data buf (16 * Z.of_nat n)) (fun '(ivw', d) =>
    frame buf (buf + 16 * Z.of_nat n) data d /\
    slice d buf (16 * Z.of_nat n) = cbc_enc 16 (aes key) n iv (slice data buf (16 * Z.of_nat n)) /\
    vector ivw' (cbc_next 16 iv (slice d buf (16 * Z.of_nat n)))).
Proof.
  induction fuel as [|fuel IH]; intros n ivw iv data buf Hf Hiv Hb Hl HB H64; [lia|]. cbn [cbcenc64_loop].
  assert (Liv : zlen iv = 16) by (destruct Hiv as (_ & _ & <-); apply words_at_len).
  apply ok_cond; intros Ht; [apply Z.ltb_lt in Ht|apply Z.ltb_ge in Ht].
  2: { assert (n = 0%nat) as -> by lia. apply ok_ret. split; [apply frame_refl|]. change (16 * Z.of_nat 0) with 0.
    rewrite !slice_nil. split; [done|]. by rewrite cbc_next_nil. }
  destruct n as [|n]; [lia|]. rewrite Nat2Z.inj_succ in *.
  cstep. eapply ok_mono; [apply xor_vector_ok; try done; [lia|apply (limbs_sub 8 data buf (16 * Z.succ (Z.of_nat n))); [done|lia..]]|].
  intros w (Lw & Ww & Ew). cstep.
  apply (interleave_in_ok (stack buf) 0 w 0); [apply Hst|lia|lia|lia|done|]. intros q1 Hq1 E1 _. rewrite Ew in E1.
  apply (encrypt_quad_ok sk key q1); [done|done|]. intros q2 Hq2 E2.
  specialize (E2 0 ltac:(lia)). rewrite E1 in E2. set (c := aes key _) in E2. pose proof (proj1 Hq2) as HL2.
  cstep. apply ok_load; [lia|]. cstep. apply ok_load; [lia|].
  cstep. eapply ok_mono; [apply (interleave_out_ok w 0 q2 0); [done|lia..]|]. intros v (Fv & Wv & Ev).
  rewrite E2 in Ev. pose proof (frame_len _ _ _ _ Fv) as Lv.
  cstep. apply copy_vector_ok; [apply Hiv|lia|lia|done|]. rewrite Ev. intros ivw' Hv'.
  do 8 cstep. assert (HW : words4 (get v 0, get v 1, get v 2, get v 3)) by (repeat split; apply Wv; lia).
  cstep. eapply ok_mono; [apply (enc_block_ok data buf); [lia|lia|exact HW]|]. intros d1 [F1 S1].
  change (wblock _) with (words_at v 0) in S1. rewrite Ev in S1. pose proof (frame_len _ _ _ _ F1).
  rewrite u64_small by (unfold word in *; lia). replace (16 * Z.succ (Z.of_nat n) - 16) with (16 * Z.of_nat n) by lia.
  eapply ok_mono; [apply (IH n ivw' c d1 (buf + 16)); try done; try lia|].
  { apply (bytes_after data d1 buf 16 _ F1); [lia|lia|]. apply (limbs_sub 8 data buf (16 * Z.succ (Z.of_nat n))); [done|lia..]. }
  { unfold word in *. lia. }
  intros [iv' d] (F2 & S2 & EV). pose proof (frame_len _ _ _ _ F2).
  assert (Lc : zlen c = 16) by (rewrite <- S1; apply zlen_slice; lia).
  assert (ES : slice d buf (16 * Z.succ (Z.of_nat n)) = c ++ slice d (buf + 16) (16 * Z.of_nat n)).
  { replace (16 * Z.succ (Z.of_nat n)) with (16 + 16 * Z.of_nat n) by lia. rewrite slice_split by lia. f_equal.
    rewrite <- S1. apply (slice_frame _ _ _ _ _ _ F2); lia. }
  split; [|split].
  - eapply frame_trans; [eapply frame_weaken; [exact F1|lia..]|eapply frame_weaken; [exact F2|lia..]].
  - rewrite <- Nat2Z.inj_succ, cbc_enc_step by lia. rewrite Nat2Z.inj_succ. rewrite ES, S2. fold c. do 2 f_equal.
    apply (slice_frame _ _ _ _ _ _ F1); lia.
  - rewrite ES, cbc_next_app by done. done.
Qed.

(** ** CBC decryption *)

(** The blocks of [d] are those of [data], decrypted. *)
Definition dec_blocks (iv data : list Z) (buf m : Z) (d : list Z) : Prop :=
  forall k, 0 <= k < m ->
    slice d (buf + 16 * k) 16 = xor_list (cbc_prev 16 iv data buf k) (aes_inv key (slice data (buf + 16 * k) 16)).

Lemma xor_list_comm a b : zlen a = zlen b -> xor_list a b = xor_list b a.
Proof.
  intros HL. apply list_eq_get; rewrite !xor_list_len; try lia. intros i Hi. rewrite !get_xor_list by lia. apply Z.lxor_comm.
Qed.

Lemma data_block data buf n o : 0 <= buf -> buf + 16 * Z.of_nat n <= zlen data -> bytes data buf (16 * Z.of_nat n) ->
  buf <= o -> o + 16 <= buf + 16 * Z.of_nat n -> block 16 (slice data o 16).
Proof.
  intros Hb Hl HB Ho Ho'. split; [apply zlen_slice; lia|]. apply byte_string_slice; [lia..| |lia].
  apply (limbs_sub 8 data buf (16 * Z.of_nat n)); [done|lia..].
Qed.

Lemma cbc_prev_len n iv data buf k : zlen iv = 16 -> 0 <= buf -> buf + 16 * Z.of_nat n <= zlen data -> 0 <= k <= Z.of_nat n ->
  zlen (cbc_prev 16 iv data buf k) = 16.
Proof. intros Hi Hb Hl Hk. unfold cbc_prev. case_decide; [done|]. apply zlen_slice; lia. Qed.

(** The part of a turn after the deciphering, on [m] blocks: [w1] has the data,
    [w2] the deciphered words. *)
Lemma unchain_ok {A} n m ivw iv w1 w2 u data buf (f : list Z -> list Z -> M A) P :
  1 <= m <= 4 -> m <= Z.of_nat n -> vector ivw iv -> 0 <= buf -> buf + 16 * Z.of_nat n <= zlen data ->
  bytes data buf (16 * Z.of_nat n) ->
  zlen w1 = 16 -> limbs 32 w1 0 16 -> (forall k, 0 <= k < m -> words_at w1 (4 * k) = slice data (buf + 16 * k) 16) ->
  zlen w2 = 16 -> limbs 32 w2 0 16 -> (forall k, 0 <= k < 4 -> words_at w2 (4 * k) = aes_inv key (words_at w1 (4 * k))) ->
  zlen u = zlen w2 /\ (forall i, 0 <= i -> get u i = if decide (0 <= i < 4) then get w2 i .^ get ivw (i - 0) else get w2 i) ->
  (forall ivw' d, frame buf (buf + 16 * m) data d -> dec_blocks iv data buf m d -> vector ivw' (cbc_prev 16 iv data buf m) ->
    ok (f ivw' d) P) ->
  ok (w2 ← xor_from u w1 4 (4 * m) 4;
      ivw ← memcpy ivw 0 w1 (4 * m - 4) 4;
      data ← br_range_enc32le data buf w2 (4 * m);
      f ivw data) P.
Proof.
  intros Hm Hmn Hiv Hb Hl HB L1 W1 E1 L2 W2 E2 [Lu Gu] HP.
  assert (Liv : zlen iv = 16) by (destruct Hiv as (_ & _ & <-); apply words_at_len). pose proof Hiv as (Lw & Ww & Ew).
  cstep. eapply ok_mono; [apply xor_from_ok; lia|]. intros v [Lv Gv].
  assert (G : forall i, 0 <= i < 4 * m -> get v i = get w2 i .^ (if decide (i < 4) then get ivw i else get w1 (i - 4))).
  { intros i Hi. rewrite Gv by lia. case_decide as E; rewrite Gu by lia.
    - rewrite decide_False, decide_False by lia. done.
    - rewrite decide_True, decide_True by lia. by rewrite Z.sub_0_r. }
  assert (Wv : limbs 32 v 0 (4 * m)).
  { intros i Hi. rewrite G by lia. apply word_lxor; [lia|apply W2; lia|]. case_decide; [apply Ww; lia|apply W1; lia]. }
  cstep. apply copy_vector_ok; [done|lia|lia|apply (limbs_sub 32 w1 0 16); [done|lia..]|].
  intros ivw' Hv'. replace (4 * m - 4) with (4 * (m - 1)) in Hv' by lia. rewrite E1 in Hv' by lia.
  cstep. eapply ok_mono; [apply (enc_quads_ok data buf v m); try done; lia|]. intros d [HF HS].
  apply HP; [done| |].
  - intros k Hk. rewrite HS by done. rewrite <- E1 by done. rewrite xor_list_comm.
    2:{ rewrite (cbc_prev_len n) by (done || lia). symmetry. apply aes_inv_ok; [apply HK|apply HK|].
        rewrite E1 by done. apply (data_block data buf n); done || lia. }
    rewrite <- E2 by lia. unfold cbc_prev. case_decide as E.
    + subst k. rewrite <- Ew. apply words_at_lxor. intros i Hi. rewrite G by lia. by rewrite decide_True by lia.
    + rewrite <- E1 by lia. apply words_at_lxor. intros i Hi. rewrite G by lia. rewrite decide_False by lia. do 2 f_equal. lia.
  - unfold cbc_prev. by rewrite decide_False by lia.
Qed.

(** The blocks after the first [m]. *)
Lemma dec_blocks_app iv data buf m n d d1 : 1 <= m <= n -> 0 <= buf -> buf + 16 * n <= zlen data ->
  frame buf (buf + 16 * m) data d1 -> dec_blocks iv data buf m d1 ->
  frame (buf + 16 * m) (buf + 16 * n) d1 d -> dec_blocks (cbc_prev 16 iv data buf m) d1 (buf + 16 * m) (n - m) d ->
  dec_blocks iv data buf n d.
Proof.
  intros Hm Hb Hl F1 D1 F2 D2 k Hk. pose proof (frame_len _ _ _ _ F1).
  destruct (Z.lt_ge_cases k m).
  - rewrite <- D1 by lia. apply (slice_frame _ _ _ _ _ _ F2); lia.
  - specialize (D2 (k - m) ltac:(lia)). replace (buf + 16 * m + 16 * (k - m)) with (buf + 16 * k) in D2 by lia. rewrite D2.
    f_equal; [|f_equal; apply (slice_frame _ _ _ _ _ _ F1); lia]. unfold cbc_prev. case_decide as E.
    + assert (k = m) as -> by lia. by rewrite !decide_False by lia.
    + rewrite (decide_False (P:=k = 0)) by lia. replace (buf + 16 * m + 16 * (k - m - 1)) with (buf + 16 * (k - 1)) by lia.
      apply (slice_frame _ _ _ _ _ _ F1); lia.
Qed.

Lemma cbcdec64_loop_ok (Hst : forall p, zlen (stack p) = 16 /\ limbs 32 (stack p) 0 16) fuel : forall n ivw iv data buf,
  (n < fuel)%nat -> vector ivw iv ->
  0 <= buf -> buf + 16 * Z.of_nat n <= zlen data -> bytes data buf (16 * Z.of_nat n) ->
  ok (cbcdec64_loop stack fuel nr sk ivw data buf (16 * Z.of_nat n)) (fun '(ivw', d) =>
    frame buf (buf + 16 * Z.of_nat n) data d /\ dec_blocks iv data buf (Z.of_nat n) d /\
    vector ivw' (cbc_prev 16 iv data buf (Z.of_nat n))).
Proof.
  induction fuel as [|fuel IH]; intros n ivw iv data buf Hf Hiv Hb Hl HB; [lia|]. cbn [cbcdec64_loop].
  apply ok_cond; intros Ht; [apply Z.ltb_lt in Ht|apply Z.ltb_ge in Ht].
  2: { assert (n = 0%nat) as -> by lia. apply ok_ret. split; [apply frame_refl|]. split; [intros k Hk; lia|].
    unfold cbc_prev. by rewrite decide_True by done. }
  set (m := Z.min 4 (Z.of_nat n)). destruct (Hst buf) as [Ls Ws].
  cstep. apply (ok_mono _ (fun w1 => zlen w1 = 16 /\ limbs 32 w1 0 16 /\
    forall k, 0 <= k < m -> words_at w1 (4 * k) = slice data (buf + 16 * k) 16)).
  { assert (HD : forall m, 0 <= m <= 4 -> m <= Z.of_nat n -> ok (br_range_dec32le (stack buf) (4 * m) data buf)
      (fun w1 => zlen w1 = 16 /\ limbs 32 w1 0 16 /\ forall k, 0 <= k < m -> words_at w1 (4 * k) = slice data (buf + 16 * k) 16)).
    { intros m' Hm' Hn. eapply ok_mono; [apply dec_quads_ok; [lia|lia|by rewrite Ls|lia|lia|]|].
      - apply (limbs_sub 8 data buf (16 * Z.of_nat n)); [done|lia..].
      - intros v. by rewrite Ls. }
    apply ok_cond; intros E; [apply Z.leb_le in E|apply Z.leb_gt in E].
    - replace m with 4 by lia. apply (HD 4); lia.
    - replace (16 * Z.of_nat n >> 2) with (4 * m) by (rewrite shr_div by lia; zn). apply HD; lia. }
  intros w1 (L1 & W1 & E1).
  cstep. eapply ok_mono; [by apply four_in_ok|]. intros q [Hq Eq].
  apply (decrypt_quad_ok sk key q); [done|done|]. intros q2 Hq2 E2.
  cstep. eapply ok_mono; [by apply four_out_ok|]. intros w2 (L2 & W2 & EW).
  assert (EI : forall k, 0 <= k < 4 -> words_at w2 (4 * k) = aes_inv key (words_at w1 (4 * k)))
    by (intros k Hk; by rewrite EW, E2, Eq).
  cstep. eapply ok_mono; [apply xor_from_ok; destruct Hiv; lia|]. intros u Hu.
  pose proof (unchain_ok (A:=list Z * list Z) n m ivw iv w1 w2 u data buf) as HX.
  apply ok_cond; intros E; [apply Z.leb_le in E|apply Z.leb_gt in E].
  - assert (Em : m = 4) by lia. rewrite Em in *. apply HX; try done; [lia..|].
    intros ivw' d1 F1 D1 V1. pose proof (frame_len _ _ _ _ F1).
    replace (16 * Z.of_nat n - 64) with (16 * Z.of_nat (n - 4)) by lia.
    eapply ok_mono; [apply (IH (n - 4)%nat ivw' (cbc_prev 16 iv data buf 4) d1 (buf + 64)); [lia|exact V1|lia|lia|]|].
    { apply (bytes_after data d1 buf 64 _ F1); [lia|lia|]. apply (limbs_sub 8 data buf (16 * Z.of_nat n)); [done|lia..]. }
    intros [iv' d] (F2 & D2 & V2). replace (buf + 64 + 16 * Z.of_nat (n - 4)) with (buf + 16 * Z.of_nat n) in F2 by lia.
    split; [|split].
    + eapply frame_trans; [eapply frame_weaken; [exact F1|lia..]|eapply frame_weaken; [exact F2|lia..]].
    + apply (dec_blocks_app iv data buf 4 (Z.of_nat n) d d1); try done; [lia|].
      by replace (Z.of_nat n - 4) with (Z.of_nat (n - 4)) by lia.
    + unfold cbc_prev in *. destruct (decide (Z.of_nat n = 0)); [lia|]. case_decide as E'.
      * assert (Z.of_nat n = 4) as -> by lia. done.
      * replace (slice data (buf + 16 * (Z.of_nat n - 1)) 16) with (slice d1 (buf + 64 + 16 * (Z.of_nat (n - 4) - 1)) 16); [done|].
        replace (buf + 64 + 16 * (Z.of_nat (n - 4) - 1)) with (buf + 16 * (Z.of_nat n - 1)) by lia.
        apply (slice_frame _ _ _ _ _ _ F1); lia.
  - replace (16 * Z.of_nat n >> 2) with (4 * m) by (rewrite shr_div by lia; zn). cbv zeta.
    assert (Em : m = Z.of_nat n) by lia. apply HX; try done; [lia..|].
    intros ivw' d1 F1 D1 V1. rewrite Em in *. by apply ok_ret.
Qed.
End Cbc.

(** ** CTR *)

Lemma ctr_words_ok iv : zlen iv = 12 -> byte_string iv ->
  ok (ctr_words iv) (fun v => zlen v = 16 /\ forall k, 0 <= k < 4 ->
    (forall j, 0 <= j < 3 -> word 32 (get v (4 * k + j))) /\
    wbytes (get v (4 * k)) ++ wbytes (get v (4 * k + 1)) ++ wbytes (get v (4 * k + 2)) = iv).
Proof.
  intros HL HB. unfold ctr_words. apply bytes_get in HB. rewrite HL in HB.
  cstep. eapply ok_mono; [apply (range_dec32_wbytes (replicate 16 0) 3 iv 0); [lia|lia|done|lia|done]|].
  intros v [HF HG]. pose proof (frame_len _ _ _ _ HF) as Lv. change (zlen (replicate 16 0)) with 16 in Lv.
  assert (HC : forall a o, zlen a = 16 -> 3 <= o -> o + 3 <= 16 -> zlen (blit a o a 0 3) = 16 /\
    forall i, 0 <= i < 16 -> get (blit a o a 0 3) i = if decide (o <= i < o + 3) then get a (i - o) else get a i).
  { intros a o La Ho Ho'. split; [rewrite zlen_blit; lia|]. intros i Hi. case_decide.
    - rewrite get_blit_in by lia. f_equal; lia.
    - by rewrite get_blit_out by lia. }
  destruct (HC v 4) as [L1 G1]; [done|lia|lia|]. set (v1 := blit v 4 v 0 3) in *.
  destruct (HC v1 8) as [L2 G2]; [done|lia|lia|]. set (v2 := blit v1 8 v1 0 3) in *.
  destruct (HC v2 12) as [L3 G3]; [done|lia|lia|]. set (t := blit v2 12 v2 0 3) in *.
  cstep. apply ok_memcpy; try lia. cstep. apply ok_memcpy; fold v1; try lia. apply ok_memcpy; fold v2; try lia. fold t.
  split; [done|].
  assert (E : slice iv 0 4 ++ slice iv 4 4 ++ slice iv 8 4 = iv).
  { transitivity (slice iv 0 12); [|by apply slice_all]. change 12 with (4 + (4 + 4)). by rewrite !slice_split by lia. }
  assert (HT : forall k j, 0 <= k < 4 -> 0 <= j < 3 -> get t (4 * k + j) = get v j).
  { intros k j Hk Hj. rewrite G3 by lia. case_decide; rewrite G2 by lia; case_decide; try lia; rewrite G1 by lia; case_decide; try lia; f_equal; lia. }
  intros k Hk. split; [intros j Hj; rewrite HT by done; apply HG; lia|].
  pose proof (HT k 0 Hk ltac:(lia)) as T0. rewrite Z.add_0_r in T0. rewrite T0, (HT k 1), (HT k 2) by lia.
  rewrite <- E. destruct (HG 0 ltac:(lia)) as [_ ->]. destruct (HG 1 ltac:(lia)) as [_ ->]. by destruct (HG 2 ltac:(lia)) as [_ ->].
Qed.

Section Ctr.
Context (ivw iv : list Z) (Lw : zlen ivw = 16) (Hiv : forall k, 0 <= k < 4 ->
    (forall j, 0 <= j < 3 -> word 32 (get ivw (4 * k + j))) /\
    wbytes (get ivw (4 * k)) ++ wbytes (get ivw (4 * k + 1)) ++ wbytes (get ivw (4 * k + 2)) = iv).

Lemma ctr_quad_ok cc : word 32 cc ->
  ok (ctr_quad nr sk ivw cc) (fun t => zlen t = 64 /\ forall i, 0 <= i < 64 -> get t i = ctr_stream 16 (aes key) iv cc i).
Proof.
  intros Hc. unfold ctr_quad. cstep. apply ok_memcpy; try lia; [done|].
  set (w0 := blit _ 0 ivw 0 16). assert (L0 : zlen w0 = 16) by (unfold w0; rewrite zlen_blit; done || lia).
  assert (G0 : forall i, 0 <= i < 16 -> get w0 i = get ivw i).
  { intros i Hi. unfold w0. rewrite get_blit_in by (rewrite ?length_replicate; lia). f_equal. lia. }
  do 8 cstep. set (w := upd _ 15 _).
  assert (HW : forall k, 0 <= k < 4 -> (forall j, 0 <= j < 4 -> word 32 (get w (4 * k + j))) /\
    words_at w (4 * k) = iv ++ be_words 4 [u32 (cc + k)] 1).
  { intros k Hk. destruct (Hiv k Hk) as [Wk Ek]. destruct (swap32_ok (u32 (cc + k)) (u32_word _)) as [Ws Es].
    assert (E3 : get w (4 * k + 3) = br_swap32 (u32 (cc + k))).
    { unfold w. assert (k = 0 \/ k = 1 \/ k = 2 \/ k = 3) as HK' by lia.
      destruct HK' as [->|[->|[->| ->]]]; rewrite ?Z.add_0_r, ?(u32_small cc) by done; get_upds; done. }
    assert (EJ : forall j, 0 <= j < 3 -> get w (4 * k + j) = get ivw (4 * k + j)).
    { intros j Hj. unfold w. rewrite !get_upd_ne by lia. apply G0. lia. }
    split.
    - intros j Hj. destruct (Z.eq_dec j 3) as [->|]; [by rewrite E3|]. rewrite EJ by lia. apply Wk. lia.
    - unfold words_at. rewrite wblock_app, E3, Es, (EJ 1), (EJ 2) by lia. pose proof (EJ 0 ltac:(lia)) as E0.
      rewrite Z.add_0_r in E0. rewrite E0, <- Ek. by rewrite <- !app_assoc. }
  assert (Lww : zlen w = 16) by (unfold w; by rewrite !zlen_upd). clearbody w.
  cstep. eapply ok_mono; [apply four_in_ok; [done|]|].
  { intros i Hi. replace i with (4 * (i / 4) + i mod 4) by zn. apply HW; zn. }
  intros q [Hq Eq]. apply (encrypt_quad_ok sk key q); [done|done|]. intros q2 Hq2 E2.
  cstep. eapply ok_mono; [by apply (four_out_ok q2 w)|]. intros v (Lv & Wv & Ev).
  eapply ok_mono; [apply (enc_quads_ok (replicate 64 0) 0 v 4); try done; lia|]. intros t [HF HS].
  pose proof (frame_len _ _ _ _ HF) as Lt. change (zlen (replicate 64 0)) with 64 in Lt. split; [done|]. intros i Hi.
  unfold ctr_stream, ctr_block. destruct (HW (i / 16) ltac:(zn)) as [_ Ew].
  rewrite <- Ew, <- Eq, <- E2, <- Ev, <- HS by zn. rewrite get_slice by zn. f_equal. zn.
Qed.

(** The counter that is returned counts whole blocks. *)
Lemma ctr64_loop_ok fuel : forall cc data buf len, len < Z.of_nat fuel -> word 32 cc -> 0 <= buf -> 0 <= len ->
  buf + len <= zlen data ->
  ok (ctr64_loop fuel nr sk ivw cc data buf len) (fun '(d, cc') => frame buf (buf + len) data d /\
    cc' = u32 (cc + len / 16) /\
    forall i, 0 <= i < len -> get d (buf + i) = get data (buf + i) .^ ctr_stream 16 (aes key) iv cc i).
Proof.
  induction fuel as [|fuel IH]; intros cc data buf len Hf Hc Hb Hn Hl; [lia|]. cbn [ctr64_loop].
  apply ok_cond; intros Ht; [apply Z.ltb_lt in Ht|apply Z.ltb_ge in Ht].
  2: { assert (len = 0) as -> by lia. apply ok_ret. split; [apply frame_refl|].
    rewrite Z.div_small, Z.add_0_r, u32_small by (done || lia). split; [done|lia]. }
  cstep. eapply ok_mono; [by apply ctr_quad_ok|]. intros t [HT ET].
  apply ok_cond; intros E; [apply Z.leb_le in E|apply Z.leb_gt in E].
  - cstep. eapply ok_mono; [apply (xorbuf_ok data buf t len); lia|]. intros d [HF HV]. apply ok_ret.
    split; [done|]. split; [|intros i Hi; by rewrite HV, ET by lia].
    rewrite (u32_small len) by (unfold word; lia). by rewrite shr_div by lia.
  - cstep. eapply ok_mono; [apply (xorbuf_ok data buf t 64); lia|]. intros d [HF HV]. pose proof (frame_len _ _ _ _ HF).
    eapply ok_mono; [apply (IH (u32 (cc + 4)) d (buf + 64) (len - 64)); try lia; apply u32_word|].
    intros [d' cc'] (HF' & -> & HV'). split; [|split].
    + eapply frame_trans; [eapply frame_weaken; [exact HF|lia..]|eapply frame_weaken; [exact HF'|lia..]].
    + unfold u32. rewrite Z.add_mod_idemp_l by lia. f_equal. zn.
    + intros i Hi. destruct (Z.lt_ge_cases i 64).
      * rewrite (frame_get _ _ _ _ (buf + i) HF') by lia. by rewrite HV, ET by lia.
      * replace (buf + i) with (buf + 64 + (i - 64)) by lia. rewrite HV' by lia.
        rewrite (frame_get _ _ _ _ _ HF) by lia. f_equal.
        by rewrite <- (ctr_stream_next 16 (aes key) iv cc 4 i) by lia.
Qed.
End Ctr.
End Keys.

(** * The interfaces *)

Definition aes_ct64_alloc (ctx : aes_ct64_keys_ctx) : Prop := zlen (ct64_skey ctx) = 30.
(** The context holds the expansion of [key]. *)
Definition aes_ct64_rep (ctx : aes_ct64_keys_ctx) (key : list Z) : Prop :=
  aes_ct64_alloc ctx /\ byte_string key /\ aes_key_len (zlen key) /\ ct64_num_rounds ctx = aes_rounds (zlen key) /\
  compressed64 (ct64_skey ctx) (aes_expanded key) (aes_rounds (zlen key)).

Lemma aes_ct64_init_ok c key pos len : aes_ct64_alloc c -> aes_key_len len -> 0 <= pos -> pos + len <= zlen key ->
  bytes key pos len -> ok (br_aes_ct64_init c key pos len) (fun c => aes_ct64_rep c (slice key pos len)).
Proof.
  intros Hc Hlen Hp Hl HB. unfold br_aes_ct64_init. assert (HL : 16 <= len <= 32) by (destruct Hlen as [->|[->| ->]]; lia).
  cstep. eapply ok_mono; [apply keysched64_ok; try done; unfold aes_ct64_alloc in Hc; lia|]. intros [s nr] (-> & Hs & HC).
  apply ok_ret. unfold aes_ct64_rep. cbn [ct64_skey ct64_num_rounds]. rewrite zlen_slice by lia.
  split; [unfold aes_ct64_alloc in *; cbn; lia|]. split; [apply byte_string_slice; done || lia|]. done.
Qed.

Lemma aes_ct64_expand_ok c key : aes_ct64_rep c key ->
  ok (br_aes_ct64_skey_expand (replicate 120 0) (ct64_num_rounds c) (ct64_skey c)) (fun sk => aes_ct64_keys sk key).
Proof.
  intros (_ & Hk & HL & -> & HC). pose proof (aes_rounds_range _ HL). destruct (aes_expanded_ok key Hk HL) as [HB HZ].
  eapply ok_mono; [apply (skey_expand64_ok _ _ (aes_expanded key)); try done; [lia|rewrite length_replicate; lia]|].
  intros sk HS. done.
Qed.

Lemma aes_ct64_rounds c key : aes_ct64_rep c key -> ct64_num_rounds c = aes_rounds (zlen key).
Proof. by intros (_ & _ & _ & H & _). Qed.

(** The vector, in words and back. *)
Lemma dec_vector_ok iv : block 16 iv -> ok (br_range_dec32le (replicate 4 0) 4 iv 0) (fun v => vector v iv).
Proof.
  intros [HL HB]. apply bytes_get in HB. rewrite HL in HB.
  eapply ok_mono; [apply (dec_quads_ok (replicate 4 0) 1 iv 0); [lia|done|by apply limbsb_limbs|lia|lia|exact HB]|].
  intros v (Lv & Wv & Ev). split; [done|]. split; [done|]. pose proof (Ev 0 ltac:(lia)) as E. rewrite Z.mul_0_r in E.
  rewrite E. by apply slice_all.
Qed.
Lemma enc_vector_ok iv v iv' : zlen iv = 16 -> vector v iv' -> ok (br_range_enc32le iv 0 v 4) (fun d => d = iv').
Proof.
  intros HL (Lv & Wv & Ev).
  eapply ok_mono; [apply (enc_quads_ok iv 0 v 1); try done; lia|]. intros d [HF HS]. pose proof (frame_len _ _ _ _ HF).
  specialize (HS 0 ltac:(lia)). change (16 * 0) with 0 in HS. change (4 * 0) with 0 in HS. rewrite Ev in HS.
  rewrite <- HS. symmetry. apply slice_all. lia.
Qed.

(** What the stack may hold. *)
Definition stack_ok (stack : Z -> list Z) (W n : Z) : Prop := forall p, zlen (stack p) = n /\ limbs W (stack p) 0 n.

Lemma aes64_cbcenc_run_ok stack c key iv data pos n : stack_ok stack 64 8 -> aes_ct64_rep c key -> block 16 iv ->
  0 <= pos -> pos + 16 * Z.of_nat n <= zlen data -> bytes data pos (16 * Z.of_nat n) -> word 64 (zlen data) ->
  ok (br_aes_ct64_cbcenc_run stack c iv data pos (16 * Z.of_nat n)) (fun '(iv', d) =>
    frame pos (pos + 16 * Z.of_nat n) data d /\
    slice d pos (16 * Z.of_nat n) = cbc_enc 16 (aes key) n iv (slice data pos (16 * Z.of_nat n)) /\
    iv' = cbc_next 16 iv (slice d pos (16 * Z.of_nat n))).
Proof.
  intros Hst HR Hiv Hp Hl HB H64. unfold br_aes_ct64_cbcenc_run. rewrite (aes_ct64_rounds c key HR).
  cstep. rewrite <- (aes_ct64_rounds c key HR) at 1. eapply ok_mono; [by apply aes_ct64_expand_ok|]. intros sk HK.
  cstep. eapply ok_mono; [by apply dec_vector_ok|]. intros v Hv.
  cstep. eapply ok_mono; [apply (cbcenc64_loop_ok key sk HK stack Hst _ n v iv); try done; lia|].
  intros [v' d] (HF & HS & HV). cstep. eapply ok_mono; [apply (enc_vector_ok iv v' _ (proj1 Hiv) HV)|].
  intros iv' ->. by apply ok_ret.
Qed.

Lemma aes64_cbcdec_run_ok stack c key iv data pos n : stack_ok stack 32 16 -> aes_ct64_rep c key -> block 16 iv ->
  0 <= pos -> pos + 16 * Z.of_nat n <= zlen data -> bytes data pos (16 * Z.of_nat n) ->
  ok (br_aes_ct64_cbcdec_run stack c iv data pos (16 * Z.of_nat n)) (fun '(iv', d) =>
    frame pos (pos + 16 * Z.of_nat n) data d /\
    slice d pos (16 * Z.of_nat n) = cbc_dec 16 (aes_inv key) n iv (slice data pos (16 * Z.of_nat n)) /\
    iv' = cbc_next 16 iv (slice data pos (16 * Z.of_nat n))).
Proof.
  intros Hst HR Hiv Hp Hl HB. unfold br_aes_ct64_cbcdec_run. rewrite (aes_ct64_rounds c key HR).
  cstep. rewrite <- (aes_ct64_rounds c key HR) at 1. eapply ok_mono; [by apply aes_ct64_expand_ok|]. intros sk HK.
  cstep. eapply ok_mono; [by apply dec_vector_ok|]. intros v Hv.
  cstep. eapply ok_mono; [apply (cbcdec64_loop_ok key sk HK stack Hst _ n v iv); try done; lia|].
  intros [v' d] (HF & HS & HV). cstep. eapply ok_mono; [apply (enc_vector_ok iv v' _ (proj1 Hiv) HV)|].
  intros iv' ->. apply ok_ret. split; [done|]. split.
  - apply cbc_dec_blocks; try done. apply (frame_len _ _ _ _ HF).
  - symmetry. apply cbc_next_blocks; [lia|apply Hiv|done|done].
Qed.

Lemma aes64_ctr_run_ok c key iv cc data pos len : aes_ct64_rep c key -> zlen iv = 12 -> byte_string iv -> word 32 cc ->
  0 <= pos -> 0 <= len -> pos + len <= zlen data ->
  ok (br_aes_ct64_ctr_run c iv cc data pos len) (fun '(d, cc') => frame pos (pos + len) data d /\
    slice d pos len = ctr 16 (aes key) iv cc (slice data pos len) /\ cc' = u32 (cc + len / 16)).
Proof.
  intros HR Liv Biv Hc Hp Hn Hl. unfold br_aes_ct64_ctr_run. rewrite (aes_ct64_rounds c key HR).
  cstep. rewrite <- (aes_ct64_rounds c key HR) at 1. eapply ok_mono; [by apply aes_ct64_expand_ok|]. intros sk HK.
  cstep. eapply ok_mono; [by apply ctr_words_ok|]. intros v [Lv Hv].
  eapply ok_mono; [apply (ctr64_loop_ok key sk HK v iv Lv Hv); try done; lia|]. intros [d cc'] (HF & -> & HV).
  pose proof (frame_len _ _ _ _ HF). split; [done|]. split; [|done].
  apply list_eq_get; [by rewrite zlen_ctr, !zlen_slice by lia|]. rewrite zlen_slice by lia. intros i Hi.
  rewrite get_ctr, !get_slice by (rewrite ?zlen_slice; lia). by apply HV.
Qed.

Definition aes_ct64_cbcenc (stack : Z -> list Z) : CbcClass :=
  {| cbc_ctx := aes_ct64_keys_ctx; cbc_block_size := 16; cbc_init := br_aes_ct64_cbcenc_init;
     cbc_run := br_aes_ct64_cbcenc_run stack |}.
Definition aes_ct64_cbcdec (stack : Z -> list Z) : CbcClass :=
  {| cbc_ctx := aes_ct64_keys_ctx; cbc_block_size := 16; cbc_init := br_aes_ct64_cbcdec_init;
     cbc_run := br_aes_ct64_cbcdec_run stack |}.
Definition aes_ct64_ctr : CtrClass :=
  {| ctr_ctx := aes_ct64_keys_ctx; ctr_block_size := 16; ctr_init := br_aes_ct64_ctr_init; ctr_run := br_aes_ct64_ctr_run |}.

Definition aes_ct64_cbcenc_spec stack (Hst : stack_ok stack 64 8) : CbcSpec Encrypt (aes_ct64_cbcenc stack).
Proof.
  refine {| cbc_alloc := (aes_ct64_alloc : @cbc_ctx (aes_ct64_cbcenc stack) -> Prop); cbc_key := aes_key_len; cbc_cipher := aes;
    cbc_rep := (aes_ct64_rep : @cbc_ctx (aes_ct64_cbcenc stack) -> _ -> Prop) |}.
  - done.
  - intros c key pos len. apply aes_ct64_init_ok.
  - intros c key iv data pos n HR Hiv Hp Hl HB H64. by apply aes64_cbcenc_run_ok.
Defined.

Definition aes_ct64_cbcdec_spec stack (Hst : stack_ok stack 32 16) : CbcSpec Decrypt (aes_ct64_cbcdec stack).
Proof.
  refine {| cbc_alloc := (aes_ct64_alloc : @cbc_ctx (aes_ct64_cbcdec stack) -> Prop); cbc_key := aes_key_len; cbc_cipher := aes_inv;
    cbc_rep := (aes_ct64_rep : @cbc_ctx (aes_ct64_cbcdec stack) -> _ -> Prop) |}.
  - done.
  - intros c key pos len. apply aes_ct64_init_ok.
  - intros c key iv data pos n HR Hiv Hp Hl HB _. by apply aes64_cbcdec_run_ok.
Defined.

(** The counter does not count a last partial block: [CtrCounts] does not hold. *)
#[export] Instance aes_ct64_ctr_spec : CtrSpec aes_ct64_ctr.
Proof.
  refine {| ctr_alloc := (aes_ct64_alloc : @ctr_ctx aes_ct64_ctr -> Prop); ctr_key := aes_key_len; ctr_cipher := aes;
    ctr_rep := (aes_ct64_rep : @ctr_ctx aes_ct64_ctr -> _ -> Prop); ctr_next := fun cc len => u32 (cc + len / 16) |}.
  - intros cc n Hn. cbn [ctr_block_size aes_ct64_ctr]. do 2 f_equal. zn.
  - done.
  - by intros c key [H _].
  - intros c key pos len. apply aes_ct64_init_ok.
  - intros c key iv cc data pos len HR Hiv Bi Hc Hp Hn Hl _ _. by apply aes64_ctr_run_ok.
Defined.

(** * Leakage: the lengths only *)

Lemma xor_block_ct v1 v2 d1 d2 b : blind (xor_block v1 d1 b) (xor_block v2 d2 b).
Proof. unfold xor_block. blind_auto. Qed.
Lemma four_in_ct w1 w2 : blind (four_in w1) (four_in w2).
Proof. unfold four_in. blind_auto. Qed.
Lemma four_out_ct q1 q2 w1 w2 : blind (four_out q1 w1) (four_out q2 w2).
Proof. unfold four_out. blind_auto. Qed.
Lemma xor_from_ct w1 w2 v1 v2 lo hi d : blind (xor_from w1 v1 lo hi d) (xor_from w2 v2 lo hi d).
Proof. unfold xor_from. blind_auto. Qed.
#[export] Hint Resolve xor_block_ct four_in_ct four_out_ct xor_from_ct : blind.

Lemma cbcenc64_loop_ct s1 s2 fuel nr : forall k1 k2 v1 v2 d1 d2 buf len,
  blind (cbcenc64_loop s1 fuel nr k1 v1 d1 buf len) (cbcenc64_loop s2 fuel nr k2 v2 d2 buf len).
Proof.
  induction fuel as [|fuel IH]; intros; [by intros ??|]. cbn [cbcenc64_loop].
  apply ct_cond; [done|intros _|intros _; by apply ct_ret].
  do 14 (apply blind_bind; [blind_auto|intros]). apply IH.
Qed.
Lemma cbcdec64_loop_ct s1 s2 fuel nr : forall k1 k2 v1 v2 d1 d2 buf len,
  blind (cbcdec64_loop s1 fuel nr k1 v1 d1 buf len) (cbcdec64_loop s2 fuel nr k2 v2 d2 buf len).
Proof.
  induction fuel as [|fuel IH]; intros; [by intros ??|]. cbn [cbcdec64_loop].
  apply ct_cond; [done|intros _|intros _; by apply ct_ret].
  do 7 (apply blind_bind; [blind_auto|intros]). apply ct_cond; [done|intros _|intros _; blind_auto].
  do 3 (apply blind_bind; [blind_auto|intros]). apply IH.
Qed.
Lemma ctr_quad_ct nr k1 k2 v1 v2 c1 c2 : blind (ctr_quad nr k1 v1 c1) (ctr_quad nr k2 v2 c2).
Proof. unfold ctr_quad. blind_auto. Qed.
#[export] Hint Resolve cbcenc64_loop_ct cbcdec64_loop_ct ctr_quad_ct : blind.
Lemma ctr64_loop_ct fuel nr : forall k1 k2 v1 v2 c1 c2 d1 d2 buf len,
  blind (ctr64_loop fuel nr k1 v1 c1 d1 buf len) (ctr64_loop fuel nr k2 v2 c2 d2 buf len).
Proof.
  induction fuel as [|fuel IH]; intros; [by intros ??|]. cbn [ctr64_loop]. unfold xorbuf.
  apply ct_cond; [done|intros _|intros _; by apply ct_ret].
  apply blind_bind; [blind_auto|intros]. apply ct_cond; [done|intros _; blind_auto|intros _].
  apply blind_bind; [blind_auto|intros]. apply IH.
Qed.
Lemma ctr_words_ct v1 v2 : blind (ctr_words v1) (ctr_words v2).
Proof. unfold ctr_words. blind_auto. Qed.
#[export] Hint Resolve ctr64_loop_ct ctr_words_ct : blind.

Definition same_rounds64 (c1 c2 : aes_ct64_keys_ctx) : Prop := ct64_num_rounds c1 = ct64_num_rounds c2.
Lemma aes_ct64_init_ct c1 c2 k1 k2 pos len : ct same_rounds64 (br_aes_ct64_init c1 k1 pos len) (br_aes_ct64_init c2 k2 pos len).
Proof.
  unfold br_aes_ct64_init. eapply ct_bind; [apply keysched64_ct|]. intros [s1 n1] [s2 n2] E. apply ct_ret. exact E.
Qed.
Lemma aes_ct64_cbcenc_ct s1 s2 c1 c2 v1 v2 d1 d2 pos len : same_rounds64 c1 c2 ->
  blind (br_aes_ct64_cbcenc_run s1 c1 v1 d1 pos len) (br_aes_ct64_cbcenc_run s2 c2 v2 d2 pos len).
Proof. intros E. unfold br_aes_ct64_cbcenc_run. rewrite E. blind_auto. Qed.
Lemma aes_ct64_cbcdec_ct s1 s2 c1 c2 v1 v2 d1 d2 pos len : same_rounds64 c1 c2 ->
  blind (br_aes_ct64_cbcdec_run s1 c1 v1 d1 pos len) (br_aes_ct64_cbcdec_run s2 c2 v2 d2 pos len).
Proof. intros E. unfold br_aes_ct64_cbcdec_run. rewrite E. blind_auto. Qed.
Lemma aes_ct64_ctr_ct c1 c2 v1 v2 cc1 cc2 d1 d2 pos len : same_rounds64 c1 c2 ->
  blind (br_aes_ct64_ctr_run c1 v1 cc1 d1 pos len) (br_aes_ct64_ctr_run c2 v2 cc2 d2 pos len).
Proof. intros E. unfold br_aes_ct64_ctr_run. rewrite E. blind_auto. Qed.

#[export] Instance aes_ct64_mode : AesMode aes_ct64_ctr aes_ct64_ctr_spec.
Proof. by split. Qed.

#[export] Instance aes_ct64_ctr_blind : CtrCt aes_ct64_ctr aes_ct64_ctr_spec.
Proof.
  refine {| ctr_alike := (same_rounds64 : @ctr_ctx aes_ct64_ctr -> _ -> Prop) |}.
  - intros c1 c2 k1 k2 (_ & _ & _ & E1 & _) (_ & _ & _ & E2 & _) E. unfold same_rounds64. by rewrite E1, E2, E.
  - intros. apply aes_ct64_init_ct.
  - intros. by apply aes_ct64_ctr_ct.
Defined.

(** * Properties *)

Definition aes64_fresh : aes_ct64_keys_ctx := AesCt64Keys (replicate 30 0) 0.

Section Same.
Context (stack1 stack2 : Z -> list Z) (H1 : stack_ok stack1 64 8) (H2 : stack_ok stack2 32 16).
Context (key data : list Z) (pos : Z) (Hkey : byte_string key) (Hlen : aes_key_len (zlen key)) (Hpos : 0 <= pos)
  (Hdata : word 64 (zlen data)).

(** The counter that the 64-bit code returns is the one of the 32-bit code when
    the data are whole blocks, and the one before it when they are not. *)
Lemma ctr_counters cc len : u32 (cc + len / 16) = ctr_end 16 cc len <-> len mod 16 = 0.
Proof. unfold ctr_end, u32. split; intros H; zn. Qed.

(** [C21] What the 64-bit and the 32-bit bitsliced AES have in common, whatever
    the uninitialised arrays of the first hold: CBC encryption and decryption
    produce the same data and the same vector; CTR produces the same data, but
    not the same counter: the 64-bit code returns [cc] plus the number of whole
    blocks, the 32-bit code plus the number of blocks, a last partial one
    included, and the two agree exactly on whole blocks. *)
Theorem br_aes_ct64_equiv iv n cc ctr_iv len :
  block 16 iv -> pos + 16 * Z.of_nat n <= zlen data -> bytes data pos (16 * Z.of_nat n) ->
  zlen ctr_iv = 12 -> byte_string ctr_iv -> word 32 cc -> 0 <= len -> pos + len <= zlen data -> bytes data pos len ->
  ok (cbc_once (aes_ct64_cbcenc stack1) aes64_fresh key iv data pos (16 * Z.of_nat n)) (fun x =>
    ok (cbc_once aes_ct_cbcenc aes_fresh key iv data pos (16 * Z.of_nat n)) (fun y => x = y)) /\
  ok (cbc_once (aes_ct64_cbcdec stack2) aes64_fresh key iv data pos (16 * Z.of_nat n)) (fun x =>
    ok (cbc_once aes_ct_cbcdec aes_fresh key iv data pos (16 * Z.of_nat n)) (fun y => x = y)) /\
  ok (ctr_once aes_ct64_ctr aes64_fresh key ctr_iv cc data pos len) (fun x =>
    ok (ctr_once aes_ct_ctr aes_fresh key ctr_iv cc data pos len) (fun y =>
      x.1 = y.1 /\ x.2 = u32 (cc + len / 16) /\ y.2 = u32 (cc + (len + 16 - 1) / 16) /\ (x.2 = y.2 <-> len mod 16 = 0))).
Proof.
  intros Hiv Hl HB Hv Bv Hc Hn Hl' HB'. split; [|split].
  - by apply (cbc_same key data pos Hkey Hpos Hdata Encrypt _ (aes_ct64_cbcenc_spec stack1 H1) _ aes_ct_cbcenc_spec).
  - by apply (cbc_same key data pos Hkey Hpos Hdata Decrypt _ (aes_ct64_cbcdec_spec stack2 H2) _ aes_ct_cbcdec_spec).
  - eapply ok_mono; [by apply (ctr_same key data pos Hkey Hpos Hdata _ aes_ct64_ctr_spec _ aes_ct_ctr_spec aes64_fresh aes_fresh ctr_iv cc len 16)|].
    intros x Hx. eapply ok_mono; [exact Hx|]. intros y (E & -> & ->). split; [done|]. split; [done|]. split; [done|].
    apply ctr_counters.
Qed.
End Same.

Lemma br_aes_ct64_equiv_witness :
  ok (cbc_once (aes_ct64_cbcenc (fun _ => replicate 8 77)) aes64_fresh (replicate 24 5) (replicate 16 6) (replicate 100 7) 3 (16 * Z.of_nat 5))
    (fun x => ok (cbc_once aes_ct_cbcenc aes_fresh (replicate 24 5) (replicate 16 6) (replicate 100 7) 3 (16 * Z.of_nat 5))
      (fun y => x = y)).
Proof.
  assert (HS1 : stack_ok (fun _ => replicate 8 77) 64 8) by (intros p; split; [done|by apply limbsb_limbs]).
  assert (HS2 : stack_ok (fun _ => replicate 16 88) 32 16) by (intros p; split; [done|by apply limbsb_limbs]).
  refine (proj1 (br_aes_ct64_equiv (fun _ => replicate 8 77) (fun _ => replicate 16 88) HS1 HS2
    (replicate 24 5) (replicate 100 7) 3 _ _ _ _ (replicate 16 6) 5 9 (replicate 12 1) 33 _ _ _ _ _ _ _ _ _)).
  - by apply Forall_replicate.
  - right. by left.
  - done.
  - done.
  - split; [done|]. by apply Forall_replicate.
  - done.
  - by apply limbsb_limbs.
  - done.
  - by apply Forall_replicate.
  - done.
  - done.
  - done.
  - by apply limbsb_limbs.
Defined.

(** Two requests of less than a block, the second with the counter that the
    first returned. *)
Definition two_requests (C : CtrClass) (c : @ctr_ctx C) (key iv : list Z) (cc : Z) (d1 d2 : list Z) : M (list Z * list Z) :=
  '(d1, cc) ← ctr_once C c key iv cc d1 0 (zlen d1);
  '(d2, cc) ← ctr_once C c key iv cc d2 0 (zlen d2);
  mret (d1, d2).

Lemma two_requests_ok C (S : CtrSpec C) (c : @ctr_ctx C) key iv cc d1 d2 : ctr_alloc c -> ctr_key (zlen key) ->
  byte_string key -> zlen iv = ctr_block_size - 4 -> byte_string iv -> (forall cc len, word 32 (ctr_next cc len)) -> word 32 cc ->
  byte_string d1 -> byte_string d2 -> word 64 (zlen d1) -> word 64 (zlen d2) ->
  ok (two_requests C c key iv cc d1 d2) (fun '(e1, e2) =>
    e1 = ctr ctr_block_size (ctr_cipher key) iv cc d1 /\
    e2 = ctr ctr_block_size (ctr_cipher key) iv (ctr_next cc (zlen d1)) d2).
Proof.
  intros Hc Hk Bk Hiv Bi Hnext Hcc B1 B2 W1 W2. unfold two_requests.
  destruct (whole_key d1 B1) as [HB1 HS1]. destruct (whole_key d2 B2) as [HB2 HS2].
  cstep. eapply ok_mono; [apply (ctr_once_ok key d1 0 Bk ltac:(lia) W1 C S c); done || lia|]. intros [e1 cc1] (F1 & E1 & ->).
  cstep. eapply ok_mono; [apply (ctr_once_ok key d2 0 Bk ltac:(lia) W2 C S c); try done; try lia|]. intros [e2 cc2] (F2 & E2 & _).
  apply ok_ret. rewrite HS1 in E1. rewrite HS2 in E2. pose proof (frame_len _ _ _ _ F1). pose proof (frame_len _ _ _ _ F2).
  rewrite slice_all in E1 by lia. rewrite slice_all in E2 by lia. done.
Qed.

(** [C22] [br_aes_ct64_ctr_run] returns the counter it was given when the data
    are shorter than a block: two such requests in a row are encrypted with the
    same key stream, and the exclusive or of the results is the one of the
    data.  [br_aes_ct_ctr_run] uses the next block for the second request. *)
Theorem br_aes_ct64_ctr_reuses_stream key iv cc d1 d2 : byte_string key -> aes_key_len (zlen key) ->
  zlen iv = 12 -> byte_string iv -> word 32 cc -> byte_string d1 -> byte_string d2 -> 0 < zlen d1 < 16 -> zlen d2 = zlen d1 ->
  ok (two_requests aes_ct64_ctr aes64_fresh key iv cc d1 d2) (fun '(e1, e2) => xor_list e1 e2 = xor_list d1 d2) /\
  ok (two_requests aes_ct_ctr aes_fresh key iv cc d1 d2) (fun '(e1, e2) =>
    e1 = ctr 16 (aes key) iv cc d1 /\ e2 = ctr 16 (aes key) iv (u32 (cc + 1)) d2).
Proof.
  intros Bk Hk Hiv Bi Hcc B1 B2 HL E. assert (W1 : word 64 (zlen d1)) by (unfold word; lia).
  assert (W2 : word 64 (zlen d2)) by (unfold word; lia). split.
  - eapply ok_mono; [apply (two_requests_ok aes_ct64_ctr aes_ct64_ctr_spec aes64_fresh key iv cc d1 d2); try done; intros; apply u32_word|].
    intros [e1 e2] [-> ->]. cbn [ctr_block_size aes_ct64_ctr ctr_cipher aes_ct64_ctr_spec ctr_next].
    rewrite Z.div_small, Z.add_0_r, u32_small by (done || lia).
    apply list_eq_get; rewrite !xor_list_len; rewrite ?zlen_ctr; try lia. intros i Hi.
    rewrite !get_xor_list; rewrite ?zlen_ctr; try lia. rewrite !get_ctr by lia.
    set (a := get d1 i). set (b := get d2 i). set (s := ctr_stream _ _ _ _ _).
    by rewrite (Z.lxor_comm b s), Z.lxor_assoc, <- (Z.lxor_assoc s s b), Z.lxor_nilpotent, Z.lxor_0_l.
  - eapply ok_mono; [apply (two_requests_ok aes_ct_ctr aes_ct_ctr_spec aes_fresh key iv cc d1 d2); try done; intros; apply u32_word|].
    intros [e1 e2] [-> ->]. split; [done|].
    change (ctr 16 (aes key) iv (ctr_end 16 cc (zlen d1)) d2 = ctr 16 (aes key) iv (u32 (cc + 1)) d2).
    unfold ctr_end. by replace ((zlen d1 + 16 - 1) / 16) with 1 by zn.
Qed.

Lemma br_aes_ct64_ctr_reuses_stream_witness :
  ok (two_requests aes_ct64_ctr aes64_fresh (replicate 16 9) (replicate 12 1) 5 [1; 2; 3] [4; 5; 6])
    (fun '(e1, e2) => xor_list e1 e2 = xor_list [1; 2; 3] [4; 5; 6]).
Proof.
  refine (proj1 (br_aes_ct64_ctr_reuses_stream (replicate 16 9) (replicate 12 1) 5 [1; 2; 3] [4; 5; 6] _ _ _ _ _ _ _ _ _)).
  - by apply Forall_replicate.
  - by left.
  - done.
  - by apply Forall_replicate.
  - done.
  - by repeat constructor.
  - by repeat constructor.
  - done.
  - done.
Defined.

(** The 64-bit bitsliced AES is constant-time as well: for keys, vectors and
    texts of the same lengths the two runs exist and leak the same trace,
    whatever the uninitialised arrays hold. *)
Theorem br_aes_ct64_constant_time s1 s2 t1 t2 (c1 c2 : aes_ct64_keys_ctx) key1 key2 iv1 iv2 (data1 data2 : list Z) ctr_iv1 ctr_iv2 cc1 cc2 pos n len :
  stack_ok s1 64 8 -> stack_ok s2 64 8 -> stack_ok t1 32 16 -> stack_ok t2 32 16 ->
  aes_ct64_alloc c1 -> aes_ct64_alloc c2 -> byte_string key1 -> byte_string key2 -> aes_key_len (zlen key1) -> zlen key1 = zlen key2 ->
  block 16 iv1 -> block 16 iv2 -> zlen ctr_iv1 = 12 -> zlen ctr_iv2 = 12 -> byte_string ctr_iv1 -> byte_string ctr_iv2 ->
  word 32 cc1 -> word 32 cc2 -> 0 <= pos -> 16 * Z.of_nat n <= len -> pos + len <= zlen data1 -> pos + len <= zlen data2 ->
  bytes data1 pos len -> bytes data2 pos len -> word 64 (zlen data1) -> word 64 (zlen data2) ->
  (exists t, trace (cbc_once (aes_ct64_cbcenc s1) c1 key1 iv1 data1 pos (16 * Z.of_nat n)) = Some t /\
    trace (cbc_once (aes_ct64_cbcenc s2) c2 key2 iv2 data2 pos (16 * Z.of_nat n)) = Some t) /\
  (exists t, trace (cbc_once (aes_ct64_cbcdec t1) c1 key1 iv1 data1 pos (16 * Z.of_nat n)) = Some t /\
    trace (cbc_once (aes_ct64_cbcdec t2) c2 key2 iv2 data2 pos (16 * Z.of_nat n)) = Some t) /\
  (exists t, trace (ctr_once aes_ct64_ctr c1 key1 ctr_iv1 cc1 data1 pos len) = Some t /\
    trace (ctr_once aes_ct64_ctr c2 key2 ctr_iv2 cc2 data2 pos len) = Some t).
Proof.
  intros S1 S2 T1 T2 A1 A2 K1 K2 HL E V1 V2 I1 I2 J1 J2 W1 W2 Hp Hn L1 L2 B1 B2 D1 D2.
  assert (HL2 : aes_key_len (zlen key2)) by (by rewrite <- E).
  assert (X1 : bytes data1 pos (16 * Z.of_nat n)) by (apply (limbs_sub 8 data1 pos len); [done|lia..]).
  assert (X2 : bytes data2 pos (16 * Z.of_nat n)) by (apply (limbs_sub 8 data2 pos len); [done|lia..]).
  split; [|split].
  - apply (cbc_once_trace key1 key2 data1 data2 pos K1 K2 Hp D1 D2 Encrypt _ (aes_ct64_cbcenc_spec s1 S1) _ (aes_ct64_cbcenc_spec s2 S2));
      try done; try lia.
    unfold cbc_once. rewrite E. eapply ct_bind; [apply aes_ct64_init_ct|intros x y H]. by apply aes_ct64_cbcenc_ct.
  - apply (cbc_once_trace key1 key2 data1 data2 pos K1 K2 Hp D1 D2 Decrypt _ (aes_ct64_cbcdec_spec t1 T1) _ (aes_ct64_cbcdec_spec t2 T2));
      try done; try lia.
    unfold cbc_once. rewrite E. eapply ct_bind; [apply aes_ct64_init_ct|intros x y H]. by apply aes_ct64_cbcdec_ct.
  - apply (ctr_once_trace key1 key2 data1 data2 pos K1 K2 Hp D1 D2 _ aes_ct64_ctr_spec aes_ct64_ctr_blind); done || lia.
Qed.
