(* ===== verification/Gcm.v ===== *)
(** GCM ([src/aead/gcm.c]) over any implementation of CTR for AES and any
    implementation of GHASH: the code, and the functions of NIST SP 800-38D that
    any way of cutting the data computes. *)
From stdpp Require Import base tactics list numbers option.
From Stdlib Require Import ZArith Lia.
From S2P Require Import Prelude CtPrims Limbs Codec Hash Fips197 Modes Ghash.
Local Open Scope Z_scope.
Local Open Scope cword_scope.

(** * Code *)

Section Code.
Context {C : CtrClass} (gh : br_ghash).

(** [br_gcm_context]; [gh] is the parameter of the functions. *)
Record gcm_ctx := GcmCtx {
  g_bctx : @ctr_ctx C; g_h : list Z; g_j0_1 : list Z; g_buf : list Z; g_y : list Z;
  g_j0_2 : Z; g_jc : Z; g_count_aad : Z; g_count_ctr : Z }.

Definition br_gcm_init (ctx : gcm_ctx) (bctx : @ctr_ctx C) : M gcm_ctx :=
  h ← memset (g_h ctx) 0 0 16;
  iv ← memset (replicate 12 0) 0 0 12;
  '(h, _) ← ctr_run bctx iv 0 h 0 16;
  mret (GcmCtx bctx h (g_j0_1 ctx) (g_buf ctx) (g_y ctx) (g_j0_2 ctx) (g_jc ctx) (g_count_aad ctx) (g_count_ctr ctx)).

(** The first counter block, in two parts. *)
Definition gcm_nonce (ctx : gcm_ctx) (iv : list Z) (len : Z) : M (list Z * Z) :=
  If len =? 12 Then
    j0_1 ← memcpy (g_j0_1 ctx) 0 iv 0 12;
    mret (j0_1, 1)
  Else
    ty ← memset (replicate 16 0) 0 0 16;
    ty ← gh ty (g_h ctx) iv 0 len;
    tmp ← memset (replicate 16 0) 0 0 8;
    tmp ← br_enc64be tmp 8 (u64 (len << 3));
    ty ← gh ty (g_h ctx) tmp 0 16;
    j0_1 ← memcpy (g_j0_1 ctx) 0 ty 0 12;
    j0_2 ← br_dec32be ty 12;
    mret (j0_1, j0_2).

Definition br_gcm_reset (ctx : gcm_ctx) (iv : list Z) (len : Z) : M gcm_ctx :=
  '(j0_1, j0_2) ← gcm_nonce ctx iv len;
  y ← memset (g_y ctx) 0 0 16;
  mret (GcmCtx (g_bctx ctx) (g_h ctx) j0_1 (g_buf ctx) y j0_2 (u32 (j0_2 + 1)) 0 0).

Definition gcm_set_aad (ctx : gcm_ctx) (buf y : list Z) (count_aad : Z) : gcm_ctx :=
  GcmCtx (g_bctx ctx) (g_h ctx) (g_j0_1 ctx) buf y (g_j0_2 ctx) (g_jc ctx) count_aad (g_count_ctr ctx).

(** The whole blocks at [pos], and the rest. *)
Definition gcm_aad_blocks (ctx : gcm_ctx) (data : list Z) (pos len : Z) : M gcm_ctx :=
  let dlen := len .& u64 (Z.lnot 15) in
  y ← gh (g_y ctx) (g_h ctx) data pos dlen;
  buf ← memcpy (g_buf ctx) 0 data (pos + dlen) (len - dlen);
  mret (gcm_set_aad ctx buf y (u64 (g_count_aad ctx + len))).

Definition br_gcm_aad_inject (ctx : gcm_ctx) (data : list Z) (pos len : Z) : M gcm_ctx :=
  let ptr := g_count_aad ctx .& 15 in
  If negb (ptr =? 0) Then
    let clen := 16 - ptr in
    If len <? clen Then
      buf ← memcpy (g_buf ctx) ptr data pos len;
      mret (gcm_set_aad ctx buf (g_y ctx) (u64 (g_count_aad ctx + len)))
    Else
    buf ← memcpy (g_buf ctx) ptr data pos clen;
    y ← gh (g_y ctx) (g_h ctx) buf 0 16;
    gcm_aad_blocks (gcm_set_aad ctx buf y (u64 (g_count_aad ctx + clen))) data (pos + clen) (len - clen)
  Else gcm_aad_blocks ctx data pos len.

Definition gcm_set_y (ctx : gcm_ctx) (y : list Z) : gcm_ctx :=
  gcm_set_aad ctx (g_buf ctx) y (g_count_aad ctx).

Definition br_gcm_flip (ctx : gcm_ctx) : M gcm_ctx :=
  let ptr := g_count_aad ctx .& 15 in
  If negb (ptr =? 0) Then
    y ← gh (g_y ctx) (g_h ctx) (g_buf ctx) 0 ptr;
    mret (gcm_set_y ctx y)
  Else mret ctx.

(** The data at [pos] under the bytes of [cbuf] at [ptr], which become those of
    the ciphertext. *)
Definition gcm_xor (encrypt : bool) (cbuf data : list Z) (ptr pos n : Z) : M (list Z * list Z) :=
  for_up 0 n (fun u '(cbuf, data) =>
    x ← load data (pos + u);
    k ← load cbuf (ptr + u);
    let y := x .^ k in
    cbuf ← (If encrypt Then store cbuf (ptr + u) y Else store cbuf (ptr + u) x);
    data ← store data (pos + u) y;
    mret (cbuf, data)) (cbuf, data).

Definition gcm_set_ctr (ctx : gcm_ctx) (buf y : list Z) (jc count_ctr : Z) : gcm_ctx :=
  GcmCtx (g_bctx ctx) (g_h ctx) (g_j0_1 ctx) buf y (g_j0_2 ctx) jc (g_count_aad ctx) count_ctr.

(** The whole blocks at [pos], and the rest. *)
Definition gcm_run_blocks (ctx : gcm_ctx) (encrypt : bool) (data : list Z) (pos len : Z) : M (gcm_ctx * list Z) :=
  let dlen := len .& u64 (Z.lnot 15) in
  y ← (If negb encrypt Then gh (g_y ctx) (g_h ctx) data pos dlen Else mret (g_y ctx));
  '(data, jc) ← ctr_run (g_bctx ctx) (g_j0_1 ctx) (g_jc ctx) data pos dlen;
  y ← (If encrypt Then gh y (g_h ctx) data pos dlen Else mret y);
  let pos := pos + dlen in
  let len := len - dlen in
  let ctx := gcm_set_ctr ctx (g_buf ctx) y jc (u64 (g_count_ctr ctx + dlen)) in
  If 0 <? len Then
    buf ← memset (g_buf ctx) 0 0 16;
    '(buf, jc) ← ctr_run (g_bctx ctx) (g_j0_1 ctx) (g_jc ctx) buf 0 16;
    '(buf, data) ← gcm_xor encrypt buf data 0 pos len;
    mret (gcm_set_ctr ctx buf (g_y ctx) jc (u64 (g_count_ctr ctx + len)), data)
  Else mret (ctx, data).

Definition br_gcm_run (ctx : gcm_ctx) (encrypt : bool) (data : list Z) (pos len : Z) : M (gcm_ctx * list Z) :=
  let ptr := g_count_ctr ctx .& 15 in
  If negb (ptr =? 0) Then
    let clen := 16 - ptr in
    clen ← (If len <? clen Then mret len Else mret clen);
    '(buf, data) ← gcm_xor encrypt (g_buf ctx) data ptr pos clen;
    let ctx := gcm_set_ctr ctx buf (g_y ctx) (g_jc ctx) (u64 (g_count_ctr ctx + clen)) in
    let pos := pos + clen in
    let len := len - clen in
    If ptr + clen <? 16 Then mret (ctx, data)
    Else
    y ← gh (g_y ctx) (g_h ctx) (g_buf ctx) 0 16;
    gcm_run_blocks (gcm_set_y ctx y) encrypt data pos len
  Else gcm_run_blocks ctx encrypt data pos len.

Definition br_gcm_get_tag (ctx : gcm_ctx) (tag : list Z) : M (gcm_ctx * list Z) :=
  let ptr := g_count_ctr ctx .& 15 in
  y ← (If 0 <? ptr Then gh (g_y ctx) (g_h ctx) (g_buf ctx) 0 ptr Else mret (g_y ctx));
  tmp ← br_enc64be (replicate 16 0) 0 (u64 (g_count_aad ctx << 3));
  tmp ← br_enc64be tmp 8 (u64 (g_count_ctr ctx << 3));
  y ← gh y (g_h ctx) tmp 0 16;
  tag ← memcpy tag 0 y 0 16;
  '(tag, _) ← ctr_run (g_bctx ctx) (g_j0_1 ctx) (g_j0_2 ctx) tag 0 16;
  mret (gcm_set_y ctx y, tag).

Definition br_gcm_get_tag_trunc (ctx : gcm_ctx) (tag : list Z) (len : Z) : M (gcm_ctx * list Z) :=
  '(ctx, tmp) ← br_gcm_get_tag ctx (replicate 16 0);
  tag ← memcpy tag 0 tmp 0 len;
  mret (ctx, tag).

Definition br_gcm_check_tag_trunc (ctx : gcm_ctx) (tag : list Z) (len : Z) : M (gcm_ctx * Z) :=
  '(ctx, tmp) ← br_gcm_get_tag ctx (replicate 16 0);
  x ← for_up 0 len (fun u x =>
    a ← load tmp u;
    b ← load tag u;
    mret (x .| (a .^ b))) 0;
  mret (ctx, EQ0 x).

Definition br_gcm_check_tag (ctx : gcm_ctx) (tag : list Z) : M (gcm_ctx * Z) :=
  br_gcm_check_tag_trunc ctx tag 16.
End Code.
Arguments gcm_ctx : clear implicits.

(** * SP 800-38D *)

(** The hash key, the first counter block, the key stream and the tag. *)
Definition gcm_H (key : list Z) : list Z := aes key (replicate 16 0).
Definition gcm_j0 (key iv : list Z) : list Z :=
  if decide (zlen iv = 12) then iv ++ [0; 0; 0; 1]
  else ghash (gcm_H key) (ghash (gcm_H key) (replicate 16 0) iv) (replicate 8 0 ++ be_words 8 [u64 (8 * zlen iv)] 1).
Definition gcm_stream (key j0 : list Z) (i : Z) : Z :=
  ctr_stream 16 (aes key) (slice j0 0 12) (u32 (vbe j0 12 4 + 1)) i.
(** [msg] under the key stream from its byte [start]. *)
Definition gcm_seg (key j0 : list Z) (start : Z) (msg : list Z) : list Z :=
  map (fun i => get msg (Z.of_nat i) .^ gcm_stream key j0 (start + Z.of_nat i)) (seq 0 (length msg)).
Definition gcm_crypt (key j0 msg : list Z) : list Z := gcm_seg key j0 0 msg.
Definition gcm_lens (a c : Z) : list Z := be_words 8 [u64 (8 * a); u64 (8 * c)] 2.
Definition gcm_tag (key j0 A ct : list Z) : list Z :=
  let H := gcm_H key in
  xor_list (ghash H (ghash H (ghash H (replicate 16 0) A) ct) (gcm_lens (zlen A) (zlen ct))) (aes key j0).

Lemma zlen_seg key j0 o msg : zlen (gcm_seg key j0 o msg) = zlen msg.
Proof. unfold gcm_seg. by rewrite length_map, length_seq. Qed.

Lemma get_seg key j0 o msg i : 0 <= i < zlen msg -> get (gcm_seg key j0 o msg) i = get msg i .^ gcm_stream key j0 (o + i).
Proof. intros Hi. unfold gcm_seg. rewrite get_map_seq by lia. by rewrite Z2Nat.id by lia. Qed.

Lemma seg_app key j0 o a b : gcm_seg key j0 o (a ++ b) = gcm_seg key j0 o a ++ gcm_seg key j0 (o + zlen a) b.
Proof.
  apply list_eq_get; rewrite zlen_seg; [by rewrite !zlen_app, !zlen_seg|]. intros i Hi. rewrite zlen_app in Hi.
  rewrite get_seg by (rewrite zlen_app; lia). destruct (Z.lt_ge_cases i (zlen a)).
  - by rewrite !get_app_l, get_seg by (rewrite ?zlen_seg; lia).
  - rewrite !get_app_r, zlen_seg, get_seg by (rewrite ?zlen_seg; lia). do 2 f_equal. lia.
Qed.

(** Encryption undone: the same key stream. *)
Lemma seg_involutive key j0 o msg : gcm_seg key j0 o (gcm_seg key j0 o msg) = msg.
Proof.
  apply list_eq_get; rewrite !zlen_seg; [done|]. intros i Hi. rewrite !get_seg by (rewrite ?zlen_seg; lia).
  by rewrite Z.lxor_assoc, Z.lxor_nilpotent, Z.lxor_0_r.
Qed.

(** The hash of a string of which the rest [r] is not a whole block. *)
Definition absorbed (H Y0 s y r : list Z) : Prop :=
  exists k full, s = full ++ r /\ zlen full = 16 * Z.of_nat k /\ zlen r < 16 /\ y = ghash H Y0 full.

Section Absorb.
Context (H Y0 : list Z) (HH : block 16 H) (HY : block 16 Y0).

Lemma absorbed_start : absorbed H Y0 [] Y0 [].
Proof. exists 0%nat, []. split; [done|]. split; [done|]. split; [done|]. symmetry. by apply ghash_nil. Qed.

Lemma absorbed_block s y r : absorbed H Y0 s y r -> block 16 y.
Proof. intros (k & full & _ & _ & _ & ->). apply ghash_block. Qed.

Lemma absorbed_rest s y r : absorbed H Y0 s y r -> zlen r = zlen s mod 16.
Proof. intros (k & full & -> & HL & Hr & _). rewrite zlen_app. zn. Qed.

Lemma absorbed_more s y r t : absorbed H Y0 s y r -> zlen r + zlen t < 16 -> absorbed H Y0 (s ++ t) y (r ++ t).
Proof.
  intros (k & full & -> & HL & Hr & ->) Ht. exists k, full. rewrite app_assoc, zlen_app. auto.
Qed.

Lemma absorbed_full s y r t : absorbed H Y0 s y r -> zlen r + zlen t = 16 -> absorbed H Y0 (s ++ t) (ghash H y (r ++ t)) [].
Proof.
  intros (k & full & -> & HL & Hr & ->) Ht. exists (S k), (full ++ r ++ t). rewrite app_nil_r, <- app_assoc, !zlen_app.
  split; [done|]. split; [lia|]. split; [done|]. by apply (ghash_app H Y0 full (r ++ t) k).
Qed.

Lemma absorbed_blocks s y t u n : absorbed H Y0 s y [] -> zlen t = 16 * Z.of_nat n -> zlen u < 16 ->
  absorbed H Y0 (s ++ t ++ u) (ghash H y t) u.
Proof.
  intros (k & full & -> & HL & Hr & ->) Ht Hu. exists (k + n)%nat, (full ++ t). rewrite app_nil_r, app_assoc, !zlen_app.
  split; [done|]. split; [lia|]. split; [done|]. by apply (ghash_app H Y0 full t k).
Qed.

(** The rest is hashed at the end, with zeros. *)
Lemma absorbed_end s y r : absorbed H Y0 s y r -> ghash H y r = ghash H Y0 s.
Proof. intros (k & full & -> & HL & Hr & ->). by apply (ghash_app H Y0 full r k). Qed.

Lemma absorbed_end0 s y : absorbed H Y0 s y [] -> y = ghash H Y0 s.
Proof. intros HA. rewrite <- (absorbed_end s y []) by done. symmetry. apply ghash_nil. by eapply absorbed_block. Qed.
End Absorb.

(** * The operations *)

Section Proofs.
Context {C : CtrClass} {CS : CtrSpec C} {AM : AesMode C CS} (gh : br_ghash) {GS : GhashSpec gh}.
Context (key : list Z) (Hk : byte_string key) (HL : aes_key_len (zlen key)).

Lemma gcm_E x : block 16 x -> block 16 (aes key x).
Proof. intros Hx. by apply aes_ok. Qed.
Lemma zeros_block : block 16 (replicate 16 0).
Proof. split; [done|by apply Forall_replicate]. Qed.
Lemma gcm_H_block : block 16 (gcm_H key).
Proof. apply gcm_E, zeros_block. Qed.

Lemma aes_ctr_ok sk iv cc data pos len : ctr_rep sk key -> zlen iv = 12 -> byte_string iv -> word 32 cc ->
  0 <= pos -> 0 <= len < 2 ^ 64 -> pos + len <= zlen data -> bytes data pos len ->
  ok (ctr_run sk iv cc data pos len) (fun '(d, cc') => frame pos (pos + len) data d /\
    slice d pos len = ctr 16 (aes key) iv cc (slice data pos len) /\ cc' = ctr_next cc len).
Proof.
  intros HR Hiv Bi Hc Hp Hn Hl HB. rewrite <- am_block, <- am_cipher. apply ctr_run_ok; try done; try lia. by rewrite am_block.
Qed.

Lemma next_blocks cc n : 0 <= n -> ctr_next cc (16 * n) = u32 (cc + n).
Proof. intros Hn. rewrite <- am_block. by apply ctr_next_whole. Qed.

Lemma stream_word iv cc i : zlen iv = 12 -> byte_string iv -> 0 <= i -> word 8 (ctr_stream 16 (aes key) iv cc i).
Proof.
  intros Hiv Bi Hi. unfold ctr_stream, ctr_block. set (b := iv ++ _).
  assert (HB : block 16 (aes key b)).
  { apply gcm_E. split; [unfold b; rewrite zlen_app, Hiv; done|]. apply byte_string_app. split; [done|apply be_words_bytes]. }
  destruct HB as [HB1 HB2]. apply bytes_get in HB2. apply HB2. rewrite HB1. pose proof (Z.mod_pos_bound i 16). lia.
Qed.

(** One block of zeros under the counter. *)
Lemma ctr_zero_block sk iv cc d : ctr_rep sk key -> zlen iv = 12 -> byte_string iv -> word 32 cc -> zlen d = 16 ->
  ok (d ← memset d 0 0 16; ctr_run sk iv cc d 0 16) (fun '(d', cc') => block 16 d' /\ cc' = u32 (cc + 1) /\
    forall i, 0 <= i < 16 -> get d' i = ctr_stream 16 (aes key) iv cc i).
Proof.
  intros HR Hiv Bi Hc Ld. cstep. apply ok_memset; [lia..|]. set (z := fillz d 0 0 16).
  assert (Lz : zlen z = 16) by (unfold z; rewrite zlen_fillz; lia).
  assert (Gz : forall i, 0 <= i < 16 -> get z i = 0) by (intros i Hi; unfold z; by rewrite get_fillz_in by lia).
  eapply ok_mono; [apply (aes_ctr_ok sk iv cc z 0 16); try done; try lia|].
  { intros i Hi. by rewrite Gz by lia. }
  intros [d' cc'] (HF & HS & ->). pose proof (frame_len _ _ _ _ HF). rewrite (slice_all d'), (slice_all z) in HS by lia.
  assert (G : forall i, 0 <= i < 16 -> get d' i = ctr_stream 16 (aes key) iv cc i).
  { intros i Hi. rewrite HS, get_ctr, Gz by lia. apply Z.lxor_0_l. }
  split; [|split; [by apply (next_blocks cc 1)|done]]. split; [lia|]. apply bytes_get. intros i Hi. rewrite G by lia. apply stream_word; done || lia.
Qed.

(** ** Contexts *)

Record gcm_base (j0 : list Z) (ctx : gcm_ctx C) : Prop := GcmBase {
  gb_key : ctr_rep (g_bctx ctx) key; gb_h : g_h ctx = gcm_H key; gb_j0 : block 16 j0;
  gb_iv : g_j0_1 ctx = slice j0 0 12; gb_cc : g_j0_2 ctx = vbe j0 12 4; gb_buf : zlen (g_buf ctx) = 16 }.

(** The operations do not write the keys nor the first counter block. *)
Lemma base_set j0 ctx buf y jc count_aad count_ctr : gcm_base j0 ctx -> zlen buf = 16 ->
  gcm_base j0 (GcmCtx (g_bctx ctx) (g_h ctx) (g_j0_1 ctx) buf y (g_j0_2 ctx) jc count_aad count_ctr).
Proof.
  intros [G1 G2 G3 G4 G5 _] HB.
  exact (GcmBase j0 (GcmCtx (g_bctx ctx) (g_h ctx) (g_j0_1 ctx) buf y (g_j0_2 ctx) jc count_aad count_ctr) G1 G2 G3 G4 G5 HB).
Qed.

(** The counter of the block that follows [n] bytes. *)
Definition gcm_counter (j0 : list Z) (n : Z) : Z := u32 (u32 (vbe j0 12 4 + 1) + (n + 15) / 16).

Definition holds_rest (buf r : list Z) : Prop := slice buf 0 (zlen r) = r.

(** After the additional data [A]. *)
Definition gcm_aad (j0 A : list Z) (ctx : gcm_ctx C) : Prop :=
  gcm_base j0 ctx /\ g_count_aad ctx = u64 (zlen A) /\ g_count_ctr ctx = 0 /\ g_jc ctx = gcm_counter j0 0 /\
  exists r, absorbed (gcm_H key) (replicate 16 0) A (g_y ctx) r /\ byte_string r /\ holds_rest (g_buf ctx) r.

(** After the additional data [A] and the ciphertext [ct]; the end of the buffer
    is the key stream of the block that is not complete. *)
Definition gcm_data (j0 A ct : list Z) (ctx : gcm_ctx C) : Prop :=
  gcm_base j0 ctx /\ g_count_aad ctx = u64 (zlen A) /\ g_count_ctr ctx = u64 (zlen ct) /\ g_jc ctx = gcm_counter j0 (zlen ct) /\
  exists r, absorbed (gcm_H key) (ghash (gcm_H key) (replicate 16 0) A) ct (g_y ctx) r /\ byte_string r /\
    holds_rest (g_buf ctx) r /\
    forall i, 0 < zlen r -> zlen r <= i < 16 -> get (g_buf ctx) i = gcm_stream key j0 (zlen ct - zlen r + i).

Lemma low_bits4 x : 0 <= x -> u64 x .& 15 = x mod 16.
Proof.
  intros Hx. change 15 with (Z.ones 4). rewrite Z.land_ones by lia. unfold u64. change (2 ^ 4) with 16.
  rewrite <- Znumtheory.Zmod_div_mod; [done|done|done|]. exists (2 ^ 60). done.
Qed.

Lemma whole_blocks len : 0 <= len < 2 ^ 64 -> len .& u64 (Z.lnot 15) = 16 * (len / 16).
Proof.
  intros Hl. change (u64 (Z.lnot 15)) with (Z.shiftl (Z.ones 60) 4).
  transitivity (Z.shiftl (Z.shiftr len 4) 4).
  - apply Z.bits_inj'. intros n Hn. rewrite Z.land_spec, !Z.shiftl_spec by done. destruct (Z.lt_ge_cases n 4).
    + rewrite !(Z.testbit_neg_r _ (n - 4)) by lia. apply andb_false_r.
    + rewrite Z.shiftr_spec by lia. replace (n - 4 + 4) with n by lia. destruct (Z.lt_ge_cases n 64).
      * rewrite Z.ones_spec_low by lia. apply andb_true_r.
      * rewrite Z.ones_spec_high by lia. rewrite andb_false_r. symmetry. rewrite <- (Z.mod_small len (2 ^ 64)) by done.
        by apply Z.mod_pow2_bits_high; lia.
  - rewrite shr_div, shl_mul by lia. change (2 ^ 4) with 16. lia.
Qed.

(** ** Initialisation *)

Definition gcm_alloc (ctx : gcm_ctx C) : Prop :=
  zlen (g_h ctx) = 16 /\ zlen (g_j0_1 ctx) = 12 /\ zlen (g_buf ctx) = 16 /\ zlen (g_y ctx) = 16.
Definition gcm_ready (ctx : gcm_ctx C) : Prop :=
  ctr_rep (g_bctx ctx) key /\ g_h ctx = gcm_H key /\ gcm_alloc ctx.

Lemma gcm_init_eq ctx bctx : gcm_alloc ctx -> ctr_rep bctx key -> ok (br_gcm_init ctx bctx) (fun c =>
  c = GcmCtx bctx (gcm_H key) (g_j0_1 ctx) (g_buf ctx) (g_y ctx) (g_j0_2 ctx) (g_jc ctx) (g_count_aad ctx) (g_count_ctr ctx)).
Proof.
  intros (A1 & A2 & A3 & A4) HR. unfold br_gcm_init. cstep. apply ok_memset; [lia..|]. cstep. apply ok_memset; [rewrite ?length_replicate; lia..|].
  set (h := fillz (g_h ctx) 0 0 16). set (iv := fillz (replicate 12 0) 0 0 12).
  assert (Lh : zlen h = 16) by (unfold h; rewrite zlen_fillz; lia).
  assert (Ez : h = replicate 16 0).
  { apply list_eq_get; [by rewrite Lh|]. intros i Hi. unfold h. rewrite get_fillz_in, get_replicate by lia. done. }
  assert (Ei : iv = replicate 12 0) by done. clearbody h iv. subst.
  cstep. eapply ok_mono; [apply (aes_ctr_ok bctx (replicate 12 0) 0 (replicate 16 0) 0 16); try done|].
  { by apply Forall_replicate. }
  { apply (bytes_get (replicate 16 0)). by apply Forall_replicate. }
  intros [h' cc] (HF & HS & _). pose proof (frame_len _ _ _ _ HF) as L. rewrite (slice_all h'), (slice_all (replicate 16 0)) in HS by (done || lia).
  assert (EH : h' = gcm_H key).
  { rewrite HS. apply list_eq_get; rewrite zlen_ctr; [by destruct gcm_H_block|]. intros i Hi. change (zlen (replicate 16 0)) with 16 in Hi.
    rewrite get_ctr, get_replicate by (done || lia). rewrite Z.lxor_0_l. unfold ctr_stream, ctr_block.
    rewrite Z.div_small, Z.mod_small by lia. done. }
  apply ok_ret. by rewrite EH.
Qed.

Lemma gcm_init_ok ctx bctx : gcm_alloc ctx -> ctr_rep bctx key -> ok (br_gcm_init ctx bctx) gcm_ready.
Proof.
  intros HA HR. eapply ok_mono; [by apply gcm_init_eq|]. intros c ->. destruct HA as (A1 & A2 & A3 & A4).
  split; [done|]. split; [done|]. split; [exact (proj1 gcm_H_block)|]. done.
Qed.

Lemma be8_bytes x : bytes (be_words 8 [x] 1) 0 8.
Proof. apply (bytes_get (be_words 8 [x] 1)). apply be_words_bytes. Qed.

Lemma gcm_nonce_ok ctx iv len : gcm_ready ctx -> 0 <= len <= zlen iv -> len < 2 ^ 64 -> bytes iv 0 len ->
  ok (gcm_nonce gh ctx iv len) (fun '(j1, j2) => exists j0, j0 = gcm_j0 key (slice iv 0 len) /\ block 16 j0 /\
    j1 = slice j0 0 12 /\ j2 = vbe j0 12 4).
Proof.
  intros (HR & EH & A1 & A2 & A3 & A4) Hl H64 HB. pose proof gcm_H_block as HH. unfold gcm_nonce, gcm_j0.
  assert (Ls : zlen (slice iv 0 len) = len) by (apply zlen_slice; lia). rewrite Ls, EH.
  assert (Bs : byte_string (slice iv 0 len)) by (apply byte_string_slice; [lia|lia|done|lia]).
  apply ok_cond; intros E; [apply Z.eqb_eq in E|apply Z.eqb_neq in E].
  - rewrite decide_True by done. cstep. apply ok_memcpy; [lia..|]. apply ok_ret. subst len.
    exists (slice iv 0 12 ++ [0; 0; 0; 1]). split; [done|]. split.
    { split; [rewrite zlen_app, Ls; done|]. apply byte_string_app. split; [done|by repeat constructor]. }
    assert (E : blit (g_j0_1 ctx) 0 iv 0 12 = slice iv 0 12).
    { apply list_eq_get; rewrite zlen_blit by lia; [lia|]. intros i Hi. rewrite get_blit_in, get_slice by lia. f_equal. lia. }
    rewrite E. split.
    + apply list_eq_get; rewrite Ls; [rewrite zlen_slice; rewrite ?zlen_app, ?Ls; simpl length; lia|]. intros i Hi.
      rewrite (get_slice (_ ++ _)), get_app_l by lia. f_equal; lia.
    + rewrite vbe_4, !get_app_r, Ls by lia. done.
  - rewrite decide_False by done. cstep. apply (ok_memset _ 0 0 16); [rewrite ?length_replicate; lia..|].
    assert (Ez : fillz (replicate 16 0) 0 0 16 = replicate 16 0) by done. rewrite Ez.
    cstep. eapply ok_mono; [apply (ghash_ok (replicate 16 0) (gcm_H key) iv 0 len); try done; try lia; apply zeros_block|]. intros ty ->.
    cstep. apply ok_memset; [rewrite ?length_replicate; lia..|]. assert (Ez8 : fillz (replicate 16 0) 0 0 8 = replicate 16 0) by done. rewrite Ez8.
    cstep. eapply ok_mono; [apply enc64be_blit; [lia|rewrite length_replicate; lia|apply u64_word]|]. intros tmp ->.
    assert (Et : blit (replicate 16 0) 8 (be_words 8 [u64 (len << 3)] 1) 0 8 = replicate 8 0 ++ be_words 8 [u64 (8 * len)] 1).
    { rewrite shl_mul by lia. replace (len * 2 ^ 3) with (8 * len) by lia. pose proof (zlen_be_words 8 [u64 (8 * len)] 1 ltac:(lia)) as Lb.
      apply list_eq_get; rewrite zlen_blit by (rewrite ?length_replicate; lia); [rewrite zlen_app, Lb; done|].
      intros i Hi. rewrite length_replicate in Hi. destruct (Z.lt_ge_cases i 8).
      - rewrite get_blit_out, get_app_l by (rewrite ?length_replicate; lia). rewrite !get_replicate by lia. done.
      - rewrite get_blit_in, get_app_r by (rewrite ?length_replicate; lia). f_equal; rewrite ?length_replicate; lia. }
    rewrite Et. clear Et. set (lb := replicate 8 0 ++ _).
    assert (Blb : block 16 lb). { split; [unfold lb; by rewrite zlen_app, zlen_be_words|]. apply byte_string_app. split; [by apply Forall_replicate|apply be_words_bytes]. }
    destruct Blb as [Llb Blb]. apply bytes_get in Blb. rewrite Llb in Blb.
    cstep. eapply ok_mono; [apply ghash_ok; try done; try lia; apply ghash_block|]. intros ty ->.
    rewrite (slice_all lb) by done.
    set (j0 := ghash _ _ lb). assert (Bj : block 16 j0) by apply ghash_block. destruct Bj as [Lj Bj]. pose proof (proj1 (bytes_get _) Bj) as Bj'. rewrite Lj in Bj'.
    cstep. apply ok_memcpy; [lia..|]. cstep. eapply ok_mono; [apply (codec_dec (WordCodec:=codec32be)); [lia|lia|by apply (limbs_sub 8 j0 0 16); [|lia..]]|].
    intros j2 [-> _]. apply ok_ret. exists j0. split; [done|]. split; [by split|]. split; [|done].
    apply list_eq_get; rewrite zlen_blit by lia; [rewrite zlen_slice; lia|]. intros i Hi. rewrite get_blit_in, get_slice by lia. f_equal. lia.
Qed.

Lemma gcm_j0_block iv : byte_string iv -> block 16 (gcm_j0 key iv).
Proof.
  intros HB. unfold gcm_j0. case_decide as E; [|apply ghash_block]. split; [by rewrite zlen_app, E|].
  apply byte_string_app. split; [done|by repeat constructor].
Qed.

Lemma gcm_reset_ok ctx iv len : gcm_ready ctx -> 0 <= len <= zlen iv -> len < 2 ^ 64 -> bytes iv 0 len ->
  ok (br_gcm_reset gh ctx iv len) (gcm_aad (gcm_j0 key (slice iv 0 len)) []).
Proof.
  intros HG Hl H64 HB. unfold br_gcm_reset. cstep. eapply ok_mono; [by apply gcm_nonce_ok|].
  intros [j1 j2] (j0 & Ej & Bj & -> & ->). destruct HG as (HR & EH & A1 & A2 & A3 & A4). cstep. apply ok_memset; [lia..|].
  assert (Ez : fillz (g_y ctx) 0 0 16 = replicate 16 0).
  { apply list_eq_get; rewrite zlen_fillz by lia; [rewrite A4; done|]. intros i Hi. rewrite get_fillz_in, get_replicate by lia. done. }
  rewrite Ez, <- Ej. apply ok_ret. split; [done|]. split; [done|]. split; [done|]. cbn [g_jc g_y g_buf]. split.
  - unfold gcm_counter. change ((0 + 15) / 16) with 0. rewrite Z.add_0_r. symmetry. apply u32_small, u32_word.
  - exists []. split; [apply absorbed_start, zeros_block|]. split; [constructor|]. apply slice_nil.
Qed.

(** ** Additional data *)

Lemma rest_more buf r data pos n : zlen buf = 16 -> holds_rest buf r -> 0 <= n -> zlen r + n <= 16 -> 0 <= pos -> pos + n <= zlen data ->
  holds_rest (blit buf (zlen r) data pos n) (r ++ slice data pos n).
Proof.
  intros Lb Hr Hn Hrn Hp Hd. unfold holds_rest. pose proof (zlen_slice data pos n Hp Hn Hd) as Ls. rewrite zlen_app, Ls.
  pose proof (zlen_blit buf (zlen r) data pos n ltac:(lia) ltac:(lia) ltac:(lia) ltac:(lia) ltac:(lia)) as LB.
  apply list_eq_get; rewrite zlen_slice by lia; [by rewrite zlen_app, Ls|]. intros i Hi. rewrite get_slice by lia.
  destruct (Z.lt_ge_cases i (zlen r)).
  - rewrite get_blit_out, get_app_l by lia. pose proof (get_slice buf 0 (zlen r) i) as E. unfold holds_rest in Hr.
    rewrite Hr in E. by rewrite E by lia.
  - rewrite get_blit_in, get_app_r, get_slice by lia. f_equal; lia.
Qed.

Lemma rest_block buf r : zlen buf = 16 -> zlen r = 16 -> holds_rest buf r -> slice buf 0 16 = r.
Proof. unfold holds_rest. by intros _ ->. Qed.

(** The data, a part of which is hashed. *)
Lemma split_blocks data pos len : 0 <= pos -> 0 <= len -> pos + len <= zlen data ->
  let dlen := 16 * (len / 16) in
  0 <= dlen <= len /\ len - dlen < 16 /\ zlen (slice data pos dlen) = 16 * Z.of_nat (Z.to_nat (len / 16)) /\
  slice data pos len = slice data pos dlen ++ slice data (pos + dlen) (len - dlen).
Proof.
  intros Hp Hl Hd dlen. assert (0 <= dlen <= len /\ len - dlen < 16) as [H1 H2] by (unfold dlen; zn).
  split; [done|]. split; [done|]. split; [rewrite zlen_slice by lia; unfold dlen; rewrite Z2Nat.id by (apply Z.div_pos; lia); done|].
  rewrite <- slice_split by lia. f_equal. lia.
Qed.

Lemma gh_ok y s Y0 r data pos len : absorbed (gcm_H key) Y0 s y r -> 0 <= pos -> 0 <= len -> pos + len <= zlen data -> bytes data pos len ->
  ok (gh y (gcm_H key) data pos len) (fun y' => y' = ghash (gcm_H key) y (slice data pos len)).
Proof. intros HA Hp Hl Hd HB. apply ghash_ok; try done; [by eapply absorbed_block|apply gcm_H_block]. Qed.

Lemma count_add a b : 0 <= a -> 0 <= b -> u64 (u64 a + b) = u64 (a + b).
Proof. intros. unfold u64. by rewrite Z.add_mod_idemp_l by lia. Qed.

Lemma gcm_aad_blocks_ok j0 A ctx data pos len :
  gcm_base j0 ctx -> g_count_aad ctx = u64 (zlen A) -> g_count_ctr ctx = 0 -> g_jc ctx = gcm_counter j0 0 ->
  absorbed (gcm_H key) (replicate 16 0) A (g_y ctx) [] ->
  0 <= pos -> 0 <= len < 2 ^ 64 -> pos + len <= zlen data -> bytes data pos len ->
  ok (gcm_aad_blocks gh ctx data pos len) (gcm_aad j0 (A ++ slice data pos len)).
Proof.
  intros HG HC1 HC2 HJ HA Hp Hl Hd HB. pose proof HG as [_ G2 _ _ _ G6]. unfold gcm_aad_blocks. rewrite whole_blocks by done. cbv zeta.
  destruct (split_blocks data pos len Hp ltac:(lia) Hd) as (D1 & D2 & D3 & D4). set (dlen := 16 * (len / 16)) in *. rewrite G2.
  cstep. eapply ok_mono; [apply (gh_ok _ _ _ _ data pos dlen HA); try lia; by apply (limbs_sub 8 data pos len); [|lia..]|]. intros y ->.
  cstep. apply ok_memcpy; [lia..|]. apply ok_ret. split; [apply base_set; [done|rewrite zlen_blit; lia]|].
  cbn [gcm_set_aad g_count_aad g_count_ctr g_jc g_y g_buf]. split; [rewrite HC1, count_add, zlen_app, zlen_slice by lia; done|].
  split; [done|]. split; [done|]. exists (slice data (pos + dlen) (len - dlen)). rewrite D4.
  split; [eapply absorbed_blocks; [apply gcm_H_block|apply zeros_block|done|exact D3|rewrite zlen_slice; lia]|]. split.
  - apply byte_string_slice; [lia|lia| |lia]. by apply (limbs_sub 8 data pos len); [|lia..].
  - apply (rest_more (g_buf ctx) [] data (pos + dlen) (len - dlen)); try done; cbn [length]; lia.
Qed.

Lemma gcm_aad_inject_ok j0 A ctx data pos len : gcm_aad j0 A ctx ->
  0 <= pos -> 0 <= len < 2 ^ 64 -> pos + len <= zlen data -> bytes data pos len ->
  ok (br_gcm_aad_inject gh ctx data pos len) (gcm_aad j0 (A ++ slice data pos len)).
Proof.
  intros (HG & HC1 & HC2 & HJ & r & HA & Br & Hr) Hp Hl Hd HB. pose proof HG as [G1 G2 G3 G4 G5 G6].
  pose proof (absorbed_rest _ _ _ _ _ HA) as Lr. unfold br_gcm_aad_inject. rewrite HC1, low_bits4 by lia. rewrite <- Lr. cbv zeta.
  assert (zlen r < 16) by (rewrite Lr; apply Z.mod_pos_bound; lia).
  apply ok_cond; intros E.
  2:{ apply negb_false_iff, Z.eqb_eq in E. destruct r; [|simpl in E; lia]. by apply gcm_aad_blocks_ok. }
  apply negb_true_iff, Z.eqb_neq in E. apply ok_cond; intros E2; [apply Z.ltb_lt in E2|apply Z.ltb_ge in E2].
  - cstep. apply ok_memcpy; [lia..|]. apply ok_ret. split; [apply base_set; [done|rewrite zlen_blit; lia]|].
    cbn [gcm_set_aad g_count_aad g_count_ctr g_jc g_y g_buf]. rewrite count_add, zlen_app, zlen_slice by lia.
    split; [done|]. split; [done|]. split; [done|]. exists (r ++ slice data pos len). split; [|split].
    + apply absorbed_more; [done|]. rewrite zlen_slice; lia.
    + apply byte_string_app. split; [done|]. apply byte_string_slice; [lia|lia|done|lia].
    + apply rest_more; done || lia.
  - cstep. apply ok_memcpy; [lia..|]. set (b := blit _ _ _ _ _). set (n := 16 - zlen r) in *.
    assert (Lb : zlen b = 16) by (unfold b; rewrite zlen_blit; lia).
    assert (Ln : zlen (slice data pos n) = n) by (apply zlen_slice; lia).
    assert (HB' : bytes data pos n) by (by apply (limbs_sub 8 data pos len); [|lia..]).
    assert (Eb : slice b 0 16 = r ++ slice data pos n).
    { apply rest_block; [done|rewrite zlen_app, Ln; lia|]. apply rest_more; done || lia. }
    assert (Bb : bytes b 0 16).
    { rewrite <- Lb. apply bytes_get. rewrite <- (slice_all b 16), Eb by done. apply byte_string_app. split; [done|].
      apply byte_string_slice; [lia|lia|done|lia]. }
    cstep. rewrite G2. eapply ok_mono; [apply (gh_ok _ _ _ _ b 0 16 HA); done || lia|]. intros y ->. rewrite Eb.
    replace (slice data pos len) with (slice data pos n ++ slice data (pos + n) (len - n)) by (rewrite <- slice_split by lia; f_equal; lia).
    rewrite app_assoc. apply gcm_aad_blocks_ok; cbn [gcm_set_aad g_count_aad g_count_ctr g_jc g_y g_buf]; try done; try lia.
    + by rewrite count_add, zlen_app, Ln by lia.
    + apply absorbed_full; [apply gcm_H_block|apply zeros_block|done|lia].
    + by apply (limbs_sub 8 data pos len); [|lia..].
Qed.

Lemma gcm_flip_ok j0 A ctx : gcm_aad j0 A ctx -> ok (br_gcm_flip gh ctx) (gcm_data j0 A []).
Proof.
  intros (HG & HC1 & HC2 & HJ & r & HA & Br & Hr). pose proof HG as [G1 G2 G3 G4 G5 G6].
  pose proof (absorbed_rest _ _ _ _ _ HA) as Lr. unfold br_gcm_flip. rewrite HC1, low_bits4 by lia. rewrite <- Lr. cbv zeta.
  assert (zlen r < 16) by (rewrite Lr; apply Z.mod_pos_bound; lia).
  assert (HD : forall y, y = ghash (gcm_H key) (replicate 16 0) A -> gcm_data j0 A [] (gcm_set_y ctx y)).
  { intros y ->. split; [by apply base_set|]. split; [done|]. split; [done|]. split; [done|]. exists [].
    split; [apply absorbed_start, ghash_block|]. split; [constructor|]. split; [apply slice_nil|]. intros i Hi. simpl in Hi. lia. }
  apply ok_cond; intros E.
  - apply negb_true_iff, Z.eqb_neq in E. cstep. rewrite G2.
    assert (Bb : bytes (g_buf ctx) 0 (zlen r)).
    { intros i Hi. rewrite <- (Z.add_0_l i), <- (get_slice (g_buf ctx) 0 (zlen r)) by lia. rewrite Hr. by apply bytes_get; [|lia]. }
    eapply ok_mono; [apply (gh_ok _ _ _ _ (g_buf ctx) 0 (zlen r) HA); done || lia|]. intros y ->. apply ok_ret, HD.
    rewrite Hr. by apply (absorbed_end _ _ gcm_H_block zeros_block).
  - apply negb_false_iff, Z.eqb_eq in E. destruct r; [|simpl in E; lia]. apply ok_ret.
    replace ctx with (gcm_set_y ctx (g_y ctx)) by (by destruct ctx). apply HD.
    by apply (absorbed_end0 _ _ gcm_H_block zeros_block).
Qed.
(** ** Data *)

Lemma seg_bytes j0 o msg : block 16 j0 -> 0 <= o -> byte_string msg -> byte_string (gcm_seg key j0 o msg).
Proof.
  intros [Lj Bj] Ho Hm. apply bytes_get. rewrite zlen_seg. intros i Hi. rewrite get_seg by lia.
  apply word_lxor; [done|by apply bytes_get; [|lia]|]. apply stream_word; [rewrite zlen_slice; lia|by apply slice_bytes|lia].
Qed.

(** The counter mode from a block on. *)
Lemma stream_next j0 k i : 0 <= k -> 0 <= i ->
  ctr_stream 16 (aes key) (slice j0 0 12) (gcm_counter j0 (16 * k)) i = gcm_stream key j0 (16 * k + i).
Proof.
  intros Hk0 Hi. unfold gcm_stream, gcm_counter. replace ((16 * k + 15) / 16) with k by zn.
  rewrite <- (ctr_stream_next 16 _ _ _ k (16 * k + i)) by lia. f_equal. lia.
Qed.

Lemma ctr_seg j0 k msg : 0 <= k ->
  ctr 16 (aes key) (slice j0 0 12) (gcm_counter j0 (16 * k)) msg = gcm_seg key j0 (16 * k) msg.
Proof.
  intros Hk0. apply list_eq_get; rewrite zlen_ctr; [by rewrite zlen_seg|]. intros i Hi.
  by rewrite get_ctr, get_seg, stream_next by lia.
Qed.

Lemma counter_next j0 n m : 0 <= n -> 0 <= m -> n mod 16 = 0 -> u32 (gcm_counter j0 n + (m + 15) / 16) = gcm_counter j0 (n + m).
Proof.
  intros Hn Hm E. unfold gcm_counter, u32. rewrite Z.add_mod_idemp_l by lia. f_equal.
  replace ((n + m + 15) / 16) with ((n + 15) / 16 + (m + 15) / 16) by zn. lia.
Qed.

(** The ciphertext among the data before and after. *)
Definition gcm_ct (encrypt : bool) (a b : list Z) : list Z := if encrypt then b else a.

Lemma gcm_xor_ok encrypt cbuf data ptr pos n : 0 <= ptr -> 0 <= n -> ptr + n <= zlen cbuf -> 0 <= pos -> pos + n <= zlen data ->
  ok (gcm_xor encrypt cbuf data ptr pos n) (fun '(cbuf', data') =>
    frame ptr (ptr + n) cbuf cbuf' /\ frame pos (pos + n) data data' /\
    forall i, 0 <= i < n -> get data' (pos + i) = get data (pos + i) .^ get cbuf (ptr + i) /\
      get cbuf' (ptr + i) = get (gcm_ct encrypt data data') (pos + i)).
Proof.
  intros Hp Hn Hl Hq Hd. unfold gcm_xor.
  apply (ok_for_up (fun k '(cbuf', data') => frame ptr (ptr + n) cbuf cbuf' /\ frame pos (pos + n) data data' /\
    (forall i, k <= i < n -> get data' (pos + i) = get data (pos + i) /\ get cbuf' (ptr + i) = get cbuf (ptr + i)) /\
    forall i, 0 <= i < k -> get data' (pos + i) = get data (pos + i) .^ get cbuf (ptr + i) /\
      get cbuf' (ptr + i) = get (gcm_ct encrypt data data') (pos + i))).
  - done.
  - split; [apply frame_refl|]. split; [apply frame_refl|]. split; [done|]. intros i Hi. lia.
  - intros k [c d] Hki (FC & FD & HR & HI). pose proof (frame_len _ _ _ _ FC). pose proof (frame_len _ _ _ _ FD).
    cstep. apply ok_load; [lia|]. cstep. apply ok_load; [lia|]. destruct (HR k ltac:(lia)) as [E1 E2]. rewrite E1, E2. cbv zeta.
    set (x := get data (pos + k)). set (y := x .^ get cbuf (ptr + k)).
    assert (HS : ok (store d (pos + k) y) (fun d' => d' = upd d (pos + k) y)) by (apply ok_store; [lia|done]).
    cstep. apply (ok_mono _ (fun c' => c' = upd c (ptr + k) (if encrypt then y else x))).
    { apply ok_cond; intros ->; (apply ok_store; [lia|done]). }
    intros c' ->. cstep. apply (ok_mono _ _ _ HS). intros d' ->. apply ok_ret.
    split; [eapply frame_trans; [exact FC|apply frame_upd; lia]|]. split; [eapply frame_trans; [exact FD|apply frame_upd; lia]|]. split.
    + intros i Hi. rewrite !get_upd_ne by lia. apply HR. lia.
    + intros i Hi. destruct (Z.eq_dec i k) as [->|Hne].
      * rewrite !get_upd_eq by lia. split; [done|]. unfold gcm_ct. destruct encrypt; [by rewrite get_upd_eq by lia|done].
      * rewrite !get_upd_ne by lia. destruct (HI i ltac:(lia)) as [I1 I2]. split; [done|]. rewrite I2. unfold gcm_ct.
        destruct encrypt; [|done]. by rewrite get_upd_ne by lia.
  - intros [c d] (FC & FD & _ & HI). done.
Qed.
Lemma gcm_ct_app encrypt a1 a2 b1 b2 : gcm_ct encrypt (a1 ++ a2) (b1 ++ b2) = gcm_ct encrypt a1 b1 ++ gcm_ct encrypt a2 b2.
Proof. by destruct encrypt. Qed.

(** Less than a block, under what is left of the key stream in the buffer. *)
Lemma xor_part j0 encrypt buf r o data pos n : block 16 j0 -> zlen buf = 16 -> holds_rest buf r -> 0 <= o -> 0 <= n -> zlen r + n <= 16 ->
  (forall i, zlen r <= i < 16 -> get buf i = gcm_stream key j0 (o - zlen r + i)) ->
  0 <= pos -> pos + n <= zlen data -> bytes data pos n ->
  ok (gcm_xor encrypt buf data (zlen r) pos n) (fun '(buf', data') => zlen buf' = 16 /\ frame pos (pos + n) data data' /\
    slice data' pos n = gcm_seg key j0 o (slice data pos n) /\
    holds_rest buf' (r ++ gcm_ct encrypt (slice data pos n) (slice data' pos n)) /\
    forall i, zlen r + n <= i < 16 -> get buf' i = gcm_stream key j0 (o - zlen r + i)).
Proof.
  intros Hj Lb Hr Ho Hn Hrn HT Hp Hd HB. eapply ok_mono; [apply gcm_xor_ok; lia|]. intros [b d] (FB & FD & HI).
  pose proof (frame_len _ _ _ _ FB). pose proof (frame_len _ _ _ _ FD). split; [lia|]. split; [done|]. split; [|split].
  - apply list_eq_get; rewrite zlen_slice by lia; [by rewrite zlen_seg, zlen_slice by lia|]. intros i Hi.
    rewrite get_seg, !get_slice by (rewrite ?zlen_slice; lia). rewrite (proj1 (HI i Hi)), HT by lia. do 2 f_equal. lia.
  - assert (Lc : zlen (gcm_ct encrypt (slice data pos n) (slice d pos n)) = n) by (destruct encrypt; apply zlen_slice; lia).
    unfold holds_rest. rewrite zlen_app, Lc. rewrite (slice_split b 0 (zlen r) n) by lia. f_equal.
    + rewrite (slice_frame buf b 0 (zlen r) (zlen r) (zlen r + n)) by (done || lia). exact Hr.
    + rewrite Z.add_0_l. apply list_eq_get; rewrite zlen_slice by lia; [done|]. intros i Hi. rewrite get_slice, (proj2 (HI i Hi)) by lia.
      destruct encrypt; cbn [gcm_ct]; by rewrite get_slice by lia.
  - intros i Hi. rewrite (frame_get _ _ _ _ i FB) by lia. apply HT. lia.
Qed.
(** A run over the [len] bytes at [pos] after the ciphertext [ct]. *)
Definition gcm_done (j0 A ct : list Z) (encrypt : bool) (data : list Z) (pos len : Z) (x : gcm_ctx C * list Z) : Prop :=
  frame pos (pos + len) data x.2 /\ slice x.2 pos len = gcm_seg key j0 (zlen ct) (slice data pos len) /\
  gcm_data j0 A (ct ++ gcm_ct encrypt (slice data pos len) (slice x.2 pos len)) x.1.

(** A run, then another on what follows. *)
Lemma gcm_done_seq j0 A ct encrypt data pos n m c1 d1 x : 0 <= pos -> 0 <= n -> 0 <= m -> pos + n + m <= zlen data ->
  gcm_done j0 A ct encrypt data pos n (c1, d1) ->
  gcm_done j0 A (ct ++ gcm_ct encrypt (slice data pos n) (slice d1 pos n)) encrypt d1 (pos + n) m x ->
  gcm_done j0 A ct encrypt data pos (n + m) x.
Proof.
  intros Hp Hn Hm Hd (F1 & S1 & _) (F2 & S2 & G2). cbn [fst snd] in *. pose proof (frame_len _ _ _ _ F1). pose proof (frame_len _ _ _ _ F2).
  assert (E1 : slice (x.2) pos n = slice d1 pos n) by (apply (slice_frame _ _ _ _ (pos + n) (pos + n + m)); done || lia).
  assert (E2 : slice d1 (pos + n) m = slice data (pos + n) m) by (apply (slice_frame _ _ _ _ pos (pos + n)); done || lia).
  assert (EL : zlen (gcm_ct encrypt (slice data pos n) (slice d1 pos n)) = n) by (destruct encrypt; apply zlen_slice; lia).
  rewrite E2 in *. rewrite zlen_app, EL in S2. split; [|split].
  - eapply frame_trans; [eapply frame_weaken; [exact F1|lia..]|eapply frame_weaken; [exact F2|lia..]].
  - rewrite !slice_split, seg_app, E1, S1, S2 by lia. by rewrite (zlen_slice data pos n) by lia.
  - rewrite !slice_split, gcm_ct_app, E1, app_assoc by lia. exact G2.
Qed.

(** The whole blocks, hashed before or after they change. *)
Lemma gcm_whole_ok {X} (K : list Z -> list Z -> Z -> M X) (Q : X -> Prop) j0 encrypt ctx (ct data : list Z) k pos n :
  gcm_base j0 ctx -> g_jc ctx = gcm_counter j0 (16 * k) -> block 16 (g_y ctx) ->
  0 <= k -> 0 <= pos -> 0 <= n -> 16 * n < 2 ^ 64 -> pos + 16 * n <= zlen data -> bytes data pos (16 * n) -> zlen ct = 16 * k ->
  (forall d, frame pos (pos + 16 * n) data d -> slice d pos (16 * n) = gcm_seg key j0 (zlen ct) (slice data pos (16 * n)) ->
    ok (K (ghash (gcm_H key) (g_y ctx) (gcm_ct encrypt (slice data pos (16 * n)) (slice d pos (16 * n)))) d (gcm_counter j0 (16 * (k + n)))) Q) ->
  ok (y ← (If negb encrypt Then gh (g_y ctx) (g_h ctx) data pos (16 * n) Else mret (g_y ctx));
      '(data, jc) ← ctr_run (g_bctx ctx) (g_j0_1 ctx) (g_jc ctx) data pos (16 * n);
      y ← (If encrypt Then gh y (g_h ctx) data pos (16 * n) Else mret y);
      K y data jc) Q.
Proof.
  intros HG HJ HY Hk0 Hp Hn H64 Hd HB Hct HQ. pose proof HG as [G1 G2 G3 G4 G5 G6]. pose proof G3 as [Lj Bj].
  assert (Hcc : word 32 (g_jc ctx)) by (rewrite HJ; apply u32_word). rewrite G2.
  set (H := gcm_H key) in *. assert (HH : block 16 H) by apply gcm_H_block.
  cstep. apply (ok_mono _ (fun y => y = if encrypt then g_y ctx else ghash H (g_y ctx) (slice data pos (16 * n)))).
  { apply ok_cond; intros E; destruct encrypt; try done. apply ghash_ok; done || lia. }
  intros y1 ->. cstep. eapply ok_mono; [apply (aes_ctr_ok _ _ _ data pos (16 * n)); try done; try lia|].
  { rewrite G4. rewrite zlen_slice; lia. }
  { rewrite G4. by apply slice_bytes. }
  intros [d jc] (FD & SD & ->). rewrite G4, HJ, ctr_seg in SD by done. pose proof (frame_len _ _ _ _ FD) as Ld.
  assert (Bd : bytes d pos (16 * n)).
  { intros i Hi. assert (E : get (slice d pos (16 * n)) (i - pos) = get d i) by (rewrite get_slice by lia; f_equal; lia). rewrite <- E, SD.
    assert (HBS : byte_string (gcm_seg key j0 (16 * k) (slice data pos (16 * n)))).
    { apply seg_bytes; [done|lia|]. apply byte_string_slice; [lia|lia|done|lia]. }
    apply bytes_get in HBS. apply HBS. rewrite zlen_seg, zlen_slice; lia. }
  cstep. apply (ok_mono _ (fun y => y = ghash H (g_y ctx) (gcm_ct encrypt (slice data pos (16 * n)) (slice d pos (16 * n))))).
  { apply ok_cond; intros ->; [|by apply ok_ret]; apply ghash_ok; done || lia. }
  intros y2 ->. rewrite next_blocks, HJ by done. replace (u32 (gcm_counter j0 (16 * k) + n)) with (gcm_counter j0 (16 * (k + n))).
  { apply HQ; [done|by rewrite Hct]. }
  symmetry. replace n with ((16 * n + 15) / 16) at 1 by zn. rewrite counter_next by zn. f_equal. lia.
Qed.
Lemma zlen_ct encrypt a b n : zlen a = n -> zlen b = n -> zlen (gcm_ct encrypt a b) = n.
Proof. by destruct encrypt. Qed.

(** The bytes after the whole blocks. *)
Lemma gcm_tail_ok j0 A ct encrypt ctx data pos len : gcm_data j0 A ct ctx -> zlen ct mod 16 = 0 ->
  0 <= pos -> 0 <= len < 16 -> pos + len <= zlen data -> bytes data pos len ->
  ok (If 0 <? len Then
      buf ← memset (g_buf ctx) 0 0 16;
      '(buf, jc) ← ctr_run (g_bctx ctx) (g_j0_1 ctx) (g_jc ctx) buf 0 16;
      '(buf, data) ← gcm_xor encrypt buf data 0 pos len;
      mret (gcm_set_ctr ctx buf (g_y ctx) jc (u64 (g_count_ctr ctx + len)), data)
    Else mret (ctx, data)) (gcm_done j0 A ct encrypt data pos len).
Proof.
  intros HD H16 Hp Hl Hd HB. pose proof HD as (HG & HC1 & HC2 & HJ & r & HA & Br & Hr & HT). pose proof HG as [G1 G2 G3 G4 G5 G6].
  pose proof G3 as [Lj Bj]. apply ok_cond; intros E; [apply Z.ltb_lt in E|apply Z.ltb_ge in E].
  2:{ apply ok_ret. assert (len = 0) as -> by lia. split; [apply frame_refl|]. cbn [fst snd]. rewrite slice_nil. split; [done|].
      replace (gcm_ct encrypt [] []) with (@nil Z) by (by destruct encrypt). by rewrite app_nil_r. }
  pose proof (absorbed_rest _ _ _ _ _ HA) as Lr. rewrite H16 in Lr. destruct r; [|simpl in Lr; lia].
  apply ok_assoc. cstep. rewrite G4, HJ. eapply ok_mono; [apply ctr_zero_block; try done; [rewrite zlen_slice; lia|by apply slice_bytes|apply u32_word]|].
  intros [b jc] ([Lb _] & -> & HS). set (k := zlen ct / 16). assert (Ek : zlen ct = 16 * k) by (unfold k; zn).
  cstep. eapply ok_mono; [apply (xor_part j0 encrypt b [] (zlen ct) data pos len); try done; cbn [length]; try lia|].
  { intros i Hi. rewrite HS, Ek, stream_next by lia. f_equal. lia. }
  intros [b' d'] (Lb' & FD & SD & HR & HS'). cbn [app] in HR. apply ok_ret. split; [done|]. split; [done|]. cbn [fst snd].
  assert (LC : zlen (gcm_ct encrypt (slice data pos len) (slice d' pos len)) = len).
  { apply zlen_ct; apply zlen_slice; pose proof (frame_len _ _ _ _ FD); lia. }
  set (c := gcm_ct _ _ _) in *. split; [exact (base_set j0 ctx b' _ _ _ _ HG Lb')|]. cbn [gcm_set_ctr g_count_aad g_count_ctr g_jc g_y g_buf].
  split; [done|]. split; [by rewrite HC2, count_add, zlen_app, LC by lia|]. split.
  { rewrite zlen_app, LC, <- counter_next by (done || lia). do 2 f_equal. zn. }
  exists c. split; [apply absorbed_more with (r := []); [done|cbn [length]; lia]|]. split; [|split; [done|]].
  - assert (BS : byte_string (slice data pos len)) by (apply byte_string_slice; [lia|lia|done|lia]).
    unfold c. rewrite SD. destruct encrypt; cbn [gcm_ct]; [|done]. apply seg_bytes; [done|lia|done].
  - intros i H0 Hi. rewrite HS' by (cbn [length]; lia). f_equal. cbn [length]. rewrite zlen_app. lia.
Qed.

Lemma gcm_run_blocks_ok j0 A ct encrypt ctx data pos len :
  gcm_base j0 ctx -> g_count_aad ctx = u64 (zlen A) -> g_count_ctr ctx = u64 (zlen ct) -> g_jc ctx = gcm_counter j0 (zlen ct) ->
  absorbed (gcm_H key) (ghash (gcm_H key) (replicate 16 0) A) ct (g_y ctx) [] ->
  0 <= pos -> 0 <= len < 2 ^ 64 -> pos + len <= zlen data -> bytes data pos len ->
  ok (gcm_run_blocks gh ctx encrypt data pos len) (gcm_done j0 A ct encrypt data pos len).
Proof.
  intros HG HC1 HC2 HJ HA Hp Hl Hd HB. pose proof HG as [G1 G2 G3 G4 G5 G6]. unfold gcm_run_blocks. rewrite whole_blocks by done. cbv zeta.
  destruct (split_blocks data pos len Hp ltac:(lia) Hd) as (D1 & D2 & D3 & D4). pose proof (absorbed_rest _ _ _ _ _ HA) as Lr. cbn [length] in Lr.
  set (n := len / 16) in *. set (k := zlen ct / 16). assert (Ek : zlen ct = 16 * k) by (unfold k; zn).
  assert (BY : block 16 (g_y ctx)) by (eapply absorbed_block; exact HA).
  apply (gcm_whole_ok _ _ j0 encrypt ctx ct data k pos n); try done; try lia; [congruence|by apply (limbs_sub 8 data pos len); [|lia..]|].
  intros d FD SD. pose proof (frame_len _ _ _ _ FD) as Ld. set (ct1 := gcm_ct encrypt _ _).
  assert (L1 : zlen ct1 = 16 * n) by (apply zlen_ct; apply zlen_slice; lia).
  pose proof (absorbed_blocks _ _ gcm_H_block (ghash_block _ _ A) ct _ ct1 [] (Z.to_nat n) HA ltac:(lia) ltac:(done)) as HA1.
  rewrite app_nil_r in HA1. set (y1 := ghash _ (g_y ctx) ct1) in *.
  set (jc1 := gcm_counter j0 (16 * (k + n))). set (ctx1 := gcm_set_ctr ctx (g_buf ctx) y1 jc1 (u64 (g_count_ctr ctx + 16 * n))).
  assert (HD1 : gcm_data j0 A (ct ++ ct1) ctx1).
  { split; [exact (base_set j0 ctx _ _ _ _ _ HG G6)|]. cbn [ctx1 gcm_set_ctr g_count_aad g_count_ctr g_jc g_y g_buf].
    split; [done|]. split; [by rewrite HC2, count_add, zlen_app, L1 by lia|]. split; [rewrite zlen_app, L1, Ek; unfold jc1; f_equal; lia|].
    exists []. split; [done|]. split; [constructor|]. split; [apply slice_nil|]. cbn [length]. lia. }
  eapply ok_mono; [apply (gcm_tail_ok j0 A (ct ++ ct1) encrypt ctx1 d (pos + 16 * n) (len - 16 * n) HD1)|].
  - rewrite zlen_app, L1, Ek. zn.
  - lia.
  - lia.
  - lia.
  - apply (limbs_frame 8 data d _ _ pos (pos + 16 * n)); [by apply (limbs_sub 8 data pos len); [|lia..]|done|lia|lia].
  - intros x Hx. replace len with (16 * n + (len - 16 * n)) by lia.
    apply (gcm_done_seq j0 A ct encrypt data pos (16 * n) (len - 16 * n) ctx1 d); done || lia.
Qed.
(** Bytes that complete a block, or do not. *)
Lemma counter_same j0 n m : 0 <= n -> 0 <= m -> 0 < n mod 16 -> n mod 16 + m <= 16 -> gcm_counter j0 (n + m) = gcm_counter j0 n.
Proof. intros. unfold gcm_counter. do 2 f_equal. zn. Qed.

Lemma gcm_run_ok j0 A ct encrypt ctx data pos len : gcm_data j0 A ct ctx ->
  0 <= pos -> 0 <= len < 2 ^ 64 -> pos + len <= zlen data -> bytes data pos len ->
  ok (br_gcm_run gh ctx encrypt data pos len) (gcm_done j0 A ct encrypt data pos len).
Proof.
  intros (HG & HC1 & HC2 & HJ & r & HA & Br & Hr & HT) Hp Hl Hd HB. pose proof HG as [G1 G2 G3 G4 G5 G6].
  pose proof (absorbed_rest _ _ _ _ _ HA) as Lr. unfold br_gcm_run. rewrite HC2, low_bits4 by lia. rewrite <- Lr. cbv zeta.
  assert (zlen r < 16) by (rewrite Lr; apply Z.mod_pos_bound; lia).
  apply ok_cond; intros E.
  2:{ apply negb_false_iff, Z.eqb_eq in E. destruct r; [|simpl in E; lia]. by apply gcm_run_blocks_ok. }
  apply negb_true_iff, Z.eqb_neq in E. set (n := Z.min len (16 - zlen r)).
  cstep. apply (ok_mono _ (fun c => c = n)).
  { apply ok_cond; intros F; [apply Z.ltb_lt in F|apply Z.ltb_ge in F]; apply ok_ret; lia. }
  intros c ->. assert (HBn : bytes data pos n) by (by apply (limbs_sub 8 data pos len); [|lia..]).
  cstep. eapply ok_mono; [apply (xor_part j0 encrypt (g_buf ctx) r (zlen ct) data pos n); try done; try lia; intros i Hi; apply HT; lia|].
  intros [b d] (Lb & FD & SD & HR & HS). cbn [gcm_set_ctr g_count_ctr g_y g_h g_buf]. pose proof (frame_len _ _ _ _ FD) as Ld.
  set (c := gcm_ct encrypt (slice data pos n) (slice d pos n)) in *.
  assert (LC : zlen c = n) by (apply zlen_ct; apply zlen_slice; lia).
  assert (BC : byte_string c).
  { assert (BS : byte_string (slice data pos n)) by (apply byte_string_slice; [lia|lia|done|lia]).
    unfold c. rewrite SD. destruct encrypt; cbn [gcm_ct]; [|done]. apply seg_bytes; [done|lia|done]. }
  assert (HJ' : g_jc ctx = gcm_counter j0 (zlen (ct ++ c))) by (rewrite zlen_app, LC, counter_same; done || lia).
  assert (HC' : u64 (u64 (zlen ct) + n) = u64 (zlen (ct ++ c))) by (by rewrite count_add, zlen_app, LC by lia).
  apply ok_cond; intros F; [apply Z.ltb_lt in F|apply Z.ltb_ge in F].
  - apply ok_ret. assert (n = len) as En by lia. rewrite <- En. split; [done|]. split; [done|]. cbn [fst snd].
    split; [exact (base_set j0 ctx b _ _ _ _ HG Lb)|]. split; [done|]. split; [done|]. split; [done|]. exists (r ++ c).
    split; [apply absorbed_more; [done|lia]|]. split; [by apply byte_string_app|]. split; [done|].
    cbn [snd gcm_set_ctr g_buf]. fold c. rewrite !zlen_app, LC. intros i H0 Hi. rewrite HS by lia. f_equal. lia.
  - assert (Eb : slice b 0 16 = r ++ c) by (apply rest_block; [done|rewrite zlen_app; lia|done]).
    assert (Bb : bytes b 0 16).
    { rewrite <- Lb. apply bytes_get. rewrite <- (slice_all b 16), Eb by done. by apply byte_string_app. }
    cstep. rewrite G2. eapply ok_mono; [apply (gh_ok _ _ _ _ b 0 16 HA); done || lia|]. intros y ->. rewrite Eb.
    set (ctx1 := gcm_set_y _ _).
    assert (HA1 : absorbed (gcm_H key) (ghash (gcm_H key) (replicate 16 0) A) (ct ++ c) (g_y ctx1) []).
    { apply absorbed_full; [apply gcm_H_block|apply ghash_block|done|lia]. }
    eapply ok_mono; [apply (gcm_run_blocks_ok j0 A (ct ++ c) encrypt ctx1 d (pos + n) (len - n)); try done; try lia|].
    + apply (limbs_frame 8 data d _ _ pos (pos + n)); [by apply (limbs_sub 8 data pos len); [|lia..]|done|lia|lia].
    + intros x Hx. replace len with (n + (len - n)) by lia.
      apply (gcm_done_seq j0 A ct encrypt data pos n (len - n) ctx1 d); [lia..| |exact Hx].
      split; [done|]. split; [done|]. cbn [fst snd].
      split; [exact (base_set j0 ctx b _ _ _ _ HG Lb)|]. split; [done|]. split; [done|]. split; [done|]. exists [].
      split; [done|]. split; [constructor|]. split; [apply slice_nil|]. cbn [length]. lia.
Qed.
(** ** The tag *)

Lemma j0_block j0 : block 16 j0 -> slice j0 0 12 ++ be_words 4 [u32 (vbe j0 12 4)] 1 = j0.
Proof.
  intros [Lj Bj]. pose proof (proj1 (bytes_get _) Bj) as Bj'. rewrite Lj in Bj'.
  rewrite <- (slice_be_words j0 12 4 [u32 (vbe j0 12 4)] 1); try done.
  - change (slice j0 0 12 ++ slice j0 (0 + 12) 4 = j0). rewrite <- (slice_split j0 0 12 4) by lia. by apply slice_all.
  - rewrite Lj. lia.
  - by apply (limbs_sub 8 j0 0 16); [|lia..].
  - intros i Hi. assert (i = 0) as -> by lia. change (get [u32 (vbe j0 12 4)] 0) with (u32 (vbe j0 12 4)).
    rewrite u32_small; [done|]. apply (vbe_bound j0 12 4); [lia|]. by apply (limbs_sub 8 j0 0 16); [|lia..].
Qed.

Lemma lens_blit a c : blit (blit (replicate 16 0) 0 (be_words 8 [a] 1) 0 8) 8 (be_words 8 [c] 1) 0 8 = be_words 8 [a; c] 2.
Proof.
  pose proof (zlen_be_words 8 [a] 1 ltac:(lia)) as La. pose proof (zlen_be_words 8 [c] 1 ltac:(lia)) as Lc.
  assert (L0 : zlen (replicate 16 0) = 16) by done.
  pose proof (zlen_blit (replicate 16 0) 0 (be_words 8 [a] 1) 0 8) as L1.
  apply list_eq_get; rewrite zlen_blit by lia; [rewrite zlen_be_words by lia; lia|]. intros i Hi. rewrite L1, L0 in Hi by lia.
  assert (G : forall v n, 0 <= i < 8 * n -> get (be_words 8 v n) i = u8 (get v (i / 8) >> (8 * (7 - i mod 8)))).
  { intros v n Hn. unfold be_words. rewrite get_map_seq by lia. rewrite Z2Nat.id by lia. done. }
  destruct (Z.lt_ge_cases i 8).
  - rewrite get_blit_out, get_blit_in by lia. rewrite Z.sub_0_r, Z.add_0_l. rewrite G by lia.
    rewrite G by lia. rewrite Z.div_small by lia. done.
  - rewrite get_blit_in by lia. rewrite G by lia.
    unfold be_words. rewrite get_map_seq by lia. rewrite Z2Nat.id by lia.
    replace (i / 8) with 1 by zn. replace ((0 + (i - 8)) / 8) with 0 by zn. replace ((0 + (i - 8)) mod 8) with (i mod 8) by zn. done.
Qed.

Lemma bits_of_len n : 0 <= n -> u64 (u64 n << 3) = u64 (8 * n).
Proof.
  intros Hn. rewrite shl_mul by lia. unfold u64. rewrite Z.mul_mod_idemp_l by lia. f_equal. lia.
Qed.

Lemma gcm_get_tag_ok j0 A ct ctx tag : gcm_data j0 A ct ctx -> zlen tag = 16 ->
  ok (br_gcm_get_tag gh ctx tag) (fun x => x.2 = gcm_tag key j0 A ct).
Proof.
  intros (HG & HC1 & HC2 & HJ & r & HA & Br & Hr & HT) Lt. pose proof HG as [G1 G2 G3 G4 G5 G6]. pose proof G3 as [Lj Bj].
  pose proof (absorbed_rest _ _ _ _ _ HA) as Lr. unfold br_gcm_get_tag. rewrite HC1, HC2, G2, low_bits4, !bits_of_len by lia. rewrite <- Lr. cbv zeta.
  set (H := gcm_H key) in *. assert (HH : block 16 H) by apply gcm_H_block. set (Y0 := ghash H _ A) in *. assert (HY : block 16 Y0) by apply ghash_block.
  assert (zlen r < 16) by (rewrite Lr; apply Z.mod_pos_bound; lia).
  cstep. apply (ok_mono _ (fun y => y = ghash H Y0 ct)).
  { apply ok_cond; intros E; [apply Z.ltb_lt in E|apply Z.ltb_ge in E].
    - assert (Bb : bytes (g_buf ctx) 0 (zlen r)).
      { intros i Hi. rewrite <- (Z.add_0_l i), <- (get_slice (g_buf ctx) 0 (zlen r)) by lia. rewrite Hr. by apply bytes_get; [|lia]. }
      eapply ok_mono; [apply (gh_ok _ _ _ _ (g_buf ctx) 0 (zlen r) HA); done || lia|]. intros y ->. rewrite Hr. by apply absorbed_end.
    - destruct r; [|simpl in E; lia]. apply ok_ret. by apply absorbed_end0. }
  intros y ->. cstep. eapply ok_mono; [apply enc64be_blit; [lia|rewrite length_replicate; lia|apply u64_word]|]. intros t ->.
  cstep. eapply ok_mono; [apply enc64be_blit; [lia|by vm_compute|apply u64_word]|]. intros t ->. rewrite lens_blit.
  change (be_words 8 [u64 (8 * zlen A); u64 (8 * zlen ct)] 2) with (gcm_lens (zlen A) (zlen ct)). set (lens := gcm_lens _ _).
  assert (Ll : zlen lens = 16) by (unfold lens, gcm_lens; by rewrite zlen_be_words).
  assert (Bl : bytes lens 0 16) by (rewrite <- Ll; apply bytes_get, be_words_bytes).
  cstep. eapply ok_mono; [apply (ghash_ok _ _ lens 0 16); try done; try lia; apply ghash_block|]. intros y ->. rewrite (slice_all lens) by done.
  set (y := ghash H _ lens). assert (Hy : block 16 y) by apply ghash_block. destruct Hy as [Ly By].
  cstep. apply ok_memcpy; [lia..|]. assert (Ey : blit tag 0 y 0 16 = y).
  { apply list_eq_get; rewrite zlen_blit by lia; [lia|]. intros i Hi. rewrite get_blit_in by lia. f_equal; lia. }
  rewrite Ey, G4, G5. cstep. eapply ok_mono; [apply (aes_ctr_ok _ _ _ y 0 16); try done; try lia|].
  { rewrite zlen_slice; lia. }
  { by apply slice_bytes. }
  { apply (vbe_bound j0 12 4); [lia|]. apply bytes_get in Bj. rewrite Lj in Bj. by apply (limbs_sub 8 j0 0 16); [|lia..]. }
  { rewrite <- Ly. by apply bytes_get. }
  intros [t cc] (FT & ST & _). apply ok_ret. cbn [snd]. pose proof (frame_len _ _ _ _ FT). rewrite (slice_all t), (slice_all y) in ST by lia.
  rewrite ST. unfold gcm_tag. fold H Y0 lens. fold y. destruct (gcm_E j0 G3) as [LE _].
  apply list_eq_get; rewrite zlen_ctr; [by rewrite xor_list_len by lia|]. intros i Hi. rewrite get_ctr, get_xor_list by lia.
  unfold ctr_stream, ctr_block. rewrite Z.div_small, Z.mod_small, Z.add_0_r, j0_block by (done || lia). done.
Qed.
Lemma tag_block j0 A ct : block 16 j0 -> block 16 (gcm_tag key j0 A ct).
Proof. intros HJ. unfold gcm_tag. cbv zeta. apply xor_block; [apply ghash_block|by apply gcm_E]. Qed.

Lemma gcm_get_tag_trunc_ok j0 A ct ctx tag len : gcm_data j0 A ct ctx -> 0 <= len <= 16 -> len <= zlen tag ->
  ok (br_gcm_get_tag_trunc gh ctx tag len) (fun x => x.2 = blit tag 0 (gcm_tag key j0 A ct) 0 len).
Proof.
  intros HD Hl Ht. unfold br_gcm_get_tag_trunc. cstep. eapply ok_mono; [by apply (gcm_get_tag_ok j0 A ct)|].
  intros [c t] E. cbn [snd] in E. subst t. destruct (tag_block j0 A ct) as [LT _]; [apply HD|]. cstep. apply ok_memcpy; [lia..|]. by apply ok_ret.
Qed.

(** The comparison accumulates the differences of all the bytes. *)
Lemma gcm_check_tag_ok j0 A ct ctx tag len : gcm_data j0 A ct ctx -> 0 <= len <= 16 -> len <= zlen tag -> bytes tag 0 len ->
  ok (br_gcm_check_tag_trunc gh ctx tag len) (fun x => x.2 = b2z (bool_decide (slice tag 0 len = slice (gcm_tag key j0 A ct) 0 len))).
Proof.
  intros HD Hl Ht HB. unfold br_gcm_check_tag_trunc. cstep. eapply ok_mono; [by apply (gcm_get_tag_ok j0 A ct)|].
  intros [c t] E. cbn [snd] in E. subst t. destruct (tag_block j0 A ct) as [LT BT]; [apply HD|]. set (t := gcm_tag _ _ _ _) in *.
  apply bytes_get in BT. cstep.
  apply (ok_for_up (fun k x => word 8 x /\ (x = 0 <-> forall i, 0 <= i < k -> get t i = get tag i))).
  - lia.
  - split; [done|]. split; [|done]. intros _ i Hi. lia.
  - intros k x Hki [Hx HE]. cstep. apply ok_load; [lia|]. cstep. apply ok_load; [lia|]. apply ok_ret.
    assert (Hd : word 8 (get t k .^ get tag k)) by (apply word_lxor; [done|apply BT; lia|apply HB; lia]).
    split; [by apply word_lor|]. rewrite Z.lor_eq_0_iff, HE, Z.lxor_eq_0_iff. split.
    + intros [H1 H2] i Hi. destruct (Z.eq_dec i k) as [->|]; [done|]. apply H1. lia.
    + intros H1. split; [intros i Hi; apply H1; lia|apply H1; lia].
  - intros x [Hx HE]. apply ok_ret. cbn [snd]. assert (HS : sword32 x) by (unfold word in Hx; unfold sword32; lia).
    rewrite (proj1 (signed_tests x HS)). f_equal. apply eq_true_iff_eq. rewrite Z.eqb_eq, bool_decide_eq_true, HE. split.
    + intros H1. apply list_eq_get; rewrite !zlen_slice by lia; [done|]. intros i Hi. rewrite !get_slice by lia. symmetry. apply H1. lia.
    + intros H1 i Hi. assert (H2 : get (slice tag 0 len) i = get (slice t 0 len) i) by (by rewrite H1).
      by rewrite !get_slice in H2 by lia.
Qed.
End Proofs.
