(* ===== verification/GcmType.v ===== *)
(** The type of a GCM context ([src/aead/gcm.c]): what every operation keeps and
    relies on, in whatever order they are called. *)
From stdpp Require Import base tactics list numbers option.
From Stdlib Require Import ZArith Lia.
From S2P Require Import Prelude CtPrims Limbs Codec Hash Fips197 Modes Ghash GhashMul GhashOk AesCt64 AesCt64Modes Gcm.
Local Open Scope Z_scope.
Local Open Scope cword_scope.

Lemma block_blit n d dp s sp k : block n d -> 0 <= dp -> 0 <= sp -> 0 <= k -> dp + k <= n -> sp + k <= zlen s -> bytes s sp k ->
  block n (blit d dp s sp k).
Proof.
  intros [Ld Bd] Hd Hs Hk Hl Hl' HB. pose proof (zlen_blit d dp s sp k) as L. split; [lia|]. apply bytes_get. intros i Hi.
  apply bytes_get in Bd. destruct (decide (dp <= i < dp + k)) as [H|H].
  - rewrite get_blit_in by lia. apply HB. lia.
  - rewrite get_blit_out by lia. apply Bd. lia.
Qed.

Lemma block_fillz n d v k : block n d -> 0 <= k <= n -> word 8 v -> block n (fillz d 0 v k).
Proof.
  intros [Ld Bd] Hk Hv. pose proof (zlen_fillz d 0 v k) as L. split; [lia|]. apply bytes_get. intros i Hi.
  apply bytes_get in Bd. destruct (decide (0 <= i < 0 + k)) as [H|H].
  - by rewrite get_fillz_in by lia.
  - rewrite get_fillz_out by lia. apply Bd. lia.
Qed.

Lemma block_bytes n s pos len : block n s -> 0 <= pos -> pos + len <= n -> bytes s pos len.
Proof. intros [Ls Bs] Hp Hl. apply bytes_get in Bs. by apply (limbs_sub 8 s 0 (zlen s)); [|lia..]. Qed.

Section Type_.
Context {C : CtrClass} {CS : CtrSpec C} {AM : AesMode C CS} (gh : br_ghash) {GS : GhashSpec gh}.
Context (key : list Z) (Hk : byte_string key) (HL : aes_key_len (zlen key)).

(** Memory for a context: the arrays have their sizes and hold bytes, the
    counters are in range. *)
Definition gcm_memory (ctx : gcm_ctx C) : Prop :=
  block 16 (g_h ctx) /\ block 12 (g_j0_1 ctx) /\ block 16 (g_buf ctx) /\ block 16 (g_y ctx) /\ word 32 (g_j0_2 ctx) /\
  word 32 (g_jc ctx) /\ word 64 (g_count_aad ctx) /\ word 64 (g_count_ctr ctx).

(** A context for [key]: the one of the cipher holds the key, [h] is the hash key
    of SP 800-38D for it, the other arrays have their sizes and hold bytes, and
    the counters are in range. *)
Record gcm_typed (ctx : gcm_ctx C) : Prop := GcmTyped {
  t_key : ctr_rep (g_bctx ctx) key; t_h : g_h ctx = gcm_H key; t_iv : block 12 (g_j0_1 ctx);
  t_buf : block 16 (g_buf ctx); t_y : block 16 (g_y ctx); t_j0 : word 32 (g_j0_2 ctx); t_jc : word 32 (g_jc ctx);
  t_aad : word 64 (g_count_aad ctx); t_ctr : word 64 (g_count_ctr ctx) }.

Lemma typed_h ctx : gcm_typed ctx -> block 16 (g_h ctx).
Proof. intros T. rewrite (t_h ctx T). by apply gcm_H_block. Qed.

Lemma init_typed ctx b : gcm_memory ctx -> ctr_rep b key -> ok (br_gcm_init ctx b) gcm_typed.
Proof.
  intros (Hh & Hi & Hb & Hy & Hj & Hc & Ha & Hn) HR.
  assert (HA : gcm_alloc ctx) by (by split; [apply Hh|split; [apply Hi|split; [apply Hb|apply Hy]]]).
  eapply ok_mono; [by apply (gcm_init_eq key Hk HL)|]. intros c ->. by split.
Qed.

Lemma land15 x : 0 <= x .& 15 < 16.
Proof. change 15 with (Z.ones 4) at 1 2. rewrite Z.land_ones by lia. by apply Z.mod_pos_bound. Qed.

Lemma ctr_typed b iv cc data pos n : ctr_rep b key -> block 12 iv -> word 32 cc -> byte_string data ->
  0 <= pos -> 0 <= n -> 16 * n < 2 ^ 64 -> pos + 16 * n <= zlen data ->
  ok (ctr_run b iv cc data pos (16 * n)) (fun '(d, cc') => block (zlen data) d /\ word 32 cc').
Proof.
  intros HR [Li Bi] Hc HB Hp Hn H64 Hl. assert (HBd : bytes data pos (16 * n)) by (by apply (block_bytes (zlen data))).
  eapply ok_mono; [apply (aes_ctr_ok key b iv cc data pos (16 * n)); done || lia|].
  intros [d cc'] (HF & HS & ->). pose proof (frame_len _ _ _ _ HF). split; [|rewrite next_blocks by done; apply u32_word].
  split; [done|]. apply bytes_get. intros i Hi. destruct (decide (pos <= i < pos + 16 * n)) as [H1|H1].
  - replace (get d i) with (get (slice d pos (16 * n)) (i - pos)) by (rewrite get_slice by lia; f_equal; lia).
    rewrite HS, get_ctr by (rewrite zlen_slice; lia). apply word_lxor; [done|rewrite get_slice by lia; apply HBd; lia|].
    apply stream_word; done || lia.
  - rewrite (frame_get _ _ _ _ i HF) by lia. apply bytes_get in HB. apply HB. lia.
Qed.
Lemma gh_typed y h data pos len : block 16 y -> block 16 h -> byte_string data -> 0 <= pos -> 0 <= len -> pos + len <= zlen data ->
  ok (gh y h data pos len) (block 16).
Proof.
  intros Hy Hh HB Hp Hl Hd. eapply ok_mono; [apply ghash_ok; try done; by apply (block_bytes (zlen data))|]. intros y' ->. apply ghash_block.
Qed.

(** What the operations write. *)
Lemma typed_set ctx buf y jc a c : gcm_typed ctx -> block 16 buf -> block 16 y -> word 32 jc -> word 64 a -> word 64 c ->
  gcm_typed (GcmCtx (g_bctx ctx) (g_h ctx) (g_j0_1 ctx) buf y (g_j0_2 ctx) jc a c).
Proof.
  intros [T1 T2 T3 T4 T5 T6 T7 T8 T9] Hb Hy Hj Ha Hc.
  exact (GcmTyped (GcmCtx (g_bctx ctx) (g_h ctx) (g_j0_1 ctx) buf y (g_j0_2 ctx) jc a c) T1 T2 T3 Hb Hy T6 Hj Ha Hc).
Qed.

Lemma typed_set_y ctx y : gcm_typed ctx -> block 16 y -> gcm_typed (gcm_set_y ctx y).
Proof. intros T Hy. by apply typed_set; try apply T. Qed.

Lemma reset_typed ctx iv len : gcm_typed ctx -> byte_string iv -> 0 <= len <= zlen iv -> len < 2 ^ 64 ->
  ok (br_gcm_reset gh ctx iv len) gcm_typed.
Proof.
  intros T HB Hl H64. pose proof T as [T1 _ T3 T4 T5 T6 T7 T8 T9]. pose proof (typed_h ctx T) as T2. pose proof (block_bytes (zlen iv) iv 0 len (conj eq_refl HB)) as HBi.
  unfold br_gcm_reset. cstep. apply (ok_mono _ (fun '(j1, j2) => block 12 j1 /\ word 32 j2)).
  - unfold gcm_nonce. apply ok_cond; intros E; [apply Z.eqb_eq in E|].
    + cstep. apply ok_memcpy; [destruct T3; lia..|]. apply ok_ret. split; [|done]. apply block_blit; try done; try lia. rewrite <- E. apply HBi; lia.
    + assert (HZ : block 16 (replicate 16 0)) by apply zeros_block.
      cstep. apply ok_memset; [rewrite ?length_replicate; lia..|]. assert (HZ' : block 16 (fillz (replicate 16 0) 0 0 16)) by (by apply block_fillz).
      cstep. eapply ok_mono; [apply (gh_typed _ _ iv 0 len); done || lia|]. intros ty Hty.
      cstep. apply ok_memset; [rewrite ?length_replicate; lia..|]. assert (HZ2 : block 16 (fillz (replicate 16 0) 0 0 8)) by (by apply block_fillz).
      cstep. eapply ok_mono; [apply enc64be_blit; [lia|destruct HZ2; lia|apply u64_word]|]. intros t ->.
      set (t := blit _ _ _ _ _). assert (Ht : block 16 t) by (apply block_blit; try done; apply be8_bytes). destruct Ht as [Lt Bt].
      cstep. eapply ok_mono; [apply (gh_typed ty _ t 0 16); done || lia|]. intros ty2 Hty2. pose proof Hty2 as [L2 B2].
      cstep. apply ok_memcpy; [destruct T3; lia..|].
      cstep. eapply ok_mono; [apply (codec_dec (WordCodec:=codec32be)); [lia|lia|by apply (block_bytes 16)]|]. intros j2 [-> _].
      apply ok_ret. split; [apply block_blit; try done; try lia; by apply (block_bytes 16)|]. apply (vbe_bound ty2 12 4); [lia|]. by apply (block_bytes 16).
  - intros [j1 j2] [H1 H2]. cstep. apply ok_memset; [destruct T5; lia..|]. apply ok_ret.
    exact (GcmTyped (GcmCtx (g_bctx ctx) (g_h ctx) j1 (g_buf ctx) _ j2 _ 0 0) T1 (t_h ctx T) H1 T4 (block_fillz 16 _ 0 16 T5 ltac:(lia) ltac:(done)) H2
      (u32_word _) ltac:(done) ltac:(done)).
Qed.

Lemma aad_blocks_typed ctx data pos len : gcm_typed ctx -> byte_string data -> 0 <= pos -> 0 <= len < 2 ^ 64 -> pos + len <= zlen data ->
  ok (gcm_aad_blocks gh ctx data pos len) gcm_typed.
Proof.
  intros T HB Hp Hl Hd. pose proof T as [T1 _ T3 T4 T5 T6 T7 T8 T9]. pose proof (typed_h ctx T) as T2. unfold gcm_aad_blocks. rewrite whole_blocks by done. cbv zeta.
  destruct (split_blocks data pos len Hp ltac:(lia) Hd) as (D1 & D2 & _).
  cstep. eapply ok_mono; [apply (gh_typed _ _ data pos); done || lia|]. intros y Hy. cstep. apply ok_memcpy; [destruct T4; lia..|]. apply ok_ret.
  apply typed_set; try done; [|apply u64_word]. apply block_blit; try done; try lia. apply (block_bytes (zlen data)); done || lia.
Qed.

Lemma aad_typed ctx data pos len : gcm_typed ctx -> byte_string data -> 0 <= pos -> 0 <= len < 2 ^ 64 -> pos + len <= zlen data ->
  ok (br_gcm_aad_inject gh ctx data pos len) gcm_typed.
Proof.
  intros T HB Hp Hl Hd. pose proof T as [T1 _ T3 T4 T5 T6 T7 T8 T9]. pose proof (typed_h ctx T) as T2. pose proof (land15 (g_count_aad ctx)) as HP. pose proof T4 as [L4 _].
  unfold br_gcm_aad_inject. cbv zeta. set (ptr := g_count_aad ctx .& 15) in *. apply ok_cond; intros _; [|by apply aad_blocks_typed].
  apply ok_cond; intros E; [apply Z.ltb_lt in E|apply Z.ltb_ge in E].
  - cstep. apply ok_memcpy; [lia..|]. apply ok_ret. apply typed_set; try done; [|apply u64_word].
    apply block_blit; try done; try lia. apply (block_bytes (zlen data)); done || lia.
  - cstep. apply ok_memcpy; [lia..|]. assert (HB' : block 16 (blit (g_buf ctx) ptr data pos (16 - ptr))).
    { apply block_blit; try done; try lia. apply (block_bytes (zlen data)); done || lia. }
    set (b := blit _ _ _ _ _) in *. pose proof HB' as [Lb Bb]. cstep. eapply ok_mono; [apply (gh_typed _ _ b 0 16); done || lia|]. intros y Hy.
    apply aad_blocks_typed; try done; try lia. apply typed_set; try done. apply u64_word.
Qed.

Lemma flip_typed ctx : gcm_typed ctx -> ok (br_gcm_flip gh ctx) gcm_typed.
Proof.
  intros T. pose proof T as [T1 _ T3 T4 T5 T6 T7 T8 T9]. pose proof (typed_h ctx T) as T2. pose proof (land15 (g_count_aad ctx)) as HP. pose proof T4 as [L4 B4].
  unfold br_gcm_flip. cbv zeta. apply ok_cond; intros _; [|by apply ok_ret].
  cstep. eapply ok_mono; [apply (gh_typed _ _ (g_buf ctx) 0); done || lia|]. intros y Hy. apply ok_ret. by apply typed_set_y.
Qed.

Lemma xor_typed encrypt cbuf data ptr pos n : byte_string cbuf -> byte_string data -> 0 <= ptr -> 0 <= n -> ptr + n <= zlen cbuf ->
  0 <= pos -> pos + n <= zlen data -> ok (gcm_xor encrypt cbuf data ptr pos n) (fun '(c, d) => block (zlen cbuf) c /\ block (zlen data) d).
Proof.
  intros Hc Hd Hp Hn Hl Hq Hl'. apply bytes_get in Hc, Hd. eapply ok_mono; [by apply gcm_xor_ok|]. intros [c d] (FC & FD & HI).
  pose proof (frame_len _ _ _ _ FC) as Lc. pose proof (frame_len _ _ _ _ FD) as Ld.
  assert (Bd : bytes d 0 (zlen d)).
  { intros i Hi. destruct (decide (pos <= i < pos + n)); [|rewrite (frame_get _ _ _ _ i FD) by lia; apply Hd; lia].
    replace i with (pos + (i - pos)) by lia. rewrite (proj1 (HI (i - pos) ltac:(lia))). apply word_lxor; [done|apply Hd; lia|apply Hc; lia]. }
  split; split; try done; apply bytes_get; [|done]. intros i Hi.
  destruct (decide (ptr <= i < ptr + n)); [|rewrite (frame_get _ _ _ _ i FC) by lia; apply Hc; lia].
  replace i with (ptr + (i - ptr)) by lia. rewrite (proj2 (HI (i - ptr) ltac:(lia))). destruct encrypt; cbn [gcm_ct]; [apply Bd; lia|apply Hd; lia].
Qed.

(** A context, and a buffer of the size it had. *)
Definition run_typed (n : Z) (x : gcm_ctx C * list Z) : Prop := gcm_typed x.1 /\ block n x.2.

Lemma run_blocks_typed ctx encrypt data pos len : gcm_typed ctx -> byte_string data -> 0 <= pos -> 0 <= len < 2 ^ 64 -> pos + len <= zlen data ->
  ok (gcm_run_blocks gh ctx encrypt data pos len) (run_typed (zlen data)).
Proof.
  intros T HB Hp Hl Hd. pose proof T as [T1 _ T3 T4 T5 T6 T7 T8 T9]. pose proof (typed_h ctx T) as T2. unfold gcm_run_blocks. rewrite whole_blocks by done. cbv zeta.
  destruct (split_blocks data pos len Hp ltac:(lia) Hd) as (D1 & D2 & _). set (n := len / 16) in *.
  cstep. apply (ok_mono _ (block 16)); [apply ok_cond; intros _; [apply gh_typed; done || lia|by apply ok_ret]|]. intros y1 Hy1.
  cstep. eapply ok_mono; [apply ctr_typed; done || lia|]. intros [d jc] [[Ld Bd] Hjc].
  cstep. apply (ok_mono _ (block 16)); [apply ok_cond; intros _; [apply gh_typed; done || lia|by apply ok_ret]|]. intros y2 Hy2.
  set (ctx1 := gcm_set_ctr _ _ _ _ _). assert (T' : gcm_typed ctx1) by (apply typed_set; try done; apply u64_word).
  apply ok_cond; intros _; [|by apply ok_ret].
  pose proof (t_buf _ T') as T4'. cstep. apply ok_memset; [destruct T4'; lia..|]. pose proof (block_fillz 16 (g_buf ctx1) 0 16 T4' ltac:(lia) ltac:(done)) as [Lb Bb].
  set (z := fillz _ _ _ _) in *. cstep. eapply ok_mono; [apply (ctr_typed _ _ _ z 0 1); done || lia|]. intros [b jc2] [[Lb2 Bb2] Hj2].
  cstep. eapply ok_mono; [apply xor_typed; done || lia|]. intros [b3 d3] [Hb3 Hd3]. apply ok_ret. split; [|cbn; by rewrite <- Ld].
  rewrite Lb2, Lb in Hb3. cbn [fst]. apply typed_set; try done. apply u64_word.
Qed.
Lemma gcm_run_typed ctx encrypt data pos len : gcm_typed ctx -> byte_string data -> 0 <= pos -> 0 <= len < 2 ^ 64 -> pos + len <= zlen data ->
  ok (br_gcm_run gh ctx encrypt data pos len) (run_typed (zlen data)).
Proof.
  intros T HB Hp Hl Hd. pose proof T as [T1 _ T3 T4 T5 T6 T7 T8 T9]. pose proof (typed_h ctx T) as T2. pose proof (land15 (g_count_ctr ctx)) as HP. pose proof T4 as [L4 B4].
  unfold br_gcm_run. cbv zeta. set (ptr := g_count_ctr ctx .& 15) in *. apply ok_cond; intros _; [|by apply run_blocks_typed].
  set (n := Z.min len (16 - ptr)). cstep. apply (ok_mono _ (fun c => c = n)).
  { apply ok_cond; intros F; [apply Z.ltb_lt in F|apply Z.ltb_ge in F]; apply ok_ret; lia. }
  intros c ->. cstep. eapply ok_mono; [apply xor_typed; done || lia|]. intros [b d] [Hb [Ld Bd]]. rewrite L4 in Hb.
  set (ctx1 := gcm_set_ctr _ _ _ _ _). assert (T' : gcm_typed ctx1) by (apply typed_set; try done; apply u64_word).
  apply ok_cond; intros _; [by apply ok_ret|]. pose proof (t_buf _ T') as [L4' B4'].
  cstep. eapply ok_mono; [apply (gh_typed _ _ (g_buf ctx1) 0 16); done || lia|]. intros y Hy. rewrite <- Ld.
  apply run_blocks_typed; try done; try lia. by apply typed_set_y.
Qed.

Lemma get_tag_typed ctx tag : gcm_typed ctx -> zlen tag = 16 -> ok (br_gcm_get_tag gh ctx tag) (run_typed 16).
Proof.
  intros T Lt. pose proof T as [T1 _ T3 T4 T5 T6 T7 T8 T9]. pose proof (typed_h ctx T) as T2. pose proof (land15 (g_count_ctr ctx)) as HP. pose proof T4 as [L4 B4].
  unfold br_gcm_get_tag. cbv zeta. set (ptr := g_count_ctr ctx .& 15) in *.
  cstep. apply (ok_mono _ (block 16)); [apply ok_cond; intros _; [apply gh_typed; done || lia|by apply ok_ret]|]. intros y1 Hy1.
  cstep. eapply ok_mono; [apply enc64be_blit; [lia|rewrite length_replicate; lia|apply u64_word]|]. intros t ->.
  cstep. eapply ok_mono; [apply enc64be_blit; [lia|by vm_compute|apply u64_word]|]. intros t ->. rewrite lens_blit.
  assert (Ll : block 16 (be_words 8 [u64 (g_count_aad ctx << 3); u64 (g_count_ctr ctx << 3)] 2)) by (split; [by rewrite zlen_be_words|apply be_words_bytes]).
  destruct Ll as [Ll Bl]. cstep. eapply ok_mono; [apply gh_typed; done || lia|]. intros y Hy. pose proof Hy as [Ly By].
  cstep. apply ok_memcpy; [lia..|]. assert (Ey : blit tag 0 y 0 16 = y).
  { apply list_eq_get; rewrite zlen_blit by lia; [lia|]. intros i Hi. rewrite get_blit_in by lia. f_equal; lia. }
  rewrite Ey. cstep. eapply ok_mono; [apply (ctr_typed _ _ _ y 0 1); done || lia|]. intros [t cc] [Ht _]. rewrite Ly in Ht.
  apply ok_ret. split; [|done]. by apply typed_set_y.
Qed.

(** ** Calls in any order *)

Inductive gcm_op :=
  | OpReset (iv : list Z)
  | OpAad (data : list Z)
  | OpFlip
  | OpRun (encrypt : bool) (data : list Z)
  | OpTag (tag : list Z) (len : Z)
  | OpCheck (tag : list Z) (len : Z).

(** What the types of the arguments say, and the size of a tag. *)
Definition gcm_op_fits (op : gcm_op) : Prop :=
  match op with
  | OpReset d | OpAad d | OpRun _ d => byte_string d /\ zlen d < 2 ^ 64
  | OpFlip => True
  | OpTag tag len | OpCheck tag len => 0 <= len <= 16 /\ len <= zlen tag
  end.

Definition gcm_op_run (ctx : gcm_ctx C) (op : gcm_op) : M (gcm_ctx C) :=
  match op with
  | OpReset iv => br_gcm_reset gh ctx iv (zlen iv)
  | OpAad data => br_gcm_aad_inject gh ctx data 0 (zlen data)
  | OpFlip => br_gcm_flip gh ctx
  | OpRun encrypt data => '(ctx, _) ← br_gcm_run gh ctx encrypt data 0 (zlen data); mret ctx
  | OpTag tag len => '(ctx, _) ← br_gcm_get_tag_trunc gh ctx tag len; mret ctx
  | OpCheck tag len => '(ctx, _) ← br_gcm_check_tag_trunc gh ctx tag len; mret ctx
  end.
Fixpoint gcm_ops_run (ctx : gcm_ctx C) (ops : list gcm_op) : M (gcm_ctx C) :=
  match ops with [] => mret ctx | op :: ops => ctx ← gcm_op_run ctx op; gcm_ops_run ctx ops end.

Lemma gcm_op_typed ctx op : gcm_typed ctx -> gcm_op_fits op -> ok (gcm_op_run ctx op) gcm_typed.
Proof.
  intros T Hf. destruct op as [d|d| |e d|tag len|tag len]; cbn [gcm_op_run gcm_op_fits] in *.
  - destruct Hf. apply reset_typed; done || lia.
  - destruct Hf. apply aad_typed; done || lia.
  - by apply flip_typed.
  - destruct Hf. cstep. eapply ok_mono; [apply gcm_run_typed; done || lia|]. intros [c d'] [HT _]. by apply ok_ret.
  - unfold br_gcm_get_tag_trunc. apply ok_assoc. cstep. eapply ok_mono; [by apply get_tag_typed|]. intros [c t] [HT [Lt _]]. cbn [fst snd] in *.
    cstep. cstep. apply ok_memcpy; [lia..|]. apply ok_ret. by apply ok_ret.
  - unfold br_gcm_check_tag_trunc. apply ok_assoc. cstep. eapply ok_mono; [by apply get_tag_typed|]. intros [c t] [HT [Lt _]]. cbn [fst snd] in *.
    cstep. cstep. apply (ok_for_up (fun _ _ => True)).
    + lia.
    + done.
    + intros i x Hi _. cstep. apply ok_load; [lia|]. cstep. apply ok_load; [lia|]. by apply ok_ret.
    + intros x _. apply ok_ret. by apply ok_ret.
Qed.
End Type_.

Lemma gcm_ops_typed {C CS} {AM : AesMode C CS} gh {GS : GhashSpec gh} key ops : forall ctx : gcm_ctx C,
  byte_string key -> aes_key_len (zlen key) -> gcm_typed key ctx -> Forall gcm_op_fits ops ->
  ok (gcm_ops_run gh ctx ops) (gcm_typed key).
Proof.
  induction ops as [|op ops IH]; intros ctx Hk HL T HF; cbn [gcm_ops_run]; [by apply ok_ret|].
  apply Forall_cons_1 in HF as [Ho HF]. cstep. eapply ok_mono; [by apply (gcm_op_typed gh key Hk HL)|]. intros c Hc. by apply IH.
Qed.

(** [C19] A GCM context stays well-formed whatever a client does.  The
    initialisation makes one of any memory; any calls of reset, additional data,
    flip, encryption, decryption, tag and check, in any order, on strings of any
    length, then never access an array out of its bounds, leave the arrays of the
    context with bytes and its counters in range, and keep both keys: the cipher
    context still holds the key of the client, and [h] is still the encryption of
    the zero block under it. *)
Theorem gcm_context_type {C CS} {AM : AesMode C CS} gh {GS : GhashSpec gh} key ops :
  byte_string key -> aes_key_len (zlen key) -> Forall gcm_op_fits ops ->
  (forall (ctx : gcm_ctx C) b, gcm_memory ctx -> ctr_rep b key ->
    ok (ctx ← br_gcm_init ctx b; gcm_ops_run gh ctx ops) (gcm_typed key)) /\
  (forall ctx : gcm_ctx C, gcm_typed key ctx -> ok (gcm_ops_run gh ctx ops) (gcm_typed key)).
Proof.
  intros Hk HL HF. split; [intros ctx b HM HR|intros ctx T; by apply gcm_ops_typed].
  cstep. eapply ok_mono; [by apply (init_typed key Hk HL)|]. intros c T. by apply gcm_ops_typed.
Qed.

(** Memory for a context. *)
Definition gcm_fresh {C} (b : @ctr_ctx C) (v : Z) : gcm_ctx C :=
  GcmCtx b (replicate 16 v) (replicate 12 v) (replicate 16 v) (replicate 16 v) v v v v.

Lemma gcm_fresh_memory {C} (b : @ctr_ctx C) v : word 8 v -> gcm_memory (gcm_fresh b v).
Proof.
  intros Hv. assert (HB : forall n, block (Z.of_nat n) (replicate n v)) by (intros n; split; [by rewrite length_replicate|by apply Forall_replicate]).
  assert (W : forall w, 8 <= w -> word w v).
  { intros w Hw. unfold word in *. pose proof (Z.pow_le_mono_r 2 8 w ltac:(lia) Hw). lia. }
  unfold gcm_memory, gcm_fresh. cbn [g_h g_j0_1 g_buf g_y g_j0_2 g_jc g_count_aad g_count_ctr].
  split; [apply (HB 16%nat)|]. split; [apply (HB 12%nat)|]. do 2 (split; [apply (HB 16%nat)|]). by repeat (split; [by apply W|]); apply W.
Qed.

Lemma gcm_context_type_witness :
  ok (b ← ctr_init (CtrClass:=aes_ct64_ctr) aes64_fresh (replicate 16 1) 0 16;
      ctx ← br_gcm_init (gcm_fresh (C:=aes_ct64_ctr) b 7) b;
      gcm_ops_run br_ghash_ctmul64 ctx
        [OpRun true (replicate 33 5); OpAad (replicate 9 5); OpReset (replicate 13 5); OpCheck (replicate 20 0) 12; OpFlip])
    (gcm_typed (CS:=aes_ct64_ctr_spec) (replicate 16 1)).
Proof.
  assert (Hk : byte_string (replicate 16 1)) by (by apply Forall_replicate).
  cstep. eapply ok_mono.
  { apply (@ctr_init_ok aes_ct64_ctr aes_ct64_ctr_spec); [done|by left|done|done|by apply (block_bytes 16)]. }
  intros b HR. refine (proj1 (gcm_context_type br_ghash_ctmul64 (replicate 16 1) _ Hk _ _) _ b _ HR).
  - by left.
  - repeat (apply Forall_cons_2; [first [done|by split; [apply Forall_replicate|]|by cbn]|]). constructor.
  - by apply gcm_fresh_memory.
Defined.
