(* ===== verification/GcmSession.v ===== *)
(** Messages under GCM: the calls of a client on the operations of [Gcm.v], in
    any pieces, over any implementations of CTR and GHASH. *)
From stdpp Require Import base tactics list numbers option.
From Stdlib Require Import ZArith Lia.
From S2P Require Import Prelude CtPrims Limbs Codec Hash HashPad Fips197 Modes Ghash GhashMul GhashOk AesCt AesCtModes AesCt64 AesCt64Modes Gcm GcmType.
Local Open Scope Z_scope.
Local Open Scope cword_scope.

(** * A client *)

Section Client.
Context {C : CtrClass} (gh : br_ghash).

Fixpoint gcm_aads (ctx : gcm_ctx C) (l : list (list Z)) : M (gcm_ctx C) :=
  match l with
  | [] => mret ctx
  | d :: l => ctx ← br_gcm_aad_inject gh ctx d 0 (zlen d); gcm_aads ctx l
  end.
Fixpoint gcm_runs (ctx : gcm_ctx C) (encrypt : bool) (l : list (list Z)) : M (gcm_ctx C * list Z) :=
  match l with
  | [] => mret (ctx, [])
  | d :: l =>
      '(ctx, d) ← br_gcm_run gh ctx encrypt d 0 (zlen d);
      '(ctx, out) ← gcm_runs ctx encrypt l;
      mret (ctx, d ++ out)
  end.
Definition gcm_message (ctx : gcm_ctx C) (encrypt : bool) (iv : list Z) (aads chunks : list (list Z)) : M (gcm_ctx C * list Z) :=
  ctx ← br_gcm_reset gh ctx iv (zlen iv);
  ctx ← gcm_aads ctx aads;
  ctx ← br_gcm_flip gh ctx;
  gcm_runs ctx encrypt chunks.

Definition gcm_seal_with (ctx : gcm_ctx C) (b : @ctr_ctx C) (iv : list Z) (aads chunks : list (list Z)) : M (list Z * list Z) :=
  ctx ← br_gcm_init ctx b;
  '(ctx, out) ← gcm_message ctx true iv aads chunks;
  '(_, tag) ← br_gcm_get_tag gh ctx (replicate 16 0);
  mret (out, tag).
Definition gcm_open_with (ctx : gcm_ctx C) (b : @ctr_ctx C) (iv : list Z) (aads chunks : list (list Z)) (tag : list Z) : M (list Z * Z) :=
  ctx ← br_gcm_init ctx b;
  '(ctx, out) ← gcm_message ctx false iv aads chunks;
  '(_, v) ← br_gcm_check_tag_trunc gh ctx tag (zlen tag);
  mret (out, v).

(** The same after the key setup. *)
Definition gcm_seal (ctx : gcm_ctx C) (b : @ctr_ctx C) (key iv : list Z) (aads chunks : list (list Z)) : M (list Z * list Z) :=
  b ← ctr_init b key 0 (zlen key);
  gcm_seal_with ctx b iv aads chunks.
Definition gcm_open (ctx : gcm_ctx C) (b : @ctr_ctx C) (key iv : list Z) (aads chunks : list (list Z)) (tag : list Z) : M (list Z * Z) :=
  b ← ctr_init b key 0 (zlen key);
  gcm_open_with ctx b iv aads chunks tag.
End Client.

(** Strings that a call can have. *)
Definition sized (d : list Z) : Prop := byte_string d /\ zlen d < 2 ^ 64.

Lemma sized_whole d : sized d -> bytes d 0 (zlen d) /\ slice d 0 (zlen d) = d.
Proof. intros [HB _]. by apply whole_key. Qed.

Section Session.
Context {C : CtrClass} {CS : CtrSpec C} {AM : AesMode C CS} (gh : br_ghash) {GS : GhashSpec gh}.
Context (key : list Z) (Hk : byte_string key) (HL : aes_key_len (zlen key)).

Lemma gcm_aads_ok j0 l : forall A ctx, Forall sized l -> gcm_aad key j0 A ctx ->
  ok (gcm_aads gh ctx l) (gcm_aad key j0 (A ++ concat l)).
Proof.
  induction l as [|d l IH]; intros A ctx Hl HA; cbn [gcm_aads concat].
  - apply ok_ret. by rewrite app_nil_r.
  - apply Forall_cons_1 in Hl as [Hd Hl]. destruct (sized_whole d Hd) as [HB HS]. destruct Hd as [_ H64].
    cstep. eapply ok_mono; [apply (gcm_aad_inject_ok gh key Hk HL j0 A ctx d 0 (zlen d)); done || lia|]. intros c Hc.
    rewrite HS in Hc. rewrite app_assoc. by apply IH.
Qed.

Lemma gcm_runs_ok j0 A encrypt l : forall ct ctx, Forall sized l -> gcm_data key j0 A ct ctx ->
  ok (gcm_runs gh ctx encrypt l) (fun x => x.2 = gcm_seg key j0 (zlen ct) (concat l) /\
    gcm_data key j0 A (ct ++ gcm_ct encrypt (concat l) x.2) x.1).
Proof.
  induction l as [|d l IH]; intros ct ctx Hl HD; cbn [gcm_runs concat].
  - apply ok_ret. split; [done|]. cbn [fst snd]. replace (gcm_ct encrypt [] []) with (@nil Z) by (by destruct encrypt). by rewrite app_nil_r.
  - apply Forall_cons_1 in Hl as [Hd Hl]. destruct (sized_whole d Hd) as [HB HS]. destruct Hd as [_ H64].
    cstep. eapply ok_mono; [apply (gcm_run_ok gh key Hk HL j0 A ct encrypt ctx d 0 (zlen d)); done || lia|].
    intros [c e] (FE & SE & HE). cbn [fst snd] in *. pose proof (frame_len _ _ _ _ FE). rewrite HS in SE, HE. rewrite (slice_all e) in SE, HE by done.
    cstep. eapply ok_mono; [by apply (IH _ c Hl HE)|]. intros [c2 out] [E2 H2]. cbn [fst snd] in *. apply ok_ret. cbn [fst snd].
    rewrite zlen_app, (zlen_ct encrypt d e (zlen d)) in E2 by done. split; [by rewrite seg_app, SE, E2|].
    by rewrite gcm_ct_app, app_assoc.
Qed.

Lemma gcm_message_ok ctx encrypt iv aads chunks : gcm_ready key ctx -> sized iv -> Forall sized aads -> Forall sized chunks ->
  let j0 := gcm_j0 key iv in
  ok (gcm_message gh ctx encrypt iv aads chunks) (fun x => x.2 = gcm_crypt key j0 (concat chunks) /\
    gcm_data key j0 (concat aads) (gcm_ct encrypt (concat chunks) x.2) x.1).
Proof.
  intros HR Hiv Ha Hc j0. destruct (sized_whole iv Hiv) as [HB HS]. destruct Hiv as [_ H64]. unfold gcm_message.
  cstep. eapply ok_mono; [apply (gcm_reset_ok gh key Hk HL ctx iv (zlen iv)); done || lia|]. rewrite HS. fold j0. intros c1 H1.
  cstep. eapply ok_mono; [by apply (gcm_aads_ok j0 aads [])|]. intros c2 H2.
  cstep. eapply ok_mono; [by apply (gcm_flip_ok gh key Hk HL j0 (concat aads))|]. intros c3 H3.
  eapply ok_mono; [by apply (gcm_runs_ok j0 (concat aads) encrypt chunks [])|]. done.
Qed.

Context (ctx : gcm_ctx C) (b : @ctr_ctx C) (HA : gcm_alloc ctx) (Hb : ctr_alloc b).
Context (iv : list Z) (aads chunks : list (list Z)) (Hiv : sized iv) (Haads : Forall sized aads) (Hchunks : Forall sized chunks).

Lemma gcm_start_ok {X} (f : @ctr_ctx C -> M X) Q : (forall b, ctr_rep b key -> ok (f b) Q) ->
  ok (b ← ctr_init b key 0 (zlen key); f b) Q.
Proof.
  intros Hf. destruct (whole_key key Hk) as [HB HS]. cstep.
  eapply ok_mono; [apply (ctr_init_ok b key 0 (zlen key)); try done; by apply am_keys|]. rewrite HS. done.
Qed.

Lemma gcm_seal_ok : ok (gcm_seal gh ctx b key iv aads chunks) (fun '(out, tag) =>
  out = gcm_crypt key (gcm_j0 key iv) (concat chunks) /\ tag = gcm_tag key (gcm_j0 key iv) (concat aads) out).
Proof.
  apply gcm_start_ok. intros b' HR. unfold gcm_seal_with. cstep. eapply ok_mono; [by apply (gcm_init_ok key Hk HL)|]. intros c HG.
  cstep. eapply ok_mono; [by apply gcm_message_ok|]. intros [c1 out] [E1 HD]. cbn [fst snd gcm_ct] in *.
  cstep. eapply ok_mono; [by apply (gcm_get_tag_ok gh key Hk HL _ _ _ _ _ HD)|]. intros [c2 tag] E2. cbn [snd] in E2. by apply ok_ret.
Qed.

Lemma gcm_open_ok tag : byte_string tag -> zlen tag <= 16 ->
  ok (gcm_open gh ctx b key iv aads chunks tag) (fun '(out, v) => out = gcm_crypt key (gcm_j0 key iv) (concat chunks) /\
    v = b2z (bool_decide (tag = slice (gcm_tag key (gcm_j0 key iv) (concat aads) (concat chunks)) 0 (zlen tag)))).
Proof.
  intros Bt Lt. destruct (whole_key tag Bt) as [HBt HSt]. apply gcm_start_ok. intros b' HR. unfold gcm_open_with.
  cstep. eapply ok_mono; [by apply (gcm_init_ok key Hk HL)|]. intros c HG.
  cstep. eapply ok_mono; [by apply gcm_message_ok|]. intros [c1 out] [E1 HD]. cbn [fst snd gcm_ct] in *.
  cstep. eapply ok_mono; [apply (gcm_check_tag_ok gh key Hk HL _ _ _ _ tag (zlen tag) HD); done || lia|]. rewrite HSt.
  intros [c2 v] E2. cbn [snd] in E2. by apply ok_ret.
Qed.
End Session.

(** * Leakage *)

Section Ct.
Context {C : CtrClass} {CS : CtrSpec C} {CT : CtrCt C CS} (gh : br_ghash) {GS : GhashSpec gh}.

(** Contexts that are in the same state but for the secrets. *)
Definition gcm_alike (c1 c2 : gcm_ctx C) : Prop :=
  ctr_alike (g_bctx c1) (g_bctx c2) /\ g_count_aad c1 = g_count_aad c2 /\ g_count_ctr c1 = g_count_ctr c2.

Definition same_keys (c1 c2 : gcm_ctx C) : Prop := ctr_alike (g_bctx c1) (g_bctx c2).

Lemma gcm_init_ct c1 c2 b1 b2 : ctr_alike b1 b2 -> ct same_keys (br_gcm_init c1 b1) (br_gcm_init c2 b2).
Proof.
  intros Hb. unfold br_gcm_init. do 2 (eapply ct_bind; [apply blind_memset|intros]).
  eapply ct_bind; [by apply ctr_run_ct|]. intros [h1 ?] [h2 ?] _. by apply ct_ret.
Qed.

#[local] Hint Resolve ghash_ct : blind.

Lemma gcm_nonce_ct c1 c2 iv1 iv2 len : blind (gcm_nonce gh c1 iv1 len) (gcm_nonce gh c2 iv2 len).
Proof. unfold gcm_nonce. blind_auto. Qed.

Lemma gcm_reset_ct c1 c2 iv1 iv2 len : same_keys c1 c2 -> ct gcm_alike (br_gcm_reset gh c1 iv1 len) (br_gcm_reset gh c2 iv2 len).
Proof.
  intros Hb. unfold br_gcm_reset. eapply ct_bind; [apply gcm_nonce_ct|]. intros [j1 k1] [j2 k2] _.
  eapply ct_bind; [apply blind_memset|intros]. by apply ct_ret.
Qed.

Lemma gcm_aad_blocks_ct c1 c2 d1 d2 pos len : gcm_alike c1 c2 ->
  ct gcm_alike (gcm_aad_blocks gh c1 d1 pos len) (gcm_aad_blocks gh c2 d2 pos len).
Proof.
  intros (Hb & E1 & E2). unfold gcm_aad_blocks. cbv zeta. eapply ct_bind; [apply ghash_ct|intros].
  eapply ct_bind; [apply blind_memcpy|intros]. apply ct_ret. split; [done|]. split; [cbn; congruence|done].
Qed.

Lemma gcm_aad_inject_ct c1 c2 d1 d2 pos len : gcm_alike c1 c2 ->
  ct gcm_alike (br_gcm_aad_inject gh c1 d1 pos len) (br_gcm_aad_inject gh c2 d2 pos len).
Proof.
  intros (Hb & E1 & E2). unfold br_gcm_aad_inject. rewrite E1. cbv zeta. apply ct_cond; [done|intros _|intros _; by apply gcm_aad_blocks_ct].
  apply ct_cond; [done|intros _|intros _].
  - eapply ct_bind; [apply blind_memcpy|intros]. apply ct_ret. split; [done|]. split; [cbn; congruence|done].
  - eapply ct_bind; [apply blind_memcpy|intros]. eapply ct_bind; [apply ghash_ct|intros].
    apply gcm_aad_blocks_ct. split; [done|]. split; [cbn; congruence|done].
Qed.

Lemma gcm_aads_ct l1 : forall l2 c1 c2, Forall2 (fun a b => zlen a = zlen b) l1 l2 -> gcm_alike c1 c2 ->
  ct gcm_alike (gcm_aads gh c1 l1) (gcm_aads gh c2 l2).
Proof.
  induction l1 as [|a l1 IH]; intros l2 c1 c2 HF HA; inversion HF as [|? b ? l2' E HF']; subst; cbn [gcm_aads]; [by apply ct_ret|].
  eapply ct_bind; [rewrite E; by apply gcm_aad_inject_ct|]. intros. by apply IH.
Qed.

Lemma gcm_flip_ct c1 c2 : gcm_alike c1 c2 -> ct gcm_alike (br_gcm_flip gh c1) (br_gcm_flip gh c2).
Proof.
  intros (Hb & E1 & E2). unfold br_gcm_flip. rewrite E1. cbv zeta. apply ct_cond; [done|intros _|intros _; by apply ct_ret].
  eapply ct_bind; [apply ghash_ct|intros]. by apply ct_ret.
Qed.

Lemma gcm_xor_ct encrypt b1 b2 d1 d2 ptr pos n : blind (gcm_xor encrypt b1 d1 ptr pos n) (gcm_xor encrypt b2 d2 ptr pos n).
Proof. unfold gcm_xor. blind_auto. Qed.

(** A context and a buffer. *)
Definition gcm_alike_x {X} (x y : gcm_ctx C * X) : Prop := gcm_alike x.1 y.1.

Lemma gcm_run_blocks_ct encrypt c1 c2 d1 d2 pos len : gcm_alike c1 c2 ->
  ct gcm_alike_x (gcm_run_blocks gh c1 encrypt d1 pos len) (gcm_run_blocks gh c2 encrypt d2 pos len).
Proof.
  intros (Hb & E1 & E2). unfold gcm_run_blocks. rewrite E2. cbv zeta.
  eapply ct_bind; [apply (ct_cond (fun _ _ => True)); [done|intros _; apply ghash_ct|intros _; apply blind_ret]|intros].
  eapply ct_bind; [by apply ctr_run_ct|]. intros [e1 j1] [e2 j2] _.
  eapply ct_bind; [apply (ct_cond (fun _ _ => True)); [done|intros _; apply ghash_ct|intros _; apply blind_ret]|intros].
  apply ct_cond; [done|intros _|intros _; by apply ct_ret].
  eapply ct_bind; [apply blind_memset|intros]. eapply ct_bind; [by apply ctr_run_ct|]. intros [f1 k1] [f2 k2] _.
  eapply ct_bind; [apply gcm_xor_ct|]. intros [g1 ?] [g2 ?] _. by apply ct_ret.
Qed.

Lemma gcm_run_ct encrypt c1 c2 d1 d2 pos len : gcm_alike c1 c2 ->
  ct gcm_alike_x (br_gcm_run gh c1 encrypt d1 pos len) (br_gcm_run gh c2 encrypt d2 pos len).
Proof.
  intros (Hb & E1 & E2). unfold br_gcm_run. rewrite E2. cbv zeta. apply ct_cond; [done|intros _|intros _; by apply gcm_run_blocks_ct].
  eapply ct_bind; [apply (ct_cond (fun x y => x = y)); [done|intros _; by apply ct_ret|intros _; by apply ct_ret]|]. intros n ? <-.
  eapply ct_bind; [apply gcm_xor_ct|]. intros [g1 e1] [g2 e2] _. apply ct_cond; [done|intros _; by apply ct_ret|intros _].
  eapply ct_bind; [apply ghash_ct|intros]. by apply gcm_run_blocks_ct.
Qed.

Lemma gcm_runs_ct encrypt l1 : forall l2 c1 c2, Forall2 (fun a b => zlen a = zlen b) l1 l2 -> gcm_alike c1 c2 ->
  ct gcm_alike_x (gcm_runs gh c1 encrypt l1) (gcm_runs gh c2 encrypt l2).
Proof.
  induction l1 as [|a l1 IH]; intros l2 c1 c2 HF HA; inversion HF as [|? b ? l2' E HF']; subst; cbn [gcm_runs]; [by apply ct_ret|].
  eapply ct_bind; [rewrite E; by apply gcm_run_ct|]. intros [x1 e1] [x2 e2] HX. eapply ct_bind; [by apply IH|].
  intros [z1 ?] [z2 ?] HZ. by apply ct_ret.
Qed.

Lemma gcm_get_tag_ct c1 c2 t1 t2 : gcm_alike c1 c2 -> blind (br_gcm_get_tag gh c1 t1) (br_gcm_get_tag gh c2 t2).
Proof.
  intros (Hb & E1 & E2). unfold br_gcm_get_tag. rewrite E1, E2. cbv zeta.
  repeat first [by apply ctr_run_ct|apply ghash_ct|blind_step].
Qed.

Lemma gcm_check_tag_ct c1 c2 t1 t2 len : gcm_alike c1 c2 -> blind (br_gcm_check_tag_trunc gh c1 t1 len) (br_gcm_check_tag_trunc gh c2 t2 len).
Proof.
  intros HA. unfold br_gcm_check_tag_trunc. apply blind_bind; [by apply gcm_get_tag_ct|]. intros [? ?] [? ?]. blind_auto.
Qed.

Lemma gcm_message_ct encrypt c1 c2 iv1 iv2 aads1 aads2 l1 l2 : same_keys c1 c2 -> zlen iv1 = zlen iv2 ->
  Forall2 (fun a b => zlen a = zlen b) aads1 aads2 -> Forall2 (fun a b => zlen a = zlen b) l1 l2 ->
  ct gcm_alike_x (gcm_message gh c1 encrypt iv1 aads1 l1) (gcm_message gh c2 encrypt iv2 aads2 l2).
Proof.
  intros HA E HF HG. unfold gcm_message. rewrite E. eapply ct_bind; [by apply gcm_reset_ct|intros].
  eapply ct_bind; [by apply gcm_aads_ct|intros]. eapply ct_bind; [by apply gcm_flip_ct|intros]. by apply gcm_runs_ct.
Qed.

Definition same_lengths (l1 l2 : list (list Z)) : Prop := Forall2 (fun a b => zlen a = zlen b) l1 l2.

Lemma gcm_seal_ct c1 c2 b1 b2 k1 k2 iv1 iv2 aads1 aads2 l1 l2 : zlen k1 = zlen k2 -> zlen iv1 = zlen iv2 ->
  same_lengths aads1 aads2 -> same_lengths l1 l2 ->
  blind (gcm_seal gh c1 b1 k1 iv1 aads1 l1) (gcm_seal gh c2 b2 k2 iv2 aads2 l2).
Proof.
  intros Ek Ei HA HC. unfold gcm_seal, gcm_seal_with. rewrite Ek. eapply ct_bind; [apply ctr_init_ct|]. intros x y Hb.
  eapply ct_bind; [by apply gcm_init_ct|]. intros x1 x2 HX.
  eapply ct_bind; [by apply gcm_message_ct|]. intros [m1 o1] [m2 o2] HM.
  apply blind_bind; [by apply gcm_get_tag_ct|]. intros [? ?] [? ?]. apply blind_ret.
Qed.

Lemma gcm_open_ct c1 c2 b1 b2 k1 k2 iv1 iv2 aads1 aads2 l1 l2 tag1 tag2 : zlen k1 = zlen k2 -> zlen iv1 = zlen iv2 ->
  same_lengths aads1 aads2 -> same_lengths l1 l2 -> zlen tag1 = zlen tag2 ->
  blind (gcm_open gh c1 b1 k1 iv1 aads1 l1 tag1) (gcm_open gh c2 b2 k2 iv2 aads2 l2 tag2).
Proof.
  intros Ek Ei HA HC Et. unfold gcm_open, gcm_open_with. rewrite Ek, Et. eapply ct_bind; [apply ctr_init_ct|]. intros x y Hb.
  eapply ct_bind; [by apply gcm_init_ct|]. intros x1 x2 HX.
  eapply ct_bind; [by apply gcm_message_ct|]. intros [m1 o1] [m2 o2] HM.
  apply blind_bind; [by apply gcm_check_tag_ct|]. intros [? ?] [? ?]. apply blind_ret.
Qed.
End Ct.

(** * Theorems *)

(** [C16] GCM computes the functions of SP 800-38D: a client that injects the
    additional data and the message in pieces of any lengths gets the message
    under the key stream and the tag of the whole strings, whatever the
    implementations of CTR and GHASH; and the tag check returns 1 exactly when
    the bytes that it is given are the first ones of the tag of the ciphertext. *)
Theorem gcm_correct {C CS} {AM : AesMode C CS} gh {GS : GhashSpec gh} key ctx (b : @ctr_ctx C) iv aads chunks tag :
  byte_string key -> aes_key_len (zlen key) -> gcm_alloc ctx -> ctr_alloc b ->
  sized iv -> Forall sized aads -> Forall sized chunks -> byte_string tag -> zlen tag <= 16 ->
  let j0 := gcm_j0 key iv in
  let A := concat aads in
  let msg := concat chunks in
  ok (gcm_seal gh ctx b key iv aads chunks) (fun '(out, t) => out = gcm_crypt key j0 msg /\ t = gcm_tag key j0 A out) /\
  ok (gcm_open gh ctx b key iv aads chunks tag) (fun '(out, v) => out = gcm_crypt key j0 msg /\
    v = b2z (bool_decide (tag = slice (gcm_tag key j0 A msg) 0 (zlen tag)))).
Proof. intros. split; [by apply gcm_seal_ok|by apply gcm_open_ok]. Qed.

(** [C17] What one implementation seals, any other one opens: with the same key,
    nonce and additional data, and the ciphertext cut in any other way, the
    client gets the message back and the check of the tag returns 1. *)
Theorem gcm_round_trip {C1 CS1} {AM1 : AesMode C1 CS1} gh1 {GS1 : GhashSpec gh1}
    {C2 CS2} {AM2 : AesMode C2 CS2} gh2 {GS2 : GhashSpec gh2} key ctx1 (b1 : @ctr_ctx C1) ctx2 (b2 : @ctr_ctx C2)
    iv aads1 aads2 chunks1 chunks2 :
  byte_string key -> aes_key_len (zlen key) -> gcm_alloc ctx1 -> ctr_alloc b1 -> gcm_alloc ctx2 -> ctr_alloc b2 ->
  sized iv -> Forall sized aads1 -> Forall sized aads2 -> Forall sized chunks1 -> Forall sized chunks2 ->
  concat aads1 = concat aads2 ->
  ok (gcm_seal gh1 ctx1 b1 key iv aads1 chunks1) (fun '(out, tag) => concat chunks2 = out ->
    ok (gcm_open gh2 ctx2 b2 key iv aads2 chunks2 tag) (fun '(msg, v) => msg = concat chunks1 /\ v = 1)).
Proof.
  intros Hk HL A1 B1 A2 B2 Hiv Ha1 Ha2 Hc1 Hc2 EA. eapply ok_mono; [by apply gcm_seal_ok|]. intros [out tag] [-> ->] EC.
  destruct (gcm_j0_block key iv) as [LJ BJ]; [by destruct Hiv|]. set (j0 := gcm_j0 key iv) in *.
  destruct (tag_block key Hk HL j0 (concat aads1) (gcm_crypt key j0 (concat chunks1))) as [LT BT]; [done|].
  eapply ok_mono; [apply (gcm_open_ok gh2 key Hk HL ctx2 b2 A2 B2 iv aads2 chunks2); done || lia|]. fold j0.
  intros [msg v] [-> ->]. rewrite EC, EA. split; [apply seg_involutive|].
  rewrite bool_decide_true; [done|]. symmetry. apply slice_all. by rewrite <- EA.
Qed.

(** [C18] GCM keeps its secrets: for two keys of the same length, two nonces of
    the same length and additional data, texts and tags in pieces of the same
    lengths, the two messages can be sealed, and opened with any tags, right or
    wrong, and the two runs leak the same trace, from the key schedule to the
    comparison of the tag. *)
Theorem gcm_constant_time {C CS} {AM : AesMode C CS} {CT : CtrCt C CS} gh {GS : GhashSpec gh} key1 key2 ctx1 ctx2 (b1 b2 : @ctr_ctx C)
    iv1 iv2 aads1 aads2 chunks1 chunks2 tag1 tag2 :
  byte_string key1 -> byte_string key2 -> aes_key_len (zlen key1) -> zlen key1 = zlen key2 ->
  gcm_alloc ctx1 -> gcm_alloc ctx2 -> ctr_alloc b1 -> ctr_alloc b2 -> sized iv1 -> sized iv2 -> zlen iv1 = zlen iv2 ->
  Forall sized aads1 -> Forall sized aads2 -> same_lengths aads1 aads2 ->
  Forall sized chunks1 -> Forall sized chunks2 -> same_lengths chunks1 chunks2 ->
  byte_string tag1 -> byte_string tag2 -> zlen tag1 <= 16 -> zlen tag1 = zlen tag2 ->
  (exists t, trace (gcm_seal gh ctx1 b1 key1 iv1 aads1 chunks1) = Some t /\
    trace (gcm_seal gh ctx2 b2 key2 iv2 aads2 chunks2) = Some t) /\
  (exists t, trace (gcm_open gh ctx1 b1 key1 iv1 aads1 chunks1 tag1) = Some t /\
    trace (gcm_open gh ctx2 b2 key2 iv2 aads2 chunks2 tag2) = Some t).
Proof.
  intros K1 K2 HL Ek G1 G2 A1 A2 I1 I2 Ei S1 S2 ES T1 T2 ET B1 B2 Ht Et.
  assert (HL2 : aes_key_len (zlen key2)) by (by rewrite <- Ek). assert (Ht2 : zlen tag2 <= 16) by lia. split.
  - eapply ct_trace; [by apply gcm_seal_ct| |].
    + by apply (gcm_seal_ok gh key1 K1 HL ctx1 b1 G1 A1 iv1 aads1 chunks1).
    + by apply (gcm_seal_ok gh key2 K2 HL2 ctx2 b2 G2 A2 iv2 aads2 chunks2).
  - eapply ct_trace; [by apply gcm_open_ct| |].
    + by apply (gcm_open_ok gh key1 K1 HL ctx1 b1 G1 A1 iv1 aads1 chunks1).
    + by apply (gcm_open_ok gh key2 K2 HL2 ctx2 b2 G2 A2 iv2 aads2 chunks2).
Qed.

(** * Instances *)

Lemma sized_const n x : word 8 x -> Z.of_nat n < 2 ^ 64 -> sized (replicate n x).
Proof. intros Hx Hn. split; [by apply Forall_replicate|by rewrite length_replicate]. Qed.

Lemma gcm_correct_witness :
  let key := replicate 16 1 in let iv := replicate 12 2 in let j0 := gcm_j0 key iv in
  ok (gcm_seal br_ghash_ctmul64 (gcm_fresh (C:=aes_ct64_ctr) aes64_fresh 7) aes64_fresh key iv [replicate 5 3; replicate 30 4] [replicate 70 5])
    (fun '(out, t) => out = gcm_crypt key j0 (replicate 70 5) /\ t = gcm_tag key j0 (replicate 5 3 ++ replicate 30 4) out).
Proof.
  refine (proj1 (gcm_correct (CS:=aes_ct64_ctr_spec) br_ghash_ctmul64 (replicate 16 1) (gcm_fresh (C:=aes_ct64_ctr) aes64_fresh 7) aes64_fresh
    (replicate 12 2) [replicate 5 3; replicate 30 4] [replicate 70 5] (replicate 8 6) _ _ _ _ _ _ _ _ _)).
  - by apply Forall_replicate.
  - by left.
  - done.
  - done.
  - by apply sized_const.
  - repeat (apply Forall_cons_2; [by apply sized_const|]). constructor.
  - repeat (apply Forall_cons_2; [by apply sized_const|]). constructor.
  - by apply Forall_replicate.
  - done.
Defined.

Definition test_text : list Z := gcm_crypt (replicate 16 1) (gcm_j0 (replicate 16 1) (replicate 9 2)) (replicate 70 5).

Lemma test_text_sized o n : 0 <= o -> 0 <= n -> o + n <= 70 -> sized (slice test_text o n).
Proof.
  intros Ho Hn Hl. assert (L : zlen test_text = 70) by (unfold test_text, gcm_crypt; by rewrite zlen_seg).
  split; [|rewrite zlen_slice; lia]. apply slice_bytes. apply seg_bytes; [by apply Forall_replicate|by left| |done|by apply Forall_replicate].
  apply gcm_j0_block. by apply Forall_replicate.
Qed.

Lemma test_text_parts : slice test_text 0 33 ++ slice test_text 33 37 = test_text.
Proof.
  assert (L : zlen test_text = 70) by (unfold test_text, gcm_crypt; by rewrite zlen_seg).
  change (slice test_text 0 33 ++ slice test_text (0 + 33) 37 = test_text). rewrite <- (slice_split test_text 0 33 37) by (done || lia). by apply slice_all.
Qed.

Lemma gcm_round_trip_witness :
  ok (gcm_seal br_ghash_ctmul64 (gcm_fresh (C:=aes_ct64_ctr) aes64_fresh 7) aes64_fresh (replicate 16 1) (replicate 9 2) [replicate 20 3] [replicate 70 5])
    (fun '(out, tag) => ok (gcm_open br_ghash_ctmul32 (gcm_fresh (C:=aes_ct_ctr) aes_fresh 8) aes_fresh (replicate 16 1) (replicate 9 2)
      [replicate 3 3; replicate 17 3] [slice test_text 0 33; slice test_text 33 37] tag) (fun '(msg, v) => msg = concat [replicate 70 5] /\ v = 1)).
Proof.
  assert (Hk : byte_string (replicate 16 1)) by (by apply Forall_replicate). assert (HL : aes_key_len (zlen (replicate 16 1))) by (by left).
  assert (Hiv : sized (replicate 9 2)) by (by apply sized_const).
  assert (Ha : Forall sized [replicate 20 3]) by (apply Forall_cons_2; [by apply sized_const|constructor]).
  assert (Hc : Forall sized [replicate 70 5]) by (apply Forall_cons_2; [by apply sized_const|constructor]).
  assert (Ha2 : Forall sized [replicate 3 3; replicate 17 3]) by (repeat (apply Forall_cons_2; [by apply sized_const|]); constructor).
  assert (Hc2 : Forall sized [slice test_text 0 33; slice test_text 33 37]).
  { repeat (apply Forall_cons_2; [by apply test_text_sized|]). constructor. }
  assert (HG : gcm_alloc (gcm_fresh (C:=aes_ct64_ctr) aes64_fresh 7)) by done.
  assert (HF : @ctr_alloc _ aes_ct64_ctr_spec aes64_fresh) by done.
  pose proof (gcm_round_trip (CS1:=aes_ct64_ctr_spec) br_ghash_ctmul64 (CS2:=aes_ct_ctr_spec) br_ghash_ctmul32 (replicate 16 1)
    (gcm_fresh (C:=aes_ct64_ctr) aes64_fresh 7) aes64_fresh (gcm_fresh (C:=aes_ct_ctr) aes_fresh 8) aes_fresh (replicate 9 2)
    [replicate 20 3] [replicate 3 3; replicate 17 3] [replicate 70 5] [slice test_text 0 33; slice test_text 33 37]
    Hk HL ltac:(done) ltac:(done) ltac:(done) ltac:(done) Hiv Ha Ha2 Hc Hc2 eq_refl) as H.
  pose proof (gcm_seal_ok (CS:=aes_ct64_ctr_spec) br_ghash_ctmul64 (replicate 16 1) Hk HL _ _ HG HF (replicate 9 2)
    [replicate 20 3] [replicate 70 5] Hiv Ha Hc) as H2.
  eapply ok_mono; [exact (ok_and _ _ _ H H2)|]. intros [out tag] [H3 [-> _]]. apply H3. cbn [concat]. rewrite !app_nil_r.
  exact test_text_parts.
Defined.

Lemma gcm_constant_time_witness :
  (exists t, trace (gcm_seal br_ghash_ctmul (gcm_fresh (C:=aes_ct_ctr) aes_fresh 8) aes_fresh (replicate 16 1) (replicate 12 1) [replicate 3 3] [replicate 33 4]) = Some t /\
    trace (gcm_seal br_ghash_ctmul (gcm_fresh (C:=aes_ct_ctr) aes_fresh 9) aes_fresh (replicate 16 2) (replicate 12 2) [replicate 3 4] [replicate 33 7]) = Some t) /\
  (exists t, trace (gcm_open br_ghash_ctmul (gcm_fresh (C:=aes_ct_ctr) aes_fresh 8) aes_fresh (replicate 16 1) (replicate 12 1) [replicate 3 3] [replicate 33 4] (replicate 16 5)) = Some t /\
    trace (gcm_open br_ghash_ctmul (gcm_fresh (C:=aes_ct_ctr) aes_fresh 9) aes_fresh (replicate 16 2) (replicate 12 2) [replicate 3 4] [replicate 33 7] (replicate 16 6)) = Some t).
Proof.
  apply (gcm_constant_time (CT:=aes_ct_ctr_blind) br_ghash_ctmul (replicate 16 1) (replicate 16 2));
    first [done | by apply Forall_replicate | by left | by apply sized_const
      | by (apply Forall_cons_2; [by apply sized_const|constructor]) | by repeat constructor].
Defined.

(** Test case 2 of the GCM submission. *)
Example gcm_test_case_2 :
  gcm_crypt (replicate 16 0) (gcm_j0 (replicate 16 0) (replicate 12 0)) (replicate 16 0) =
    [0x03; 0x88; 0xda; 0xce; 0x60; 0xb6; 0xa3; 0x92; 0xf3; 0x28; 0xc2; 0xb9; 0x71; 0xb2; 0xfe; 0x78] /\
  gcm_tag (replicate 16 0) (gcm_j0 (replicate 16 0) (replicate 12 0)) []
    [0x03; 0x88; 0xda; 0xce; 0x60; 0xb6; 0xa3; 0x92; 0xf3; 0x28; 0xc2; 0xb9; 0x71; 0xb2; 0xfe; 0x78] =
    [0xab; 0x6e; 0x47; 0xd4; 0x2c; 0xec; 0x13; 0xbd; 0xf5; 0x3a; 0x67; 0xb2; 0x12; 0x57; 0xbd; 0xdf].
Proof. split; vm_compute; reflexivity. Qed.
