(* ===== verification/Poly1305.v ===== *)
(** Poly1305 and the AEAD construction ChaCha20+Poly1305
    ([src/symcipher/poly1305_ctmul.c]).

    The accumulator is five limbs of 26 bits, some of them a little larger; the
    blocks keep its value modulo [2^130 - 5].  The last reduction of the code
    adds the carry out of the top limb once where [2^130 = 5] asks for five
    times: the tag is the one of RFC 8439 exactly when the limbs that the loops
    leave are below [2^130]; otherwise their residue is between [5] and
    [2^32 + 5] and the tag is a wrong one.  There are messages with such limbs. *)
From stdpp Require Import base tactics list numbers option.
From Stdlib Require Import ZArith Lia.
From S2P Require Import Prelude CtPrims Limbs Codec I31CodecCt Hash HashPad Chacha20.
Local Open Scope Z_scope.
Local Open Scope cword_scope.

(** * Code *)

Definition limbs5 : Type := Z * Z * Z * Z * Z.

(** [a0 += ...] for the block at [p]. *)
Definition poly_add (buf : list Z) (p : Z) (a : limbs5) : M limbs5 :=
  let '(a0, a1, a2, a3, a4) := a in
  x0 ← br_dec32le buf p;
  let a0 := u32 (a0 + (x0 .& 0x03FFFFFF)) in
  x1 ← br_dec32le buf (p + 3);
  let a1 := u32 (a1 + ((x1 >> 2) .& 0x03FFFFFF)) in
  x2 ← br_dec32le buf (p + 6);
  let a2 := u32 (a2 + ((x2 >> 4) .& 0x03FFFFFF)) in
  x3 ← br_dec32le buf (p + 9);
  let a3 := u32 (a3 + ((x3 >> 6) .& 0x03FFFFFF)) in
  x4 ← br_dec32le buf (p + 12);
  let a4 := u32 (a4 + ((x4 >> 8) .| 0x01000000)) in
  mret (a0, a1, a2, a3, a4).

(** The product, [u] being five times the key. *)
Definition poly_products (a r : limbs5) : limbs5 :=
  let '(a0, a1, a2, a3, a4) := a in
  let '(r0, r1, r2, r3, r4) := r in
  let u1 := u32 (r1 * 5) in
  let u2 := u32 (r2 * 5) in
  let u3 := u32 (r3 * 5) in
  let u4 := u32 (r4 * 5) in
  let M x y := u64 (x * y) in
  (u64 (M a0 r0 + M a1 u4 + M a2 u3 + M a3 u2 + M a4 u1),
   u64 (M a0 r1 + M a1 r0 + M a2 u4 + M a3 u3 + M a4 u2),
   u64 (M a0 r2 + M a1 r1 + M a2 r0 + M a3 u4 + M a4 u3),
   u64 (M a0 r3 + M a1 r2 + M a2 r1 + M a3 r0 + M a4 u4),
   u64 (M a0 r4 + M a1 r3 + M a2 r2 + M a3 r1 + M a4 r0)).

(** The partial reduction. *)
Definition poly_carry (w : limbs5) : limbs5 :=
  let '(w0, w1, w2, w3, w4) := w in
  let c := w0 >> 26 in
  let a0 := u32 w0 .& 0x3FFFFFF in
  let w1 := u64 (w1 + c) in
  let c := w1 >> 26 in
  let a1 := u32 w1 .& 0x3FFFFFF in
  let w2 := u64 (w2 + c) in
  let c := w2 >> 26 in
  let a2 := u32 w2 .& 0x3FFFFFF in
  let w3 := u64 (w3 + c) in
  let c := w3 >> 26 in
  let a3 := u32 w3 .& 0x3FFFFFF in
  let w4 := u64 (w4 + c) in
  let c := w4 >> 26 in
  let a4 := u32 w4 .& 0x3FFFFFF in
  let a0 := u32 (a0 + u32 (u32 c * 5)) in
  let a1 := u32 (a1 + (a0 >> 26)) in
  let a0 := a0 .& 0x3FFFFFF in
  (a0, a1, a2, a3, a4).

Fixpoint poly_loop (fuel : nat) (r : limbs5) (buf : list Z) (p len : Z) (a : limbs5) : M limbs5 :=
  match fuel with
  | O => None
  | S fuel =>
      If 0 <? len Then
        '(buf, p, len) ← (If len <? 16 Then
            tmp ← memset (replicate 16 0) 0 0 16;
            tmp ← memcpy tmp 0 buf p len;
            mret (tmp, 0, 16)
          Else mret (buf, p, len));
        a ← poly_add buf p a;
        poly_loop fuel r buf (p + 16) (len - 16) (poly_carry (poly_products a r))
      Else mret a
  end.

Definition load5 (a : list Z) : M limbs5 :=
  a0 ← load a 0; a1 ← load a 1; a2 ← load a 2; a3 ← load a 3; a4 ← load a 4;
  mret (a0, a1, a2, a3, a4).
Definition store5 (acc : list Z) (a : limbs5) : M (list Z) :=
  let '(a0, a1, a2, a3, a4) := a in
  acc ← store acc 0 a0; acc ← store acc 1 a1; acc ← store acc 2 a2; acc ← store acc 3 a3; store acc 4 a4.

Definition poly1305_inner (acc r data : list Z) (pos len : Z) : M (list Z) :=
  r ← load5 r;
  a ← load5 acc;
  a ← poly_loop (S (Z.to_nat len)) r data pos len a;
  store5 acc a.

(** The clamped key. *)
Definition poly_key (pkey : list Z) : M (list Z) :=
  let r := replicate 5 0 in
  x ← br_dec32le pkey 0;
  r ← store r 0 (x .& 0x03FFFFFF);
  x ← br_dec32le pkey 3;
  r ← store r 1 ((x >> 2) .& 0x03FFFF03);
  x ← br_dec32le pkey 6;
  r ← store r 2 ((x >> 4) .& 0x03FFC0FF);
  x ← br_dec32le pkey 9;
  r ← store r 3 ((x >> 6) .& 0x03F03FFF);
  x ← br_dec32le pkey 12;
  store r 4 ((x >> 8) .& 0x000FFFFF).

(** The two loops of the final reduction, with the comparison between them. *)
Definition poly_final_carry (acc : list Z) : M (list Z) :=
  '(acc, _) ← for_up 1 7 (fun i '(acc, cc) =>
    let j := if 5 <=? i then i - 5 else i in
    x ← load acc j;
    acc ← store acc j (u32 (x + cc));
    x ← load acc j;
    let cc := x >> 26 in
    x ← load acc j;
    acc ← store acc j (x .& 0x03FFFFFF);
    mret (acc, cc)) (acc, 0);
  mret acc.

Definition poly_final_sub (acc : list Z) : M (list Z) :=
  x ← load acc 0;
  let ctl := GT x 0x03FFFFFA in
  ctl ← for_up 1 5 (fun i ctl => x ← load acc i; mret (ctl .& EQ x 0x03FFFFFF)) ctl;
  '(acc, _) ← for_up 0 5 (fun i '(acc, cc) =>
    x ← load acc i;
    let t := u32 (x + cc) in
    let cc := t >> 26 in
    let t := t .& 0x03FFFFFF in
    x ← load acc i;
    acc ← store acc i (MUX ctl t x);
    mret (acc, cc)) (acc, 5);
  mret acc.

(** The addition of the second half of the key, into the tag. *)
Definition poly_tag (acc pkey tag : list Z) (o : Z) : M (list Z) :=
  x0 ← load acc 0; x1 ← load acc 1; y ← br_dec32le pkey 16;
  let w := u64 (x0 + u64 (x1 << 26) + y) in
  tag ← br_enc32le tag o (u32 w);
  x2 ← load acc 2; y ← br_dec32le pkey 20;
  let w := u64 ((w >> 32) + u64 (x2 << 20) + y) in
  tag ← br_enc32le tag (o + 4) (u32 w);
  x3 ← load acc 3; y ← br_dec32le pkey 24;
  let w := u64 ((w >> 32) + u64 (x3 << 14) + y) in
  tag ← br_enc32le tag (o + 8) (u32 w);
  x4 ← load acc 4; y ← br_dec32le pkey 28;
  let hi := u32 (u32 (w >> 32) + u32 (x4 << 8) + y) in
  br_enc32le tag (o + 12) hi.

(** The accumulator after the data, the ciphertext and the lengths. *)
Definition poly_mac_blocks (pkey data : list Z) (pos len : Z) (aad : list Z) (aad_len : Z) : M (list Z) :=
  let foot := replicate 16 0 in
  r ← poly_key pkey;
  acc ← memset (replicate 5 0) 0 0 5;
  foot ← br_enc64le foot 0 (u64 aad_len);
  foot ← br_enc64le foot 8 (u64 len);
  acc ← poly1305_inner acc r aad 0 aad_len;
  acc ← poly1305_inner acc r data pos len;
  poly1305_inner acc r foot 0 16.

(** The same, reduced. *)
Definition poly_mac_acc (pkey data : list Z) (pos len : Z) (aad : list Z) (aad_len : Z) : M (list Z) :=
  acc ← poly_mac_blocks pkey data pos len aad aad_len;
  acc ← poly_final_carry acc;
  poly_final_sub acc.

Section Run.
(** [br_chacha20_run]: the implementation of ChaCha20, a function pointer. *)
Context (ichacha : list Z -> list Z -> Z -> list Z -> Z -> Z -> M (list Z * Z)).

Definition br_poly1305_ctmul_run (key iv data : list Z) (pos len : Z) (aad : list Z) (aad_len : Z)
    (tag : list Z) (o : Z) (encrypt : bool) : M (list Z * list Z) :=
  pkey ← memset (replicate 32 0) 0 0 32;
  '(pkey, _) ← ichacha key iv 0 pkey 0 32;
  data ← (If encrypt Then '(data, _) ← ichacha key iv 1 data pos len; mret data Else mret data);
  acc ← poly_mac_acc pkey data pos len aad aad_len;
  tag ← poly_tag acc pkey tag o;
  data ← (If negb encrypt Then '(data, _) ← ichacha key iv 1 data pos len; mret data Else mret data);
  mret (data, tag).
End Run.

(** * RFC 8439 *)

Definition P1305 : Z := 2 ^ 130 - 5.

(** Section 2.5: one block, with the byte 1 appended. *)
Definition poly_step (r h : Z) (block : list Z) : Z :=
  ((h + vle (block ++ [1]) 0 (zlen block + 1)) * r) mod P1305.

Fixpoint poly_blocks (r h : Z) (msg : list Z) (n : nat) : Z :=
  match n with
  | O => h
  | S n => poly_blocks r (poly_step r h (take 16 msg)) (drop 16 msg) n
  end.

Definition poly_r (key : list Z) : Z := Z.land (vle key 0 16) 0x0ffffffc0ffffffc0ffffffc0fffffff.
Definition poly_s (key : list Z) : Z := vle key 16 16.

(** The accumulator, and the tag. *)
Definition poly_acc (key msg : list Z) : Z :=
  poly_blocks (poly_r key) 0 msg (Z.to_nat ((zlen msg + 15) / 16)).
Definition tag_of (h s : Z) : list Z := le_words 16 [(h + s) mod 2 ^ 128] 1.
Definition poly1305 (key msg : list Z) : list Z := tag_of (poly_acc key msg) (poly_s key).

(** Section 2.8. *)
Definition pad16 (s : list Z) : list Z := s ++ replicate (Z.to_nat ((- zlen s) mod 16)) 0.
Definition mac_data (aad ct : list Z) : list Z :=
  pad16 aad ++ pad16 ct ++ le_words 8 [zlen aad; zlen ct] 2.
Definition poly_otk (key nonce : list Z) : list Z := take 32 (chacha20_block key 0 nonce).
Definition aead_tag (key nonce aad ct : list Z) : list Z := poly1305 (poly_otk key nonce) (mac_data aad ct).

(** * The multiplication *)

Definition value5 (a : limbs5) : Z :=
  let '(a0, a1, a2, a3, a4) := a in a0 + a1 * 2 ^ 26 + a2 * 2 ^ 52 + a3 * 2 ^ 78 + a4 * 2 ^ 104.

(** The limbs between two blocks, with a block added, and those of the key. *)
Definition limbs5_ok (a : limbs5) : Prop :=
  let '(a0, a1, a2, a3, a4) := a in
  0 <= a0 < 2 ^ 26 /\ 0 <= a1 < 2 ^ 26 + 64 /\ 0 <= a2 < 2 ^ 26 /\ 0 <= a3 < 2 ^ 26 /\ 0 <= a4 < 2 ^ 26.
Definition limbs5_added (a : limbs5) : Prop :=
  let '(a0, a1, a2, a3, a4) := a in
  0 <= a0 < 2 ^ 27 /\ 0 <= a1 < 2 ^ 27 + 64 /\ 0 <= a2 < 2 ^ 27 /\ 0 <= a3 < 2 ^ 27 /\
  0 <= a4 < 2 ^ 26 + 2 ^ 25.
Definition limbs5_key (a : limbs5) : Prop :=
  let '(a0, a1, a2, a3, a4) := a in
  0 <= a0 < 2 ^ 26 /\ 0 <= a1 < 2 ^ 26 /\ 0 <= a2 < 2 ^ 26 /\ 0 <= a3 < 2 ^ 26 /\ 0 <= a4 < 2 ^ 26.

(** What the products need: the top one is smaller. *)
Definition products_ok (w : limbs5) : Prop :=
  let '(w0, w1, w2, w3, w4) := w in
  0 <= w0 < 2 ^ 60 /\ 0 <= w1 < 2 ^ 60 /\ 0 <= w2 < 2 ^ 60 /\ 0 <= w3 < 2 ^ 60 /\
  0 <= w4 < 2 ^ 26 * (19 * 2 ^ 25 + 64).

Lemma mul_lt x y : 0 <= x < 2 ^ 28 -> 0 <= y < 5 * 2 ^ 26 -> 0 <= x * y < 2 ^ 57.
Proof. intros. nia. Qed.

Lemma mul_small x y : 0 <= x < 2 ^ 28 -> 0 <= y < 5 * 2 ^ 26 -> u64 (x * y) = x * y.
Proof. intros. apply u64_small. unfold word. pose proof (mul_lt x y). lia. Qed.

Lemma sum5_small a b c d e : 0 <= a < 2 ^ 57 -> 0 <= b < 2 ^ 57 -> 0 <= c < 2 ^ 57 -> 0 <= d < 2 ^ 57 ->
  0 <= e < 2 ^ 57 -> u64 (a + b + c + d + e) = a + b + c + d + e /\ 0 <= a + b + c + d + e < 2 ^ 60.
Proof. intros. split; [apply u64_small; unfold word|]; lia. Qed.

(** The sum of five products is bounded by the sum of the bounds. *)
Lemma mul_bound x y X : 0 <= x < X -> 0 <= y < 2 ^ 26 -> x * y <= (X - 1) * (2 ^ 26 - 1).
Proof. intros. apply Z.mul_le_mono_nonneg; lia. Qed.

Lemma poly_products_ok a r : limbs5_added a -> limbs5_key r ->
  products_ok (poly_products a r) /\
  exists q, value5 (poly_products a r) = value5 a * value5 r - q * P1305.
Proof.
  destruct a as [[[[a0 a1] a2] a3] a4], r as [[[[r0 r1] r2] r3] r4].
  intros (H0 & H1 & H2 & H3 & H4) (K0 & K1 & K2 & K3 & K4).
  unfold poly_products. rewrite !(u32_small (_ * 5)) by (unfold word; lia).
  rewrite !mul_small by lia.
  destruct (sum5_small (a0 * r0) (a1 * (r4 * 5)) (a2 * (r3 * 5)) (a3 * (r2 * 5)) (a4 * (r1 * 5))) as [-> B0];
    [apply mul_lt; lia..|].
  destruct (sum5_small (a0 * r1) (a1 * r0) (a2 * (r4 * 5)) (a3 * (r3 * 5)) (a4 * (r2 * 5))) as [-> B1];
    [apply mul_lt; lia..|].
  destruct (sum5_small (a0 * r2) (a1 * r1) (a2 * r0) (a3 * (r4 * 5)) (a4 * (r3 * 5))) as [-> B2];
    [apply mul_lt; lia..|].
  destruct (sum5_small (a0 * r3) (a1 * r2) (a2 * r1) (a3 * r0) (a4 * (r4 * 5))) as [-> B3];
    [apply mul_lt; lia..|].
  destruct (sum5_small (a0 * r4) (a1 * r3) (a2 * r2) (a3 * r1) (a4 * r0)) as [-> B4]; [apply mul_lt; lia..|].
  split.
  - unfold products_ok. pose proof (mul_bound _ _ _ H0 K4). pose proof (mul_bound _ _ _ H1 K3).
    pose proof (mul_bound _ _ _ H2 K2). pose proof (mul_bound _ _ _ H3 K1). pose proof (mul_bound _ _ _ H4 K0).
    repeat split; lia.
  - exists (a1 * r4 + a2 * r3 + a3 * r2 + a4 * r1 + (a2 * r4 + a3 * r3 + a4 * r2) * 2 ^ 26
      + (a3 * r4 + a4 * r3) * 2 ^ 52 + a4 * r4 * 2 ^ 78).
    unfold value5, P1305. ring.
Qed.

Lemma low26 x : 0 <= x -> u32 x .& 0x3FFFFFF = x mod 2 ^ 26.
Proof.
  intros Hx. change 0x3FFFFFF with (2 ^ 26 - 1). rewrite land_mask by lia. unfold u32.
  change (2 ^ 32) with (2 ^ 26 * 2 ^ 6). rewrite Z.rem_mul_r by lia.
  by rewrite (Z.mul_comm (2 ^ 26)), Z.mod_add, Z.mod_mod by lia.
Qed.

Lemma poly_carry_ok w : products_ok w ->
  limbs5_ok (poly_carry w) /\ exists c, 0 <= c /\ value5 (poly_carry w) = value5 w - c * P1305.
Proof.
  destruct w as [[[[w0 w1] w2] w3] w4]. intros (H0 & H1 & H2 & H3 & H4). unfold poly_carry. cbv zeta.
  rewrite !shr_div by lia.
  pose proof (Z.div_mod w0 (2 ^ 26) ltac:(lia)). pose proof (Z.mod_pos_bound w0 (2 ^ 26) ltac:(lia)).
  rewrite (low26 w0) by lia. set (c0 := w0 / 2 ^ 26) in *. set (b0 := w0 mod 2 ^ 26) in *.
  rewrite (u64_small (w1 + c0)) by (unfold word; lia). set (v1 := w1 + c0) in *.
  pose proof (Z.div_mod v1 (2 ^ 26) ltac:(lia)). pose proof (Z.mod_pos_bound v1 (2 ^ 26) ltac:(lia)).
  rewrite (low26 v1) by lia. set (c1 := v1 / 2 ^ 26) in *. set (b1 := v1 mod 2 ^ 26) in *.
  rewrite (u64_small (w2 + c1)) by (unfold word; lia). set (v2 := w2 + c1) in *.
  pose proof (Z.div_mod v2 (2 ^ 26) ltac:(lia)). pose proof (Z.mod_pos_bound v2 (2 ^ 26) ltac:(lia)).
  rewrite (low26 v2) by lia. set (c2 := v2 / 2 ^ 26) in *. set (b2 := v2 mod 2 ^ 26) in *.
  rewrite (u64_small (w3 + c2)) by (unfold word; lia). set (v3 := w3 + c2) in *.
  pose proof (Z.div_mod v3 (2 ^ 26) ltac:(lia)). pose proof (Z.mod_pos_bound v3 (2 ^ 26) ltac:(lia)).
  rewrite (low26 v3) by lia. set (c3 := v3 / 2 ^ 26) in *. set (b3 := v3 mod 2 ^ 26) in *.
  rewrite (u64_small (w4 + c3)) by (unfold word; lia). set (v4 := w4 + c3) in *.
  pose proof (Z.div_mod v4 (2 ^ 26) ltac:(lia)). pose proof (Z.mod_pos_bound v4 (2 ^ 26) ltac:(lia)).
  rewrite (low26 v4) by lia. set (c4 := v4 / 2 ^ 26) in *. set (b4 := v4 mod 2 ^ 26) in *.
  clearbody c0 b0 c1 b1 c2 b2 c3 b3 c4 b4.
  rewrite (u32_small c4), (u32_small (c4 * 5)), (u32_small (b0 + c4 * 5)) by (unfold word; lia).
  set (e := b0 + c4 * 5) in *. change 0x3FFFFFF with (2 ^ 26 - 1). rewrite land_mask by lia.
  pose proof (Z.div_mod e (2 ^ 26) ltac:(lia)). pose proof (Z.mod_pos_bound e (2 ^ 26) ltac:(lia)).
  set (f := e / 2 ^ 26) in *. set (g := e mod 2 ^ 26) in *. clearbody f g.
  rewrite (u32_small (b1 + f)) by (unfold word; lia).
  split; [unfold limbs5_ok; lia|]. exists c4. split; [lia|]. unfold value5, P1305. lia.
Qed.

(** * One block *)

(** A field of 26 bits of a block. *)
Lemma vle_field buf p j s k : bytes buf p 16 -> 0 <= j -> j + 4 <= 16 -> 0 <= s -> 0 <= k -> s + k <= 32 ->
  (vle buf (p + j) 4 / 2 ^ s) mod 2 ^ k = bits (vle buf p 16) (8 * j + s) k.
Proof.
  intros HB Hj Hj4 Hs Hk Hsk.
  assert (E : vle buf (p + j) 4 = bits (vle buf p 16) (8 * j) 32).
  { unfold bits. change (2 ^ 32) with (2 ^ (8 * 4)). rewrite (val_div 8 ltac:(lia) buf p 16 j) by (lia || done).
    rewrite (val_mod 8 ltac:(lia) buf (p + j) (16 - j) 4) by
      (first [lia | apply (limbs_sub 8 buf p 16); [done|lia..]]). done. }
  rewrite E. replace 32 with (s + (32 - s)) by lia. rewrite bits_div by lia.
  replace (32 - s) with (k + (32 - s - k)) by lia. by rewrite bits_mod by lia.
Qed.

Lemma field_26 x s : 0 <= x -> 0 <= s -> (x >> s) .& 0x03FFFFFF = (x / 2 ^ s) mod 2 ^ 26.
Proof. intros. rewrite shr_div by lia. change 0x03FFFFFF with (2 ^ 26 - 1). apply land_mask. lia. Qed.

Lemma split_26 n : 0 <= n < 2 ^ 128 -> n = bits n 0 26 + bits n 26 26 * 2 ^ 26 + bits n 52 26 * 2 ^ 52 +
  bits n 78 26 * 2 ^ 78 + bits n 104 24 * 2 ^ 104.
Proof.
  intros Hn. assert (H : n = bits n 0 128) by (rewrite bits_0, Z.mod_small; lia).
  rewrite H at 1. change 128 with (26 + 102). rewrite bits_split by lia.
  change 102 with (26 + 76). rewrite (bits_split n (0 + 26)) by lia.
  change 76 with (26 + 50). rewrite (bits_split n (0 + 26 + 26)) by lia.
  change 50 with (26 + 24). rewrite (bits_split n (0 + 26 + 26 + 26)) by lia.
  change (0 + 26) with 26. change (26 + 26) with 52. change (52 + 26) with 78. change (78 + 26) with 104. lia.
Qed.

(** A word of the code at a field of the block. *)
Lemma poly_load_ok buf p j (Q : Z -> Prop) : 0 <= p -> p + 16 <= zlen buf -> bytes buf p 16 ->
  0 <= j -> j + 4 <= 16 -> (word 32 (vle buf (p + j) 4) -> Q (vle buf (p + j) 4)) ->
  ok (br_dec32le buf (p + j)) Q.
Proof.
  intros Hp Hl HB Hj Hj4 HQ. eapply ok_mono.
  - apply (codec_dec (WordCodec:=codec32le)); [lia|lia|]. apply (limbs_sub 8 buf p 16); [done|lia..].
  - intros x [-> Hx]. auto.
Qed.

Lemma poly_add_ok buf p a : limbs5_ok a -> 0 <= p -> p + 16 <= zlen buf -> bytes buf p 16 ->
  ok (poly_add buf p a) (fun b => limbs5_added b /\ value5 b = value5 a + vle buf p 16 + 2 ^ 128).
Proof.
  destruct a as [[[[a0 a1] a2] a3] a4]. intros (H0 & H1 & H2 & H3 & H4) Hp Hl HB. unfold poly_add.
  pose proof (val_bound 8 ltac:(lia) buf p 16 ltac:(lia) HB) as Hn. change (2 ^ (8 * 16)) with (2 ^ 128) in Hn.
  pose proof (split_26 _ Hn) as Es.
  pose proof (bits_bound (vle buf p 16) 0 26 ltac:(lia)). pose proof (bits_bound (vle buf p 16) 26 26 ltac:(lia)).
  pose proof (bits_bound (vle buf p 16) 52 26 ltac:(lia)). pose proof (bits_bound (vle buf p 16) 78 26 ltac:(lia)).
  pose proof (bits_bound (vle buf p 16) 104 24 ltac:(lia)).
  replace p with (p + 0) at 1 by lia.
  cstep. apply (poly_load_ok buf p 0); try done; try lia. intros W0. cbv zeta.
  cstep. apply (poly_load_ok buf p 3); try done; try lia. intros W3.
  cstep. apply (poly_load_ok buf p 6); try done; try lia. intros W6.
  cstep. apply (poly_load_ok buf p 9); try done; try lia. intros W9.
  cstep. apply (poly_load_ok buf p 12); try done; try lia. intros W12. cstep.
  rewrite <- (Z.shiftr_0_r (vle buf (p + 0) 4)).
  unfold word in *. rewrite !field_26, !vle_field by (done || lia).
  change (8 * 0 + 0) with 0. change (8 * 3 + 2) with 26. change (8 * 6 + 4) with 52. change (8 * 9 + 6) with 78.
  assert (E4 : (vle buf (p + 12) 4 >> 8) .| 0x01000000 = bits (vle buf p 16) 104 24 + 2 ^ 24).
  { rewrite shr_div by lia. change 0x01000000 with (1 * 2 ^ 24).
    pose proof (vle_field buf p 12 8 24 HB ltac:(lia) ltac:(lia) ltac:(lia) ltac:(lia) ltac:(lia)) as E.
    rewrite Z.mod_small in E by zn. rewrite E. change (8 * 12 + 8) with 104. apply lor_disjoint; lia. }
  rewrite E4. rewrite !u32_small by (unfold word; lia). unfold limbs5_added, value5. split; lia.
Qed.

(** A block of 16 bytes with its final 1. *)
Lemma vle_block block : zlen block = 16 -> vle (block ++ [1]) 0 (zlen block + 1) = vle block 0 16 + 2 ^ 128.
Proof.
  intros HL. rewrite HL, val_succ by lia. rewrite Z.add_0_l, get_app_r, HL by lia.
  change (get [1] (16 - 16)) with 1. rewrite (val_ext 8 (block ++ [1]) block 0 0 16); [lia|].
  intros i Hi. apply get_app_l. lia.
Qed.

Lemma vle_slice data pos len : 0 <= pos -> 0 <= len -> vle (slice data pos len) 0 len = vle data pos len.
Proof. intros Hp Hl. apply val_ext. intros i Hi. rewrite Z.add_0_l. by apply get_slice. Qed.

Lemma poly_turn_ok r a buf p : limbs5_ok a -> limbs5_key r -> 0 <= p -> p + 16 <= zlen buf -> bytes buf p 16 ->
  ok (poly_add buf p a) (fun b => let a' := poly_carry (poly_products b r) in
    limbs5_ok a' /\ value5 a' mod P1305 = poly_step (value5 r) (value5 a mod P1305) (slice buf p 16)).
Proof.
  intros Ha Hr Hp Hl HB. eapply ok_mono; [by apply poly_add_ok|]. intros b [Hb Eb]. cbv zeta.
  destruct (poly_products_ok b r Hb Hr) as [Hw [q Eq]]. destruct (poly_carry_ok _ Hw) as [Ha' [c [_ Ec]]].
  split; [done|]. unfold poly_step. rewrite vle_block, vle_slice by (rewrite ?zlen_slice; lia).
  rewrite Ec, Eq, Eb. apply eqm_eq.
  replace (_ - q * P1305 - c * P1305) with ((value5 a + vle buf p 16 + 2 ^ 128) * value5 r + (- q - c) * P1305) by lia.
  rewrite eqm_self, (eqm_mod _ (value5 a)). by rewrite Z.add_assoc.
Qed.

(** * A run of blocks *)

Lemma zlen_pad16 s : zlen (pad16 s) = 16 * ((zlen s + 15) / 16).
Proof. unfold pad16. rewrite zlen_app, length_replicate. zn. Qed.

Lemma pad16_short s : 0 < zlen s < 16 -> zlen (pad16 s) = 16.
Proof. intros. rewrite zlen_pad16. zn. Qed.

Lemma pad16_app a b : zlen a mod 16 = 0 -> pad16 (a ++ b) = a ++ pad16 b.
Proof.
  intros Ha. unfold pad16. rewrite <- app_assoc, zlen_app. do 4 f_equal.
  replace (- (zlen a + zlen b)) with (- zlen b + (- (zlen a / 16)) * 16) by zn. apply Z.mod_add. lia.
Qed.

Lemma poly_loop_ok fuel r : limbs5_key r -> forall a data pos len, limbs5_ok a -> 0 <= pos -> 0 <= len ->
  pos + len <= zlen data -> bytes data pos len -> len < Z.of_nat fuel ->
  ok (poly_loop fuel r data pos len a) (fun a' => limbs5_ok a' /\
    value5 a' mod P1305 = poly_blocks (value5 r) (value5 a mod P1305) (pad16 (slice data pos len))
      (Z.to_nat ((len + 15) / 16))).
Proof.
  intros Hr. induction fuel as [|fuel IH]; intros a data pos len Ha Hp Hlen Hl HB Hf; [lia|]. cbn [poly_loop].
  apply ok_cond; intros Ht; [apply Z.ltb_lt in Ht|apply Z.ltb_ge in Ht; cstep].
  2: { assert (len = 0) as -> by lia. by rewrite slice_nil. }
  cstep. apply (ok_mono _ (fun '(buf, p, l) => 0 <= p /\ 0 <= l - 16 < len /\ p + l <= zlen buf /\
    bytes buf p l /\ pad16 (slice data pos len) = slice buf p 16 ++ pad16 (slice buf (p + 16) (l - 16)) /\
    (len + 15) / 16 = 1 + (l - 16 + 15) / 16)).
  { apply ok_cond; intros E; [apply Z.ltb_lt in E|apply Z.ltb_ge in E].
    - cstep. apply ok_memset; rewrite ?length_replicate; try lia. cstep.
      set (t0 := fillz _ _ _ _). assert (L0 : zlen t0 = 16) by reflexivity.
      apply ok_memcpy; try lia. cstep. set (t := blit _ _ _ _ _).
      assert (Lt : zlen t = 16) by (unfold t; rewrite zlen_blit; lia).
      assert (G : forall i, 0 <= i < 16 -> get t i = get (pad16 (slice data pos len)) i).
      { intros i Hi. unfold t, pad16. destruct (Z.lt_ge_cases i len).
        - rewrite get_blit_in, get_app_l, get_slice by (rewrite ?zlen_slice; lia). f_equal. lia.
        - rewrite get_blit_out, get_app_r by (rewrite ?zlen_slice; lia).
          rewrite get_replicate by (rewrite zlen_slice by lia; zn). unfold t0. apply get_fillz_in; rewrite ?length_replicate; lia. }
      split; [lia|]. split; [lia|]. split; [lia|]. split; [|split; [|zn]].
      + intros i Hi. rewrite G by lia. unfold pad16. destruct (Z.lt_ge_cases i len).
        * rewrite get_app_l, get_slice by (rewrite ?zlen_slice; lia). apply HB. lia.
        * rewrite get_app_r, get_replicate by (rewrite ?zlen_slice by lia; zn). done.
      + rewrite Z.sub_diag, slice_nil. unfold pad16 at 2. simpl replicate. rewrite !app_nil_r, slice_all by lia.
        apply list_eq_get; rewrite pad16_short by (rewrite zlen_slice; lia); [lia|]. intros i Hi. by rewrite G.
    - cstep. split; [lia|]. split; [lia|]. split; [lia|]. split; [done|]. split; [|zn].
      rewrite <- pad16_app by (by rewrite zlen_slice by lia). f_equal.
      rewrite <- slice_split by lia. f_equal. lia. }
  intros [[buf p] l] (Hp' & Hl' & Hb & HB' & EP & EN). cstep.
  eapply ok_mono; [apply (poly_turn_ok r a buf p); try done; try lia; apply (limbs_sub 8 buf p l); [done|lia..]|].
  cbv zeta. intros b [Hb' Eb]. eapply ok_mono.
  { apply IH; try done; try lia. apply (limbs_sub 8 buf p l); [done|lia..]. }
  intros a' [Ha' Ea']. split; [done|]. rewrite Ea', Eb, EP, EN.
  rewrite Z2Nat.inj_add by zn. change (Z.to_nat 1 + ?n)%nat with (S n). cbn [poly_blocks].
  assert (L16 : length (slice buf p 16) = 16%nat) by (pose proof (zlen_slice buf p 16); lia).
  rewrite take_app_length', drop_app_length' by done. done.
Qed.

(** * Key, accumulator, tag *)

Definition list5 (a : limbs5) : list Z := let '(a0, a1, a2, a3, a4) := a in [a0; a1; a2; a3; a4].

Lemma load5_ok a (Q : limbs5 -> Prop) : Q a -> ok (load5 (list5 a)) Q.
Proof. destruct a as [[[[a0 a1] a2] a3] a4]. done. Qed.

Lemma store5_ok acc a (Q : list Z -> Prop) : zlen acc = 5 -> Q (list5 a) -> ok (store5 acc a) Q.
Proof.
  intros HL HQ. destruct a as [[[[a0 a1] a2] a3] a4]. destruct acc as [|? [|? [|? [|? [|? [|]]]]]]; try (simpl in HL; lia).
  done.
Qed.

Lemma zlen_list5 a : zlen (list5 a) = 5.
Proof. by destruct a as [[[[a0 a1] a2] a3] a4]. Qed.

Lemma poly1305_inner_ok a r data pos len : limbs5_ok a -> limbs5_key r -> 0 <= pos -> 0 <= len ->
  pos + len <= zlen data -> bytes data pos len ->
  ok (poly1305_inner (list5 a) (list5 r) data pos len) (fun acc => exists a', acc = list5 a' /\ limbs5_ok a' /\
    value5 a' mod P1305 = poly_blocks (value5 r) (value5 a mod P1305) (pad16 (slice data pos len))
      (Z.to_nat ((len + 15) / 16))).
Proof.
  intros Ha Hr Hp Hlen Hl HB. unfold poly1305_inner. cstep. apply load5_ok. cstep. apply load5_ok.
  cstep. eapply ok_mono; [apply poly_loop_ok; done || lia|]. intros a' [Ha' Ea'].
  apply store5_ok; [apply zlen_list5|]. by exists a'.
Qed.

Lemma land_concat k a b c d : 0 <= k -> 0 <= a < 2 ^ k -> 0 <= c < 2 ^ k ->
  Z.land (a + b * 2 ^ k) (c + d * 2 ^ k) = Z.land a c + Z.land b d * 2 ^ k.
Proof.
  intros Hk Ha Hc. rewrite <- !lor_disjoint by (try apply (word_land k a c); unfold word; lia).
  apply Z.bits_inj'. intros i Hi. rewrite Z.land_spec, !Z.lor_spec, Z.land_spec.
  destruct (Z.lt_ge_cases i k).
  - rewrite !Z.mul_pow2_bits_low by lia. by rewrite !orb_false_r.
  - assert (Z.testbit a i = false /\ Z.testbit c i = false) as [-> ->].
    { rewrite <- (Z.mod_small a (2 ^ k)), <- (Z.mod_small c (2 ^ k)), !Z.mod_pow2_bits_high by lia. done. }
    rewrite !Z.mul_pow2_bits by lia. rewrite Z.land_spec. done.
Qed.

Lemma land_field k x s m : 0 <= k -> 0 <= x -> 0 <= s -> 0 <= m < 2 ^ k ->
  (x >> s) .& m = Z.land ((x / 2 ^ s) mod 2 ^ k) m.
Proof.
  intros Hk Hx Hs Hm. rewrite shr_div by lia. rewrite <- Z.land_ones by lia. rewrite <- Z.land_assoc.
  rewrite (Z.land_comm (Z.ones k)), Z.land_ones, (Z.mod_small m) by lia. done.
Qed.

Lemma poly_key_ok pkey : 32 <= zlen pkey -> bytes pkey 0 32 ->
  ok (poly_key pkey) (fun r => exists k, r = list5 k /\ limbs5_key k /\ value5 k = poly_r pkey).
Proof.
  intros Hl HB32. assert (HB : bytes pkey 0 16) by (apply (limbs_sub 8 pkey 0 32); [done|lia..]). unfold poly_key. cbv zeta.
  pose proof (val_bound 8 ltac:(lia) pkey 0 16 ltac:(lia) HB) as Hn. change (2 ^ (8 * 16)) with (2 ^ 128) in Hn.
  pose proof (split_26 _ Hn) as Es. unfold poly_r. set (n := vle pkey 0 16) in *.
  cstep. apply (poly_load_ok pkey 0 0); try done; try lia. intros W0.
  cstep. apply ok_store; [done|]. cstep. apply (poly_load_ok pkey 0 3); try done; try lia. intros W3.
  cstep. apply ok_store; [done|]. cstep. apply (poly_load_ok pkey 0 6); try done; try lia. intros W6.
  cstep. apply ok_store; [done|]. cstep. apply (poly_load_ok pkey 0 9); try done; try lia. intros W9.
  cstep. apply ok_store; [done|]. cstep. apply (poly_load_ok pkey 0 12); try done; try lia. intros W12.
  apply ok_store; [done|].
  rewrite <- (Z.shiftr_0_r (vle pkey (0 + 0) 4)).
  unfold word in *. rewrite (land_field 24 (vle pkey (0 + 12) 4)), !(land_field 26), !vle_field by (done || lia). fold n.
  change (8 * 0 + 0) with 0. change (8 * 3 + 2) with 26. change (8 * 6 + 4) with 52. change (8 * 9 + 6) with 78.
  change (8 * 12 + 8) with 104.
  pose proof (bits_bound n 0 26 ltac:(lia)). pose proof (bits_bound n 26 26 ltac:(lia)).
  pose proof (bits_bound n 52 26 ltac:(lia)). pose proof (bits_bound n 78 26 ltac:(lia)).
  pose proof (bits_bound n 104 24 ltac:(lia)).
  assert (HW : forall x m, 0 <= x < 2 ^ 26 -> 0 <= m -> 0 <= Z.land x m < 2 ^ 26)
    by (intros; apply (word_land 26); unfold word; lia).
  eexists (Z.land (bits n 0 26) 0x3FFFFFF, Z.land (bits n 26 26) 0x3FFFF03, Z.land (bits n 52 26) 0x3FFC0FF,
    Z.land (bits n 78 26) 0x3F03FFF, Z.land (bits n 104 24) 0xFFFFF).
  split; [done|]. split; [unfold limbs5_key; repeat (split; [apply HW; lia|]); apply HW; lia|].
  clear W0 W3 W6 W9 W12. revert Es H H0 H1 H2 H3.
  generalize (bits n 0 26), (bits n 26 26), (bits n 52 26), (bits n 78 26), (bits n 104 24).
  intros f0 f1 f2 f3 f4 -> H H0 H1 H2 H3. set (MASK := 0x0ffffffc0ffffffc0ffffffc0fffffff).
  replace MASK with (0x3FFFFFF + (0x3FFFF03 + (0x3FFC0FF + (0x3F03FFF + 0xFFFFF * 2 ^ 26) * 2 ^ 26) * 2 ^ 26) * 2 ^ 26)
    by reflexivity.
  replace (f0 + _ + _ + _ + _) with (f0 + (f1 + (f2 + (f3 + f4 * 2 ^ 26) * 2 ^ 26) * 2 ^ 26) * 2 ^ 26) by lia.
  rewrite !land_concat by lia. unfold value5. lia.
Qed.

(** Unrolling a loop. *)
Lemma ok_for_up_turn {S} lo hi (body : Z -> S -> M S) s (Q : S -> Prop) : lo < hi ->
  ok (body lo s) (fun s' => ok (for_up (lo + 1) hi body s') Q) -> ok (for_up lo hi body s) Q.
Proof.
  intros H HB. unfold for_up. replace (Z.to_nat (hi - lo)) with (Datatypes.S (Z.to_nat (hi - (lo + 1)))) by lia.
  cbn [for_n]. do 3 cstep. exact HB.
Qed.

Lemma ok_for_up_end {S} lo hi (body : Z -> S -> M S) s (Q : S -> Prop) : hi <= lo -> Q s -> ok (for_up lo hi body s) Q.
Proof.
  intros H HQ. unfold for_up. replace (Z.to_nat (hi - lo)) with O by lia. cbn [for_n]. by do 2 cstep.
Qed.

(** Accesses to an array written out. *)
Ltac norm_arr := repeat match goal with
  | |- context [get (?x :: ?l) ?j] =>
      let v := eval cbv [get nth Z.to_nat Pos.to_nat Pos.iter_op Nat.add] in (get (x :: l) j) in
      change (get (x :: l) j) with v
  | |- context [upd (?x :: ?l) ?j ?y] =>
      let v := eval cbv [upd insert list_insert Z.to_nat Pos.to_nat Pos.iter_op Nat.add] in (upd (x :: l) j y) in
      change (upd (x :: l) j y) with v
  end.
Ltac arr_step := lazymatch goal with
  | |- ok (load _ _) _ => apply ok_load; [done|]; norm_arr
  | |- ok (store _ _ _) _ => apply ok_store; [done|]; norm_arr
  | _ => cstep
  end.

Ltac turn := apply ok_for_up_turn; [done|];
  match goal with |- context [for_up (?a + 1) ?h] => let v := eval vm_compute in (a + 1) in
    change (a + 1) with v end; cbv zeta beta.

(** The last carry: a carry out of the top limb comes back as 1. *)
Definition final_value (V : Z) : Z := if V <? 2 ^ 130 then V else V - 2 ^ 130 + 1.

Lemma digit26 x : 0 <= x < 2 ^ 32 -> exists q r, u32 x >> 26 = q /\ u32 x .& 0x3FFFFFF = r /\
  x = q * 2 ^ 26 + r /\ 0 <= r < 2 ^ 26 /\ 0 <= q.
Proof.
  intros Hx. exists (x / 2 ^ 26), (x mod 2 ^ 26). rewrite low26, u32_small, shr_div by (unfold word; lia). zn.
Qed.

Lemma poly_final_carry_ok a : limbs5_ok a ->
  ok (poly_final_carry (list5 a)) (fun acc => exists b, acc = list5 b /\ limbs5_key b /\
    value5 b = final_value (value5 a)).
Proof.
  destruct a as [[[[a0 a1] a2] a3] a4]. intros (H0 & H1 & H2 & H3 & H4). unfold poly_final_carry. cstep.
  cbn [list5].
  do 6 (turn;
    match goal with |- context [if ?b then ?x else ?y] => let v := eval vm_compute in (if b then x else y) in
      change (if b then x else y) with v end;
    do 11 arr_step).
  apply ok_for_up_end; [done|]. cstep.
  destruct (digit26 (a1 + 0) ltac:(lia)) as (q1 & r1 & -> & -> & E1 & R1 & Q1).
  destruct (digit26 (a2 + q1) ltac:(lia)) as (q2 & r2 & -> & -> & E2 & R2 & Q2).
  destruct (digit26 (a3 + q2) ltac:(lia)) as (q3 & r3 & -> & -> & E3 & R3 & Q3).
  destruct (digit26 (a4 + q3) ltac:(lia)) as (q4 & r4 & -> & -> & E4 & R4 & Q4).
  destruct (digit26 (a0 + q4) ltac:(lia)) as (q0 & r0 & -> & -> & E0 & R0 & Q0).
  destruct (digit26 (r1 + q0) ltac:(lia)) as (q & r & _ & -> & E & R & Q).
  exists (r0, r, r2, r3, r4). split; [done|]. split; [unfold limbs5_key; lia|].
  unfold final_value, value5. assert (q = 0) by lia. subst q.
  destruct (Z.ltb_spec (a0 + a1 * 2 ^ 26 + a2 * 2 ^ 52 + a3 * 2 ^ 78 + a4 * 2 ^ 104) (2 ^ 130)); lia.
Qed.

Lemma poly_final_sub_ok b : limbs5_key b ->
  ok (poly_final_sub (list5 b)) (fun acc => exists c, acc = list5 c /\ limbs5_key c /\
    value5 c = value5 b mod P1305).
Proof.
  destruct b as [[[[b0 b1] b2] b3] b4]. intros (H0 & H1 & H2 & H3 & H4). unfold poly_final_sub. cbn [list5].
  do 2 arr_step. cbv zeta. cstep. do 4 (turn; do 3 arr_step).
  apply ok_for_up_end; [done|]. cstep.
  rewrite GT_spec, !EQ_spec, !b2z_land by (unfold word; lia).
  set (ctl := (_ && _)%bool).
  do 5 (turn; do 7 arr_step). apply ok_for_up_end; [done|]. cstep.
  destruct (digit26 (b0 + 5) ltac:(lia)) as (q0 & r0 & -> & -> & E0 & R0 & Q0).
  destruct (digit26 (b1 + q0) ltac:(lia)) as (q1 & r1 & -> & -> & E1 & R1 & Q1).
  destruct (digit26 (b2 + q1) ltac:(lia)) as (q2 & r2 & -> & -> & E2 & R2 & Q2).
  destruct (digit26 (b3 + q2) ltac:(lia)) as (q3 & r3 & -> & -> & E3 & R3 & Q3).
  destruct (digit26 (b4 + q3) ltac:(lia)) as (q4 & r4 & _ & -> & E4 & R4 & Q4).
  rewrite !MUX_spec by (unfold word; lia).
  set (V := value5 (b0, b1, b2, b3, b4)).
  assert (EV : V = b0 + b1 * 2 ^ 26 + b2 * 2 ^ 52 + b3 * 2 ^ 78 + b4 * 2 ^ 104) by reflexivity.
  destruct ctl eqn:EC; unfold ctl in EC.
  - rewrite !andb_true_iff, Z.ltb_lt, !Z.eqb_eq in EC. destruct EC as [[[[C0 C1] C2] C3] C4].
    exists (r0, r1, r2, r3, r4). split; [done|]. split; [unfold limbs5_key; lia|].
    unfold P1305. rewrite (Z.mod_eq V) by lia. replace (V / (2 ^ 130 - 5)) with 1; [unfold value5; lia|].
    apply (Z.div_unique _ _ _ (V - (2 ^ 130 - 5))); lia.
  - exists (b0, b1, b2, b3, b4). split; [done|]. split; [unfold limbs5_key; lia|].
    symmetry. apply Z.mod_small. rewrite !andb_false_iff, Z.ltb_ge, !Z.eqb_neq in EC. unfold P1305. lia.
Qed.

(** Four words, one after the other. *)
Lemma enc4_ok d0 d o k x : frame o (o + 16) d0 d -> 0 <= o -> o + 16 <= zlen d -> bytes d o (4 * k) -> 0 <= k < 4 -> word 32 x ->
  ok (br_enc32le d (o + 4 * k) x) (fun d' => frame o (o + 16) d0 d' /\ bytes d' o (4 * (k + 1)) /\
    vle d' o (4 * (k + 1)) = vle d o (4 * k) + x * 2 ^ (32 * k)).
Proof.
  intros HF Ho Hl HB Hk Hx. eapply ok_mono; [apply (codec_enc (WordCodec:=codec32le)); [lia|lia|done]|].
  intros d' (HF' & HB' & HV). split; [|split].
  - eapply frame_trans; [exact HF|]. eapply frame_weaken; [exact HF'|lia..].
  - intros i Hi. destruct (Z.lt_ge_cases i (o + 4 * k)).
    + rewrite (frame_get _ _ _ _ i HF') by lia. apply HB. lia.
    + apply HB'. lia.
  - replace (4 * (k + 1)) with (4 * k + 4) by lia. rewrite (val_split 8) by lia. rewrite HV.
    rewrite (val_frame 8 d d' o (4 * k) _ _ HF') by lia. replace (8 * (4 * k)) with (32 * k) by lia. lia.
Qed.

Lemma vle_words4 a o : vle a o 16 = vle a (o + 0) 4 + vle a (o + 4) 4 * 2 ^ 32 + vle a (o + 8) 4 * 2 ^ 64 +
  vle a (o + 12) 4 * 2 ^ 96.
Proof.
  rewrite Z.add_0_r. replace (vle a o 16) with (vle a o (4 + (4 + (4 + 4)))) by done. rewrite !(val_split 8) by lia.
  replace (o + 4 + 4) with (o + 8) by lia. replace (o + 8 + 4) with (o + 12) by lia. lia.
Qed.

Lemma u32_add_mid a b c : u32 (a + u32 b + c) = u32 (a + b + c).
Proof.
  unfold u32. replace (a + b mod 2 ^ 32 + c) with (a + c + b mod 2 ^ 32) by lia.
  rewrite Z.add_mod_idemp_r by lia. f_equal. lia.
Qed.

(** The carries between the words of the sum. *)
Lemma tag_sum w0 w1 w2 h x1 x2 x3 S T :
  w1 = w0 / 2 ^ 32 + x1 -> w2 = w1 / 2 ^ 32 + x2 -> h = w2 / 2 ^ 32 + x3 ->
  T = w0 + x1 * 2 ^ 32 + x2 * 2 ^ 64 + x3 * 2 ^ 96 ->
  S = w0 mod 2 ^ 32 + w1 mod 2 ^ 32 * 2 ^ 32 + w2 mod 2 ^ 32 * 2 ^ 64 + h mod 2 ^ 32 * 2 ^ 96 ->
  S = T mod 2 ^ 128.
Proof.
  intros E1 E2 E3 -> ->.
  pose proof (Z.div_mod w0 (2 ^ 32) ltac:(lia)). pose proof (Z.div_mod w1 (2 ^ 32) ltac:(lia)).
  pose proof (Z.div_mod w2 (2 ^ 32) ltac:(lia)). pose proof (Z.div_mod h (2 ^ 32) ltac:(lia)).
  pose proof (Z.mod_pos_bound w0 (2 ^ 32) ltac:(lia)). pose proof (Z.mod_pos_bound w1 (2 ^ 32) ltac:(lia)).
  pose proof (Z.mod_pos_bound w2 (2 ^ 32) ltac:(lia)). pose proof (Z.mod_pos_bound h (2 ^ 32) ltac:(lia)).
  apply (Z.mod_unique _ _ (h / 2 ^ 32)); lia.
Qed.

Lemma poly_tag_ok c pkey tag o : limbs5_key c -> 32 <= zlen pkey -> bytes pkey 0 32 -> 0 <= o -> o + 16 <= zlen tag ->
  ok (poly_tag (list5 c) pkey tag o) (fun d => frame o (o + 16) tag d /\
    slice d o 16 = tag_of (value5 c) (poly_s pkey)).
Proof.
  destruct c as [[[[x0 x1] x2] x3] x4]. intros (H0 & H1 & H2 & H3 & H4) Hl HB Ho Ht.
  assert (HB' : bytes pkey 16 16) by (apply (limbs_sub 8 pkey 0 32); [done|lia..]).
  unfold poly_tag. cbn [list5].
  do 4 arr_step. cstep. apply (poly_load_ok pkey 16 0); try done; try lia. intros W0. cbv zeta.
  set (y0 := vle pkey (16 + 0) 4) in *. unfold word in W0.
  rewrite !(shl_mul x1), (u64_small (x1 * 2 ^ 26)), (u64_small (x0 + x1 * 2 ^ 26 + y0)) by (unfold word; lia).
  set (w0 := x0 + x1 * 2 ^ 26 + y0). cstep. replace o with (o + 4 * 0) at 1 by lia.
  eapply ok_mono; [apply (enc4_ok tag tag o 0); try done; try lia; [intros i Hi; lia|apply u32_word]|].
  intros d0 (F0 & B0 & V0). pose proof (frame_len _ _ _ _ F0).
  do 2 arr_step. cstep. apply (poly_load_ok pkey 16 4); try done; try lia. intros W1. cbv zeta.
  set (y1 := vle pkey (16 + 4) 4) in *. unfold word in W1. rewrite !(shr_div w0), !(shl_mul x2) by lia.
  rewrite (u64_small (x2 * 2 ^ 20)), (u64_small (w0 / 2 ^ 32 + x2 * 2 ^ 20 + y1)) by (unfold word, w0; zn).
  set (w1 := w0 / 2 ^ 32 + x2 * 2 ^ 20 + y1). cstep. change (o + 4) with (o + 4 * 1) at 1.
  eapply ok_mono; [apply (enc4_ok tag d0 o 1); try done; try lia; apply u32_word|].
  intros d1 (F1 & B1 & V1). pose proof (frame_len _ _ _ _ F1).
  do 2 arr_step. cstep. apply (poly_load_ok pkey 16 8); try done; try lia. intros W2. cbv zeta.
  set (y2 := vle pkey (16 + 8) 4) in *. unfold word in W2. rewrite !(shr_div w1), !(shl_mul x3) by lia.
  assert (Bw1 : 0 <= w1 < 2 ^ 47) by (unfold w1, w0; zn).
  rewrite (u64_small (x3 * 2 ^ 14)), (u64_small (w1 / 2 ^ 32 + x3 * 2 ^ 14 + y2)) by (unfold word; zn).
  set (w2 := w1 / 2 ^ 32 + x3 * 2 ^ 14 + y2). cstep. change (o + 8) with (o + 4 * 2) at 1.
  eapply ok_mono; [apply (enc4_ok tag d1 o 2); try done; try lia; apply u32_word|].
  intros d2 (F2 & B2 & V2). pose proof (frame_len _ _ _ _ F2).
  do 2 arr_step. cstep. apply (poly_load_ok pkey 16 12); try done; try lia. intros W3. cbv zeta.
  set (y3 := vle pkey (16 + 12) 4) in *. unfold word in W3. rewrite !(shr_div w2), !(shl_mul x4) by lia.
  assert (Bw2 : 0 <= w2 < 2 ^ 42) by (unfold w2; zn).
  change (o + 12) with (o + 4 * 3) at 1.
  eapply ok_mono; [apply (enc4_ok tag d2 o 3); try done; try lia; apply u32_word|].
  intros d3 (F3 & B3 & V3). pose proof (frame_len _ _ _ _ F3). split; [done|].
  unfold tag_of. apply (slice_le_words d3 o 16 _ 1); try done; try lia. intros i Hi.
  assert (i = 0) as -> by lia. rewrite Z.mul_0_r, Z.add_0_r. change (get [?x] 0) with x.
  assert (ES : poly_s pkey = y0 + y1 * 2 ^ 32 + y2 * 2 ^ 64 + y3 * 2 ^ 96).
  { unfold poly_s, y0, y1, y2, y3. apply vle_words4. }
  change (4 * (3 + 1)) with 16 in V3. rewrite V3.
  change (4 * 3) with (4 * (2 + 1)). rewrite V2. change (4 * 2) with (4 * (1 + 1)). rewrite V1.
  change (4 * 1) with (4 * (0 + 1)). rewrite V0. rewrite ES.
  assert (0 <= w2 / 2 ^ 32 < 2 ^ 32) by (split; [apply Z.div_pos|apply Z.div_lt_upper_bound]; lia).
  rewrite Z.mul_0_r, val_0. rewrite (u32_small (w2 / 2 ^ 32)), u32_add_mid by (unfold word; lia).
  change (32 * 0) with 0. change (32 * 1) with 32. change (32 * 2) with 64. change (32 * 3) with 96.
  rewrite Z.pow_0_r. unfold u32.
  assert (E1 : w1 = w0 / 2 ^ 32 + (x2 * 2 ^ 20 + y1)) by (unfold w1; lia).
  assert (E2 : w2 = w1 / 2 ^ 32 + (x3 * 2 ^ 14 + y2)) by (unfold w2; lia).
  assert (E0 : w0 = x0 + x1 * 2 ^ 26 + y0) by done. clearbody w0 w1 w2.
  apply (tag_sum w0 w1 w2 (w2 / 2 ^ 32 + x4 * 2 ^ 8 + y3) (x2 * 2 ^ 20 + y1) (x3 * 2 ^ 14 + y2) (x4 * 2 ^ 8 + y3));
    unfold value5; lia.
Qed.

(** * The authenticator *)

Lemma poly_blocks_app r na : forall h a b nb, zlen a = 16 * Z.of_nat na ->
  poly_blocks r h (a ++ b) (na + nb) = poly_blocks r (poly_blocks r h a na) b nb.
Proof.
  induction na as [|na IH]; intros h a b nb Ha.
  - destruct a; [done|simpl length in Ha; lia].
  - cbn [poly_blocks Nat.add]. rewrite take_app_le, drop_app_le by lia. apply IH.
    rewrite length_drop. lia.
Qed.

Lemma poly_step_range r h b : 0 <= poly_step r h b < P1305.
Proof. apply Z.mod_pos_bound. unfold P1305. lia. Qed.

Lemma poly_blocks_range r n : forall h msg, 0 <= h < P1305 -> 0 <= poly_blocks r h msg n < P1305.
Proof.
  induction n as [|n IH]; intros h msg Hh; cbn [poly_blocks]; [done|]. apply IH, poly_step_range.
Qed.

(** The accumulator of the construction, part by part. *)
Lemma poly_acc_parts key aad ct : let r := poly_r key in
  poly_acc key (mac_data aad ct) =
  poly_blocks r (poly_blocks r (poly_blocks r 0 (pad16 aad) (Z.to_nat ((zlen aad + 15) / 16)))
    (pad16 ct) (Z.to_nat ((zlen ct + 15) / 16))) (le_words 8 [zlen aad; zlen ct] 2) 1.
Proof.
  cbv zeta. unfold poly_acc, mac_data. rewrite !zlen_app, !zlen_pad16, zlen_le_words by lia.
  replace ((16 * ((zlen aad + 15) / 16) + (16 * ((zlen ct + 15) / 16) + 8 * 2) + 15) / 16)
    with ((zlen aad + 15) / 16 + ((zlen ct + 15) / 16 + 1)) by zn.
  rewrite !Z2Nat.inj_add by zn. rewrite poly_blocks_app by (rewrite zlen_pad16; zn).
  rewrite poly_blocks_app by (rewrite zlen_pad16; zn). done.
Qed.

(** What the last reduction returns for an accumulator. *)
Definition poly_exact (h : Z) : Prop := h < 5 \/ 2 ^ 32 + 5 <= h.
Definition reduced (h h' : Z) : Prop := h' = h \/ (5 <= h < 2 ^ 32 + 5 /\ h' = h - 4).

Lemma reduced_exact h h' : reduced h h' -> poly_exact h -> h' = h.
Proof. unfold reduced, poly_exact. lia. Qed.

Lemma value5_bound a : limbs5_ok a -> 0 <= value5 a < 2 ^ 130 + 2 ^ 32.
Proof. destruct a as [[[[a0 a1] a2] a3] a4]. intros (H0 & H1 & H2 & H3 & H4). unfold value5. lia. Qed.

Lemma final_value_mod V : 0 <= V < 2 ^ 130 + 2 ^ 32 -> reduced (V mod P1305) (final_value V mod P1305).
Proof.
  intros HV. unfold final_value, reduced. destruct (Z.ltb_spec V (2 ^ 130)); [by left|right]. unfold P1305.
  rewrite (Z.mod_small (V - _ + _)) by lia.
  replace (V mod (2 ^ 130 - 5)) with (V - (2 ^ 130 - 5)); [lia|].
  apply (Z.mod_unique _ _ 1); lia.
Qed.

(** The two cases of the last carry. *)
Lemma final_value_cases V : 0 <= V < 2 ^ 130 + 2 ^ 32 ->
  (V < 2 ^ 130 -> final_value V mod P1305 = V mod P1305) /\
  (2 ^ 130 <= V -> 5 <= V mod P1305 < 2 ^ 32 + 5 /\ final_value V mod P1305 = V mod P1305 - 4).
Proof.
  intros HV. pose proof (final_value_mod V HV) as HR. unfold final_value in *.
  destruct (Z.ltb_spec V (2 ^ 130)) as [Hlt|Hge]; [split; [done|lia]|]. split; [lia|]. intros _.
  unfold P1305. rewrite (Z.mod_small (V - _ + _)) by lia.
  replace (V mod (2 ^ 130 - 5)) with (V - (2 ^ 130 - 5)); [lia|]. apply (Z.mod_unique _ _ 1); lia.
Qed.

(** Sums that differ by 4 give two tags. *)
Lemma get_tag_of h s : get (tag_of h s) 0 = (h + s) mod 2 ^ 8.
Proof.
  unfold tag_of, le_words. rewrite get_map_seq by lia. change (0 / 16) with 0.
  change (get [?x] 0) with x. change (8 * (Z.of_nat (Z.to_nat 0) mod 16)) with 0. change (get [?x] (Z.of_nat _ / 16)) with x.
  rewrite Z.shiftr_0_r. unfold u8. zn.
Qed.

Lemma tag_of_ne h s : tag_of (h - 4) s <> tag_of h s.
Proof. intros E. apply (f_equal (fun l => get l 0)) in E. rewrite !get_tag_of in E. zn. Qed.

Lemma foot_ok m n : word 64 m -> word 64 n ->
  ok (f ← br_enc64le (replicate 16 0) 0 m; br_enc64le f 8 n) (fun f => f = le_words 8 [m; n] 2).
Proof.
  intros Hm Hn. cstep. eapply ok_mono; [apply (codec_enc (WordCodec:=codec64le)); [lia|simpl length; lia|done]|].
  intros f (F1 & B1 & V1). pose proof (frame_len _ _ _ _ F1) as L1. rewrite length_replicate in L1.
  eapply ok_mono; [apply (codec_enc (WordCodec:=codec64le)); [lia|lia|done]|].
  intros g (F2 & B2 & V2). pose proof (frame_len _ _ _ _ F2) as L2.
  assert (G : forall i, 0 <= i < 8 -> get g i = get f i) by (intros i Hi; apply (frame_get _ _ _ _ i F2); lia).
  rewrite <- (slice_all g 16) by lia. apply (slice_le_words g 0 8 [m; n] 2); try lia.
  - intros i Hi. destruct (Z.lt_ge_cases i 8); [rewrite G by lia; apply B1; lia|apply B2; lia].
  - intros i Hi. assert (i = 0 \/ i = 1) as [-> | ->] by lia.
    + change (get [m; n] 0) with m. rewrite <- V1. apply val_ext. intros j Hj. apply G. lia.
    + exact V2.
Qed.

Section MacAcc.
Context (pkey data aad : list Z) (pos len aad_len : Z).
Context (Lk : 32 <= zlen pkey) (Bk : bytes pkey 0 32) (Hp : 0 <= pos) (Hlen : 0 <= len < 2 ^ 64) (Hl : pos + len <= zlen data)
  (HB : bytes data pos len) (Ha : 0 <= aad_len < 2 ^ 64) (Hal : aad_len <= zlen aad) (HBa : bytes aad 0 aad_len).

(** The loops keep the residue of the accumulator of RFC 8439. *)
Lemma poly_mac_blocks_ok :
  ok (poly_mac_blocks pkey data pos len aad aad_len) (fun acc => exists a, acc = list5 a /\ limbs5_ok a /\
    value5 a mod P1305 = poly_acc pkey (mac_data (slice aad 0 aad_len) (slice data pos len))).
Proof.
  unfold poly_mac_blocks. cbv zeta. rewrite !u64_small by (unfold word; lia).
  cstep. eapply ok_mono; [by apply poly_key_ok|]. intros ? (r & -> & Hr & Er).
  cstep. apply ok_memset; try (simpl length; lia).
  change (fillz (replicate 5 0) 0 0 5) with (list5 (0, 0, 0, 0, 0)).
  cstep. eapply ok_mono; [apply (ok_bind' _ (fun f => br_enc64le f 8 len)), (foot_ok aad_len len); done|].
  intros f0 Hf. cstep. eapply ok_mono; [exact Hf|]. intros f ->.
  cstep. eapply ok_mono; [apply (poly1305_inner_ok (0, 0, 0, 0, 0) r aad 0 aad_len); done || lia|].
  intros ? (a1 & -> & O1 & V1).
  cstep. eapply ok_mono; [apply (poly1305_inner_ok a1 r data pos len); done || lia|].
  intros ? (a2 & -> & O2 & V2).
  eapply ok_mono.
  { apply (poly1305_inner_ok a2 r (le_words 8 [aad_len; len] 2) 0 16); try done; try lia.
      apply (proj1 (bytes_get _) (le_words_bytes 8 [aad_len; len] 2)). }
  intros acc (a3 & -> & O3 & V3). exists a3. split; [done|]. split; [done|]. rewrite poly_acc_parts, !zlen_slice, <- Er by lia.
  rewrite V3, V2, V1. rewrite (slice_all (le_words _ _ _) 16) by (rewrite zlen_le_words; lia).
  change (value5 (0, 0, 0, 0, 0) mod P1305) with 0. done.
Qed.

(** The last reduction. *)
Lemma poly_mac_acc_ok :
  ok (poly_mac_acc pkey data pos len aad aad_len) (fun acc => exists tr a c,
    poly_mac_blocks pkey data pos len aad aad_len = Some (tr, list5 a) /\ limbs5_ok a /\
    value5 a mod P1305 = poly_acc pkey (mac_data (slice aad 0 aad_len) (slice data pos len)) /\
    acc = list5 c /\ limbs5_key c /\ value5 c = final_value (value5 a) mod P1305).
Proof.
  unfold poly_mac_acc. cstep. eapply ok_mono; [apply ok_self, poly_mac_blocks_ok|]. intros ? [(a & -> & Oa & Va) [tr Etr]].
  cstep. eapply ok_mono; [by apply poly_final_carry_ok|]. intros ? (b & -> & Ob & Vb).
  eapply ok_mono; [by apply poly_final_sub_ok|]. intros acc (c & -> & Oc & Vc). exists tr, a, c. by rewrite Vc, Vb.
Qed.
End MacAcc.

(** * The construction *)

(** What [br_chacha20_run] promises. *)
Class ChachaRun (run : list Z -> list Z -> Z -> list Z -> Z -> Z -> M (list Z * Z)) := {
  chacha_ok key iv cc data pos len :
    32 <= zlen key -> 12 <= zlen iv -> bytes key 0 32 -> bytes iv 0 12 -> word 32 cc ->
    0 <= pos -> 0 <= len -> pos + len <= zlen data ->
    ok (run key iv cc data pos len) (fun '(d, c) =>
      frame pos (pos + len) data d /\ c = chacha_end cc len /\
      slice d pos len = chacha20 key cc iv (slice data pos len));
  chacha_ct k1 k2 v1 v2 c1 c2 d1 d2 pos len : blind (run k1 v1 c1 d1 pos len) (run k2 v2 c2 d2 pos len)
}.

#[export] Instance br_chacha20_ct : ChachaRun br_chacha20_ct_run.
Proof. split; [apply chacha20_run_ok|apply br_chacha20_ct_run_ct]. Qed.

Lemma chacha_stream_word key cc nonce i : word 8 (chacha_stream key cc nonce i).
Proof.
  unfold chacha_stream. pose proof (le_words_bytes 4 (zip_with (fun x y => u32 (x + y))
    (Nat.iter 10 inner_block (chacha_state key (u32 (cc + i / 64)) nonce)) (chacha_state key (u32 (cc + i / 64)) nonce)) 16) as HB.
  apply (proj1 (bytes_get _) HB). rewrite zlen_le_words by lia. zn.
Qed.

Lemma chacha20_bytes key cc nonce msg : byte_string msg -> byte_string (chacha20 key cc nonce msg).
Proof.
  intros HB. apply bytes_get. intros i Hi. rewrite zlen_chacha20 in Hi. rewrite get_chacha20 by lia.
  apply word_lxor; [lia| |apply chacha_stream_word]. apply (proj1 (bytes_get _) HB). lia.
Qed.

Section Aead.
Context {ichacha} {HI : ChachaRun ichacha}.
Context (key iv : list Z) (Lk : 32 <= zlen key) (Ln : 12 <= zlen iv) (Hk : bytes key 0 32) (Hn : bytes iv 0 12).

(** The one-time key. *)
Lemma poly_otk_ok :
  ok (pkey ← memset (replicate 32 0) 0 0 32; ichacha key iv 0 pkey 0 32) (fun '(p, _) => p = poly_otk key iv).
Proof.
  cstep. apply ok_memset; try done. eapply ok_mono; [apply chacha_ok; done|]. intros [p c] (HF & _ & HS).
  pose proof (frame_len _ _ _ _ HF) as L. change (zlen (fillz (replicate 32 0) 0 0 32)) with 32 in L.
  rewrite (slice_all p 32 L) in HS. rewrite HS. change (slice (fillz (replicate 32 0) 0 0 32) 0 32) with (replicate 32 0).
  assert (LB : zlen (chacha20_block key 0 iv) = 64) by (unfold chacha20_block; by rewrite zlen_le_words).
  unfold poly_otk. apply list_eq_get; rewrite zlen_chacha20, length_replicate; [rewrite length_take; lia|].
  intros i Hi. rewrite get_chacha20 by (rewrite length_replicate; lia). rewrite get_replicate by lia.
  unfold chacha_stream. rewrite Z.lxor_0_l, Z.div_small, Z.mod_small by lia. change (u32 (0 + 0)) with 0.
  rewrite (get_lookup (take _ _)), lookup_take_lt, <- get_lookup by lia. done.
Qed.

Lemma poly_otk_bytes : zlen (poly_otk key iv) = 32 /\ bytes (poly_otk key iv) 0 32.
Proof.
  assert (LB : zlen (chacha20_block key 0 iv) = 64) by (unfold chacha20_block; by rewrite zlen_le_words).
  assert (L : zlen (poly_otk key iv) = 32) by (unfold poly_otk; rewrite length_take; lia). split; [done|].
  rewrite <- L at 1. apply bytes_get. unfold poly_otk. apply Forall_take, le_words_bytes.
Qed.

Section Run.
Context (data aad tag : list Z) (pos len aad_len o : Z).
Context (Hp : 0 <= pos) (Hlen : 0 <= len < 2 ^ 64) (Hl : pos + len <= zlen data) (HB : bytes data pos len).
Context (Ha : 0 <= aad_len < 2 ^ 64) (Hal : aad_len <= zlen aad) (HBa : bytes aad 0 aad_len).
Context (Ho : 0 <= o) (Ht : o + 16 <= zlen tag).

(** The ciphertext of a call, and the accumulator of RFC 8439 for it. *)
Definition aead_ct (encrypt : bool) : list Z :=
  if encrypt then chacha20 key 1 iv (slice data pos len) else slice data pos len.
Definition aead_acc (encrypt : bool) : Z :=
  poly_acc (poly_otk key iv) (mac_data (slice aad 0 aad_len) (aead_ct encrypt)).

Lemma poly_run_ok encrypt :
  ok (br_poly1305_ctmul_run ichacha key iv data pos len aad aad_len tag o encrypt) (fun '(d, t) =>
    frame pos (pos + len) data d /\ slice d pos len = chacha20 key 1 iv (slice data pos len) /\
    frame o (o + 16) tag t /\ exists tr a,
      poly_mac_blocks (poly_otk key iv) (if encrypt then d else data) pos len aad aad_len = Some (tr, list5 a) /\
      limbs5_ok a /\ value5 a mod P1305 = aead_acc encrypt /\
      slice t o 16 = tag_of (final_value (value5 a) mod P1305) (poly_s (poly_otk key iv))).
Proof.
  unfold br_poly1305_ctmul_run. destruct poly_otk_bytes as [Lo Bo].
  pose proof poly_otk_ok as HK. apply ok_bind' in HK.
  cstep. eapply ok_mono; [exact HK|]. intros p0 Hp0. cstep. eapply ok_mono; [exact Hp0|].
  intros [p c] ->. cbv beta iota.
  cstep. apply (ok_mono _ (fun d => frame pos (pos + len) data d /\ slice d pos len = aead_ct encrypt /\
    bytes d pos len /\ (encrypt = false -> d = data))).
  { apply ok_cond; intros E; unfold aead_ct; rewrite E.
    - cstep. eapply ok_mono; [apply chacha_ok; done || lia|]. intros [d c'] (HF & _ & HS). cstep.
      split; [done|]. split; [done|]. split; [|done]. pose proof (frame_len _ _ _ _ HF).
      intros i Hi. replace i with (pos + (i - pos)) by lia. rewrite <- (get_slice d pos len), HS by lia.
      apply (proj1 (bytes_get _) (chacha20_bytes _ _ _ _ (byte_string_slice _ _ _ Hp (proj1 Hlen) HB Hl))).
      rewrite zlen_chacha20, zlen_slice; lia.
    - cstep. split; [apply frame_refl|]. done. }
  intros d (HF & HS & HBd & Hsame). pose proof (frame_len _ _ _ _ HF).
  cstep. eapply ok_mono; [apply (poly_mac_acc_ok (poly_otk key iv) d aad pos len aad_len); done || lia|].
  intros ? (tr & a & c' & Etr & Oa & Va & -> & Hc & HR). cstep. eapply ok_mono; [apply poly_tag_ok; done || lia|]. intros t [HFt HSt].
  cstep. apply (ok_mono _ (fun d' => frame pos (pos + len) data d' /\
    slice d' pos len = chacha20 key 1 iv (slice data pos len) /\ (encrypt = true -> d' = d))).
  { apply ok_cond; intros E; unfold aead_ct in HS; destruct encrypt; try done.
    cstep. eapply ok_mono; [apply (chacha_ok key iv 1 d pos len); done || lia|]. intros [d' cc'] (HF' & _ & HS'). cstep.
    split; [by eapply frame_trans|]. split; [|done]. by rewrite HS', HS. }
  intros d' (HF' & HS' & Hsame'). cstep. split; [done|]. split; [done|]. split; [done|]. exists tr, a. split.
  - destruct encrypt; [by rewrite Hsame'|by rewrite <- Hsame].
  - split; [done|]. split; [unfold aead_acc; by rewrite <- HS|]. by rewrite <- HR.
Qed.

(** [C11] ChaCha20+Poly1305, in both directions: the data are encrypted or
    decrypted as RFC 8439 says; the tag is the one of RFC 8439 on the additional
    data and the ciphertext unless the residue of the accumulator is between 5
    and 2^32 + 5, where it may be the one of the residue minus 4; nothing else
    is modified. *)
Theorem br_poly1305_ctmul_run_correct encrypt :
  ok (br_poly1305_ctmul_run ichacha key iv data pos len aad aad_len tag o encrypt) (fun '(d, t) =>
    frame pos (pos + len) data d /\ slice d pos len = chacha20 key 1 iv (slice data pos len) /\
    frame o (o + 16) tag t /\
    (poly_exact (aead_acc encrypt) ->
      slice t o 16 = aead_tag key iv (slice aad 0 aad_len) (aead_ct encrypt)) /\
    (slice t o 16 = aead_tag key iv (slice aad 0 aad_len) (aead_ct encrypt) \/
      slice t o 16 = tag_of (aead_acc encrypt - 4) (poly_s (poly_otk key iv)))).
Proof.
  eapply ok_mono; [apply poly_run_ok|]. intros [d t] (HF & HS & HFt & _ & a & _ & Oa & Va & Ht').
  pose proof (final_value_mod _ (value5_bound a Oa)) as HR. rewrite Va in HR.
  split; [done|]. split; [done|]. split; [done|]. rewrite Ht'. split.
  - intros HE. by rewrite (reduced_exact _ _ HR HE).
  - destruct HR as [->|[_ ->]]; [by left|by right].
Qed.

(** [C12] Exactly when the tag of [br_poly1305_ctmul_run] is wrong, for every input:
    the loops leave limbs [a] with the residue of RFC 8439; when they are below
    2^130 the tag is the one of RFC 8439, and when they are not (the carry out of
    the top limb is then added once, not five times, to the lowest one) it is
    another one, the tag of the residue minus 4. *)
Theorem br_poly1305_ctmul_wrong_tag encrypt :
  ok (br_poly1305_ctmul_run ichacha key iv data pos len aad aad_len tag o encrypt) (fun '(d, t) => exists tr a,
    poly_mac_blocks (poly_otk key iv) (if encrypt then d else data) pos len aad aad_len = Some (tr, list5 a) /\
    limbs5_ok a /\ value5 a mod P1305 = aead_acc encrypt /\
    (value5 a < 2 ^ 130 -> slice t o 16 = aead_tag key iv (slice aad 0 aad_len) (aead_ct encrypt)) /\
    (2 ^ 130 <= value5 a -> 5 <= aead_acc encrypt < 2 ^ 32 + 5 /\
      slice t o 16 = tag_of (aead_acc encrypt - 4) (poly_s (poly_otk key iv)) /\
      slice t o 16 <> aead_tag key iv (slice aad 0 aad_len) (aead_ct encrypt))).
Proof.
  eapply ok_mono; [apply poly_run_ok|]. intros [d t] (_ & _ & _ & tr & a & Ea & Oa & Va & Ht'). exists tr, a.
  split; [done|]. split; [done|]. split; [done|]. pose proof (value5_bound a Oa) as Hb. rewrite Ht'. split; intros HV.
  - rewrite (proj1 (final_value_cases _ Hb) HV), Va. done.
  - destruct (proj2 (final_value_cases _ Hb) HV) as [HR E]. rewrite E, Va. rewrite Va in HR. split; [done|]. split; [done|].
    by apply tag_of_ne.
Qed.

End Run.

(** Decrypting what was encrypted gives the data back, and the same tag. *)
Theorem br_poly1305_ctmul_round_trip data aad tag pos len aad_len o :
  0 <= pos -> 0 <= len < 2 ^ 64 -> pos + len <= zlen data -> bytes data pos len ->
  0 <= aad_len < 2 ^ 64 -> aad_len <= zlen aad -> bytes aad 0 aad_len -> 0 <= o -> o + 16 <= zlen tag ->
  ok ('(data, tag1) ← br_poly1305_ctmul_run ichacha key iv data pos len aad aad_len tag o true;
      '(data, tag2) ← br_poly1305_ctmul_run ichacha key iv data pos len aad aad_len tag o false;
      mret (data, tag1, tag2)) (fun '(d, t1, t2) => d = data /\ t1 = t2).
Proof.
  intros Hp Hlen Hl HB Ha Hal HBa Ho Ht. cstep. eapply ok_mono; [by apply poly_run_ok|].
  intros [d t1] (HF & HS & HFt & tr & c & Ec & _ & _ & Et). pose proof (frame_len _ _ _ _ HF) as L.
  assert (HBd : bytes d pos len).
  { intros i Hi. replace i with (pos + (i - pos)) by lia. rewrite <- (get_slice d pos len), HS by lia.
    apply (proj1 (bytes_get _) (chacha20_bytes _ _ _ _ (byte_string_slice _ _ _ Hp (proj1 Hlen) HB Hl))).
    rewrite zlen_chacha20, zlen_slice; lia. }
  cstep. eapply ok_mono; [apply (poly_run_ok d aad tag pos len aad_len o); done || lia|].
  intros [d2 t2] (HF2 & HS2 & HFt2 & tr2 & c2 & Ec2 & _ & _ & Et2). cstep. rewrite Ec in Ec2. injection Ec2 as _ E.
  split.
  - apply (frame_slice_eq pos len data); try done; try lia; [by eapply frame_trans|].
    by rewrite HS2, HS, chacha20_involutive.
  - apply (frame_slice_eq o 16 tag); try done; try lia. assert (c = c2) as <-.
    { destruct c as [[[[? ?] ?] ?] ?], c2 as [[[[? ?] ?] ?] ?]. unfold list5 in E. congruence. }
    by rewrite Et, Et2.
Qed.
End Aead.

(** * Leakage *)

Lemma poly_add_ct b1 b2 p x y : blind (poly_add b1 p x) (poly_add b2 p y).
Proof. destruct x as [[[[? ?] ?] ?] ?], y as [[[[? ?] ?] ?] ?]. unfold poly_add. blind_auto. Qed.
Lemma load5_ct a b : blind (load5 a) (load5 b).
Proof. unfold load5. blind_auto. Qed.
Lemma store5_ct a b x y : blind (store5 a x) (store5 b y).
Proof. destruct x as [[[[? ?] ?] ?] ?], y as [[[[? ?] ?] ?] ?]. unfold store5. blind_auto. Qed.
#[export] Hint Resolve poly_add_ct load5_ct store5_ct : blind.

Lemma poly_loop_ct fuel : forall r1 r2 b1 b2 p len x y,
  blind (poly_loop fuel r1 b1 p len x) (poly_loop fuel r2 b2 p len y).
Proof.
  induction fuel as [|fuel IH]; intros; [by intros ??|]. cbn [poly_loop].
  apply ct_cond; [done|intros _|intros _; by apply ct_ret].
  eapply (ct_bind (fun '(_, p1, l1) '(_, p2, l2) => p1 = p2 /\ l1 = l2)).
  { apply ct_cond; [done|intros _|intros _; by apply ct_ret].
    apply blind_bind; [blind_auto|intros]. apply blind_bind; [blind_auto|intros]. by apply ct_ret. }
  intros [[c1 p1] l1] [[c2 p2] l2] [-> ->]. apply blind_bind; [apply poly_add_ct|intros]. apply IH.
Qed.
#[export] Hint Resolve poly_loop_ct : blind.

Lemma poly1305_inner_ct a1 a2 r1 r2 d1 d2 pos len : blind (poly1305_inner a1 r1 d1 pos len) (poly1305_inner a2 r2 d2 pos len).
Proof. unfold poly1305_inner. blind_auto. Qed.
Lemma poly_key_ct p1 p2 : blind (poly_key p1) (poly_key p2).
Proof. unfold poly_key. blind_auto. Qed.
Lemma poly_final_carry_ct a1 a2 : blind (poly_final_carry a1) (poly_final_carry a2).
Proof. unfold poly_final_carry. blind_auto. Qed.
Lemma poly_final_sub_ct a1 a2 : blind (poly_final_sub a1) (poly_final_sub a2).
Proof. unfold poly_final_sub. blind_auto. Qed.
Lemma poly_tag_ct a1 a2 p1 p2 t1 t2 o : blind (poly_tag a1 p1 t1 o) (poly_tag a2 p2 t2 o).
Proof. unfold poly_tag. blind_auto. Qed.
#[export] Hint Resolve poly1305_inner_ct poly_key_ct poly_final_carry_ct poly_final_sub_ct poly_tag_ct : blind.

Lemma poly_mac_acc_ct p1 p2 d1 d2 pos len a1 a2 al :
  blind (poly_mac_acc p1 d1 pos len a1 al) (poly_mac_acc p2 d2 pos len a2 al).
Proof. unfold poly_mac_acc, poly_mac_blocks. blind_auto. Qed.
#[export] Hint Resolve poly_mac_acc_ct : blind.

Lemma br_poly1305_ctmul_run_ct {ichacha} {HI : ChachaRun ichacha} k1 k2 v1 v2 d1 d2 pos len a1 a2 al t1 t2 o e :
  blind (br_poly1305_ctmul_run ichacha k1 v1 d1 pos len a1 al t1 o e)
    (br_poly1305_ctmul_run ichacha k2 v2 d2 pos len a2 al t2 o e).
Proof.
  pose proof chacha_ct as HC. unfold br_poly1305_ctmul_run. blind_auto.
Qed.

(** [C13] ChaCha20+Poly1305 is constant-time: the trace depends on the lengths and
    the direction, not on the key, the nonce, the data, the additional data. *)
Theorem br_poly1305_ctmul_constant_time {ichacha} {HI : ChachaRun ichacha} key1 key2 iv1 iv2 data1 data2 pos
    len aad1 aad2 aad_len tag1 tag2 o encrypt :
  32 <= zlen key1 -> 32 <= zlen key2 -> 12 <= zlen iv1 -> 12 <= zlen iv2 ->
  bytes key1 0 32 -> bytes key2 0 32 -> bytes iv1 0 12 -> bytes iv2 0 12 ->
  0 <= pos -> 0 <= len < 2 ^ 64 -> pos + len <= zlen data1 -> pos + len <= zlen data2 ->
  bytes data1 pos len -> bytes data2 pos len ->
  0 <= aad_len < 2 ^ 64 -> aad_len <= zlen aad1 -> aad_len <= zlen aad2 ->
  bytes aad1 0 aad_len -> bytes aad2 0 aad_len ->
  0 <= o -> o + 16 <= zlen tag1 -> o + 16 <= zlen tag2 ->
  exists t,
    trace (br_poly1305_ctmul_run ichacha key1 iv1 data1 pos len aad1 aad_len tag1 o encrypt) = Some t /\
    trace (br_poly1305_ctmul_run ichacha key2 iv2 data2 pos len aad2 aad_len tag2 o encrypt) = Some t.
Proof. intros. eapply ct_trace; [apply br_poly1305_ctmul_run_ct|by apply poly_run_ok|by apply poly_run_ok]. Qed.

(** * Runs *)

Definition zeros (n : nat) : list Z := replicate n 0.

Lemma br_poly1305_ctmul_run_correct_witness :
  let data := map Z.of_nat (seq 0 40) in
  ok (br_poly1305_ctmul_run br_chacha20_ct_run (zeros 32) (zeros 12) data 1 35 [1; 2; 3] 3 (zeros 16) 0 true)
    (fun '(d, t) => frame 1 36 data d /\ slice d 1 35 = chacha20 (zeros 32) 1 (zeros 12) (slice data 1 35) /\
      frame 0 16 (zeros 16) t /\
      (poly_exact (aead_acc (zeros 32) (zeros 12) data [1; 2; 3] 1 35 3 true) ->
        slice t 0 16 = aead_tag (zeros 32) (zeros 12) [1; 2; 3] (aead_ct (zeros 32) (zeros 12) data 1 35 true)) /\
      (slice t 0 16 = aead_tag (zeros 32) (zeros 12) [1; 2; 3] (aead_ct (zeros 32) (zeros 12) data 1 35 true) \/
       slice t 0 16 = tag_of (aead_acc (zeros 32) (zeros 12) data [1; 2; 3] 1 35 3 true - 4)
         (poly_s (poly_otk (zeros 32) (zeros 12))))).
Proof.
  intros data. apply (br_poly1305_ctmul_run_correct (zeros 32) (zeros 12));
    first [done | by apply limbsb_limbs].
Defined.

Lemma br_poly1305_ctmul_round_trip_witness :
  let data := map Z.of_nat (seq 0 40) in
  ok ('(data, tag1) ← br_poly1305_ctmul_run br_chacha20_ct_run (zeros 32) (zeros 12) data 1 35 [1; 2; 3] 3 (zeros 16) 0 true;
      '(data, tag2) ← br_poly1305_ctmul_run br_chacha20_ct_run (zeros 32) (zeros 12) data 1 35 [1; 2; 3] 3 (zeros 16) 0 false;
      mret (data, tag1, tag2)) (fun '(d, t1, t2) => d = data /\ t1 = t2).
Proof.
  intros data. apply (br_poly1305_ctmul_round_trip (zeros 32) (zeros 12));
    first [done | by apply limbsb_limbs].
Defined.

Lemma br_poly1305_ctmul_constant_time_witness :
  exists t, trace (br_poly1305_ctmul_run br_chacha20_ct_run (zeros 32) (zeros 12) (zeros 40) 1 35 [1; 2; 3] 3 (zeros 16) 0 true) = Some t /\
    trace (br_poly1305_ctmul_run br_chacha20_ct_run (replicate 32 7) (replicate 12 9) (map Z.of_nat (seq 0 40)) 1 35 [4; 5; 6] 3 (zeros 16) 0 true) = Some t.
Proof.
  apply br_poly1305_ctmul_constant_time; first [done | by apply limbsb_limbs].
Defined.

(** With a zero key and nonce and no data, these 16 bytes of additional data give
    an accumulator above 2^130. *)
Definition bad_aad : list Z := [251; 48; 189; 60; 192; 237; 61; 16; 117; 68; 223; 87; 77; 32; 247; 6].

Lemma bad_aad_run :
  ok (br_poly1305_ctmul_run br_chacha20_ct_run (zeros 32) (zeros 12) [] 0 0 bad_aad 16 (zeros 16) 0 true)
    (fun '(_, t) => slice t 0 16 <> aead_tag (zeros 32) (zeros 12) bad_aad []).
Proof. vm_compute. discriminate. Qed.

Lemma br_poly1305_ctmul_wrong_tag_witness :
  ok (br_poly1305_ctmul_run br_chacha20_ct_run (zeros 32) (zeros 12) [] 0 0 bad_aad 16 (zeros 16) 0 true)
    (fun '(_, t) => slice t 0 16 <> aead_tag (zeros 32) (zeros 12) bad_aad [] /\
      slice t 0 16 = tag_of (aead_acc (zeros 32) (zeros 12) [] bad_aad 0 0 16 true - 4) (poly_s (poly_otk (zeros 32) (zeros 12)))).
Proof.
  assert (H1 : bytes (zeros 32) 0 32) by (by apply limbsb_limbs). assert (H2 : bytes (zeros 12) 0 12) by (by apply limbsb_limbs).
  assert (H3 : bytes bad_aad 0 16) by (by apply limbsb_limbs). assert (H4 : bytes [] 0 0) by (intros i Hi; lia).
  pose proof (br_poly1305_ctmul_wrong_tag (zeros 32) (zeros 12) ltac:(done) ltac:(done) H1 H2 [] bad_aad (zeros 16) 0 0 16 0
    ltac:(done) ltac:(done) ltac:(done) H4 ltac:(done) ltac:(done) H3 ltac:(done) ltac:(done) true) as H.
  eapply ok_mono; [exact (ok_and _ _ _ H bad_aad_run)|]. intros [d t] [(tr & a & _ & _ & _ & Hright & Hwrong) Hne].
  split; [exact Hne|]. destruct (Z.lt_ge_cases (value5 a) (2 ^ 130)) as [Hlt|Hge].
  - destruct Hne. exact (Hright Hlt).
  - exact (proj1 (proj2 (Hwrong Hge))).
Defined.

(** The example of RFC 8439, section 2.5.2. *)
Example poly1305_rfc :
  poly1305 [133; 214; 190; 120; 87; 85; 109; 51; 127; 68; 82; 254; 66; 213; 6; 168; 1; 3; 128; 138;
    251; 13; 178; 253; 74; 191; 246; 175; 65; 73; 245; 27]
    [67; 114; 121; 112; 116; 111; 103; 114; 97; 112; 104; 105; 99; 32; 70; 111; 114; 117; 109;
    32; 82; 101; 115; 101; 97; 114; 99; 104; 32; 71; 114; 111; 117; 112] =
  [168; 6; 29; 193; 48; 81; 54; 198; 194; 43; 139; 175; 12; 1; 39; 169].
Proof. vm_compute. reflexivity. Qed.
