(* ===== verification/Md5Sha1.v ===== *)
(** The concatenation of MD5 and SHA-1 used by TLS 1.0 ([src/hash/md5sha1.c]):
    one buffer, two running states; an instance of [HashSpec] whose digest is
    [MD5 msg ++ SHA1 msg]. *)
From stdpp Require Import base tactics list numbers option.
From Stdlib Require Import ZArith Lia.
From S2P Require Import Prelude CtPrims Limbs Codec Hash Md5 Sha1.
Local Open Scope Z_scope.
Local Open Scope cword_scope.

(** * Code *)

(** The two chaining values. *)
Abbreviation vals := (list Z * list Z)%type.

Definition md5sha1_round (buf : list Z) (v : vals) : M vals :=
  val_md5 ← br_md5_round buf v.1;
  val_sha1 ← br_sha1_round buf v.2;
  mret (val_md5, val_sha1).

Definition br_md5sha1_init (cc : mdctx vals) : M (mdctx vals) :=
  val_md5 ← memcpy (cval cc).1 0 br_md5_IV 0 4;
  val_sha1 ← memcpy (cval cc).2 0 br_sha1_IV 0 5;
  mret (Mdctx (cbuf cc) (val_md5, val_sha1) 0).

Definition br_md5sha1_update (cc : mdctx vals) (data : list Z) (pos len : Z) : M (mdctx vals) :=
  md_update 64 md5sha1_round false cc data pos len.

Definition br_md5sha1_out (cc : mdctx vals) (dst : list Z) (o : Z) : M (list Z) :=
  '(buf, (val_md5, val_sha1)) ← md_prepad 64 56 md5sha1_round cc;
  let count := u64 (ccount cc << 3) in
  buf ← br_enc64le buf 56 count;
  val_md5 ← br_md5_round buf val_md5;
  buf ← br_enc64be buf 56 count;
  val_sha1 ← br_sha1_round buf val_sha1;
  dst ← br_range_enc32le dst o val_md5 4;
  br_range_enc32be dst (o + 16) val_sha1 5.

Definition br_md5sha1_state (cc : mdctx vals) (dst : list Z) (o : Z) : M (list Z * Z) :=
  dst ← br_range_enc32le dst o (cval cc).1 4;
  dst ← br_range_enc32be dst (o + 16) (cval cc).2 5;
  mret (dst, ccount cc).

Definition br_md5sha1_set_state (cc : mdctx vals) (stb : list Z) (o count : Z) : M (mdctx vals) :=
  val_md5 ← br_range_dec32le (cval cc).1 4 stb o;
  val_sha1 ← br_range_dec32be (cval cc).2 5 stb (o + 16);
  mret (Mdctx (cbuf cc) (val_md5, val_sha1) count).

Definition br_md5sha1_class : HashClass := {|
  hctx := mdctx vals;
  hash_auto := Mdctx (replicate 64 0) (replicate 4 0, replicate 5 0) 0;
  hash_size := 36;
  hash_block := 64;
  hash_state_size := 36;
  hash_init := br_md5sha1_init;
  hash_update := br_md5sha1_update;
  hash_out := br_md5sha1_out;
  hash_state := br_md5sha1_state;
  hash_set_state := br_md5sha1_set_state
|}.

(** * The two hash functions inside *)

Definition comp2 (buf : list Z) (v : vals) : vals := (md5_compress buf v.1, sha1_compress buf v.2).
Definition vok2 (v : vals) : Prop := md_vok md5_desc v.1 /\ md_vok sha1_desc v.2.
Definition iv2 : vals := (br_md5_IV, br_sha1_IV).

Lemma md5sha1_round_ok buf v : zlen buf = 64 -> byte_string buf -> vok2 v ->
  ok (md5sha1_round buf v) (fun v' => v' = comp2 buf v /\ vok2 v').
Proof.
  intros Hl HB [H1 H2]. unfold md5sha1_round.
  cstep. eapply ok_mono; [by apply md5_round_vok|]. intros v1 [-> ?].
  cstep. eapply ok_mono; [by apply sha1_round_vok|]. intros v2 [-> ?]. cstep. done.
Qed.

Lemma blocks2 msg n : blocks 64 comp2 iv2 msg n =
  (blocks 64 md5_compress br_md5_IV msg n, blocks 64 sha1_compress br_sha1_IV msg n).
Proof. induction n as [|n IH]; [done|]. cbn [blocks]. by rewrite IH. Qed.

Abbreviation rep2 := (mdrep 64 vok2 comp2 iv2).
Abbreviation rep2_0 := (mdrep0 64 vok2 comp2 iv2).

Lemma rep2_md5 c m : rep2_0 c m ->
  mdrep0 64 (md_vok md5_desc) md5_compress br_md5_IV (Mdctx (cbuf c) (cval c).1 0) m.
Proof. intros [H1 H2 [H3 _] H4 H5]. split; try done. cbn [cval]. by rewrite H4, blocks2. Qed.

Lemma rep2_sha1 c m : rep2_0 c m ->
  mdrep0 64 (md_vok sha1_desc) sha1_compress br_sha1_IV (Mdctx (cbuf c) (cval c).2 0) m.
Proof. intros [H1 H2 [_ H3] H4 H5]. split; try done. cbn [cval]. by rewrite H4, blocks2. Qed.

Lemma prepadded2 msg buf v :
  prepadded 64 56 vok2 comp2 iv2 msg buf v ->
  prepadded 64 56 (md_vok md5_desc) md5_compress br_md5_IV msg buf v.1 /\
  prepadded 64 56 (md_vok sha1_desc) sha1_compress br_sha1_IV msg buf v.2.
Proof.
  intros (c & m & z & HR & <- & HM).
  split; [exists (Mdctx (cbuf c) (cval c).1 0)|exists (Mdctx (cbuf c) (cval c).2 0)];
    exists m, z; (split; [by apply rep2_md5 || by apply rep2_sha1|done]).
Qed.

Lemma blit_blit d o a b n : 0 <= o -> 0 <= n -> o + n <= zlen d -> zlen a = n -> zlen b = n ->
  blit (blit d o a 0 n) o b 0 n = blit d o b 0 n.
Proof.
  intros Ho Hn Hl Ha Hb. assert (L : zlen (blit d o a 0 n) = zlen d) by (apply zlen_blit; lia).
  apply list_eq_get; rewrite !zlen_blit by lia; [done|]. intros i Hi.
  destruct (Z.lt_ge_cases i o); [|destruct (Z.lt_ge_cases i (o + n))].
  - by rewrite !get_blit_out by lia.
  - by rewrite !get_blit_in by lia.
  - by rewrite !get_blit_out by lia.
Qed.

(** * The specification *)

Lemma md5sha1_init_ok c : zlen (cbuf c) = 64 -> zlen (cval c).1 = 4 -> zlen (cval c).2 = 5 ->
  ok (br_md5sha1_init c) (fun c' => rep2 c' []).
Proof.
  intros Hb H1 H2. unfold br_md5sha1_init.
  assert (E1 : zlen br_md5_IV = 4) by done. assert (E2 : zlen br_sha1_IV = 5) by done.
  cstep. apply ok_memcpy; try lia.
  cstep. apply ok_memcpy; try lia. cstep.
  replace (blit (cval c).1 0 br_md5_IV 0 4) with br_md5_IV.
  2:{ apply list_eq_get; [rewrite zlen_blit; lia|]. intros i Hi. rewrite get_blit_in by lia. f_equal. lia. }
  replace (blit (cval c).2 0 br_sha1_IV 0 5) with br_sha1_IV.
  2:{ apply list_eq_get; [rewrite zlen_blit; lia|]. intros i Hi. rewrite get_blit_in by lia. f_equal. lia. }
  apply (md_init_ok 64 6); try done. split; [apply md5_iv_ok|apply sha1_iv_ok].
Qed.

(** The two encoders, one after the other. *)
Lemma enc2_ok dst o v1 v2 : 0 <= o -> o + 36 <= zlen dst -> md_vok md5_desc v1 -> md_vok sha1_desc v2 ->
  ok (dst ← br_range_enc32le dst o v1 4; br_range_enc32be dst (o + 16) v2 5) (fun d =>
    frame o (o + 36) dst d /\ slice d o 36 = le_words 4 v1 4 ++ be_words 4 v2 5).
Proof.
  intros Ho Hl [L1 W1] [L2 W2]. cbn [md_nv md5_desc sha1_desc] in *. cstep.
  eapply ok_mono; [apply (range_enc_le (HC:=codec32le) dst o v1 4); try done; lia|].
  intros d1 [HF1 HS1]. pose proof (frame_len _ _ _ _ HF1).
  eapply ok_mono; [apply (range_enc_be (HC:=codec32be) d1 (o + 16) v2 5); try done; lia|].
  intros d2 [HF2 HS2]. pose proof (frame_len _ _ _ _ HF2). split.
  - split; [lia|]. intros j Hj Hj'. rewrite (frame_get _ _ _ _ _ HF2), (frame_get _ _ _ _ _ HF1); lia || done.
  - change 36 with (4 * 4 + 4 * 5). rewrite slice_split by lia. f_equal; [|done].
    rewrite <- HS1. apply (slice_frame _ _ o (4 * 4) _ _ HF2); lia.
Qed.

Lemma md5sha1_out_ok c msg dst o : rep2 c msg -> 0 <= o -> o + 36 <= zlen dst ->
  ok (br_md5sha1_out c dst o) (fun d => frame o (o + 36) dst d /\
    slice d o 36 = MD5 msg ++ SHA1 msg).
Proof.
  intros HR Ho Hl. unfold br_md5sha1_out. cstep.
  eapply ok_mono; [apply (md_prepad_ok 64 56 md5sha1_round 6 eq_refl ltac:(lia) ltac:(lia) vok2 comp2
    md5sha1_round_ok iv2 c msg HR)|].
  intros [buf [v1 v2]] HP. cbv zeta. rewrite (rep_count _ _ _ _ _ _ HR).
  assert (Hb : zlen buf = 64) by (by destruct HP as (? & ? & ? & ? & ? & ? & ? & ? & ?)).
  destruct (prepadded2 _ _ _ HP) as [HP1 HP2]. cbn [fst snd] in HP1, HP2.
  destruct (md5_lenf_ok (u64 (zlen msg))) as [Ll Lb], (sha1_lenf_ok (u64 (zlen msg))) as [Ll' Lb'].
  cstep. eapply ok_mono; [apply md5_len_ok; [done|apply u64_word]|]. intros b1 ->.
  cstep. eapply ok_mono; [apply (prepadded_round 64 56 br_md5_round 6 eq_refl ltac:(lia) ltac:(lia)
    _ md5_compress md5_round_vok br_md5_IV msg buf v1 _ HP1 Ll Lb)|]. intros w1 [E1 V1].
  assert (Hb1 : zlen (blit buf 56 (md5_lenf (u64 (zlen msg))) 0 (64 - 56)) = 64)
    by (rewrite zlen_blit; lia).
  cstep. eapply ok_mono; [apply sha1_len_ok; [done|apply u64_word]|]. intros b2 ->.
  rewrite blit_blit by lia.
  cstep. eapply ok_mono; [apply (prepadded_round 64 56 br_sha1_round 6 eq_refl ltac:(lia) ltac:(lia)
    _ sha1_compress sha1_round_vok br_sha1_IV msg buf v2 _ HP2 Ll' Lb')|]. intros w2 [E2 V2].
  eapply ok_mono; [by apply enc2_ok|]. intros d [HF HS]. split; [done|]. rewrite HS.
  unfold MD5, SHA1, md_hash. rewrite !md_pad_padded. by rewrite E1, E2.
Qed.

Definition state2 (msg : list Z) : list Z :=
  let v := blocks 64 comp2 iv2 msg (Z.to_nat (zlen msg / 64)) in
  le_words 4 v.1 4 ++ be_words 4 v.2 5.

Lemma md5sha1_set_state_ok c msg st o :
  zlen (cbuf c) = 64 -> zlen (cval c).1 = 4 -> zlen (cval c).2 = 5 -> byte_string msg ->
  zlen msg mod 64 = 0 -> 0 <= o -> o + 36 <= zlen st -> slice st o 36 = state2 msg ->
  ok (br_md5sha1_set_state c st o (u64 (zlen msg))) (fun c' => rep2 c' msg).
Proof.
  intros Hb H1 H2 Hm Hm0 Ho Hl HS. unfold br_md5sha1_set_state. unfold state2 in HS. cbv zeta in HS.
  assert (HV : vok2 (blocks 64 comp2 iv2 msg (Z.to_nat (zlen msg / 64)))).
  { apply (blocks_vok 64 md5sha1_round 6 eq_refl ltac:(lia) vok2 comp2 md5sha1_round_ok iv2);
      [split; [apply md5_iv_ok|apply sha1_iv_ok]|done|].
    rewrite Z2Nat.id by (apply Z.div_pos; lia). apply Z.mul_div_le. lia. }
  set (u := blocks 64 comp2 iv2 msg _) in *. destruct HV as [[L1 W1] [L2 W2]].
  cbn [md_nv md5_desc sha1_desc] in *. change 36 with (4 * 4 + 4 * 5) in HS.
  rewrite slice_split in HS by lia. apply app_inj_1 in HS as [HS1 HS2].
  2:{ apply Nat2Z.inj. rewrite zlen_slice, zlen_le_words by lia. done. }
  cstep. eapply ok_mono; [apply (wb_dec (WordBytes:=word_bytes_le (HC:=codec32le)) _ u.1); try done; lia|].
  intros v1 [HF1 HG1]. cstep.
  eapply ok_mono; [apply (wb_dec (WordBytes:=word_bytes_be (HC:=codec32be)) _ u.2); try done; lia|].
  intros v2 [HF2 HG2]. cstep.
  assert (v1 = u.1) as -> by (apply list_eq_get; rewrite (frame_len _ _ _ _ HF1); [lia|intros; apply HG1; lia]).
  assert (v2 = u.2) as -> by (apply list_eq_get; rewrite (frame_len _ _ _ _ HF2); [lia|intros; apply HG2; lia]).
  split; [|done]. split; cbn [cbuf cval]; try done.
  - fold u. by destruct u.
  - by rewrite Hm0, !slice_nil.
Qed.

#[export] Instance br_md5sha1_spec : HashSpec br_md5sha1_class.
Proof.
  refine (Build_HashSpec br_md5sha1_class
    (fun c : mdctx vals => zlen (cbuf c) = 64 /\ zlen (cval c).1 = 4 /\ zlen (cval c).2 = 5)
    (fun (c : mdctx vals) msg => rep2 c msg) (fun msg => MD5 msg ++ SHA1 msg) state2 _ _ _ _ _ _ _ _ _ _ _ _ _);
    try done.
  - intros msg. apply byte_string_app. split; [apply le_words_bytes|apply be_words_bytes].
  - intros c msg [[H1 _ [[H2 _] [H3 _]] _ _] _]. done.
  - intros c msg [[_ H _ _ _] _]. done.
  - intros c (H1 & H2 & H3). by apply md5sha1_init_ok.
  - intros c msg data o len HR Ho Hlen Hl HD.
    apply (md_update_ok 64 56 md5sha1_round 6 eq_refl ltac:(lia) ltac:(lia) vok2 comp2 md5sha1_round_ok
      iv2 false c); done.
  - intros c msg dst o. apply md5sha1_out_ok.
  - intros c msg dst o [[H1 H2 [H3 H3'] H4 H5] HC] Ho Hl. cbn [hash_state br_md5sha1_class].
    unfold br_md5sha1_state. apply (ok_assoc (br_range_enc32le dst o (cval c).1 4)). cstep. eapply ok_mono; [by apply enc2_ok|].
    intros d [HF HS]. cstep. split; [done|]. split; [done|]. intros _. change (slice d o 36 = state2 msg). rewrite HS.
    unfold state2. by rewrite <- H4.
  - intros c msg st o (H1 & H2 & H3). by apply md5sha1_set_state_ok.
Defined.

(** * The three legacy functions *)

(** Whatever the chunks a message is injected in, MD5, SHA-1 and their
    concatenation are written at [dst + o]; nothing else is modified. *)
Theorem md5_sha1_stream_correct (c : mdctx (list Z)) (c2 : mdctx vals) chunks dst o :
  zlen (cbuf c) = 64 -> zlen (cbuf c2) = 64 -> zlen (cval c2).1 = 4 -> zlen (cval c2).2 = 5 ->
  Forall byte_string chunks -> 0 <= o ->
  let good (m : M (list Z)) (h : list Z) n :=
    o + n <= zlen dst -> ok m (fun d => frame o (o + n) dst d /\ slice d o n = h) in
  let msg := concat chunks in
  (zlen (cval c) = 4 -> good (hash_stream (HC:=br_md5_class) c chunks dst o) (MD5 msg) 16) /\
  (zlen (cval c) = 5 -> good (hash_stream (HC:=br_sha1_class) c chunks dst o) (SHA1 msg) 20) /\
  good (hash_stream (HC:=br_md5sha1_class) c2 chunks dst o) (MD5 msg ++ SHA1 msg) 36.
Proof.
  intros Hb Hb2 H1 H2 HF Ho good msg. split; [|split].
  - intros Hv Hl. by apply (hash_stream_ok (HS:=br_md5_spec)).
  - intros Hv Hl. by apply (hash_stream_ok (HS:=br_sha1_spec)).
  - intros Hl. by apply (hash_stream_ok (HS:=br_md5sha1_spec)).
Qed.

Lemma md5_sha1_stream_correct_witness :
  ok (hash_stream (HC:=br_md5sha1_class) (Mdctx (replicate 64 1) (replicate 4 2, replicate 5 3) 4)
      [[0x61]; [0x62; 0x63]] (replicate 40 0) 2) (fun d => frame 2 38 (replicate 40 0) d /\
    slice d 2 36 = MD5 [0x61; 0x62; 0x63] ++ SHA1 [0x61; 0x62; 0x63]).
Proof.
  assert (HF : Forall byte_string [[0x61]; [0x62; 0x63]]) by (by repeat constructor).
  destruct (md5_sha1_stream_correct (Mdctx (replicate 64 0) (replicate 4 0) 0)
    (Mdctx (replicate 64 1) (replicate 4 2, replicate 5 3) 4) [[0x61]; [0x62; 0x63]] (replicate 40 0) 2
    eq_refl eq_refl eq_refl eq_refl HF ltac:(lia)) as (_ & _ & H). apply H. simpl. lia.
Defined.

(** The code on the message "abc": the vectors of RFC 1321 and FIPS 180-4. *)
Example md5_sha1_vectors :
  option_map snd (hash_stream (HC:=br_md5sha1_class) (Mdctx (replicate 64 0) (replicate 4 0, replicate 5 0) 0)
    [[0x61; 0x62; 0x63]] (replicate 36 0) 0) =
  Some (be_words 4 [0x90015098; 0x3CD24FB0; 0xD6963F7D; 0x28E17F72; 0xA9993E36; 0x4706816A;
    0xBA3E2571; 0x7850C26C; 0x9CD0D89D] 9).
Proof. vm_compute. done. Qed.
