(* ===== verification/Hmac.v ===== *)
(** HMAC ([src/mac/hmac.c]) over any hash function: the code, written against
    the class [HashClass], computes the HMAC of RFC 2104 for every instance of
    [HashSpec]. *)
From stdpp Require Import base tactics list numbers option.
From Stdlib Require Import ZArith Lia.
From S2P Require Import Prelude CtPrims Limbs Codec Hash Sha2.
Local Open Scope Z_scope.
Local Open Scope cword_scope.

Section Code.
Context {HC : HashClass}.

(** [br_hmac_key_context]: the running states after the two padded keys. *)
Record hmac_key := HmacKey { ksi : list Z; key_kso : list Z }.

(** [br_hmac_context]. *)
Record hmac_ctx := HmacCtx { hm_dig : hctx; hm_kso : list Z; hm_out_len : Z }.

Definition process_key (hc : hctx) (ks key : list Z) (key_len bb : Z) : M (hctx * list Z) :=
  let blen := hash_block in
  let tmp := replicate 256 0 in
  tmp ← memcpy tmp 0 key 0 key_len;
  tmp ← for_up 0 key_len (fun u tmp => x ← load tmp u; store tmp u (x .^ u8 bb)) tmp;
  tmp ← memset tmp key_len bb (blen - key_len);
  hc ← hash_init hc;
  hc ← hash_update hc tmp 0 blen;
  '(ks, _) ← hash_state hc ks 0;
  mret (hc, ks).

Definition br_hmac_key_init (kc : hmac_key) (key : list Z) (key_len : Z) : M hmac_key :=
  let hc := hash_auto in
  let kbuf := replicate 64 0 in
  '(hc, key, key_len) ← (If hash_block <? key_len Then
      hc ← hash_init hc;
      hc ← hash_update hc key 0 key_len;
      kbuf ← hash_out hc kbuf 0;
      mret (hc, kbuf, hash_size)
    Else mret (hc, key, key_len));
  '(hc, ksi) ← process_key hc (ksi kc) key key_len 0x36;
  '(hc, kso) ← process_key hc (key_kso kc) key key_len 0x5C;
  mret (HmacKey ksi kso).

Definition br_hmac_init (ctx : hmac_ctx) (kc : hmac_key) (out_len : Z) : M hmac_ctx :=
  let blen := hash_block in
  dig ← hash_init (hm_dig ctx);
  dig ← hash_set_state dig (ksi kc) 0 blen;
  kso ← memcpy (hm_kso ctx) 0 (key_kso kc) 0 64;
  let hlen := hash_size in
  hlen ← (If 0 <? out_len Then (If out_len <? hlen Then mret out_len Else mret hlen)
    Else mret hlen);
  mret (HmacCtx dig kso hlen).

Definition br_hmac_update (ctx : hmac_ctx) (data : list Z) (pos len : Z) : M hmac_ctx :=
  dig ← hash_update (hm_dig ctx) data pos len;
  mret (HmacCtx dig (hm_kso ctx) (hm_out_len ctx)).

Definition br_hmac_out (ctx : hmac_ctx) (out : list Z) (o : Z) : M (list Z * Z) :=
  let tmp := replicate 64 0 in
  tmp ← hash_out (hm_dig ctx) tmp 0;
  let blen := hash_block in
  hc ← hash_init hash_auto;
  hc ← hash_set_state hc (hm_kso ctx) 0 blen;
  let hlen := hash_size in
  hc ← hash_update hc tmp 0 hlen;
  tmp ← hash_out hc tmp 0;
  out ← memcpy out o tmp 0 (hm_out_len ctx);
  mret (out, hm_out_len ctx).

(** Automatic key and computation contexts of the clients. *)
Definition auto_key : hmac_key := HmacKey (replicate 64 0) (replicate 64 0).
Definition auto_hmac : hmac_ctx := HmacCtx hash_auto (replicate 64 0) 0.

(** A key, a message in chunks, the output. *)
Fixpoint hmac_updates (ctx : hmac_ctx) (chunks : list (list Z)) : M hmac_ctx :=
  match chunks with
  | [] => mret ctx
  | d :: chunks => ctx ← br_hmac_update ctx d 0 (zlen d); hmac_updates ctx chunks
  end.
Definition hmac_stream (key : list Z) (out_len : Z) (chunks : list (list Z)) (out : list Z) (o : Z)
    : M (list Z * Z) :=
  kc ← br_hmac_key_init auto_key key (zlen key);
  ctx ← br_hmac_init auto_hmac kc out_len;
  ctx ← hmac_updates ctx chunks;
  br_hmac_out ctx out o.
End Code.
Arguments hmac_ctx : clear implicits.

(** * RFC 2104 *)

Section Spec.
Context {HC : HashClass} {HS : HashSpec HC}.

(** The key, hashed when it is longer than a block, and padded with zeros. *)
Definition block_key (K : list Z) : list Z :=
  let K := if hash_block <? zlen K then digest K else K in
  K ++ replicate (Z.to_nat (hash_block - zlen K)) 0.
Definition key_pad (bb : Z) (K : list Z) : list Z := map (fun x => x .^ bb) (block_key K).
Definition HMAC (K msg : list Z) : list Z :=
  digest (key_pad 0x5C K ++ digest (key_pad 0x36 K ++ msg)).

Lemma HMAC_len K msg : zlen (HMAC K msg) = hash_size.
Proof. apply digest_len. Qed.
Lemma HMAC_bytes K msg : byte_string (HMAC K msg).
Proof. apply digest_bytes. Qed.

Lemma hash_size_le : hash_size <= hash_block.
Proof. pose proof hash_size_pos. pose proof hash_block_pos. lia. Qed.

Lemma zlen_block_key K : zlen (block_key K) = hash_block.
Proof.
  pose proof hash_size_le. unfold block_key. cbv zeta.
  rewrite zlen_app, length_replicate. case_match eqn:E.
  - rewrite digest_len. lia.
  - apply Z.ltb_ge in E. lia.
Qed.

Lemma zlen_key_pad bb K : zlen (key_pad bb K) = hash_block.
Proof. unfold key_pad. rewrite length_map. apply zlen_block_key. Qed.

Lemma xor_byte x b : word 8 x -> word 8 b -> word 8 (x .^ b).
Proof. by apply word_lxor. Qed.

Lemma xor_bytes l b : byte_string l -> word 8 b -> Forall (fun x => word 8 (x .^ b)) l.
Proof. intros Hl Hb. eapply Forall_impl; [|exact Hl]. intros x Hx. by apply xor_byte. Qed.

Lemma key_pad_bytes bb K : word 8 bb -> byte_string K -> byte_string (key_pad bb K).
Proof.
  intros Hb HK. apply Forall_map. unfold block_key. cbv zeta. apply Forall_app. split.
  - apply xor_bytes; [|done]. case_match; [apply digest_bytes|done].
  - apply Forall_replicate. by apply xor_byte.
Qed.

(** * The code *)

Lemma get_map_xor bb (l : list Z) i : 0 <= i < zlen l ->
  get (map (fun x => x .^ bb) l) i = get l i .^ bb.
Proof.
  intros Hi. rewrite !get_lookup, list_lookup_fmap.
  destruct (lookup_lt_is_Some_2 l (Z.to_nat i) ltac:(lia)) as [x Hx]. by rewrite Hx.
Qed.

(** The loop that masks the key. *)
Lemma xor_loop_ok bb tmp n : 0 <= n <= zlen tmp -> u8 bb = bb ->
  ok (for_up 0 n (fun u tmp => x ← load tmp u; store tmp u (x .^ u8 bb)) tmp) (fun t =>
    zlen t = zlen tmp /\ (forall i, 0 <= i < n -> get t i = get tmp i .^ bb)).
Proof.
  intros Hn Hb. apply (ok_for_up (fun u t => zlen t = zlen tmp /\
    (forall i, 0 <= i < u -> get t i = get tmp i .^ bb) /\
    (forall i, u <= i < zlen tmp -> get t i = get tmp i))).
  - lia.
  - split; [done|]. split; intros; [lia|done].
  - intros u t Hu (Hl & H1 & H2). csteps. rewrite Hb. split; [by rewrite zlen_upd|]. split.
    + intros i Hi. destruct (Z.eq_dec i u) as [->|]; [by rewrite get_upd_eq, H2 by lia|].
      rewrite get_upd_ne by lia. apply H1. lia.
    + intros i Hi. rewrite get_upd_ne by lia. apply H2. lia.
  - intros t (Hl & H1 & _). done.
Qed.

Lemma process_key_ok hc ks key key_len bb :
  hshape hc -> zlen ks = 64 -> 0 <= key_len <= hash_block -> key_len <= zlen key ->
  bytes key 0 key_len -> u8 bb = bb -> word 8 bb ->
  ok (process_key hc ks key key_len bb) (fun '(hc', ks') => hshape hc' /\ zlen ks' = 64 /\
    slice ks' 0 hash_state_size = hstate (map (fun x => x .^ bb)
      (slice key 0 key_len ++ replicate (Z.to_nat (hash_block - key_len)) 0))).
Proof.
  intros Hc Hks Hn Hl HB Hb Hbb. pose proof hash_block_pos as Hbl. unfold process_key. cbv zeta.
  cstep. apply ok_memcpy; rewrite ?length_replicate; try lia.
  set (t0 := blit (replicate 256 0) 0 key 0 key_len).
  assert (L0 : zlen t0 = 256) by (unfold t0; rewrite zlen_blit; rewrite ?length_replicate; lia).
  cstep. eapply ok_mono; [apply (xor_loop_ok bb t0 key_len); [lia|done]|].
  intros t1 [L1 H1]. cstep. apply ok_memset; try lia.
  set (t2 := fillz t1 key_len bb (hash_block - key_len)).
  assert (L2 : zlen t2 = 256) by (unfold t2; rewrite zlen_fillz; lia).
  set (p := map _ _).
  assert (ES : slice t2 0 hash_block = p).
  { assert (Lp : zlen p = hash_block)
      by (unfold p; rewrite length_map, zlen_app, zlen_slice, length_replicate by lia; lia).
    apply list_eq_get; rewrite zlen_slice by lia; [done|]. intros i Hi.
    rewrite get_slice by lia. unfold p, t2. rewrite Z.add_0_l.
    rewrite get_map_xor by (rewrite zlen_app, zlen_slice, length_replicate by lia; lia).
    destruct (Z.lt_ge_cases i key_len).
    - rewrite get_fillz_out, H1, get_app_l, get_slice by (rewrite ?zlen_slice; lia).
      unfold t0. rewrite get_blit_in by (rewrite ?length_replicate; lia). f_equal. f_equal. lia.
    - rewrite get_fillz_in, get_app_r by (rewrite ?zlen_slice; lia).
      rewrite zlen_slice, get_replicate by lia. by rewrite Z.lxor_0_l. }
  assert (Bp : byte_string p).
  { apply Forall_map, Forall_app. split.
    - apply xor_bytes; [apply byte_string_slice; done || lia|done].
    - apply Forall_replicate. by apply xor_byte. }
  assert (Lp : zlen p = hash_block) by (rewrite <- ES; apply zlen_slice; lia).
  cstep. eapply ok_mono; [by apply hash_init_ok|]. intros c1 R1.
  cstep. eapply ok_mono.
  { apply (hash_update_ok c1 [] t2 0 hash_block R1); try lia. intros i Hi.
    replace i with (0 + i) by lia. rewrite <- (get_slice t2 0 hash_block i) by lia. rewrite ES.
    apply (proj1 (bytes_get _) Bp). lia. }
  intros c2 R2. rewrite ES in R2. cbn [app] in R2. pose proof hash_state_size_pos.
  cstep. eapply ok_mono; [apply (hash_state_ok c2 p ks 0 R2); lia|].
  intros [ks' n] (HF & _ & HS'). cstep. split; [by eapply hrep_shape|].
  split; [rewrite (frame_len _ _ _ _ HF); lia|]. apply HS'. rewrite Lp. apply Z.mod_same. lia.
Qed.

(** The context of a key: the running states after its two pads. *)
Record key_rep (kc : hmac_key) (K : list Z) : Prop := KeyRep {
  key_bytes : byte_string K;
  key_ksi_len : zlen (ksi kc) = 64;
  key_kso_len : zlen (key_kso kc) = 64;
  key_ksi : slice (ksi kc) 0 hash_state_size = hstate (key_pad 0x36 K);
  key_kso_state : slice (key_kso kc) 0 hash_state_size = hstate (key_pad 0x5C K)
}.

(** A running HMAC computation. *)
Record hmac_rep (ctx : hmac_ctx HC) (K : list Z) (n : Z) (msg : list Z) : Prop := HmacRep {
  hmac_key_bytes : byte_string K;
  hmac_dig : hrep (hm_dig ctx) (key_pad 0x36 K ++ msg);
  hmac_kso_len : zlen (hm_kso ctx) = 64;
  hmac_kso : slice (hm_kso ctx) 0 hash_state_size = hstate (key_pad 0x5C K);
  hmac_out_len : hm_out_len ctx = n
}.

Definition key_shape (kc : hmac_key) : Prop := zlen (ksi kc) = 64 /\ zlen (key_kso kc) = 64.
Definition hmac_shape (ctx : hmac_ctx HC) : Prop := hshape (hm_dig ctx) /\ zlen (hm_kso ctx) = 64.

Lemma key_rep_shape kc K : key_rep kc K -> key_shape kc.
Proof. by intros []. Qed.
Lemma hmac_rep_shape ctx K n msg : hmac_rep ctx K n msg -> hmac_shape ctx.
Proof. intros [? H ? ? ?]. split; [by eapply hrep_shape|done]. Qed.
Lemma auto_key_shape : key_shape auto_key.
Proof. done. Qed.
Lemma auto_hmac_shape : hmac_shape auto_hmac.
Proof. split; [apply hash_auto_ok|done]. Qed.

Lemma hmac_key_init_ok kc key key_len :
  key_shape kc -> 0 <= key_len <= zlen key -> bytes key 0 key_len ->
  ok (br_hmac_key_init kc key key_len) (fun kc' => key_rep kc' (slice key 0 key_len)).
Proof.
  intros [H1 H2] Hl HB. unfold br_hmac_key_init. cbv zeta. set (K := slice key 0 key_len).
  assert (HK : zlen K = key_len) by (apply zlen_slice; lia).
  assert (HKB : byte_string K) by (apply byte_string_slice; done || lia).
  pose proof hash_size_pos. pose proof hash_size_le. cstep.
  apply (ok_mono _ (fun '(hc, key', n) => hshape hc /\ 0 <= n <= hash_block /\ n <= zlen key' /\
    bytes key' 0 n /\ slice key' 0 n ++ replicate (Z.to_nat (hash_block - n)) 0 = block_key K)).
  { apply ok_cond; intros Hc.
    - cstep. eapply ok_mono; [apply hash_init_ok, hash_auto_ok|]. intros c1 R1.
      cstep. eapply ok_mono; [apply (hash_update_ok c1 [] key 0 key_len R1); done || lia|].
      intros c2 R2. cstep.
      eapply ok_mono; [apply (hash_out_ok c2 _ (replicate 64 0) 0 R2); rewrite ?length_replicate; lia|].
      intros kb [HF HS']. pose proof (frame_len _ _ _ _ HF) as L. rewrite length_replicate in L. cstep.
      split; [by apply (hrep_shape _ _ R2)|]. split; [lia|]. split; [lia|]. cbn [app] in HS'. fold K in HS'. split.
      + intros i Hi. replace i with (0 + i) by lia. rewrite <- (get_slice kb 0 hash_size) by lia.
        rewrite HS'. apply (proj1 (bytes_get _) (digest_bytes _)). rewrite digest_len. lia.
      + rewrite HS'. unfold block_key. cbv zeta. rewrite HK, Hc. by rewrite digest_len.
    - cstep. pose proof Hc as Hc'. apply Z.ltb_ge in Hc'. split; [apply hash_auto_ok|]. split; [lia|]. split; [lia|].
      split; [done|]. fold K. unfold block_key. cbv zeta. by rewrite HK, Hc, HK. }
  intros [[hc key'] n] (Hs & Hn & Hn' & HB' & HK').
  cstep. eapply ok_mono; [apply (process_key_ok hc (ksi kc) key' n 0x36); done || lia|].
  intros [hc1 k1] (Hs1 & L1 & S1). rewrite HK' in S1.
  cstep. eapply ok_mono; [apply (process_key_ok hc1 (key_kso kc) key' n 0x5C); done || lia|].
  intros [hc2 k2] (Hs2 & L2 & S2). rewrite HK' in S2. cstep. by split.
Qed.

Lemma pad_block bb K : zlen (key_pad bb K) mod hash_block = 0.
Proof. rewrite zlen_key_pad. pose proof hash_block_pos. apply Z.mod_same. lia. Qed.

Lemma pad_u64 bb K : hash_block = u64 (zlen (key_pad bb K)).
Proof. rewrite zlen_key_pad. pose proof hash_block_pos. symmetry. apply u64_small. unfold word. lia. Qed.

(** The output length of [br_hmac_init]. *)
Definition hmac_len (n : Z) : Z := if (0 <? n) && (n <? hash_size) then n else hash_size.

Lemma hmac_init_ok ctx kc K n :
  hmac_shape ctx -> key_rep kc K ->
  ok (br_hmac_init ctx kc n) (fun ctx' => hmac_rep ctx' K (hmac_len n) []).
Proof.
  intros [Hs Hk] [HK L1 L2 S1 S2]. unfold br_hmac_init. cbv zeta. pose proof hash_state_size_pos.
  cstep. eapply ok_mono; [by apply hash_init_ok|]. intros c1 R1. cstep.
  rewrite (pad_u64 0x36 K). eapply ok_mono.
  { apply hash_set_state_ok; try done; [by apply (hrep_shape _ _ R1)|by apply key_pad_bytes|apply pad_block|lia]. }
  intros c2 R2. cstep. apply ok_memcpy; try lia. cstep.
  apply (ok_mono _ (fun l => l = hmac_len n)).
  { unfold hmac_len. apply ok_cond; intros E1; rewrite E1; [|by cstep].
    apply ok_cond; intros E2; rewrite E2; by cstep. }
  intros l ->. cstep. split; cbn [hm_dig hm_kso hm_out_len]; try done.
  - by rewrite app_nil_r.
  - rewrite zlen_blit; lia.
  - rewrite <- S2. rewrite <- (slice_all (key_kso kc) 64 L2) at 2.
    replace 64 with (hash_state_size + (64 - hash_state_size)) by lia.
    set (d := blit _ _ _ _ _). assert (Ed : d = key_kso kc).
    { unfold d. apply list_eq_get; [rewrite zlen_blit; lia|]. intros i Hi.
      rewrite zlen_blit in Hi by lia. rewrite get_blit_in by lia. f_equal. lia. }
    rewrite Ed. f_equal. rewrite slice_all; [done|lia].
Qed.

Lemma hmac_update_ok ctx K n msg data pos len :
  hmac_rep ctx K n msg -> 0 <= pos -> 0 <= len -> pos + len <= zlen data -> bytes data pos len ->
  ok (br_hmac_update ctx data pos len) (fun ctx' => hmac_rep ctx' K n (msg ++ slice data pos len)).
Proof.
  intros [HK HR L S Hn] Hp Hl Hd HB. unfold br_hmac_update. cstep.
  eapply ok_mono; [by apply (hash_update_ok _ (key_pad 0x36 K ++ msg))|]. intros c R. cstep.
  split; cbn [hm_dig hm_kso hm_out_len]; try done. by rewrite app_assoc.
Qed.

(** The second pass, from the inner digest. *)
Lemma hmac_outer_ok c K msg kso tmp n out o :
  hshape c -> byte_string K -> zlen kso = 64 ->
  slice kso 0 hash_state_size = hstate (key_pad 0x5C K) ->
  zlen tmp = 64 -> slice tmp 0 hash_size = digest (key_pad 0x36 K ++ msg) ->
  0 < n <= hash_size -> 0 <= o -> o + n <= zlen out ->
  ok (hc ← hash_init c;
      hc ← hash_set_state hc kso 0 hash_block;
      hc ← hash_update hc tmp 0 hash_size;
      tmp ← hash_out hc tmp 0;
      out ← memcpy out o tmp 0 n;
      mret (out, n))
    (fun '(d, k) => k = n /\ frame o (o + n) out d /\ slice d o n = take (Z.to_nat n) (HMAC K msg)).
Proof.
  intros Hc HK L S L1 S1 Hn Ho Hl. pose proof hash_state_size_pos. pose proof hash_size_pos.
  cstep. eapply ok_mono; [by apply hash_init_ok|]. intros c1 R1. cstep.
  rewrite (pad_u64 0x5C K). eapply ok_mono.
  { apply hash_set_state_ok; try done; [by apply (hrep_shape _ _ R1)|by apply key_pad_bytes|apply pad_block|lia]. }
  intros c2 R2. cstep. eapply ok_mono.
  { apply (hash_update_ok c2 _ tmp 0 hash_size R2); try lia. intros i Hi.
    replace i with (0 + i) by lia. rewrite <- (get_slice tmp 0 hash_size) by lia. rewrite S1.
    apply (proj1 (bytes_get _) (digest_bytes _)). rewrite digest_len. lia. }
  intros c3 R3. rewrite S1 in R3. cstep.
  eapply ok_mono; [apply (hash_out_ok c3 _ tmp 0 R3); lia|].
  intros t2 [F2 S2]. pose proof (frame_len _ _ _ _ F2). cstep.
  apply ok_memcpy; try lia. cstep. split; [done|]. split; [apply frame_blit; lia|].
  rewrite slice_blit_in by lia. unfold HMAC. rewrite <- S2.
  unfold slice. rewrite take_take. f_equal. lia.
Qed.

Lemma hmac_out_ok ctx K n msg out o :
  hmac_rep ctx K n msg -> 0 < n <= hash_size -> 0 <= o -> o + n <= zlen out ->
  ok (br_hmac_out ctx out o) (fun '(d, k) => k = n /\ frame o (o + n) out d /\
    slice d o n = take (Z.to_nat n) (HMAC K msg)).
Proof.
  intros [HK HR L S Hn] Hn' Ho Hl. unfold br_hmac_out. cbv zeta. rewrite Hn. pose proof hash_size_pos.
  cstep. eapply ok_mono; [apply (hash_out_ok _ _ (replicate 64 0) 0 HR); rewrite ?length_replicate; lia|].
  intros t1 [F1 S1]. pose proof (frame_len _ _ _ _ F1) as L1. rewrite length_replicate in L1.
  apply (hmac_outer_ok hash_auto K msg); try done. apply hash_auto_ok.
Qed.

(** The whole tag. *)
Lemma hmac_out_full ctx K msg out o :
  hmac_rep ctx K hash_size msg -> 0 <= o -> o + hash_size <= zlen out ->
  ok (br_hmac_out ctx out o) (fun '(d, k) => k = hash_size /\ frame o (o + hash_size) out d /\
    slice d o hash_size = HMAC K msg).
Proof.
  intros HR Ho Hl. pose proof hash_size_pos. eapply ok_mono; [apply (hmac_out_ok _ K hash_size msg); done || lia|].
  intros [d k] (Hk & HF & HS'). split; [done|]. split; [done|]. rewrite HS'. apply take_ge.
  pose proof (HMAC_len K msg). lia.
Qed.

Lemma hmac_updates_ok chunks : forall ctx K n msg,
  hmac_rep ctx K n msg -> Forall byte_string chunks ->
  ok (hmac_updates ctx chunks) (fun ctx' => hmac_rep ctx' K n (msg ++ concat chunks)).
Proof.
  induction chunks as [|d l IH]; intros ctx K n msg HR HF; cbn [hmac_updates].
  - cstep. cbn [concat]. by rewrite app_nil_r.
  - apply Forall_cons_iff in HF as [Hd Hl]. cstep.
    eapply ok_mono; [apply (hmac_update_ok ctx K n msg); try done; [lia..|by apply bytes_get]|].
    intros c HR'. rewrite slice_all in HR' by done.
    eapply ok_mono; [by apply (IH c K n (msg ++ d))|]. cbn [concat]. intros c' H.
    by rewrite <- (app_assoc msg) in H.
Qed.

Lemma hmac_len_range n : 0 < hmac_len n <= hash_size.
Proof.
  pose proof hash_size_pos. unfold hmac_len. case_match eqn:E; [|lia].
  apply andb_true_iff in E as [?%Z.ltb_lt ?%Z.ltb_lt]. lia.
Qed.

(** For every hash function of the interface, every key and every way to cut a
    message in chunks, the HMAC code returns the (truncated) tag of RFC 2104,
    and modifies nothing but the tag. *)
Theorem hmac_stream_correct key out_len chunks out o :
  byte_string key -> Forall byte_string chunks ->
  0 <= o -> o + hmac_len out_len <= zlen out ->
  ok (hmac_stream key out_len chunks out o) (fun '(d, n) =>
    n = hmac_len out_len /\ frame o (o + n) out d /\
    slice d o n = take (Z.to_nat n) (HMAC key (concat chunks))).
Proof.
  intros HK HF Ho Hl. pose proof (hmac_len_range out_len). unfold hmac_stream.
  cstep. eapply ok_mono; [apply (hmac_key_init_ok auto_key key (zlen key)); [done|lia|by apply bytes_get]|].
  intros kc HR. rewrite slice_all in HR by done.
  cstep. eapply ok_mono; [apply hmac_init_ok; [apply auto_hmac_shape|done]|].
  intros ctx HR'. cstep. eapply ok_mono; [by apply (hmac_updates_ok chunks ctx key (hmac_len out_len) [])|]. intros c R.
  eapply ok_mono; [by apply (hmac_out_ok c key (hmac_len out_len) _ out o R)|].
  intros [d n] (-> & HF' & HS'). done.
Qed.
End Spec.

Lemma hmac_stream_correct_witness :
  ok (hmac_stream (HC:=br_sha256_class) [1; 2; 3] 12 [[4; 5]; []; [6]] (replicate 16 9) 2) (fun '(d, n) =>
    n = 12 /\ frame 2 14 (replicate 16 9) d /\
    slice d 2 12 = take 12 (HMAC (HS:=br_sha256_spec) [1; 2; 3] [4; 5; 6])).
Proof.
  eapply ok_mono; [apply (hmac_stream_correct (HS:=br_sha256_spec) [1; 2; 3] 12 [[4; 5]; []; [6]] (replicate 16 9) 2)|].
  - by repeat constructor.
  - by repeat constructor.
  - done.
  - done.
  - intros [d n] (-> & HF & HS). change (hmac_len 12) with 12 in *. done.
Defined.
