(* ===== verification/HmacCt.v ===== *)
(** The constant-time HMAC output [br_hmac_outCT] ([src/mac/hmac_ct.c]), which
    the CBC records of TLS use against the timing attacks on the padding: it
    computes the tag of a message whose length is secret, between two public
    bounds.

    The code pads by itself and feeds the hash function byte by byte up to the
    longest possible message; each state met at the end of a block may be the
    result.  It is proved against [HashPad] for its value and against [HashCt]
    for its leakage. *)
From stdpp Require Import base tactics list numbers option.
From Stdlib Require Import ZArith Lia.
From S2P Require Import Prelude CtPrims Limbs Codec Ccopy Hash Sha2 Sha1 HashPad Hmac.
Local Open Scope Z_scope.
Local Open Scope cword_scope.

Section Code.
Context {HC : HashClass} {HF : HashFlags HC}.

Notation bs := (hash_block).

(** The byte injected at turn [u]. *)
Definition outCT_byte (data : list Z) (pos len max_len bit_len kr kl u : Z) : M Z :=
  d ← (If u <? max_len Then load data (pos + u) Else mret 0x00);
  let v := u32 (kr + u) .& (bs - 1) in
  e ← (If bs - 8 <=? v Then
        let j := (v - (bs - 8)) << 3 in
        e ← (If desc_padding_be HC Then mret (u32 (bit_len >> (56 - j)))
          Else mret (u32 (bit_len >> j)));
        mret (e .& 0xFF)
      Else mret 0x00);
  let x0 := MUX (EQ u (u32 len)) 0x80 d in
  let x1 := MUX (LT u kl) 0x00 e in
  mret (u8 (MUX (LE u (u32 len)) x0 x1)).

(** One turn of the loop on the context and the two buffers. *)
Definition outCT_step (data : list Z) (pos len max_len bit_len kr kl kz : Z) (u : Z)
    (s : hctx * list Z * list Z) : M (hctx * list Z * list Z) :=
  let '(hc, tmp1, tmp2) := s in
  x ← outCT_byte data pos len max_len bit_len kr kl u;
  hc ← hash_update hc [x] 0 1;
  let v := u32 (kr + u) .& (bs - 1) in
  If v =? bs - 1 Then
    '(tmp1, _) ← hash_state hc tmp1 0;
    tmp2 ← br_ccopy (EQ u kz) tmp2 tmp1 hash_size;
    mret (hc, tmp1, tmp2)
  Else mret (hc, tmp1, tmp2).

(** The blocks that are complete whatever the length: the context, the
    position in the data, the lengths that remain and the new count. *)
Definition outCT_skip (hc : hctx) (data : list Z) (pos len min_len max_len count : Z)
    : M (hctx * Z * Z * Z * Z) :=
  let ncount := u64 (count + min_len) .& u64 (Z.lnot (bs - 1)) in
  If count <? ncount Then
    let zlen := ncount - count in
    hc ← hash_update hc data pos zlen;
    mret (hc, pos + zlen, len - zlen, max_len - zlen, ncount)
  Else mret (hc, pos, len, max_len, count).

Definition br_hmac_outCT (ctx : hmac_ctx HC) (data : list Z) (pos len min_len max_len : Z)
    (out : list Z) (o : Z) : M (list Z * Z) :=
  let hc := hm_dig ctx in
  let po := if desc_padding_128 HC then 9 + 8 else 9 in
  let hlen := hash_size in
  '(tmp1, count) ← hash_state hc (replicate 64 0) 0;
  let bit_len := u64 (u64 (count + len) << 3) in
  '(hc, pos, len, max_len, count) ← outCT_skip hc data pos len min_len max_len count;
  let kr := u32 count .& (bs - 1) in
  let kz := u32 ((u32 (kr + u32 len + po + bs - 1) .& u32 (Z.lnot (bs - 1))) - 1 - kr) in
  let kl := u32 (kz - 7) in
  let km := u32 ((u32 (kr + u32 max_len + po + bs - 1) .& u32 (Z.lnot (bs - 1))) - kr) in
  tmp2 ← memset (replicate 64 0) 0 0 64;
  '(hc, tmp1, tmp2) ← for_up 0 km (outCT_step data pos len max_len bit_len kr kl kz) (hc, tmp1, tmp2);
  hc ← hash_init hc;
  hc ← hash_set_state hc (hm_kso ctx) 0 bs;
  hc ← hash_update hc tmp2 0 hlen;
  tmp2 ← hash_out hc tmp2 0;
  out ← memcpy out o tmp2 0 (hm_out_len ctx);
  mret (out, hm_out_len ctx).
End Code.

(** * Leakage *)

Section Leak.
Context {HC : HashClass} {HF : HashFlags HC} {HS : HashSpec HC} {HT : HashCt HC}.

Lemma outCT_byte_ct d1 d2 pos l1 l2 max b1 b2 kr k1 k2 u :
  blind (outCT_byte d1 pos l1 max b1 kr k1 u) (outCT_byte d2 pos l2 max b2 kr k2 u).
Proof. unfold outCT_byte. blind_auto. Qed.

Lemma outCT_step_ct d1 d2 pos l1 l2 max b1 b2 kr k1 k2 z1 z2 u s1 s2 : hlike s1.1.1 s2.1.1 ->
  ct (fun x y => hlike x.1.1 y.1.1) (outCT_step d1 pos l1 max b1 kr k1 z1 u s1)
    (outCT_step d2 pos l2 max b2 kr k2 z2 u s2).
Proof.
  destruct s1 as [[c1 t1] t1'], s2 as [[c2 t2] t2']. cbn [fst snd]. intros HL. unfold outCT_step.
  apply blind_bind; [apply outCT_byte_ct|intros x1 x2].
  eapply ct_bind; [by apply hash_update_ct|]. intros c1' c2' HL'. cbv zeta.
  apply ct_cond; [done|intros _|intros _; by apply ct_ret].
  eapply ct_bind; [by apply hash_state_ct|]. intros [? ?] [? ?] _.
  apply blind_bind; [apply br_ccopy_ct|intros]. by apply ct_ret.
Qed.

Lemma outCT_skip_ct c1 c2 d1 d2 pos l1 l2 min max count : hlike c1 c2 ->
  ct (fun '(c1, p1, _, m1, n1) '(c2, p2, _, m2, n2) => hlike c1 c2 /\ p1 = p2 /\ m1 = m2 /\ n1 = n2)
    (outCT_skip c1 d1 pos l1 min max count) (outCT_skip c2 d2 pos l2 min max count).
Proof.
  intros HL. unfold outCT_skip. cbv zeta. apply ct_cond; [done|intros _..]; [|by apply ct_ret].
  eapply ct_bind; [by apply hash_update_ct|]. intros. by apply ct_ret.
Qed.

Lemma br_hmac_outCT_ct x1 x2 d1 d2 pos l1 l2 min max out1 out2 o :
  hlike (hm_dig x1) (hm_dig x2) -> hm_out_len x1 = hm_out_len x2 ->
  blind (br_hmac_outCT x1 d1 pos l1 min max out1 o) (br_hmac_outCT x2 d2 pos l2 min max out2 o).
Proof.
  intros HL HO. unfold br_hmac_outCT. cbv zeta.
  eapply ct_bind; [by apply hash_state_ct|]. intros [t1 n1] [t2 n2] E. cbn [snd] in E. subst n2.
  eapply ct_bind; [by apply outCT_skip_ct|].
  intros [[[[c1 p1] l1'] m1] k1] [[[[c2 p2] l2'] m2] k2] (HL' & -> & -> & ->).
  apply blind_bind; [apply blind_memset|intros t1' t2'].
  eapply (ct_bind (fun x y => hlike x.1.1 y.1.1)).
  { apply ct_for_up; [done..|]. intros. by apply outCT_step_ct. }
  intros [[c3 t3] t3'] [[c4 t4] t4'] HL4. cbn [fst] in HL4.
  eapply ct_bind; [apply hash_init_ct|]. intros ? ? _.
  eapply ct_bind; [apply hash_set_state_ct|]. intros c5 c6 HL6.
  eapply ct_bind; [by apply hash_update_ct|]. intros c7 c8 HL8.
  apply blind_bind; [by apply hash_out_ct|intros]. rewrite HO. blind_auto.
Qed.
End Leak.

(** * Correctness *)

Lemma align_down w k x : word w x -> 0 <= k <= w ->
  x .& (Z.lnot (2 ^ k - 1) mod 2 ^ w) = x - x mod 2 ^ k.
Proof.
  unfold word. intros Hx Hk. pose proof (Z.pow_pos_nonneg 2 k ltac:(lia) ltac:(lia)).
  rewrite <- (Z.land_ones (Z.lnot _) w), (Z.land_comm (Z.lnot _)), Z.land_assoc, Z.land_ones by lia.
  rewrite (Z.mod_small x) by lia. replace (2 ^ k - 1) with (Z.ones k) by (rewrite Z.ones_equiv; lia).
  rewrite <- Z.ldiff_land, Z.ldiff_ones_r, shl_mul, shr_div by lia.
  pose proof (Z.div_mod x (2 ^ k) ltac:(lia)). lia.
Qed.

Lemma mod_complement B y : 0 < B -> (- 1 - y) mod B = B - 1 - y mod B.
Proof.
  intros HB. pose proof (Z.mod_pos_bound y B HB). pose proof (Z.div_mod y B ltac:(lia)).
  symmetry. apply (Z.mod_unique _ _ (- (y / B) - 1)); [lia|]. nia.
Qed.

Section Correct.
Context {HC : HashClass} {HF : HashFlags HC} {HS : HashSpec HC} {HP : HashPad HC}.

Notation B := (@hash_block HC).
Notation po := (if desc_padding_128 HC then 9 + 8 else 9).

(** The end of the last block of a padded string of [x] bytes. *)
Definition block_end (x : Z) : Z := x + B - 1 - (x + B - 1) mod B.

Lemma block_end_mono x y : x <= y -> block_end x <= block_end y.
Proof.
  intros H. pose proof hash_block_pos. unfold block_end.
  assert (D : forall a, a - a mod B = B * (a / B)) by (intros a; rewrite Z.mod_eq by lia; lia).
  rewrite !D. apply Z.mul_le_mono_nonneg_l; [lia|]. apply Z.div_le_mono; lia.
Qed.

Lemma block_end_range x : x <= block_end x < x + B.
Proof.
  pose proof hash_block_pos. unfold block_end.
  assert (0 <= (x + B - 1) mod B < B) by (apply Z.mod_pos_bound; lia). lia.
Qed.

Lemma block_log_range : 6 <= block_log <= 7.
Proof.
  pose proof hash_block_pos as H. destruct block_pow as [H0 E]. rewrite E in H.
  assert (~ block_log < 6) by (intros ?; assert (2 ^ block_log <= 2 ^ 5) by (apply Z.pow_le_mono_r; lia); lia).
  assert (~ 7 < block_log) by (intros ?; assert (2 ^ 8 <= 2 ^ block_log) by (apply Z.pow_le_mono_r; lia); lia).
  lia.
Qed.

(** The expressions of the code for the ends of the padding. *)
Lemma block_end_code x : 0 <= x -> x + B - 1 < 2 ^ 32 ->
  u32 (x + B - 1) .& u32 (Z.lnot (B - 1)) = block_end x.
Proof.
  intros H0 H. pose proof hash_block_pos. pose proof block_log_range. unfold block_end.
  rewrite u32_small by (unfold word; lia). unfold u32. destruct block_pow as [_ E]. rewrite E in *.
  rewrite align_down by (unfold word; lia). done.
Qed.

Lemma mask_mod x : x .& (B - 1) = x mod B.
Proof. pose proof block_log_range. destruct block_pow as [_ E]. rewrite E. apply land_mask. lia. Qed.

Lemma u32_mod x : u32 x mod B = x mod B.
Proof.
  pose proof block_log_range. destruct block_pow as [_ E]. rewrite E. unfold u32.
  replace (2 ^ 32) with (2 ^ block_log * 2 ^ (32 - block_log)) by (rewrite <- Z.pow_add_r by lia; f_equal; lia).
  rewrite Z.rem_mul_r by (try apply Z.pow_nonzero; lia). rewrite (Z.mul_comm (2 ^ block_log)).
  rewrite Z.mod_add, Z.mod_mod by (apply Z.pow_nonzero; lia). done.
Qed.

(** ** The loop *)

Section Loop.
Context (P data : list Z) (pos len max : Z).
Context (HPb : byte_string P) (Hpos : 0 <= pos) (Hlen : 0 <= len <= max)
  (Hdata : pos + max <= zlen data) (Hbytes : bytes data pos max) (Hmax : max < 2 ^ 31)
  (Htot : zlen P + len < 2 ^ 61).

Let n := zlen P + len.
Let kr := zlen P mod B.
(** What the hash function must receive after [P]. *)
Definition outCT_rest : list Z := slice data pos len ++ md_tail (zlen P + len).
Local Notation S := outCT_rest.

Lemma kr_range : 0 <= kr < B.
Proof. pose proof hash_block_pos. apply Z.mod_pos_bound. lia. Qed.

Lemma zlen_rest : zlen S = len + 9 + pad_zeros n.
Proof. unfold outCT_rest. rewrite zlen_app, zlen_slice, zlen_md_tail by lia. fold n. lia. Qed.

Lemma pad_min_po : pad_min = po.
Proof. unfold pad_min. by destruct (desc_padding_128 HC). Qed.

Lemma rest_block_end : kr + zlen S = block_end (kr + len + pad_min).
Proof.
  pose proof hash_block_pos. rewrite zlen_rest. unfold pad_zeros, block_end.
  replace (B - pad_min - n) with (- 1 - (n + pad_min - B - 1)) by lia.
  rewrite mod_complement by lia.
  replace ((kr + len + pad_min + B - 1) mod B) with ((n + pad_min - B - 1) mod B); [lia|].
  unfold n, kr. pose proof (Z.div_mod (zlen P) B ltac:(lia)) as E.
  replace (zlen P + len + pad_min - B - 1) with
    (zlen P mod B + len + pad_min + B - 1 + (zlen P / B - 2) * B) by lia.
  apply Z.mod_add. lia.
Qed.

Lemma rest_bytes : byte_string S.
Proof.
  unfold outCT_rest. apply byte_string_app. split; [|apply md_tail_bytes].
  apply byte_string_slice; try lia. apply (limbs_sub 8 data pos max); [done|lia..].
Qed.

Lemma rest_whole : (kr + zlen S) mod B = 0.
Proof.
  rewrite rest_block_end. unfold block_end. pose proof hash_block_pos.
  set (a := kr + len + pad_min + B - 1). pose proof (Z.div_mod a B ltac:(lia)).
  replace (a - a mod B) with (a / B * B) by lia. apply Z.mod_mul. lia.
Qed.

(** The position of a byte in its block, near the end. *)
Lemma rest_index u : 0 <= u < zlen S -> zlen S - u <= B -> (kr + u) mod B = B - (zlen S - u).
Proof.
  intros Hu H. pose proof hash_block_pos. pose proof rest_whole as E.
  apply Z.mod_divide in E as [q E]; [|lia].
  symmetry. apply (Z.mod_unique _ _ (q - 1)); [lia|]. lia.
Qed.

(** The bytes of the rest. *)
Lemma get_rest u : 0 <= u < zlen S -> get S u =
  if u <? len then get data (pos + u) else if u =? len then 0x80
  else if u <? zlen S - 8 then 0 else get (len_bytes n) (u - (zlen S - 8)).
Proof.
  intros Hu. pose proof zlen_rest as HZ. pose proof (pad_zeros_range n).
  rewrite HZ in *. unfold outCT_rest. destruct (Z.ltb_spec u len).
  - rewrite get_app_l, get_slice by (rewrite ?zlen_slice; lia). done.
  - rewrite get_app_r by (rewrite zlen_slice; lia). rewrite zlen_slice by lia.
    fold n. rewrite get_md_tail by lia.
    destruct (Z.eqb_spec (u - len) 0), (Z.eqb_spec u len); try lia.
    destruct (Z.leb_spec (u - len) (pad_zeros n)), (Z.ltb_spec u (len + 9 + pad_zeros n - 8)); try lia.
    f_equal. lia.
Qed.

Local Notation kz := (zlen S - 1).
Local Notation bl := (u64 (n << 3)).

Lemma rest_small : zlen S < 2 ^ 32 /\ 9 <= zlen S.
Proof.
  pose proof zlen_rest as HZ. pose proof (pad_zeros_range n). pose proof hash_block_pos. lia.
Qed.

(** The length byte of turn [u]. *)
Lemma outCT_len_byte_ok u : 0 <= u < 2 ^ 32 - B -> let v := (kr + u) mod B in
  ok (If B - 8 <=? v Then
        e ← (If desc_padding_be HC Then mret (u32 (bl >> (56 - ((v - (B - 8)) << 3))))
          Else mret (u32 (bl >> ((v - (B - 8)) << 3))));
        mret (e .& 0xFF)
      Else mret 0x00) (fun e => word 8 e /\
        (zlen S - 8 <= u < zlen S -> e = get (len_bytes n) (u - (zlen S - 8)))).
Proof.
  intros Hu v. pose proof hash_block_pos. pose proof rest_small.
  assert (Hv : 0 <= v < B) by (apply Z.mod_pos_bound; lia).
  apply ok_cond; intros Hc.
  - apply Z.leb_le in Hc. cstep. rewrite !(shl_mul (v - (B - 8)) 3) by lia. change (2 ^ 3) with 8.
    set (sh := if desc_padding_be HC then 56 - (v - (B - 8)) * 8 else (v - (B - 8)) * 8).
    apply (ok_mono _ (fun e => e = u32 (bl >> sh))).
    { apply ok_cond; intros E; cstep; unfold sh; by rewrite E. }
    intros e ->. cstep. change 0xFF with (2 ^ 8 - 1). rewrite land_mask by lia.
    assert (E8 : u32 (bl >> sh) mod 2 ^ 8 = u8 (bl >> sh)).
    { unfold u32, u8. change (2 ^ 32) with (2 ^ 8 * 2 ^ 24). rewrite Z.rem_mul_r by lia.
      rewrite Z.mul_comm, Z.mod_add, Z.mod_mod by lia. done. }
    rewrite E8. split; [apply u8_word|]. intros Hu'. rewrite get_len_bytes by lia.
    do 2 f_equal. unfold sh, v. rewrite rest_index by lia. destruct (desc_padding_be HC); lia.
  - apply Z.leb_gt in Hc. cstep. split; [done|]. intros Hu'. unfold v in Hc.
    rewrite rest_index in Hc by lia. lia.
Qed.

Lemma outCT_byte_ok u : 0 <= u < 2 ^ 32 - B ->
  ok (outCT_byte data pos len max bl kr (u32 (kz - 7)) u)
    (fun x => word 8 x /\ (u < zlen S -> x = get S u)).
Proof.
  intros Hu. pose proof hash_block_pos. pose proof rest_small. pose proof kr_range. unfold outCT_byte.
  rewrite (u32_small len), (u32_small (kz - 7)), (u32_small (kr + u)), mask_mod by (unfold word; lia).
  cstep. apply (ok_mono _ (fun d => word 8 d /\ (u < len -> d = get data (pos + u)))).
  { apply ok_cond; intros Hc.
    - apply Z.ltb_lt in Hc. apply ok_load; [lia|]. split; [|done]. apply Hbytes. lia.
    - apply Z.ltb_ge in Hc. cstep. split; [done|lia]. }
  intros d [Hd Ed]. cbv zeta. cstep. eapply ok_mono; [by apply outCT_len_byte_ok|].
  intros e [He Ee]. cstep. unfold word in Hd, He.
  rewrite EQ_spec, LT_spec, LE_spec by (unfold word; lia).
  rewrite !MUX_spec by (unfold word; repeat case_match; rewrite ?MUX_spec by (unfold word; lia);
    repeat case_match; lia).
  split; [apply u8_word|]. intros Hu'. rewrite get_rest by lia.
  destruct (Z.leb_spec u len), (Z.ltb_spec u len), (Z.eqb_spec u len); try lia.
  - rewrite <- Ed by lia. apply u8_small. done.
  - done.
  - replace (kz - 7) with (zlen S - 8) by lia. destruct (Z.ltb_spec u (zlen S - 8)); [done|].
    rewrite <- Ee by lia. apply u8_small. done.
Qed.

(** The state of the loop after [u] turns. *)
Record outCT_inv (u : Z) (s : hctx * list Z * list Z) : Prop := OutInv {
  oi_rep : exists Y, hrep s.1.1 (P ++ Y) /\ zlen Y = u /\
    (forall i, 0 <= i < u -> i < zlen S -> get Y i = get S i);
  oi_tmp1 : zlen s.1.2 = 64;
  oi_tmp2 : zlen s.2 = 64;
  oi_bytes : bytes s.2 0 hash_size;
  oi_found : zlen S <= u -> slice s.2 0 hash_size = take (Z.to_nat hash_size) (hstate (P ++ S))
}.

(** A state saved when the end of a block is the end of the padding. *)
Lemma outCT_save_ok u hc tmp1 tmp2 Y :
  hrep hc (P ++ Y) -> zlen Y = u + 1 -> 0 <= u < 2 ^ 32 ->
  (forall i, 0 <= i < u + 1 -> i < zlen S -> get Y i = get S i) ->
  (kr + u) mod B = B - 1 -> zlen tmp1 = 64 -> zlen tmp2 = 64 -> bytes tmp2 0 hash_size ->
  (zlen S <= u -> slice tmp2 0 hash_size = take (Z.to_nat hash_size) (hstate (P ++ S))) ->
  ok ('(tmp1, _) ← hash_state hc tmp1 0;
      tmp2 ← br_ccopy (EQ u kz) tmp2 tmp1 hash_size;
      mret (hc, tmp1, tmp2)) (outCT_inv (u + 1)).
Proof.
  intros HR HY Hu HE HB L1 L2 HB2 HF2. pose proof hash_block_pos. pose proof hash_state_size_pos.
  pose proof hash_size_pos. pose proof size_le_state. pose proof rest_small.
  assert (HW : zlen (P ++ Y) mod B = 0).
  { rewrite zlen_app, HY. pose proof (Z.div_mod (zlen P) B ltac:(lia)) as E1.
    pose proof (Z.div_mod (kr + u) B ltac:(lia)) as E2. fold kr in E1. rewrite HB in E2.
    replace (zlen P + (u + 1)) with ((zlen P / B + (kr + u) / B + 1) * B) by lia. apply Z.mod_mul. lia. }
  cstep. eapply ok_mono; [apply (hash_state_ok hc _ tmp1 0 HR); lia|].
  intros [t1 c] (F1 & _ & S1). pose proof (frame_len _ _ _ _ F1) as LT1. specialize (S1 HW).
  assert (HT : slice t1 0 hash_size = take (Z.to_nat hash_size) (hstate (P ++ Y))).
  { rewrite <- S1. unfold slice. rewrite take_take. f_equal. lia. }
  assert (HBt : bytes t1 0 hash_size).
  { intros i Hi. replace i with (0 + i) by lia. rewrite <- (get_slice t1 0 hash_state_size), S1 by lia.
    apply (proj1 (bytes_get _) (hstate_bytes _)). rewrite <- S1, zlen_slice by lia. lia. }
  rewrite EQ_spec by (unfold word; lia).
  cstep. eapply ok_mono; [apply br_ccopy_ok; done || lia|]. intros t2 ->. cstep.
  split; cbn [fst snd].
  - exists Y. done.
  - lia.
  - case_match; [rewrite zlen_blit|]; lia.
  - case_match; [|done]. intros i Hi. rewrite get_blit_in by lia. apply HBt. lia.
  - intros Hz. destruct (Z.eqb_spec u kz) as [Eu|Eu]; [|apply HF2; lia].
    rewrite slice_blit_in by lia. rewrite HT. do 3 f_equal.
    apply list_eq_get; [lia|]. intros i Hi. apply HE; lia.
Qed.

Lemma outCT_step_ok u s : 0 <= u < 2 ^ 32 - B -> outCT_inv u s ->
  ok (outCT_step data pos len max bl kr (u32 (kz - 7)) kz u s) (outCT_inv (u + 1)).
Proof.
  intros Hu [(Y & HR & HY & HE) L1 L2 HB2 HF2]. destruct s as [[hc tmp1] tmp2]. cbn [fst snd] in *.
  pose proof hash_block_pos. pose proof kr_range. unfold outCT_step.
  cstep. eapply ok_mono; [by apply outCT_byte_ok|]. intros x [Hx Ex].
  cstep. eapply ok_mono.
  { apply (hash_update_ok hc _ [x] 0 1 HR); try (simpl length; lia). intros i Hi.
    replace i with 0 by lia. done. }
  intros hc' HR'. change (slice [x] 0 1) with [x] in HR'. rewrite <- app_assoc in HR'.
  assert (HY' : zlen (Y ++ [x]) = u + 1) by (rewrite zlen_app; simpl length; lia).
  assert (HE' : forall i, 0 <= i < u + 1 -> i < zlen S -> get (Y ++ [x]) i = get S i).
  { intros i Hi Hi'. destruct (Z.eq_dec i u) as [->|].
    - rewrite get_app_r, HY, Z.sub_diag by lia. rewrite <- Ex by lia. done.
    - rewrite get_app_l by lia. apply HE; lia. }
  rewrite (u32_small (kr + u)), mask_mod by (unfold word; lia). cbv zeta.
  apply ok_cond; intros Hc.
  - apply Z.eqb_eq in Hc. apply (outCT_save_ok u hc' tmp1 tmp2 (Y ++ [x])); done || lia.
  - apply Z.eqb_neq in Hc. cstep. split; cbn [fst snd]; try done; [by exists (Y ++ [x])|].
    intros Hz. apply HF2. destruct (Z.eq_dec u kz) as [->|]; [|lia].
    exfalso. apply Hc. rewrite rest_index; pose proof rest_small; lia.
Qed.

(** The bounds of the loop, and its result. *)
Lemma outCT_ends :
  u32 ((u32 (kr + u32 len + po + B - 1) .& u32 (Z.lnot (B - 1))) - 1 - kr) = kz /\
  exists km, u32 ((u32 (kr + u32 max + po + B - 1) .& u32 (Z.lnot (B - 1))) - kr) = km /\
    zlen S <= km <= 2 ^ 32 - B.
Proof.
  pose proof hash_block_pos. pose proof kr_range. pose proof rest_small. rewrite <- pad_min_po.
  assert (9 <= pad_min <= 17) by (destruct pad_min_cases; lia).
  rewrite (u32_small len), (u32_small max) by (unfold word; lia).
  rewrite !block_end_code, <- rest_block_end by lia.
  pose proof (block_end_range (kr + max + pad_min)).
  assert (HM : block_end (kr + len + pad_min) <= block_end (kr + max + pad_min))
    by (apply block_end_mono; lia).
  rewrite <- rest_block_end in HM.
  split; [rewrite u32_small; unfold word; lia|]. eexists. split; [reflexivity|].
  rewrite u32_small by (unfold word; lia). lia.
Qed.

Lemma outCT_loop_ok hc tmp1 tmp2 km : hrep hc P -> zlen tmp1 = 64 -> zlen tmp2 = 64 ->
  bytes tmp2 0 hash_size -> zlen S <= km <= 2 ^ 32 - B ->
  ok (for_up 0 km (outCT_step data pos len max bl kr (u32 (kz - 7)) kz) (hc, tmp1, tmp2))
    (fun '(hc', _, t2) => hshape hc' /\ zlen t2 = 64 /\
      slice t2 0 hash_size = digest (P ++ slice data pos len)).
Proof.
  intros HR L1 L2 HB Hkm. pose proof rest_small. apply (ok_for_up outCT_inv).
  - lia.
  - split; cbn [fst snd]; try done; [|lia]. exists []. rewrite app_nil_r. split; [done|]. split; [done|]. lia.
  - intros u s Hu HI. apply outCT_step_ok; [lia|done].
  - intros [[hc' t1] t2] [(Y & HR' & _) _ L2' _ HF2]. cbn [fst snd] in *.
    split; [by eapply hrep_shape|]. split; [done|]. rewrite HF2 by lia. unfold outCT_rest.
    rewrite app_assoc, pad_digest, zlen_app, zlen_slice by
      (first [rewrite zlen_app, zlen_slice; lia | lia
      | apply byte_string_app; split; [done|]; apply byte_string_slice; try lia;
        apply (limbs_sub 8 data pos max); [done|lia..]]).
    done.
Qed.
End Loop.

(** ** The whole function *)

Lemma outCT_skip_ok hc P data pos len min max :
  hrep hc P -> 0 <= pos -> 0 <= min <= len -> len <= max -> pos + max <= zlen data ->
  bytes data pos max -> max - min < 2 ^ 30 -> zlen P + max < 2 ^ 61 ->
  ok (outCT_skip hc data pos len min max (zlen P)) (fun '(hc', pos', len', max', count) =>
    exists z, 0 <= z <= min /\ hrep hc' (P ++ slice data pos z) /\ pos' = pos + z /\
      len' = len - z /\ max' = max - z /\ count = zlen P + z /\ max' < 2 ^ 31).
Proof.
  intros HR Hp Hmin Hlen Hd HB Hdiff Htot. unfold outCT_skip. cbv zeta.
  pose proof hash_block_pos. pose proof block_log_range. destruct block_pow as [_ E].
  rewrite (u64_small (zlen P + min)) by (unfold word; lia).
  assert (EN : (zlen P + min) .& u64 (Z.lnot (B - 1)) = zlen P + min - (zlen P + min) mod B).
  { rewrite E. apply align_down; [unfold word; lia|lia]. }
  rewrite EN. assert (0 <= (zlen P + min) mod B < B) by (apply Z.mod_pos_bound; lia).
  apply ok_cond; intros Hc.
  - apply Z.ltb_lt in Hc. set (z := _ - zlen P). cstep.
    eapply ok_mono; [apply (hash_update_ok hc _ data pos z HR); try lia|].
    { apply (limbs_sub 8 data pos max); [done|lia..]. }
    intros hc' HR'. cstep. exists z. repeat (split; [done || lia|]). lia.
  - apply Z.ltb_ge in Hc. cstep. exists 0. rewrite slice_nil, app_nil_r.
    repeat (split; [done || lia|]). lia.
Qed.

(** The buffers a running computation needs. *)
Lemma br_hmac_outCT_ok ctx K n msg data pos len min max out o :
  hmac_rep ctx K n msg -> 0 < n <= hash_size ->
  0 <= pos -> 0 <= min <= len -> len <= max -> pos + max <= zlen data -> bytes data pos max ->
  max - min < 2 ^ 30 -> B + zlen msg + max < 2 ^ 61 -> 0 <= o -> o + n <= zlen out ->
  ok (br_hmac_outCT ctx data pos len min max out o) (fun '(d, k) => k = n /\
    frame o (o + n) out d /\ slice d o n = take (Z.to_nat n) (HMAC K (msg ++ slice data pos len))).
Proof.
  intros [HK HR L S Hn] Hn' Hp Hmin Hlen Hd HB Hdiff Htot Ho Hl.
  pose proof hash_block_pos. pose proof hash_size_pos. pose proof hash_state_size_pos.
  set (P := key_pad 0x36 K ++ msg) in *.
  assert (HPl : zlen P = B + zlen msg) by (unfold P; rewrite zlen_app, zlen_key_pad; done).
  unfold br_hmac_outCT. cbv zeta. rewrite Hn.
  cstep. eapply ok_mono; [apply (hash_state_ok _ _ (replicate 64 0) 0 HR); rewrite ?length_replicate; lia|].
  intros [t1 c] (F1 & -> & _). pose proof (frame_len _ _ _ _ F1) as L1. rewrite length_replicate in L1.
  rewrite (u64_small (zlen P)) by (unfold word; lia).
  rewrite (u64_small (zlen P + len)) by (unfold word; lia).
  cstep. eapply ok_mono; [by apply (outCT_skip_ok _ P); done || lia|].
  intros [[[[hc' pos'] len'] max'] c'] (z & Hz & HR' & -> & -> & -> & -> & Hmax).
  set (P' := P ++ slice data pos z) in *.
  assert (HP' : zlen P' = zlen P + z) by (unfold P'; rewrite zlen_app, zlen_slice; lia).
  rewrite mask_mod, u32_mod, <- HP'. replace (zlen P + len) with (zlen P' + (len - z)) by lia.
  assert (HB' : bytes data (pos + z) (max - z)) by (apply (limbs_sub 8 data pos max); [done|lia..]).
  cstep. apply ok_memset; rewrite ?length_replicate; try lia.
  set (t2 := fillz _ _ _ _). assert (L2 : zlen t2 = 64) by (unfold t2; rewrite zlen_fillz; rewrite ?length_replicate; lia).
  destruct (outCT_ends P' data (pos + z) (len - z) (max - z)) as (-> & km & -> & Hkm); try done; try lia.
  cstep. eapply ok_mono.
  { apply (outCT_loop_ok P' data (pos + z) (len - z) (max - z)); try done; try lia.
    - by apply (hrep_bytes _ _ HR').
    - intros i Hi. unfold t2. rewrite get_fillz_in by (rewrite ?length_replicate; lia). done. }
  intros [[hc2 t1'] t2'] (Hs & L2' & HD). unfold P', P in HD.
  rewrite <- !(app_assoc (key_pad _ _)), <- app_assoc, <- slice_split in HD by lia.
  replace (z + (len - z)) with len in HD by lia.
  by apply (hmac_outer_ok hc2 K (msg ++ slice data pos len)).
Qed.

(** [C10] For every hash function of the interface, [br_hmac_outCT] on a running
    computation returns the tag of the message followed by the [len] bytes of
    the data, as [br_hmac_update] and [br_hmac_out] would, whatever the public
    bounds on the length. *)
Theorem br_hmac_outCT_correct ctx K n msg data pos len min_len max_len out o :
  hmac_rep ctx K n msg -> 0 < n <= hash_size ->
  0 <= pos -> 0 <= min_len <= len -> len <= max_len -> pos + max_len <= zlen data ->
  bytes data pos max_len -> max_len - min_len < 2 ^ 30 -> B + zlen msg + max_len < 2 ^ 61 ->
  0 <= o -> o + n <= zlen out ->
  ok (br_hmac_outCT ctx data pos len min_len max_len out o) (fun '(d, k) => k = n /\
    frame o (o + n) out d /\ slice d o n = take (Z.to_nat n) (HMAC K (msg ++ slice data pos len))).
Proof. apply br_hmac_outCT_ok. Qed.

(** [C26] [br_hmac_outCT] is constant-time in the length: two runs with the same
    bounds, with keys, earlier messages of one length and data of any contents,
    leak the same trace. *)
Theorem br_hmac_outCT_constant_time {HT : HashCt HC} ctx1 ctx2 K1 K2 n msg1 msg2 data1 data2 pos
    len1 len2 min_len max_len out1 out2 o :
  hmac_rep ctx1 K1 n msg1 -> hmac_rep ctx2 K2 n msg2 -> zlen msg1 = zlen msg2 ->
  0 < n <= hash_size -> 0 <= pos -> 0 <= min_len ->
  min_len <= len1 <= max_len -> min_len <= len2 <= max_len ->
  pos + max_len <= zlen data1 -> pos + max_len <= zlen data2 ->
  bytes data1 pos max_len -> bytes data2 pos max_len -> max_len - min_len < 2 ^ 30 ->
  B + zlen msg1 + max_len < 2 ^ 61 -> B + zlen msg2 + max_len < 2 ^ 61 ->
  0 <= o -> o + n <= zlen out1 -> o + n <= zlen out2 ->
  exists t, trace (br_hmac_outCT ctx1 data1 pos len1 min_len max_len out1 o) = Some t /\
            trace (br_hmac_outCT ctx2 data2 pos len2 min_len max_len out2 o) = Some t.
Proof.
  intros R1 R2 HL. intros. eapply ct_trace.
  - apply br_hmac_outCT_ct.
    { apply (hlike_rep _ _ _ _ (hmac_dig _ _ _ _ R1) (hmac_dig _ _ _ _ R2)).
      by rewrite !zlen_app, !zlen_key_pad, HL. }
    by rewrite (hmac_out_len _ _ _ _ R1), (hmac_out_len _ _ _ _ R2).
  - apply (br_hmac_outCT_ok ctx1 K1 n msg1); done || lia.
  - apply (br_hmac_outCT_ok ctx2 K2 n msg2); done || lia.
Qed.
End Correct.

(** A started computation. *)
Definition hmac_start {HC : HashClass} (key : list Z) (out_len : Z) : M (hmac_ctx HC) :=
  kc ← br_hmac_key_init auto_key key (zlen key);
  br_hmac_init auto_hmac kc out_len.

Lemma hmac_start_ok {HC : HashClass} {HS : HashSpec HC} key n : byte_string key ->
  ok (hmac_start key n) (fun ctx => hmac_rep ctx key (hmac_len n) []).
Proof.
  intros HK. unfold hmac_start. cstep.
  eapply ok_mono; [apply (hmac_key_init_ok auto_key key (zlen key)); [done|lia|by apply bytes_get]|].
  intros kc HR. rewrite slice_all in HR by done. apply hmac_init_ok; [apply auto_hmac_shape|done].
Qed.

Lemma br_hmac_outCT_correct_witness :
  ok (ctx ← hmac_start (HC:=br_sha256_class) [1; 2; 3] 0;
      br_hmac_outCT ctx (replicate 80 5) 4 70 64 75 (replicate 40 0) 6) (fun '(d, k) => k = 32 /\
    frame 6 38 (replicate 40 0) d /\ slice d 6 32 = take 32 (HMAC (HS:=br_sha256_spec) [1; 2; 3]
      ([] ++ slice (replicate 80 5) 4 70))).
Proof.
  cstep. eapply ok_mono; [apply (hmac_start_ok (HS:=br_sha256_spec)); by repeat constructor|].
  intros ctx HR. apply (br_hmac_outCT_correct (HS:=br_sha256_spec) ctx [1; 2; 3] 32 []); try exact HR; try done.
  intros i Hi. rewrite get_replicate by lia. done.
Defined.

Lemma br_hmac_outCT_constant_time_witness : exists ctx1 ctx2,
  hmac_rep (HS:=br_sha256_spec) ctx1 [1; 2; 3] 32 [] /\
  hmac_rep (HS:=br_sha256_spec) ctx2 (replicate 90 7) 32 [] /\
  exists t, trace (br_hmac_outCT ctx1 (replicate 80 5) 4 70 64 75 (replicate 40 0) 6) = Some t /\
            trace (br_hmac_outCT ctx2 (replicate 80 6) 4 64 64 75 (replicate 40 1) 6) = Some t.
Proof.
  assert (B1 : byte_string [1; 2; 3]) by (by repeat constructor).
  assert (B2 : byte_string (replicate 90 7)) by (by apply Forall_replicate).
  destruct (ok_inv _ _ (hmac_start_ok (HS:=br_sha256_spec) [1; 2; 3] 0 B1)) as (_ & ctx1 & _ & R1).
  destruct (ok_inv _ _ (hmac_start_ok (HS:=br_sha256_spec) (replicate 90 7) 0 B2)) as (_ & ctx2 & _ & R2).
  exists ctx1, ctx2. split; [exact R1|]. split; [exact R2|].
  apply (br_hmac_outCT_constant_time (HS:=br_sha256_spec) ctx1 ctx2 [1; 2; 3] (replicate 90 7) 32 [] []);
    try exact R1; try exact R2; try done; intros i Hi; rewrite get_replicate by lia; done.
Defined.

(** The two ways to finish agree, whatever the bounds. *)
Example br_hmac_outCT_run :
  let data := map Z.of_nat (seq 0 150) in
  option_map snd (ctx ← hmac_start (HC:=br_sha1_class) [1; 2; 3] 0;
    br_hmac_outCT ctx data 0 60 20 130 (replicate 20 0) 0) =
  option_map snd (ctx ← hmac_start (HC:=br_sha1_class) [1; 2; 3] 0;
    ctx ← br_hmac_update ctx data 0 60; br_hmac_out ctx (replicate 20 0) 0).
Proof. vm_compute. reflexivity. Qed.
