(* ===== verification/Hkdf.v ===== *)
(** HKDF ([src/kdf/hkdf.c]) over the HMAC code: extraction, expansion in
    chunks, the limit of 255 blocks, and what happens after it. *)
From stdpp Require Import base tactics list numbers option.
From Stdlib Require Import ZArith Lia.
From S2P Require Import Prelude CtPrims Limbs Codec Hash Sha2 Hmac.
Local Open Scope Z_scope.
Local Open Scope cword_scope.

(** * Code *)

Section Code.
Context {HC : HashClass}.

(** The union [u] of [br_hkdf_context]: a computation before the flip, the
    pseudorandom key after it.  Reading the wrong member is undefined. *)
Inductive hkdf_u := HkdfHmac (hmac_ctx : hmac_ctx HC) | HkdfPrk (prk_ctx : hmac_key).

Record hkdf_ctx := HkdfCtx {
  hk_u : hkdf_u;
  hk_buf : list Z;
  hk_ptr : Z;
  hk_dig_len : Z;
  hk_chunk_num : Z
}.

Definition get_hmac (hc : hkdf_ctx) : M (hmac_ctx HC) :=
  match hk_u hc with HkdfHmac c => mret c | HkdfPrk _ => None end.
Definition get_prk (hc : hkdf_ctx) : M hmac_key :=
  match hk_u hc with HkdfPrk k => mret k | HkdfHmac _ => None end.

(** [salt] is [None] for [BR_HKDF_NO_SALT]. *)
Definition br_hkdf_init (hc : hkdf_ctx) (salt : option (list Z)) (salt_len : Z) : M hkdf_ctx :=
  let tmp := replicate 64 0 in
  '(salt, salt_len) ← (match salt with
    | None => tmp ← memset tmp 0 0 hash_size; mret (tmp, hash_size)
    | Some s => mret (s, salt_len)
    end);
  kc ← br_hmac_key_init auto_key salt salt_len;
  ctx ← br_hmac_init auto_hmac kc 0;
  mret (HkdfCtx (HkdfHmac ctx) (hk_buf hc) (hk_ptr hc) (hm_out_len ctx) (hk_chunk_num hc)).

Definition br_hkdf_inject (hc : hkdf_ctx) (ikm : list Z) (pos ikm_len : Z) : M hkdf_ctx :=
  ctx ← get_hmac hc;
  ctx ← br_hmac_update ctx ikm pos ikm_len;
  mret (HkdfCtx (HkdfHmac ctx) (hk_buf hc) (hk_ptr hc) (hk_dig_len hc) (hk_chunk_num hc)).

Definition br_hkdf_flip (hc : hkdf_ctx) : M hkdf_ctx :=
  let tmp := replicate 64 0 in
  ctx ← get_hmac hc;
  '(tmp, _) ← br_hmac_out ctx tmp 0;
  kc ← br_hmac_key_init auto_key tmp (hk_dig_len hc);
  mret (HkdfCtx (HkdfPrk kc) (hk_buf hc) (hk_dig_len hc) (hk_dig_len hc) 0).

(** The refill of the buffer, when it is used up: [true] for the early
    [return]. *)
Definition hkdf_refill (hc : hkdf_ctx) (info : list Z) (info_len : Z) : M (bool * hkdf_ctx) :=
  If hk_ptr hc =? hk_dig_len hc Then
    let chunk_num := u32 (hk_chunk_num hc + 1) in
    If chunk_num =? 256 Then
      mret (true, HkdfCtx (hk_u hc) (hk_buf hc) (hk_ptr hc) (hk_dig_len hc) chunk_num)
    Else
      let x := u8 chunk_num in
      prk ← get_prk hc;
      ctx ← br_hmac_init auto_hmac prk 0;
      ctx ← (If negb (x =? 1) Then br_hmac_update ctx (hk_buf hc) 0 (hk_dig_len hc) Else mret ctx);
      ctx ← br_hmac_update ctx info 0 info_len;
      ctx ← br_hmac_update ctx [x] 0 1;
      '(buf, _) ← br_hmac_out ctx (hk_buf hc) 0;
      mret (false, HkdfCtx (hk_u hc) buf 0 (hk_dig_len hc) chunk_num)
  Else mret (false, hc).

Fixpoint hkdf_loop (fuel : nat) (hc : hkdf_ctx) (info : list Z) (info_len : Z)
    (out : list Z) (pos out_len tlen : Z) : M (hkdf_ctx * list Z * Z) :=
  match fuel with
  | O => None
  | S fuel =>
      If 0 <? out_len Then
        '(stop, hc) ← hkdf_refill hc info info_len;
        if stop : bool then mret (hc, out, tlen) else
        let clen := hk_dig_len hc - hk_ptr hc in
        clen ← (If out_len <? clen Then mret out_len Else mret clen);
        out ← memcpy out pos (hk_buf hc) (hk_ptr hc) clen;
        hkdf_loop fuel (HkdfCtx (hk_u hc) (hk_buf hc) (hk_ptr hc + clen) (hk_dig_len hc) (hk_chunk_num hc))
          info info_len out (pos + clen) (out_len - clen) (tlen + clen)
      Else mret (hc, out, tlen)
  end.

Definition br_hkdf_produce (hc : hkdf_ctx) (info : list Z) (info_len : Z) (out : list Z) (o out_len : Z)
    : M (hkdf_ctx * list Z * Z) :=
  hkdf_loop (S (Z.to_nat out_len)) hc info info_len out o out_len 0.
End Code.
Arguments hkdf_u : clear implicits.
Arguments hkdf_ctx : clear implicits.

(** * RFC 5869 *)

Section Spec.
Context {HC : HashClass} {HS : HashSpec HC}.

(** [T(i)], and the output keying material of [n] blocks. *)
Fixpoint hkdf_T (prk info : list Z) (i : nat) : list Z :=
  match i with
  | O => []
  | S j => HMAC prk (hkdf_T prk info j ++ info ++ [Z.of_nat i])
  end.
Definition hkdf_okm (prk info : list Z) (n : nat) : list Z :=
  concat (map (hkdf_T prk info) (seq 1 n)).

(** The pseudorandom key. *)
Definition hkdf_prk (salt : option (list Z)) (ikm : list Z) : list Z :=
  HMAC (default (replicate (Z.to_nat hash_size) 0) salt) ikm.

Lemma zlen_okm prk info n : zlen (hkdf_okm prk info n) = hash_size * Z.of_nat n.
Proof.
  unfold hkdf_okm. induction n as [|n IH]; [cbn; lia|].
  rewrite seq_S, map_app, concat_app, zlen_app, IH. cbn [map concat]. rewrite app_nil_r.
  change (1 + n)%nat with (S n). cbn [hkdf_T]. rewrite HMAC_len. lia.
Qed.

Lemma get_okm prk info n i j : 0 <= i < Z.of_nat n -> 0 <= j < hash_size ->
  get (hkdf_okm prk info n) (hash_size * i + j) = get (hkdf_T prk info (Z.to_nat (i + 1))) j.
Proof.
  intros Hi Hj. induction n as [|n IH]; [lia|].
  pose proof (zlen_okm prk info n) as HL. unfold hkdf_okm in *.
  rewrite seq_S, map_app, concat_app. cbn [map concat]. rewrite app_nil_r.
  destruct (Z.lt_ge_cases i (Z.of_nat n)).
  - rewrite get_app_l by nia. apply IH. lia.
  - assert (i = Z.of_nat n) as -> by lia. rewrite get_app_r by nia. rewrite HL.
    replace (Z.to_nat (Z.of_nat n + 1)) with (1 + n)%nat by lia. f_equal. lia.
Qed.

Lemma T_len prk info i : (0 < i)%nat -> zlen (hkdf_T prk info i) = hash_size.
Proof. destruct i; [lia|]. intros _. cbn [hkdf_T]. apply HMAC_len. Qed.

(** After the flip: [p] bytes of the stream are produced, [q] blocks computed
    since the counter was [base], [ptr] bytes of the last one used. *)
Record expand_rep (hc : hkdf_ctx HC) (prk info : list Z) (base p : Z) : Prop := ExpandRep {
  xr_key : exists kc, hk_u hc = HkdfPrk kc /\ key_rep kc prk;
  xr_info : byte_string info;
  xr_buf : zlen (hk_buf hc) = 64;
  xr_dig : hk_dig_len hc = hash_size;
  xr_ptr : 0 <= hk_ptr hc <= hash_size;
  xr_base : base = 0 \/ base = 256;
  xr_blocks : exists q, 0 <= q <= 255 /\ hk_chunk_num hc = base + q /\
    p = hash_size * (q - 1) + hk_ptr hc /\ (q = 0 -> hk_ptr hc = hash_size) /\
    (0 < q -> slice (hk_buf hc) 0 hash_size = hkdf_T prk info (Z.to_nat q))
}.

Abbreviation okm prk info := (hkdf_okm prk info 255).

Lemma mod_u8 base q : base = 0 \/ base = 256 -> 0 <= q <= 255 -> u8 (base + q) = q.
Proof. intros [-> | ->] Hq; unfold u8; zn. Qed.

(** The refill leaves a block with unread bytes, unless the limit is reached. *)
Lemma refill_ok hc prk info base p :
  expand_rep hc prk info base p -> p < 255 * hash_size ->
  ok (hkdf_refill hc info (zlen info)) (fun '(stop, hc') => stop = false /\
    expand_rep hc' prk info base p /\ hk_ptr hc' < hash_size /\ p = hash_size * (p / hash_size) + hk_ptr hc' /\
    slice (hk_buf hc') 0 hash_size = hkdf_T prk info (Z.to_nat (p / hash_size + 1))).
Proof.
  intros HR Hp. pose proof HR as [Hk Hi Hb Hd Hptr Hbase (q & Hq & Hc & Ep & Hq0 & HT)].
  pose proof hash_size_pos as Hh. unfold hkdf_refill. rewrite Hd. apply ok_cond; intros E.
  2:{ apply Z.eqb_neq in E. cstep. split; [done|]. split; [done|]. split; [lia|].
    assert (q <> 0) by (intros ->; lia).
    assert (Eq : p / hash_size = q - 1) by (symmetry; apply (Z.div_unique_pos _ _ _ (hk_ptr hc)); lia).
    rewrite Eq. split; [done|]. rewrite HT by lia. do 2 f_equal. lia. }
  apply Z.eqb_eq in E. rewrite E in Ep. cbv zeta.
  assert (Hq255 : q < 255) by nia.
  rewrite Hc. replace (u32 (base + q + 1)) with (base + (q + 1)) by (unfold u32; destruct Hbase as [-> | ->]; zn).
  apply ok_cond; intros E2; [apply Z.eqb_eq in E2; destruct Hbase; lia|].
  rewrite mod_u8 by (done || lia).
  destruct Hk as (kc & Hu & Hkr). unfold get_prk. rewrite Hu. cstep. cstep.
  cstep. eapply ok_mono; [by apply hmac_init_ok; [apply auto_hmac_shape|]|]. intros ctx R0.
  replace (hmac_len 0) with hash_size in R0 by done.
  cstep. apply (ok_mono _ (fun ctx => hmac_rep ctx prk hash_size (hkdf_T prk info (Z.to_nat q)))).
  { apply ok_cond; intros E3.
    - apply negb_true_iff, Z.eqb_neq in E3. eapply ok_mono.
      { apply (hmac_update_ok ctx prk hash_size [] (hk_buf hc) 0 hash_size R0); try lia.
        intros i Hi'. replace i with (0 + i) by lia. rewrite <- (get_slice _ 0 hash_size) by lia.
        rewrite HT by lia. destruct (Z.to_nat q) eqn:Eq; [lia|]. cbn [hkdf_T].
        apply (proj1 (bytes_get _) (HMAC_bytes _ _)). rewrite HMAC_len. lia. }
      cbv beta. intros c R. rewrite HT in R by lia. exact R.
    - apply negb_false_iff, Z.eqb_eq in E3. cstep. replace (Z.to_nat q) with 0%nat by lia. exact R0. }
  intros c1 R1. cstep. eapply ok_mono.
  { apply (hmac_update_ok c1 prk _ _ info 0 (zlen info) R1); try lia. by apply bytes_get. }
  cbv beta. intros c2 R2. rewrite slice_all in R2 by done. cstep. eapply ok_mono.
  { apply (hmac_update_ok c2 prk _ _ [q + 1] 0 1 R2); try done; try (simpl; lia).
    intros i Hi'. assert (i = 0) as -> by lia. change (word 8 (q + 1)). unfold word. lia. }
  cbv beta. intros c3 R3. change (slice [q + 1] 0 1) with [q + 1] in R3. cstep.
  eapply ok_mono; [apply (hmac_out_full c3 prk _ (hk_buf hc) 0 R3); lia|].
  intros [d k] (-> & HF & HS'). cstep.
  assert (ET : slice d 0 hash_size = hkdf_T prk info (Z.to_nat (q + 1))).
  { rewrite HS'. replace (Z.to_nat (q + 1)) with (S (Z.to_nat q)) by lia. cbn [hkdf_T].
    rewrite Nat2Z.inj_succ, Z2Nat.id by lia. by rewrite <- app_assoc. }
  split; [done|]. split.
  { split; cbn [hk_u hk_buf hk_ptr hk_dig_len hk_chunk_num]; try done; try lia.
    - by exists kc.
    - rewrite (frame_len _ _ _ _ HF). done.
    - exists (q + 1). repeat split; try lia. done. }
  cbn [hk_ptr hk_buf]. assert (Eq : p / hash_size = q) by (symmetry; apply (Z.div_unique_pos _ _ _ 0); lia).
  rewrite Eq. repeat split; try lia. done.
Qed.

(** At the limit the first time, the counter is left at 256. *)
Lemma refill_stop hc prk info :
  expand_rep hc prk info 0 (255 * hash_size) ->
  ok (hkdf_refill hc info (zlen info)) (fun '(stop, hc') => stop = true /\ expand_rep hc' prk info 256 0).
Proof.
  intros [Hk Hi Hb Hd Hptr Hbase (q & Hq & Hc & Ep & Hq0 & HT)]. pose proof hash_size_pos as Hh.
  assert (q = 255 /\ hk_ptr hc = hash_size) as [-> Hpt] by (split; nia).
  unfold hkdf_refill. rewrite Hd, Hpt, Hc. apply ok_cond; intros E; [|apply Z.eqb_neq in E; lia].
  cbv zeta. change (u32 (0 + 255 + 1)) with 256. apply ok_cond; intros E2; [|done]. cstep.
  split; [done|]. split; cbn [hk_u hk_buf hk_ptr hk_dig_len hk_chunk_num]; try done; try lia.
  exists 0. repeat split; lia.
Qed.

Lemma rep_range hc prk info base p : expand_rep hc prk info base p -> 0 <= p <= 255 * hash_size.
Proof.
  intros [_ _ _ _ Hptr _ (q & Hq & _ & Ep & Hq0 & _)]. pose proof hash_size_pos.
  destruct (Z.eq_dec q 0) as [->|]; [specialize (Hq0 eq_refl); nia|nia].
Qed.

(** Reading on in the buffer. *)
Lemma rep_advance hc prk info base p n :
  expand_rep hc prk info base p -> hk_ptr hc < hash_size -> 0 <= n -> hk_ptr hc + n <= hash_size ->
  expand_rep (HkdfCtx (hk_u hc) (hk_buf hc) (hk_ptr hc + n) (hk_dig_len hc) (hk_chunk_num hc))
    prk info base (p + n).
Proof.
  intros [Hk Hi Hb Hd Hptr Hbase (q & Hq & Hc & Ep & Hq0 & HT)] Hlt Hn Hle.
  split; cbn [hk_u hk_buf hk_ptr hk_dig_len hk_chunk_num]; try done; try lia.
  exists q. repeat split; try done; try lia.
Qed.

Lemma slice_okm prk info p ptr n : 0 <= p -> 0 <= ptr -> 0 <= n -> ptr + n <= hash_size ->
  p < 255 * hash_size -> p = hash_size * (p / hash_size) + ptr ->
  slice (hkdf_T prk info (Z.to_nat (p / hash_size + 1))) ptr n = slice (okm prk info) p n.
Proof.
  intros Hp Hptr Hn Hle Hlt Ep. pose proof hash_size_pos as Hh.
  assert (0 <= p / hash_size < 255) by (split; [apply Z.div_pos; lia|apply Z.div_lt_upper_bound; lia]).
  pose proof (T_len prk info (Z.to_nat (p / hash_size + 1)) ltac:(lia)) as HL.
  pose proof (zlen_okm prk info 255) as HO.
  apply list_eq_get; rewrite !zlen_slice by nia; [done|]. intros i Hi.
  rewrite !get_slice by nia. rewrite Ep at 2. rewrite <- Z.add_assoc, get_okm by lia. done.
Qed.

(** The loop produces the next bytes of the stream, as many as the limit allows. *)
Lemma hkdf_loop_ok fuel : forall hc prk info base p out pos len tlen,
  expand_rep hc prk info base p -> 0 <= len < Z.of_nat fuel -> 0 <= pos -> pos + len <= zlen out ->
  let n := Z.min len (255 * hash_size - p) in n = len \/ base = 0 ->
  ok (hkdf_loop fuel hc info (zlen info) out pos len tlen) (fun '(hc', d, t) =>
    t = tlen + n /\ frame pos (pos + n) out d /\ slice d pos n = slice (okm prk info) p n /\
    (n = len -> expand_rep hc' prk info base (p + n)) /\ (n < len -> expand_rep hc' prk info 256 0)).
Proof.
  induction fuel as [|fuel IH]; intros hc prk info base p out pos len tlen HR Hlen Hpos Hl n Hn; [lia|].
  pose proof (rep_range _ _ _ _ _ HR) as Hp. pose proof hash_size_pos as Hh.
  cbn [hkdf_loop]. apply ok_cond; intros E.
  2:{ apply Z.ltb_ge in E. assert (len = 0) as -> by lia. replace n with 0 by lia. cstep.
    rewrite !Z.add_0_r, !slice_nil. split; [done|]. split; [done|]. split; [done|]. split; [done|lia]. }
  apply Z.ltb_lt in E. cstep. destruct (Z.eq_dec p (255 * hash_size)) as [->|Hne].
  { assert (En : n = 0) by lia. destruct Hn as [Hn|Hn]; [lia|]. subst base.
    eapply ok_mono; [by apply refill_stop|]. intros [stop hc'] [-> HR']. cstep.
    rewrite En, !Z.add_0_r, !slice_nil. split; [done|]. split; [done|]. split; [done|]. split; [lia|done]. }
  eapply ok_mono; [apply (refill_ok hc prk info base p HR); lia|].
  intros [stop hc'] (-> & HR' & Hlt & Ep & ES). cbv zeta. cbn match.
  pose proof (xr_buf _ _ _ _ _ HR') as Hb'. pose proof (xr_ptr _ _ _ _ _ HR') as Hpt'.
  rewrite (xr_dig _ _ _ _ _ HR').
  cstep. apply (ok_mono _ (fun c => c = Z.min len (hash_size - hk_ptr hc'))).
  { apply ok_cond; intros Ec; cstep; [apply Z.ltb_lt in Ec|apply Z.ltb_ge in Ec]; lia. }
  intros c Ec. assert (Hc : 0 < c <= len /\ hk_ptr hc' + c <= hash_size) by lia.
  cstep. apply ok_memcpy; try lia. set (out1 := blit out pos (hk_buf hc') (hk_ptr hc') c).
  assert (L1 : zlen out1 = zlen out) by (unfold out1; apply zlen_blit; lia).
  assert (F1 : frame pos (pos + c) out out1) by (apply frame_blit; lia).
  assert (S1 : slice out1 pos c = slice (okm prk info) p c).
  { unfold out1. rewrite slice_blit_in by lia. rewrite <- (slice_okm prk info p (hk_ptr hc') c) by lia.
    rewrite <- ES. apply list_eq_get; rewrite !zlen_slice by (rewrite ?zlen_slice; lia); [done|].
    intros i Hi. by rewrite !get_slice by lia. }
  pose proof (zlen_okm prk info 255) as HO.
  pose proof (rep_advance _ _ _ _ _ c HR' Hlt ltac:(lia) ltac:(lia)) as HR2.
  rewrite (xr_dig _ _ _ _ _ HR') in HR2. set (hc2 := HkdfCtx _ _ _ _ _) in *.
  assert (En : Z.min (len - c) (255 * hash_size - (p + c)) = n - c)
    by (pose proof (rep_range _ _ _ _ _ HR2); lia).
  pose proof (rep_range _ _ _ _ _ HR2) as Hp2.
  eapply ok_mono; [apply (IH hc2 prk info base (p + c) out1 (pos + c) (len - c) (tlen + c) HR2); lia|].
  cbv zeta. rewrite En. intros [[hc3 d] t] (-> & F2 & S2 & HA & HB). pose proof (frame_len _ _ _ _ F2).
  split; [lia|]. split; [|split; [|split]].
  - split; [lia|]. intros j Hj Hj'. rewrite (frame_get _ _ _ _ _ F2), (frame_get _ _ _ _ _ F1); lia || done.
  - replace n with (c + (n - c)) by lia. rewrite !slice_split by lia. f_equal; [|done].
    rewrite <- S1. apply (slice_frame _ _ pos c _ _ F2); lia.
  - intros Hnl. replace (p + n) with (p + c + (n - c)) by lia. apply HA. lia.
  - intros Hnl. apply HB. lia.
Qed.

(** Several calls of [br_hkdf_produce], on successive parts of one array. *)
Fixpoint hkdf_outputs (hc : hkdf_ctx HC) (info : list Z) (lens : list Z) (out : list Z) (o : Z)
    : M (hkdf_ctx HC * list Z) :=
  match lens with
  | [] => mret (hc, out)
  | n :: lens =>
      '(hc, out, _) ← br_hkdf_produce hc info (zlen info) out o n;
      hkdf_outputs hc info lens out (o + n)
  end.

(** Initialisation, one injection of the input, the flip. *)
Definition hkdf_extract (hc : hkdf_ctx HC) (salt : option (list Z)) (ikm : list Z) : M (hkdf_ctx HC) :=
  hc ← br_hkdf_init hc salt (match salt with Some s => zlen s | None => 0 end);
  hc ← br_hkdf_inject hc ikm 0 (zlen ikm);
  br_hkdf_flip hc.

Lemma hkdf_extract_ok hc salt ikm info :
  zlen (hk_buf hc) = 64 -> (match salt with Some s => byte_string s | None => True end) ->
  byte_string ikm -> byte_string info ->
  ok (hkdf_extract hc salt ikm) (fun hc' => expand_rep hc' (hkdf_prk salt ikm) info 0 0).
Proof.
  intros Hb Hs Hi Hinfo. pose proof hash_size_pos as Hh. unfold hkdf_extract, br_hkdf_init.
  do 2 cstep. set (S := default (replicate (Z.to_nat hash_size) 0) salt).
  apply (ok_mono _ (fun '(s, n) => 0 <= n <= zlen s /\ bytes s 0 n /\ slice s 0 n = S)).
  { unfold S. destruct salt as [s|]; cbn [default].
    - cstep. split; [lia|]. split; [by apply bytes_get|by apply slice_all].
    - cstep. apply ok_memset; rewrite ?length_replicate; try lia. cstep.
      rewrite zlen_fillz by (rewrite ?length_replicate; lia). rewrite length_replicate. split; [lia|]. split.
      + intros i Hi'. rewrite get_fillz_in by (rewrite ?length_replicate; lia). done.
      + apply list_eq_get; rewrite zlen_slice by (rewrite ?zlen_fillz, ?length_replicate; rewrite ?length_replicate; lia).
        { rewrite length_replicate. lia. }
        intros i Hi'. rewrite get_slice, get_fillz_in, get_replicate by (rewrite ?length_replicate; lia). done. }
  intros [s n] (Hn & HB & ES). cstep. eapply ok_mono; [apply hmac_key_init_ok; [done|lia|done]|].
  intros kc HR. rewrite ES in HR. cstep. eapply ok_mono; [apply hmac_init_ok; [apply auto_hmac_shape|done]|].
  intros ctx HR'. replace (hmac_len 0) with hash_size in HR' by done. cstep.
  unfold br_hkdf_inject, get_hmac. cbn [hk_u hk_buf hk_ptr hk_dig_len hk_chunk_num].
  cstep. cstep. cstep. cstep. eapply ok_mono.
  { apply (hmac_update_ok ctx S hash_size [] ikm 0 (zlen ikm) HR'); try lia. by apply bytes_get. }
  cbv beta. intros c R. rewrite slice_all in R by done. cstep. unfold br_hkdf_flip, get_hmac.
  cbn [hk_u hk_buf hk_ptr hk_dig_len hk_chunk_num]. cstep. cstep. cstep.
  eapply ok_mono; [apply (hmac_out_full c S _ (replicate 64 0) 0 R); rewrite ?length_replicate; lia|].
  intros [t k] (-> & HF & HS'). pose proof (frame_len _ _ _ _ HF) as L. rewrite length_replicate in L.
  rewrite (hmac_out_len _ _ _ _ HR'). cstep. eapply ok_mono.
  { apply (hmac_key_init_ok auto_key t hash_size); [done|lia|]. intros i Hi'.
    replace i with (0 + i) by lia. rewrite <- (get_slice t 0 hash_size) by lia. rewrite HS'.
    apply (proj1 (bytes_get _) (HMAC_bytes _ _)). rewrite HMAC_len. lia. }
  intros k HR2. rewrite HS' in HR2. cstep.
  split; cbn [hk_u hk_buf hk_ptr hk_dig_len hk_chunk_num]; try done; try lia.
  - by exists k.
  - exists 0. repeat split; lia.
Qed.

Lemma hkdf_outputs_ok lens : forall hc prk info base p out o,
  expand_rep hc prk info base p -> Forall (Z.le 0) lens ->
  let n := fold_right Z.add 0 lens in
  p + n <= 255 * hash_size -> 0 <= o -> o + n <= zlen out ->
  ok (hkdf_outputs hc info lens out o) (fun '(hc', d) => expand_rep hc' prk info base (p + n) /\
    frame o (o + n) out d /\ slice d o n = slice (okm prk info) p n).
Proof.
  induction lens as [|k l IH]; intros hc prk info base p out o HR HF n Hle Ho Hl.
  { cbn in n. subst n. cbn [hkdf_outputs]. cstep. rewrite !Z.add_0_r. done. }
  apply Forall_cons_iff in HF as [Hk HF]. cbn [fold_right] in n.
  set (m := fold_right Z.add 0 l) in *.
  assert (Hm : 0 <= m) by (unfold m; clear -HF; induction HF; cbn; lia).
  cbn [hkdf_outputs]. pose proof (rep_range _ _ _ _ _ HR) as Hp.
  pose proof (zlen_okm prk info 255) as HO. cstep.
  eapply ok_mono; [apply (hkdf_loop_ok _ hc prk info base p out o k 0 HR); lia|].
  cbv zeta. replace (Z.min k (255 * hash_size - p)) with k by lia.
  intros [[hc1 d1] t] (_ & F1 & S1 & HA & _). pose proof (frame_len _ _ _ _ F1).
  eapply ok_mono; [apply (IH hc1 prk info base (p + k) d1 (o + k)); try done; try lia|].
  { by apply HA. }
  fold m. intros [hc2 d2] (HR2 & F2 & S2). pose proof (frame_len _ _ _ _ F2).
  replace (p + n) with (p + k + m) by lia. split; [done|]. split.
  - split; [lia|]. intros j Hj Hj'. rewrite (frame_get _ _ _ _ _ F2), (frame_get _ _ _ _ _ F1); lia || done.
  - unfold n. rewrite !slice_split by lia. f_equal; [|done].
    rewrite <- S1. apply (slice_frame _ _ o k _ _ F2); lia.
Qed.

(** [C38] HKDF of RFC 5869, whatever the sizes of the successive requests, as long as
    their total is at most 255 blocks. *)
Theorem hkdf_correct hc salt ikm info lens out o :
  zlen (hk_buf hc) = 64 -> (match salt with Some s => byte_string s | None => True end) ->
  byte_string ikm -> byte_string info -> Forall (Z.le 0) lens ->
  let n := fold_right Z.add 0 lens in
  n <= 255 * hash_size -> 0 <= o -> o + n <= zlen out ->
  ok (hc ← hkdf_extract hc salt ikm; hkdf_outputs hc info lens out o) (fun '(_, d) =>
    frame o (o + n) out d /\
    slice d o n = slice (hkdf_okm (hkdf_prk salt ikm) info 255) 0 n).
Proof.
  intros Hb Hs Hi Hinfo HF n Hn Ho Hl. cstep.
  eapply ok_mono; [by apply (hkdf_extract_ok hc salt ikm info)|].
  intros hc1 HR. eapply ok_mono; [apply (hkdf_outputs_ok lens hc1 _ info 0 0 out o HR); done|].
  intros [hc2 d] (_ & HF' & HS'). done.
Qed.

(** [C39] A request beyond the limit is truncated, but the request after it starts
    the same stream again: its first [k] bytes are those of the first block. *)
Theorem hkdf_restart hc salt ikm info out out2 n k :
  zlen (hk_buf hc) = 64 -> (match salt with Some s => byte_string s | None => True end) ->
  byte_string ikm -> byte_string info ->
  255 * hash_size < n <= zlen out -> 0 <= k <= 255 * hash_size -> k <= zlen out2 ->
  ok (hc ← hkdf_extract hc salt ikm;
      '(hc, out, l1) ← br_hkdf_produce hc info (zlen info) out 0 n;
      '(hc, out2, l2) ← br_hkdf_produce hc info (zlen info) out2 0 k;
      mret (out, l1, out2, l2)) (fun '(d, l1, d2, l2) =>
    l1 = 255 * hash_size /\ l2 = k /\ slice d 0 k = slice d2 0 k).
Proof.
  intros Hb Hs Hi Hinfo Hn Hk Hl2. pose proof hash_size_pos as Hh. cstep.
  eapply ok_mono; [by apply (hkdf_extract_ok hc salt ikm info)|].
  intros hc1 HR. set (prk := hkdf_prk salt ikm) in *. pose proof (zlen_okm prk info 255) as HO.
  cstep. eapply ok_mono; [apply (hkdf_loop_ok _ hc1 prk info 0 0 out 0 n 0 HR); lia|].
  cbv zeta. replace (Z.min n (255 * hash_size - 0)) with (255 * hash_size) by lia.
  intros [[hc2 d1] l1] (-> & F1 & S1 & _ & HB). specialize (HB ltac:(lia)).
  cstep. eapply ok_mono; [apply (hkdf_loop_ok _ hc2 prk info 256 0 out2 0 k 0 HB); lia|].
  cbv zeta. replace (Z.min k (255 * hash_size - 0)) with k by lia.
  intros [[hc3 d2] l2] (-> & F2 & S2 & _). cstep. split; [lia|]. split; [lia|].
  pose proof (frame_len _ _ _ _ F1). rewrite S2.
  assert (E : slice (slice d1 0 (255 * hash_size)) 0 k = slice (slice (okm prk info) 0 (255 * hash_size)) 0 k)
    by (by rewrite S1).
  unfold slice in *. cbn [Z.to_nat drop] in *. rewrite !drop_0, !take_take in E. rewrite !drop_0.
  by replace (Z.to_nat k `min` Z.to_nat (255 * hash_size))%nat with (Z.to_nat k) in E by lia.
Qed.
End Spec.

Definition new_hkdf : hkdf_ctx br_sha256_class := HkdfCtx (HkdfPrk auto_key) (replicate 64 0) 0 0 0.

Lemma hkdf_correct_witness :
  ok (hc ← hkdf_extract new_hkdf None [1; 2]; hkdf_outputs hc [3] [10; 0; 40] (replicate 60 0) 5)
    (fun '(_, d) => frame 5 55 (replicate 60 0) d /\
      slice d 5 50 = slice (hkdf_okm (HS:=br_sha256_spec) (hkdf_prk (HS:=br_sha256_spec) None [1; 2]) [3] 255) 0 50).
Proof.
  apply (hkdf_correct (HS:=br_sha256_spec) new_hkdf None [1; 2] [3] [10; 0; 40] (replicate 60 0) 5);
    first [done | by repeat constructor].
Defined.

Lemma hkdf_restart_witness :
  ok (hc ← hkdf_extract new_hkdf None [1; 2];
      '(hc, out, l1) ← br_hkdf_produce hc [3] 1 (replicate (Z.to_nat 9000) 0) 0 9000;
      '(hc, out2, l2) ← br_hkdf_produce hc [3] 1 (replicate 20 0) 0 16;
      mret (out, l1, out2, l2)) (fun '(d, l1, d2, l2) =>
    l1 = 8160 /\ l2 = 16 /\ slice d 0 16 = slice d2 0 16).
Proof.
  apply (hkdf_restart (HS:=br_sha256_spec) new_hkdf None [1; 2] [3]
    (replicate (Z.to_nat 9000) 0) (replicate 20 0) 9000 16);
    rewrite ?length_replicate, ?Z2Nat.id; first [done | by repeat constructor].
Defined.
