(* ===== verification/Prng.v ===== *)
(** The interface of the random generators, [br_prng_class] of
    [inc/bearssl_rand.h]: the operations, and what a client may rely on.

    A generator is an abstract machine: [prng_next s len] is the state after a
    request of [len] bytes in the state [s] and the bytes it gives, [prng_mix]
    the state after the injection of a seed. *)
From stdpp Require Import base tactics list numbers option.
From Stdlib Require Import ZArith Lia.
From S2P Require Import Prelude CtPrims Limbs Codec Hash.
Local Open Scope Z_scope.

Class PrngClass := {
  prng_ctx : Type;
  prng_generate : prng_ctx -> list Z -> Z -> Z -> M (prng_ctx * list Z);
  prng_update : prng_ctx -> list Z -> Z -> M prng_ctx
}.

Class PrngSpec (PC : PrngClass) := {
  prng_state : Type;
  prng_rep : prng_ctx -> prng_state -> Prop;
  prng_next : prng_state -> Z -> prng_state * list Z;
  prng_mix : prng_state -> list Z -> prng_state;
  prng_next_bytes c s len : prng_rep c s -> 0 <= len -> byte_string (prng_next s len).2;
  prng_generate_ok c s out o len :
    prng_rep c s -> 0 <= len < 2 ^ 64 -> 0 <= o -> o + len <= zlen out ->
    ok (prng_generate c out o len) (fun '(c', d) =>
      prng_rep c' (prng_next s len).1 /\ frame o (o + len) out d /\
      slice d o len = (prng_next s len).2);
  prng_update_ok c s seed len :
    prng_rep c s -> 0 <= len <= zlen seed -> bytes seed 0 len ->
    ok (prng_update c seed len) (fun c' => prng_rep c' (prng_mix s (slice seed 0 len)))
}.

(** * Sequences of operations *)

Inductive prng_op := Reseed (seed : list Z) | Generate (len : Z).

Definition op_ok (op : prng_op) : Prop :=
  match op with Reseed seed => byte_string seed | Generate len => 0 <= len < 2 ^ 64 end.

(** The code on a sequence of operations, each generation in a fresh array; the
    abstract machine. *)
Fixpoint prng_run {PC : PrngClass} (ctx : prng_ctx) (ops : list prng_op) : M (prng_ctx * list (list Z)) :=
  match ops with
  | [] => mret (ctx, [])
  | Reseed seed :: ops =>
      ctx ← prng_update ctx seed (zlen seed);
      prng_run ctx ops
  | Generate len :: ops =>
      '(ctx, out) ← prng_generate ctx (replicate (Z.to_nat len) 0) 0 len;
      '(ctx, outs) ← prng_run ctx ops;
      mret (ctx, out :: outs)
  end.
Fixpoint machine_run {PC : PrngClass} {PS : PrngSpec PC} (s : prng_state) (ops : list prng_op) : list (list Z) :=
  match ops with
  | [] => []
  | Reseed seed :: ops => machine_run (prng_mix s seed) ops
  | Generate len :: ops => (prng_next s len).2 :: machine_run (prng_next s len).1 ops
  end.

Lemma prng_run_ok {PC : PrngClass} {PS : PrngSpec PC} ops : forall ctx s, prng_rep ctx s -> Forall op_ok ops ->
  ok (prng_run ctx ops) (fun '(_, outs) => outs = machine_run s ops).
Proof.
  induction ops as [|[seed|len] ops IH]; intros ctx s HR HF; cbn [prng_run machine_run].
  - by cstep.
  - apply Forall_cons_iff in HF as [Hs HF]. cstep.
    eapply ok_mono; [apply (prng_update_ok ctx s seed (zlen seed) HR); [lia|by apply bytes_get]|].
    cbv beta. intros c HR'. rewrite slice_all in HR' by done. by apply IH.
  - apply Forall_cons_iff in HF as [Hlen HF]. cbn [op_ok] in Hlen. cstep.
    eapply ok_mono; [apply (prng_generate_ok ctx s _ 0 len HR); rewrite ?length_replicate; lia|].
    intros [c out] (HR' & HF' & HS'). cstep. eapply ok_mono; [by apply (IH c)|].
    intros [c' outs] ->. cstep. f_equal. rewrite <- HS'. symmetry. apply slice_all.
    rewrite (frame_len _ _ _ _ HF'), length_replicate. lia.
Qed.
