(* ===== verification/HmacDrbg.v ===== *)
(** HMAC_DRBG ([src/rand/hmac_drbg.c]) over the HMAC code: the three operations
    refine the ones of NIST SP 800-90A on a pair (K, V). *)
From stdpp Require Import base tactics list numbers option.
From Stdlib Require Import ZArith Lia.
From S2P Require Import Prelude CtPrims Limbs Codec Hash Sha2 Hmac Prng.
Local Open Scope Z_scope.
Local Open Scope cword_scope.

(** * Code *)

Section Code.
Context {HC : HashClass}.

(** [br_hmac_drbg_context]: two arrays of 64 bytes. *)
Record drbg_ctx := DrbgCtx { dr_K : list Z; dr_V : list Z }.

(** [V = HMAC(K, V)], with the key context [kc]. *)
Definition drbg_V (hc : hmac_ctx HC) (kc : hmac_key) (V : list Z) : M (hmac_ctx HC * list Z) :=
  hc ← br_hmac_init hc kc 0;
  hc ← br_hmac_update hc V 0 hash_size;
  '(V, _) ← br_hmac_out hc V 0;
  mret (hc, V).

(** [K = HMAC(K, V || x || seed)]; no seed is injected for [None]. *)
Definition drbg_K (hc : hmac_ctx HC) (kc : hmac_key) (ctx : drbg_ctx) (x : Z) (seed : option (list Z * Z))
    : M (hmac_ctx HC * list Z) :=
  hc ← br_hmac_init hc kc 0;
  hc ← br_hmac_update hc (dr_V ctx) 0 hash_size;
  hc ← br_hmac_update hc [x] 0 1;
  hc ← (match seed with Some (s, len) => br_hmac_update hc s 0 len | None => mret hc end);
  '(K, _) ← br_hmac_out hc (dr_K ctx) 0;
  mret (hc, K).

Definition br_hmac_drbg_update (ctx : drbg_ctx) (seed : list Z) (len : Z) : M drbg_ctx :=
  kc ← br_hmac_key_init auto_key (dr_K ctx) hash_size;
  '(hc, K) ← drbg_K auto_hmac kc ctx 0 (Some (seed, len));
  kc ← br_hmac_key_init kc K hash_size;
  '(hc, V) ← drbg_V hc kc (dr_V ctx);
  If len =? 0 Then mret (DrbgCtx K V)
  Else
    '(hc, K) ← drbg_K hc kc (DrbgCtx K V) 1 (Some (seed, len));
    kc ← br_hmac_key_init kc K hash_size;
    '(hc, V) ← drbg_V hc kc V;
    mret (DrbgCtx K V).

Definition br_hmac_drbg_init (ctx : drbg_ctx) (seed : list Z) (len : Z) : M drbg_ctx :=
  K ← memset (dr_K ctx) 0 0 hash_size;
  V ← memset (dr_V ctx) 0 1 hash_size;
  br_hmac_drbg_update (DrbgCtx K V) seed len.

Fixpoint drbg_loop (fuel : nat) (hc : hmac_ctx HC) (kc : hmac_key) (V out : list Z) (pos len : Z)
    : M (hmac_ctx HC * list Z * list Z) :=
  match fuel with
  | O => None
  | S fuel =>
      If 0 <? len Then
        '(hc, V) ← drbg_V hc kc V;
        let clen := hash_size in
        clen ← (If len <? clen Then mret len Else mret clen);
        out ← memcpy out pos V 0 clen;
        drbg_loop fuel hc kc V out (pos + clen) (len - clen)
      Else mret (hc, V, out)
  end.

Definition br_hmac_drbg_generate (ctx : drbg_ctx) (out : list Z) (o len : Z) : M (drbg_ctx * list Z) :=
  kc ← br_hmac_key_init auto_key (dr_K ctx) hash_size;
  '(hc, V, out) ← drbg_loop (S (Z.to_nat len)) auto_hmac kc (dr_V ctx) out o len;
  '(hc, K) ← drbg_K hc kc (DrbgCtx (dr_K ctx) V) 0 None;
  kc ← br_hmac_key_init kc K hash_size;
  '(hc, V) ← drbg_V hc kc V;
  mret (DrbgCtx K V, out).
End Code.

(** * SP 800-90A *)

Section Spec.
Context {HC : HashClass} {HS : HashSpec HC}.

(** HMAC_DRBG_Update. *)
Definition sp_update (s : list Z * list Z) (seed : list Z) : list Z * list Z :=
  let '(K, V) := s in
  let K := HMAC K (V ++ [0] ++ seed) in
  let V := HMAC K V in
  match seed with
  | [] => (K, V)
  | _ => let K := HMAC K (V ++ [1] ++ seed) in (K, HMAC K V)
  end.
Definition sp_init (seed : list Z) : list Z * list Z :=
  sp_update (replicate (Z.to_nat hash_size) 0, replicate (Z.to_nat hash_size) 1) seed.

(** The successive values of V, and the output they form. *)
Fixpoint sp_iter (K V : list Z) (n : nat) : list Z :=
  match n with O => V | S n => sp_iter K (HMAC K V) n end.
Fixpoint sp_stream (K V : list Z) (n : nat) : list Z :=
  match n with O => [] | S n => HMAC K V ++ sp_stream K (HMAC K V) n end.
(** The number of blocks that [len] bytes need. *)
Definition sp_blocks (len : Z) : nat := Z.to_nat ((len + hash_size - 1) / hash_size).
Definition sp_generate (s : list Z * list Z) (len : Z) : (list Z * list Z) * list Z :=
  let '(K, V) := s in
  let n := sp_blocks len in
  (sp_update (K, sp_iter K V n) [], take (Z.to_nat len) (sp_stream K V n)).

(** The context holds a pair (K, V). *)
Record holds (a X : list Z) : Prop := Holds {
  holds_len : zlen a = 64;
  holds_bytes : byte_string X;
  holds_val : slice a 0 hash_size = X
}.
Definition drbg_rep (ctx : drbg_ctx) (s : list Z * list Z) : Prop :=
  holds (dr_K ctx) s.1 /\ holds (dr_V ctx) s.2.

Lemma holds_read a X : holds a X -> bytes a 0 hash_size.
Proof.
  intros [HL HB HV] i Hi. pose proof hash_size_pos. replace i with (0 + i) by lia.
  rewrite <- (get_slice a 0 hash_size) by lia. rewrite HV.
  apply (proj1 (bytes_get _) HB). rewrite <- HV, zlen_slice; lia.
Qed.

Lemma holds_hmac a d K msg : frame 0 (0 + hash_size) a d ->
  slice d 0 hash_size = HMAC K msg -> zlen a = 64 -> holds d (HMAC K msg).
Proof. intros HF HS' HL. split; [by rewrite (frame_len _ _ _ _ HF)|apply HMAC_bytes|done]. Qed.

Lemma drbg_key_ok kc a K : key_shape kc -> holds a K ->
  ok (br_hmac_key_init kc a hash_size) (fun kc' => key_rep kc' K).
Proof.
  intros Hk HK. pose proof hash_size_pos. eapply ok_mono.
  { apply (hmac_key_init_ok kc a hash_size Hk); [destruct HK; lia|by eapply holds_read]. }
  cbv beta. intros kc' HR. by rewrite (holds_val _ _ HK) in HR.
Qed.

Lemma drbg_V_ok hc kc K V v : hmac_shape hc -> key_rep kc K -> holds v V ->
  ok (drbg_V hc kc v) (fun '(hc', v') => hmac_shape hc' /\ holds v' (HMAC K V)).
Proof.
  intros Hs HK HV. pose proof hash_size_pos. pose proof (holds_len _ _ HV). unfold drbg_V.
  cstep. eapply ok_mono; [by apply hmac_init_ok|]. cbv beta. intros c R.
  replace (hmac_len 0) with hash_size in R by done. cstep. eapply ok_mono.
  { apply (hmac_update_ok c K _ [] v 0 hash_size R); try lia. by eapply holds_read. }
  cbv beta. intros c1 R1. rewrite (holds_val _ _ HV) in R1. cstep.
  eapply ok_mono; [apply (hmac_out_full c1 K V v 0 R1); lia|].
  intros [d k] (-> & HF & HS'). cstep. split; [by eapply hmac_rep_shape|by eapply holds_hmac].
Qed.

Lemma drbg_K_ok hc kc K V ctx x seed : hmac_shape hc -> key_rep kc K -> word 8 x ->
  holds (dr_V ctx) V -> zlen (dr_K ctx) = 64 ->
  (match seed with Some (s, len) => 0 <= len <= zlen s /\ bytes s 0 len | None => True end) ->
  let sd := match seed with Some (s, len) => slice s 0 len | None => [] end in
  ok (drbg_K hc kc ctx x seed) (fun '(hc', k') => hmac_shape hc' /\ holds k' (HMAC K (V ++ [x] ++ sd))).
Proof.
  intros Hs HK Hx HV HL Hseed sd. pose proof hash_size_pos. pose proof (holds_len _ _ HV). unfold drbg_K.
  cstep. eapply ok_mono; [by apply hmac_init_ok|]. cbv beta. intros c R.
  replace (hmac_len 0) with hash_size in R by done. cstep. eapply ok_mono.
  { apply (hmac_update_ok c K _ [] (dr_V ctx) 0 hash_size R); try lia. by eapply holds_read. }
  cbv beta. intros c1 R1. rewrite (holds_val _ _ HV) in R1. cbn [app] in R1. cstep. eapply ok_mono.
  { apply (hmac_update_ok c1 K _ V [x] 0 1 R1); try done; try (simpl; lia).
    intros i Hi. by assert (i = 0) as -> by lia. }
  cbv beta. intros c2 R2. change (slice [x] 0 1) with [x] in R2. cstep.
  apply (ok_mono _ (fun c => hmac_rep c K hash_size (V ++ [x] ++ sd))).
  { destruct seed as [[s len]|]; subst sd.
    - destruct Hseed as [Hlen HB]. eapply ok_mono.
      { apply (hmac_update_ok c2 K _ _ s 0 len R2); done || lia. }
      cbv beta. intros c3 R3. by rewrite <- app_assoc in R3.
    - cstep. by rewrite app_nil_r. }
  intros c3 R3. cstep. eapply ok_mono; [apply (hmac_out_full c3 K _ (dr_K ctx) 0 R3); lia|].
  intros [d k] (-> & HF & HS'). cstep. split; [by eapply hmac_rep_shape|by eapply holds_hmac].
Qed.

Lemma drbg_update_ok ctx s seed len :
  drbg_rep ctx s -> 0 <= len <= zlen seed -> bytes seed 0 len ->
  ok (br_hmac_drbg_update ctx seed len) (fun ctx' => drbg_rep ctx' (sp_update s (slice seed 0 len))).
Proof.
  intros [HK HV] Hlen HB. destruct s as [K V]. cbn [fst snd] in HK, HV. unfold br_hmac_drbg_update, sp_update.
  assert (Hsd : zlen (slice seed 0 len) = len) by (apply zlen_slice; lia).
  remember (slice seed 0 len) as sd eqn:Esd.
  cstep. eapply ok_mono; [by apply drbg_key_ok; [apply auto_key_shape|]|]. cbv beta. intros kc R.
  cstep. eapply ok_mono; [apply (drbg_K_ok _ kc K V ctx 0 (Some (seed, len))); try done|].
  { apply auto_hmac_shape. } { by destruct HK. }
  intros [hc K1] [S1 HK1]. rewrite <- Esd in HK1. cstep.
  eapply ok_mono; [eapply drbg_key_ok; [by eapply key_rep_shape|eassumption]|]. cbv beta. intros kc1 R1.
  cstep. eapply ok_mono; [by eapply (drbg_V_ok hc kc1 _ V)|]. cbv beta. intros [hc1 V1] [S2 HV1].
  apply ok_cond; intros E.
  - apply Z.eqb_eq in E. rewrite E in Hsd. destruct sd; [|simpl in Hsd; lia]. cstep. done.
  - apply Z.eqb_neq in E. destruct sd as [|b sd']; [simpl in Hsd; lia|].
    cstep. eapply ok_mono; [eapply (drbg_K_ok hc1 kc1 _ _ (DrbgCtx K1 V1) 1 (Some (seed, len)) S2 R1);
      [done|exact HV1|by destruct HK1|done]|]. cbv beta.
    intros [hc2 K2] [S3 HK2]. rewrite <- Esd in HK2. cstep.
    eapply ok_mono; [eapply drbg_key_ok; [by eapply key_rep_shape|eassumption]|]. cbv beta. intros kc2 R2.
    cstep. eapply ok_mono; [by eapply (drbg_V_ok hc2 kc2 _ _)|]. cbv beta. intros [hc3 V2] [S4 HV2].
    cstep. by split.
Qed.

Lemma holds_fill a v : zlen a = 64 -> word 8 v ->
  holds (fillz a 0 v hash_size) (replicate (Z.to_nat hash_size) v).
Proof.
  intros Ha Hv. pose proof hash_size_pos. split.
  - rewrite zlen_fillz; lia.
  - by apply Forall_replicate.
  - apply list_eq_get; rewrite zlen_slice by (rewrite ?zlen_fillz; lia); [rewrite length_replicate; lia|].
    intros i Hi. rewrite get_slice, get_fillz_in, get_replicate by lia. done.
Qed.

(** The loop of [br_hmac_drbg_generate]. *)
Lemma drbg_loop_ok fuel : forall hc kc K V v out pos len,
  hmac_shape hc -> key_rep kc K -> holds v V -> 0 <= len < Z.of_nat fuel -> 0 <= pos ->
  pos + len <= zlen out ->
  ok (drbg_loop fuel hc kc v out pos len) (fun '(hc', v', d) => hmac_shape hc' /\
    holds v' (sp_iter K V (sp_blocks len)) /\ frame pos (pos + len) out d /\
    slice d pos len = take (Z.to_nat len) (sp_stream K V (sp_blocks len))).
Proof.
  induction fuel as [|fuel IH]; intros hc kc K V v out pos len Hs HK HV Hlen Hpos Hl; [lia|].
  pose proof hash_size_pos as Hh. cbn [drbg_loop]. apply ok_cond; intros E.
  2:{ apply Z.ltb_ge in E. assert (len = 0) as -> by lia. cstep.
    replace (sp_blocks 0) with 0%nat by (unfold sp_blocks; rewrite Z.div_small; lia).
    rewrite Z.add_0_r, slice_nil. done. }
  apply Z.ltb_lt in E. cstep. eapply ok_mono; [by eapply (drbg_V_ok hc kc K V)|].
  intros [hc1 v1] [S1 HV1]. cbv zeta. cstep.
  apply (ok_mono _ (fun c => c = Z.min len hash_size)).
  { apply ok_cond; intros Ec; cstep; [apply Z.ltb_lt in Ec|apply Z.ltb_ge in Ec]; lia. }
  intros c Ec. pose proof (holds_len _ _ HV1). cstep. apply ok_memcpy; try lia.
  set (o1 := blit out pos v1 0 c). assert (L1 : zlen o1 = zlen out) by (unfold o1; apply zlen_blit; lia).
  assert (F1 : frame pos (pos + c) out o1) by (apply frame_blit; lia).
  assert (EB : sp_blocks len = S (sp_blocks (len - c))).
  { unfold sp_blocks. destruct (Z.le_gt_cases len hash_size).
    - replace c with len by lia. rewrite (Z.div_small (len - len + _ - 1)) by lia.
      replace ((len + hash_size - 1) / hash_size) with 1; [done|].
      apply (Z.div_unique_pos _ _ _ (len - 1)); lia.
    - replace c with hash_size by lia.
      replace (len + hash_size - 1) with (len - hash_size + hash_size - 1 + 1 * hash_size) by lia.
      rewrite Z.div_add by lia. rewrite Z2Nat.inj_add by (try apply Z.div_pos; lia). lia. }
  eapply ok_mono; [by apply (IH hc1 kc K (HMAC K V) v1 o1 (pos + c) (len - c)); try done; lia|].
  intros [[hc2 v2] d] (S2 & HV2 & F2 & HS2). pose proof (frame_len _ _ _ _ F2).
  rewrite EB. cbn [sp_iter sp_stream]. split; [done|]. split; [done|]. split.
  - split; [lia|]. cbv beta. intros j Hj Hj'. rewrite (frame_get _ _ _ _ _ F2), (frame_get _ _ _ _ _ F1); lia || done.
  - assert (E1 : slice d pos c = take (Z.to_nat c) (HMAC K V)).
    { rewrite (slice_frame o1 d pos c _ _ F2) by lia. unfold o1. rewrite slice_blit_in by lia.
      rewrite <- (holds_val _ _ HV1). unfold slice. rewrite take_take. f_equal. lia. }
    pose proof (HMAC_len K V). replace len with (c + (len - c)) at 1 by lia.
    rewrite slice_split, E1, HS2 by lia. destruct (Z.le_gt_cases len hash_size).
    + replace (len - c) with 0 by lia. rewrite take_0, app_nil_r, take_app_le by lia. f_equal. lia.
    + replace c with hash_size in * by lia. rewrite (take_ge (HMAC K V)) by lia.
      rewrite take_app, (take_ge (HMAC K V)) by lia. do 2 f_equal. lia.
Qed.

Lemma drbg_generate_ok ctx s out o len :
  drbg_rep ctx s -> 0 <= len -> 0 <= o -> o + len <= zlen out ->
  ok (br_hmac_drbg_generate ctx out o len) (fun '(ctx', d) =>
    drbg_rep ctx' (sp_generate s len).1 /\ frame o (o + len) out d /\
    slice d o len = (sp_generate s len).2).
Proof.
  intros [HK HV] Hlen Ho Hl. destruct s as [K V]. cbn [fst snd] in HK, HV.
  unfold br_hmac_drbg_generate, sp_generate, sp_update. cbn [fst snd].
  cstep. eapply ok_mono; [by apply drbg_key_ok; [apply auto_key_shape|]|]. cbv beta. intros kc R. cstep.
  eapply ok_mono; [apply (drbg_loop_ok _ auto_hmac kc K V); try done; [apply auto_hmac_shape|lia]|].
  intros [[hc v] d] (S1 & HV1 & HF & HS1). cstep.
  eapply ok_mono; [eapply (drbg_K_ok hc kc K _ (DrbgCtx (dr_K ctx) v) 0 None S1 R);
    [done|exact HV1|by destruct HK|done]|]. cbv beta.
  intros [hc1 k] [S2 HK1]. cstep. eapply ok_mono; [eapply drbg_key_ok; [by eapply key_rep_shape|eassumption]|].
  cbv beta. intros kc1 R1. cstep. eapply ok_mono; [by eapply (drbg_V_ok hc1 kc1 _ _)|].
  intros [hc2 v2] [S3 HV2]. cstep. split; [by split|]. done.
Qed.

(** * The generator as a random generator *)

#[export] Instance drbg_class : PrngClass :=
  {| prng_ctx := drbg_ctx; prng_generate := br_hmac_drbg_generate; prng_update := br_hmac_drbg_update |}.

Lemma sp_stream_bytes n : forall K V, byte_string (sp_stream K V n).
Proof.
  induction n as [|n IH]; intros K V; cbn [sp_stream]; [constructor|].
  apply byte_string_app. split; [apply HMAC_bytes|apply IH].
Qed.

#[export, refine] Instance drbg_spec : PrngSpec drbg_class :=
  {| prng_state := (list Z * list Z)%type; prng_rep := drbg_rep;
     prng_next := sp_generate; prng_mix := sp_update |}.
Proof.
  - intros c [K V] len _ _. apply Forall_take, sp_stream_bytes.
  - intros c s out o len HR [Hl _] Ho HL. by apply drbg_generate_ok.
  - intros. by apply drbg_update_ok.
Defined.
(** [C37] For every hash function of the interface, a generator seeded with [seed] and driven by
    any sequence of reseedings and requests returns the outputs of the
    HMAC_DRBG of SP 800-90A. *)
Theorem hmac_drbg_refines ctx seed ops :
  zlen (dr_K ctx) = 64 -> zlen (dr_V ctx) = 64 -> byte_string seed -> Forall op_ok ops ->
  ok (ctx ← br_hmac_drbg_init ctx seed (zlen seed); prng_run (PC:=drbg_class) ctx ops)
    (fun '(_, outs) => outs = machine_run (PS:=drbg_spec) (sp_init seed) ops).
Proof.
  intros HK HV Hs HF. pose proof hash_size_pos. unfold br_hmac_drbg_init. apply ok_assoc.
  cstep. apply ok_memset; try lia. apply ok_assoc. cstep. apply ok_memset; try lia. cstep.
  eapply ok_mono; [apply (drbg_update_ok _ (replicate (Z.to_nat hash_size) 0, replicate (Z.to_nat hash_size) 1))|].
  - by split; apply holds_fill.
  - lia.
  - by apply bytes_get.
  - cbv beta. intros c HR. rewrite slice_all in HR by done. by apply (prng_run_ok (PS:=drbg_spec)).
Qed.
End Spec.

Lemma hmac_drbg_refines_witness :
  ok (ctx ← br_hmac_drbg_init (HC:=br_sha256_class) (DrbgCtx (replicate 64 7) (replicate 64 7)) [1; 2; 3] 3;
      prng_run (PC:=drbg_class (HC:=br_sha256_class)) ctx [Generate 40; Reseed [4]; Generate 0; Generate 1])
    (fun '(_, outs) => outs = machine_run (PS:=drbg_spec (HS:=br_sha256_spec)) (sp_init (HS:=br_sha256_spec) [1; 2; 3])
      [Generate 40; Reseed [4]; Generate 0; Generate 1]).
Proof.
  apply (hmac_drbg_refines (HS:=br_sha256_spec) (DrbgCtx (replicate 64 7) (replicate 64 7)) [1; 2; 3]);
    first [done | repeat constructor; by repeat constructor].
Defined.
