(* ===== verification/AesCtrDrbg.v ===== *)
(** AESCTR_DRBG ([src/rand/aesctr_drbg.c]) over any implementation of CTR for
    AES: the generator refines an abstract machine on a key and a counter, whose
    keys come from the double-block-length hash function of Hirose. *)
From stdpp Require Import base tactics list numbers option.
From Stdlib Require Import ZArith Lia.
From S2P Require Import Prelude CtPrims Limbs Codec Hash Fips197 AesSlice Modes AesCtModes AesCt64Modes Prng.
Local Open Scope Z_scope.
Local Open Scope cword_scope.

(** * Code *)

Section Code.
Context {C : CtrClass}.

(** [br_aesctr_drbg_context]. *)
Record aesctr_ctx := AesCtrCtx { ac_sk : @ctr_ctx C; ac_cc : Z }.

(** The second half of [tmp] of one turn, with what is left of the seed;
    [None] at its end. *)
Definition hirose_block (first : bool) (H s seed : list Z) (pos len : Z) : M (option (list Z * Z * Z)) :=
  tmp ← memcpy (replicate 32 0) 0 H 0 16;
  If first Then
    tmp ← memcpy tmp 16 s 0 16;
    mret (Some (tmp, pos, len))
  Else If len =? 0 Then mret None
  Else
    clen ← (If len <? 16 Then mret len Else mret 16);
    tmp ← memcpy tmp 16 seed pos clen;
    tmp ← memset tmp (16 + clen) 0 (16 - clen);
    mret (Some (tmp, pos + clen, len - clen)).

(** The key and the new values of [G] and [H]; returns [(sk, iv, G, H)]. *)
Definition hirose_step (sk : @ctr_ctx C) (iv G H tmp : list Z) : M (@ctr_ctx C * list Z * list Z * list Z) :=
  sk ← ctr_init sk tmp 0 32;
  iv ← memcpy iv 0 G 0 12;
  newG ← memcpy (replicate 16 0) 0 G 0 16;
  cc ← br_dec32be G 12;
  '(newG, _) ← ctr_run sk iv cc newG 0 16;
  x ← load iv 0;
  iv ← store iv 0 (x .^ 0x01);
  H ← memcpy H 0 G 0 16;
  x ← load H 0;
  H ← store H 0 (x .^ 0x01);
  cc ← br_dec32be G 12;
  '(H, _) ← ctr_run sk iv cc H 0 16;
  G ← memcpy G 0 newG 0 16;
  mret (sk, iv, G, H).

Fixpoint hirose_loop (fuel : nat) (first : bool) (sk : @ctr_ctx C) (iv G H s seed : list Z) (pos len : Z)
    : M (@ctr_ctx C * list Z) :=
  match fuel with
  | O => None
  | S fuel =>
      next ← hirose_block first H s seed pos len;
      match next with
      | None => mret (sk, H)
      | Some (tmp, pos, len) =>
          '(sk, iv, G, H) ← hirose_step sk iv G H tmp;
          hirose_loop fuel false sk iv G H s seed pos len
      end
  end.

Definition br_aesctr_drbg_update (ctx : aesctr_ctx) (seed : list Z) (len : Z) : M aesctr_ctx :=
  iv ← memset (replicate 12 0) 0 0xFF 12;
  s ← memset (replicate 16 0) 0 0 16;
  '(s, _) ← ctr_run (ac_sk ctx) iv 0xFFFFFFFF s 0 16;
  G ← memset (replicate 16 0) 0 0xB6 16;
  H ← memset (replicate 16 0) 0 0x5A 16;
  '(sk, H) ← hirose_loop (Z.to_nat len + 2) true (ac_sk ctx) iv G H s seed 0 len;
  sk ← ctr_init sk H 0 16;
  mret (AesCtrCtx sk 0).

Definition br_aesctr_drbg_init (ctx : aesctr_ctx) (seed : list Z) (len : Z) : M aesctr_ctx :=
  tmp ← memset (replicate 16 0) 0 0 16;
  sk ← ctr_init (ac_sk ctx) tmp 0 16;
  br_aesctr_drbg_update (AesCtrCtx sk 0) seed len.

(** The number of bytes of a turn. *)
Definition generate_len (cc len : Z) : M Z :=
  clen ← (If 65280 <? len Then mret 65280 Else mret len);
  If 32768 <? u32 (cc + ((clen + 15) >> 4)) Then
    let clen := u32 (u32 (32768 - cc) << 4) in
    If len <? clen Then mret len Else mret clen
  Else mret clen.

Fixpoint generate_loop (fuel : nat) (ctx : aesctr_ctx) (iv out : list Z) (pos len : Z) : M (aesctr_ctx * list Z) :=
  match fuel with
  | O => None
  | S fuel =>
      If 0 <? len Then
        clen ← generate_len (ac_cc ctx) len;
        out ← memset out pos 0 clen;
        '(out, cc) ← ctr_run (ac_sk ctx) iv (ac_cc ctx) out pos clen;
        ctx ← (If 32768 <=? cc Then br_aesctr_drbg_update (AesCtrCtx (ac_sk ctx) cc) [] 0
               Else mret (AesCtrCtx (ac_sk ctx) cc));
        generate_loop fuel ctx iv out (pos + clen) (len - clen)
      Else mret (ctx, out)
  end.

Definition br_aesctr_drbg_generate (ctx : aesctr_ctx) (out : list Z) (o len : Z) : M (aesctr_ctx * list Z) :=
  iv ← memset (replicate 12 0) 0 0 12;
  generate_loop (S (Z.to_nat len)) ctx iv out o len.

#[export] Instance aesctr_class : PrngClass :=
  {| prng_ctx := aesctr_ctx; prng_generate := br_aesctr_drbg_generate; prng_update := br_aesctr_drbg_update |}.
End Code.
Arguments aesctr_ctx : clear implicits.

(** * The abstract machine *)

(** The constant that makes the second block of Hirose's function different. *)
Definition hirose_C : list Z := 1 :: replicate 15 0.

(** One step on a block [m]; [G] and [H] are the running state. *)
Definition hirose (st : list Z * list Z) (m : list Z) : list Z * list Z :=
  let '(G, H) := st in
  let K := H ++ m in
  let G' := xor_list G hirose_C in
  (xor_list G (aes K G), xor_list G' (aes K G')).

(** The key that follows [K]: the first half of the hash of the encryption of
    the block of ones, and the seed. *)
Definition next_key (K seed : list Z) : list Z :=
  (fold_left hirose (aes K (replicate 16 0xFF) :: padded_blocks (length seed) seed)
     (replicate 16 0xB6, replicate 16 0x5A)).2.

Definition first_key (seed : list Z) : list Z := next_key (replicate 16 0) seed.

(** The key stream, from the counter [cc]. *)
Definition key_stream (K : list Z) (cc len : Z) : list Z :=
  map (fun i => ctr_stream 16 (aes K) (replicate 12 0) cc (Z.of_nat i)) (seq 0 (Z.to_nat len)).

(** [next cc len] is the counter after [len] bytes; a key serves for [32768]
    blocks. *)
Fixpoint machine_generate (next : Z -> Z -> Z) (n : nat) (s : list Z * Z) (len : Z) : (list Z * Z) * list Z :=
  match n with
  | O => (s, [])
  | S n =>
      if decide (len <= 0) then (s, [])
      else
        let '(K, cc) := s in
        let clen := Z.min len (16 * (32768 - cc)) in
        let cc' := next cc clen in
        let s' := if decide (32768 <= cc') then (next_key K [], 0) else (K, cc') in
        let '(s'', out) := machine_generate next n s' (len - clen) in
        (s'', key_stream K cc clen ++ out)
  end.
Definition machine_next (next : Z -> Z -> Z) (s : list Z * Z) (len : Z) : (list Z * Z) * list Z :=
  machine_generate next (S (Z.to_nat len)) s len.
Definition machine_mix (s : list Z * Z) (seed : list Z) : list Z * Z := (next_key s.1 seed, 0).

(** * Refinement *)

(** What the generator needs of an implementation of CTR: the cipher is AES, and
    the counter advances by the number of blocks, with or without a last
    partial one. *)
Class AesCtr (C : CtrClass) (S : CtrSpec C) : Prop := {
  ac_mode :: AesMode C S;
  ac_next cc len : 0 <= cc -> 0 <= len -> cc + (len + 15) / 16 < 2 ^ 32 ->
    cc + len / 16 <= ctr_next cc len <= cc + (len + 15) / 16;
  ac_next_add cc n len : 0 <= n -> 0 <= len -> ctr_next cc (16 * n + len) = ctr_next (cc + n) len }.

Section Refine.
Context {C : CtrClass} {CS : CtrSpec C} {AC : AesCtr C CS}.

Lemma aes_run_ok sk key iv cc data pos len : ctr_rep sk key -> zlen iv = 12 -> byte_string iv -> word 32 cc ->
  0 <= pos -> 0 <= len -> pos + len <= zlen data -> bytes data pos len -> len < 2 ^ 64 ->
  ok (ctr_run sk iv cc data pos len) (fun '(d, cc') => frame pos (pos + len) data d /\
    slice d pos len = ctr 16 (aes key) iv cc (slice data pos len) /\ cc' = ctr_next cc len).
Proof.
  intros HR Hiv Bi Hc Hp Hn Hl HB H64. rewrite <- am_block, <- am_cipher. apply ctr_run_ok; try done. by rewrite am_block.
Qed.

Lemma aes_init_ok sk key pos len : ctr_alloc sk -> len = 16 \/ len = 32 -> 0 <= pos -> pos + len <= zlen key ->
  bytes key pos len -> ok (ctr_init sk key pos len) (fun sk => ctr_rep sk (slice key pos len)).
Proof. intros Ha Hlen Hp Hl HB. apply ctr_init_ok; try done. apply am_keys. destruct Hlen as [-> | ->]; [by left|by right; right]. Qed.

(** The counter mode on one block is the cipher. *)
Lemma ctr_one_block (F : list Z -> list Z) G d cc : block 16 G -> zlen d = 16 -> cc = vbe G 12 4 -> zlen (F G) = 16 ->
  ctr 16 F (slice G 0 12) cc d = xor_list d (F G).
Proof.
  intros [HL HB] Hd -> HF. apply bytes_get in HB. rewrite HL in HB.
  assert (HB' : bytes G 12 4) by (apply (limbs_sub 8 G 0 16); [done|lia..]).
  destruct (ok_inv _ _ (codec_dec (WordCodec:=codec32be) G 12 ltac:(lia) ltac:(lia) HB')) as (t & x & _ & Ex & Hx). rewrite <- Ex.
  assert (E : slice G 0 12 ++ be_words 4 [u32 x] 1 = G).
  { rewrite u32_small by done. rewrite <- (slice_be_words G 12 4 [x] 1); try lia.
    - transitivity (slice G 0 (12 + 4 * 1)); [symmetry; apply slice_split; lia|]. by apply slice_all.
    - done.
    - intros i Hi. replace i with 0 by lia. by rewrite Ex. }
  apply list_eq_get; rewrite zlen_ctr; [rewrite xor_list_len; lia|]. intros i Hi.
  rewrite get_ctr, get_xor_list by lia. f_equal. unfold ctr_stream, ctr_block.
  by rewrite Z.div_small, Z.mod_small, Z.add_0_r, E by lia.
Qed.

Lemma aes_one_block sk key G d cc : ctr_rep sk key -> (forall x, block 16 x -> block 16 (aes key x)) -> block 16 G -> block 16 d ->
  cc = vbe G 12 4 -> word 32 cc ->
  ok (ctr_run sk (slice G 0 12) cc d 0 16) (fun '(d', _) => d' = xor_list d (aes key G)).
Proof.
  intros HR HA HG [HL HB] Ecc Hcc. eapply ok_mono; [apply (aes_run_ok sk key); try done|].
  - apply zlen_slice; destruct HG; lia.
  - apply slice_bytes, HG.
  - lia.
  - apply bytes_get in HB. by rewrite HL in HB.
  - intros [d' c'] (HF & HS & _). pose proof (frame_len _ _ _ _ HF). rewrite (slice_all d), (slice_all d') in HS by lia. rewrite HS.
    apply ctr_one_block; try done; by apply HA.
Qed.

Lemma memset_fill n v (Q : list Z -> Prop) : 0 <= n -> Q (replicate (Z.to_nat n) v) ->
  ok (memset (replicate (Z.to_nat n) 0) 0 v n) Q.
Proof.
  intros Hn HQ. apply ok_memset; rewrite ?length_replicate; try lia.
  replace (fillz _ 0 v n) with (replicate (Z.to_nat n) v); [done|].
  apply list_eq_get; rewrite ?zlen_fillz; rewrite ?length_replicate; try lia. intros i Hi.
  rewrite get_replicate by lia. rewrite get_fillz_in; rewrite ?length_replicate; lia || done.
Qed.

Lemma copy_all d n s : zlen d = n -> n <= zlen s -> blit d 0 s 0 n = slice s 0 n.
Proof.
  intros <- Hl. apply list_eq_get; rewrite zlen_blit; rewrite ?zlen_slice; try lia. intros i Hi.
  rewrite get_blit_in, get_slice by lia. f_equal. lia.
Qed.

(** ** The hash function *)

Lemma xor_C G : zlen G = 16 -> xor_list G hirose_C = upd G 0 (get G 0 .^ 1).
Proof.
  intros HL. apply list_eq_get; rewrite xor_list_len; rewrite ?zlen_upd; try done; try lia. intros i Hi.
  rewrite get_xor_list by (rewrite ?HL; done || lia). destruct (Z.eq_dec i 0) as [->|].
  - by rewrite get_upd_eq by lia.
  - rewrite get_upd_ne by lia. unfold hirose_C. replace (get (1 :: replicate 15 0) i) with 0; [by rewrite Z.lxor_0_r|].
    replace i with (1 + (i - 1)) by lia. change (1 :: replicate 15 0) with ([1] ++ replicate 15 0).
    rewrite get_app_r by (simpl length; lia). rewrite get_replicate; [done|simpl length; lia].
Qed.

Lemma block_C : block 16 hirose_C.
Proof. split; [done|]. repeat constructor; done. Qed.

Definition good_key (K : list Z) : Prop := byte_string K /\ (zlen K = 16 \/ zlen K = 32).

Lemma good_aes K x : good_key K -> block 16 x -> block 16 (aes K x).
Proof. intros [HB HL] Hx. apply aes_ok; [done| |done]. destruct HL; [by left|right; by right]. Qed.

Lemma hirose_ok G H m : block 16 G -> block 16 H -> block 16 m -> block 16 (hirose (G, H) m).1 /\ block 16 (hirose (G, H) m).2.
Proof.
  intros HG HH Hm. assert (HK : good_key (H ++ m)).
  { split; [apply byte_string_app; split; [apply HH|apply Hm]|]. right. rewrite zlen_app. destruct HH, Hm. lia. }
  unfold hirose. cbn [fst snd]. pose proof (Modes.xor_block 16 G _ HG block_C) as HC.
  split; (apply Modes.xor_block; [done|by apply good_aes]).
Qed.

Lemma hirose_step_ok sk iv G H m : ctr_alloc sk -> zlen iv = 12 -> block 16 G -> block 16 H -> block 16 m ->
  ok (hirose_step sk iv G H (H ++ m)) (fun '(sk, iv, G', H') =>
    ctr_alloc sk /\ zlen iv = 12 /\ (G', H') = hirose (G, H) m).
Proof.
  intros Ha Hiv HG HH Hm. unfold hirose_step. set (K := H ++ m).
  assert (LK : zlen K = 32) by (unfold K; rewrite zlen_app; destruct HH, Hm; lia).
  assert (BK : byte_string K) by (apply byte_string_app; split; [apply HH|apply Hm]).
  assert (HK : good_key K) by (split; [done|by right]). destruct (whole_key K BK) as [Hb Hs]. rewrite LK in Hb, Hs.
  pose proof HG as [LG BG]. assert (HA : forall x, block 16 x -> block 16 (aes K x)) by (intros x Hx; by apply good_aes).
  assert (H12 : bytes G 12 4) by (apply bytes_get in BG; rewrite LG in BG; apply (limbs_sub 8 G 0 16); [done|lia..]).
  cstep. eapply ok_mono; [apply (aes_init_ok sk K 0 32); first [done|by right|lia]|]. intros sk1 HR. rewrite Hs in HR.
  pose proof (fun G' d cc => aes_one_block sk1 K G' d cc HR HA) as HO.
  cstep. apply ok_memcpy; try lia. cstep. apply ok_memcpy; rewrite ?length_replicate; try lia.
  rewrite (copy_all iv 12 G), (copy_all (replicate 16 0) 16 G) by (rewrite ?length_replicate; lia).
  rewrite (slice_all G 16) by lia.
  cstep. eapply ok_mono; [apply (codec_dec (WordCodec:=codec32be)); [lia|lia|done]|]. intros cc [-> Hcc].
  cstep. eapply ok_mono; [apply (HO G G); done|]. intros [newG ?] ->.
  assert (L1 : zlen (slice G 0 12) = 12) by (apply zlen_slice; lia).
  cstep. apply ok_load; [lia|]. cstep. apply ok_store; [lia|].
  cstep. apply ok_memcpy; try (destruct HH; lia). rewrite (copy_all H 16 G), (slice_all G 16) by (destruct HH; lia).
  cstep. apply ok_load; [lia|]. cstep. apply ok_store; [lia|].
  cstep. eapply ok_mono; [apply (codec_dec (WordCodec:=codec32be)); [lia|lia|done]|]. intros ? [-> _].
  rewrite <- (xor_C G) by exact LG. pose proof (Modes.xor_block 16 G _ HG block_C) as HC. set (G' := xor_list G hirose_C) in *.
  assert (EI : upd (slice G 0 12) 0 (get (slice G 0 12) 0 .^ 1) = slice G' 0 12).
  { unfold G'. rewrite xor_C by done. apply list_eq_get; rewrite ?zlen_upd, !zlen_slice; rewrite ?zlen_upd; try lia.
    intros i Hi. rewrite (get_slice (upd _ _ _)) by lia. rewrite Z.add_0_l. destruct (Z.eq_dec i 0) as [->|].
    - by rewrite !get_upd_eq, get_slice by lia.
    - by rewrite !get_upd_ne, get_slice by lia. }
  rewrite EI. assert (EV : vbe G 12 4 = vbe G' 12 4).
  { unfold G'. rewrite xor_C by done. apply vbe_ext; [lia|]. intros i Hi. by rewrite get_upd_ne by lia. }
  cstep. eapply ok_mono; [apply (HO G' G'); done|].
  intros [newH ?] ->.
  cstep. assert (LN : zlen (xor_list G (aes K G)) = 16) by (apply Modes.xor_block; auto).
  apply ok_memcpy; try lia. rewrite (copy_all G 16), (slice_all (xor_list _ _) 16) by lia. apply ok_ret. split; [by apply (ctr_rep_alloc sk1 K)|].
  split; [apply zlen_slice; destruct HC; lia|]. done.
Qed.

Lemma hirose_block_ok (first : bool) H s seed pos len : block 16 H -> block 16 s -> 0 <= pos -> 0 <= len -> pos + len <= zlen seed ->
  let c := Z.min len 16 in
  ok (hirose_block first H s seed pos len) (fun r => r =
    if first then Some (H ++ s, pos, len) else if len =? 0 then None
    else Some (H ++ pad_block (slice seed pos c), pos + c, len - c)).
Proof.
  intros [LH BH] [Ls Bs] Hp Hl Hs c. unfold hirose_block. cstep.
  apply ok_memcpy; rewrite ?length_replicate; try lia. set (d := blit _ _ _ _ _).
  assert (Ld : zlen d = 32) by (unfold d; rewrite zlen_blit; rewrite ?length_replicate; lia).
  assert (Gd : forall i, 0 <= i < 16 -> get d i = get H i).
  { intros i Hi. unfold d. rewrite get_blit_in by (rewrite ?length_replicate; lia). f_equal. lia. }
  apply ok_cond; intros E; [|apply ok_cond; intros E'].
  - subst. cstep. apply ok_memcpy; try lia. apply ok_ret. repeat f_equal.
    apply list_eq_get; rewrite ?zlen_app, zlen_blit by lia; [lia|]. intros i Hi. destruct (Z.lt_ge_cases i 16).
    + by rewrite get_blit_out, get_app_l, Gd by lia.
    + rewrite get_blit_in, get_app_r by lia. f_equal. lia.
  - rewrite E, E'. by cstep.
  - apply Z.eqb_neq in E' as E''. rewrite E, E'. cstep. apply (ok_mono _ (fun clen => clen = c)).
    { apply ok_cond; intros E3; cstep; [apply Z.ltb_lt in E3|apply Z.ltb_ge in E3]; lia. }
    intros clen ->. cstep. apply ok_memcpy; try lia. cstep. apply ok_memset; rewrite ?zlen_blit; try lia.
    apply ok_ret. repeat f_equal. unfold pad_block.
    pose proof (zlen_slice seed pos c ltac:(lia) ltac:(lia) ltac:(lia)) as Lc.
    apply list_eq_get; rewrite zlen_fillz by (rewrite ?zlen_blit; lia); rewrite zlen_blit by lia.
    { rewrite !zlen_app, length_replicate. lia. }
    intros i Hi. destruct (Z.lt_ge_cases i 16); [|destruct (Z.lt_ge_cases i (16 + c))].
    + by rewrite get_fillz_out, get_blit_out, get_app_l, Gd by (rewrite ?zlen_blit; lia).
    + rewrite get_fillz_out, get_blit_in, get_app_r, get_app_l, get_slice by (rewrite ?zlen_blit; lia). f_equal. lia.
    + rewrite get_fillz_in, get_app_r, get_app_r, get_replicate by (rewrite ?zlen_blit; lia). done.
Qed.

Lemma hirose_loop_ok fuel : forall (first : bool) sk iv G H s seed pos len n,
  ctr_alloc sk -> zlen iv = 12 -> block 16 G -> block 16 H -> block 16 s -> 0 <= pos -> 0 <= len -> pos + len <= zlen seed ->
  bytes seed pos len -> len <= Z.of_nat n -> len + (if first then 1 else 0) < Z.of_nat fuel ->
  ok (hirose_loop fuel first sk iv G H s seed pos len) (fun '(sk, H') => ctr_alloc sk /\ block 16 H' /\
    H' = (fold_left hirose ((if first then [s] else []) ++ padded_blocks n (slice seed pos len)) (G, H)).2).
Proof.
  induction fuel as [|fuel IH]; intros first sk iv G H s seed pos len n Ha Hiv HG HH Hs Hp Hl He HB Hn Hf; [destruct first; lia|].
  assert (Ls : zlen (slice seed pos len) = len) by (apply zlen_slice; lia).
  cbn [hirose_loop]. cstep. eapply ok_mono; [by apply hirose_block_ok|]. cbv beta zeta. intros r ->.
  destruct first; [|destruct (Z.eqb_spec len 0) as [->|E]].
  - cstep. eapply ok_mono; [by apply hirose_step_ok|]. intros [[[sk1 iv1] G1] H1] (Ha1 & Hiv1 & E1).
    destruct (hirose_ok G H s HG HH Hs) as [B1 B2]. rewrite <- E1 in B1, B2. cbn [fst snd] in B1, B2.
    eapply ok_mono; [apply (IH false sk1 iv1 G1 H1 s seed pos len n); done || lia|].
    intros [sk' H'] (? & ? & ->). split; [done|]. split; [done|]. cbn [app fold_left]. by rewrite <- E1.
  - cstep. split; [done|]. split; [done|]. rewrite slice_nil. by destruct n.
  - set (c := Z.min len 16). destruct n as [|n]; [lia|]. cbn [app padded_blocks]. rewrite decide_False by lia.
    replace (take 16 (slice seed pos len)) with (slice seed pos c) by (unfold slice; rewrite take_take; f_equal; lia).
    replace (drop 16 (slice seed pos len)) with (slice seed (pos + c) (len - c)).
    2:{ rewrite <- drop_slice by lia. destruct (Z.le_gt_cases 16 len); [by replace (Z.to_nat c) with 16%nat by lia|].
        rewrite !drop_ge by lia. done. }
    assert (HM : block 16 (pad_block (slice seed pos c))).
    { apply block_pad; [|rewrite zlen_slice; lia]. apply byte_string_slice; [lia|lia| |lia]. by apply (limbs_sub 8 seed pos len); [|lia..]. }
    cstep. eapply ok_mono; [by apply hirose_step_ok|]. intros [[[sk1 iv1] G1] H1] (Ha1 & Hiv1 & E1).
    destruct (hirose_ok G H _ HG HH HM) as [B1 B2]. rewrite <- E1 in B1, B2. cbn [fst snd] in B1, B2.
    eapply ok_mono; [apply (IH false sk1 iv1 G1 H1 s seed (pos + c) (len - c) n); try done; try lia|].
    + intros i Hi. replace (pos + c + i) with (pos + (c + i)) by lia. apply HB. lia.
    + intros [sk' H'] (? & ? & ->). split; [done|]. split; [done|]. cbn [app fold_left]. by rewrite <- E1.
Qed.

Lemma xor_list_zeros n x : zlen x = Z.of_nat n -> xor_list (replicate n 0) x = x.
Proof.
  intros HL. apply list_eq_get; rewrite xor_list_len; rewrite ?length_replicate; try lia.
  intros i Hi. rewrite get_xor_list, get_replicate by (rewrite ?length_replicate; lia). apply Z.lxor_0_l.
Qed.

(** ** The operations *)

(** A context holds a key of 16 bytes and a counter below the limit. *)
Definition state_ok (s : list Z * Z) : Prop := block 16 s.1 /\ 0 <= s.2 < 32768.
Record aesctr_rep (ctx : aesctr_ctx C) (s : list Z * Z) : Prop := AesCtrRep {
  ar_key : ctr_rep (ac_sk ctx) s.1; ar_cc : ac_cc ctx = s.2; ar_ok : state_ok s }.

Lemma update_ok sk cc K seed len : ctr_rep sk K -> block 16 K -> 0 <= len <= zlen seed -> bytes seed 0 len ->
  ok (br_aesctr_drbg_update (AesCtrCtx sk cc) seed len) (fun ctx => aesctr_rep ctx (next_key K (slice seed 0 len), 0)).
Proof.
  intros HR HK Hl HB. assert (GK : good_key K) by (destruct HK; split; [done|by left]).
  unfold br_aesctr_drbg_update. cbn [ac_sk]. cstep. apply (memset_fill 12 0xFF); [lia|].
  cstep. apply (memset_fill 16 0); [lia|]. cstep.
  assert (HO : block 16 (replicate 16 0xFF)) by (split; [done|by apply Forall_replicate]).
  assert (HZ : block 16 (replicate 16 0)) by (split; [done|by apply Forall_replicate]).
  eapply ok_mono; [apply (aes_one_block sk K (replicate 16 0xFF) (replicate 16 0) 0xFFFFFFFF); try done|].
  { intros x Hx. by apply good_aes. }
  intros [s c] ->. pose proof (good_aes K _ GK HO) as HS. rewrite xor_list_zeros by apply HS.
  cstep. apply (memset_fill 16 0xB6); [lia|]. cstep. apply (memset_fill 16 0x5A); [lia|]. cstep.
  eapply ok_mono; [apply (hirose_loop_ok _ true sk _ _ _ _ seed 0 len (length (slice seed 0 len)))|].
  - by apply (ctr_rep_alloc sk K).
  - done.
  - split; [done|by apply Forall_replicate].
  - split; [done|by apply Forall_replicate].
  - done.
  - done.
  - lia.
  - lia.
  - done.
  - rewrite zlen_slice; lia.
  - lia.
  - intros [sk' H'] (Ha & [LH BH] & EH). destruct (whole_key H' BH) as [Hb Hs]. rewrite LH in Hb, Hs.
    cstep. eapply ok_mono; [apply (aes_init_ok sk' H' 0 16); try done; first [by left|lia]|]. intros sk'' HR'.
    rewrite Hs in HR'. apply ok_ret. assert (EK : next_key K (slice seed 0 len) = H') by (symmetry; exact EH).
    rewrite EK. split; done.
Qed.

Lemma zlen_key_stream K cc n : 0 <= n -> zlen (key_stream K cc n) = n.
Proof. intros. unfold key_stream. rewrite length_map, length_seq. lia. Qed.

Lemma get_key_stream K cc n i : 0 <= i < n -> get (key_stream K cc n) i = ctr_stream 16 (aes K) (replicate 12 0) cc i.
Proof. intros. unfold key_stream. rewrite get_map_seq by lia. f_equal. lia. Qed.

(** The stream in two parts, the first one of [n] blocks. *)
Lemma stream_app K cc n m : 0 <= n -> 0 <= m -> word 32 (cc + n) ->
  key_stream K cc (16 * n + m) = key_stream K cc (16 * n) ++ key_stream K (cc + n) m.
Proof.
  intros Hn Hm Hw. apply list_eq_get; rewrite zlen_key_stream by lia; [rewrite zlen_app, !zlen_key_stream; lia|].
  intros i Hi. rewrite get_key_stream by lia. destruct (Z.lt_ge_cases i (16 * n)).
  - rewrite get_app_l, get_key_stream; rewrite ?zlen_key_stream; try lia; done.
  - rewrite get_app_r, get_key_stream by (rewrite zlen_key_stream; lia). rewrite zlen_key_stream by lia.
    rewrite <- (ctr_stream_next 16 _ _ cc n i) by lia. by rewrite u32_small.
Qed.

Lemma ctr_zeros K cc n : 0 <= n -> ctr 16 (aes K) (replicate 12 0) cc (replicate (Z.to_nat n) 0) = key_stream K cc n.
Proof.
  intros Hn. assert (HL : zlen (replicate (Z.to_nat n) 0) = n) by (rewrite length_replicate; lia).
  apply list_eq_get; rewrite zlen_ctr, HL; [by rewrite zlen_key_stream|]. intros i Hi.
  rewrite get_ctr, get_key_stream, get_replicate by lia. apply Z.lxor_0_l.
Qed.

(** ** Generation *)

(** The length of a turn of the machine, and its end. *)
Definition turn (cc len : Z) : Z := Z.min len (16 * (32768 - cc)).
Definition turn_state (K : list Z) (cc : Z) : list Z * Z := if decide (32768 <= cc) then (next_key K [], 0) else (K, cc).

Lemma turn_next cc len : 0 <= cc < 32768 -> 0 <= len -> cc <= ctr_next cc (turn cc len) <= 32768.
Proof.
  intros Hc Hl. unfold turn. pose proof (ac_next cc (Z.min len (16 * (32768 - cc)))) as HN.
  assert (0 <= Z.min len (16 * (32768 - cc)) / 16) by (apply Z.div_pos; lia).
  assert ((Z.min len (16 * (32768 - cc)) + 15) / 16 <= 32768 - cc) by (apply Z.lt_succ_r, Z.div_lt_upper_bound; lia).
  lia.
Qed.

Lemma machine_fuel n : forall m K cc len, 0 <= cc < 32768 -> 0 <= len < Z.of_nat n -> len < Z.of_nat m ->
  machine_generate ctr_next n (K, cc) len = machine_generate ctr_next m (K, cc) len.
Proof.
  induction n as [|n IH]; intros m K cc len Hc Hn Hm; [lia|]. destruct m as [|m]; [lia|]. cbn [machine_generate].
  case_decide; [done|]. fold (turn cc len). pose proof (turn_next cc len Hc ltac:(lia)).
  assert (0 < turn cc len <= len) by (unfold turn; lia).
  case_decide; rewrite (IH m) by lia; done.
Qed.

Lemma machine_turn K cc len : 0 <= cc < 32768 -> 0 < len ->
  let r := machine_next ctr_next (turn_state K (ctr_next cc (turn cc len))) (len - turn cc len) in
  machine_next ctr_next (K, cc) len = (r.1, key_stream K cc (turn cc len) ++ r.2).
Proof.
  intros Hc Hl. unfold machine_next at 2. cbn [machine_generate]. rewrite decide_False by lia.
  fold (turn cc len). pose proof (turn_next cc len Hc ltac:(lia)). assert (0 < turn cc len <= len) by (unfold turn; lia).
  fold (turn_state K (ctr_next cc (turn cc len))). unfold machine_next.
  rewrite (surjective_pairing (turn_state _ _)).
  assert (0 <= (turn_state K (ctr_next cc (turn cc len))).2 < 32768) by (unfold turn_state; case_decide; cbn [snd]; lia).
  rewrite (machine_fuel (Z.to_nat len) (S (Z.to_nat (len - turn cc len)))) by lia.
  by destruct (machine_generate _ _ _ _).
Qed.

(** A turn of the code that ends at [65280] bytes, or 4080 blocks, does not
    show. *)
Lemma machine_chunk K cc len : 0 <= cc -> cc + 4080 < 32768 -> 65280 <= len ->
  let r := machine_next ctr_next (K, cc + 4080) (len - 65280) in
  machine_next ctr_next (K, cc) len = (r.1, key_stream K cc 65280 ++ r.2).
Proof.
  intros Hc Hc' Hl. rewrite (machine_turn K cc) by lia. destruct (Z.eq_dec len 65280) as [->|].
  - replace (turn cc 65280) with 65280 by (unfold turn; lia). pose proof (ac_next_add cc 4080 0 ltac:(lia) ltac:(lia)) as HA.
    change (16 * 4080 + 0) with 65280 in HA. rewrite HA, Z.sub_diag. pose proof (ac_next (cc + 4080) 0 ltac:(lia) ltac:(lia) ltac:(zn)) as HN.
    change ((0 + 15) / 16) with 0 in HN. change (0 / 16) with 0 in HN. replace (ctr_next (cc + 4080) 0) with (cc + 4080) by lia.
    unfold turn_state. by rewrite decide_False by lia.
  - rewrite (machine_turn K (cc + 4080)) by lia. cbn [fst snd].
    replace (turn cc len) with (16 * 4080 + turn (cc + 4080) (len - 65280)) by (unfold turn; lia).
    assert (0 <= turn (cc + 4080) (len - 65280)) by (unfold turn; lia).
    rewrite ac_next_add, stream_app, <- app_assoc by (unfold word; lia). 
    by replace (len - (16 * 4080 + turn (cc + 4080) (len - 65280))) with (len - 65280 - turn (cc + 4080) (len - 65280)) by lia.
Qed.

Lemma generate_len_ok cc len : 0 <= cc < 32768 -> 0 < len < 2 ^ 64 ->
  ok (generate_len cc len) (fun c => c = turn cc (Z.min len 65280)).
Proof.
  intros Hc Hl. unfold generate_len, turn. cstep. apply (ok_mono _ (fun c => c = Z.min len 65280)).
  { apply ok_cond; intros E; cstep; [apply Z.ltb_lt in E|apply Z.ltb_ge in E]; lia. }
  intros c ->. set (c := Z.min len 65280). assert (Hd : 16 * ((c + 15) / 16) <= c + 15 < 16 * ((c + 15) / 16) + 16) by zn.
  rewrite shr_div by lia. change (2 ^ 4) with 16. rewrite u32_small by (unfold word; lia).
  apply ok_cond; intros E; [apply Z.ltb_lt in E|apply Z.ltb_ge in E]; [|cstep; lia].
  assert (EQ : u32 (u32 (32768 - cc) << 4) = 16 * (32768 - cc)).
  { rewrite (u32_small (32768 - cc)) by (unfold word; lia). rewrite shl_mul by lia. change (2 ^ 4) with 16.
    rewrite u32_small by (unfold word; lia). lia. }
  cbv zeta. rewrite EQ. apply ok_cond; intros E'; cstep; [apply Z.ltb_lt in E'|apply Z.ltb_ge in E']; lia.
Qed.

(** One turn fills [clen] bytes with the stream. *)
Lemma fill_ok sk K cc out pos clen : ctr_rep sk K -> 0 <= cc < 32768 -> 0 <= pos -> 0 <= clen < 2 ^ 64 -> pos + clen <= zlen out ->
  ok (out ← memset out pos 0 clen; ctr_run sk (replicate 12 0) cc out pos clen)
    (fun '(d, cc') => frame pos (pos + clen) out d /\ slice d pos clen = key_stream K cc clen /\ cc' = ctr_next cc clen).
Proof.
  intros HR Hc Hp Hn Hl. cstep. apply ok_memset; try lia. set (o1 := fillz _ _ _ _).
  assert (L1 : zlen o1 = zlen out) by (unfold o1; rewrite zlen_fillz; lia).
  assert (E1 : slice o1 pos clen = replicate (Z.to_nat clen) 0).
  { apply list_eq_get; rewrite zlen_slice by lia; [rewrite length_replicate; lia|]. intros i Hi.
    unfold o1. rewrite get_slice, get_fillz_in, get_replicate by lia. done. }
  eapply ok_mono; [apply (aes_run_ok sk K (replicate 12 0) cc o1 pos clen); try done; try lia|].
  - by apply Forall_replicate.
  - unfold word. lia.
  - intros i Hi. unfold o1. by rewrite get_fillz_in by lia.
  - intros [d c'] (HF & HS & Ec). rewrite E1, ctr_zeros in HS by lia. split; [|done].
    pose proof (frame_len _ _ _ _ HF). split; [lia|]. cbv beta. intros j Hj Hj'.
    rewrite (frame_get _ _ _ _ _ HF) by lia. unfold o1. by rewrite get_fillz_out by lia.
Qed.

Lemma generate_loop_ok fuel : forall ctx K cc out pos len, aesctr_rep ctx (K, cc) -> 0 <= len < Z.of_nat fuel -> len < 2 ^ 64 ->
  0 <= pos -> pos + len <= zlen out ->
  ok (generate_loop fuel ctx (replicate 12 0) out pos len) (fun '(ctx', d) =>
    let r := machine_next ctr_next (K, cc) len in
    aesctr_rep ctx' r.1 /\ frame pos (pos + len) out d /\ slice d pos len = r.2).
Proof.
  induction fuel as [|fuel IH]; intros ctx K cc out pos len HR Hlen H64 Hp Hl; [lia|]. cbn [generate_loop].
  pose proof HR as [HK Ecc [HKb Hc]]. cbn [fst snd] in HK, Ecc, HKb, Hc. rewrite Ecc.
  apply ok_cond; intros E; [apply Z.ltb_lt in E|apply Z.ltb_ge in E].
  2:{ assert (len = 0) as -> by lia. cstep. cbv zeta. unfold machine_next. cbn [machine_generate].
      rewrite decide_True by lia. cbn [fst snd]. rewrite Z.add_0_r, slice_nil. done. }
  cstep. eapply ok_mono; [apply generate_len_ok; lia|]. intros c ->. set (c := turn cc (Z.min len 65280)).
  assert (Hcl : 0 < c <= len) by (unfold c, turn; lia).
  apply (proj1 (ok_assoc (memset out pos 0 c) (fun out => ctr_run (ac_sk ctx) (replicate 12 0) cc out pos c) _ _)).
  cstep. eapply ok_mono; [apply (fill_ok _ K); done || lia|]. intros [o1 c1] (F1 & S1 & Ec1). pose proof (frame_len _ _ _ _ F1).
  pose proof (turn_next cc (Z.min len 65280) Hc ltac:(lia)) as HN. fold c in HN. rewrite <- Ec1 in HN.
  (* what the turn leaves, and the rest of the run *)
  cstep. apply (ok_mono _ (fun ctx' => aesctr_rep ctx' (turn_state K c1))).
  { unfold turn_state. apply ok_cond; intros E1; [apply Z.leb_le in E1|apply Z.leb_gt in E1];
      [rewrite decide_True by lia|rewrite decide_False by lia].
    - eapply ok_mono; [apply (update_ok (ac_sk ctx) c1 K [] 0 HK HKb); [done|]|done]. intros i Hi. lia.
    - apply ok_ret. split; [done|done|]. split; [done|]. cbn [snd]. lia. }
  intros ctx1 HR1. destruct (turn_state K c1) as [K1 cc1] eqn:ET.
  eapply ok_mono; [apply (IH ctx1 K1 cc1 o1 (pos + c) (len - c) HR1); lia|].
  intros [ctx2 d] (HR2 & F2 & S2). pose proof (frame_len _ _ _ _ F2). rewrite <- ET in HR2, S2.
  assert (EM : machine_next ctr_next (K, cc) len = ((machine_next ctr_next (turn_state K c1) (len - c)).1,
    key_stream K cc c ++ (machine_next ctr_next (turn_state K c1) (len - c)).2)).
  { destruct (decide (65280 < len /\ cc + 4080 < 32768)) as [[HL HC]|HL].
    - replace c with 65280 by (unfold c, turn; lia). rewrite machine_chunk by lia.
      assert (Ec : c1 = cc + 4080).
      { rewrite Ec1. replace c with (16 * 4080) by (unfold c, turn; lia). rewrite <- am_block, ctr_next_whole by lia.
        apply u32_small. unfold word. lia. }
      unfold turn_state. rewrite Ec, decide_False by lia. done.
    - replace c with (turn cc len) in * by (unfold c, turn; lia). rewrite machine_turn by lia. by rewrite <- Ec1. }
  cbv zeta. rewrite EM. cbn [fst snd]. split; [done|]. split.
  - split; [lia|]. cbv beta. intros j Hj Hj'. rewrite (frame_get _ _ _ _ _ F2), (frame_get _ _ _ _ _ F1); lia || done.
  - replace len with (c + (len - c)) at 1 by lia. rewrite slice_split by lia.
    by rewrite S2, (slice_frame o1 d pos c _ _ F2), S1 by lia.
Qed.

Lemma generate_ok ctx s out o len : aesctr_rep ctx s -> 0 <= len < 2 ^ 64 -> 0 <= o -> o + len <= zlen out ->
  ok (br_aesctr_drbg_generate ctx out o len) (fun '(ctx', d) => aesctr_rep ctx' (machine_next ctr_next s len).1 /\
    frame o (o + len) out d /\ slice d o len = (machine_next ctr_next s len).2).
Proof.
  intros HR Hl Ho HL. destruct s as [K cc]. unfold br_aesctr_drbg_generate. cstep. apply (memset_fill 12 0); [lia|].
  apply generate_loop_ok; done || lia.
Qed.

(** ** The generator as a random generator *)

Lemma hirose_fold_ok ms : forall st, block 16 st.1 -> block 16 st.2 -> Forall (block 16) ms -> block 16 (fold_left hirose ms st).2.
Proof.
  induction ms as [|m ms IH]; intros [G H] HG HH HF; [done|]. apply Forall_cons_iff in HF as [Hm HF].
  destruct (hirose_ok G H m HG HH Hm) as [H1 H2]. cbn [fold_left]. by apply IH.
Qed.

Lemma next_key_ok K seed : block 16 K -> byte_string seed -> block 16 (next_key K seed).
Proof.
  intros HK HB. unfold next_key. apply hirose_fold_ok; [split; [done|by apply Forall_replicate]..|].
  constructor; [|by apply padded_blocks_ok]. apply good_aes; [destruct HK; split; [done|by left]|].
  split; [done|by apply Forall_replicate].
Qed.

Lemma stream_bytes K cc n : block 16 K -> byte_string (key_stream K cc n).
Proof.
  intros [LK BK]. destruct (Z.le_gt_cases 0 n); [|unfold key_stream; rewrite Z2Nat.nonpos by lia; constructor].
  apply bytes_get. intros i Hi. rewrite zlen_key_stream in Hi by lia. rewrite get_key_stream by lia. unfold ctr_stream, ctr_block.
  assert (HA : block 16 (aes K (replicate 12 0 ++ be_words 4 [u32 (cc + i / 16)] 1))).
  { apply good_aes; [split; [done|by left]|]. split; [done|].
    apply byte_string_app. split; [by apply Forall_replicate|apply be_words_bytes]. }
  destruct HA as [HL HB]. apply bytes_get in HB. apply HB. rewrite HL. pose proof (Z.mod_pos_bound i 16). lia.
Qed.

Lemma machine_bytes n : forall s len, state_ok s -> byte_string (machine_generate ctr_next n s len).2.
Proof.
  induction n as [|n IH]; intros [K cc] len [HK Hc]; [constructor|]. cbn [machine_generate]. case_decide; [constructor|].
  fold (turn cc len). cbn [fst snd] in HK, Hc. pose proof (turn_next cc len Hc ltac:(lia)).
  fold (turn_state K (ctr_next cc (turn cc len))).
  specialize (IH (turn_state K (ctr_next cc (turn cc len))) (len - turn cc len)).
  destruct (machine_generate _ _ _ _) as [s out]. cbn [snd] in *. apply byte_string_app.
  split; [by apply stream_bytes|]. apply IH. unfold turn_state, state_ok.
  case_decide; cbn [fst snd]; [|split; [done|lia]]. split; [|lia]. apply next_key_ok; [done|constructor].
Qed.

#[export] Instance aesctr_spec : PrngSpec (aesctr_class (C:=C)).
Proof.
  refine {| prng_state := (list Z * Z)%type; prng_rep := (aesctr_rep : @prng_ctx (aesctr_class (C:=C)) -> _ -> Prop);
    prng_next := machine_next ctr_next; prng_mix := machine_mix |}.
  - intros c s len [_ _ Hs] _. by apply machine_bytes.
  - intros c s out o len. apply generate_ok.
  - intros [sk cc] [K k] seed len [HK _ [Hk _]] Hl HB. by apply update_ok.
Defined.

Lemma init_ok ctx seed len : ctr_alloc (ac_sk ctx) -> 0 <= len <= zlen seed -> bytes seed 0 len ->
  ok (br_aesctr_drbg_init ctx seed len) (fun ctx' => aesctr_rep ctx' (first_key (slice seed 0 len), 0)).
Proof.
  intros Ha Hl HB. unfold br_aesctr_drbg_init. cstep. apply (memset_fill 16 0); [lia|]. cstep.
  assert (HZ : block 16 (replicate 16 0)) by (split; [done|by apply Forall_replicate]).
  destruct (whole_key _ (proj2 HZ)) as [Hb Hs].
  eapply ok_mono; [apply (aes_init_ok _ (replicate 16 0) 0 16); try done; by left|]. intros sk HR.
  rewrite (Hs : slice (replicate 16 0) 0 16 = _) in HR. by apply update_ok.
Qed.
End Refine.

(** [C23] Over every implementation of CTR for AES, a generator seeded with [seed]
    and driven by any sequence of reseedings and requests returns the outputs
    of the abstract machine: the key stream of successive keys, each one used
    for at most [32768] blocks, and a new key from the hash function of Hirose
    on the old one and the seed. *)
Theorem aesctr_drbg_refines (C : CtrClass) (CS : CtrSpec C) (AC : AesCtr C CS) ctx seed ops :
  ctr_alloc (ac_sk ctx) -> byte_string seed -> Forall op_ok ops ->
  ok (ctx ← br_aesctr_drbg_init ctx seed (zlen seed); prng_run (PC:=aesctr_class (C:=C)) ctx ops)
    (fun '(_, outs) => outs = machine_run (PS:=aesctr_spec) (first_key seed, 0) ops).
Proof.
  intros Ha Hs HF. cstep. eapply ok_mono; [apply init_ok; [done|lia|by apply bytes_get]|].
  cbv beta. intros c HR. rewrite slice_all in HR by done. by apply (prng_run_ok (PS:=aesctr_spec)).
Qed.

(** * Over the bitsliced implementations *)

#[export] Instance aes_ct_drbg : AesCtr aes_ct_ctr aes_ct_ctr_spec.
Proof.
  split; [exact aes_ct_mode|..]; cbn [ctr_next aes_ct_ctr_spec]; unfold ctr_end.
  - intros cc len Hc Hl Hw. replace (len + 16 - 1) with (len + 15) by lia.
    rewrite u32_small; [zn|]. unfold word. split; [|lia]. zn.
  - intros cc n len Hn Hl. f_equal. zn.
Qed.

#[export] Instance aes_ct64_drbg : AesCtr aes_ct64_ctr aes_ct64_ctr_spec.
Proof.
  split; [exact aes_ct64_mode|..]; cbn [ctr_next aes_ct64_ctr_spec].
  - intros cc len Hc Hl Hw. assert (len / 16 <= (len + 15) / 16) by zn.
    rewrite u32_small; [lia|]. unfold word. split; [zn|lia].
  - intros cc n len Hn Hl. f_equal. zn.
Qed.

(** Contexts of uninitialised memory. *)
Definition ct_start : aesctr_ctx aes_ct_ctr := AesCtrCtx (aes_fresh : @ctr_ctx aes_ct_ctr) 0.
Definition ct64_start : aesctr_ctx aes_ct64_ctr := AesCtrCtx (aes64_fresh : @ctr_ctx aes_ct64_ctr) 0.

(** Two requests of [len] bytes after the seed. *)
Definition two_outputs {C : CtrClass} (ctx : aesctr_ctx C) (seed : list Z) (len : Z) : M (list (list Z)) :=
  ctx ← br_aesctr_drbg_init ctx seed (zlen seed);
  '(_, outs) ← prng_run (PC:=aesctr_class (C:=C)) ctx [Generate len; Generate len];
  mret outs.

Lemma machine_short {C : CtrClass} {CS : CtrSpec C} {AC : AesCtr C CS} K cc len : 0 <= cc -> cc + 1 < 32768 -> 0 < len < 16 ->
  machine_next ctr_next (K, cc) len = ((K, ctr_next cc len), key_stream K cc len).
Proof.
  intros Hc Hc' Hl. rewrite machine_turn by lia. replace (turn cc len) with len by (unfold turn; lia).
  pose proof (ac_next cc len Hc ltac:(lia)) as HN. assert ((len + 15) / 16 = 1) by zn. assert (len / 16 = 0) by zn.
  rewrite Z.sub_diag. unfold turn_state. rewrite decide_False by lia. unfold machine_next. cbn [machine_generate].
  rewrite decide_True by lia. cbn [fst snd]. by rewrite app_nil_r.
Qed.

Lemma two_outputs_ok (C : CtrClass) (CS : CtrSpec C) (AC : AesCtr C CS) (ctx : aesctr_ctx C) seed len cc1 :
  ctr_alloc (ac_sk ctx) -> byte_string seed -> 0 < len < 16 -> ctr_next 0 len = cc1 ->
  ok (two_outputs ctx seed len) (fun outs => outs = [key_stream (first_key seed) 0 len; key_stream (first_key seed) cc1 len]).
Proof.
  intros Ha Hs Hl Ecc. unfold two_outputs.
  apply ok_bind. eapply ok_mono; [apply init_ok; [done|lia|by apply bytes_get]|]. intros c HR. rewrite slice_all in HR by done.
  cstep. eapply ok_mono; [apply (prng_run_ok (PS:=aesctr_spec) _ c _ HR); repeat constructor; lia|].
  intros [c' outs] ->. apply ok_ret. cbn [machine_run prng_next aesctr_spec prng_state].
  pose proof (ac_next 0 len ltac:(lia) ltac:(lia)) as HN. assert ((len + 15) / 16 = 1) by zn. assert (len / 16 = 0) by zn.
  rewrite (machine_short _ 0) by lia. cbn [fst snd]. rewrite Ecc in *. by rewrite machine_short by lia.
Qed.

(** [C24] Over [br_aes_ct64_ctr_run], whose counter does not advance over a
    partial block, AESCTR_DRBG gives the same bytes to two successive requests
    of less than a block; over [br_aes_ct_ctr_run] the second request takes the
    next block of the key stream. *)
Theorem aesctr_drbg_repeats seed len : byte_string seed -> 0 < len < 16 ->
  ok (two_outputs ct64_start seed len) (fun outs => exists out, zlen out = len /\ outs = [out; out]) /\
  ok (two_outputs ct_start seed len) (fun outs =>
    outs = [key_stream (first_key seed) 0 len; key_stream (first_key seed) 1 len]).
Proof.
  intros Hs Hl. split.
  - eapply ok_mono; [apply (two_outputs_ok _ aes_ct64_ctr_spec aes_ct64_drbg ct64_start seed len 0); try done|].
    + cbn [ctr_next aes_ct64_ctr_spec]. by rewrite Z.div_small by lia.
    + intros outs ->. eexists. split; [|done]. apply zlen_key_stream. lia.
  - apply (two_outputs_ok _ aes_ct_ctr_spec aes_ct_drbg); try done. cbn [ctr_next aes_ct_ctr_spec]. unfold ctr_end.
    by replace ((len + 16 - 1) / 16) with 1 by zn.
Qed.

Lemma aesctr_drbg_refines_witness :
  ok (ctx ← br_aesctr_drbg_init ct_start [1; 2; 3] 3;
      prng_run (PC:=aesctr_class (C:=aes_ct_ctr)) ctx [Generate 40; Reseed [4]; Generate 0; Generate 70000])
    (fun '(_, outs) => outs = machine_run (PS:=aesctr_spec (C:=aes_ct_ctr)) (first_key [1; 2; 3], 0)
      [Generate 40; Reseed [4]; Generate 0; Generate 70000]).
Proof.
  refine (aesctr_drbg_refines aes_ct_ctr aes_ct_ctr_spec aes_ct_drbg ct_start [1; 2; 3]
    [Generate 40; Reseed [4]; Generate 0; Generate 70000] _ _ _).
  - done.
  - by repeat constructor.
  - repeat constructor; done.
Defined.

Lemma aesctr_drbg_repeats_witness :
  ok (two_outputs ct64_start [1; 2; 3] 12) (fun outs => exists out, zlen out = 12 /\ outs = [out; out]).
Proof.
  refine (proj1 (aesctr_drbg_repeats [1; 2; 3] 12 _ _)).
  - by repeat constructor.
  - lia.
Defined.
