(* ===== verification/Mgf1.v ===== *)
(** The mask generation function MGF1 ([src/hash/mgf1.c]), and what it means to
    XOR a stream into a part of an array. *)
From stdpp Require Import base tactics list numbers option.
From Stdlib Require Import ZArith Lia.
From S2P Require Import Prelude CtPrims Limbs Codec Hash.
Local Open Scope Z_scope.
Local Open Scope cword_scope.

(** * Code *)

Section Code.
Context {HC : HashClass}.

(** The inner loop: [n] turns left, stopped at [len]. *)
Fixpoint mgf1_xor_loop (n : nat) (v u len : Z) (tmp data : list Z) (o : Z) : M (list Z) :=
  match n with
  | O => tick (Br false);; mret data
  | S n =>
      tick (Br true);;
      If len <=? u + v Then mret data
      Else
        x ← load data (o + (u + v));
        t ← load tmp v;
        data ← store data (o + (u + v)) (x .^ t);
        mgf1_xor_loop n (v + 1) u len tmp data o
  end.

(** The outer loop; [seed] does not overlap the masked part of [data]. *)
Fixpoint mgf1_loop (fuel : nat) (u c : Z) (data : list Z) (o len : Z) (seed : list Z) (so seed_len : Z)
    : M (list Z) :=
  match fuel with
  | O => None
  | S fuel =>
      If u <? len Then
        let tmp := replicate 64 0 in
        hc ← hash_init hash_auto;
        hc ← hash_update hc seed so seed_len;
        tmp ← br_enc32be tmp 0 c;
        hc ← hash_update hc tmp 0 4;
        tmp ← hash_out hc tmp 0;
        data ← mgf1_xor_loop (Z.to_nat hash_size) 0 u len tmp data o;
        mgf1_loop fuel (u + hash_size) (u32 (c + 1)) data o len seed so seed_len
      Else mret data
  end.

Definition br_mgf1_xor (data : list Z) (o len : Z) (seed : list Z) (so seed_len : Z) : M (list Z) :=
  mgf1_loop (S (Z.to_nat len)) 0 0 data o len seed so seed_len.
End Code.

(** * XOR with a stream *)

(** [d] is [a] with the first [n] bytes of [s] XORed in from [o] on. *)
Definition xored (a d : list Z) (o n : Z) (s : list Z) : Prop :=
  frame o (o + n) a d /\ forall i, 0 <= i < n -> get d (o + i) = get a (o + i) .^ get s i.

Lemma xored_0 a o s : xored a a o 0 s.
Proof. split; [|intros; lia]. by rewrite Z.add_0_r. Qed.

(** Two successive parts of a stream. *)
Lemma xored_app a b d o n k s1 s2 : 0 <= n -> 0 <= k -> 0 <= o -> o + n + k <= zlen a -> n = zlen s1 ->
  xored a b o n s1 -> xored b d (o + n) k s2 -> xored a d o (n + k) (s1 ++ s2).
Proof.
  intros Hn Hk Ho Hl Hs [F1 H1] [F2 H2]. pose proof (frame_len _ _ _ _ F1). pose proof (frame_len _ _ _ _ F2).
  split.
  - split; [lia|]. intros j Hj Hj'. rewrite (frame_get _ _ _ _ _ F2), (frame_get _ _ _ _ _ F1); lia || done.
  - intros i Hi. destruct (Z.lt_ge_cases i n).
    + rewrite get_app_l by lia. rewrite (frame_get _ _ _ _ _ F2) by lia. apply H1. lia.
    + rewrite get_app_r by lia. rewrite <- Hs. replace (o + i) with (o + n + (i - n)) by lia.
      rewrite H2 by lia. rewrite (frame_get _ _ _ _ _ F1) by lia. done.
Qed.

Lemma xored_ext a d o n s s' : (forall i, 0 <= i < n -> get s i = get s' i) ->
  xored a d o n s -> xored a d o n s'.
Proof. intros HE [HF HX]. split; [done|]. intros i Hi. by rewrite HX, HE by lia. Qed.

(** XORing twice restores the bytes. *)
Lemma xored_twice a b d o n s : 0 <= o -> 0 <= n -> o + n <= zlen a ->
  xored a b o n s -> xored b d o n s -> d = a.
Proof.
  intros Ho Hn Hl [F1 H1] [F2 H2]. pose proof (frame_len _ _ _ _ F1). pose proof (frame_len _ _ _ _ F2).
  apply list_eq_get; [lia|]. intros i Hi. destruct (decide (o <= i < o + n)).
  - replace i with (o + (i - o)) by lia. rewrite H2, H1 by lia.
    by rewrite Z.lxor_assoc, Z.lxor_nilpotent, Z.lxor_0_r.
  - rewrite (frame_get _ _ _ _ _ F2), (frame_get _ _ _ _ _ F1) by lia. done.
Qed.

Lemma xored_bytes a d o n s lo k : 0 <= o -> 0 <= lo -> lo + k <= zlen a -> xored a d o n s ->
  (forall i, 0 <= i < n -> word 8 (get s i)) -> bytes a lo k -> bytes d lo k.
Proof.
  intros Ho Hlo Hk [HF HX] Hs HB i Hi. destruct (decide (o <= i < o + n)).
  - replace i with (o + (i - o)) by lia. rewrite HX by lia. apply word_lxor; [lia| |apply Hs; lia].
    replace (o + (i - o)) with i by lia. by apply HB.
  - rewrite (frame_get _ _ _ _ _ HF) by lia. by apply HB.
Qed.

Lemma ceil_le a b : 0 < b -> a <= b * ((a + b - 1) / b).
Proof.
  intros Hb. pose proof (Z.div_mod (a + b - 1) b ltac:(lia)).
  pose proof (Z.mod_pos_bound (a + b - 1) b Hb). lia.
Qed.

(** * MGF1 of PKCS#1 *)

Section Spec.
Context {HC : HashClass} {HS : HashSpec HC}.

Definition mgf1_block (seed : list Z) (c : Z) : list Z := digest (seed ++ be_words 4 [u32 c] 1).
(** [n] blocks of the mask, from the counter [c]. *)
Fixpoint mgf1_mask (seed : list Z) (c : Z) (n : nat) : list Z :=
  match n with
  | O => []
  | S n => mgf1_block seed c ++ mgf1_mask seed (c + 1) n
  end.
(** Blocks enough for [len] bytes. *)
Definition mgf1_blocks (len : Z) : nat := Z.to_nat ((len + hash_size - 1) / hash_size).
Definition MGF1 (seed : list Z) (len : Z) : list Z :=
  take (Z.to_nat len) (mgf1_mask seed 0 (mgf1_blocks len)).

Lemma zlen_mask seed n : forall c, zlen (mgf1_mask seed c n) = hash_size * Z.of_nat n.
Proof.
  induction n as [|n IH]; intros c; cbn [mgf1_mask]; [simpl; lia|].
  unfold mgf1_block. rewrite zlen_app, digest_len, IH. lia.
Qed.

Lemma mask_bytes seed n : forall c, byte_string (mgf1_mask seed c n).
Proof.
  induction n as [|n IH]; intros c; cbn [mgf1_mask]; [constructor|].
  apply byte_string_app. split; [apply digest_bytes|apply IH].
Qed.

Lemma zlen_MGF1 seed len : 0 <= len -> zlen (MGF1 seed len) = len.
Proof.
  intros Hl. pose proof hash_size_pos as Hh. unfold MGF1. rewrite length_take.
  pose proof (zlen_mask seed (mgf1_blocks len) 0) as HL.
  assert (len <= hash_size * Z.of_nat (mgf1_blocks len)).
  { unfold mgf1_blocks. rewrite Z2Nat.id by (apply Z.div_pos; lia).
    apply ceil_le. lia. }
  lia.
Qed.

Lemma MGF1_bytes seed len : byte_string (MGF1 seed len).
Proof. apply Forall_take, mask_bytes. Qed.

Lemma MGF1_word seed len i : 0 <= len -> 0 <= i < len -> word 8 (get (MGF1 seed len) i).
Proof.
  intros Hl Hi. apply (proj1 (bytes_get _) (MGF1_bytes seed len)). rewrite zlen_MGF1; lia.
Qed.

Lemma mgf1_xor_loop_ok n : forall v u len tmp data o,
  0 <= v -> 0 <= u -> 0 <= o -> o + len <= zlen data -> v + Z.of_nat n <= zlen tmp -> u + v <= len ->
  let k := Z.min (Z.of_nat n) (len - (u + v)) in
  ok (mgf1_xor_loop n v u len tmp data o) (fun d =>
    xored data d (o + (u + v)) k (drop (Z.to_nat v) tmp)).
Proof.
  induction n as [|n IH]; intros v u len tmp data o Hv Hu Ho Hl Ht Hle k; cbn [mgf1_xor_loop].
  - cstep. cstep. replace k with 0 by lia. apply xored_0.
  - cstep. cstep. apply ok_cond; intros E.
    { apply Z.leb_le in E. cstep. replace k with 0 by lia. apply xored_0. }
    apply Z.leb_gt in E. csteps.
    set (d1 := upd data (o + (u + v)) _).
    assert (X1 : xored data d1 (o + (u + v)) 1 [get tmp v]).
    { split; [split; [unfold d1; by rewrite zlen_upd|]|].
      - intros j Hj Hj'. unfold d1. by rewrite get_upd_ne by lia.
      - intros i Hi. assert (i = 0) as -> by lia. unfold d1. rewrite Z.add_0_r, get_upd_eq by lia. done. }
    eapply ok_mono; [apply (IH (v + 1) u len tmp d1 o); try lia|].
    { unfold d1. rewrite zlen_upd. lia. }
    cbv zeta. replace (o + (u + (v + 1))) with (o + (u + v) + 1) by lia.
    intros d X2. replace k with (1 + Z.min (Z.of_nat n) (len - (u + (v + 1)))) by lia.
    apply (xored_ext _ _ _ _ ([get tmp v] ++ drop (Z.to_nat (v + 1)) tmp)).
    + intros i Hi. destruct (Z.eq_dec i 0) as [->|].
      * transitivity (get tmp v); [done|]. rewrite !get_lookup, lookup_drop. do 2 f_equal. lia.
      * rewrite get_app_r by (simpl; lia). rewrite !get_lookup, !lookup_drop. do 2 f_equal. simpl. lia.
    + eapply xored_app; try done; lia.
Qed.

Lemma mgf1_loop_ok fuel : forall u c data o len seed so seed_len,
  0 <= u -> Z.max 0 (len - u) < Z.of_nat fuel -> 0 <= o -> o + len <= zlen data -> 0 <= so -> 0 <= seed_len ->
  so + seed_len <= zlen seed -> bytes seed so seed_len ->
  let n := Z.max 0 (len - u) in
  ok (mgf1_loop fuel u (u32 c) data o len seed so seed_len) (fun d =>
    xored data d (o + u) n (mgf1_mask (slice seed so seed_len) c (mgf1_blocks n))).
Proof.
  induction fuel as [|fuel IH]; intros u c data o len seed so seed_len Hu Hf Ho Hl Hso Hsl Hs HB n; [lia|].
  pose proof hash_size_pos as Hh. cbn [mgf1_loop]. apply ok_cond; intros E.
  2:{ apply Z.ltb_ge in E. cstep. replace n with 0 by lia. apply xored_0. }
  apply Z.ltb_lt in E. cbv zeta. cstep. eapply ok_mono; [apply hash_init_ok, hash_auto_ok|]. intros c1 R1.
  cstep. eapply ok_mono; [by apply (hash_update_ok c1 [] seed so seed_len R1)|]. intros c2 R2.
  cbn [app] in R2. cstep.
  eapply ok_mono; [apply (codec_enc (WordCodec:=codec32be)); [lia|by rewrite length_replicate|apply u32_word]|].
  intros t1 (F1 & B1 & V1). pose proof (frame_len _ _ _ _ F1) as L1. rewrite length_replicate in L1.
  cstep. eapply ok_mono; [apply (hash_update_ok c2 _ t1 0 4 R2); done || lia|]. intros c3 R3.
  replace (slice t1 0 4) with (be_words 4 [u32 c] 1) in R3.
  2:{ symmetry. change 4 with (4 * 1) at 1. apply slice_be_words; try done; try lia.
    intros i Hi. assert (i = 0) as -> by lia. exact V1. }
  cstep. eapply ok_mono; [apply (hash_out_ok c3 _ t1 0 R3); lia|].
  intros t2 [F2 S2]. pose proof (frame_len _ _ _ _ F2). cstep.
  eapply ok_mono; [apply (mgf1_xor_loop_ok _ 0 u len t2 data o); lia|].
  cbv zeta. rewrite Z.add_0_r, Z2Nat.id by lia. cbn [Z.to_nat]. rewrite drop_0.
  set (k := Z.min hash_size (len - u)). intros d1 X1. pose proof (frame_len _ _ _ _ (proj1 X1)).
  replace (u32 (u32 c + 1)) with (u32 (c + 1)) by (unfold u32; by rewrite Z.add_mod_idemp_l by lia).
  eapply ok_mono; [apply (IH (u + hash_size) (c + 1) d1 o len seed so seed_len); done || lia|].
  cbv zeta. intros d X2. set (sd := slice seed so seed_len) in *.
  assert (X1' : xored data d1 (o + u) k (mgf1_block sd c)).
  { eapply xored_ext; [|exact X1]. intros i Hi. unfold mgf1_block. rewrite <- S2.
    by rewrite get_slice, Z.add_0_l by lia. }
  assert (EB : mgf1_blocks n = S (mgf1_blocks (Z.max 0 (len - (u + hash_size))))).
  { unfold mgf1_blocks. destruct (Z.le_gt_cases (len - u) hash_size).
    - replace (Z.max 0 (len - (u + hash_size))) with 0 by lia. rewrite (Z.div_small (0 + _ - 1)) by lia.
      replace ((n + hash_size - 1) / hash_size) with 1; [done|].
      apply (Z.div_unique_pos _ _ _ (n - 1)); lia.
    - replace (n + hash_size - 1) with (len - (u + hash_size) + hash_size - 1 + 1 * hash_size) by lia.
      rewrite Z.div_add by lia. replace (Z.max 0 (len - (u + hash_size))) with (len - (u + hash_size)) by lia.
      rewrite Z2Nat.inj_add by (try apply Z.div_pos; lia). lia. }
  rewrite EB. cbn [mgf1_mask]. destruct (Z.le_gt_cases (len - u) hash_size).
  - replace n with k by lia. replace (Z.max 0 (len - (u + hash_size))) with 0 in X2 by lia.
    assert (d = d1) as ->.
    { destruct X2 as [F _]. apply list_eq_get; [by rewrite (frame_len _ _ _ _ F)|].
      intros i Hi. apply (frame_get _ _ _ _ _ F); lia. }
    eapply xored_ext; [|exact X1']. intros i Hi. rewrite get_app_l; [done|].
    unfold mgf1_block. rewrite digest_len. lia.
  - replace n with (k + Z.max 0 (len - (u + hash_size))) by lia.
    eapply xored_app; try exact X1'; try lia.
    + unfold mgf1_block. rewrite digest_len. lia.
    + replace (o + u + k) with (o + (u + hash_size)) by lia. exact X2.
Qed.

(** MGF1, as its callers use it. *)
Lemma br_mgf1_xor_ok data o len seed so seed_len :
  0 <= o -> 0 <= len -> o + len <= zlen data -> 0 <= so -> 0 <= seed_len ->
  so + seed_len <= zlen seed -> bytes seed so seed_len ->
  ok (br_mgf1_xor data o len seed so seed_len) (fun d =>
    xored data d o len (MGF1 (slice seed so seed_len) len)).
Proof.
  intros Ho Hlen Hl Hso Hsl Hs HB. unfold br_mgf1_xor. change 0 with (u32 0) at 2.
  eapply ok_mono; [apply mgf1_loop_ok; try done; lia|]. cbv zeta.
  rewrite Z.sub_0_r, Z.add_0_r. replace (Z.max 0 len) with len by lia. intros d HX.
  eapply xored_ext; [|exact HX]. intros i Hi. unfold MGF1.
  rewrite !get_lookup, lookup_take_lt by lia. done.
Qed.
End Spec.
