(* ===== verification/Prf.v ===== *)
(** The TLS pseudorandom functions ([src/ssl/prf.c], [prf_md5sha1.c],
    [prf_sha256.c], [prf_sha384.c]) over the HMAC code. *)
From stdpp Require Import base tactics list numbers option.
From Stdlib Require Import ZArith Lia.
From S2P Require Import Prelude CtPrims Limbs Codec Hash Sha2 Md5 Sha1 Hmac Mgf1.
Local Open Scope Z_scope.
Local Open Scope cword_scope.

(** * Code *)

Section Code.
Context {HC : HashClass}.

(** [for (label_len = 0; label[label_len]; label_len ++);] *)
Fixpoint strlen_loop (fuel : nat) (label : list Z) (n : Z) : M Z :=
  match fuel with
  | O => None
  | S fuel =>
      c ← load label n;
      If negb (c =? 0) Then strlen_loop fuel label (n + 1) Else mret n
  end.

(** A chunk of seed: its data and length. *)
Definition prf_seed_chunk : Type := list Z * Z.

Fixpoint prf_seeds (hc : hmac_ctx HC) (seed : list prf_seed_chunk) : M (hmac_ctx HC) :=
  match seed with
  | [] => mret hc
  | (data, len) :: seed => hc ← br_hmac_update hc data 0 len; prf_seeds hc seed
  end.

(** [for (u = 0; u < hlen && u < len; u ++) buf[u] ^= tmp[u];] *)
Fixpoint prf_xor (n : nat) (u len : Z) (buf : list Z) (o : Z) (tmp : list Z) : M (list Z * Z) :=
  match n with
  | O => tick (Br false);; mret (buf, u)
  | S n =>
      tick (Br true);;
      If u <? len Then
        x ← load buf (o + u);
        t ← load tmp u;
        buf ← store buf (o + u) (x .^ t);
        prf_xor n (u + 1) len buf o tmp
      Else mret (buf, u)
  end.

(** The endless loop of [br_tls_phash], left when [len] bytes are done. *)
Fixpoint phash_loop (fuel : nat) (hc : hmac_ctx HC) (kc : hmac_key) (label : list Z) (label_len : Z)
    (seed : list prf_seed_chunk) (a tmp buf : list Z) (o len : Z) : M (list Z) :=
  match fuel with
  | O => None
  | S fuel =>
      hc ← br_hmac_init hc kc 0;
      hc ← br_hmac_update hc a 0 hash_size;
      hc ← br_hmac_update hc label 0 label_len;
      hc ← prf_seeds hc seed;
      '(tmp, _) ← br_hmac_out hc tmp 0;
      '(buf, u) ← prf_xor (Z.to_nat hash_size) 0 len buf o tmp;
      let o := o + u in
      let len := len - u in
      If len =? 0 Then mret buf
      Else
        hc ← br_hmac_init hc kc 0;
        hc ← br_hmac_update hc a 0 hash_size;
        '(a, _) ← br_hmac_out hc a 0;
        phash_loop fuel hc kc label label_len seed a tmp buf o len
  end.

Definition br_tls_phash (dst : list Z) (len : Z) (secret : list Z) (so secret_len : Z) (label : list Z)
    (seed : list prf_seed_chunk) : M (list Z) :=
  If len =? 0 Then mret dst
  Else
    label_len ← strlen_loop (length label) label 0;
    kc ← br_hmac_key_init auto_key (drop (Z.to_nat so) secret) secret_len;
    hc ← br_hmac_init auto_hmac kc 0;
    hc ← br_hmac_update hc label 0 label_len;
    hc ← prf_seeds hc seed;
    '(a, _) ← br_hmac_out hc (replicate 64 0) 0;
    phash_loop (Z.to_nat len) hc kc label label_len seed a (replicate 64 0) dst 0 len.
End Code.

Definition br_tls10_prf (dst : list Z) (len : Z) (secret : list Z) (secret_len : Z) (label : list Z)
    (seed : list prf_seed_chunk) : M (list Z) :=
  let slen := (secret_len + 1) >> 1 in
  dst ← memset dst 0 0 len;
  dst ← br_tls_phash (HC:=br_md5_class) dst len secret 0 slen label seed;
  br_tls_phash (HC:=br_sha1_class) dst len secret (secret_len - slen) slen label seed.

Definition br_tls12_sha256_prf (dst : list Z) (len : Z) (secret : list Z) (secret_len : Z)
    (label : list Z) (seed : list prf_seed_chunk) : M (list Z) :=
  dst ← memset dst 0 0 len;
  br_tls_phash (HC:=br_sha256_class) dst len secret 0 secret_len label seed.

Definition br_tls12_sha384_prf (dst : list Z) (len : Z) (secret : list Z) (secret_len : Z)
    (label : list Z) (seed : list prf_seed_chunk) : M (list Z) :=
  dst ← memset dst 0 0 len;
  br_tls_phash (HC:=br_sha384_class) dst len secret 0 secret_len label seed.

(** * RFC 2246 and RFC 5246 *)

Section Spec.
Context {HC : HashClass} {HS : HashSpec HC}.

(** [n] blocks of P_hash, from the value [A] on. *)
Fixpoint phash_stream (K S A : list Z) (n : nat) : list Z :=
  match n with
  | O => []
  | Datatypes.S n => HMAC K (A ++ S) ++ phash_stream K S (HMAC K A) n
  end.
Definition P_hash (K S : list Z) (len : Z) : list Z :=
  take (Z.to_nat len) (phash_stream K S (HMAC K S) (mgf1_blocks len)).

(** The bytes of the chunks. *)
Definition seed_ok (c : prf_seed_chunk) : Prop := 0 <= c.2 <= zlen c.1 /\ bytes c.1 0 c.2.
Definition seeds_bytes (seed : list prf_seed_chunk) : list Z := concat (map (fun c => slice c.1 0 c.2) seed).

(** A zero-terminated string. *)
Definition c_string (label lab : list Z) : Prop :=
  byte_string lab /\ Forall (fun c => c <> 0) lab /\ exists rest, label = lab ++ 0 :: rest.

Lemma zlen_stream K S n : forall A, zlen (phash_stream K S A n) = hash_size * Z.of_nat n.
Proof.
  induction n as [|n IH]; intros A; cbn [phash_stream]; [simpl; lia|].
  rewrite zlen_app, HMAC_len, IH. lia.
Qed.

Lemma blocks_S n : 0 < n ->
  mgf1_blocks n = S (mgf1_blocks (Z.max 0 (n - hash_size))).
Proof.
  intros Hn. pose proof hash_size_pos as Hh. unfold mgf1_blocks. destruct (Z.le_gt_cases n hash_size).
  - replace (Z.max 0 (n - hash_size)) with 0 by lia. rewrite (Z.div_small (0 + _ - 1)) by lia.
    replace ((n + hash_size - 1) / hash_size) with 1; [done|].
    apply (Z.div_unique_pos _ _ _ (n - 1)); lia.
  - replace (n + hash_size - 1) with (n - hash_size + hash_size - 1 + 1 * hash_size) by lia.
    rewrite Z.div_add by lia. replace (Z.max 0 (n - hash_size)) with (n - hash_size) by lia.
    rewrite Z2Nat.inj_add by (try apply Z.div_pos; lia). lia.
Qed.

Lemma strlen_ok lab : forall pre label fuel, Forall (fun c => c <> 0) lab ->
  (exists rest, label = pre ++ lab ++ 0 :: rest) -> (length lab < fuel)%nat ->
  ok (strlen_loop fuel label (zlen pre)) (fun n => n = zlen pre + zlen lab).
Proof.
  induction lab as [|c lab IH]; intros pre label fuel HF [rest ->] Hf; (destruct fuel as [|fuel]; [lia|]);
    cbn [strlen_loop]; cstep; (apply ok_load; [rewrite !zlen_app; simpl; lia|]).
  - rewrite get_app_r, Z.sub_diag by lia. cbn [app]. change (get (0 :: rest) 0) with 0.
    apply ok_cond; intros E; [done|]. cstep. simpl. lia.
  - apply Forall_cons_iff in HF as [Hc HF].
    rewrite get_app_r, Z.sub_diag by lia. change (get ((c :: lab) ++ 0 :: rest) 0) with c.
    apply ok_cond; intros E; [|apply negb_false_iff, Z.eqb_eq in E; done].
    replace (zlen pre + 1) with (zlen (pre ++ [c])) by (rewrite zlen_app; simpl; lia).
    eapply ok_mono; [apply (IH (pre ++ [c])); [done| |simpl in Hf; lia]|].
    + exists rest. by rewrite <- app_assoc.
    + intros n ->. rewrite zlen_app. cbn [length]. simpl. lia.
Qed.

Lemma c_string_len label lab : c_string label lab ->
  ok (strlen_loop (length label) label 0) (fun n => n = zlen lab) /\
  slice label 0 (zlen lab) = lab /\ bytes label 0 (zlen lab) /\ zlen lab < zlen label.
Proof.
  intros (HB & HF & rest & E). split; [|split; [|split]].
  - eapply ok_mono; [apply (strlen_ok lab [] label); [done|by exists rest|]|by intros].
    rewrite E, length_app. simpl. lia.
  - subst label. unfold slice. cbn [Z.to_nat drop]. rewrite drop_0. apply take_app_length'. lia.
  - subst label. intros i Hi. rewrite get_app_l by lia. by apply (proj1 (bytes_get _) HB).
  - subst label. rewrite zlen_app. simpl. lia.
Qed.

Lemma prf_seeds_ok seed : forall hc K n msg, hmac_rep hc K n msg -> Forall seed_ok seed ->
  ok (prf_seeds hc seed) (fun hc' => hmac_rep hc' K n (msg ++ seeds_bytes seed)).
Proof.
  induction seed as [|[d l] seed IH]; intros hc K n msg HR HF; cbn [prf_seeds].
  - cstep. unfold seeds_bytes. cbn. by rewrite app_nil_r.
  - apply Forall_cons_iff in HF as [[Hl HB] HF]. cbn [fst snd] in Hl, HB. cstep.
    eapply ok_mono; [apply (hmac_update_ok hc K n msg d 0 l HR); done || lia|].
    cbv beta. intros c R. eapply ok_mono; [by apply (IH c K n _ R)|]. cbv beta. intros c' R'.
    by rewrite <- app_assoc in R'.
Qed.

Lemma prf_xor_ok n : forall u len buf o tmp,
  0 <= u -> u <= len -> 0 <= o -> o + len <= zlen buf -> u + Z.of_nat n <= zlen tmp ->
  let k := Z.min (Z.of_nat n) (len - u) in
  ok (prf_xor n u len buf o tmp) (fun '(d, u') => u' = u + k /\
    xored buf d (o + u) k (drop (Z.to_nat u) tmp)).
Proof.
  induction n as [|n IH]; intros u len buf o tmp Hu Hle Ho Hl Ht k; cbn [prf_xor].
  - cstep. cstep. replace k with 0 by lia. split; [lia|apply xored_0].
  - cstep. cstep. apply ok_cond; intros E.
    2:{ apply Z.ltb_ge in E. cstep. replace k with 0 by lia. split; [lia|apply xored_0]. }
    apply Z.ltb_lt in E. csteps.
    set (d1 := upd buf (o + u) _).
    assert (X1 : xored buf d1 (o + u) 1 [get tmp u]).
    { split; [split; [unfold d1; by rewrite zlen_upd|]|].
      - intros j Hj Hj'. unfold d1. by rewrite get_upd_ne by lia.
      - intros i Hi. assert (i = 0) as -> by lia. unfold d1. rewrite Z.add_0_r, get_upd_eq by lia. done. }
    eapply ok_mono; [apply (IH (u + 1) len d1 o tmp); try lia|].
    { unfold d1. rewrite zlen_upd. lia. }
    cbv zeta. replace (o + (u + 1)) with (o + u + 1) by lia.
    intros [d u'] [-> X2]. split; [lia|]. replace k with (1 + Z.min (Z.of_nat n) (len - (u + 1))) by lia.
    apply (xored_ext _ _ _ _ ([get tmp u] ++ drop (Z.to_nat (u + 1)) tmp)).
    + intros i Hi. destruct (Z.eq_dec i 0) as [->|].
      * transitivity (get tmp u); [done|]. rewrite !get_lookup, lookup_drop. do 2 f_equal. lia.
      * rewrite get_app_r by (simpl; lia). rewrite !get_lookup, !lookup_drop. do 2 f_equal. simpl. lia.
    + eapply xored_app; try done; lia.
Qed.

Lemma tag_bytes d K m : slice d 0 hash_size = HMAC K m -> zlen d = 64 -> bytes d 0 hash_size.
Proof.
  intros HS' HL i Hi. pose proof hash_size_pos. replace i with (0 + i) by lia.
  rewrite <- (get_slice d 0 hash_size) by lia. rewrite HS'.
  apply (proj1 (bytes_get _) (HMAC_bytes _ _)). rewrite HMAC_len. lia.
Qed.

Section Loop.
Context (label lab : list Z) (seed : list prf_seed_chunk) (K : list Z) (kc : hmac_key).
Context (Hlab : c_string label lab) (Hseed : Forall seed_ok seed) (HK : key_rep kc K).
Abbreviation S := (lab ++ seeds_bytes seed).

(** The label and the seeds, injected after [msg]. *)
Lemma inject_ok hc n msg : hmac_rep hc K n msg ->
  ok (hc ← br_hmac_update hc label 0 (zlen lab); prf_seeds hc seed)
    (fun hc' => hmac_rep hc' K n (msg ++ S)).
Proof.
  intros HR. destruct (c_string_len _ _ Hlab) as (_ & ES & HB & Hl). cstep.
  eapply ok_mono; [apply (hmac_update_ok hc K n msg label 0 (zlen lab) HR); done || lia|].
  cbv beta. intros c R. rewrite ES in R. eapply ok_mono; [by apply (prf_seeds_ok seed c K n _ R)|].
  cbv beta. intros c' R'. by rewrite <- app_assoc in R'.
Qed.

(** A computation over an array that holds a tag. *)
Lemma over_tag hc a A : hmac_shape hc -> zlen a = 64 -> slice a 0 hash_size = A -> byte_string A ->
  ok (hc ← br_hmac_init hc kc 0; br_hmac_update hc a 0 hash_size)
    (fun hc' => hmac_rep hc' K hash_size A).
Proof.
  intros Hs Hl HA HB. pose proof hash_size_pos. cstep. eapply ok_mono; [by apply hmac_init_ok|].
  intros c R. replace (hmac_len 0) with hash_size in R by done. eapply ok_mono.
  { apply (hmac_update_ok c K _ [] a 0 hash_size R); try lia. intros i Hi.
    replace i with (0 + i) by lia. rewrite <- (get_slice a 0 hash_size) by lia. rewrite HA.
    apply (proj1 (bytes_get _) HB). rewrite <- HA, zlen_slice; lia. }
  cbv beta. intros c' R'. by rewrite HA in R'.
Qed.

Lemma phash_loop_ok fuel : forall hc a tmp buf o len A,
  hmac_shape hc -> zlen a = 64 -> zlen tmp = 64 -> slice a 0 hash_size = A -> byte_string A ->
  0 < len <= Z.of_nat fuel -> 0 <= o -> o + len <= zlen buf ->
  ok (phash_loop fuel hc kc label (zlen lab) seed a tmp buf o len) (fun d =>
    xored buf d o len (phash_stream K S A (mgf1_blocks len))).
Proof.
  induction fuel as [|fuel IH]; intros hc a tmp buf o len A Hs Ha Ht HA HAB Hlen Ho Hl; [lia|].
  pose proof hash_size_pos as Hh. cbn [phash_loop].
  apply (ok_assoc (br_hmac_init hc kc 0)). cstep. eapply ok_mono; [by apply (over_tag hc a A)|]. cbv beta. intros c R.
  apply (ok_assoc (br_hmac_update c label 0 (zlen lab))). cstep. eapply ok_mono; [by apply (inject_ok c hash_size A)|]. cbv beta. intros c1 R1. cstep.
  eapply ok_mono; [apply (hmac_out_full c1 K _ tmp 0 R1); lia|].
  intros [t1 k1] (-> & F1 & S1). pose proof (frame_len _ _ _ _ F1). cstep.
  eapply ok_mono; [apply (prf_xor_ok _ 0 len buf o t1); lia|].
  cbv zeta. rewrite Z2Nat.id, Z.sub_0_r, Z.add_0_r by lia. cbn [Z.to_nat]. rewrite drop_0.
  set (k := Z.min hash_size len). intros [d1 u] [-> X1]. rewrite Z.add_0_l.
  assert (X1' : xored buf d1 o k (HMAC K (A ++ S))).
  { eapply xored_ext; [|exact X1]. intros i Hi. rewrite <- S1. by rewrite get_slice, Z.add_0_l by lia. }
  pose proof (frame_len _ _ _ _ (proj1 X1')) as L1. rewrite blocks_S by lia. cbn [phash_stream].
  apply ok_cond; intros E.
  - apply Z.eqb_eq in E. cstep. replace len with k at 1 by lia. eapply xored_ext; [|exact X1'].
    intros i Hi. rewrite get_app_l; [done|]. rewrite HMAC_len. lia.
  - apply Z.eqb_neq in E. apply (ok_assoc (br_hmac_init c1 kc 0)). cstep.
    eapply ok_mono; [apply (over_tag c1 a A); [by eapply hmac_rep_shape|done..]|]. cbv beta. intros c2 R2. cstep.
    eapply ok_mono; [apply (hmac_out_full c2 K _ a 0 R2); lia|].
    intros [a2 k2] (-> & F2 & S2). pose proof (frame_len _ _ _ _ F2).
    eapply ok_mono; [apply (IH c2 a2 t1 d1 (o + k) (len - k) (HMAC K A)); try lia; try done|].
    { by eapply hmac_rep_shape. } { apply HMAC_bytes. }
    intros d X2. replace (Z.max 0 (len - hash_size)) with (len - k) by lia.
    replace len with (k + (len - k)) at 1 by lia.
    eapply xored_app; try exact X1'; try exact X2; try lia. rewrite HMAC_len. lia.
Qed.
End Loop.

Lemma phash_ok dst len secret so secret_len label lab seed :
  c_string label lab -> Forall seed_ok seed -> 0 <= so -> 0 <= secret_len ->
  so + secret_len <= zlen secret -> byte_string secret -> 0 <= len <= zlen dst ->
  ok (br_tls_phash dst len secret so secret_len label seed) (fun d =>
    xored dst d 0 len (P_hash (slice secret so secret_len) (lab ++ seeds_bytes seed) len)).
Proof.
  intros Hlab Hseed Hso Hsl Hs HB Hlen. pose proof hash_size_pos as Hh.
  destruct (c_string_len _ _ Hlab) as (HL & _). unfold br_tls_phash. apply ok_cond; intros E.
  { apply Z.eqb_eq in E. subst len. cstep. apply xored_0. }
  apply Z.eqb_neq in E. cstep. eapply ok_mono; [exact HL|]. intros n ->. cstep.
  assert (Hd : byte_string (drop (Z.to_nat so) secret)) by (by apply Forall_drop).
  eapply ok_mono.
  { apply (hmac_key_init_ok auto_key (drop (Z.to_nat so) secret) secret_len); [done|rewrite length_drop; lia|].
    intros i Hi. apply (proj1 (bytes_get _) Hd). rewrite length_drop. lia. }
  cbv beta. change (slice (drop (Z.to_nat so) secret) 0 secret_len) with (slice secret so secret_len).
  set (K := slice secret so secret_len). intros kc HK. cstep.
  eapply ok_mono; [apply hmac_init_ok; [apply auto_hmac_shape|exact HK]|].
  intros c R. replace (hmac_len 0) with hash_size in R by done. apply (ok_assoc (br_hmac_update c label 0 (zlen lab))). cstep.
  eapply ok_mono; [by apply (inject_ok label lab seed K Hlab Hseed c hash_size [])|].
  cbn [app]. intros c1 R1. cstep.
  eapply ok_mono; [apply (hmac_out_full c1 K _ (replicate 64 0) 0 R1); rewrite ?length_replicate; lia|].
  intros [a k] (-> & F1 & S1). pose proof (frame_len _ _ _ _ F1) as L1. rewrite length_replicate in L1.
  eapply ok_mono.
  { apply (phash_loop_ok label lab seed K kc Hlab Hseed HK _ c1 a (replicate 64 0) dst 0 len
      (HMAC K (lab ++ seeds_bytes seed))); try done; try lia; [by eapply hmac_rep_shape|apply HMAC_bytes]. }
  cbv beta. intros d HX. eapply xored_ext; [|exact HX]. intros i Hi. unfold P_hash.
  rewrite !get_lookup, lookup_take_lt by lia. done.
Qed.
End Spec.

(** * The three functions *)

Lemma xor_zeros dst d len s : 0 <= len <= zlen dst -> xored (fillz dst 0 0 len) d 0 len s ->
  frame 0 len dst d /\ forall i, 0 <= i < len -> get d i = get s i.
Proof.
  intros Hl [HF HX]. pose proof (frame_len _ _ _ _ HF) as L. rewrite zlen_fillz in L by lia. split.
  - split; [done|]. intros j Hj Hj'. rewrite (frame_get _ _ _ _ _ HF), get_fillz_out; rewrite ?zlen_fillz; lia || done.
  - intros i Hi. specialize (HX i Hi). rewrite Z.add_0_l in HX. rewrite HX, get_fillz_in by lia.
    apply Z.lxor_0_l.
Qed.

Lemma slice_P_hash {HC : HashClass} {HS : HashSpec HC} d K S len : 0 <= len <= zlen d ->
  (forall i, 0 <= i < len -> get d i = get (P_hash K S len) i) -> slice d 0 len = P_hash K S len.
Proof.
  intros Hl HG. assert (HP : zlen (P_hash K S len) = len).
  { unfold P_hash. rewrite length_take. pose proof (zlen_stream K S (mgf1_blocks len) (HMAC K S)).
    pose proof hash_size_pos as Hh. assert (len <= hash_size * Z.of_nat (mgf1_blocks len)).
    { unfold mgf1_blocks. rewrite Z2Nat.id by (apply Z.div_pos; lia). apply ceil_le. lia. }
    lia. }
  apply list_eq_get; rewrite zlen_slice by lia; [done|]. intros i Hi.
  rewrite get_slice, Z.add_0_l by lia. by apply HG.
Qed.

(** The halves of the secret used by TLS 1.0, and the two PRF definitions. *)
Definition tls10_PRF (secret S : list Z) (len : Z) : list Z :=
  let slen := (zlen secret + 1) / 2 in
  zip_with Z.lxor (P_hash (HS:=br_md5_spec) (slice secret 0 slen) S len)
    (P_hash (HS:=br_sha1_spec) (slice secret (zlen secret - slen) slen) S len).

Lemma tls12_ok {HC : HashClass} {HS : HashSpec HC} dst len secret label lab seed :
  c_string label lab -> Forall seed_ok seed -> byte_string secret -> 0 <= len <= zlen dst ->
  ok (dst ← memset dst 0 0 len; br_tls_phash dst len secret 0 (zlen secret) label seed) (fun d =>
    frame 0 len dst d /\ slice d 0 len = P_hash secret (lab ++ seeds_bytes seed) len).
Proof.
  intros Hlab Hseed Hs Hlen. cstep. apply ok_memset; try lia.
  eapply ok_mono; [apply (phash_ok _ len secret 0 (zlen secret) label lab seed); rewrite ?zlen_fillz; try done; lia|].
  cbv beta. rewrite (slice_all secret) by done. intros d HX. destruct (xor_zeros dst d len _ Hlen HX) as [HF HG].
  split; [done|]. apply slice_P_hash; [rewrite (frame_len _ _ _ _ HF); lia|done].
Qed.

Lemma tls10_ok dst len secret label lab seed :
  c_string label lab -> Forall seed_ok seed -> byte_string secret -> 0 <= len <= zlen dst ->
  ok (br_tls10_prf dst len secret (zlen secret) label seed) (fun d =>
    frame 0 len dst d /\ slice d 0 len = tls10_PRF secret (lab ++ seeds_bytes seed) len).
Proof.
  intros Hlab Hseed Hs Hlen. unfold br_tls10_prf, tls10_PRF. cbv zeta. rewrite shr_div by lia. change (2 ^ 1) with 2.
  set (sl := (zlen secret + 1) / 2). assert (Hsl : 0 <= sl <= zlen secret) by (unfold sl; zn).
  set (S := lab ++ seeds_bytes seed).
  cstep. apply ok_memset; try lia. cstep.
  eapply ok_mono; [apply (phash_ok (HS:=br_md5_spec) _ len secret 0 sl label lab seed); rewrite ?zlen_fillz; try done; lia|].
  intros d1 X1. destruct (xor_zeros dst d1 len _ Hlen X1) as [F1 G1]. fold S in G1.
  pose proof (frame_len _ _ _ _ F1) as L1.
  apply (slice_P_hash (HS:=br_md5_spec)) in G1; [|lia].
  eapply ok_mono; [apply (phash_ok (HS:=br_sha1_spec) d1 len secret (zlen secret - sl) sl label lab seed); try done; lia|].
  fold S. intros d [F2 G2]. pose proof (frame_len _ _ _ _ F2) as L2. split.
  - split; [lia|]. intros j Hj Hj'. rewrite (frame_get _ _ _ _ _ F2), (frame_get _ _ _ _ _ F1); lia || done.
  - rewrite <- G1. set (p2 := P_hash (HS:=br_sha1_spec) _ S len) in *.
    assert (HP2 : zlen p2 = len).
    { unfold p2, P_hash. rewrite length_take. set (K2 := slice secret _ sl).
      pose proof (zlen_stream (HS:=br_sha1_spec) K2 S (mgf1_blocks (HC:=br_sha1_class) len) (HMAC (HS:=br_sha1_spec) K2 S)) as HL.
      pose proof (hash_size_pos (HashSpec:=br_sha1_spec)) as Hh.
      assert (len <= hash_size (HashClass:=br_sha1_class) * Z.of_nat (mgf1_blocks (HC:=br_sha1_class) len)).
      { unfold mgf1_blocks. rewrite Z2Nat.id by (apply Z.div_pos; lia). apply ceil_le. lia. }
      lia. }
    assert (HS1 : zlen (slice d1 0 len) = len) by (apply zlen_slice; lia).
    apply list_eq_get; rewrite zlen_slice by lia; [rewrite length_zip_with; lia|]. intros i Hi.
    rewrite get_slice, Z.add_0_l by lia. specialize (G2 i Hi). rewrite Z.add_0_l in G2. rewrite G2.
    rewrite <- (Z.add_0_l i) at 1. rewrite <- (get_slice d1 0 len) by lia.
    rewrite (get_lookup (zip_with _ _ _)), lookup_zip_with, !get_lookup.
    destruct (lookup_lt_is_Some_2 (slice d1 0 len) (Z.to_nat i) ltac:(lia)) as [x ->].
    destruct (lookup_lt_is_Some_2 p2 (Z.to_nat i) ltac:(lia)) as [y ->]. done.
Qed.

(** The three pseudorandom functions of TLS are the ones of RFC 2246 and RFC
    5246; they write the requested bytes and nothing else. *)
Theorem tls_prf_correct dst len secret label lab seed :
  c_string label lab -> Forall seed_ok seed -> byte_string secret -> 0 <= len <= zlen dst ->
  let S := lab ++ seeds_bytes seed in
  ok (br_tls10_prf dst len secret (zlen secret) label seed) (fun d =>
    frame 0 len dst d /\ slice d 0 len = tls10_PRF secret S len) /\
  ok (br_tls12_sha256_prf dst len secret (zlen secret) label seed) (fun d =>
    frame 0 len dst d /\ slice d 0 len = P_hash (HS:=br_sha256_spec) secret S len) /\
  ok (br_tls12_sha384_prf dst len secret (zlen secret) label seed) (fun d =>
    frame 0 len dst d /\ slice d 0 len = P_hash (HS:=br_sha384_spec) secret S len).
Proof.
  intros Hlab Hseed Hs Hlen S. split; [by apply tls10_ok|].
  split; [by apply (tls12_ok (HS:=br_sha256_spec))|by apply (tls12_ok (HS:=br_sha384_spec))].
Qed.

Lemma tls_prf_correct_witness :
  ok (br_tls12_sha256_prf (replicate 10 0) 5 [1; 2; 3] 3 [0x61; 0x62; 0] [([7; 8], 2); ([9], 1)]) (fun d =>
    frame 0 5 (replicate 10 0) d /\
    slice d 0 5 = P_hash (HS:=br_sha256_spec) [1; 2; 3] [0x61; 0x62; 7; 8; 9] 5).
Proof.
  refine (proj1 (proj2 (tls_prf_correct (replicate 10 0) 5 [1; 2; 3] [0x61; 0x62; 0] [0x61; 0x62]
    [([7; 8], 2); ([9], 1)] _ _ _ _))).
  - split; [by repeat constructor|]. split; [by repeat constructor|by exists []].
  - assert (H : forall l, byte_string l -> seed_ok (l, zlen l)) by (intros l Hl; split; [simpl; lia|by apply bytes_get]).
    constructor; [|constructor; [|done]]; apply H; by repeat constructor.
  - by repeat constructor.
  - done.
Defined.
