(* ===== verification/RsaPkcs1.v ===== *)
(** PKCS#1 v1.5 signature padding, [src/rsa/rsa_pkcs1_sig_pad.c] and
    [src/rsa/rsa_pkcs1_sig_unpad.c].

    The OID pointer [hash_oid] may be [NULL]: it is an [option].  The first byte
    of an OID is its length. *)
From stdpp Require Import base tactics list numbers option.
From Stdlib Require Import ZArith Lia.
From S2P Require Import Prelude CtPrims Limbs Codec Hash.
Local Open Scope Z_scope.
Local Open Scope cword_scope.

(** [memcmp(a + ao, b + bo, n) == 0] *)
Definition memcmp_eq (a : list Z) (ao : Z) (b : list Z) (bo n : Z) : M bool :=
  if in_range a ao n && in_range b bo n
  then Some ([Mv ao bo n], bool_decide (slice a ao n = slice b bo n)) else None.

(** * Code *)

Definition br_rsa_pkcs1_sig_pad (hash_oid : option (list Z)) (hash : list Z)
    (hash_len n_bitlen : Z) (x : list Z) : M (Z * list Z) :=
  let xlen := u32 (n_bitlen + 7) >> 3 in
  match hash_oid with
  | None =>
      If xlen <? u64 (hash_len + 11) Then mret (0, x) Else
      x ← store x 0 0x00;
      x ← store x 1 0x01;
      let u := u64 (xlen - hash_len) in
      x ← memset x 2 0xFF (u - 3);
      x ← store x (u - 1) 0x00;
      x ← memcpy x u hash 0 hash_len;
      mret (1, x)
  | Some oid =>
      x3 ← load oid 0;
      If xlen <? u64 (x3 + hash_len + 21) Then mret (0, x) Else
      x ← store x 0 0x00;
      x ← store x 1 0x01;
      let u := u64 (xlen - x3 - hash_len - 11) in
      x ← memset x 2 0xFF (u - 2);
      x ← store x u 0x00;
      x ← store x (u + 1) 0x30;
      x ← store x (u + 2) (u8 (x3 + hash_len + 8));
      x ← store x (u + 3) 0x30;
      x ← store x (u + 4) (u8 (x3 + 4));
      x ← store x (u + 5) 0x06;
      x ← memcpy x (u + 6) oid 0 (x3 + 1);
      let u := u + (x3 + 7) in
      x ← store x u 0x05;
      x ← store x (u + 1) 0x00;
      x ← store x (u + 2) 0x04;
      x ← store x (u + 3) (u8 hash_len);
      x ← memcpy x (u + 4) hash 0 hash_len;
      mret (1, x)
  end.

Definition pad1 : list Z := [0x00; 0x01; 0xFF; 0xFF; 0xFF; 0xFF; 0xFF; 0xFF; 0xFF; 0xFF].

(** [for (; u < sig_len; u ++) if (sig[u] != 0xFF) break;] *)
Fixpoint skip_ff (fuel : nat) (sig : list Z) (u sig_len : Z) : M Z :=
  match fuel with
  | O => None
  | S fuel' =>
      If u <? sig_len Then
        b ← load sig u;
        If negb (b =? 0xFF) Then mret u Else skip_ff fuel' sig (u + 1) sig_len
      Else mret u
  end.

(** The expected [DigestInfo], in the buffer [pad2] of 43 bytes. *)
Definition unpad_info (oid : list Z) (x3 x2 pad_len hash_len : Z) (pad2 : list Z) : M (list Z) :=
  pad2 ← store pad2 1 0x30;
  pad2 ← store pad2 2 (u8 (x2 + hash_len + 4));
  pad2 ← store pad2 3 0x30;
  pad2 ← store pad2 4 (u8 x2);
  pad2 ← store pad2 5 0x06;
  pad2 ← memcpy pad2 6 oid 0 (x3 + 1);
  pad2 ← store pad2 (pad_len - 2) 0x04;
  store pad2 (pad_len - 1) (u8 hash_len).

(** The check of what follows the last [0xFF], at [u]. *)
Definition unpad_tail (sig : list Z) (sig_len : Z) (hash_oid : option (list Z))
    (hash_len u : Z) (pad2 : list Z) : M bool :=
  match hash_oid with
  | None =>
      If negb (sig_len - u =? u64 (hash_len + 1)) Then mret false Else
      b ← load sig u;
      If negb (b =? 0x00) Then mret false Else mret true
  | Some oid =>
      x3 ← load oid 0;
      let pad_len := x3 + 9 in
      pad2 ← memset pad2 0 0 pad_len;
      let zlen := u64 (sig_len - u - hash_len) in
      If zlen =? pad_len Then
        pad2 ← unpad_info oid x3 (x3 + 2) pad_len hash_len pad2;
        memcmp_eq pad2 0 sig u pad_len
      Else If zlen =? pad_len + 2 Then
        let pad_len := zlen in
        pad2 ← store pad2 (pad_len - 4) 0x05;
        pad2 ← unpad_info oid x3 (x3 + 4) pad_len hash_len pad2;
        memcmp_eq pad2 0 sig u pad_len
      Else mret false
  end.

Definition br_rsa_pkcs1_sig_unpad (sig : list Z) (sig_len : Z) (hash_oid : option (list Z))
    (hash_len : Z) (hash_out pad2 : list Z) : M (Z * list Z) :=
  If sig_len <? 11 Then mret (0, hash_out) Else
  same ← memcmp_eq sig 0 pad1 0 10;
  If negb same Then mret (0, hash_out) Else
  u ← skip_ff (Z.to_nat sig_len + 1) sig 10 sig_len;
  good ← unpad_tail sig sig_len hash_oid hash_len u pad2;
  If negb good Then mret (0, hash_out) Else
  hash_out ← memcpy hash_out 0 sig (sig_len - hash_len) hash_len;
  mret (1, hash_out).

(** * The encoded message *)

(** The [DigestInfo] of a hash of [hlen] bytes, with or without the [NULL]
    parameters; nothing without OID. *)
Definition digest_info (hash_oid : option (list Z)) (null : bool) (hlen : Z) : list Z :=
  match hash_oid with
  | None => []
  | Some oid =>
      let x2 := get oid 0 + (if null then 4 else 2) in
      [0x30; u8 (x2 + hlen + 4); 0x30; u8 x2; 0x06] ++ slice oid 0 (get oid 0 + 1)
        ++ (if null then [0x05; 0x00] else []) ++ [0x04; u8 hlen]
  end.

(** [EMSA-PKCS1-v1_5] with [k] bytes of value [0xFF]. *)
Definition emsa (k : Z) (hash_oid : option (list Z)) (null : bool) (H : list Z) : list Z :=
  [0x00; 0x01] ++ replicate (Z.to_nat k) 0xFF ++ [0x00] ++ digest_info hash_oid null (zlen H) ++ H.

(** An OID announces its length. *)
Definition oid_ok (hash_oid : option (list Z)) : Prop :=
  match hash_oid with
  | None => True
  | Some oid => 0 <= get oid 0 <= 32 /\ get oid 0 + 1 <= zlen oid
  end.

(** The bytes that are not hash: the smallest padding. *)
Definition min_pad (hash_oid : option (list Z)) : Z :=
  match hash_oid with None => 11 | Some oid => get oid 0 + 21 end.

(** * Padding *)

(** [x] is [x0] but for its first [k] cells, which hold [L]. *)
Definition pre (x0 x : list Z) (k : Z) (L : list Z) : Prop :=
  0 <= k <= zlen x /\ frame 0 k x0 x /\ slice x 0 k = L.

Lemma pre_nil x : pre x x 0 [].
Proof. split; [lia|]. split; [apply frame_refl|done]. Qed.

Lemma pre_step x0 x x' k n L T : pre x0 x k L -> 0 <= n -> k + n <= zlen x ->
  frame k (k + n) x x' -> slice x' k n = T -> pre x0 x' (k + n) (L ++ T).
Proof.
  intros (Hk & HF & HS) Hn Hl HF' HT. pose proof (frame_len _ _ _ _ HF'). split; [lia|]. split.
  - eapply frame_trans; eapply frame_weaken; [exact HF|lia|lia|exact HF'|lia|lia].
  - rewrite slice_split, Z.add_0_l, HT by lia. f_equal. rewrite <- HS. apply (slice_frame x x' 0 k k (k + n)); done || lia.
Qed.

Lemma pre_store x0 x k L v : pre x0 x k L -> k < zlen x -> pre x0 (upd x k v) (k + 1) (L ++ [v]).
Proof.
  intros HP Hl. pose proof HP as (Hk & _). apply (pre_step _ x); [done|lia|lia|apply frame_upd; lia|].
  apply list_eq_get; rewrite zlen_slice by (rewrite ?zlen_upd; lia); [done|].
  intros i Hi. rewrite get_slice by lia. replace i with 0 by lia.
  by rewrite Z.add_0_r, get_upd_eq by lia.
Qed.

(** A cell that need not be written. *)
Lemma pre_known x0 x k L v : pre x0 x k L -> k < zlen x0 -> get x0 k = v ->
  pre x0 x (k + 1) (L ++ [v]).
Proof.
  intros HP Hl <-. pose proof HP as (Hk & HF & _). pose proof (frame_len _ _ _ _ HF).
  apply (pre_step _ x); [done|lia|lia|apply frame_refl|].
  apply list_eq_get; rewrite zlen_slice by lia; [done|]. intros i Hi. rewrite get_slice by lia.
  replace i with 0 by lia. rewrite Z.add_0_r, (frame_get _ _ _ _ _ HF) by lia. done.
Qed.

Lemma pre_fill x0 x k L v n : pre x0 x k L -> 0 <= n -> k + n <= zlen x ->
  pre x0 (fillz x k v n) (k + n) (L ++ replicate (Z.to_nat n) v).
Proof.
  intros HP Hn Hl. pose proof HP as (Hk & _). apply (pre_step _ x); [done|lia|lia|apply frame_fillz; lia|].
  apply list_eq_get; rewrite zlen_slice by (rewrite ?zlen_fillz; lia); [rewrite length_replicate; lia|].
  intros i Hi. by rewrite get_slice, get_fillz_in, get_replicate by lia.
Qed.

Lemma pre_copy x0 x k L s sp n : pre x0 x k L -> 0 <= sp -> 0 <= n -> k + n <= zlen x ->
  sp + n <= zlen s -> pre x0 (blit x k s sp n) (k + n) (L ++ slice s sp n).
Proof.
  intros HP Hsp Hn Hl Hs. pose proof HP as (Hk & _).
  apply (pre_step _ x); [done|lia|lia|apply frame_blit; lia|apply slice_blit_in; lia].
Qed.

Lemma pre_len x0 x k L : pre x0 x k L -> zlen x = zlen x0.
Proof. intros (_ & HF & _). by apply frame_len in HF. Qed.

(** One write at the end of what is written. *)
Lemma ok_pre_store x0 x k o L v Q : pre x0 x k L -> o = k -> k < zlen x0 ->
  (forall x', pre x0 x' (k + 1) (L ++ [v]) -> Q x') -> ok (store x o v) Q.
Proof.
  intros HP -> Hl HQ. pose proof (pre_len _ _ _ _ HP). pose proof HP as (Hk & _).
  apply ok_store; [lia|]. apply HQ, pre_store; [done|lia].
Qed.

Lemma ok_pre_set x0 x k o L v n Q : pre x0 x k L -> o = k -> 0 <= n -> k + n <= zlen x0 ->
  (forall x', pre x0 x' (k + n) (L ++ replicate (Z.to_nat n) v) -> Q x') -> ok (memset x o v n) Q.
Proof.
  intros HP -> Hn Hl HQ. pose proof (pre_len _ _ _ _ HP). pose proof HP as (Hk & _).
  apply ok_memset; [lia..|]. apply HQ, pre_fill; [done|lia..].
Qed.

Lemma ok_pre_copy x0 x k o L s sp n Q : pre x0 x k L -> o = k -> 0 <= sp -> 0 <= n -> k + n <= zlen x0 ->
  sp + n <= zlen s -> (forall x', pre x0 x' (k + n) (L ++ slice s sp n) -> Q x') ->
  ok (memcpy x o s sp n) Q.
Proof.
  intros HP -> Hsp Hn Hl Hs HQ. pose proof (pre_len _ _ _ _ HP). pose proof HP as (Hk & _).
  apply ok_memcpy; [lia..|]. apply HQ, pre_copy; [done|lia..].
Qed.

(** The next write, at an offset equal to the number of cells written. *)
Ltac pre_write :=
  apply ok_bind;
  match goal with
  | HP : pre ?x0 ?x ?k _ |- ok (store ?x ?o _) _ =>
      eapply (ok_pre_store x0 x k o _ _ _ HP); [lia|lia|]; clear HP; try clear x; let y := fresh x in intros y HP
  | HP : pre ?x0 ?x ?k _ |- ok (memset ?x ?o _ _) _ =>
      eapply (ok_pre_set x0 x k o _ _ _ _ HP); [lia|lia|lia|]; clear HP; try clear x; let y := fresh x in intros y HP
  | HP : pre ?x0 ?x ?k _ |- ok (memcpy ?x ?o _ _ _) _ =>
      eapply (ok_pre_copy x0 x k o _ _ _ _ _ HP); [lia|lia|lia|lia|lia|];
      clear HP; try clear x; let y := fresh x in intros y HP
  end; cbv beta.

Lemma br_rsa_pkcs1_sig_pad_ok hash_oid hash hash_len n_bitlen x :
  oid_ok hash_oid -> 0 <= hash_len <= zlen hash -> hash_len < 2 ^ 32 ->
  0 <= n_bitlen < 2 ^ 32 - 8 ->
  let xlen := (n_bitlen + 7) / 8 in
  xlen <= zlen x ->
  ok (br_rsa_pkcs1_sig_pad hash_oid hash hash_len n_bitlen x) (fun '(r, x') =>
    if min_pad hash_oid + hash_len <=? xlen
    then r = 1 /\ frame 0 xlen x x' /\
         slice x' 0 xlen = emsa (xlen - min_pad hash_oid - hash_len + 8) hash_oid true (slice hash 0 hash_len)
    else r = 0 /\ x' = x).
Proof.
  intros Hoid Hh Hh32 Hn xlen Hx. unfold br_rsa_pkcs1_sig_pad.
  rewrite shr_div, u32_small by (lia || (unfold word; lia)). change (2 ^ 3) with 8. fold xlen.
  assert (Hxl : 0 <= xlen < 2 ^ 32) by (unfold xlen; zn). pose proof (pre_nil x) as HP.
  destruct hash_oid as [oid|]; cbn [min_pad oid_ok] in *.
  - destruct Hoid as [Ho1 Ho2]. set (x3 := get oid 0) in *.
    cstep. cstep. fold x3. rewrite (u64_small (x3 + hash_len + 21)) by (unfold word; lia).
    cstep; [apply Z.ltb_lt in H|apply Z.ltb_ge in H].
    { rewrite (proj2 (Z.leb_gt _ _)) by lia. by cstep. }
    rewrite (proj2 (Z.leb_le _ _)), u64_small by (lia || (unfold word; lia)). cbv zeta.
    set (u := xlen - x3 - hash_len - 11). do 15 pre_write.
    cstep. split; [done|]. destruct HP as (_ & HF & HS).
    match type of HF with frame _ ?e _ _ => replace e with xlen in HF, HS by (unfold u; lia) end.
    split; [done|]. rewrite HS. unfold emsa, digest_info. fold x3.
    rewrite zlen_slice by lia. rewrite <- !app_assoc. cbn [app].
    do 3 f_equal; [f_equal; unfold u; lia|]. do 3 f_equal. f_equal. lia.
  - rewrite (u64_small (hash_len + 11)) by (unfold word; lia).
    cstep; [apply Z.ltb_lt in H|apply Z.ltb_ge in H].
    { rewrite (proj2 (Z.leb_gt _ _)) by lia. by cstep. }
    rewrite (proj2 (Z.leb_le _ _)), u64_small by (lia || (unfold word; lia)). cbv zeta.
    do 5 pre_write. cstep. split; [done|]. destruct HP as (_ & HF & HS).
    match type of HF with frame _ ?e _ _ => replace e with xlen in HF, HS by lia end.
    split; [done|]. rewrite HS. unfold emsa, digest_info.
    rewrite <- !app_assoc. cbn [app]. do 3 f_equal. f_equal. lia.
Qed.

(** * Unpadding *)

(** The run of bytes of value [0xFF]. *)
Lemma skip_ff_ok fuel sig u n : 0 <= u <= n -> n <= zlen sig -> n - u < Z.of_nat fuel ->
  ok (skip_ff fuel sig u n) (fun v => u <= v <= n /\
    slice sig u (v - u) = replicate (Z.to_nat (v - u)) 0xFF /\ (v < n -> get sig v <> 0xFF)).
Proof.
  revert u. induction fuel as [|fuel IH]; intros u Hu Hn Hf; [lia|]. cbn [skip_ff]. cstep.
  - apply Z.ltb_lt in H. cstep. cstep. cstep.
    + apply negb_true_iff, Z.eqb_neq in H0. cstep. split; [lia|]. by rewrite Z.sub_diag.
    + apply negb_false_iff, Z.eqb_eq in H0. eapply ok_mono; [apply IH; lia|]. cbv beta.
      intros v (Hv & HS & HG). split; [lia|]. split; [|done].
      replace (v - u) with (1 + (v - (u + 1))) by lia.
      rewrite slice_split, HS, Z2Nat.inj_add by lia. rewrite replicate_add. f_equal.
      apply list_eq_get; rewrite zlen_slice by lia; [done|]. intros i Hi.
      rewrite get_slice by lia. replace i with 0 by lia. by rewrite Z.add_0_r, H0.
  - apply Z.ltb_ge in H. cstep. replace u with n by lia. split; [lia|]. rewrite Z.sub_diag. split; [done|lia].
Qed.

(** Where the run ends is determined. *)
Lemma run_inj a b T T' : (forall x T0, T = x :: T0 -> x <> 0xFF) ->
  replicate a 0xFF ++ T = replicate b 0xFF ++ 0 :: T' -> a = b /\ T = 0 :: T'.
Proof.
  revert b. induction a as [|a IH]; intros [|b] HT; cbn [replicate app]; intros E.
  - done.
  - exfalso. by eapply HT.
  - done.
  - injection E as E. destruct (IH b HT E) as [-> ->]. done.
Qed.

Lemma memcmp_eq_ok a ao b bo n (Q : bool -> Prop) : 0 <= ao -> 0 <= bo -> 0 <= n ->
  ao + n <= zlen a -> bo + n <= zlen b ->
  Q (bool_decide (slice a ao n = slice b bo n)) -> ok (memcmp_eq a ao b bo n) Q.
Proof.
  intros. unfold memcmp_eq.
  by rewrite (proj2 (in_range_true a ao n)), (proj2 (in_range_true b bo n)) by lia.
Qed.

Lemma zlen_info oid null hlen : oid_ok (Some oid) ->
  zlen (digest_info (Some oid) null hlen) = get oid 0 + (if null then 10 else 8).
Proof.
  intros [H1 H2]. unfold digest_info. rewrite !zlen_app, zlen_slice by lia.
  destruct null; simpl length; lia.
Qed.

(** The buffer built for the comparison. *)
Lemma unpad_info_ok oid (null : bool) hash_len pad2 :
  oid_ok (Some oid) -> zlen pad2 = 43 ->
  let x3 := get oid 0 in
  let n := x3 + 9 + (if null then 2 else 0) in
  (forall i, 0 <= i < n - 2 -> get pad2 i = if null && (i =? n - 4) then 0x05 else 0) ->
  ok (unpad_info oid x3 (x3 + (if null then 4 else 2)) n hash_len pad2) (fun p =>
    zlen p = 43 /\ slice p 0 n = 0 :: digest_info (Some oid) null hash_len).
Proof.
  intros [H1 H2] Hl x3 n Hg. fold x3 in H1, H2. assert (Hn : n <= 43) by (unfold n; destruct null; lia).
  assert (Hn' : x3 + 9 <= n) by (unfold n; destruct null; lia).
  assert (HP : pre pad2 pad2 1 [0]).
  { apply (pre_known pad2 pad2 0 []); [apply pre_nil|lia|].
    rewrite Hg by lia. destruct null; [|done]. by rewrite (proj2 (Z.eqb_neq _ _)) by (unfold n; lia). }
  set (y := pad2) in HP at 2 |- *. clearbody y. unfold unpad_info. do 6 pre_write.
  set (m := 1 + 1 + 1 + 1 + 1 + 1 + (x3 + 1)) in HP.
  assert (HP' : exists L, pre pad2 y (n - 2) L /\ L ++ [0x04; u8 hash_len] =
    0 :: digest_info (Some oid) null hash_len).
  { unfold digest_info. fold x3. destruct null.
    - assert (H5 : get pad2 m = 5) by (rewrite Hg, (proj2 (Z.eqb_eq _ _)) by (unfold n, m; lia); done).
      assert (H0 : get pad2 (m + 1) = 0)
        by (rewrite Hg, (proj2 (Z.eqb_neq _ _)) by (unfold n, m; lia); done).
      pose proof (pre_known _ _ _ _ _ HP ltac:(unfold m; lia) H5) as HP5.
      pose proof (pre_known _ _ _ _ _ HP5 ltac:(unfold m; lia) H0) as HP0.
      eexists. replace (n - 2) with (m + 1 + 1) by (unfold n, m; lia). split; [exact HP0|].
      by rewrite <- !app_assoc.
    - eexists. replace (n - 2) with m by (unfold n, m; lia). split; [exact HP|].
      by rewrite <- !app_assoc. }
  clear HP. destruct HP' as (L & HP & <-). pre_write.
  eapply (ok_pre_store pad2 _ _ (n - 1)); [exact HP|lia|lia|]. clear y HP. intros y HP.
  split; [by rewrite (pre_len _ _ _ _ HP)|]. destruct HP as (_ & _ & HS).
  replace (n - 2 + 1 + 1) with n in HS by lia. by rewrite <- app_assoc in HS.
Qed.

Section Unpad.
Context (sig : list Z) (sig_len : Z) (hash_oid : option (list Z)) (hash_len : Z) (pad2 : list Z).
Context (Hs : 0 <= sig_len <= zlen sig) (Hs64 : sig_len < 2 ^ 63) (Hoid : oid_ok hash_oid).
Context (Hh : 0 <= hash_len < 2 ^ 32) (Hp2 : zlen pad2 = 43).

(** The hash is at the end of the message. *)
Definition tail_hash : list Z := slice sig (sig_len - hash_len) hash_len.

(** What is accepted: the end of the message after the bytes [0xFF]. *)
Definition good_tail (u : Z) : Prop := hash_len <= sig_len - u /\
  exists null, slice sig u (sig_len - u) = 0 :: digest_info hash_oid null hash_len ++ tail_hash.

Lemma tail_split u n : 0 <= u -> 0 <= n -> u + n = sig_len - hash_len ->
  slice sig u (sig_len - u) = slice sig u n ++ tail_hash.
Proof.
  intros Hu Hn HE. unfold tail_hash. rewrite <- HE.
  replace (sig_len - u) with (n + hash_len) by lia. apply slice_split; lia.
Qed.

Lemma check_info oid (null : bool) u p : hash_oid = Some oid -> 0 <= u ->
  let n := get oid 0 + 9 + (if null then 2 else 0) in
  u + n = sig_len - hash_len -> zlen p = 43 ->
  slice p 0 n = 0 :: digest_info (Some oid) null hash_len ->
  ok (memcmp_eq p 0 sig u n) (fun good => good = true <-> good_tail u).
Proof.
  intros Eo Hu n Hn Hp HI. pose proof Hoid as Ho. rewrite Eo in Ho.
  assert (0 <= n <= 43) by (unfold n; destruct Ho, null; lia).
  assert (LI : forall b : bool, zlen (digest_info hash_oid b hash_len) = get oid 0 + (if b then 10 else 8))
    by (intros b; rewrite Eo; by apply zlen_info).
  rewrite <- Eo in HI. apply memcmp_eq_ok; [lia..|]. rewrite bool_decide_eq_true, HI. unfold good_tail.
  rewrite (tail_split u n) by lia. split.
  - intros <-. split; [lia|]. by exists null.
  - intros [_ [null' HE]]. rewrite app_comm_cons in HE. apply app_inv_tail in HE. rewrite HE.
    assert (null' = null) as ->; [|done].
    apply (f_equal (fun l => zlen l)) in HE. rewrite zlen_slice in HE by lia.
    cbn [length] in HE. rewrite Nat2Z.inj_succ, LI in HE. unfold n in HE. destruct null, null'; done || lia.
Qed.

(** The length checks of the code. *)
Lemma good_tail_len u : good_tail u -> 0 <= u <= sig_len ->
  exists null, sig_len - u = 1 + zlen (digest_info hash_oid null hash_len) + hash_len.
Proof.
  intros [Hl [null HE]] Hu. exists null. apply (f_equal (fun l => zlen l)) in HE.
  rewrite zlen_slice in HE by lia. cbn [length] in HE. rewrite Nat2Z.inj_succ, zlen_app in HE.
  unfold tail_hash in HE. rewrite zlen_slice in HE by lia. lia.
Qed.

Lemma unpad_tail_some oid u : hash_oid = Some oid -> 10 <= u <= sig_len ->
  ok (unpad_tail sig sig_len (Some oid) hash_len u pad2) (fun good => good = true <-> good_tail u).
Proof.
  intros Eo Hu. unfold unpad_tail.
  assert (HB : ~ good_tail u -> false = true <-> good_tail u) by done.
  pose proof Hoid as Ho. rewrite Eo in Ho. pose proof Ho as [Ho1 Ho2].
  assert (LI : forall b : bool, zlen (digest_info hash_oid b hash_len) = get oid 0 + (if b then 10 else 8))
    by (intros b; rewrite Eo; by apply zlen_info).
  cstep. cstep. cbv zeta. cstep. apply ok_memset; [lia..|].
  set (p0 := fillz pad2 0 0 (get oid 0 + 9)). assert (L0 : zlen p0 = 43) by (unfold p0; rewrite zlen_fillz; lia).
  assert (Hz : forall k, 0 <= k <= 43 -> (u64 (sig_len - u - hash_len) =? k) = (sig_len - u - hash_len =? k))
    by (intros k Hk; unfold u64; destruct (Z.eqb_spec ((sig_len - u - hash_len) mod 2 ^ 64) k),
      (Z.eqb_spec (sig_len - u - hash_len) k); done || zn).
  rewrite (Hz (get oid 0 + 9)), (Hz (get oid 0 + 9 + 2)) by lia. cstep.
  - apply Z.eqb_eq in H. cstep. pose proof (unpad_info_ok oid false hash_len p0 Ho L0) as HU.
    cbv zeta in HU. rewrite Z.add_0_r in HU. eapply ok_mono; [apply HU|].
    { intros i Hi. unfold p0. by rewrite get_fillz_in by lia. }
    intros p [Lp Sp]. cbv beta. pose proof (check_info oid false u p Eo) as HC. cbv zeta in HC.
    rewrite Z.add_0_r in HC. apply HC; done || lia.
  - apply Z.eqb_neq in H. cstep.
    + apply Z.eqb_eq in H0. cstep. unfold u64. rewrite Z.mod_small by lia. rewrite H0. cstep. cstep.
      eapply ok_mono; [apply (unpad_info_ok oid true hash_len _ Ho); [by rewrite zlen_upd|]|].
      { intros i Hi. cbn [andb]. destruct (Z.eqb_spec i (get oid 0 + 9 + 2 - 4)) as [->|].
        - by rewrite get_upd_eq by lia.
        - unfold p0. by rewrite get_upd_ne, get_fillz_in by lia. }
      intros p [Lp Sp]. cbv beta. apply (check_info oid true u p Eo); done || lia.
    + apply Z.eqb_neq in H0. cstep. apply HB. intros HG.
      destruct (good_tail_len u HG ltac:(lia)) as [null HL]. rewrite LI in HL. destruct null; lia.
Qed.

Lemma unpad_tail_none u : hash_oid = None -> 10 <= u <= sig_len ->
  ok (unpad_tail sig sig_len None hash_len u pad2) (fun good => good = true <-> good_tail u).
Proof.
  intros Eo Hu. unfold unpad_tail. rewrite (u64_small (hash_len + 1)) by (unfold word; lia). cstep.
  - apply negb_true_iff, Z.eqb_neq in H. cstep. split; [done|]. intros HG.
    destruct (good_tail_len u HG ltac:(lia)) as [null HL]. rewrite Eo in HL. simpl in HL. lia.
  - apply negb_false_iff, Z.eqb_eq in H. cstep. cstep.
    assert (HE : slice sig u (sig_len - u) = get sig u :: tail_hash).
    { rewrite (tail_split u 1) by lia. change (get sig u :: tail_hash) with ([get sig u] ++ tail_hash). f_equal.
      apply list_eq_get; rewrite zlen_slice by lia; [done|]. intros i Hi.
      rewrite get_slice by lia. replace i with 0 by lia. by rewrite Z.add_0_r. }
    unfold good_tail. rewrite HE, Eo. cbn [digest_info app]. cstep; cstep.
    + apply negb_true_iff, Z.eqb_neq in H0. split; [done|]. intros [_ [_ E]]. by injection E.
    + apply negb_false_iff, Z.eqb_eq in H0. split; [|done]. intros _. split; [lia|]. exists true. by rewrite H0.
Qed.

Lemma unpad_tail_ok u : 10 <= u <= sig_len ->
  ok (unpad_tail sig sig_len hash_oid hash_len u pad2) (fun good => good = true <-> good_tail u).
Proof.
  intros Hu. assert (HG : forall o, hash_oid = o ->
    ok (unpad_tail sig sig_len o hash_len u pad2) (fun good => good = true <-> good_tail u)); [|by apply HG].
  intros [oid|] Eo; [by apply unpad_tail_some|by apply unpad_tail_none].
Qed.

(** The message is an encoding of the hash at its end. *)
Definition encodes : Prop := hash_len <= sig_len /\
  exists k null, 8 <= k /\ slice sig 0 sig_len = emsa k hash_oid null tail_hash.

Lemma zlen_tail : hash_len <= sig_len -> zlen tail_hash = hash_len.
Proof. intros. unfold tail_hash. apply zlen_slice; lia. Qed.

Lemma replicate_8 k : 8 <= k ->
  replicate (Z.to_nat k) 0xFF = replicate 8 0xFF ++ replicate (Z.to_nat (k - 8)) 0xFF.
Proof. intros. rewrite <- replicate_add. f_equal. lia. Qed.

Lemma split_10 : 11 <= sig_len ->
  slice sig 0 sig_len = slice sig 0 10 ++ slice sig 10 (sig_len - 10).
Proof. intros. replace sig_len with (10 + (sig_len - 10)) at 1 by lia. apply slice_split; lia. Qed.

Lemma encodes_tail u : 10 <= u <= sig_len -> slice sig 0 10 = pad1 ->
  slice sig 10 (u - 10) = replicate (Z.to_nat (u - 10)) 0xFF -> (u < sig_len -> get sig u <> 0xFF) ->
  encodes <-> good_tail u.
Proof.
  intros Hu HP HR HG. unfold encodes, good_tail.
  assert (HS : slice sig 0 sig_len =
    pad1 ++ replicate (Z.to_nat (u - 10)) 0xFF ++ slice sig u (sig_len - u)).
  { replace sig_len with (10 + ((u - 10) + (sig_len - u))) at 1 by lia.
    rewrite slice_split, HP, slice_split by lia. do 2 f_equal; [|f_equal; lia].
    by rewrite Z.add_0_l. }
  assert (HE : forall k null, 8 <= k -> hash_len <= sig_len ->
    emsa k hash_oid null tail_hash = pad1 ++ replicate (Z.to_nat (k - 8)) 0xFF ++
      0 :: digest_info hash_oid null hash_len ++ tail_hash).
  { intros k null Hk Hl. unfold emsa. rewrite replicate_8, zlen_tail by lia. by rewrite <- !app_assoc. }
  rewrite HS. split.
  - intros (Hl & k & null & Hk & E). rewrite HE in E by done. apply app_inv_head in E.
    apply run_inj in E as [Ek ET].
    + assert (Hlen : zlen (slice sig u (sig_len - u)) = sig_len - u) by (apply zlen_slice; lia).
      rewrite ET in Hlen. cbn [length] in Hlen. rewrite Nat2Z.inj_succ, zlen_app, zlen_tail in Hlen by lia.
      split; [lia|]. by exists null.
    + intros x T ET. destruct (Z.eq_dec u sig_len) as [->|]; [by rewrite Z.sub_diag in ET|].
      assert (Ex : get (slice sig u (sig_len - u)) 0 = x) by by rewrite ET.
      rewrite get_slice, Z.add_0_r in Ex by lia. rewrite <- Ex. apply HG. lia.
  - intros (Hl & null & ->). split; [lia|]. exists (u - 2), null. split; [lia|]. rewrite HE by lia.
    do 3 f_equal. lia.
Qed.

Lemma br_rsa_pkcs1_sig_unpad_ok hash_out : hash_len <= zlen hash_out ->
  ok (br_rsa_pkcs1_sig_unpad sig sig_len hash_oid hash_len hash_out pad2) (fun '(r, out) =>
    (r = 1 /\ encodes /\ frame 0 hash_len hash_out out /\ slice out 0 hash_len = tail_hash) \/
    (r = 0 /\ ~ encodes /\ out = hash_out)).
Proof.
  intros Hout. unfold br_rsa_pkcs1_sig_unpad. cstep; [apply Z.ltb_lt in H|apply Z.ltb_ge in H].
  { cstep. right. split; [done|]. split; [|done]. intros (Hl & k & null & Hk & HE).
    apply (f_equal (fun l => zlen l)) in HE. unfold emsa in HE.
    rewrite zlen_slice, !zlen_app, length_replicate in HE by lia. cbn [length] in HE. lia. }
  pose proof (split_10 ltac:(lia)) as H10.
  cstep. apply memcmp_eq_ok; [lia..|done|]. change (slice pad1 0 10) with pad1.
  cstep; [apply negb_true_iff, bool_decide_eq_false in H0|apply negb_false_iff, bool_decide_eq_true in H0].
  { cstep. right. split; [done|]. split; [|done]. intros (Hl & k & null & Hk & HE). apply H0.
    rewrite H10 in HE. unfold emsa in HE. rewrite replicate_8 in HE by done.
    apply (f_equal (take 10)) in HE. rewrite take_app_length' in HE; [done|].
    pose proof (zlen_slice sig 0 10). lia. }
  cstep. eapply ok_mono; [apply skip_ff_ok; lia|]. intros u (Hu & HR & HG). cbv beta.
  pose proof (encodes_tail u Hu H0 HR HG) as HEnc.
  cstep. eapply ok_mono; [by apply unpad_tail_ok|]. intros good Hgood. cbv beta.
  cstep; [apply negb_true_iff in H1|apply negb_false_iff in H1].
  - cstep. right. split; [done|]. split; [|done]. rewrite HEnc, <- Hgood. by rewrite H1.
  - apply Hgood in H1. pose proof (proj2 HEnc H1) as HE. destruct HE as [Hl _]. cstep.
    apply ok_memcpy; [lia..|]. cstep. left. split; [done|]. split; [by apply HEnc|].
    split; [apply (frame_blit hash_out 0); lia|]. apply slice_blit_in; lia.
Qed.
End Unpad.

(** * Properties *)

(** [br_rsa_pkcs1_sig_pad] writes the encoded message of the exact length of
    the modulus, with the longest run of [0xFF] that fits, and refuses a hash
    that leaves fewer than eight of them without writing anything. *)
Theorem br_rsa_pkcs1_sig_pad_correct hash_oid hash hash_len n_bitlen x :
  oid_ok hash_oid -> 0 <= hash_len <= zlen hash -> hash_len < 2 ^ 32 ->
  0 <= n_bitlen < 2 ^ 32 - 8 ->
  let xlen := (n_bitlen + 7) / 8 in
  xlen <= zlen x ->
  ok (br_rsa_pkcs1_sig_pad hash_oid hash hash_len n_bitlen x) (fun '(r, x') =>
    if min_pad hash_oid + hash_len <=? xlen
    then r = 1 /\ frame 0 xlen x x' /\
         slice x' 0 xlen = emsa (xlen - min_pad hash_oid - hash_len + 8) hash_oid true (slice hash 0 hash_len)
    else r = 0 /\ x' = x).
Proof. apply br_rsa_pkcs1_sig_pad_ok. Qed.

(** [br_rsa_pkcs1_sig_unpad] returns 1 exactly on the encoded messages, with
    at least eight bytes of value [0xFF], the [DigestInfo] of the OID with or
    without [NULL], and nothing after the hash, which it then outputs. *)
Theorem br_rsa_pkcs1_sig_unpad_correct sig sig_len hash_oid hash_len hash_out pad2 :
  0 <= sig_len <= zlen sig -> sig_len < 2 ^ 63 -> oid_ok hash_oid -> 0 <= hash_len < 2 ^ 32 ->
  zlen pad2 = 43 -> hash_len <= zlen hash_out ->
  ok (br_rsa_pkcs1_sig_unpad sig sig_len hash_oid hash_len hash_out pad2) (fun '(r, out) =>
    (r = 1 /\ encodes sig sig_len hash_oid hash_len /\ frame 0 hash_len hash_out out /\
       slice out 0 hash_len = slice sig (sig_len - hash_len) hash_len) \/
    (r = 0 /\ ~ encodes sig sig_len hash_oid hash_len /\ out = hash_out)).
Proof. intros ??????. by apply br_rsa_pkcs1_sig_unpad_ok. Qed.

(** The OID of SHA-1, and a hash of two bytes. *)
Definition toy_oid : list Z := [5; 0x2B; 0x0E; 0x03; 0x02; 0x1A].

Lemma br_rsa_pkcs1_sig_pad_correct_witness :
  ok (br_rsa_pkcs1_sig_pad (Some toy_oid) [7; 9] 2 232 (replicate 29 0)) (fun '(r, x') =>
    r = 1 /\ frame 0 29 (replicate 29 0) x' /\ slice x' 0 29 = emsa 9 (Some toy_oid) true [7; 9]).
Proof.
  apply (br_rsa_pkcs1_sig_pad_correct (Some toy_oid) [7; 9] 2 232 (replicate 29 0)); done.
Defined.

Lemma br_rsa_pkcs1_sig_unpad_correct_witness :
  ok (br_rsa_pkcs1_sig_unpad (emsa 8 (Some toy_oid) false [7; 9]) 26 (Some toy_oid) 2 [0; 0] (replicate 43 0))
    (fun '(r, out) =>
      (r = 1 /\ encodes (emsa 8 (Some toy_oid) false [7; 9]) 26 (Some toy_oid) 2 /\
         frame 0 2 [0; 0] out /\ slice out 0 2 = [7; 9]) \/
      (r = 0 /\ ~ encodes (emsa 8 (Some toy_oid) false [7; 9]) 26 (Some toy_oid) 2 /\ out = [0; 0])).
Proof.
  apply (br_rsa_pkcs1_sig_unpad_correct (emsa 8 (Some toy_oid) false [7; 9]) 26 (Some toy_oid) 2 [0; 0]
    (replicate 43 0)); done.
Defined.
