(* ===== verification/Fermat.v ===== *)
(** Fermat's little theorem, the inversion of the RSA exponentiation modulo a
    prime that follows from it, and certificates of primality (Pocklington) for
    concrete keys. *)
From stdpp Require Import base tactics list numbers.
From Stdlib Require Import ZArith Znumtheory Lia.
From S2P Require Import Prelude Limbs.
Local Open Scope Z_scope.

(** The multiples of [a] by the integers from [k] to [k+n-1], modulo [p]. *)
Definition multiples (a p : Z) (k n : nat) : list Z :=
  (fun i => (a * Z.of_nat i) mod p) <$> seq k n.
Definition prodz (l : list Z) : Z := foldr Z.mul 1 l.

#[export] Instance prodz_perm : Proper ((≡ₚ) ==> eq) prodz.
Proof. induction 1; simpl; lia || nia || congruence. Qed.

Lemma prodz_multiples a p k n :
  eqm p (prodz (multiples a p k n)) (a ^ Z.of_nat n * prodz (multiples 1 p k n)).
Proof.
  unfold multiples. revert k. induction n as [|n IH]; intros k; [done|]. cbn [seq fmap list_fmap prodz foldr].
  fold (prodz ((fun i => (a * Z.of_nat i) mod p) <$> seq (S k) n)).
  fold (prodz ((fun i => (1 * Z.of_nat i) mod p) <$> seq (S k) n)).
  rewrite (IH (S k)), !eqm_mod, Nat2Z.inj_succ, Z.pow_succ_r, Z.mul_1_l by lia.
  set (P := prodz _). by replace (a * Z.of_nat k * (a ^ Z.of_nat n * P))
    with (a * a ^ Z.of_nat n * (Z.of_nat k * P)) by ring.
Qed.

Section Prime.
Context (p : Z) (Hp : prime p).

Lemma prime_cancel a b c : ~ (p | a) -> eqm p (a * b) (a * c) -> eqm p b c.
Proof.
  intros Ha [HE]. pose proof (prime_ge_2 p Hp). constructor.
  apply Z.cong_iff_0 in HE. apply Z.cong_iff_0.
  rewrite <- Z.mul_sub_distr_l in HE. apply Zmod_divide in HE; [|lia].
  apply prime_mult in HE as [HE|HE]; [done| |done]. by apply Zdivide_mod.
Qed.

Lemma small_not_div i : 0 < i < p -> ~ (p | i).
Proof. intros Hi [k Hk]. destruct (Z.le_gt_cases k 0); nia. Qed.

Lemma elem_multiples a x n : x ∈ multiples a p 1 n <->
  exists i, x = (a * i) mod p /\ 1 <= i <= Z.of_nat n.
Proof.
  unfold multiples. rewrite list_elem_of_fmap. split.
  - intros (i & -> & Hi). apply elem_of_seq in Hi. exists (Z.of_nat i). split; [done|lia].
  - intros (i & -> & Hi). exists (Z.to_nat i). rewrite Z2Nat.id by lia. split; [done|].
    apply elem_of_seq. lia.
Qed.

Lemma multiples_nodup a n : ~ (p | a) -> Z.of_nat n < p -> NoDup (multiples a p 1 n).
Proof.
  intros Ha Hn. unfold multiples. apply NoDup_fmap_2_strong; [|apply NoDup_seq].
  intros i j Hi Hj HE. apply elem_of_seq in Hi, Hj.
  assert (E : eqm p (Z.of_nat i) (Z.of_nat j)) by (apply (prime_cancel a); done).
  destruct E as [E]. rewrite !Z.mod_small in E by lia. lia.
Qed.

(** Multiplication by [a] permutes the residues that are not zero. *)
Lemma multiples_perm a : ~ (p | a) ->
  multiples a p 1 (Z.to_nat (p - 1)) ≡ₚ multiples 1 p 1 (Z.to_nat (p - 1)).
Proof.
  intros Ha. pose proof (prime_ge_2 p Hp).
  apply submseteq_length_Permutation; [apply NoDup_submseteq|].
  - apply multiples_nodup; [done|lia].
  - intros x Hx. apply elem_multiples in Hx as (i & -> & Hi). apply elem_multiples.
    exists ((a * i) mod p). rewrite Z.mul_1_l, Z.mod_mod by lia. split; [done|].
    pose proof (Z.mod_pos_bound (a * i) p ltac:(lia)).
    assert ((a * i) mod p <> 0); [|lia]. intros E. apply Zmod_divide in E; [|lia].
    apply prime_mult in E as [E|E]; [by destruct Ha| |done]. by apply (small_not_div i) in E; [|lia].
  - unfold multiples. by rewrite !length_fmap.
Qed.

Lemma prodz_not_div l : (forall x, x ∈ l -> ~ (p | x)) -> ~ (p | prodz l).
Proof.
  pose proof (prime_ge_2 p Hp). induction l as [|x l IH]; simpl; intros Hl HD.
  - apply (small_not_div 1) in HD; [done|lia].
  - apply prime_mult in HD as [HD|HD]; [| |done].
    + refine (Hl x _ HD). constructor.
    + apply IH; [|done]. intros y Hy. apply Hl. by constructor.
Qed.

Lemma fermat a : ~ (p | a) -> eqm p (a ^ (p - 1)) 1.
Proof.
  intros Ha. pose proof (prime_ge_2 p Hp). set (n := Z.to_nat (p - 1)).
  apply (prime_cancel (prodz (multiples 1 p 1 n))).
  - apply prodz_not_div. intros x Hx. apply elem_multiples in Hx as (i & -> & Hi).
    rewrite Z.mul_1_l, Z.mod_small by lia. apply small_not_div. lia.
  - rewrite Z.mul_1_r, Z.mul_comm. replace (p - 1) with (Z.of_nat n) by lia.
    rewrite <- prodz_multiples. unfold n. by rewrite multiples_perm.
Qed.

(** Exponents whose product is 1 modulo [p - 1] invert each other. *)
Lemma rsa_invert x e d : 2 < p -> 0 <= e -> 0 <= d -> (e * d) mod (p - 1) = 1 ->
  eqm p ((x ^ d) ^ e) x.
Proof.
  intros H2 He Hd HE. rewrite <- Z.pow_mul_r, (Z.mul_comm d) by lia.
  pose proof (Z.div_mod (e * d) (p - 1) ltac:(lia)) as ED. rewrite HE in ED.
  assert (Hk : 0 <= (e * d) / (p - 1)) by (apply Z.div_pos; nia).
  set (k := (e * d) / (p - 1)) in *. rewrite ED.
  destruct (Zdivide_dec p x) as [HD|HD].
  - assert (Hx : eqm p x 0).
    { constructor. rewrite Z.mod_0_l by lia. by apply Zdivide_mod. }
    transitivity (0 ^ ((p - 1) * k + 1)); [apply eqm_pow; [nia|done]|].
    rewrite Z.pow_0_l by nia. by symmetry.
  - rewrite Z.pow_add_r, Z.pow_1_r, Z.pow_mul_r by nia.
    assert (E1 : eqm p ((x ^ (p - 1)) ^ k) 1).
    { transitivity (1 ^ k); [apply eqm_pow; [done|by apply fermat]|]. by rewrite Z.pow_1_l. }
    by rewrite E1, Z.mul_1_l.
Qed.
End Prime.

(** * Certificates of primality *)

(** Trial division by [2, ..., n+1]. *)
Fixpoint no_divisor (p : Z) (n : nat) : bool :=
  match n with
  | O => true
  | S n' => negb (p mod (Z.of_nat n' + 2) =? 0) && no_divisor p n'
  end.

Lemma no_divisor_spec p n d : no_divisor p n = true -> 2 <= d < Z.of_nat n + 2 -> ~ (d | p).
Proof.
  induction n as [|n IH]; [lia|]. cbn [no_divisor]. rewrite andb_true_iff. intros [H1 H2] Hd HD.
  destruct (Z.eq_dec d (Z.of_nat n + 2)) as [->|]; [|by apply IH in HD; [|done|lia]].
  apply negb_true_iff, Z.eqb_neq in H1. apply H1. apply Zdivide_mod, HD.
Qed.

(** A number that is not prime has a divisor up to its square root. *)
Lemma small_divisor p : 1 < p -> ~ prime p -> exists d, 1 < d /\ d * d <= p /\ (d | p).
Proof.
  intros Hp Hn. destruct (not_prime_divide p Hp Hn) as (d & Hd & [k Hk]).
  destruct (Z.le_gt_cases (d * d) p).
  - exists d. split; [lia|]. split; [done|]. by exists k.
  - exists k. assert (1 < k) by nia. split; [done|]. split; [nia|]. exists d. lia.
Qed.

Lemma prime_trial p n : 1 < p -> p < (Z.of_nat n + 2) * (Z.of_nat n + 2) ->
  no_divisor p n = true -> prime p.
Proof.
  intros Hp Hn HD. destruct (prime_dec p) as [|HN]; [done|].
  destruct (small_divisor p Hp HN) as (d & H1 & H2 & H3).
  destruct (no_divisor_spec p n d HD); [nia|done].
Qed.

Lemma prime_divisor n : 1 < n -> exists r, prime r /\ (r | n).
Proof.
  intros Hn. assert (H0 : 0 <= n) by lia. revert Hn. pattern n. apply Z_lt_induction; [|done].
  intros m IH Hm. destruct (prime_dec m) as [Hp|Hp]; [by exists m|].
  destruct (not_prime_divide m Hm Hp) as (d & Hd & HD).
  destruct (IH d ltac:(lia) ltac:(lia)) as (r & Hr & HR). exists r. split; [done|].
  by apply (Z.divide_trans r d m).
Qed.

(** A number whose powers with coprime exponents are one is one. *)
Lemma eqm_coprime_powers r b f g : 0 < f -> 0 < g -> rel_prime f g ->
  eqm r (b ^ f) 1 -> eqm r (b ^ g) 1 -> eqm r b 1.
Proof.
  intros Hf Hg HR Ef Eg. apply rel_prime_bezout in HR as [u v HB].
  pose proof (Z.mod_pos_bound u g Hg). set (u' := u mod g + g). assert (Hu' : 1 <= u') by lia.
  assert (Hw : exists w, 0 <= w /\ u' * f = 1 + g * w).
  { pose proof (Z.div_mod u g ltac:(lia)) as ED.
    assert (EW : u' * f = 1 + g * (f - v - f * (u / g))).
    { unfold u'. replace (u mod g) with (u - g * (u / g)) by lia. nia. }
    exists (f - v - f * (u / g)). split; [nia|done]. }
  destruct Hw as (w & Hw & Ew). transitivity (b ^ (1 + g * w)).
  - rewrite Z.pow_add_r, Z.pow_1_r, Z.pow_mul_r by nia.
    assert (E : eqm r ((b ^ g) ^ w) 1).
    { transitivity (1 ^ w); [by apply eqm_pow|]. by rewrite Z.pow_1_l. }
    by rewrite E, Z.mul_1_r.
  - rewrite <- Ew, Z.mul_comm, Z.pow_mul_r by lia.
    transitivity (1 ^ u'); [apply eqm_pow; [lia|done]|]. rewrite Z.pow_1_l by lia. done.
Qed.

Lemma eqm_divide n r a b : 0 < r -> (r | n) -> 0 < n -> eqm n a b -> eqm r a b.
Proof.
  intros Hr HD Hn [E]. constructor. apply Z.cong_iff_0 in E. apply Z.cong_iff_0. apply Zdivide_mod.
  apply Zmod_divide in E; [|lia]. by apply (Z.divide_trans r n).
Qed.

(** Pocklington's criterion, with one large prime factor [f] of [n - 1]. *)
Lemma pocklington n f a : 1 < n -> prime f -> (f | n - 1) -> n < (f + 1) * (f + 1) ->
  eqm n (a ^ (n - 1)) 1 -> rel_prime (a ^ ((n - 1) / f) - 1) n -> prime n.
Proof.
  intros Hn Hf Hfn Hlt Ha Hg. destruct (prime_dec n) as [|HN]; [done|exfalso].
  destruct (small_divisor n Hn HN) as (d & Hd1 & Hd2 & Hd).
  destruct (prime_divisor d Hd1) as (r & Hr & Hrd). pose proof (prime_ge_2 f Hf). pose proof (prime_ge_2 r Hr).
  assert (Hrn : (r | n)) by (by apply (Z.divide_trans r d n)).
  assert (Hrd' : r <= d) by (apply Z.divide_pos_le; [lia|done]).
  destruct Hfn as [k Hk]. assert (Hk0 : 0 < k) by nia.
  assert (EK : (n - 1) / f = k) by (symmetry; apply Z.div_unique_exact; lia). rewrite EK in Hg.
  set (b := a ^ k) in *.
  assert (Hb : eqm r (b ^ f) 1).
  { unfold b. rewrite <- Z.pow_mul_r, <- Hk by lia. apply (eqm_divide n); done || lia. }
  assert (Hb1 : ~ eqm r b 1).
  { intros [E]. apply Z.cong_iff_0 in E. apply Zmod_divide in E; [|lia].
    destruct Hg as [_ _ Hg]. specialize (Hg r E Hrn). apply Z.divide_1_r_nonneg in Hg; lia. }
  assert (Hrb : ~ (r | b)).
  { intros HD. destruct Hb as [Hb]. rewrite (Z.mod_small 1) in Hb by lia.
    assert (HB : (r | b ^ f)).
    { replace f with (1 + (f - 1)) by lia. rewrite Z.pow_add_r, Z.pow_1_r by lia. by apply Z.divide_mul_l. }
    apply Zdivide_mod in HB. lia. }
  pose proof (fermat r Hr b Hrb) as HF. apply Hb1.
  apply (eqm_coprime_powers r b f (r - 1)); [lia..| |done|done].
  apply prime_rel_prime; [done|]. intros HD. apply Z.divide_pos_le in HD; nia.
Qed.

(** The certificate as a computation. *)
Fixpoint pow_mod (n a : Z) (e : positive) : Z :=
  match e with
  | xH => a mod n
  | xO e' => let x := pow_mod n a e' in (x * x) mod n
  | xI e' => let x := pow_mod n a e' in (x * x mod n * a) mod n
  end.

Lemma pow_mod_eqm n a e : eqm n (pow_mod n a e) (a ^ Z.pos e).
Proof.
  induction e as [e IH|e IH|]; cbn [pow_mod].
  - rewrite !eqm_mod, IH, Pos2Z.inj_xI, (Z.mul_comm 2), Z.pow_add_r, Z.pow_1_r, Z.pow_mul_r by lia.
    by rewrite Z.pow_2_r.
  - rewrite eqm_mod, IH, Pos2Z.inj_xO. by rewrite (Z.mul_comm 2), Z.pow_mul_r, Z.pow_2_r by lia.
  - by rewrite eqm_mod, Z.pow_1_r.
Qed.

Definition certifies (n f a : Z) : bool :=
  (1 <? f) && (f <? n) && ((n - 1) mod f =? 0) && (n <? (f + 1) * (f + 1)) &&
  (pow_mod n a (Z.to_pos (n - 1)) =? 1) &&
  (Z.gcd (pow_mod n a (Z.to_pos ((n - 1) / f)) - 1) n =? 1).

Lemma certifies_prime n f a : prime f -> certifies n f a = true -> prime n.
Proof.
  intros Hf. unfold certifies. rewrite !andb_true_iff, !Z.ltb_lt, !Z.eqb_eq.
  intros (((((H1 & H2) & H3) & H4) & H5) & H6).
  apply (pocklington n f a); [lia|done|by apply Zmod_divide; [lia|]|done| |].
  - pose proof (pow_mod_eqm n a (Z.to_pos (n - 1))) as E. rewrite H5, Z2Pos.id in E by lia. by symmetry.
  - apply Zmod_divide in H3; [|lia]. destruct H3 as [k' Hk].
    assert (0 < (n - 1) / f) by (rewrite Hk, Z.div_mul; nia).
    pose proof (pow_mod_eqm n a (Z.to_pos ((n - 1) / f))) as E. rewrite Z2Pos.id in E by lia.
    apply Zgcd_1_rel_prime. destruct E as [E].
    assert (EM : (a ^ ((n - 1) / f) - 1) mod n = (pow_mod n a (Z.to_pos ((n - 1) / f)) - 1) mod n).
    { rewrite Zminus_mod, <- E, <- Zminus_mod. done. }
    rewrite <- Z.gcd_mod_l, EM, Z.gcd_mod_l. done.
Qed.

(** A chain of certificates, from a prime found by trial division. *)
Fixpoint chain (f : Z) (l : list (Z * Z)) : bool :=
  match l with
  | [] => true
  | (n, a) :: l => certifies n f a && chain n l
  end.

Lemma chain_prime l : forall f, prime f -> chain f l = true -> prime (foldl (fun _ c => c.1) f l).
Proof.
  induction l as [|[n a] l IH]; intros f Hf; [done|]. cbn [chain]. rewrite andb_true_iff.
  intros [H1 H2]. exact (IH n (certifies_prime n f a Hf H1) H2).
Qed.
