(* ===== verification/RsaKeys.v ===== *)
(** Pairs of RSA keys: the public operation undoes the private one, and the
    other way round. *)
From stdpp Require Import base tactics list numbers option.
From Stdlib Require Import ZArith Znumtheory Lia.
From S2P Require Import Prelude CtPrims Limbs Codec Hash I31 RsaPub RsaPriv Fermat.
Local Open Scope Z_scope.
Local Open Scope cword_scope.

(** * Big-endian numbers and byte strings *)

Lemma vbe_inj a b n : 0 <= n <= zlen a -> n <= zlen b -> bytes a 0 n -> bytes b 0 n ->
  vbe a 0 n = vbe b 0 n -> slice a 0 n = slice b 0 n.
Proof.
  intros Ha Hb Ba Bb HE. apply list_eq_get; rewrite !zlen_slice by lia; [done|].
  intros i Hi. rewrite !get_slice by lia.
  pose proof (vbe_bits a 0 n (n - 1 - i) ltac:(lia) Ba) as E1.
  pose proof (vbe_bits b 0 n (n - 1 - i) ltac:(lia) Bb) as E2.
  replace (0 + (n - 1 - (n - 1 - i))) with (0 + i) in E1, E2 by lia. by rewrite E1, E2, HE.
Qed.

Lemma bytes_of_slice a n L : 0 <= n <= zlen a -> slice a 0 n = L -> byte_string L -> bytes a 0 n.
Proof.
  intros Hn HS HB i Hi. apply bytes_get in HB. rewrite <- HS, zlen_slice in HB by lia.
  specialize (HB i ltac:(lia)). by rewrite get_slice in HB by lia.
Qed.

(** A first byte that is zero makes the number lower than the modulus. *)
Lemma below_modulus x N : 1 < N -> bytes x 0 (byte_len N) -> get x 0 = 0 ->
  vbe x 0 (byte_len N) < N.
Proof.
  intros HN HB H0. pose proof (bitlen_bounds N ltac:(lia)) as [HL _].
  assert (Hb : 1 <= bitlen N).
  { destruct (Z.le_gt_cases 1 (bitlen N)); [done|]. pose proof (bitlen_nonneg N).
    pose proof (byte_len_bound N ltac:(lia)) as [Hlt _]. unfold byte_len in Hlt.
    replace (bitlen N) with 0 in Hlt by lia. change (2 ^ (8 * ((0 + 7) / 8))) with 1 in Hlt. lia. }
  set (n := byte_len N) in *. assert (Hn : 1 <= n /\ 8 * (n - 1) <= bitlen N - 1) by (unfold n, byte_len; zn).
  replace n with (n - 1 + 1) by lia. rewrite vbe_cons, H0 by lia.
  assert (vbe x (0 + 1) (n - 1) < 2 ^ (8 * (n - 1))).
  { apply vbe_bound; [lia|]. apply (limbs_sub 8 x 0 n); [done|lia..]. }
  pose proof (Z.pow_le_mono_r 2 (8 * (n - 1)) (bitlen N - 1) ltac:(lia) ltac:(lia)). lia.
Qed.

(** A slice of bytes as an array of its own. *)
Lemma slice_vbe x n em : 0 <= n <= zlen x -> slice x 0 n = em -> vbe em 0 n = vbe x 0 n.
Proof. intros Hn <-. apply vbe_ext; [lia|]. intros i Hi. by rewrite get_slice by lia. Qed.

(** [em] is the block that the private operation recovers from the value [C]. *)
Record recovered (p q dp dq C xlen : Z) (em : list Z) : Prop := Recovered {
  rec_len : zlen em = xlen;
  rec_bytes : byte_string em;
  rec_range : 0 <= vbe em 0 xlen < p * q;
  rec_p : vbe em 0 xlen mod p = C ^ dp mod p;
  rec_q : vbe em 0 xlen mod q = C ^ dq mod q
}.

(** A block is determined by its value and its length. *)
Lemma recovered_eq em em' n : zlen em = n -> zlen em' = n -> byte_string em -> byte_string em' ->
  vbe em 0 n = vbe em' 0 n -> em = em'.
Proof.
  intros L1 L2 B1 B2 HV. rewrite <- (slice_all em n L1), <- (slice_all em' n L2).
  apply bytes_get in B1, B2. rewrite L1 in B1. rewrite L2 in B2.
  apply vbe_inj; done || lia.
Qed.

(** * A key pair *)

(** The two keys of a pair: the factors are prime and the exponents inverse of
    each other modulo each factor less one. *)
Record key_pair (sk : br_rsa_private_key) (pk : br_rsa_public_key) (p q dp dq E : Z) : Prop := KeyPair {
  pair_sk : private_key sk p q dp dq;
  pair_pk : public_key pk (p * q) E;
  pair_p : prime p;
  pair_q : prime q;
  pair_dp : (E * dp) mod (p - 1) = 1;
  pair_dq : (E * dq) mod (q - 1) = 1;
  pair_size : byte_len (p * q) <= 512 /\ 6 * priv_fwlen p q <= priv_TLEN
}.

Section Pair.
Context (sk : br_rsa_private_key) (pk : br_rsa_public_key) (p q dp dq E : Z).
Context (HK : key_pair sk pk p q dp dq E).

Lemma pair_odd : 2 < p /\ 2 < q.
Proof.
  destruct HK as [[(H1 & Ho1 & _) (H2 & Ho2 & _) _ _ _ _ _ _ _ _ _] _ _ _ _ _ _].
  assert (p <> 2 /\ q <> 2); [|lia]. split; intros ->; done.
Qed.

Lemma pair_exps : 0 <= dp /\ 0 <= dq /\ 0 <= E.
Proof.
  destruct HK as [[_ _ <- <- _ _ _ _ (L1 & _ & B1) (L2 & _ & B2) _] [_ _ _ _ _ [L3 _] _ B3 <-] _ _ _ _ _].
  split; [|split]; apply vbe_bound; done || lia.
Qed.

(** The factors are coprime: one of them is invertible modulo the other. *)
Lemma pair_coprime : rel_prime q p.
Proof.
  destruct HK as [HS _ _ _ _ _ _]. destruct (priv_iq _ _ _ _ _ HS) as [HI].
  pose proof (priv_p _ _ _ _ _ HS) as (Hp & _).
  apply bezout_rel_prime. set (i := vbe _ _ _) in HI.
  apply (Bezout_intro q p 1 i (- ((q * i) / p))). pose proof (Z.div_mod (q * i) p ltac:(lia)).
  rewrite HI, (Z.mod_small 1) in H by lia. lia.
Qed.

Lemma eqm_pq a b : eqm p a b -> eqm q a b -> eqm (p * q) a b.
Proof.
  pose proof pair_odd. intros [H1] [H2]. constructor. apply Z.cong_iff_0. apply Z.cong_iff_0 in H1, H2.
  apply Zdivide_mod. apply Zmod_divide in H1, H2; [|lia..].
  destruct H1 as [k Hk]. rewrite Hk in H2. rewrite Z.mul_comm in H2.
  apply Gauss in H2; [|apply pair_coprime]. destruct H2 as [j Hj]. exists j. rewrite Hk, Hj. ring.
Qed.

(** The public operation undoes the private one. *)
Lemma pair_inverse V S : 0 <= V < p * q -> S mod p = V ^ dp mod p -> S mod q = V ^ dq mod q ->
  S ^ E mod (p * q) = V.
Proof.
  intros HV Hp Hq. pose proof pair_odd. pose proof pair_exps as (? & ? & ?).
  assert (EV : eqm (p * q) (S ^ E) V).
  { apply eqm_pq.
    - transitivity ((V ^ dp) ^ E); [by apply eqm_pow; [|constructor]|].
      apply rsa_invert; try lia; apply HK.
    - transitivity ((V ^ dq) ^ E); [by apply eqm_pow; [|constructor]|].
      apply rsa_invert; try lia; apply HK. }
  destruct EV as [EV]. by rewrite EV, Z.mod_small.
Qed.

(** The private operation undoes the public one. *)
Lemma pair_inverse_pub V S : 0 <= V < p * q -> 0 <= S < p * q ->
  S mod p = (V ^ E mod (p * q)) ^ dp mod p -> S mod q = (V ^ E mod (p * q)) ^ dq mod q -> S = V.
Proof.
  intros HV HS Hp Hq. pose proof pair_odd. pose proof pair_exps as (? & ? & ?).
  assert (EM : forall r d, (r | p * q) -> 2 < r -> 0 <= d -> (E * d) mod (r - 1) = 1 -> prime r ->
    S mod r = (V ^ E mod (p * q)) ^ d mod r -> eqm r S V).
  { intros r d Hr Hr2 Hd HE Hpr HSr. transitivity ((V ^ E) ^ d).
    - constructor. rewrite HSr. apply eqm_pow; [done|]. constructor. symmetry. by apply Zmod_div_mod; [lia|lia|].
    - rewrite <- Z.pow_mul_r, (Z.mul_comm E), Z.pow_mul_r by lia. apply rsa_invert; try lia; done. }
  assert (EV : eqm (p * q) S V).
  { apply eqm_pq; [apply (EM p dp)|apply (EM q dq)]; try done; try lia; try apply HK;
      [exists q; lia|exists p; lia]. }
  destruct EV as [EV]. by rewrite !Z.mod_small in EV.
Qed.
End Pair.

(** * A pair of 512 bits, with the certificates of its factors *)

Definition test_p : Z := 81716824097651114640633867220550617113870702349913672489126734833389847543173.
Definition test_q : Z := 88068103296579819645284157652345100143233639159671975800797871133302272939803.
Definition test_E : Z := 65537.
Definition test_dp : Z := 30403940351208092823858525997618234702604989640970672901946477595516701138177.
Definition test_dq : Z := 35695149730183709190803409977863541131036134656733855580764970183467480600271.
Definition test_sk : br_rsa_private_key := RsaPrivateKey 512
  [180; 170; 21; 89; 147; 149; 63; 41; 190; 52; 85; 179; 74; 30; 230; 47; 33; 184; 218; 98; 58; 19; 155; 47; 82;
   52; 204; 25; 13; 205; 125; 133] 32
  [194; 180; 199; 176; 69; 62; 219; 161; 204; 124; 92; 169; 255; 180; 124; 46; 68; 112; 207; 208; 129; 151; 48;
   92; 246; 89; 32; 247; 87; 81; 215; 27] 32
  [67; 56; 5; 57; 142; 239; 184; 208; 143; 52; 105; 174; 139; 165; 115; 127; 149; 204; 113; 116; 154; 167; 48;
   214; 42; 127; 250; 112; 87; 242; 93; 1] 32
  [78; 234; 189; 33; 73; 255; 191; 63; 166; 69; 37; 189; 213; 161; 142; 207; 165; 247; 223; 147; 80; 99; 58; 60;
   3; 177; 126; 118; 34; 19; 78; 207] 32
  [162; 91; 18; 245; 215; 226; 114; 230; 147; 211; 153; 55; 15; 250; 165; 69; 150; 43; 234; 201; 117; 179; 17; 12;
   202; 66; 238; 198; 59; 139; 158; 86] 32.
Definition test_pk : br_rsa_public_key := RsaPublicKey
  [137; 104; 120; 177; 129; 56; 98; 14; 134; 53; 152; 216; 110; 129; 235; 18; 53; 180; 56; 129; 187; 142; 159;
   196; 219; 34; 239; 50; 30; 33; 25; 242; 73; 87; 230; 105; 165; 164; 106; 94; 229; 56; 36; 168; 174; 213; 202; 9;
   67; 25; 201; 154; 68; 145; 108; 217; 140; 202; 128; 59; 243; 43; 240; 7] 64
  [1; 0; 1] 3.

Lemma test_p_prime : prime test_p.
Proof.
  apply (chain_prime [(938803933231, 2); (300304019061421310893591, 2);
    (1346581130280616559470755724566477311925366323, 2); (test_p, 2)] 1446829); [|by vm_compute].
  by apply (prime_trial 1446829 1500).
Qed.

Lemma test_q_prime : prime test_q.
Proof.
  apply (chain_prime [(654136160609, 2); (263641332111481241739793, 2);
    (906660688090065654113407624589786167796864383, 2); (test_q, 2)] 2052179); [|by vm_compute].
  by apply (prime_trial 2052179 1500).
Qed.

Lemma test_pair : key_pair test_sk test_pk test_p test_q test_dp test_dq test_E.
Proof.
  constructor; [| |apply test_p_prime|apply test_q_prime|by vm_compute|by vm_compute|by vm_compute].
  - constructor; try done; try (by vm_compute);
      (split; [done|]); first [apply limbsb_limbs; done|split; [done|apply limbsb_limbs; done]].
  - by constructor; try done; apply limbsb_limbs.
Qed.
