(* ===== verification/RsaSsl.v ===== *)
(** The decryption of the TLS premaster secret, [src/rsa/rsa_ssl_decrypt.c]: the
    padding check, and the absence of an oracle on the padding. *)
From stdpp Require Import base tactics list numbers option.
From Stdlib Require Import ZArith Lia.
From S2P Require Import Prelude CtPrims Limbs Codec Hash I31Ct RsaPub RsaPriv RsaCt RsaKeys.
Local Open Scope Z_scope.
Local Open Scope cword_scope.

(** * Code *)

(** [core] is the private-key operation the caller chooses. *)
Definition br_rsa_ssl_decrypt (core : list Z -> br_rsa_private_key -> M (Z * list Z))
    (sk : br_rsa_private_key) (data : list Z) (len : Z) : M (Z * list Z) :=
  If (len <? 59) || negb (len =? u32 (sk_n_bitlen sk + 7) >> 3) Then mret (0, data) Else
  '(x, data) ← core data sk;
  d0 ← load data 0;
  let x := x .& EQ d0 0x00 in
  d1 ← load data 1;
  let x := x .& EQ d1 0x02 in
  x ← for_up 2 (len - 49) (fun u x => w ← load data u; mret (x .& NEQ w 0)) x;
  d ← load data (len - 49);
  let x := x .& EQ d 0x00 in
  data ← memcpy data 0 data (len - 48) 48;
  mret (x, data).

(** * The padding *)

(** [em] is an EME-PKCS1-v1_5 block of [k] bytes for a secret of 48 bytes. *)
Definition pms_encodes (k : Z) (pad pms em : list Z) : Prop :=
  zlen pad = k - 51 /\ Forall (fun b => b <> 0) pad /\ zlen pms = 48 /\
  em = [0; 2] ++ pad ++ [0] ++ pms.

(** The test of the code, on the bytes it reads. *)
Definition pms_form (d : list Z) (k : Z) : Prop :=
  get d 0 = 0 /\ get d 1 = 2 /\ (forall u, 2 <= u < k - 49 -> get d u <> 0) /\ get d (k - 49) = 0.

Lemma pms_form_encodes d k : 59 <= k <= zlen d ->
  pms_form d k <-> exists pad pms, pms_encodes k pad pms (slice d 0 k).
Proof.
  intros Hk. split.
  - intros (H0 & H1 & HP & HZ). exists (slice d 2 (k - 51)), (slice d (k - 48) 48).
    split; [apply zlen_slice; lia|]. split; [|split; [apply zlen_slice; lia|]].
    + apply Forall_lookup. intros i b Hb. pose proof (lookup_lt_Some _ _ _ Hb) as Hi.
      pose proof (zlen_slice d 2 (k - 51) ltac:(lia) ltac:(lia) ltac:(lia)).
      assert (Eb : b = get d (2 + Z.of_nat i)).
      { rewrite <- (get_slice d 2 (k - 51)) by lia. rewrite get_lookup, Nat2Z.id, Hb. done. }
      rewrite Eb. apply HP. lia.
    + assert (E1 : forall o, 0 <= o < k -> slice d o 1 = [get d o]).
      { intros o Ho. apply list_eq_get; rewrite zlen_slice by lia; [done|]. intros i Hi.
        rewrite get_slice by lia. replace i with 0 by lia. by rewrite Z.add_0_r. }
      replace k with (1 + (1 + ((k - 51) + (1 + 48)))) at 1 by lia. rewrite !slice_split by lia.
      rewrite !E1 by lia. rewrite !Z.add_0_l. replace (1 + 1 + (k - 51)) with (k - 49) by lia.
      replace (k - 49 + 1) with (k - 48) by lia. change (1 + 1) with 2. by rewrite H0, H1, HZ.
  - intros (pad & pms & L1 & HF & L2 & HE).
    assert (G : forall i, 0 <= i < k -> get d i = get ([0; 2] ++ pad ++ [0] ++ pms) i).
    { intros i Hi. rewrite <- HE, get_slice by lia. done. }
    cbn [app] in G. split; [by rewrite G by lia|]. split; [by rewrite G by lia|]. split.
    + intros u Hu. rewrite G, !get_cons_pos, get_app_l by lia. rewrite Forall_lookup in HF.
      rewrite get_lookup. destruct (lookup_lt_is_Some_2 pad (Z.to_nat (u - 1 - 1)) ltac:(lia)) as [b Hb].
      rewrite Hb. by eapply HF.
    + rewrite G, !get_cons_pos, get_app_r by lia. by replace (k - 49 - 1 - 1 - zlen pad) with 0 by lia.
Qed.

(** * Correctness *)

Lemma ssl_decrypt_ok core sk data len (P : Z -> list Z -> Prop) :
  0 <= len < 2 ^ 32 -> len <= zlen data ->
  (59 <= len -> len = u32 (sk_n_bitlen sk + 7) >> 3 ->
   ok (core data sk) (fun '(r, d) => P r d /\ (r = 0 \/ r = 1) /\ frame 0 len data d /\ bytes d 0 len)) ->
  ok (br_rsa_ssl_decrypt core sk data len) (fun '(x, d') =>
    if (59 <=? len) && (len =? u32 (sk_n_bitlen sk + 7) >> 3)
    then exists r d, P r d /\ frame 0 len data d' /\ slice d' 0 48 = slice d (len - 48) 48 /\
      ((x = 1 /\ r = 1 /\ pms_form d len) \/ (x = 0 /\ (r = 0 \/ ~ pms_form d len)))
    else x = 0 /\ d' = data).
Proof.
  intros Hl Hd Hcore. unfold br_rsa_ssl_decrypt. apply ok_cond; intros HC.
  { apply ok_ret. rewrite Z.ltb_antisym in HC. apply orb_true_iff in HC.
    destruct (59 <=? len); simpl in HC |- *; [|done].
    destruct HC as [HC|HC]; [done|]. apply negb_true_iff in HC. by rewrite HC. }
  rewrite Z.ltb_antisym in HC. apply orb_false_iff in HC as [H1 H2].
  apply negb_false_iff in H1, H2. rewrite H1, H2. cbn [andb].
  apply Z.leb_le in H1. apply Z.eqb_eq in H2. cstep.
  eapply ok_mono; [by apply Hcore|]. intros [r d] (HP & Hr & HF & HB). cbv beta iota.
  pose proof (frame_len _ _ _ _ HF) as HL.
  assert (HW : forall i, 0 <= i < len -> word 32 (get d i)).
  { intros i Hi. pose proof (HB i ltac:(lia)). unfold word in *. lia. }
  set (rb := r =? 1). assert (Er : r = b2z rb) by (destruct Hr as [-> | ->]; done).
  csteps. rewrite !EQ_spec, Er, !b2z_land by (first [apply HW; lia|unfold word; lia]).
  set (c := rb && _ && _).
  apply (ok_for_up (fun u x => exists b : bool, x = b2z b /\
    (b = true <-> c = true /\ forall v, 2 <= v < u -> get d v <> 0))); [lia| | |].
  - exists c. split; [done|]. split; [|tauto]. intros ->. split; [done|]. intros. lia.
  - intros u x Hu (b & -> & Hb). csteps. rewrite NEQ_spec, b2z_land by (first [apply HW; lia|unfold word; lia]).
    eexists. split; [done|]. rewrite andb_true_iff, negb_true_iff, Z.eqb_neq, Hb. split.
    + intros [[Hc Hv] Hn]. split; [done|]. intros v Hv'. destruct (Z.eq_dec v u) as [->|]; [done|apply Hv; lia].
    + intros [Hc Hv]. split; [|apply Hv; lia]. split; [done|]. intros. apply Hv. lia.
  - intros x (b & -> & Hb). csteps. rewrite EQ_spec, b2z_land by (first [apply HW; lia|unfold word; lia]).
    apply ok_memcpy; [lia..|]. cstep. exists (b2z rb), d. split; [by rewrite <- Er|].
    split; [eapply frame_trans; [exact HF|eapply frame_weaken; [apply frame_blit; lia|lia..]]|].
    split; [apply slice_blit_in; lia|].
    assert (HI : b && (get d (len - 49) =? 0) = true <-> rb = true /\ pms_form d len).
    { unfold pms_form. rewrite andb_true_iff, Hb. unfold c. rewrite !andb_true_iff, !Z.eqb_eq. tauto. }
    destruct (b && _) eqn:EB; cbn [b2z].
    + left. destruct (proj1 HI eq_refl) as [-> ?]. done.
    + right. split; [done|]. destruct rb; [|by left]. right. intros HN. pose proof (proj2 HI (conj eq_refl HN)). done.
Qed.

(** ** With the private-key operation of this library *)

Definition i31_core (tmp : list Z) (data : list Z) (sk : br_rsa_private_key) : M (Z * list Z) :=
  br_rsa_i31_private data sk tmp.

Lemma ssl_decrypt_ct core1 core2 sk data1 data2 len :
  ct (fun _ _ => True) (core1 data1 sk) (core2 data2 sk) ->
  ct (fun _ _ => True) (br_rsa_ssl_decrypt core1 sk data1 len) (br_rsa_ssl_decrypt core2 sk data2 len).
Proof.
  intros HC. unfold br_rsa_ssl_decrypt. ct_step; [done|intros _; by ct_step|intros _].
  eapply ct_bind; [exact HC|]. intros [x1 d1] [x2 d2] _. ct_step; [done|]. cbv zeta. ct_step; [done|]. cbv zeta.
  eapply (ct_bind (fun _ _ => True)).
  { apply ct_for_up; [done..|]. intros u y1 y2 _. ct_step; [done|]. by ct_step. }
  intros y1 y2 _. ct_step; [done|]. cbv zeta. ct_step; [done..|]. intros. by ct_step.
Qed.

Lemma pms_form_slice d k : 59 <= k <= zlen d -> pms_form (slice d 0 k) k <-> pms_form d k.
Proof.
  intros Hk. unfold pms_form.
  assert (G : forall i, 0 <= i < k -> get (slice d 0 k) i = get d i) by (intros; by rewrite get_slice by lia).
  rewrite !G by lia. split; intros (H0 & H1 & HP & HZ); (split; [done|split; [done|split; [|done]]]);
    intros u Hu; specialize (HP u Hu); by rewrite G in * by lia.
Qed.

Lemma ssl_private_ok sk p q dp dq data len tmp :
  private_key sk p q dp dq -> 6 * priv_fwlen p q <= priv_TLEN -> byte_len (p * q) < 2 ^ 28 ->
  byte_len (p * q) <= zlen data -> bytes data 0 (byte_len (p * q)) -> zlen tmp = 1 + priv_TLEN ->
  0 <= len < 2 ^ 32 -> len <= zlen data ->
  let k := byte_len (p * q) in
  let C := vbe data 0 k in
  ok (br_rsa_ssl_decrypt (i31_core tmp) sk data len) (fun '(x, d') =>
    if (59 <=? len) && (len =? k)
    then frame 0 len data d' /\ exists em, recovered p q dp dq C k em /\
      ((x = 1 /\ C < p * q /\ exists pad, pms_encodes k pad (slice d' 0 48) em) \/
       (x = 0 /\ (p * q <= C \/ ~ exists pad pms, pms_encodes k pad pms em)))
    else x = 0 /\ d' = data).
Proof.
  intros HSK Hfw Hk28 Hd HB Ht Hlen Hl k C.
  assert (Hk : 0 <= k) by (unfold k, byte_len; pose proof (bitlen_nonneg (p * q)); zn).
  assert (EK : u32 (sk_n_bitlen sk + 7) >> 3 = k).
  { rewrite (priv_bits _ _ _ _ _ HSK), shr_div by lia. unfold k, byte_len in *. pose proof (bitlen_nonneg (p * q)).
    rewrite u32_small; [done|]. unfold word. zn. }
  eapply ok_mono.
  - apply (ssl_decrypt_ok (i31_core tmp) sk data len (fun r d => recovered p q dp dq C k (slice d 0 k) /\
      (r = 1 -> C < p * q) /\ (r = 0 -> p * q <= C) /\ zlen d = zlen data)); try done.
    rewrite EK. intros H59 ->. unfold i31_core.
    eapply ok_mono; [by apply (br_rsa_i31_private_ok sk p q dp dq HSK data tmp)|].
    cbv zeta. fold k C. rewrite (proj2 (Z.leb_le _ _) Hfw). intros [r d] (-> & F1 & B1 & R1 & P1 & Q1).
    pose proof (frame_len _ _ _ _ F1) as L1.
    assert (Vem : vbe (slice d 0 k) 0 k = vbe d 0 k) by (apply slice_vbe; [lia|done]).
    split; [|split; [destruct (C <? p * q); auto|done]].
    split; [split; rewrite ?Vem; try done; [apply zlen_slice; lia|apply byte_string_slice; done || lia]|].
    destruct (Z.ltb_spec C (p * q)); simpl; split; [|split; [|done]| |split; [|done]]; lia || done.
  - rewrite EK. intros [x d']. destruct ((59 <=? len) && (len =? k)) eqn:EC; [|done].
    apply andb_true_iff in EC as [E1 E2]. apply Z.leb_le in E1. apply Z.eqb_eq in E2. subst len.
    intros (r & d & (HR & Hr1 & Hr0 & L) & HF & HS & HX). split; [done|]. exists (slice d 0 k).
    split; [done|]. destruct HX as [(-> & -> & Hform)|(-> & HN)].
    + left. split; [done|]. split; [by apply Hr1|]. apply pms_form_encodes in Hform as (pad & pms & HE); [|lia].
      exists pad. replace (slice d' 0 48) with pms; [done|]. rewrite HS.
      destruct HE as (L1 & _ & L2 & HE).
      assert (ES : slice d 0 k = slice d 0 (k - 48) ++ slice d (k - 48) 48).
      { replace k with (k - 48 + 48) at 1 by lia. rewrite slice_split by lia. f_equal. }
      rewrite HE, !app_assoc in ES. apply app_inj_2 in ES as [_ ES]; [done|].
      pose proof (zlen_slice d (k - 48) 48). lia.
    + right. split; [done|]. destruct HN as [HN|HN]; [left; auto|right].
      intros (pad & pms & HE). apply HN, pms_form_encodes; [lia|]. by exists pad, pms.
Qed.

(** * Properties *)

(** [C34] Over [br_rsa_i31_private], [br_rsa_ssl_decrypt] returns 1 exactly when
    the input has the length of the modulus, at least 59 bytes, is below the
    modulus and the block recovered from it is the PKCS#1 v1.5 padding of a
    secret of 48 bytes; the first 48 bytes of the buffer are then the secret. *)
Theorem br_rsa_ssl_decrypt_correct sk p q dp dq data len tmp :
  private_key sk p q dp dq -> 6 * priv_fwlen p q <= priv_TLEN -> byte_len (p * q) < 2 ^ 28 ->
  byte_len (p * q) <= zlen data -> bytes data 0 (byte_len (p * q)) -> zlen tmp = 1 + priv_TLEN ->
  0 <= len < 2 ^ 32 -> len <= zlen data ->
  let k := byte_len (p * q) in
  let C := vbe data 0 k in
  ok (br_rsa_ssl_decrypt (i31_core tmp) sk data len) (fun '(x, d') =>
    if (59 <=? len) && (len =? k)
    then frame 0 len data d' /\ exists em, recovered p q dp dq C k em /\
      ((x = 1 /\ C < p * q /\ exists pad, pms_encodes k pad (slice d' 0 48) em) \/
       (x = 0 /\ (p * q <= C \/ ~ exists pad pms, pms_encodes k pad pms em)))
    else x = 0 /\ d' = data).
Proof.
  intros. by apply (ssl_private_ok sk p q dp dq).
Qed.

(** A ciphertext that is the number 1: its block is badly padded. *)
Lemma br_rsa_ssl_decrypt_correct_witness :
  let data := replicate 63 0 ++ [1] in
  ok (br_rsa_ssl_decrypt (i31_core (replicate 561 0)) test_sk data 64) (fun '(x, d') =>
    frame 0 64 data d' /\ exists em, recovered test_p test_q test_dp test_dq 1 64 em /\
      ((x = 1 /\ 1 < test_p * test_q /\ exists pad, pms_encodes 64 pad (slice d' 0 48) em) \/
       (x = 0 /\ (test_p * test_q <= 1 \/ ~ exists pad pms, pms_encodes 64 pad pms em)))).
Proof.
  eapply ok_mono.
  - apply (br_rsa_ssl_decrypt_correct test_sk test_p test_q test_dp test_dq);
      first [apply test_pair|by apply limbsb_limbs|by vm_compute].
  - intros [x d] H. exact H.
Defined.

(** [C9] There is no oracle on the padding: for a given key, all inputs of a
    length, well padded or not, give the same trace. *)
Theorem br_rsa_ssl_decrypt_no_oracle sk p q dp dq data1 data2 len tmp1 tmp2 :
  private_key sk p q dp dq -> 6 * priv_fwlen p q <= priv_TLEN -> byte_len (p * q) < 2 ^ 28 ->
  byte_len (p * q) <= zlen data1 -> bytes data1 0 (byte_len (p * q)) ->
  byte_len (p * q) <= zlen data2 -> bytes data2 0 (byte_len (p * q)) ->
  zlen tmp1 = 1 + priv_TLEN -> zlen tmp2 = 1 + priv_TLEN ->
  0 <= len < 2 ^ 32 -> len <= zlen data1 -> len <= zlen data2 ->
  exists t, trace (br_rsa_ssl_decrypt (i31_core tmp1) sk data1 len) = Some t /\
            trace (br_rsa_ssl_decrypt (i31_core tmp2) sk data2 len) = Some t.
Proof.
  intros HSK Hfw Hk28 D1 B1 D2 B2 T1 T2 Hlen L1 L2.
  eapply ct_trace; [apply ssl_decrypt_ct; by apply (br_rsa_i31_private_ct sk p q dp dq HSK)|..].
  - by apply (ssl_private_ok sk p q dp dq).
  - by apply (ssl_private_ok sk p q dp dq).
Qed.

Lemma br_rsa_ssl_decrypt_no_oracle_witness :
  exists t, trace (br_rsa_ssl_decrypt (i31_core (replicate 561 0)) test_sk (replicate 64 7) 64) = Some t /\
            trace (br_rsa_ssl_decrypt (i31_core (replicate 561 9)) test_sk (replicate 64 8) 64) = Some t.
Proof.
  apply (br_rsa_ssl_decrypt_no_oracle test_sk test_p test_q test_dp test_dq);
    first [apply test_pair|by apply limbsb_limbs|by vm_compute].
Defined.
