(* ===== verification/RsaSign.v ===== *)
(** RSA signatures, [src/rsa/rsa_i31_pkcs1_sign.c] and
    [src/rsa/rsa_i31_pkcs1_vrfy.c]: the padding composed with the modular
    exponentiations, and the round trip from signing to verification. *)
From stdpp Require Import base tactics list numbers option.
From Stdlib Require Import ZArith Znumtheory Lia.
From S2P Require Import Prelude CtPrims Limbs Codec Hash I31 RsaPub RsaPriv RsaPkcs1 RsaKeys.
Local Open Scope Z_scope.
Local Open Scope cword_scope.

(** * Code *)

Definition br_rsa_i31_pkcs1_sign (hash_oid : option (list Z)) (hash : list Z) (hash_len : Z)
    (sk : br_rsa_private_key) (x tmp : list Z) : M (Z * list Z) :=
  '(r, x) ← br_rsa_pkcs1_sig_pad hash_oid hash hash_len (sk_n_bitlen sk) x;
  If r =? 0 Then mret (0, x) Else
  br_rsa_i31_private x sk tmp.

(** [sig], [tmp] and [pad2] are the stack buffers. *)
Definition br_rsa_i31_pkcs1_vrfy (x : list Z) (xlen : Z) (hash_oid : option (list Z))
    (hash_len : Z) (pk : br_rsa_public_key) (hash_out sig tmp pad2 : list Z) : M (Z * list Z) :=
  If BR_MAX_RSA_SIZE >> 3 <? xlen Then mret (0, hash_out) Else
  sig ← memcpy sig 0 x 0 xlen;
  '(r, sig) ← br_rsa_i31_public sig xlen pk tmp;
  If r =? 0 Then mret (0, hash_out) Else
  br_rsa_pkcs1_sig_unpad sig xlen hash_oid hash_len hash_out pad2.

(** * The encoded message *)

Lemma byte_string_u8 x l : byte_string l -> byte_string (u8 x :: l).
Proof. intros. constructor; [apply u8_word|done]. Qed.

Lemma emsa_bytes k hash_oid null H : oid_ok hash_oid -> byte_string H ->
  (forall oid, hash_oid = Some oid -> bytes oid 0 (get oid 0 + 1)) ->
  byte_string (emsa k hash_oid null H).
Proof.
  intros Ho BH Bo. assert (Hc : forall v l, 0 <= v < 256 -> byte_string l -> byte_string (v :: l))
    by (intros; by constructor).
  assert (BI : byte_string (digest_info hash_oid null (zlen H))).
  { destruct hash_oid as [oid|]; [|constructor]. unfold digest_info.
    destruct Ho as [H1 H2]. cbn [app].
    apply Hc; [lia|]. apply byte_string_u8, Hc; [lia|]. apply byte_string_u8, Hc; [lia|].
    apply byte_string_app. split; [apply byte_string_slice; try lia; by apply Bo|].
    apply byte_string_app. split; [destruct null; repeat (apply Hc; [lia|]); constructor|].
    apply Hc; [lia|]. apply byte_string_u8. constructor. }
  unfold emsa. cbn [app]. do 2 (apply Hc; [lia|]). apply byte_string_app. split.
  - apply Forall_replicate. done.
  - apply Hc; [lia|]. apply byte_string_app. done.
Qed.

Section Pair.
Context (sk : br_rsa_private_key) (pk : br_rsa_public_key) (p q dp dq E : Z).
Context (HK : key_pair sk pk p q dp dq E).
Context (hash_oid : option (list Z)) (hash : list Z) (hash_len : Z).
Context (Hoid : oid_ok hash_oid).
Context (Boid : forall oid, hash_oid = Some oid -> bytes oid 0 (get oid 0 + 1)).
Context (Hh : 0 <= hash_len <= zlen hash) (Bh : bytes hash 0 hash_len).
Let N := p * q.
Let xlen := byte_len N.
Context (Hfit : min_pad hash_oid + hash_len <= xlen).

Lemma pkcs1_sign_ok x tmp : xlen <= zlen x -> zlen tmp = 1 + priv_TLEN ->
  ok (br_rsa_i31_pkcs1_sign hash_oid hash hash_len sk x tmp) (fun '(r, x') =>
    r = 1 /\ frame 0 xlen x x' /\ bytes x' 0 xlen /\ vbe x' 0 xlen < N /\
    exists V em, 0 <= V < N /\ zlen em = xlen /\ vbe em 0 xlen = V /\ byte_string em /\
      em = emsa (xlen - min_pad hash_oid - hash_len + 8) hash_oid true (slice hash 0 hash_len) /\
      vbe x' 0 xlen ^ E mod N = V).
Proof.
  intros Hx Ht. pose proof HK as [HS HP _ _ _ _ [Hs1 Hs2]]. pose proof (pair_odd _ _ _ _ _ _ _ HK).
  pose proof (bitlen_nonneg N) as Hb0.
  assert (Hb : bitlen N < 2 ^ 32 - 8) by (fold N in Hs1; unfold byte_len in Hs1; zn).
  pose proof (pub_gt1 _ _ _ HP) as HN. fold N in HN.
  assert (Hmp : 11 <= min_pad hash_oid) by (destruct hash_oid as [oid|]; simpl in *; lia).
  unfold br_rsa_i31_pkcs1_sign. rewrite (priv_bits _ _ _ _ _ HS). fold N. cstep.
  fold N xlen in Hs1. pose proof (br_rsa_pkcs1_sig_pad_ok hash_oid hash hash_len (bitlen N) x Hoid Hh
    ltac:(lia) ltac:(lia)) as HPad. cbv zeta in HPad. change ((bitlen N + 7) / 8) with xlen in HPad.
  eapply ok_mono; [exact (HPad Hx)|].
  rewrite (proj2 (Z.leb_le _ _)) by lia. intros [r x1] (-> & HF1 & HE1). cbv beta iota.
  pose proof (frame_len _ _ _ _ HF1) as L1. cstep; [done|].
  set (em := emsa _ _ _ _) in *.
  assert (Bem : byte_string em) by (apply emsa_bytes; try done; apply byte_string_slice; done || lia).
  assert (Bx1 : bytes x1 0 xlen) by (eapply bytes_of_slice; [|exact HE1|exact Bem]; lia).
  assert (Lem : zlen em = xlen) by (rewrite <- HE1; apply zlen_slice; lia).
  assert (Vem : vbe em 0 xlen = vbe x1 0 xlen).
  { rewrite <- HE1. apply vbe_ext; [lia|]. intros i Hi. by rewrite get_slice by lia. }
  assert (HV : 0 <= vbe x1 0 xlen < N).
  { split; [apply vbe_bound; done || lia|]. apply below_modulus; [done|done|].
    pose proof (get_slice x1 0 xlen 0 ltac:(lia) ltac:(lia)) as G0. by rewrite HE1 in G0. }
  eapply ok_mono; [apply (br_rsa_i31_private_ok sk p q dp dq HS x1 tmp); fold N xlen; done || lia|].
  cbv zeta. fold N xlen. rewrite (proj2 (Z.leb_le _ _)), (proj2 (Z.ltb_lt _ _)) by lia.
  intros [r x'] (-> & HF2 & B2 & HS2 & Sp & Sq). split; [done|]. split; [by eapply frame_trans|].
  split; [done|]. split; [lia|]. exists (vbe x1 0 xlen), em. repeat (split; [done|]).
  by apply (pair_inverse _ _ _ _ _ _ _ HK).
Qed.

Lemma pkcs1_vrfy_ok x' hash_out sig tmp pad2 em :
  xlen <= zlen x' -> bytes x' 0 xlen -> vbe x' 0 xlen < N -> zlen sig = 512 ->
  zlen tmp = 1 + pub_TLEN -> zlen pad2 = 43 -> hash_len <= zlen hash_out ->
  zlen em = xlen -> byte_string em -> vbe x' 0 xlen ^ E mod N = vbe em 0 xlen ->
  em = emsa (xlen - min_pad hash_oid - hash_len + 8) hash_oid true (slice hash 0 hash_len) ->
  ok (br_rsa_i31_pkcs1_vrfy x' xlen hash_oid hash_len pk hash_out sig tmp pad2) (fun '(r, out) =>
    r = 1 /\ slice out 0 hash_len = slice hash 0 hash_len).
Proof.
  intros Hx Bx Vx Hsig Ht Hp2 Hout Lem Bem HVem Hem. pose proof HK as [_ HP _ _ _ _ [Hs1 _]].
  fold N xlen in Hs1. assert (Hmp : 11 <= min_pad hash_oid) by (destruct hash_oid as [oid|]; simpl in *; lia).
  unfold br_rsa_i31_pkcs1_vrfy. change (BR_MAX_RSA_SIZE >> 3) with 512.
  cstep; [apply Z.ltb_lt in H; lia|]. cstep. apply ok_memcpy; [lia..|].
  set (s0 := blit sig 0 x' 0 xlen). assert (L0 : zlen s0 = 512) by (unfold s0; rewrite zlen_blit; lia).
  assert (G0 : forall i, 0 <= i < xlen -> get s0 i = get x' i)
    by (intros; unfold s0; rewrite get_blit_in by lia; f_equal; lia).
  assert (B0 : bytes s0 0 xlen) by (intros i Hi; rewrite G0 by lia; apply Bx; lia).
  assert (V0 : vbe s0 0 xlen = vbe x' 0 xlen) by (apply vbe_ext; [lia|]; intros; apply G0; lia).
  cstep. eapply ok_mono; [apply (br_rsa_i31_public_ok pk N E HP s0 xlen tmp); done || lia|].
  fold xlen. rewrite Z.eqb_refl, (proj2 (Z.leb_le _ _)) by lia. cbn [andb]. rewrite V0.
  rewrite (proj2 (Z.ltb_lt _ _)) by lia. intros [r s1] (-> & HF & B1 & V1). cbv beta iota.
  pose proof (frame_len _ _ _ _ HF) as L1. cstep; [done|].
  rewrite HVem in V1.
  assert (ES : slice s1 0 xlen = em).
  { rewrite (vbe_inj s1 em xlen); [apply slice_all; lia|lia|lia|done| |done].
    apply bytes_get in Bem. by rewrite Lem in Bem. }
  assert (EH : tail_hash s1 xlen hash_len = slice hash 0 hash_len).
  { assert (ET : slice s1 0 xlen = slice s1 0 (xlen - hash_len) ++ tail_hash s1 xlen hash_len).
    { unfold tail_hash. replace xlen with (xlen - hash_len + hash_len) at 1 by lia. apply slice_split; lia. }
    rewrite ES, Hem in ET. unfold emsa in ET. rewrite !app_assoc in ET.
    apply app_inj_2 in ET as [_ ET]; [done|].
    pose proof (zlen_slice hash 0 hash_len). pose proof (zlen_slice s1 (xlen - hash_len) hash_len).
    unfold tail_hash. lia. }
  eapply ok_mono; [apply (br_rsa_pkcs1_sig_unpad_ok s1 xlen hash_oid hash_len pad2); done || lia|].
  intros [r out] [(-> & _ & _ & HO)|(_ & HN & _)].
  - split; [done|]. by rewrite HO.
  - destruct HN. split; [lia|]. exists (xlen - min_pad hash_oid - hash_len + 8), true. split; [lia|].
    by rewrite ES, EH.
Qed.
End Pair.

(** * Signing, then verifying *)

(** The stack buffers of the verification. *)
Record vrfy_buffers (sig tmp pad2 : list Z) : Prop := VrfyBuffers {
  buf_sig : zlen sig = 512;
  buf_tmp : zlen tmp = 1 + pub_TLEN;
  buf_pad2 : zlen pad2 = 43
}.

(** [C7] A signature computed with [br_rsa_i31_pkcs1_sign] is accepted by
    [br_rsa_i31_pkcs1_vrfy] under the public key of the pair, and the hash it
    extracts is the hash that was signed: for every hash, every OID and every
    pair of keys whose factors are prime and whose exponents are inverse, as
    soon as the modulus has room for the smallest padding. *)
Theorem br_rsa_i31_pkcs1_roundtrip sk pk p q dp dq E hash_oid hash hash_len x tmp hash_out sig tmp2 pad2 :
  key_pair sk pk p q dp dq E -> oid_ok hash_oid ->
  (forall oid, hash_oid = Some oid -> bytes oid 0 (get oid 0 + 1)) ->
  0 <= hash_len <= zlen hash -> bytes hash 0 hash_len ->
  min_pad hash_oid + hash_len <= byte_len (p * q) -> byte_len (p * q) <= zlen x ->
  zlen tmp = 1 + priv_TLEN -> hash_len <= zlen hash_out -> vrfy_buffers sig tmp2 pad2 ->
  ok ('(r, x) ← br_rsa_i31_pkcs1_sign hash_oid hash hash_len sk x tmp;
      '(r', out) ← br_rsa_i31_pkcs1_vrfy x (byte_len (p * q)) hash_oid hash_len pk hash_out sig tmp2 pad2;
      mret (r, r', out))
    (fun '(r, r', out) => r = 1 /\ r' = 1 /\ slice out 0 hash_len = slice hash 0 hash_len).
Proof.
  intros HK Ho Bo Hh Bh Hfit Hx Ht Hout [B1 B2 B3]. cstep.
  eapply ok_mono; [by apply (pkcs1_sign_ok sk pk p q dp dq E HK hash_oid hash hash_len)|].
  intros [r x'] (-> & HF & Bx & Vx & V & em & _ & Lem & Vem & Bem & Hem & HV). cbv beta iota. cstep.
  eapply ok_mono; [apply (pkcs1_vrfy_ok sk pk p q dp dq E HK hash_oid hash hash_len) with (em := em)|];
    try done; [by rewrite (frame_len _ _ _ _ HF)|by rewrite HV|].
  intros [r out] [-> HO]. cbv beta iota. by cstep.
Qed.

(** The OID of MD5. *)
Definition md5_oid : list Z := [8; 42; 134; 72; 134; 247; 13; 2; 5].

Lemma br_rsa_i31_pkcs1_roundtrip_witness :
  ok ('(r, x) ← br_rsa_i31_pkcs1_sign (Some md5_oid) (seqZ 100 16) 16 test_sk (replicate 64 0) (replicate 561 0);
      '(r', out) ← br_rsa_i31_pkcs1_vrfy x (byte_len (test_p * test_q)) (Some md5_oid) 16 test_pk
        (replicate 16 0) (replicate 512 0) (replicate 541 0) (replicate 43 0);
      mret (r, r', out))
    (fun '(r, r', out) => r = 1 /\ r' = 1 /\ slice out 0 16 = slice (seqZ 100 16) 0 16).
Proof.
  apply (br_rsa_i31_pkcs1_roundtrip test_sk test_pk test_p test_q test_dp test_dq test_E);
    [exact test_pair|done|by intros ? [= <-]; apply limbsb_limbs|done|by apply limbsb_limbs|by vm_compute..|by constructor].
Defined.
