(* ===== verification/Oaep.v ===== *)
(** RSAES-OAEP, the padding ([src/rsa/rsa_oaep_pad.c], [rsa_oaep_unpad.c]) over
    any hash function and any random generator. *)
From stdpp Require Import base tactics list numbers option.
From Stdlib Require Import ZArith Lia.
From S2P Require Import Prelude CtPrims Limbs Codec Hash Mgf1 Prng RsaPub.
Local Open Scope Z_scope.
Local Open Scope cword_scope.

(** * Code *)

Section Code.
Context {HC : HashClass}.

Definition hash_data (dst : list Z) (o : Z) (src : list Z) (len : Z) : M (list Z) :=
  hc ← hash_init hash_auto;
  hc ← hash_update hc src 0 len;
  hash_out hc dst o.

(** [while (k > 0 && pk->n[k - 1] == 0) k --;] *)
Fixpoint oaep_modlen (fuel : nat) (n : list Z) (k : Z) : M Z :=
  match fuel with
  | O => None
  | S fuel' =>
      If 0 <? k Then
        b ← load n (k - 1);
        If b =? 0 Then oaep_modlen fuel' n (k - 1) Else mret k
      Else mret k
  end.

(** The message is the [src_len] bytes of [src] at [so]; it may lie in the
    buffer [dst] itself. *)
Definition br_rsa_oaep_pad {PC : PrngClass} (rnd : prng_ctx) (label : list Z) (label_len : Z)
    (pk : br_rsa_public_key) (dst : list Z) (dst_max_len : Z) (src : list Z) (so src_len : Z)
    : M (Z * prng_ctx * list Z) :=
  let hlen := hash_size in
  k ← oaep_modlen (Z.to_nat (pk_nlen pk) + 1) (pk_n pk) (pk_nlen pk);
  If (k <? (hlen << 1) + 2) || (u64 (k - (hlen << 1) - 2) <? src_len) || (dst_max_len <? k)
  Then mret (0, rnd, dst) Else
  buf ← memcpy dst (k - src_len) src so src_len;
  buf ← hash_data buf (1 + hlen) label label_len;
  buf ← memset buf (1 + (hlen << 1)) 0 (k - src_len - (hlen << 1) - 2);
  buf ← store buf (k - src_len - 1) 0x01;
  '(rnd, buf) ← prng_generate rnd buf 1 hlen;
  buf ← br_mgf1_xor buf (1 + hlen) (k - hlen - 1) buf 1 hlen;
  buf ← br_mgf1_xor buf 1 hlen buf (1 + hlen) (k - hlen - 1);
  buf ← store buf 0 0x00;
  mret (k, rnd, buf).

Definition xor_hash_data (buf : list Z) (o : Z) (src : list Z) (len : Z) : M (list Z) :=
  hc ← hash_init hash_auto;
  hc ← hash_update hc src 0 len;
  tmp ← hash_out hc (replicate 64 0) 0;
  for_up 0 hash_size (fun u buf =>
    x ← load buf (o + u);
    t ← load tmp u;
    store buf (o + u) (x .^ t)) buf.

(** One turn of the loop that looks for the first nonzero byte. *)
Definition unpad_step (buf : list Z) (u : Z) (st : Z * Z * Z) : M (Z * Z * Z) :=
  let '(r, s, zlen) := st in
  w ← load buf u;
  let nz := r .& (u32 (w + 0xFF) >> 8) in
  let s := s .| (nz .& EQ w 0x01) in
  let r := r .& NOT nz in
  mret (r, s, u32 (zlen + r)).

(** The value of the function, the buffer and [*len]. *)
Definition br_rsa_oaep_unpad (label : list Z) (label_len : Z) (data : list Z) (len : Z)
    : M (Z * list Z * Z) :=
  let hlen := hash_size in
  let k := len in
  let buf := data in
  If k <? (hlen << 1) + 2 Then mret (0, buf, len) Else
  buf ← br_mgf1_xor buf 1 hlen buf (1 + hlen) (k - hlen - 1);
  buf ← br_mgf1_xor buf (1 + hlen) (k - hlen - 1) buf 1 hlen;
  buf ← xor_hash_data buf (1 + hlen) label label_len;
  b ← load buf 0;
  let r := u32 (1 - (u32 (b + 0xFF) >> 8)) in
  '(_, s, zlen) ← for_up (hlen + 1) k (unpad_step buf) (r, 0, 0);
  let s := s .& GE zlen (u32 hlen) in
  If negb (s =? 0) Then
    let plen := 2 + hlen + zlen in
    let k := k - plen in
    buf ← memcpy buf 0 buf plen k;
    mret (s, buf, k)
  Else mret (s, buf, len).
End Code.

(** * XOR of byte strings *)

Definition xor_bytes (a b : list Z) : list Z := zip_with Z.lxor a b.

Lemma zlen_xor a b : zlen a = zlen b -> zlen (xor_bytes a b) = zlen a.
Proof. intros. unfold xor_bytes. rewrite length_zip_with. lia. Qed.

Lemma get_xor a b i : zlen a = zlen b -> 0 <= i < zlen a ->
  get (xor_bytes a b) i = get a i .^ get b i.
Proof.
  intros HL Hi. rewrite !get_lookup. unfold xor_bytes. rewrite lookup_zip_with.
  destruct (lookup_lt_is_Some_2 a (Z.to_nat i) ltac:(lia)) as [x Hx].
  destruct (lookup_lt_is_Some_2 b (Z.to_nat i) ltac:(lia)) as [y Hy]. by rewrite Hx, Hy.
Qed.

Lemma xor_twice a b : zlen a = zlen b -> xor_bytes (xor_bytes a b) b = a.
Proof.
  intros HL. pose proof (zlen_xor a b HL). apply list_eq_get; [rewrite zlen_xor; lia|].
  rewrite zlen_xor by lia. intros i Hi. rewrite !get_xor by lia.
  by rewrite Z.lxor_assoc, Z.lxor_nilpotent, Z.lxor_0_r.
Qed.

Lemma xor_byte_string a b : byte_string a -> byte_string b -> byte_string (xor_bytes a b).
Proof.
  revert b. induction a as [|x a IH]; intros [|y b] HA HB; try constructor.
  - apply Forall_cons_iff in HA as [? _], HB as [? _]. by apply word_lxor.
  - apply Forall_cons_iff in HA as [_ ?], HB as [_ ?]. by apply IH.
Qed.

Lemma xored_slice a d o n s : 0 <= o -> 0 <= n -> o + n <= zlen a -> zlen s = n ->
  xored a d o n s -> slice d o n = xor_bytes (slice a o n) s.
Proof.
  intros Ho Hn Hl Hs [HF HX]. pose proof (frame_len _ _ _ _ HF).
  pose proof (zlen_slice a o n Ho Hn Hl). pose proof (zlen_slice d o n Ho Hn ltac:(lia)).
  apply list_eq_get; [rewrite zlen_xor; lia|]. intros i Hi.
  rewrite get_xor, !get_slice by lia. apply HX. lia.
Qed.

(** * The encoding of PKCS#1 *)

Section Spec.
Context {HC : HashClass} {HS : HashSpec HC}.

(** The data block of [k - hash_size - 1] bytes, and the encoded message. *)
Definition oaep_db (label M : list Z) (k : Z) : list Z :=
  digest label ++ replicate (Z.to_nat (k - zlen M - 2 * hash_size - 2)) 0 ++ [1] ++ M.
Definition oaep_encode (label : list Z) (k : Z) (seed M : list Z) : list Z :=
  let maskedDB := xor_bytes (oaep_db label M k) (MGF1 seed (k - hash_size - 1)) in
  let maskedSeed := xor_bytes seed (MGF1 maskedDB hash_size) in
  [0] ++ maskedSeed ++ maskedDB.

(** [em] encodes [M] with [seed]. *)
Definition oaep_encodes (label : list Z) (k : Z) (seed M em : list Z) : Prop :=
  zlen seed = hash_size /\ zlen M + 2 * hash_size + 2 <= k /\ em = oaep_encode label k seed M.

(** The way back. *)
Definition unmask_seed (em : list Z) (k : Z) : list Z :=
  xor_bytes (slice em 1 hash_size) (MGF1 (slice em (1 + hash_size) (k - hash_size - 1)) hash_size).
Definition unmask_db (em : list Z) (k : Z) : list Z :=
  xor_bytes (slice em (1 + hash_size) (k - hash_size - 1)) (MGF1 (unmask_seed em k) (k - hash_size - 1)).

Lemma zlen_db label M k : zlen M + 2 * hash_size + 2 <= k -> zlen (oaep_db label M k) = k - hash_size - 1.
Proof.
  intros Hk. unfold oaep_db. rewrite !zlen_app, digest_len, length_replicate. simpl. lia.
Qed.

Lemma get_db label M k i : zlen M + 2 * hash_size + 2 <= k -> 0 <= i < k - hash_size - 1 ->
  get (oaep_db label M k) i =
    if i <? hash_size then get (digest label) i
    else if i <? k - hash_size - 2 - zlen M then 0
    else if i =? k - hash_size - 2 - zlen M then 1
    else get M (i - (k - hash_size - 1 - zlen M)).
Proof.
  intros Hk Hi. pose proof hash_size_pos as Hh. pose proof (digest_len label) as HD.
  unfold oaep_db. destruct (Z.ltb_spec i hash_size); [by rewrite get_app_l by lia|].
  rewrite get_app_r by lia. set (n := Z.to_nat _). assert (Hn : zlen (replicate n 0) = Z.of_nat n)
    by (rewrite length_replicate; done).
  destruct (Z.ltb_spec i (k - hash_size - 2 - zlen M)).
  { rewrite get_app_l by lia. apply get_replicate. lia. }
  rewrite get_app_r by lia. destruct (Z.eqb_spec i (k - hash_size - 2 - zlen M)) as [E|E].
  - rewrite get_app_l by (simpl; lia). replace (i - _ - _) with 0 by lia. done.
  - rewrite get_app_r by (simpl; lia). f_equal. simpl. lia.
Qed.

(** The three parts of an encoded message. *)
Lemma slice_parts b k : 1 + hash_size <= k <= zlen b ->
  slice b 0 k = [get b 0] ++ slice b 1 hash_size ++ slice b (1 + hash_size) (k - hash_size - 1).
Proof.
  intros Hk. pose proof hash_size_pos as Hh. rewrite <- slice_split by lia.
  replace k with (1 + (k - 1)) at 1 by lia. rewrite slice_split by lia. f_equal; [|f_equal; lia].
  apply list_eq_get; rewrite zlen_slice by lia; [done|]. intros i Hi. rewrite get_slice by lia.
  by replace i with 0 by lia.
Qed.

(** A message is encoded exactly when unmasking gives its seed and block. *)
Lemma encodes_unmask label k seed M em :
  zlen em = k -> 2 * hash_size + 2 <= k ->
  (oaep_encodes label k seed M em <->
   get em 0 = 0 /\ zlen M + 2 * hash_size + 2 <= k /\ seed = unmask_seed em k /\
   unmask_db em k = oaep_db label M k).
Proof.
  intros He Hk. pose proof hash_size_pos as Hh.
  assert (L1 : zlen (slice em 1 hash_size) = hash_size) by (apply zlen_slice; lia).
  assert (L2 : zlen (slice em (1 + hash_size) (k - hash_size - 1)) = k - hash_size - 1) by (apply zlen_slice; lia).
  assert (LM1 : forall s, zlen (MGF1 s hash_size) = hash_size) by (intros; apply zlen_MGF1; lia).
  assert (LM2 : forall s, zlen (MGF1 s (k - hash_size - 1)) = k - hash_size - 1) by (intros; apply zlen_MGF1; lia).
  assert (ES : em = [get em 0] ++ slice em 1 hash_size ++ slice em (1 + hash_size) (k - hash_size - 1)).
  { rewrite <- slice_parts by lia. symmetry. by apply slice_all. }
  unfold oaep_encodes, unmask_db, unmask_seed. set (a := slice em 1 hash_size) in *.
  set (b := slice em (1 + hash_size) _) in *. split.
  - intros (Hs & HM & HE). pose proof (zlen_db label M k HM) as LD. unfold oaep_encode in HE.
    set (mdb := xor_bytes (oaep_db label M k) _) in HE. rewrite ES in HE.
    assert (Lm : zlen mdb = k - hash_size - 1) by (unfold mdb; rewrite zlen_xor; rewrite ?LM2; lia).
    apply app_inj_1 in HE as [H0 HE]; [|done]. apply app_inj_1 in HE as [HA HB].
    2:{ pose proof (zlen_xor seed (MGF1 mdb hash_size)). rewrite LM1 in H. lia. }
    split; [by injection H0|]. split; [done|].
    assert (Eseed : xor_bytes a (MGF1 b hash_size) = seed)
      by (rewrite HA, HB; apply xor_twice; rewrite LM1; lia).
    split; [done|]. rewrite Eseed, HB. unfold mdb. apply xor_twice. rewrite LM2; lia.
  - intros (H0 & HM & Hs & HD). split; [rewrite Hs, zlen_xor; rewrite ?LM1; lia|]. split; [done|].
    unfold oaep_encode. rewrite <- HD, <- Hs, xor_twice by (rewrite LM2; lia).
    rewrite Hs, xor_twice by (rewrite LM1; lia). by rewrite ES, H0 at 1.
Qed.

(** * Padding *)

Lemma oaep_modlen_ok fuel n k : 0 <= k < Z.of_nat fuel -> k <= zlen n -> (0 < k -> get n (k - 1) <> 0) ->
  ok (oaep_modlen fuel n k) (fun k' => k' = k).
Proof.
  intros Hf Hk Hn. destruct fuel as [|fuel]; [lia|]. cbn [oaep_modlen]. cstep.
  - apply Z.ltb_lt in H. cstep. cstep. cstep; [|by cstep]. apply Z.eqb_eq in H0. by destruct Hn.
  - by cstep.
Qed.

Lemma hash_data_ok dst o src len : 0 <= o -> o + hash_size <= zlen dst -> 0 <= len <= zlen src ->
  bytes src 0 len ->
  ok (hash_data dst o src len) (fun d => frame o (o + hash_size) dst d /\
    slice d o hash_size = digest (slice src 0 len)).
Proof.
  intros Ho Hd Hl HB. unfold hash_data. cstep.
  eapply ok_mono; [apply hash_init_ok, hash_auto_ok|]. intros c1 R1. cstep.
  eapply ok_mono; [apply (hash_update_ok c1 [] src 0 len R1); done || lia|]. intros c2 R2.
  by apply hash_out_ok.
Qed.

(** Masking a part of a buffer with another one. *)
Lemma mgf1_slice_ok b o n so sn s : 0 <= o -> 0 <= n -> o + n <= zlen b -> 0 <= so -> 0 <= sn ->
  so + sn <= zlen b -> slice b so sn = s -> byte_string s ->
  ok (br_mgf1_xor b o n b so sn) (fun d => frame o (o + n) b d /\
    slice d o n = xor_bytes (slice b o n) (MGF1 s n)).
Proof.
  intros Ho Hn Hl Hso Hsn Hs <- HB. eapply ok_mono.
  { apply br_mgf1_xor_ok; try done. intros i Hi. apply bytes_get in HB. rewrite zlen_slice in HB by lia.
    replace i with (so + (i - so)) by lia. rewrite <- (get_slice b so sn) by lia. apply HB. lia. }
  intros d X. split; [apply X|]. apply xored_slice; try done. by apply zlen_MGF1.
Qed.

(** The block laid out by the first writes. *)
Lemma oaep_block buf k src so src_len b label M :
  0 <= src_len -> src_len + 2 * hash_size + 2 <= k <= zlen buf -> 0 <= so -> so + src_len <= zlen src ->
  M = slice src so src_len ->
  frame (1 + hash_size) (1 + hash_size + hash_size) (blit buf (k - src_len) src so src_len) b ->
  slice b (1 + hash_size) hash_size = digest label ->
  let b' := upd (fillz b (1 + (hash_size << 1)) 0 (k - src_len - (hash_size << 1) - 2)) (k - src_len - 1) 1 in
  frame 0 k buf b' /\ slice b' (1 + hash_size) (k - hash_size - 1) = oaep_db label M k.
Proof.
  intros Hsl Hk Hso Hs HM HF HD. pose proof hash_size_pos as Hh.
  pose proof (frame_len _ _ _ _ HF) as L1. rewrite zlen_blit in L1 by lia.
  rewrite shl_mul by lia. change (2 ^ 1) with 2. set (n := k - src_len - _ - 2). cbv zeta. set (b' := upd _ _ _).
  assert (LM : zlen M = src_len) by (rewrite HM, zlen_slice; lia).
  assert (L' : zlen b' = zlen buf) by (unfold b'; rewrite zlen_upd, zlen_fillz; lia).
  assert (G1 : forall i, 0 <= i -> i < 1 + 2 * hash_size \/ k - src_len <= i -> get b' i = get b i).
  { intros i H0 Hi. unfold b'. rewrite get_upd_ne by lia. apply get_fillz_out; lia. }
  split.
  - split; [done|]. intros i Hi Hi'. rewrite G1, (frame_get _ _ _ _ _ HF), get_blit_out by lia. done.
  - apply list_eq_get; [rewrite zlen_slice, zlen_db; lia|]. rewrite zlen_slice by lia. intros i Hi.
    rewrite get_slice, get_db, LM by lia. destruct (Z.ltb_spec i hash_size).
    { rewrite G1, <- HD, get_slice by lia. done. }
    destruct (Z.ltb_spec i (k - hash_size - 2 - src_len)).
    { unfold b'. rewrite get_upd_ne, get_fillz_in by lia. done. }
    destruct (Z.eqb_spec i (k - hash_size - 2 - src_len)).
    { unfold b'. replace (1 + hash_size + i) with (k - src_len - 1) by lia. apply get_upd_eq.
      rewrite zlen_fillz; lia. }
    rewrite G1, (frame_get _ _ _ _ _ HF), get_blit_in, HM, get_slice by lia. f_equal. lia.
Qed.

Lemma db_bytes label M k : byte_string M -> byte_string (oaep_db label M k).
Proof.
  intros HM. unfold oaep_db. rewrite !byte_string_app. repeat split; try done.
  - apply digest_bytes.
  - by apply Forall_replicate.
  - by repeat constructor.
Qed.

Section Pad.
Context {PC : PrngClass} {PS : PrngSpec PC}.

Lemma br_rsa_oaep_pad_ok rnd S label label_len pk k dst dst_max_len src so src_len :
  prng_rep rnd S -> 0 <= label_len <= zlen label -> bytes label 0 label_len ->
  pk_nlen pk = k -> 0 <= k < 2 ^ 64 -> k <= zlen (pk_n pk) -> (0 < k -> get (pk_n pk) (k - 1) <> 0) ->
  dst_max_len <= zlen dst -> 0 <= so -> 0 <= src_len -> so + src_len <= zlen src -> bytes src so src_len ->
  ok (br_rsa_oaep_pad rnd label label_len pk dst dst_max_len src so src_len) (fun '(r, rnd', dst') =>
    if (src_len + 2 * hash_size + 2 <=? k) && (k <=? dst_max_len)
    then r = k /\ prng_rep rnd' (prng_next S hash_size).1 /\ frame 0 k dst dst' /\
      byte_string (slice dst' 0 k) /\
      oaep_encodes (slice label 0 label_len) k (prng_next S hash_size).2 (slice src so src_len) (slice dst' 0 k)
    else r = 0 /\ rnd' = rnd /\ dst' = dst).
Proof.
  intros HR Hll HBl <- Hk Hkn Hn Hd Hso Hsl Hs HBs. set (k := pk_nlen pk) in *. pose proof hash_size_pos as Hh.
  unfold br_rsa_oaep_pad. cstep. eapply ok_mono; [apply oaep_modlen_ok; done || lia|]. intros k' ->.
  change (pk_nlen pk) with k. cbv beta zeta.
  assert (ESH : hash_size << 1 = 2 * hash_size) by (rewrite shl_mul by lia; lia).
  apply ok_cond; intros HC'.
  { apply ok_ret. replace (_ && _) with false; [done|]. symmetry. rewrite ESH in HC'.
    destruct (Z.ltb_spec k (2 * hash_size + 2)); [by rewrite (proj2 (Z.leb_gt _ _)) by lia|].
    rewrite u64_small in HC' by (unfold word; lia). cbn [orb] in HC'.
    destruct (Z.leb_spec (src_len + 2 * hash_size + 2) k), (Z.leb_spec k dst_max_len); try done.
    rewrite !(proj2 (Z.ltb_ge _ _)) in HC' by lia. done. }
  apply orb_false_iff in HC' as [HC' H3]. apply orb_false_iff in HC' as [H1 H2].
  apply Z.ltb_ge in H1, H2, H3. rewrite ESH in H1, H2. rewrite u64_small in H2 by (unfold word; lia).
  rewrite !(proj2 (Z.leb_le _ _)) by lia. cbn [andb].
  cstep. apply ok_memcpy; [lia..|]. set (b1 := blit _ _ _ _ _).
  assert (L1 : zlen b1 = zlen dst) by (apply zlen_blit; lia).
  cstep. eapply ok_mono; [apply hash_data_ok; try done; lia|]. intros b2 [F2 S2].
  pose proof (frame_len _ _ _ _ F2) as L2. cbv beta. cstep. apply ok_memset; [lia..|].
  assert (L3 : zlen (fillz b2 (1 + (hash_size << 1)) 0 (k - src_len - (hash_size << 1) - 2)) = zlen dst)
    by (rewrite zlen_fillz; lia).
  cstep. apply ok_store; [lia|].
  destruct (oaep_block dst k src so src_len b2 _ _ Hsl ltac:(lia) Hso Hs eq_refl F2 S2) as [F4 S4].
  set (b4 := upd _ _ _) in *. pose proof (frame_len _ _ _ _ F4) as L4. clearbody b4.
  set (db := oaep_db _ _ _) in *. set (M := slice src so src_len) in *.
  assert (BM : byte_string M) by (by apply byte_string_slice).
  cstep. eapply ok_mono; [apply (prng_generate_ok rnd S b4 1 hash_size HR); lia|].
  intros [rnd' b5] (HR' & F5 & S5). cbv beta iota. pose proof (frame_len _ _ _ _ F5) as L5.
  set (seed := (prng_next S hash_size).2) in *.
  assert (Bs : byte_string seed) by (by eapply prng_next_bytes; [exact HR|lia]).
  cstep. eapply ok_mono; [apply (mgf1_slice_ok b5 _ _ 1 hash_size seed); done || lia|].
  intros b6 [F6 S6]. pose proof (frame_len _ _ _ _ F6) as L6.
  rewrite (slice_frame b4 b5 (1 + hash_size) _ _ _ F5), S4 in S6 by lia. set (mdb := xor_bytes db _) in S6.
  assert (Bm : byte_string mdb) by (apply xor_byte_string; [by apply db_bytes|apply MGF1_bytes]).
  cstep. eapply ok_mono; [apply (mgf1_slice_ok b6 1 hash_size _ _ mdb); done || lia|].
  intros b7 [F7 S7]. pose proof (frame_len _ _ _ _ F7) as L7.
  rewrite (slice_frame b5 b6 1 _ _ _ F6), S5 in S7 by lia.
  assert (S7' : slice b7 (1 + hash_size) (k - hash_size - 1) = mdb)
    by (rewrite <- S6; apply (slice_frame b6 b7 _ _ _ _ F7); lia).
  cstep. cstep. split; [done|]. split; [done|].
  set (b8 := upd b7 0 0). assert (L8 : zlen b8 = zlen dst) by (unfold b8; rewrite zlen_upd; lia).
  assert (F8 : frame 0 1 b7 b8) by (apply frame_upd; lia).
  assert (E8 : slice b8 0 k = oaep_encode (slice label 0 label_len) k seed M).
  { rewrite slice_parts by lia. unfold oaep_encode. fold db mdb.
    rewrite (slice_frame b7 b8 1 _ _ _ F8), (slice_frame b7 b8 (1 + hash_size) _ _ _ F8), S7, S7' by lia.
    f_equal. f_equal. unfold b8. apply get_upd_eq. lia. }
  split.
  { eapply frame_trans; [exact F4|].
    eapply frame_trans; [eapply frame_weaken; [exact F5|lia..]|].
    eapply frame_trans; [eapply frame_weaken; [exact F6|lia..]|].
    eapply frame_trans; eapply frame_weaken; [exact F7|lia|lia|exact F8|lia|lia]. }
  split.
  - rewrite E8. unfold oaep_encode. fold db mdb. rewrite !byte_string_app. split; [by repeat constructor|].
    split; [|done]. apply xor_byte_string; [done|apply MGF1_bytes].
  - split; [rewrite <- S5, zlen_slice; lia|]. split; [|done]. unfold M. rewrite zlen_slice; lia.
Qed.
End Pad.

(** * Unpadding *)

Lemma xor_hash_data_ok b o label len : 0 <= o -> o + hash_size <= zlen b -> 0 <= len <= zlen label ->
  bytes label 0 len ->
  ok (xor_hash_data b o label len) (fun d => xored b d o hash_size (digest (slice label 0 len))).
Proof.
  intros Ho Hb Hl HB. pose proof hash_size_pos as Hh. unfold xor_hash_data. cstep.
  eapply ok_mono; [apply hash_init_ok, hash_auto_ok|]. intros c1 R1. cstep.
  eapply ok_mono; [apply (hash_update_ok c1 [] label 0 len R1); done || lia|]. intros c2 R2. cstep.
  eapply ok_mono; [apply (hash_out_ok c2 _ (replicate 64 0) 0 R2); rewrite ?length_replicate; lia|].
  intros t [Ft St]. cbv beta. pose proof (frame_len _ _ _ _ Ft) as Lt. rewrite length_replicate in Lt.
  cbn [app] in St. set (D := digest _) in *.
  apply (ok_for_up (fun u d => xored b d o u D)); [lia|apply xored_0| |done].
  intros u d Hu [F X]. pose proof (frame_len _ _ _ _ F). csteps.
  split; [split; [rewrite zlen_upd; lia|]|].
  - intros j Hj Hj'. rewrite get_upd_ne by lia. apply (frame_get _ _ _ _ _ F); lia.
  - intros i Hi. destruct (Z.eq_dec i u) as [->|].
    + rewrite get_upd_eq by lia. rewrite (frame_get _ _ _ _ _ F), <- St, get_slice by lia. done.
    + rewrite get_upd_ne by lia. apply X. lia.
Qed.

(** The test of a byte for zero. *)
Lemma nonzero_bit w : word 8 w -> u32 (w + 0xFF) >> 8 = b2z (negb (w =? 0)).
Proof.
  intros Hw. unfold word in Hw. rewrite u32_small, shr_div by (unfold word; lia).
  destruct (Z.eqb_spec w 0); cbn [negb b2z]; zn.
Qed.

(** What the scan has found from [lo] to [u]: [z] zeros, and the first nonzero
    byte if there is one. *)
Definition zeros (b : list Z) (lo u : Z) : Prop := forall i, lo <= i < u -> get b i = 0.
Inductive scanned (b : list Z) (lo u : Z) : Z * Z * Z -> Prop :=
  | scan_bad : get b 0 <> 0 -> scanned b lo u (0, 0, 0)
  | scan_zeros : get b 0 = 0 -> zeros b lo u -> scanned b lo u (1, 0, u - lo)
  | scan_found j : get b 0 = 0 -> zeros b lo j -> lo <= j < u -> get b j <> 0 ->
      scanned b lo u (0, b2z (get b j =? 1), j - lo).

Lemma unpad_step_ok b lo u st : 0 <= lo <= u -> u < zlen b -> u < 2 ^ 32 - 1 -> word 8 (get b u) ->
  scanned b lo u st -> ok (unpad_step b u st) (scanned b lo (u + 1)).
Proof.
  intros Hlo Hu Hk Hw Hst. assert (Hw' : word 32 (get b u)) by (unfold word in *; lia).
  unfold unpad_step. destruct st as [[r s] z].
  cstep. cstep. cbv zeta. rewrite nonzero_bit, EQ_spec by (done || (unfold word; lia)).
  cstep. set (w := get b u) in *. inversion Hst as [HB|HB HZ|j HB HZ Hj Hn]; subst.
  - rewrite !Z.land_0_l, Z.lor_0_l, u32_small by (unfold word; lia). by apply scan_bad.
  - destruct (Z.eqb_spec w 0) as [E|E]; cbn [negb b2z].
    + replace (1 .& NOT (1 .& 0)) with 1 by done. rewrite Z.land_0_r, Z.land_0_l, Z.lor_0_l.
      rewrite u32_small by (unfold word; lia). replace (u - lo + 1) with (u + 1 - lo) by lia.
      apply scan_zeros; [done|]. intros i Hi. destruct (Z.eq_dec i u) as [->|]; [done|apply HZ; lia].
    + replace (1 .& NOT (1 .& 1)) with 0 by done. rewrite Z.lor_0_l, Z.add_0_r.
      rewrite u32_small by (unfold word; lia).
      replace (1 .& 1 .& b2z (w =? 1)) with (b2z (w =? 1)) by (by destruct (w =? 1)).
      apply (scan_found b lo (u + 1) u); done || lia.
  - rewrite !Z.land_0_l, Z.lor_0_r, Z.add_0_r, u32_small by (unfold word; lia).
    apply (scan_found b lo (u + 1) j); done || lia.
Qed.

Lemma bytes_write a b k lo n : bytes a 0 k -> frame lo (lo + n) a b -> 0 <= lo -> 0 <= n ->
  lo + n <= zlen b -> byte_string (slice b lo n) -> bytes b 0 k.
Proof.
  intros HB HF Hlo Hn Hl HS' i Hi. destruct (decide (lo <= i < lo + n)) as [Hi'|Hi'].
  - apply bytes_get in HS'. rewrite zlen_slice in HS' by lia. replace i with (lo + (i - lo)) by lia.
    rewrite <- (get_slice b lo n) by lia. apply HS'. lia.
  - rewrite (frame_get _ _ _ _ _ HF) by lia. by apply HB.
Qed.

(** What the scan looks for, once the hash of the label is XORed in. *)
Lemma block_scan d2 d3 label M k :
  zlen M + 2 * hash_size + 2 <= k <= zlen d2 -> xored d2 d3 (1 + hash_size) hash_size (digest label) ->
  let j := k - 1 - zlen M in
  (slice d2 (1 + hash_size) (k - hash_size - 1) = oaep_db label M k <->
   zeros d3 (hash_size + 1) j /\ get d3 j = 1 /\ M = slice d3 (j + 1) (zlen M)).
Proof.
  intros Hk [HF HX]. pose proof hash_size_pos as Hh. pose proof (frame_len _ _ _ _ HF) as HL. cbv zeta.
  assert (HG : forall i, hash_size <= i < k - hash_size - 1 -> get d3 (1 + hash_size + i) = get d2 (1 + hash_size + i))
    by (intros i Hi; apply (frame_get _ _ _ _ _ HF); lia).
  split.
  - intros HE. assert (HD : forall i, 0 <= i < k - hash_size - 1 -> get d2 (1 + hash_size + i) = get (oaep_db label M k) i)
      by (intros i Hi; rewrite <- HE, get_slice by lia; done).
    split; [|split].
    + intros i Hi. replace i with (1 + hash_size + (i - hash_size - 1)) by lia.
      destruct (Z.lt_ge_cases (i - hash_size - 1) hash_size).
      * rewrite HX, HD, get_db by lia. rewrite (proj2 (Z.ltb_lt _ _)) by lia. apply Z.lxor_nilpotent.
      * rewrite HG, HD, get_db by lia. rewrite (proj2 (Z.ltb_ge _ _)), (proj2 (Z.ltb_lt _ _)) by lia. done.
    + replace (k - 1 - zlen M) with (1 + hash_size + (k - hash_size - 2 - zlen M)) by lia.
      rewrite HG, HD, get_db by lia. rewrite !(proj2 (Z.ltb_ge _ _)), Z.eqb_refl by lia. done.
    + apply list_eq_get; rewrite ?zlen_slice by lia; [done|]. intros i Hi. rewrite get_slice by lia.
      replace (k - 1 - zlen M + 1 + i) with (1 + hash_size + (k - hash_size - 1 - zlen M + i)) by lia.
      rewrite HG, HD, get_db by lia. rewrite !(proj2 (Z.ltb_ge _ _)), (proj2 (Z.eqb_neq _ _)) by lia.
      f_equal. lia.
  - intros (HZ & H1 & HM). apply list_eq_get; [rewrite zlen_slice, zlen_db; lia|]. rewrite zlen_slice by lia.
    intros i Hi. rewrite get_slice, get_db by lia. destruct (Z.ltb_spec i hash_size).
    { specialize (HX i ltac:(lia)). rewrite HZ in HX by lia. symmetry in HX. by apply Z.lxor_eq in HX. }
    rewrite <- HG by lia. destruct (Z.ltb_spec i (k - hash_size - 2 - zlen M)); [apply HZ; lia|].
    destruct (Z.eqb_spec i (k - hash_size - 2 - zlen M)); [rewrite <- H1; f_equal; lia|].
    rewrite HM at 1. rewrite get_slice by lia. f_equal. lia.
Qed.

Lemma slice_slice a k o n : 0 <= o -> 0 <= n -> o + n <= k <= zlen a -> slice (slice a 0 k) o n = slice a o n.
Proof.
  intros Ho Hn Hk. pose proof (zlen_slice a 0 k ltac:(lia) ltac:(lia) ltac:(lia)) as HL.
  apply list_eq_get; rewrite !zlen_slice by lia; [done|]. intros i Hi. rewrite !get_slice by lia. done.
Qed.

(** The scan decides whether there is a message. *)
Lemma scan_decides d2 d3 em label k st : zlen em = k -> 2 * hash_size + 2 <= k <= zlen d2 -> k < 2 ^ 32 ->
  get d3 0 = get em 0 -> slice d2 (1 + hash_size) (k - hash_size - 1) = unmask_db em k ->
  xored d2 d3 (1 + hash_size) hash_size (digest label) -> scanned d3 (hash_size + 1) k st ->
  let '(_, s, z) := st in
  let M := slice d3 (2 + hash_size + z) (k - (2 + hash_size + z)) in
  (s .& GE z (u32 hash_size) = 1 /\ 0 <= 2 + hash_size + z <= k /\ oaep_encodes label k (unmask_seed em k) M em) \/
  (s .& GE z (u32 hash_size) = 0 /\ ~ exists seed M, oaep_encodes label k seed M em).
Proof.
  intros He Hk Hk' H0 HD HX Hst. pose proof hash_size_pos as Hh. pose proof (frame_len _ _ _ _ (proj1 HX)) as HL.
  rewrite u32_small by (unfold word; lia).
  assert (HN : forall seed M, oaep_encodes label k seed M em -> get d3 0 = 0 /\ exists j, hash_size + 1 + hash_size <= j < k /\
      zeros d3 (hash_size + 1) j /\ get d3 j = 1).
  { intros seed M HE. apply encodes_unmask in HE as (E0 & HM & _ & ED); [|done|lia].
    split; [by rewrite H0|]. rewrite <- HD in ED. apply (block_scan d2 d3) in ED as (HZ & H1 & _); [|lia|done].
    exists (k - 1 - zlen M). split; [lia|done]. }
  destruct Hst as [HB|HB HZ|j HB HZ Hj Hn].
  - right. split; [done|]. intros (seed & M & HE). by apply HN in HE as [? _].
  - right. split; [done|]. intros (seed & M & HE). apply HN in HE as (_ & j & Hj & _ & H1). rewrite HZ in H1 by lia. done.
  - rewrite GE_spec, b2z_land by (unfold word; lia).
    replace (2 + hash_size + (j - (hash_size + 1))) with (j + 1) by lia. set (M := slice d3 _ _).
    assert (LM : zlen M = k - (j + 1)) by (unfold M; rewrite zlen_slice; lia).
    destruct (Z.eqb_spec (get d3 j) 1) as [E1|E1]; cbn [andb b2z];
      [destruct (Z.leb_spec hash_size (j - (hash_size + 1))) as [Hz|Hz]; cbn [b2z]|].
    + left. split; [done|]. split; [lia|]. apply encodes_unmask; [done|lia|]. rewrite <- H0, <- HD.
      split; [done|]. split; [lia|]. split; [done|].
      apply (block_scan d2 d3); [lia|done|]. replace (k - 1 - zlen M) with j by lia.
      split; [done|]. split; [done|]. unfold M at 1. f_equal. lia.
    + right. split; [done|]. intros (seed & M' & HE). apply HN in HE as (_ & j' & Hj' & HZ' & _).
      apply Hn, HZ'. lia.
    + right. split; [done|]. intros (seed & M' & HE). apply HN in HE as (_ & j' & Hj' & HZ' & H1).
      destruct (Z.lt_trichotomy j j') as [|[->|]]; [by apply Hn, HZ'; lia|done|rewrite HZ in H1 by lia; done].
Qed.

Lemma br_rsa_oaep_unpad_ok label label_len data k :
  0 <= label_len <= zlen label -> bytes label 0 label_len -> 0 <= k <= zlen data -> k < 2 ^ 32 ->
  bytes data 0 k ->
  let lab := slice label 0 label_len in
  let em := slice data 0 k in
  ok (br_rsa_oaep_unpad label label_len data k) (fun '(s, d, len) => frame 0 k data d /\
    ((s = 1 /\ exists seed M, oaep_encodes lab k seed M em /\ len = zlen M /\ slice d 0 len = M) \/
     (s = 0 /\ len = k /\ ~ exists seed M, oaep_encodes lab k seed M em))).
Proof.
  intros Hll HBl Hk Hk' HB lab em. pose proof hash_size_pos as Hh.
  unfold br_rsa_oaep_unpad. cbv zeta. assert (ESH : hash_size << 1 = 2 * hash_size) by (rewrite shl_mul by lia; lia).
  rewrite ESH. cstep.
  { apply Z.ltb_lt in H. cstep. split; [apply frame_refl|]. right. split; [done|]. split; [done|].
    intros (seed & M & _ & HM & _). lia. }
  apply Z.ltb_ge in H.
  assert (Lem : zlen em = k) by (apply zlen_slice; lia).
  assert (Bem : forall o n, 0 <= o -> 0 <= n -> o + n <= k -> byte_string (slice data o n)).
  { intros. apply byte_string_slice; try lia. apply (limbs_sub 8 _ 0 k); [done|lia..]. }
  cstep. eapply ok_mono.
  { apply (mgf1_slice_ok data 1 hash_size _ _ (slice em (1 + hash_size) (k - hash_size - 1))); try lia;
      unfold em; rewrite slice_slice by lia; [done|apply Bem; lia]. }
  intros d1 [F1 S1]. pose proof (frame_len _ _ _ _ F1) as L1.
  rewrite <- (slice_slice data k 1) in S1 by lia. fold em (unmask_seed em k) in S1.
  assert (Bs : byte_string (unmask_seed em k)).
  { apply xor_byte_string; [|apply MGF1_bytes]. unfold em. rewrite slice_slice by lia. apply Bem; lia. }
  cstep. eapply ok_mono; [apply (mgf1_slice_ok d1 _ _ 1 hash_size (unmask_seed em k)); done || lia|].
  intros d2 [F2 S2]. pose proof (frame_len _ _ _ _ F2) as L2.
  rewrite (slice_frame data d1 (1 + hash_size) _ _ _ F1) in S2 by lia.
  rewrite <- (slice_slice data k (1 + hash_size)) in S2 by lia. fold em (unmask_db em k) in S2.
  cstep. eapply ok_mono; [apply xor_hash_data_ok; done || lia|]. fold lab. intros d3 X3.
  pose proof (frame_len _ _ _ _ (proj1 X3)) as L3.
  assert (F3 : frame 0 k data d3).
  { eapply frame_trans; [eapply frame_weaken; [exact F1|lia..]|].
    eapply frame_trans; eapply frame_weaken; [exact F2|lia|lia|exact (proj1 X3)|lia|lia]. }
  assert (G3 : get d3 0 = get data 0).
  { rewrite (frame_get _ _ _ _ _ (proj1 X3)), (frame_get _ _ _ _ _ F2), (frame_get _ _ _ _ _ F1) by lia. done. }
  assert (Bd : byte_string (unmask_db em k)).
  { apply xor_byte_string; [|apply MGF1_bytes]. unfold em. rewrite slice_slice by lia. apply Bem; lia. }
  assert (B3 : bytes d3 0 k).
  { apply (xored_bytes d2 d3 (1 + hash_size) hash_size (digest lab)); try done; try lia.
    - intros i Hi. apply (proj1 (bytes_get _) (digest_bytes lab)). rewrite digest_len. lia.
    - apply (bytes_write d1 d2 k (1 + hash_size) (k - hash_size - 1)); try done; try lia; [|by rewrite S2].
      apply (bytes_write data d1 k 1 hash_size); try done; try lia. by rewrite S1. }
  pose proof (B3 0 ltac:(lia)) as B0. rewrite G3 in B0. cstep. cstep. rewrite G3, nonzero_bit by done.
  set (r0 := u32 (1 - _)). assert (S0 : scanned d3 (hash_size + 1) (hash_size + 1) (r0, 0, 0)).
  { unfold r0. destruct (Z.eqb_spec (get data 0) 0) as [E|E]; cbn [negb b2z].
    - replace 0 with (hash_size + 1 - (hash_size + 1)) at 3 by lia. apply scan_zeros; [by rewrite G3|].
      intros i Hi. lia.
    - apply scan_bad. by rewrite G3. }
  clearbody r0. cstep. apply (ok_for_up (scanned d3 (hash_size + 1))); [lia|done| |].
  { intros i st Hi Hst. apply unpad_step_ok; try done; try lia. apply B3. lia. }
  intros st Hst. pose proof (scan_decides d2 d3 em lab k st Lem ltac:(lia) Hk'
    ltac:(rewrite G3; unfold em; rewrite get_slice by lia; done) S2 X3 Hst) as HS'.
  destruct st as [[r s] z]. cbv zeta beta iota in HS' |- *.
  destruct HS' as [(-> & Hz & HE)|(-> & HN)]; cstep; try done.
  - cbv zeta. cstep. apply ok_memcpy; [lia..|]. cstep. split.
    + eapply frame_trans; [exact F3|eapply frame_weaken; [apply frame_blit; lia|lia..]].
    + left. split; [done|]. eexists _, _. split; [exact HE|]. split; [by rewrite zlen_slice by lia|].
      apply slice_blit_in; lia.
  - cstep. split; [done|]. by right.
Qed.
End Spec.
