(* ===== verification/RsaOaep.v ===== *)
(** RSAES-OAEP encryption and decryption, [src/rsa/rsa_i31_oaep_encrypt.c] and
    [src/rsa/rsa_i31_oaep_decrypt.c], and the decryption of the premaster secret
    of TLS, [src/rsa/rsa_ssl_decrypt.c]. *)
From stdpp Require Import base tactics list numbers option.
From Stdlib Require Import ZArith Lia.
From S2P Require Import Prelude CtPrims Limbs Codec Hash Md5 Prng HmacDrbg Mgf1 RsaPub RsaPriv RsaKeys Oaep.
Local Open Scope Z_scope.
Local Open Scope cword_scope.

(** * Code *)

Section Code.
Context {HC : HashClass}.

Definition br_rsa_i31_oaep_encrypt {PC : PrngClass} (rnd : prng_ctx) (label : list Z) (label_len : Z)
    (pk : br_rsa_public_key) (dst : list Z) (dst_max_len : Z) (src : list Z) (so src_len : Z)
    (tmp : list Z) : M (Z * prng_ctx * list Z) :=
  '(dlen, rnd, dst) ← br_rsa_oaep_pad rnd label label_len pk dst dst_max_len src so src_len;
  If dlen =? 0 Then mret (0, rnd, dst) Else
  '(r, dst) ← br_rsa_i31_public dst dlen pk tmp;
  mret (dlen .& u64 (- r), rnd, dst).

Definition br_rsa_i31_oaep_decrypt (label : list Z) (label_len : Z) (sk : br_rsa_private_key)
    (data : list Z) (len : Z) (tmp : list Z) : M (Z * list Z * Z) :=
  If negb (len =? u32 (sk_n_bitlen sk + 7) >> 3) Then mret (0, data, len) Else
  '(r, data) ← br_rsa_i31_private data sk tmp;
  '(s, data, len) ← br_rsa_oaep_unpad label label_len data len;
  mret (r .& s, data, len).
End Code.

(** * Encryption *)

Section Spec.
Context {HC : HashClass} {HS : HashSpec HC} {PC : PrngClass} {PS : PrngSpec PC}.

(** The last byte of an odd modulus is not zero. *)
Lemma odd_last_byte a n : 0 < n -> Z.odd (vbe a 0 n) = true -> get a (n - 1) <> 0.
Proof.
  intros Hn HO HZ. replace n with (n - 1 + 1) in HO by lia.
  rewrite vbe_succ, Z.add_0_l, HZ, Z.add_0_r in HO by lia. rewrite Z.odd_mul in HO. by rewrite andb_false_r in HO.
Qed.

Lemma mask_length k r : word 64 k -> k .& u64 (- b2z r) = if r then k else 0.
Proof.
  intros Hk. destruct r; cbn [b2z].
  - transitivity (k mod 2 ^ 64); [by apply (land_mask k 64)|by apply Z.mod_small].
  - apply Z.land_0_r.
Qed.

Section Key.
Context (label : list Z) (label_len : Z).
Context (Hlab : 0 <= label_len <= zlen label) (Blab : bytes label 0 label_len).
Let lab := slice label 0 label_len.

Lemma oaep_encrypt_ok rnd S pk N E dst dst_max_len src so src_len tmp :
  prng_rep rnd S -> public_key pk N E -> pk_nlen pk < 2 ^ 64 -> dst_max_len <= zlen dst -> 0 <= so ->
  0 <= src_len -> so + src_len <= zlen src -> bytes src so src_len -> zlen tmp = 1 + pub_TLEN ->
  let k := pk_nlen pk in
  ok (br_rsa_i31_oaep_encrypt rnd label label_len pk dst dst_max_len src so src_len tmp)
    (fun '(r, rnd', dst') => frame 0 k dst dst' /\
    if (src_len + 2 * hash_size + 2 <=? k) && (k <=? dst_max_len) && (k =? byte_len N) && (k <=? 512)
    then r = k /\ prng_rep rnd' (prng_next S hash_size).1 /\ bytes dst' 0 k /\ exists em,
      oaep_encodes lab k (prng_next S hash_size).2 (slice src so src_len) em /\ byte_string em /\
      zlen em = k /\ vbe em 0 k < N /\ vbe dst' 0 k = vbe em 0 k ^ E mod N
    else r = 0).
Proof.
  intros HR HP Hk Hd Hso Hsl Hs HB Ht k. pose proof HP as [P1 P2 P3 P4 P5 P6 P7 P8 P9].
  pose proof hash_size_pos as Hh. fold k in Hk, P1, P2, P3.
  assert (Hn : 0 < k -> get (pk_n pk) (k - 1) <> 0) by (intros; apply odd_last_byte; [done|by rewrite P3]).
  unfold br_rsa_i31_oaep_encrypt. cstep.
  eapply ok_mono; [apply (br_rsa_oaep_pad_ok rnd S label label_len pk k dst dst_max_len src so src_len); done || lia|].
  intros [[r rnd'] d1] H. cbv beta iota.
  destruct ((src_len + 2 * hash_size + 2 <=? k) && (k <=? dst_max_len)) eqn:EC; cbn [andb].
  2:{ destruct H as (-> & -> & ->). cstep; [|done]. cstep. split; [apply frame_refl|done]. }
  apply andb_true_iff in EC as [E1 E2]. apply Z.leb_le in E1, E2.
  destruct H as (-> & HR' & F1 & B1 & HE). pose proof (frame_len _ _ _ _ F1) as L1.
  cstep; [apply Z.eqb_eq in H; lia|]. clear H. fold lab in HE. set (em := slice d1 0 k) in *.
  assert (Lem : zlen em = k) by (apply zlen_slice; lia).
  assert (Bd : bytes d1 0 k) by (eapply bytes_of_slice; [|reflexivity|exact B1]; lia).
  assert (Vem : vbe em 0 k = vbe d1 0 k) by (apply slice_vbe; [lia|done]).
  cstep. eapply ok_mono; [apply (br_rsa_i31_public_ok pk N E HP d1 k tmp); done || lia|].
  intros [r d2] H2. cbv beta iota. cstep.
  replace ((k =? byte_len N) && (byte_len N <=? 512)) with ((k =? byte_len N) && (k <=? 512)) in H2
    by (by destruct (Z.eqb_spec k (byte_len N)) as [->|]).
  destruct (Z.eqb_spec k (byte_len N)) as [EN|]; cbn [andb] in H2 |- *;
    [|destruct H2 as (-> & ->); split; [done|apply Z.land_0_r]].
  destruct (k <=? 512) eqn:E5; [|destruct H2 as (-> & ->); split; [done|apply Z.land_0_r]].
  destruct H2 as (-> & F2 & B2 & V2). split; [by eapply frame_trans|].
  assert (G0 : get d1 0 = 0).
  { pose proof HE as (_ & _ & HE'). pose proof (get_slice d1 0 k 0 ltac:(lia) ltac:(lia)) as G.
    fold em in G. by rewrite HE' in G. }
  assert (HV : vbe d1 0 k < N) by (rewrite EN in *; by apply below_modulus).
  rewrite mask_length by (unfold word; lia). rewrite (proj2 (Z.ltb_lt _ _) HV) in V2 |- *.
  split; [done|]. split; [done|]. split; [done|]. exists em. rewrite Vem. done.
Qed.

(** * Decryption *)

Lemma oaep_decrypt_ok sk p q dp dq data len tmp :
  private_key sk p q dp dq -> 6 * priv_fwlen p q <= priv_TLEN -> byte_len (p * q) < 2 ^ 28 ->
  byte_len (p * q) <= zlen data -> bytes data 0 (byte_len (p * q)) -> zlen tmp = 1 + priv_TLEN ->
  let k := byte_len (p * q) in
  let C := vbe data 0 k in
  ok (br_rsa_i31_oaep_decrypt label label_len sk data len tmp) (fun '(r, d, len') =>
    if len =? k
    then frame 0 k data d /\ exists em, recovered p q dp dq C k em /\
      ((r = 1 /\ C < p * q /\ exists seed M, oaep_encodes lab k seed M em /\ len' = zlen M /\ slice d 0 len' = M) \/
       (r = 0 /\ (p * q <= C \/ ~ exists seed M, oaep_encodes lab k seed M em)))
    else r = 0 /\ d = data /\ len' = len).
Proof.
  intros HSK Hfw Hk28 Hd HB Ht k C. unfold br_rsa_i31_oaep_decrypt.
  pose proof (priv_p _ _ _ _ _ HSK) as (Hp & _). pose proof (priv_q _ _ _ _ _ HSK) as (Hq & _).
  assert (Hk : 0 <= k) by (unfold k, byte_len; pose proof (bitlen_nonneg (p * q)); zn).
  assert (EK : u32 (sk_n_bitlen sk + 7) >> 3 = k).
  { rewrite (priv_bits _ _ _ _ _ HSK), shr_div by lia. unfold k, byte_len in *. pose proof (bitlen_nonneg (p * q)).
    rewrite u32_small; [done|]. unfold word. zn. }
  rewrite EK. cstep.
  { cstep. apply negb_true_iff in H. by rewrite H. }
  apply negb_false_iff in H. rewrite H. apply Z.eqb_eq in H. subst len.
  cstep. eapply ok_mono; [apply (br_rsa_i31_private_ok sk p q dp dq HSK data tmp); done|].
  cbv zeta. fold k C. rewrite (proj2 (Z.leb_le _ _) Hfw). intros [r d1] (-> & F1 & B1 & R1 & P1 & Q1).
  cbv beta iota. pose proof (frame_len _ _ _ _ F1) as L1. cstep.
  eapply ok_mono; [apply (br_rsa_oaep_unpad_ok label label_len d1 k); done || lia|].
  cbv zeta. fold lab. set (em := slice d1 0 k). intros [[s d2] len'] [F2 HU]. cbv beta iota. cstep.
  split; [by eapply frame_trans|]. exists em.
  assert (Vem : vbe em 0 k = vbe d1 0 k) by (apply slice_vbe; [lia|done]).
  split; [split; rewrite ?Vem; try done; [apply zlen_slice; lia|apply byte_string_slice; done || lia]|].
  destruct HU as [(-> & seed & M & HE & -> & HM)|(-> & -> & HN)].
  - destruct (Z.ltb_spec C (p * q)); cbn [b2z]; [left|right]; (split; [done|]).
    + split; [done|]. by exists seed, M.
    + by left.
  - right. split; [apply Z.land_0_r|by right].
Qed.
End Key.

(** A block encodes one message. *)
Lemma encodes_inj label k seed seed' M M' em : zlen em = k -> oaep_encodes label k seed M em ->
  oaep_encodes label k seed' M' em -> M = M'.
Proof.
  intros He H1 H2. pose proof hash_size_pos as Hh. assert (Hk : 2 * hash_size + 2 <= k) by (destruct H1 as (_ & ? & _); lia).
  apply encodes_unmask in H1 as (_ & HM & _ & E1), H2 as (_ & HM' & _ & E2); [|done|lia|done|lia].
  rewrite E1 in E2. assert (HL : zlen M = zlen M').
  { assert (G : forall i, get (oaep_db label M k) i = get (oaep_db label M' k) i) by (intros; by rewrite E2).
    destruct (Z.lt_trichotomy (zlen M) (zlen M')) as [Hl|[|Hl]]; [exfalso|done|exfalso].
    - specialize (G (k - hash_size - 2 - zlen M')). rewrite !get_db in G by lia.
      rewrite (proj2 (Z.ltb_ge _ _)), (proj2 (Z.ltb_lt _ _)), (proj2 (Z.ltb_ge _ _)), Z.eqb_refl in G by lia. done.
    - specialize (G (k - hash_size - 2 - zlen M)). rewrite !get_db in G by lia.
      rewrite !(proj2 (Z.ltb_ge _ hash_size)), (proj2 (Z.ltb_ge _ (k - hash_size - 2 - zlen M))) in G by lia.
      rewrite Z.eqb_refl, (proj2 (Z.ltb_lt _ _)) in G by lia. done. }
  unfold oaep_db in E2. rewrite HL in E2. by simplify_list_eq.
Qed.
End Spec.

(** * Properties *)

Section Properties.
Context {HC : HashClass} {HS : HashSpec HC} {PC : PrngClass} {PS : PrngSpec PC}.

(** [br_rsa_i31_oaep_encrypt] returns the length of the modulus and leaves
    the RSA power of an OAEP block of the message, with the seed the generator
    gives, exactly when the message and the modulus fit and the modulus is
    stored without leading zero bytes; otherwise it returns 0. *)
Theorem br_rsa_i31_oaep_encrypt_correct rnd S label label_len pk N E dst dst_max_len src so src_len tmp :
  prng_rep rnd S -> 0 <= label_len <= zlen label -> bytes label 0 label_len ->
  public_key pk N E -> pk_nlen pk < 2 ^ 64 -> dst_max_len <= zlen dst -> 0 <= so ->
  0 <= src_len -> so + src_len <= zlen src -> bytes src so src_len -> zlen tmp = 1 + pub_TLEN ->
  let k := pk_nlen pk in
  ok (br_rsa_i31_oaep_encrypt rnd label label_len pk dst dst_max_len src so src_len tmp)
    (fun '(r, rnd', dst') => frame 0 k dst dst' /\
    if (src_len + 2 * hash_size + 2 <=? k) && (k <=? dst_max_len) && (k =? byte_len N) && (k <=? 512)
    then r = k /\ prng_rep rnd' (prng_next S hash_size).1 /\ bytes dst' 0 k /\ exists em,
      oaep_encodes (slice label 0 label_len) k (prng_next S hash_size).2 (slice src so src_len) em /\
      byte_string em /\ zlen em = k /\ vbe em 0 k < N /\ vbe dst' 0 k = vbe em 0 k ^ E mod N
    else r = 0).
Proof. intros. by apply (oaep_encrypt_ok label label_len H0 H1 rnd S pk N E). Qed.

(** [C35] [br_rsa_i31_oaep_decrypt] refuses an input that has not the length of
    the modulus; otherwise it returns 1 exactly when the input is below the
    modulus and the block recovered from it encodes a message for this label,
    and then it leaves this message and its length. *)
Theorem br_rsa_i31_oaep_decrypt_correct label label_len sk p q dp dq data len tmp :
  0 <= label_len <= zlen label -> bytes label 0 label_len ->
  private_key sk p q dp dq -> 6 * priv_fwlen p q <= priv_TLEN -> byte_len (p * q) < 2 ^ 28 ->
  byte_len (p * q) <= zlen data -> bytes data 0 (byte_len (p * q)) -> zlen tmp = 1 + priv_TLEN ->
  let k := byte_len (p * q) in
  let C := vbe data 0 k in
  let lab := slice label 0 label_len in
  ok (br_rsa_i31_oaep_decrypt label label_len sk data len tmp) (fun '(r, d, len') =>
    if len =? k
    then frame 0 k data d /\ exists em, recovered p q dp dq C k em /\
      ((r = 1 /\ C < p * q /\ exists seed M, oaep_encodes lab k seed M em /\ len' = zlen M /\ slice d 0 len' = M) \/
       (r = 0 /\ (p * q <= C \/ ~ exists seed M, oaep_encodes lab k seed M em)))
    else r = 0 /\ d = data /\ len' = len).
Proof. intros. by apply (oaep_decrypt_ok label label_len H H0 sk p q dp dq). Qed.

(** [C27] What [br_rsa_i31_oaep_encrypt] produces for a pair of keys,
    [br_rsa_i31_oaep_decrypt] turns back into the message: for every hash
    function, every label, every generator and every message that fits. *)
Theorem br_rsa_i31_oaep_roundtrip rnd S label label_len sk pk p q dp dq E dst dst_max_len src so src_len tmp tmp' :
  key_pair sk pk p q dp dq E -> pk_nlen pk = byte_len (p * q) -> prng_rep rnd S ->
  0 <= label_len <= zlen label -> bytes label 0 label_len ->
  0 <= so -> 0 <= src_len -> so + src_len <= zlen src -> bytes src so src_len ->
  src_len + 2 * hash_size + 2 <= byte_len (p * q) <= dst_max_len -> dst_max_len <= zlen dst ->
  zlen tmp = 1 + pub_TLEN -> zlen tmp' = 1 + priv_TLEN ->
  ok ('(n, _, c) ← br_rsa_i31_oaep_encrypt rnd label label_len pk dst dst_max_len src so src_len tmp;
      '(r, d, len) ← br_rsa_i31_oaep_decrypt label label_len sk c n tmp';
      mret (n, r, d, len))
    (fun '(n, r, d, len) => n = byte_len (p * q) /\ r = 1 /\ len = src_len /\
      slice d 0 len = slice src so src_len).
Proof.
  intros HK EN HR Hl Bl Hso Hsl Hs Bs [Hfit Hmax] Hd Ht Ht'.
  pose proof HK as [HSK HPK _ _ _ _ [Hz1 Hz2]]. cstep.
  eapply ok_mono; [apply (oaep_encrypt_ok label label_len Hl Bl rnd S pk (p * q) E); done || lia|].
  cbv zeta. rewrite EN, Z.eqb_refl, !(proj2 (Z.leb_le _ _)) by lia. cbn [andb].
  intros [[n rnd'] c] (F1 & -> & _ & B1 & em & HE & Bem & Lem & Vem & VC). cbv beta iota.
  pose proof (frame_len _ _ _ _ F1) as L1. cstep.
  eapply ok_mono; [apply (oaep_decrypt_ok label label_len Hl Bl sk p q dp dq c _ tmp' HSK); done || lia|].
  cbv zeta. rewrite Z.eqb_refl, VC. set (k := byte_len (p * q)) in *.
  intros [[r d] len] (F2 & em' & [Lem' Bem' Rem' Pem' Qem'] & HD). cbv beta iota. cstep.
  assert (Hem0 : 0 <= vbe em 0 k < p * q).
  { split; [|done]. apply vbe_bound; [lia|]. apply bytes_get in Bem. by rewrite Lem in Bem. }
  assert (EM : em' = em).
  { apply (recovered_eq em' em k); try done. by apply (pair_inverse_pub sk pk p q dp dq E HK). }
  subst em'. pose proof (pub_gt1 _ _ _ HPK).
  pose proof (Z.mod_pos_bound (vbe em 0 k ^ E) (p * q) ltac:(lia)).
  split; [done|]. destruct HD as [(-> & _ & seed & M & HE' & -> & HM)|(-> & [?|HN])]; [|lia|].
  - split; [done|]. assert (EM : M = slice src so src_len) by (eapply encodes_inj; eassumption).
    rewrite HM, EM. split; [|done]. apply zlen_slice; lia.
  - destruct HN. by eexists _, _.
Qed.
End Properties.

(** * Witnesses: MD5, the generator over MD5, and the pair of 512 bits *)

Definition test_rnd : drbg_ctx := DrbgCtx (replicate 64 3) (replicate 64 5).
Lemma test_rnd_rep : drbg_rep (HC:=br_md5_class) test_rnd (replicate 16 3, replicate 16 5).
Proof. split; split; try done; by apply Forall_replicate. Qed.

Lemma br_rsa_i31_oaep_roundtrip_witness :
  ok ('(n, _, c) ← br_rsa_i31_oaep_encrypt (HC:=br_md5_class) (PC:=drbg_class (HC:=br_md5_class))
        test_rnd [65; 66] 2 test_pk (replicate 70 0) 64 [1; 2; 3; 4; 5; 6; 7; 8; 9; 10; 11; 12] 0 12 (replicate 541 0);
      '(r, d, len) ← br_rsa_i31_oaep_decrypt (HC:=br_md5_class) [65; 66] 2 test_sk c n (replicate 561 0);
      mret (n, r, d, len))
    (fun '(n, r, d, len) => n = byte_len (test_p * test_q) /\ r = 1 /\ len = 12 /\
      slice d 0 len = slice [1; 2; 3; 4; 5; 6; 7; 8; 9; 10; 11; 12] 0 12).
Proof.
  apply (br_rsa_i31_oaep_roundtrip (HS:=br_md5_spec) (PS:=drbg_spec (HS:=br_md5_spec)) test_rnd
    (replicate 16 3, replicate 16 5) [65; 66] 2 test_sk test_pk test_p test_q test_dp test_dq test_E);
    first [exact test_pair|exact test_rnd_rep|by apply limbsb_limbs|by vm_compute].
Defined.

(** A modulus stored with a leading zero byte is refused. *)
Definition padded_pk : br_rsa_public_key := RsaPublicKey (0 :: pk_n test_pk) 65 [1; 0; 1] 3.
Lemma padded_public : public_key padded_pk (test_p * test_q) test_E.
Proof. by constructor; try done; apply limbsb_limbs. Qed.

Lemma br_rsa_i31_oaep_encrypt_correct_witness :
  ok (br_rsa_i31_oaep_encrypt (HC:=br_md5_class) (PC:=drbg_class (HC:=br_md5_class))
    test_rnd [] 0 padded_pk (replicate 70 0) 70 [1; 2; 3] 0 3 (replicate 541 0)) (fun '(r, _, _) => r = 0).
Proof.
  eapply ok_mono.
  - apply (br_rsa_i31_oaep_encrypt_correct (HS:=br_md5_spec) (PS:=drbg_spec (HS:=br_md5_spec)) test_rnd
      (replicate 16 3, replicate 16 5) [] 0 padded_pk (test_p * test_q) test_E);
      first [exact padded_public|exact test_rnd_rep|by apply limbsb_limbs|by vm_compute].
  - intros [[r rnd] d] [_ H]. exact H.
Defined.

Lemma br_rsa_i31_oaep_decrypt_correct_witness :
  ok (br_rsa_i31_oaep_decrypt (HC:=br_md5_class) [] 0 test_sk (replicate 64 1) 63 (replicate 561 0))
    (fun '(r, d, len) => r = 0 /\ d = replicate 64 1 /\ len = 63).
Proof.
  eapply ok_mono.
  - apply (br_rsa_i31_oaep_decrypt_correct (HS:=br_md5_spec) [] 0 test_sk test_p test_q test_dp test_dq);
      first [apply test_pair|by apply limbsb_limbs|by vm_compute].
  - intros [[r d] len] H. exact H.
Defined.
