(* ===== verification/LruCode.v ===== *)
(** The LRU session cache of the SSL server ([src/ssl/ssl_lru.c]): the code.

    The cache lives in one array of bytes, cut in entries of 100 bytes; an
    address is the offset of an entry, or [ADDR_NULL].  The entries are in a
    doubly linked list (most recent first) and in a binary search tree on the
    masked session identifiers. *)
From stdpp Require Import base tactics list numbers option.
From Stdlib Require Import ZArith Lia.
From S2P Require Import Prelude CtPrims Limbs Codec Hash Hmac Prng HmacDrbg.
Local Open Scope Z_scope.

Definition SESSION_ID_LEN : Z := 32.
Definition MASTER_SECRET_LEN : Z := 48.
Definition SESSION_ID_OFF : Z := 0.
Definition MASTER_SECRET_OFF : Z := 32.
Definition VERSION_OFF : Z := 80.
Definition CIPHER_SUITE_OFF : Z := 82.
Definition LIST_PREV_OFF : Z := 84.
Definition LIST_NEXT_OFF : Z := 88.
Definition TREE_LEFT_OFF : Z := 92.
Definition TREE_RIGHT_OFF : Z := 96.
Definition LRU_ENTRY_LEN : Z := 100.
Definition ADDR_NULL : Z := u32 (-1).

(** [br_ssl_session_parameters]; [session_id_len] is not used by the cache. *)
Record params := Params {
  session_id : list Z; version : Z; cipher_suite : Z; master_secret : list Z
}.

(** [br_ssl_session_cache_lru].  The field [hash] is not a field of the model:
    it is the hash function [HC] of the generator of the server, from the first
    [lru_save] on. *)
Record lru := Lru {
  lstore : list Z; store_len : Z; store_ptr : Z; index_key : list Z;
  init_done : bool; lhead : Z; ltail : Z; lroot : Z
}.

Definition with_store (cc : lru) (s : list Z) : lru :=
  Lru s (store_len cc) (store_ptr cc) (index_key cc) (init_done cc) (lhead cc) (ltail cc) (lroot cc).
Definition with_root (cc : lru) (x : Z) : lru :=
  Lru (lstore cc) (store_len cc) (store_ptr cc) (index_key cc) (init_done cc) (lhead cc) (ltail cc) x.
Definition with_head (cc : lru) (x : Z) : lru :=
  Lru (lstore cc) (store_len cc) (store_ptr cc) (index_key cc) (init_done cc) x (ltail cc) (lroot cc).
Definition with_tail (cc : lru) (x : Z) : lru :=
  Lru (lstore cc) (store_len cc) (store_ptr cc) (index_key cc) (init_done cc) (lhead cc) x (lroot cc).
Definition with_ptr (cc : lru) (p : Z) : lru :=
  Lru (lstore cc) (store_len cc) p (index_key cc) (init_done cc) (lhead cc) (ltail cc) (lroot cc).
Definition with_key (cc : lru) (k : list Z) : lru :=
  Lru (lstore cc) (store_len cc) (store_ptr cc) k true (lhead cc) (ltail cc) (lroot cc).

(** The four links of an entry, and the accessors that the macro [GETSET]
    generates for each. *)
Inductive field := Prev | Next | Left | Right.
#[export] Instance field_eq_dec : EqDecision field.
Proof. solve_decision. Defined.
Definition off (f : field) : Z :=
  match f with
  | Prev => LIST_PREV_OFF | Next => LIST_NEXT_OFF
  | Left => TREE_LEFT_OFF | Right => TREE_RIGHT_OFF
  end.
Definition get_field (f : field) (cc : lru) (x : Z) : M Z := br_dec32be (lstore cc) (x + off f).
Definition set_field (f : field) (cc : lru) (x val : Z) : M lru :=
  s ← br_enc32be (lstore cc) (x + off f) val;
  mret (with_store cc s).

(** The sign of [memcmp(a + ao, b + bo, n)], on bytes. *)
Fixpoint lex_cmp (a b : list Z) : comparison :=
  match a, b with
  | [], [] => Eq
  | [], _ :: _ => Lt
  | _ :: _, [] => Gt
  | x :: a, y :: b => match x ?= y with Eq => lex_cmp a b | r => r end
  end.
Definition memcmp (a : list Z) (ao : Z) (b : list Z) (bo n : Z) : M comparison :=
  if in_range a ao n && in_range b bo n
  then Some ([Mv ao bo n], lex_cmp (slice a ao n) (slice b bo n)) else None.

(** [find_node]: the address and the address of the last link followed.  The
    fuel is more than the number of entries. *)
Fixpoint find_loop (fuel : nat) (cc : lru) (id : list Z) (x y : Z) : M (Z * Z) :=
  match fuel with
  | O => None
  | S fuel =>
      If negb (x =? ADDR_NULL) Then
        r ← memcmp id 0 (lstore cc) (x + SESSION_ID_OFF) SESSION_ID_LEN;
        If bool_decide (r = Lt) Then
          let y := u32 (x + TREE_LEFT_OFF) in
          x ← get_field Left cc x;
          find_loop fuel cc id x y
        Else If bool_decide (r = Eq) Then mret (x, y)
        Else
          let y := u32 (x + TREE_RIGHT_OFF) in
          x ← get_field Right cc x;
          find_loop fuel cc id x y
      Else mret (ADDR_NULL, y)
  end.
Definition lru_fuel (cc : lru) : nat := S (Z.to_nat (store_len cc / LRU_ENTRY_LEN)).
Definition find_node (cc : lru) (id : list Z) : M (Z * Z) :=
  find_loop (lru_fuel cc) cc id (lroot cc) ADDR_NULL.

(** The inner loops of [find_replacement_node], which follow the links [f]. *)
Fixpoint spine_loop (fuel : nat) (f : field) (cc : lru) (y1 y2 : Z) : M (Z * Z) :=
  match fuel with
  | O => None
  | S fuel =>
      z ← get_field f cc y1;
      If z =? ADDR_NULL Then mret (y1, y2)
      Else spine_loop fuel f cc z (u32 (y1 + off f))
  end.
Definition find_replacement_node (cc : lru) (x : Z) : M (Z * Z) :=
  y1 ← get_field Left cc x;
  If negb (y1 =? ADDR_NULL) Then
    spine_loop (lru_fuel cc) Right cc y1 (u32 (x + TREE_LEFT_OFF))
  Else
    y1 ← get_field Right cc x;
    If negb (y1 =? ADDR_NULL) Then
      spine_loop (lru_fuel cc) Left cc y1 (u32 (x + TREE_RIGHT_OFF))
    Else mret (ADDR_NULL, ADDR_NULL).

Definition set_link (cc : lru) (alx x : Z) : M lru :=
  If alx =? ADDR_NULL Then mret (with_root cc x)
  Else s ← br_enc32be (lstore cc) alx x; mret (with_store cc s).

Definition remove_node (cc : lru) (x : Z) : M lru :=
  id ← region (lstore cc) (x + SESSION_ID_OFF) SESSION_ID_LEN;
  '(_, alx) ← find_node cc id;
  '(y, aly) ← find_replacement_node cc x;
  If negb (y =? ADDR_NULL) Then
    z ← get_field Left cc y;
    z ← (If z =? ADDR_NULL Then get_field Right cc y Else mret z);
    cc ← set_link cc aly z;
    cc ← set_link cc alx y;
    l ← get_field Left cc x;
    cc ← set_field Left cc y l;
    r ← get_field Right cc x;
    set_field Right cc y r
  Else set_link cc alx ADDR_NULL.

(** [lru_save]: the tail [x] leaves the list. *)
Definition lru_pop (cc : lru) (x : Z) : M lru :=
  p ← get_field Prev cc x;
  let cc := with_tail cc p in
  If ltail cc =? ADDR_NULL Then mret (with_head cc ADDR_NULL)
  Else set_field Next cc (ltail cc) ADDR_NULL.

(** [lru_save]: room for a new entry, by eviction of the tail of the list when
    the store is full. *)
Definition lru_room (cc : lru) : M (lru * Z) :=
  If store_len cc - LRU_ENTRY_LEN <? store_ptr cc Then
    let x := ltail cc in
    cc ← lru_pop cc x;
    cc ← remove_node cc x;
    mret (cc, x)
  Else
    let x := u32 (store_ptr cc) in
    mret (with_ptr cc (store_ptr cc + LRU_ENTRY_LEN), x).

(** [lru_save]: the new node [x] in the tree, then at the head of the list. *)
Definition lru_insert (cc : lru) (id : list Z) (x : Z) : M lru :=
  '(_, alx) ← find_node cc id;
  cc ← set_link cc alx x;
  cc ← set_field Left cc x ADDR_NULL;
  set_field Right cc x ADDR_NULL.
Definition lru_push (cc : lru) (x : Z) : M lru :=
  cc ← (If lhead cc =? ADDR_NULL Then mret (with_tail cc x)
        Else set_field Prev cc (lhead cc) x);
  cc ← set_field Prev cc x ADDR_NULL;
  cc ← set_field Next cc x (lhead cc);
  mret (with_head cc x).

(** [lru_save]: the data of the entry. *)
Definition lru_fill (cc : lru) (x : Z) (id : list Z) (p : params) : M lru :=
  s ← memcpy (lstore cc) (x + SESSION_ID_OFF) id 0 SESSION_ID_LEN;
  s ← memcpy s (x + MASTER_SECRET_OFF) (master_secret p) 0 MASTER_SECRET_LEN;
  s ← br_enc16be s (x + VERSION_OFF) (version p);
  s ← br_enc16be s (x + CIPHER_SUITE_OFF) (cipher_suite p);
  mret (with_store cc s).

(** [lru_load]: move of a node that is not the head of the list to the head. *)
Definition lru_move (cc : lru) (x : Z) : M lru :=
  p ← get_field Prev cc x;
  n ← get_field Next cc x;
  cc ← set_field Next cc p n;
  cc ← (If n =? ADDR_NULL Then mret (with_tail cc p) Else set_field Prev cc n p);
  cc ← set_field Prev cc (lhead cc) x;
  cc ← set_field Next cc x (lhead cc);
  cc ← set_field Prev cc x ADDR_NULL;
  mret (with_head cc x).

Section Code.
Context {HC : HashClass}.

(** The contexts of [mask_id] are automatic variables. *)
Definition mask_id (cc : lru) (src dst : list Z) : M (list Z) :=
  dst ← memcpy dst 0 src 0 SESSION_ID_LEN;
  hkc ← br_hmac_key_init auto_key (index_key cc) (zlen (index_key cc));
  hc ← br_hmac_init auto_hmac hkc SESSION_ID_LEN;
  hc ← br_hmac_update hc src 0 SESSION_ID_LEN;
  '(dst, _) ← br_hmac_out hc dst 0;
  mret dst.

(** The key of the index is drawn on the first call. *)
Definition lru_start (cc : lru) (rng : drbg_ctx) : M (lru * drbg_ctx) :=
  If negb (init_done cc) Then
    '(rng, k) ← br_hmac_drbg_generate rng (index_key cc) 0 (zlen (index_key cc));
    mret (with_key cc k, rng)
  Else mret (cc, rng).

Definition lru_save (cc : lru) (rng : drbg_ctx) (p : params) : M (lru * drbg_ctx) :=
  If store_len cc <? LRU_ENTRY_LEN Then mret (cc, rng) Else
  '(cc, rng) ← lru_start cc rng;
  id ← mask_id cc (session_id p) (replicate 32 0);
  '(f, _) ← find_node cc id;
  If negb (f =? ADDR_NULL) Then mret (cc, rng) Else
  '(cc, x) ← lru_room cc;
  cc ← lru_insert cc id x;
  cc ← lru_push cc x;
  cc ← lru_fill cc x id p;
  mret (cc, rng).

Definition lru_load (cc : lru) (p : params) : M (lru * params * Z) :=
  If negb (init_done cc) Then mret (cc, p, 0) Else
  id ← mask_id cc (session_id p) (replicate 32 0);
  '(x, _) ← find_node cc id;
  If negb (x =? ADDR_NULL) Then
    version ← br_dec16be (lstore cc) (x + VERSION_OFF);
    If version =? 0 Then mret (cc, p, 0) Else
    cipher_suite ← br_dec16be (lstore cc) (x + CIPHER_SUITE_OFF);
    ms ← memcpy (master_secret p) 0 (lstore cc) (x + MASTER_SECRET_OFF) MASTER_SECRET_LEN;
    cc ← (If negb (x =? lhead cc) Then lru_move cc x Else mret cc);
    mret (cc, Params (session_id p) version cipher_suite ms, 1)
  Else mret (cc, p, 0).

Definition br_ssl_session_cache_lru_init (cc : lru) (store : list Z) (store_len : Z) : lru :=
  Lru store store_len 0 (index_key cc) false ADDR_NULL ADDR_NULL ADDR_NULL.

Definition br_ssl_session_cache_lru_forget (cc : lru) (id : list Z) : M lru :=
  If negb (init_done cc) Then mret cc Else
  mid ← mask_id cc id (replicate 32 0);
  '(addr, _) ← find_node cc mid;
  If negb (addr =? ADDR_NULL) Then
    s ← br_enc16be (lstore cc) (addr + VERSION_OFF) 0;
    mret (with_store cc s)
  Else mret cc.
End Code.
