(* ===== verification/LruStore.v ===== *)
(** The LRU session cache: the store as a heap of entries.  [rep s m d]: the
    bytes [s] hold the links [m] and the data [d]; each access of the code to
    the store is an access to [m] or [d]. *)
From stdpp Require Import base tactics list numbers option functions.
From Stdlib Require Import ZArith Lia.
From S2P Require Import Prelude CtPrims Limbs Codec Hash Hmac Prng HmacDrbg LruCode.
Local Open Scope Z_scope.

(** The data of an entry. *)
Record entry := Entry { e_id : list Z; e_version : Z; e_suite : Z; e_secret : list Z }.

Definition entry_at (s : list Z) (a : Z) : entry :=
  Entry (slice s (a + SESSION_ID_OFF) SESSION_ID_LEN) (vbe s (a + VERSION_OFF) 2)
    (vbe s (a + CIPHER_SUITE_OFF) 2) (slice s (a + MASTER_SECRET_OFF) MASTER_SECRET_LEN).
Definition link_at (s : list Z) (a : Z) (f : field) : Z := vbe s (a + off f) 4.

(** The addresses of the entries of a store of [n] bytes. *)
Definition slot (n a : Z) : Prop := 0 <= a /\ a mod LRU_ENTRY_LEN = 0 /\ a + LRU_ENTRY_LEN <= n.

(** The links, and their update. *)
Abbreviation links := (Z -> field -> Z).
Definition mset (m : links) (a : Z) (f : field) (v : Z) : links := fun b g =>
  if bool_decide (b = a /\ g = f) then v else m b g.

Lemma mset_eq m a f v : mset m a f v a f = v.
Proof. unfold mset. by rewrite bool_decide_true. Qed.
Lemma mset_ne m a f v b g : b <> a \/ g <> f -> mset m a f v b g = m b g.
Proof. intros H. unfold mset. rewrite bool_decide_false; [done|]. naive_solver. Qed.

Record rep (n : Z) (s : list Z) (m : links) (d : Z -> entry) : Prop := Rep {
  rep_len : zlen s = n;
  rep_max : n < 2 ^ 32;
  rep_bytes : bytes s 0 n;
  rep_links a f : slot n a -> link_at s a f = m a f;
  rep_data a : slot n a -> entry_at s a = d a
}.

Lemma off_range f : 84 <= off f <= 96.
Proof. by destruct f. Qed.

Lemma slot_sep n a b : slot n a -> slot n b -> b <> a -> b + 100 <= a \/ a + 100 <= b.
Proof. unfold slot, LRU_ENTRY_LEN. intros. zn. Qed.

Lemma off_sep f g : g <> f -> off g + 4 <= off f \/ off f + 4 <= off g.
Proof. destruct f, g; intros; try done; unfold off, LIST_PREV_OFF, LIST_NEXT_OFF, TREE_LEFT_OFF, TREE_RIGHT_OFF; lia. Qed.

(** A write of bytes in an array of bytes. *)
Lemma bytes_over s s' lo k n : bytes s 0 n -> frame lo (lo + k) s s' -> bytes s' lo k -> bytes s' 0 n.
Proof.
  intros HB HF HK i Hi. destruct (decide (lo <= i < lo + k)) as [?|Hn]; [by apply HK|].
  rewrite (frame_get _ _ _ _ _ HF) by lia. by apply HB.
Qed.

Lemma bytes_at_slice s o n L : 0 <= o -> 0 <= n -> o + n <= zlen s -> slice s o n = L -> byte_string L ->
  bytes s o n.
Proof.
  intros Ho Hn Hl <- HB i Hi. apply bytes_get in HB. rewrite zlen_slice in HB by lia.
  specialize (HB (i - o) ltac:(lia)). rewrite get_slice in HB by lia.
  by replace (o + (i - o)) with i in HB by lia.
Qed.

Section Rep.
Context {n : Z} {s : list Z} {m : links} {d : Z -> entry} (HR : rep n s m d).

Lemma link_word a f : slot n a -> word 32 (m a f).
Proof.
  intros Ha. rewrite <- (rep_links _ _ _ _ HR) by done. pose proof (off_range f).
  destruct Ha as (? & ? & ?). unfold LRU_ENTRY_LEN in *. apply (vbe_bound s _ 4); [lia|].
  apply (limbs_sub 8 s 0 n); [apply HR|lia..].
Qed.

Lemma dec_link_ok a f (Q : Z -> Prop) : slot n a -> Q (m a f) -> ok (br_dec32be s (a + off f)) Q.
Proof.
  intros Ha HQ. pose proof Ha as (? & ? & ?). pose proof (off_range f). unfold LRU_ENTRY_LEN in *.
  pose proof (rep_len _ _ _ _ HR). eapply ok_mono.
  - apply (codec_dec (sz:=4) s (a + off f)); [lia..|]. apply (limbs_sub 8 s 0 n); [apply HR|lia..].
  - cbv beta. intros x [-> _]. fold (link_at s a f). by rewrite (rep_links _ _ _ _ HR).
Qed.

Lemma enc_link_ok a f v : slot n a -> word 32 v ->
  ok (br_enc32be s (a + off f) v) (fun s' => rep n s' (mset m a f v) d).
Proof.
  intros Ha Hv. pose proof Ha as (? & ? & ?). pose proof (off_range f) as Hf. unfold LRU_ENTRY_LEN in *.
  pose proof (rep_len _ _ _ _ HR) as HL. eapply ok_mono.
  { apply (codec_enc (sz:=4) s (a + off f) v); [lia..|done]. }
  cbv beta. intros s' (HF & HB & E). split.
  - by rewrite (frame_len _ _ _ _ HF).
  - apply HR.
  - apply (bytes_over s s' (a + off f) 4); [apply HR|done..].
  - intros b g Hb. pose proof Hb as (? & ? & ?). pose proof (off_range g). unfold LRU_ENTRY_LEN in *.
    unfold mset. case_bool_decide as HE; [by destruct HE as [-> ->]|].
    rewrite <- (rep_links _ _ _ _ HR) by done. apply (vbe_frame _ _ _ _ _ _ HF); [lia..|].
    destruct (decide (b = a)) as [->|Hne]; [|destruct (slot_sep _ _ _ Ha Hb Hne); lia].
    destruct (off_sep f g); [naive_solver|lia..].
  - intros b Hb. pose proof Hb as (? & ? & ?). unfold LRU_ENTRY_LEN in *.
    rewrite <- (rep_data _ _ _ _ HR) by done.
    assert (b + 84 <= a + off f \/ a + off f + 4 <= b).
    { destruct (decide (b = a)) as [->|Hne]; [lia|]. destruct (slot_sep _ _ _ Ha Hb Hne); lia. }
    unfold entry_at, SESSION_ID_OFF, SESSION_ID_LEN, VERSION_OFF, CIPHER_SUITE_OFF, MASTER_SECRET_OFF, MASTER_SECRET_LEN.
    f_equal; (apply (slice_frame s s' _ _ _ _ HF) || apply (vbe_frame _ _ _ _ _ _ HF)); lia.
Qed.
End Rep.

Lemma get_field_ok n cc m d f a (Q : Z -> Prop) : rep n (lstore cc) m d -> slot n a -> Q (m a f) ->
  ok (get_field f cc a) Q.
Proof. intros HR Ha. apply (dec_link_ok HR a f Q Ha). Qed.

Lemma set_field_ok n cc m d f a v (Q : lru -> Prop) : rep n (lstore cc) m d -> slot n a -> word 32 v ->
  (forall s, rep n s (mset m a f v) d -> Q (with_store cc s)) -> ok (set_field f cc a v) Q.
Proof.
  intros HR Ha Hv HQ. unfold set_field. apply ok_bind. eapply ok_mono; [by apply (enc_link_ok HR)|].
  intros s Hs. apply ok_ret. auto.
Qed.

(** A write in the data of an entry. *)
Lemma rep_over n s m d s' a : rep n s m d -> slot n a -> frame a (a + 84) s s' ->
  bytes s' a 84 -> rep n s' m (<[a := entry_at s' a]> d).
Proof.
  intros HR Ha HF HB. pose proof Ha as (? & ? & ?). unfold LRU_ENTRY_LEN in *.
  pose proof (rep_len _ _ _ _ HR) as HL. split.
  - by rewrite (frame_len _ _ _ _ HF).
  - apply HR.
  - apply (bytes_over s s' a 84); [apply HR|done..].
  - intros b f Hb. pose proof Hb as (? & ? & ?). pose proof (off_range f). unfold LRU_ENTRY_LEN in *.
    rewrite <- (rep_links _ _ _ _ HR) by done. apply (vbe_frame _ _ _ _ _ _ HF); [lia..|].
    destruct (decide (b = a)) as [->|Hne]; [lia|]. destruct (slot_sep _ _ _ Ha Hb Hne); lia.
  - intros b Hb. pose proof Hb as (? & ? & ?). unfold LRU_ENTRY_LEN in *.
    destruct (decide (b = a)) as [->|Hne]; [by rewrite fn_lookup_insert|].
    rewrite fn_lookup_insert_ne, <- (rep_data _ _ _ _ HR) by done.
    destruct (slot_sep _ _ _ Ha Hb Hne); unfold entry_at, SESSION_ID_OFF, SESSION_ID_LEN,
      VERSION_OFF, CIPHER_SUITE_OFF, MASTER_SECRET_OFF, MASTER_SECRET_LEN;
    f_equal; (apply (slice_frame s s' _ _ _ _ HF) || apply (vbe_frame _ _ _ _ _ _ HF)); lia.
Qed.

(** What the cache is given: session parameters of the lengths and widths that
    the C types have. *)
Record params_ok (p : params) : Prop := ParamsOk {
  id_len : zlen (session_id p) = 32;
  id_bytes : byte_string (session_id p);
  version_word : word 16 (version p);
  suite_word : word 16 (cipher_suite p);
  secret_len : zlen (master_secret p) = 48;
  secret_bytes : byte_string (master_secret p)
}.

Definition entry_of (id : list Z) (p : params) : entry :=
  Entry id (version p) (cipher_suite p) (master_secret p).

Lemma lru_fill_ok n cc m d x id p : rep n (lstore cc) m d -> slot n x ->
  zlen id = 32 -> byte_string id -> params_ok p ->
  ok (lru_fill cc x id p) (fun cc' => exists s', cc' = with_store cc s' /\
    rep n s' m (<[x := entry_of id p]> d)).
Proof.
  intros HR Hx Hid HB [_ _ Wv Ws Lm Bm]. pose proof Hx as (? & ? & ?).
  pose proof (rep_len _ _ _ _ HR) as HL. unfold LRU_ENTRY_LEN in *. unfold lru_fill,
    SESSION_ID_OFF, SESSION_ID_LEN, VERSION_OFF, CIPHER_SUITE_OFF, MASTER_SECRET_OFF, MASTER_SECRET_LEN.
  set (s := lstore cc) in *. cstep. apply ok_memcpy; try lia.
  set (s1 := blit s _ _ _ _). assert (F1 : frame (x + 0) (x + 0 + 32) s s1) by (apply frame_blit; lia).
  assert (E1 : slice s1 (x + 0) 32 = slice id 0 32) by (apply slice_blit_in; lia).
  pose proof (frame_len _ _ _ _ F1) as L1. rewrite (slice_all id) in E1 by done.
  cstep. apply ok_memcpy; try lia.
  set (s2 := blit s1 _ _ _ _). assert (F2 : frame (x + 32) (x + 32 + 48) s1 s2) by (apply frame_blit; lia).
  assert (E2 : slice s2 (x + 32) 48 = slice (master_secret p) 0 48) by (apply slice_blit_in; lia).
  pose proof (frame_len _ _ _ _ F2) as L2. rewrite (slice_all (master_secret p)) in E2 by done.
  cstep. eapply ok_mono; [apply (codec_enc (sz:=2) s2 (x + 80)); [lia..|done]|]. cbv beta.
  intros s3 (F3 & B3 & E3). pose proof (frame_len _ _ _ _ F3) as L3.
  cstep. eapply ok_mono; [apply (codec_enc (sz:=2) s3 (x + 82)); [lia..|done]|]. cbv beta.
  intros s4 (F4 & B4 & E4). pose proof (frame_len _ _ _ _ F4) as L4.
  cstep. exists s4. split; [done|].
  assert (HE : entry_at s4 x = entry_of id p).
  { unfold entry_at, entry_of, SESSION_ID_OFF, SESSION_ID_LEN, VERSION_OFF, CIPHER_SUITE_OFF,
      MASTER_SECRET_OFF, MASTER_SECRET_LEN. f_equal; [..|done|].
    - by rewrite (slice_frame s3 s4 _ _ _ _ F4), (slice_frame s2 s3 _ _ _ _ F3),
        (slice_frame s1 s2 _ _ _ _ F2) by lia.
    - by rewrite (vbe_frame _ _ _ _ _ _ F4) by lia.
    - by rewrite (slice_frame s3 s4 _ _ _ _ F4), (slice_frame s2 s3 _ _ _ _ F3) by lia. }
  rewrite <- HE. apply (rep_over n s); [done..| |].
  - eapply frame_trans; [apply (frame_weaken _ _ _ _ _ _ F1); lia|].
    eapply frame_trans; [apply (frame_weaken _ _ _ _ _ _ F2); lia|].
    eapply frame_trans; [apply (frame_weaken _ _ _ _ _ _ F3); lia|].
    apply (frame_weaken _ _ _ _ _ _ F4); lia.
  - assert (B : bytes s4 0 n); [|by apply (limbs_sub 8 s4 0 n); [|lia..]].
    apply (bytes_over s3 s4 (x + 82) 2); [|done..]. apply (bytes_over s2 s3 (x + 80) 2); [|done..].
    apply (bytes_over s1 s2 (x + 32) 48); [|done|]. apply (bytes_over s s1 (x + 0) 32); [apply HR|done|].
    + apply (bytes_at_slice s1 _ _ id); done || lia.
    + apply (bytes_at_slice s2 _ _ (master_secret p)); done || lia.
Qed.

(** The mark of a forgotten entry. *)
Definition forgotten (e : entry) : entry := Entry (e_id e) 0 (e_suite e) (e_secret e).

Lemma lru_forget_ok n cc m d x : rep n (lstore cc) m d -> slot n x ->
  ok (br_enc16be (lstore cc) (x + VERSION_OFF) 0) (fun s' => rep n s' m (<[x := forgotten (d x)]> d)).
Proof.
  intros HR Hx. pose proof Hx as (? & ? & ?). pose proof (rep_len _ _ _ _ HR) as HL.
  unfold LRU_ENTRY_LEN, VERSION_OFF in *.
  eapply ok_mono; [apply (codec_enc (sz:=2) (lstore cc) (x + 80) 0); [lia..|done]|]. cbv beta.
  intros s (F & B & E).
  assert (HE : entry_at s x = forgotten (d x)).
  { rewrite <- (rep_data _ _ _ _ HR) by done. unfold entry_at, forgotten, SESSION_ID_OFF, SESSION_ID_LEN,
      VERSION_OFF, CIPHER_SUITE_OFF, MASTER_SECRET_OFF, MASTER_SECRET_LEN. cbn [e_id e_suite e_secret].
    f_equal; [..|done| |]; (apply (slice_frame _ _ _ _ _ _ F) || apply (vbe_frame _ _ _ _ _ _ F)); lia. }
  rewrite <- HE. apply (rep_over n (lstore cc)); [done..| |].
  - apply (frame_weaken _ _ _ _ _ _ F); lia.
  - assert (B' : bytes s 0 n); [|by apply (limbs_sub 8 s 0 n); [|lia..]].
    apply (bytes_over (lstore cc) s (x + 80) 2); [apply HR|done..].
Qed.

(** * Reading an entry *)

Section Read.
Context {n : Z} {s : list Z} {m : links} {d : Z -> entry} (HR : rep n s m d).
Context {x : Z} (Hx : slot n x).

Lemma slot_in k : 0 <= k <= 100 -> 0 <= x + k <= zlen s.
Proof. rewrite (rep_len _ _ _ _ HR). destruct Hx as (? & ? & ?). unfold LRU_ENTRY_LEN in *. lia. Qed.

Lemma entry_id_ok : zlen (e_id (d x)) = 32 /\ byte_string (e_id (d x)).
Proof.
  rewrite <- (rep_data _ _ _ _ HR) by done. unfold entry_at, SESSION_ID_OFF, SESSION_ID_LEN. cbn [e_id].
  pose proof (slot_in 0 ltac:(lia)). pose proof (slot_in 100 ltac:(lia)). pose proof (rep_len _ _ _ _ HR).
  split; [apply zlen_slice; lia|]. apply byte_string_slice; try lia.
  apply (limbs_sub 8 s 0 n); [apply HR|lia..].
Qed.

Lemma memcmp_ok id (Q : comparison -> Prop) : zlen id = 32 -> Q (lex_cmp id (e_id (d x))) ->
  ok (memcmp id 0 s (x + SESSION_ID_OFF) SESSION_ID_LEN) Q.
Proof.
  intros Hid HQ. pose proof (slot_in 0 ltac:(lia)). pose proof (slot_in 100 ltac:(lia)).
  unfold memcmp, SESSION_ID_OFF, SESSION_ID_LEN. rewrite (proj2 (in_range_true id 0 32)) by lia.
  rewrite (proj2 (in_range_true s (x + 0) 32)) by lia. cbn.
  rewrite (slice_all id) by done. by rewrite <- (rep_data _ _ _ _ HR) in HQ by done.
Qed.

Lemma region_id_ok (Q : list Z -> Prop) : Q (e_id (d x)) ->
  ok (region s (x + SESSION_ID_OFF) SESSION_ID_LEN) Q.
Proof.
  intros HQ. pose proof (slot_in 0 ltac:(lia)). pose proof (slot_in 100 ltac:(lia)).
  unfold SESSION_ID_OFF, SESSION_ID_LEN. apply ok_region; [lia..|].
  by rewrite <- (rep_data _ _ _ _ HR) in HQ by done.
Qed.

Lemma dec_version_ok (Q : Z -> Prop) : Q (e_version (d x)) -> ok (br_dec16be s (x + VERSION_OFF)) Q.
Proof.
  intros HQ. pose proof (slot_in 0 ltac:(lia)). pose proof (slot_in 100 ltac:(lia)).
  pose proof (rep_len _ _ _ _ HR). unfold VERSION_OFF.
  eapply ok_mono; [apply (codec_dec (sz:=2) s (x + 80)); [lia..|]|].
  - apply (limbs_sub 8 s 0 n); [apply HR|lia..].
  - cbv beta. intros v [-> _]. by rewrite <- (rep_data _ _ _ _ HR) in HQ by done.
Qed.

Lemma dec_suite_ok (Q : Z -> Prop) : Q (e_suite (d x)) -> ok (br_dec16be s (x + CIPHER_SUITE_OFF)) Q.
Proof.
  intros HQ. pose proof (slot_in 0 ltac:(lia)). pose proof (slot_in 100 ltac:(lia)).
  pose proof (rep_len _ _ _ _ HR). unfold CIPHER_SUITE_OFF.
  eapply ok_mono; [apply (codec_dec (sz:=2) s (x + 82)); [lia..|]|].
  - apply (limbs_sub 8 s 0 n); [apply HR|lia..].
  - cbv beta. intros v [-> _]. by rewrite <- (rep_data _ _ _ _ HR) in HQ by done.
Qed.

Lemma read_secret_ok ms (Q : list Z -> Prop) : zlen ms = 48 -> Q (e_secret (d x)) ->
  ok (memcpy ms 0 s (x + MASTER_SECRET_OFF) MASTER_SECRET_LEN) Q.
Proof.
  intros Hm HQ. pose proof (slot_in 0 ltac:(lia)). pose proof (slot_in 100 ltac:(lia)).
  unfold MASTER_SECRET_OFF, MASTER_SECRET_LEN. apply ok_memcpy; [lia..|].
  assert (E : blit ms 0 s (x + 32) 48 = e_secret (d x)); [|by rewrite E].
  rewrite <- (slice_all (blit ms 0 s (x + 32) 48) 48) by (rewrite zlen_blit; lia).
  rewrite slice_blit_in by lia. by rewrite <- (rep_data _ _ _ _ HR) by done.
Qed.
End Read.

(** * The order of the identifiers *)

Definition lex_lt (a b : list Z) : Prop := lex_cmp a b = Lt.

Lemma lex_cmp_eq a : forall b, lex_cmp a b = Eq <-> a = b.
Proof.
  induction a as [|x a IH]; intros [|y b]; simpl; try done.
  destruct (Z.compare_spec x y) as [->|?|?]; [rewrite IH; naive_solver|..]; (split; [done|]); intros [= ->]; lia.
Qed.

Lemma lex_cmp_antisym a : forall b, lex_cmp b a = CompOpp (lex_cmp a b).
Proof.
  induction a as [|x a IH]; intros [|y b]; simpl; try done.
  rewrite (Z.compare_antisym x y). by destruct (x ?= y); simpl; rewrite ?IH.
Qed.

Lemma lex_cmp_gt a b : lex_cmp a b = Gt -> lex_lt b a.
Proof. intros H. unfold lex_lt. by rewrite lex_cmp_antisym, H. Qed.

#[export] Instance lex_lt_trans : Transitive lex_lt.
Proof.
  unfold lex_lt. intros a. induction a as [|x a IH]; intros [|y b] [|z c]; simpl; try done.
  destruct (Z.compare_spec x y), (Z.compare_spec y z), (Z.compare_spec x z); try done; try lia.
  apply IH.
Qed.

#[export] Instance lex_lt_irrefl : Irreflexive lex_lt.
Proof. intros a H. unfold lex_lt in H. by rewrite (proj2 (lex_cmp_eq a a)) in H. Qed.
