(* ===== verification/LruTree.v ===== *)
(** The LRU session cache: the binary search tree.

    A tree of addresses is in memory when the links [Left] and [Right] follow
    its shape ([tree_at]).  A place in a tree is a context ([hole], from the
    inside out); [link_of] is the address that the code keeps for it: the
    address of the link that leads to the place.  The lemmas on [find_node],
    [find_replacement_node], [set_link] and [remove_node] are in these terms. *)
From stdpp Require Import base tactics list sorting numbers option functions sets.
From Stdlib Require Import ZArith Lia.
From S2P Require Import Prelude CtPrims Limbs Codec Hash Hmac Prng HmacDrbg LruCode LruStore.
Local Open Scope Z_scope.

(** * Trees and places *)

Inductive tree := Leaf | Node (l : tree) (a : Z) (r : tree).

Inductive side := L | R.
Definition opp (s : side) : side := match s with L => R | R => L end.
Definition fld (s : side) : field := match s with L => Left | R => Right end.
(** The node [a] with [t] on the side [s] and [o] on the other one. *)
Definition node (s : side) (t : tree) (a : Z) (o : tree) : tree :=
  match s with L => Node t a o | R => Node o a t end.

Fixpoint inorder (t : tree) : list Z :=
  match t with Leaf => [] | Node l a r => inorder l ++ a :: inorder r end.
Definition is_leaf (t : tree) : bool := match t with Leaf => true | _ => false end.
Fixpoint height (t : tree) : nat :=
  match t with Leaf => O | Node l _ r => S (Nat.max (height l) (height r)) end.

(** A step from a node [a] to its child on the side [s]; [o] is the other one. *)
Inductive hole := Hole (s : side) (a : Z) (o : tree).
Fixpoint plug (c : list hole) (t : tree) : tree :=
  match c with [] => t | Hole s a o :: c => plug c (node s t a o) end.

(** The addresses on the left and on the right of a place. *)
Fixpoint before (c : list hole) : list Z :=
  match c with
  | [] => []
  | Hole L a o :: c => before c
  | Hole R a o :: c => before c ++ inorder o ++ [a]
  end.
Fixpoint after (c : list hole) : list Z :=
  match c with
  | [] => []
  | Hole L a o :: c => a :: inorder o ++ after c
  | Hole R a o :: c => after c
  end.
Definition around (c : list hole) : list Z := before c ++ after c.

Definition link_of (c : list hole) : Z :=
  match c with [] => ADDR_NULL | Hole s a _ :: _ => a + off (fld s) end.

(** The memory holds a tree at the address [x]; it holds a context whose place
    has the address [x]. *)
Fixpoint tree_at (m : links) (x : Z) (t : tree) : Prop :=
  match t with
  | Leaf => x = ADDR_NULL
  | Node l a r => x = a /\ tree_at m (m a Left) l /\ tree_at m (m a Right) r
  end.
Fixpoint ctx_at (m : links) (root : Z) (c : list hole) (x : Z) : Prop :=
  match c with
  | [] => x = root
  | Hole s a o :: c =>
      x = m a (fld s) /\ tree_at m (m a (fld (opp s))) o /\ ctx_at m root c a
  end.

(** What [set_link] does at a place. *)
Definition link_mem (c : list hole) (m : links) (v : Z) : links :=
  match c with [] => m | Hole s a _ :: _ => mset m a (fld s) v end.
Definition link_root (c : list hole) (root v : Z) : Z := match c with [] => v | _ => root end.

(** Memories that agree on the tree links of some nodes; on the list links. *)
Definition same_tree (P : list Z) (m m' : links) : Prop :=
  forall a s, a ∈ P -> m' a (fld s) = m a (fld s).
Definition same_list (m m' : links) : Prop :=
  forall a, m' a Prev = m a Prev /\ m' a Next = m a Next.

(** * Lemmas on trees *)

Lemma inorder_node s t a o :
  inorder (node s t a o) = match s with L => inorder t ++ a :: inorder o | R => inorder o ++ a :: inorder t end.
Proof. by destruct s. Qed.

Lemma inorder_plug c : forall t, inorder (plug c t) = before c ++ inorder t ++ after c.
Proof.
  induction c as [|[[] a o] c IH]; intros t; cbn [plug before after].
  - by rewrite app_nil_r.
  - rewrite IH. cbn [node inorder]. by rewrite <- !app_assoc.
  - rewrite IH. cbn [node inorder]. by rewrite <- !app_assoc.
Qed.

Lemma inorder_perm c t : inorder (plug c t) ≡ₚ inorder t ++ around c.
Proof. rewrite inorder_plug. unfold around. solve_Permutation. Qed.

Lemma around_cons s a o c : around (Hole s a o :: c) ≡ₚ a :: inorder o ++ around c.
Proof. unfold around. destruct s; cbn [before after]; solve_Permutation. Qed.

Lemma tree_at_node m x s t a o : tree_at m x (node s t a o) <->
  x = a /\ tree_at m (m a (fld s)) t /\ tree_at m (m a (fld (opp s))) o.
Proof. destruct s; simpl; naive_solver. Qed.

Lemma plug_at m root c : forall t, tree_at m root (plug c t) <->
  exists x, ctx_at m root c x /\ tree_at m x t.
Proof.
  induction c as [|[s a o] c IH]; intros t; cbn [plug ctx_at].
  - naive_solver.
  - rewrite IH. setoid_rewrite tree_at_node. naive_solver.
Qed.

Lemma plug_app c1 c2 t : plug (c1 ++ c2) t = plug c2 (plug c1 t).
Proof. revert t. induction c1 as [|[s a o] c1 IH]; intros t; [done|]. apply IH. Qed.

#[export] Instance same_tree_proper : Proper ((≡ₚ) ==> (=) ==> (=) ==> iff) same_tree.
Proof. intros P P' HP m _ <- m' _ <-. unfold same_tree. by setoid_rewrite HP. Qed.

Lemma tree_at_same m m' t : forall x, same_tree (inorder t) m m' -> tree_at m x t -> tree_at m' x t.
Proof.
  induction t as [|l IHl a r IHr]; intros x HS; [done|]. cbn [tree_at inorder] in *.
  intros (-> & Hl & Hr). split; [done|].
  pose proof (HS a L ltac:(set_solver)) as EL. pose proof (HS a R ltac:(set_solver)) as ER.
  cbn [fld] in EL, ER. rewrite EL, ER. split; [apply IHl|apply IHr]; try done;
    intros b s Hb; apply HS; set_solver.
Qed.

Lemma ctx_at_same m m' root c : forall x, same_tree (around c) m m' -> ctx_at m root c x -> ctx_at m' root c x.
Proof.
  induction c as [|[s a o] c IH]; intros x HS; [done|]. cbn [ctx_at]. intros (-> & Ho & Hc).
  rewrite around_cons in HS. unfold same_tree in HS.
  split; [symmetry; apply HS; set_solver|]. rewrite HS by set_solver. split.
  - apply (tree_at_same m); [|done]. intros b s' Hb. apply HS. set_solver.
  - apply IH; [|done]. intros b s' Hb. apply HS. set_solver.
Qed.

(** A new link at a place. *)
Lemma fld_inj s s' : fld s = fld s' -> s = s'.
Proof. by destruct s, s'. Qed.

Lemma opp_ne s : fld (opp s) <> fld s.
Proof. by destruct s. Qed.

Lemma same_tree_mset P m a f v : a ∉ P -> same_tree P m (mset m a f v).
Proof. intros Ha b s Hb. apply mset_ne. left. set_solver. Qed.

Lemma same_tree_trans P m m' m'' : same_tree P m m' -> same_tree P m' m'' -> same_tree P m m''.
Proof. intros H1 H2 a s Ha. rewrite H2 by done. by apply H1. Qed.

Lemma same_list_mset m a s v : same_list m (mset m a (fld s) v).
Proof. intros b. destruct s; split; apply mset_ne; by right. Qed.

Lemma same_list_link c m v : same_list m (link_mem c m v).
Proof. destruct c as [|[s a o] c]; [done|]. apply same_list_mset. Qed.

Lemma same_list_trans m m' m'' : same_list m m' -> same_list m' m'' -> same_list m m''.
Proof. intros H1 H2 a. destruct (H1 a), (H2 a). split; congruence. Qed.

Lemma link_mem_same P c m v : P ## around c -> same_tree P m (link_mem c m v).
Proof.
  intros HD. destruct c as [|[s a o] c]; [done|]. apply same_tree_mset.
  intros Ha. apply (HD a Ha). rewrite around_cons. set_solver.
Qed.

Lemma link_at_ctx m root c x v : NoDup (around c) -> ctx_at m root c x ->
  ctx_at (link_mem c m v) (link_root c root v) c v.
Proof.
  destruct c as [|[s a o] c]; [done|]. rewrite around_cons. cbn [ctx_at link_mem link_root].
  intros [Ha ND]%NoDup_cons (-> & Ho & Hc). split; [by rewrite mset_eq|].
  rewrite mset_ne by (right; apply opp_ne). split.
  - apply (tree_at_same m); [|done]. apply same_tree_mset. set_solver.
  - apply (ctx_at_same m); [|done]. apply same_tree_mset. set_solver.
Qed.

(** * The code *)

Lemma null_word : word 32 ADDR_NULL.
Proof. done. Qed.

Lemma slot_not_null n a : n < 2 ^ 32 -> slot n a -> (a =? ADDR_NULL) = false.
Proof.
  intros Hn (? & ? & ?). apply Z.eqb_neq. change ADDR_NULL with (2 ^ 32 - 1). unfold LRU_ENTRY_LEN in *. lia.
Qed.

Lemma slot_link n a s : n < 2 ^ 32 -> slot n a ->
  u32 (a + off (fld s)) = a + off (fld s) /\ (a + off (fld s) =? ADDR_NULL) = false.
Proof.
  intros Hn (? & ? & ?). unfold LRU_ENTRY_LEN in *. pose proof (off_range (fld s)).
  split; [apply u32_small; unfold word; lia|]. apply Z.eqb_neq. change ADDR_NULL with (2 ^ 32 - 1). lia.
Qed.

Lemma tree_at_null m x t n : n < 2 ^ 32 -> tree_at m x t -> Forall (slot n) (inorder t) ->
  (x =? ADDR_NULL) = is_leaf t.
Proof.
  intros Hn Ht HF. destruct t as [|l a r]; [by rewrite Ht|].
  destruct Ht as (-> & _). apply (slot_not_null n); [done|].
  cbn [inorder] in HF. rewrite Forall_app, Forall_cons in HF. tauto.
Qed.

(** The entries of a tree are sorted by their identifiers. *)
Definition sorted_by (key : Z -> list Z) (l : list Z) : Prop :=
  StronglySorted (fun a b => lex_lt (key a) (key b)) l.

Lemma sorted_nodup key l : sorted_by key l -> NoDup l.
Proof.
  unfold sorted_by. induction l as [|a l IH]; [constructor|]. rewrite StronglySorted_cons.
  intros [HF HS]. constructor; [|auto]. intros Ha. rewrite Forall_forall in HF.
  exact (lex_lt_irrefl _ (HF a Ha)).
Qed.

(** The place of an identifier: lower ones before it, greater ones after it, and
    the node found there, if any, has this identifier. *)
Record located (key : Z -> list Z) (id : list Z) (c : list hole) (t : tree) : Prop := Located {
  loc_before : Forall (fun a => lex_lt (key a) id) (before c);
  loc_after : Forall (fun a => lex_lt id (key a)) (after c);
  loc_here : match t with Leaf => True | Node _ a _ => key a = id end
}.

Definition place (m : links) (root : Z) (T : tree) (c : list hole) (t : tree) (x : Z) : Prop :=
  plug c t = T /\ ctx_at m root c x /\ tree_at m x t.

Lemma place_step m root T c s t a o x : place m root T c (node s t a o) x ->
  x = a /\ place m root T (Hole s a o :: c) t (m a (fld s)).
Proof.
  intros (HT & HC & HX). apply tree_at_node in HX as (-> & Ht & Ho). split; [done|].
  split; [exact HT|]. split; [|done]. cbn [ctx_at]. done.
Qed.

Lemma located_left key id c l a r : sorted_by key (inorder (plug c (Node l a r))) ->
  Forall (fun b => lex_lt (key b) id) (before c) -> Forall (fun b => lex_lt id (key b)) (after c) ->
  lex_lt id (key a) ->
  Forall (fun b => lex_lt (key b) id) (before (Hole L a r :: c)) /\
  Forall (fun b => lex_lt id (key b)) (after (Hole L a r :: c)).
Proof.
  intros HS HB HA Hlt. cbn [before after]. split; [done|]. constructor; [done|]. apply Forall_app. split; [|done].
  rewrite inorder_plug in HS. cbn [inorder] in HS. rewrite <- app_assoc in HS. unfold sorted_by in HS.
  rewrite !StronglySorted_app, StronglySorted_cons in HS.
  destruct HS as (_ & _ & _ & _ & _ & [HF _] & _). eapply Forall_impl; [exact HF|]. intros b Hb.
  etransitivity; [exact Hlt|exact Hb].
Qed.

Lemma located_right key id c l a r : sorted_by key (inorder (plug c (Node l a r))) ->
  Forall (fun b => lex_lt (key b) id) (before c) -> Forall (fun b => lex_lt id (key b)) (after c) ->
  lex_lt (key a) id ->
  Forall (fun b => lex_lt (key b) id) (before (Hole R a l :: c)) /\
  Forall (fun b => lex_lt id (key b)) (after (Hole R a l :: c)).
Proof.
  intros HS HB HA Hlt. cbn [before after]. split; [|done]. rewrite !Forall_app. split; [done|]. split; [|by constructor].
  rewrite inorder_plug in HS. cbn [inorder] in HS. rewrite <- app_assoc in HS. unfold sorted_by in HS.
  rewrite !StronglySorted_app in HS. destruct HS as (_ & _ & HF & _). apply Forall_forall. intros b Hb.
  etransitivity; [|exact Hlt]. apply HF; set_solver.
Qed.

Lemma height_length t : (height t <= length (inorder t))%nat.
Proof. induction t; cbn [height inorder]; [done|]. rewrite length_app. cbn [length]. lia. Qed.

Lemma node_side s l b r : exists t o, Node l b r = node s t b o /\
  (height t <= Nat.max (height l) (height r))%nat.
Proof. destruct s; [exists l, r|exists r, l]; (split; [done|lia]). Qed.

Section Find.
Context {n : Z} {cc : lru} {m : links} {d : Z -> entry} (HR : rep n (lstore cc) m d).
Context (T : tree) (HT : Forall (slot n) (inorder T)).
Local Abbreviation key := (fun a => e_id (d a)).

Lemma plug_slots c t : plug c t = T -> Forall (slot n) (inorder t) /\ Forall (slot n) (around c).
Proof. intros <-. by rewrite inorder_perm, Forall_app in HT. Qed.

Lemma find_loop_ok id : zlen id = 32 -> sorted_by key (inorder T) -> forall fuel c t x,
  place m (lroot cc) T c t x ->
  Forall (fun a => lex_lt (key a) id) (before c) -> Forall (fun a => lex_lt id (key a)) (after c) ->
  (height t < fuel)%nat ->
  ok (find_loop fuel cc id x (link_of c)) (fun '(a, al) => exists c t,
    al = link_of c /\ place m (lroot cc) T c t a /\ located key id c t).
Proof.
  intros Hid HS. pose proof (rep_max _ _ _ _ HR) as Hn.
  induction fuel as [|fuel IH]; intros c t x HP HB HA Hf; [lia|]. cbn [find_loop].
  pose proof HP as (HE & _ & HX). destruct (plug_slots _ _ HE) as [Ht _].
  rewrite (tree_at_null m x t n) by done. destruct t as [|l a r].
  { apply ok_cond; intros E; [done|]. cstep. cbn [tree_at] in HX. subst x. exists c, Leaf. done. }
  apply ok_cond; intros E; [|done]. clear E. cbn [inorder height] in *.
  destruct HX as (-> & _). assert (Ha : slot n a) by (rewrite Forall_app, Forall_cons in Ht; tauto).
  destruct (slot_link n a L Hn Ha) as [EL _]. destruct (slot_link n a R Hn Ha) as [ER _].
  cbn [fld] in EL, ER. unfold off in EL, ER.
  cstep. apply (memcmp_ok HR Ha); [done|]. rewrite <- HE in HS. apply ok_cond; intros E1.
  - apply bool_decide_eq_true in E1. rewrite EL. cbv zeta. cstep. apply (get_field_ok _ _ _ _ _ _ _ HR Ha).
    destruct (located_left key id c l a r HS HB HA E1) as [HB' HA'].
    apply (IH (Hole L a r :: c) l); try done; [|lia]. exact (proj2 (place_step _ _ _ _ L l a r _ HP)).
  - apply ok_cond; intros E2.
    + apply bool_decide_eq_true, lex_cmp_eq in E2. cstep. exists c, (Node l a r). split; [done|].
      split; [done|]. by split.
    + rewrite ER. cbv zeta. cstep. apply (get_field_ok _ _ _ _ _ _ _ HR Ha).
      assert (Hlt : lex_lt (key a) id).
      { apply bool_decide_eq_false in E1, E2. apply lex_cmp_gt. by destruct (lex_cmp id (key a)). }
      destruct (located_right key id c l a r HS HB HA Hlt) as [HB' HA'].
      apply (IH (Hole R a l :: c) r); try done; [|lia]. exact (proj2 (place_step _ _ _ _ R r a l _ HP)).
Qed.

Lemma place_top : tree_at m (lroot cc) T -> place m (lroot cc) T [] T (lroot cc).
Proof. done. Qed.

(** The end of a path on the side [s]. *)
Lemma spine_loop_ok s : forall fuel c t a o,
  place m (lroot cc) T c (node s t a o) a -> (height t < fuel)%nat ->
  ok (spine_loop fuel (fld s) cc a (link_of c)) (fun '(y, al) => exists c2 o',
    al = link_of (c2 ++ c) /\ Forall (fun h => exists b p, h = Hole s b p) c2 /\
    place m (lroot cc) T (c2 ++ c) (node s Leaf y o') y).
Proof.
  pose proof (rep_max _ _ _ _ HR) as Hn.
  induction fuel as [|fuel IH]; intros c t a o HP Hf; [lia|]. cbn [spine_loop].
  destruct (place_step _ _ _ _ _ _ _ _ _ HP) as [_ HP']. pose proof HP as (HE & _ & _).
  destruct (plug_slots _ _ HE) as [Ht _].
  assert (Ha : slot n a) by (destruct s; cbn in Ht; rewrite Forall_app, Forall_cons in Ht; tauto).
  cstep. apply (get_field_ok _ _ _ _ _ _ _ HR Ha). destruct (slot_link n a s Hn Ha) as [-> _].
  assert (Hlt : Forall (slot n) (inorder t)).
  { destruct s; cbn in Ht; rewrite Forall_app, Forall_cons in Ht; tauto. }
  pose proof HP' as (_ & _ & HX). rewrite (tree_at_null _ _ _ _ Hn HX Hlt).
  apply ok_cond; intros E.
  - destruct t; [|done]. cstep. exists [], o. done.
  - destruct t as [|l b r]; [done|]. pose proof HX as (E2 & _). rewrite E2 in HP'. rewrite E2.
    destruct (node_side s l b r) as (t' & o' & Et & Hh). rewrite Et in HP'.
    eapply ok_mono; [apply (IH (Hole s a o :: c) t' b o' HP'); cbn [height] in Hf; lia|].
    cbv beta. intros [y al] (c2 & o2 & -> & HF & HPy). exists (c2 ++ [Hole s a o]), o2.
    rewrite <- app_assoc. split; [done|]. split; [|done]. apply Forall_app. split; [done|].
    constructor; [by eauto|done].
Qed.

Context (Hat : tree_at m (lroot cc) T) (Hfuel : (length (inorder T) < lru_fuel cc)%nat).

Lemma find_node_ok id : zlen id = 32 -> sorted_by key (inorder T) ->
  ok (find_node cc id) (fun '(a, al) => exists c t,
    al = link_of c /\ place m (lroot cc) T c t a /\ located key id c t).
Proof.
  intros Hid HS. apply (find_loop_ok id Hid HS (lru_fuel cc) [] T (lroot cc)); try done.
  pose proof (height_length T). lia.
Qed.
End Find.

Lemma sorted_inj key l a b : sorted_by key l -> a ∈ l -> b ∈ l -> key a = key b -> a = b.
Proof.
  unfold sorted_by. induction l as [|c l IH]; [set_solver|]. rewrite StronglySorted_cons, Forall_forall.
  intros [HF HS] [->|Ha]%elem_of_cons [->|Hb]%elem_of_cons E; [done|..|by apply IH].
  - destruct (lex_lt_irrefl (key c)). rewrite E at 2. by apply HF.
  - destruct (lex_lt_irrefl (key c)). rewrite <- E at 2. by apply HF.
Qed.

(** The place of the identifier of a node is the node. *)
Lemma located_node key x c t : sorted_by key (inorder (plug c t)) -> x ∈ inorder (plug c t) ->
  located key (key x) c t -> exists l r, t = Node l x r.
Proof.
  intros HS Hx [HB HA HK]. rewrite Forall_forall in HB, HA. pose proof Hx as Hx'. rewrite inorder_plug in Hx'.
  assert (Hi : x ∈ inorder t).
  { apply elem_of_app in Hx' as [Hb|[?|Ha]%elem_of_app]; [|done|].
    - by destruct (lex_lt_irrefl _ (HB x Hb)).
    - by destruct (lex_lt_irrefl _ (HA x Ha)). }
  destruct t as [|l a r]; [set_solver|]. exists l, r. f_equal. apply (sorted_inj _ _ a x HS); [|done..].
  rewrite inorder_plug. set_solver.
Qed.

(** No node has the identifier of a place that is empty. *)
Lemma located_leaf key id c : located key id c Leaf -> forall a, a ∈ inorder (plug c Leaf) -> key a <> id.
Proof.
  intros [HB HA _] a Ha E. subst id. rewrite Forall_forall in HB, HA.
  rewrite inorder_plug in Ha. apply elem_of_app in Ha as [Hb|Ha].
  - exact (lex_lt_irrefl _ (HB a Hb)).
  - exact (lex_lt_irrefl _ (HA a Ha)).
Qed.

Section Remove.
Context {n : Z} {cc : lru} {m : links} {d : Z -> entry} (HR : rep n (lstore cc) m d).
Context (T : tree) (HT : Forall (slot n) (inorder T)).
Context (Hfuel : (length (inorder T) < lru_fuel cc)%nat).
Local Abbreviation key := (fun a => e_id (d a)).

Lemma subtree_fuel c t : plug c t = T -> (height t < lru_fuel cc)%nat.
Proof.
  intros HE. pose proof (height_length t). rewrite <- HE, inorder_perm, length_app in Hfuel. lia.
Qed.

(** The replacement of a node: none when it has no child, otherwise the node
    at the end of a path on the side [opp s] of its child on the side [s]. *)
Definition replaced (c : list hole) (l : tree) (x : Z) (r : tree) (y al : Z) : Prop :=
  (l = Leaf /\ r = Leaf /\ y = ADDR_NULL) \/
  exists s o t c2 o', Node l x r = node s t x o /\ al = link_of (c2 ++ Hole s x o :: c) /\
    Forall (fun h => exists b p, h = Hole (opp s) b p) c2 /\
    place m (lroot cc) T (c2 ++ Hole s x o :: c) (node (opp s) Leaf y o') y.

Lemma replaced_side s c l x r t o : Node l x r = node s t x o -> t <> Leaf ->
  place m (lroot cc) T c (Node l x r) x ->
  ok (spine_loop (lru_fuel cc) (fld (opp s)) cc (m x (fld s)) (link_of (Hole s x o :: c)))
    (fun '(y, al) => replaced c l x r y al).
Proof.
  intros E Hne HP. rewrite E in HP. apply place_step in HP as [_ HP].
  destruct t as [|tl b tr]; [done|]. destruct (node_side (opp s) tl b tr) as (t & o2 & Et & Hh).
  pose proof (proj2 (proj2 HP)) as (Eb & _). rewrite Eb in HP. rewrite Eb. rewrite Et in HP.
  eapply ok_mono; [apply (spine_loop_ok HR T HT (opp s) (lru_fuel cc) _ t b o2 HP)|].
  - pose proof (subtree_fuel _ _ (proj1 HP)) as Hf. destruct s; cbn in Hf; lia.
  - intros [y al] (c2 & o' & -> & HF & HPy). right. exists s, o, (Node tl b tr), c2, o'. done.
Qed.

Lemma find_replacement_ok c l x r : place m (lroot cc) T c (Node l x r) x ->
  ok (find_replacement_node cc x) (fun '(y, al) => replaced c l x r y al).
Proof.
  intros HP. pose proof HP as (HE & _ & _ & Hl & Hr). destruct (plug_slots T HT _ _ HE) as [Ht _].
  cbn [inorder] in Ht. rewrite Forall_app, Forall_cons in Ht. destruct Ht as (Sl & Hx & Sr).
  pose proof (rep_max _ _ _ _ HR) as Hn. unfold find_replacement_node.
  destruct (slot_link n x L Hn Hx) as [EL _]. destruct (slot_link n x R Hn Hx) as [ER _].
  cbn [fld] in EL, ER. unfold off in EL, ER. rewrite EL, ER.
  cstep. apply (get_field_ok _ _ _ _ _ _ _ HR Hx). rewrite (tree_at_null _ _ _ _ Hn Hl Sl).
  apply ok_cond; intros E.
  - apply (replaced_side L c l x r l r); [done|by destruct l|done].
  - cstep. apply (get_field_ok _ _ _ _ _ _ _ HR Hx). rewrite (tree_at_null _ _ _ _ Hn Hr Sr).
    apply ok_cond; intros E2.
    + apply (replaced_side R c l x r r l); [done|by destruct r|done].
    + cstep. left. destruct l, r; done.
Qed.
End Remove.

(** [set_link] at a place. *)
Lemma set_link_ok n cc m d c v : rep n (lstore cc) m d -> Forall (slot n) (around c) -> word 32 v ->
  ok (set_link cc (link_of c) v) (fun cc' => exists s,
    cc' = with_root (with_store cc s) (link_root c (lroot cc) v) /\ rep n s (link_mem c m v) d).
Proof.
  intros HR HF Hv. pose proof (rep_max _ _ _ _ HR) as Hn. unfold set_link. destruct c as [|[s a o] c].
  - change (link_of []) with ADDR_NULL. rewrite Z.eqb_refl. apply ok_cond; intros E; [|done]. cstep.
    exists (lstore cc). split; [by destruct cc|done].
  - rewrite around_cons, Forall_cons in HF. destruct HF as [Ha _]. cbn [link_of].
    rewrite (proj2 (slot_link n a s Hn Ha)). apply ok_cond; intros E; [done|]. cstep.
    eapply ok_mono; [by apply (enc_link_ok HR)|]. cbv beta. intros s' HR'. cstep. exists s'. by destruct cc.
Qed.

Lemma around_app c1 c2 : around (c1 ++ c2) ≡ₚ around c1 ++ around c2.
Proof.
  induction c1 as [|[s a o] c1 IH]; [done|]. cbn [app]. rewrite !around_cons, IH. solve_Permutation.
Qed.

(** The inorder walk loses the removed node. *)
Lemma spine_before s c2 : Forall (fun h => exists b p, h = Hole s b p) c2 ->
  match s with L => before c2 = [] | R => after c2 = [] end.
Proof.
  intros HF. induction HF as [|h c2 (b & p & ->) _ IH]; [by destruct s|]. by destruct s.
Qed.

Lemma removed_inorder s c2 o' y x o c : Forall (fun h => exists b p, h = Hole (opp s) b p) c2 ->
  exists l1 l2, inorder (plug (c2 ++ Hole s x o :: c) (node (opp s) Leaf y o')) = l1 ++ x :: l2 /\
    inorder (plug c (node s (plug c2 o') y o)) = l1 ++ l2.
Proof.
  intros HF%spine_before. rewrite plug_app. cbn [plug]. rewrite !inorder_plug, !inorder_node, !inorder_plug,
    inorder_node. destruct s; cbn [opp] in *; rewrite HF; cbn [app inorder].
  - exists (before c ++ before c2 ++ inorder o' ++ [y]), (inorder o ++ after c).
    rewrite !app_nil_r, <- !app_assoc. cbn [app]. done.
  - exists (before c ++ inorder o), (y :: inorder o' ++ after c2 ++ after c).
    rewrite <- !app_assoc. cbn [app]. by rewrite <- !app_assoc.
Qed.

Section Adopt.
Context {n : Z} {d : Z -> entry}.

(** The only child of a node that has one empty side. *)
Lemma only_child_ok cc m s o' y (Q : Z -> Prop) : rep n (lstore cc) m d ->
  tree_at m y (node s Leaf y o') -> slot n y -> Forall (slot n) (inorder o') ->
  (forall z, tree_at m z o' -> word 32 z -> Q z) ->
  ok (z ← get_field Left cc y; If z =? ADDR_NULL Then get_field Right cc y Else mret z) Q.
Proof.
  intros HR HA Hy HF HQ. pose proof (rep_max _ _ _ _ HR) as Hn.
  cstep. apply (get_field_ok _ _ _ _ _ _ _ HR Hy). apply tree_at_node in HA as (_ & HN & HO).
  cbn [tree_at] in HN. destruct s; cbn [fld opp] in *.
  - rewrite HN. apply ok_cond; intros E; [|done]. apply (get_field_ok _ _ _ _ _ _ _ HR Hy).
    apply HQ; [done|]. by apply (link_word HR).
  - rewrite (tree_at_null _ _ _ _ Hn HO HF). apply ok_cond; intros E.
    + apply (get_field_ok _ _ _ _ _ _ _ HR Hy). destruct o'; [|done]. by apply HQ; [rewrite HN|rewrite HN].
    + cstep. apply HQ; [done|]. by apply (link_word HR).
Qed.

(** The node [y] takes the children of [x]. *)
Lemma adopt_ok cc m l x r y : rep n (lstore cc) m d -> slot n x -> slot n y ->
  tree_at m x (Node l x r) -> y ∉ inorder (Node l x r) ->
  ok (z ← get_field Left cc x; cc ← set_field Left cc y z;
      z ← get_field Right cc x; set_field Right cc y z)
    (fun cc' => exists s m', cc' = with_store cc s /\ rep n s m' d /\ same_list m m' /\
      (forall P, y ∉ P -> same_tree P m m') /\ tree_at m' y (Node l y r)).
Proof.
  intros HR Hx Hy (_ & Hl & Hr) HD. cbn [inorder] in HD.
  cstep. apply (get_field_ok _ _ _ _ _ _ _ HR Hx). cstep.
  apply (set_field_ok _ _ _ _ _ _ _ _ HR Hy); [by apply (link_word HR)|]. intros s1 R1.
  cstep. apply (get_field_ok _ (with_store cc s1) _ _ _ _ _ R1 Hx). rewrite mset_ne by (by right).
  apply (set_field_ok _ (with_store cc s1) _ _ _ _ _ _ R1 Hy); [by apply (link_word HR)|]. intros s2 R2.
  exists s2. eexists. split; [done|]. split; [exact R2|]. split; [|split].
  - eapply same_list_trans; [apply (same_list_mset m y L (m x Left))|apply (same_list_mset _ y R (m x Right))].
  - intros P HP. eapply same_tree_trans; apply same_tree_mset; done.
  - cbn [tree_at]. split; [done|]. rewrite mset_eq, mset_ne, mset_eq by (by right).
    split; (eapply tree_at_same; [|eassumption]; eapply same_tree_trans; apply same_tree_mset; set_solver).
Qed.
End Adopt.

(** * Removal *)

(** What the operations on the tree do: new links of the tree and a new root. *)
Definition new_tree (n : Z) (cc : lru) (m : links) (d : Z -> entry) (T : tree) (cc' : lru) : Prop :=
  exists s m' root, cc' = with_root (with_store cc s) root /\ rep n s m' d /\ same_list m m' /\
    tree_at m' root T.

Lemma node_perm s t a o : inorder (node s t a o) ≡ₚ a :: inorder t ++ inorder o.
Proof. rewrite inorder_node. destruct s; solve_Permutation. Qed.

(** The nodes of a tree around the place of a replacement. *)
Lemma replaced_parts s c2 x o c o' y (C := c2 ++ Hole s x o :: c) (X := node s (plug c2 o') x o) :
  NoDup (inorder (plug C (node (opp s) Leaf y o'))) ->
  y ∉ inorder X /\ y ∉ around c /\ inorder X ## around c /\ NoDup (around c) /\
  inorder o' ## around C /\ NoDup (around C).
Proof.
  assert (HC : around C ≡ₚ around c2 ++ x :: inorder o ++ around c).
  { unfold C. by rewrite around_app, around_cons. }
  assert (HX : inorder X ≡ₚ x :: (inorder o' ++ around c2) ++ inorder o).
  { unfold X. by rewrite node_perm, inorder_perm. }
  assert (H1 : inorder (plug C (node (opp s) Leaf y o')) ≡ₚ y :: inorder X ++ around c).
  { rewrite inorder_perm, node_perm, HC, HX. cbn [inorder]. solve_Permutation. }
  assert (H2 : inorder (plug C (node (opp s) Leaf y o')) ≡ₚ y :: inorder o' ++ around C).
  { rewrite inorder_perm, node_perm. done. }
  intros HN. pose proof HN as HN'. rewrite H1 in HN. rewrite H2 in HN'.
  apply NoDup_cons in HN as [Hy (_ & HD & ?)%NoDup_app]. apply NoDup_cons in HN' as [_ (_ & HD' & ?)%NoDup_app].
  rewrite elem_of_app in Hy. split; [tauto|]. split; [tauto|]. split; [exact HD|]. done.
Qed.

Section Unlink.
Context {n : Z} {cc : lru} {m : links} {d : Z -> entry} (HR : rep n (lstore cc) m d).
Context (T : tree) (HT : Forall (slot n) (inorder T)) (HN : NoDup (inorder T)).

(** The replacement [y] is at the place [c2 ++ Hole s x o :: c]. *)
Lemma replace_ok s c2 x o c o' y :
  place m (lroot cc) T (c2 ++ Hole s x o :: c) (node (opp s) Leaf y o') y ->
  ok (z ← get_field Left cc y;
      z ← (If z =? ADDR_NULL Then get_field Right cc y Else mret z);
      cc ← set_link cc (link_of (c2 ++ Hole s x o :: c)) z;
      cc ← set_link cc (link_of c) y;
      l ← get_field Left cc x;
      cc ← set_field Left cc y l;
      r ← get_field Right cc x;
      set_field Right cc y r)
    (new_tree n cc m d (plug c (node s (plug c2 o') y o))).
Proof.
  set (C := c2 ++ _). set (X := node s (plug c2 o') x o). intros (HE & HC & HY).
  rewrite <- HE in HN. apply replaced_parts in HN as (Hy & Hyc & HXc & Nc & Ho & NC).
  fold C X in Hy, HXc, Ho, NC.
  destruct (plug_slots T HT C _ HE) as [SY SC]. rewrite node_perm, Forall_cons in SY. destruct SY as [Sy So].
  cbn [inorder app] in So. pose proof SC as Sx. unfold C in Sx.
  rewrite around_app, around_cons, Forall_app, Forall_cons, Forall_app in Sx. destruct Sx as (_ & Sx & _ & Sc).
  apply (proj1 (ok_assoc _ _ _ _)), ok_bind. apply (only_child_ok cc m (opp s) o' y _ HR HY Sy So).
  intros z Hz Wz. cstep. eapply ok_mono; [by apply (set_link_ok n cc m d C z)|]. cbv beta.
  intros cc1 (s1 & -> & R1). set (m1 := link_mem C m z) in *.
  assert (P1 : exists x', ctx_at m1 (link_root C (lroot cc) z) c x' /\ tree_at m1 x' X).
  { apply plug_at. unfold X. change (node s (plug c2 o') x o) with (plug [Hole s x o] (plug c2 o')).
    rewrite <- !plug_app. change (c2 ++ [Hole s x o] ++ c) with C. apply plug_at. exists z. split.
    - by apply link_at_ctx with (x := y).
    - apply (tree_at_same m); [|done]. by apply link_mem_same. }
  destruct P1 as (x' & HC1 & HX1). set (root1 := link_root C _ _) in *.
  cstep. eapply ok_mono.
  { apply (set_link_ok n (with_root (with_store cc s1) root1) m1 d c y R1 Sc). destruct Sy as (? & ? & ?). pose proof (rep_max _ _ _ _ HR).
    unfold word, LRU_ENTRY_LEN in *. lia. }
  cbv beta. intros cc2 (s2 & -> & R2). set (m2 := link_mem c m1 y) in *.
  assert (HX2 : tree_at m2 x' X) by (apply (tree_at_same m1); [|done]; by apply link_mem_same).
  assert (HC2 : ctx_at m2 (link_root c root1 y) c y) by by apply link_at_ctx with (x := x').
  pose proof HX2 as (-> & _)%tree_at_node. destruct X as [|Xl xx Xr] eqn:EX; [by destruct s|].
  assert (xx = x) as -> by (unfold X in EX; destruct s; cbn [node] in EX; congruence).
  eapply ok_mono; [by apply (adopt_ok (with_root (with_store cc s2) (link_root c root1 y)) m2 Xl x Xr y R2 Sx Sy)|]. cbv beta.
  intros cc3 (s3 & m3 & -> & R3 & HL & HS & HA). eexists s3, m3, _. split; [reflexivity|]. split; [done|]. split.
  - eapply same_list_trans; [|exact HL]. eapply same_list_trans; apply same_list_link.
  - apply plug_at. exists y. split; [apply (ctx_at_same m2); [|done]; by apply HS|].
    replace (node s (plug c2 o') y o) with (Node Xl y Xr); [done|]. unfold X in EX. destruct s; cbn [node] in *; congruence.
Qed.

Context (Hat : tree_at m (lroot cc) T) (Hfuel : (length (inorder T) < lru_fuel cc)%nat).
Context (Hsort : sorted_by (fun a => e_id (d a)) (inorder T)).

Lemma remove_node_ok x : x ∈ inorder T ->
  ok (remove_node cc x) (fun cc' => exists T' l1 l2, new_tree n cc m d T' cc' /\
    inorder T = l1 ++ x :: l2 /\ inorder T' = l1 ++ l2).
Proof.
  intros Hx. assert (Sx : slot n x) by (by rewrite Forall_forall in HT; apply HT).
  unfold remove_node. cstep. apply (region_id_ok HR Sx). cstep.
  eapply ok_mono; [by apply (find_node_ok HR T HT Hat Hfuel (e_id (d x))); [apply (entry_id_ok HR Sx)|]|].
  cbv beta. intros [a alx] (c & t & -> & (HE & HC & HX) & HL). pose proof HE as HE'.
  rewrite <- HE in Hsort, Hx. destruct (located_node _ x c t Hsort Hx HL) as (l & r & ->).
  assert (a = x) as -> by apply HX. cstep.
  eapply ok_mono; [by apply (find_replacement_ok HR T HT Hfuel c l x r)|]. cbv beta.
  intros [y aly] [(-> & -> & ->)|(s & o & t & c2 & o' & _ & -> & HF & HP)].
  - change (ADDR_NULL =? ADDR_NULL) with true. cbn [negb]. apply ok_cond; intros E; [done|].
    eapply ok_mono; [apply (set_link_ok n cc m d c ADDR_NULL HR); [|done]|].
    { by apply (plug_slots T HT _ _ HE). }
    cbv beta. intros cc' (s & -> & R'). exists (plug c Leaf), (before c), (after c).
    split; [|by rewrite <- HE, !inorder_plug]. eexists s, _, _. split; [reflexivity|]. split; [exact R'|].
    split; [apply same_list_link|]. apply plug_at. exists ADDR_NULL. split; [|done].
    apply link_at_ctx with (x := x); [|done]. rewrite <- HE, inorder_perm in HN. by apply NoDup_app in HN as (_ & _ & ?).
  - pose proof (proj1 HP) as HE2. destruct (plug_slots T HT _ _ HE2) as [Sy _].
    rewrite node_perm, Forall_cons in Sy. destruct Sy as [Sy _].
    rewrite (slot_not_null n y (rep_max _ _ _ _ HR) Sy). apply ok_cond; intros E; [|done].
    eapply ok_mono; [by apply (replace_ok s c2 x o c o' y)|]. cbv beta. intros cc' HT'.
    destruct (removed_inorder s c2 o' y x o c HF) as (l1 & l2 & E1 & E2). rewrite HE2 in E1.
    by exists (plug c (node s (plug c2 o') y o)), l1, l2.
Qed.

(** * Insertion *)

Lemma lru_insert_ok id x : zlen id = 32 -> slot n x -> x ∉ inorder T ->
  (forall a, a ∈ inorder T -> e_id (d a) <> id) ->
  ok (lru_insert cc id x) (fun cc' => exists T' l1 l2, new_tree n cc m d T' cc' /\
    inorder T = l1 ++ l2 /\ inorder T' = l1 ++ x :: l2 /\
    Forall (fun a => lex_lt (e_id (d a)) id) l1 /\ Forall (fun a => lex_lt id (e_id (d a))) l2).
Proof.
  intros Hid Sx Hx Hnew. unfold lru_insert. cstep.
  eapply ok_mono; [by apply (find_node_ok HR T HT Hat Hfuel id)|]. cbv beta.
  intros [a alx] (c & t & -> & (HE & HC & HX) & [HB HA HK]).
  destruct t as [|l a' r]; [|exfalso; apply (Hnew a'); [|done]; rewrite <- HE, inorder_plug; set_solver].
  destruct (plug_slots T HT _ _ HE) as [_ Sc].
  assert (Nc : NoDup (around c)) by (by rewrite <- HE, inorder_perm in HN).
  assert (Hc : x ∉ around c) by (by rewrite <- HE, inorder_perm in Hx).
  cstep. eapply ok_mono; [apply (set_link_ok n cc m d c x HR Sc)|].
  { destruct Sx as (? & ? & ?). pose proof (rep_max _ _ _ _ HR). unfold word, LRU_ENTRY_LEN in *. lia. }
  cbv beta. intros cc1 (s1 & -> & R1). set (root1 := link_root c _ x).
  cstep. apply (set_field_ok n (with_root (with_store cc s1) root1) _ d Left x ADDR_NULL _ R1 Sx null_word). intros s2 R2.
  apply (set_field_ok n (with_root (with_store cc s2) root1) _ d Right x ADDR_NULL _ R2 Sx null_word). intros s3 R3.
  exists (plug c (Node Leaf x Leaf)), (before c), (after c). split; [|by rewrite <- HE, !inorder_plug].
  eexists s3, _, root1. split; [reflexivity|]. split; [exact R3|]. split.
  - eapply same_list_trans; [apply same_list_link|].
    eapply same_list_trans; [apply (same_list_mset _ x L)|apply (same_list_mset _ x R)].
  - apply plug_at. exists x. split.
    + apply (ctx_at_same (link_mem c m x)); [|by apply link_at_ctx with (x := a)].
      eapply same_tree_trans; by apply same_tree_mset.
    + cbn [tree_at]. rewrite mset_eq, mset_ne, mset_eq by (by right). done.
Qed.
End Unlink.
