(* ===== verification/LruList.v ===== *)
(** The LRU session cache: the doubly linked list, most recent entry first. *)
From stdpp Require Import base tactics list numbers option functions sets.
From Stdlib Require Import ZArith Lia.
From S2P Require Import Prelude CtPrims Limbs Codec Hash Hmac Prng HmacDrbg LruCode LruStore.
Local Open Scope Z_scope.

(** The last element, or [p]. *)
Fixpoint final (p : Z) (l : list Z) : Z := match l with [] => p | a :: l => final a l end.

(** A segment of the list, between the nodes [p] and [nx]. *)
Fixpoint linked (m : links) (p : Z) (l : list Z) (nx : Z) : Prop :=
  match l with
  | [] => True
  | a :: l => m a Prev = p /\ m a Next = hd nx l /\ linked m a l nx
  end.

Record list_at (cc : lru) (m : links) (l : list Z) : Prop := ListAt {
  at_head : lhead cc = hd ADDR_NULL l;
  at_tail : ltail cc = final ADDR_NULL l;
  at_links : linked m ADDR_NULL l ADDR_NULL
}.

Lemma final_app p l1 l2 : final p (l1 ++ l2) = final (final p l1) l2.
Proof. revert p. induction l1 as [|a l1 IH]; intros p; [done|]. apply IH. Qed.

Lemma hd_app (nx : Z) (l1 l2 : list Z) : hd nx (l1 ++ l2) = hd (hd nx l2) l1.
Proof. by destruct l1. Qed.

Lemma linked_app m nx l2 l1 : forall p,
  linked m p (l1 ++ l2) nx <-> linked m p l1 (hd nx l2) /\ linked m (final p l1) l2 nx.
Proof.
  induction l1 as [|a l1 IH]; intros p; cbn [app linked final]; [tauto|].
  rewrite IH, hd_app. tauto.
Qed.

Lemma linked_cons m p a l nx :
  m a Prev = p -> m a Next = hd nx l -> linked m a l nx -> linked m p (a :: l) nx.
Proof. done. Qed.

Lemma linked_ext m m' nx l : forall p,
  (forall a, a ∈ l -> m' a Prev = m a Prev /\ m' a Next = m a Next) ->
  linked m p l nx -> linked m' p l nx.
Proof.
  induction l as [|a l IH]; intros p HE; [done|]. cbn [linked]. intros (E1 & E2 & HL).
  destruct (HE a ltac:(set_solver)) as [-> ->]. split; [done|]. split; [done|]. apply IH; set_solver.
Qed.

Lemma linked_out m p l nx a f v : a ∉ l -> linked m p l nx -> linked (mset m a f v) p l nx.
Proof. intros Ha. apply linked_ext. intros b Hb. split; apply mset_ne; left; set_solver. Qed.

Lemma linked_head m p p' a l nx : a ∉ l -> linked m p (a :: l) nx -> linked (mset m a Prev p') p' (a :: l) nx.
Proof.
  cbn [linked]. intros Ha (_ & E & HL). rewrite mset_eq, mset_ne by (by right).
  split; [done|]. split; [done|]. by apply linked_out.
Qed.

Lemma linked_final m p a l nx nx' : a ∉ l -> linked m p (l ++ [a]) nx ->
  linked (mset m a Next nx') p (l ++ [a]) nx'.
Proof.
  intros Ha. rewrite !linked_app. cbn [linked hd]. intros (HL & E & _ & _).
  split; [by apply linked_out|]. rewrite mset_eq, mset_ne by (by right). done.
Qed.

Lemma final_in p l : l <> [] -> final p l ∈ l.
Proof.
  revert p. induction l as [|a l IH]; intros p Hl; [done|]. cbn [final].
  destruct l as [|b l]; [set_solver|]. right. by apply IH.
Qed.

Lemma final_default p q l : l <> [] -> final p l = final q l.
Proof. by destruct l. Qed.

Lemma final_snoc p l a : final p (l ++ [a]) = a.
Proof. by rewrite final_app. Qed.

(** A segment that is not empty, seen from its end. *)
Lemma final_split p l : l <> [] -> exists l', l = l' ++ [final p l].
Proof.
  intros Hl. destruct (exists_last Hl) as (l' & a & ->). exists l'. by rewrite final_snoc.
Qed.

(** * The operations on the list *)

(** What they do: new links of the list, a new head and a new tail. *)
Definition put_list (cc : lru) (s : list Z) (l : list Z) : lru :=
  Lru s (store_len cc) (store_ptr cc) (index_key cc) (init_done cc) (hd ADDR_NULL l) (final ADDR_NULL l) (lroot cc).
Definition tree_kept (m m' : links) : Prop :=
  forall a, m' a Left = m a Left /\ m' a Right = m a Right.
Definition new_list (n : Z) (cc : lru) (m : links) (d : Z -> entry) (l : list Z) (cc' : lru) : Prop :=
  exists s m', cc' = put_list cc s l /\ rep n s m' d /\ tree_kept m m' /\ linked m' ADDR_NULL l ADDR_NULL.

Lemma tree_kept_mset m0 m a f v : f = Prev \/ f = Next -> tree_kept m0 m -> tree_kept m0 (mset m a f v).
Proof.
  intros Hf HK b. destruct (HK b) as [<- <-]. destruct Hf as [-> | ->]; split; apply mset_ne; by right.
Qed.
Lemma tree_kept_refl m : tree_kept m m.
Proof. done. Qed.
#[local] Hint Resolve tree_kept_mset tree_kept_refl or_introl or_intror : core.

Lemma slot_word n a : n < 2 ^ 32 -> slot n a -> word 32 a.
Proof. intros Hn (? & ? & ?). unfold word, LRU_ENTRY_LEN in *. lia. Qed.

Lemma null_slot n a : n < 2 ^ 32 -> slot n a -> (a =? ADDR_NULL) = false.
Proof.
  intros Hn (? & ? & ?). apply Z.eqb_neq. change ADDR_NULL with (2 ^ 32 - 1). unfold LRU_ENTRY_LEN in *. lia.
Qed.

(** The links once the node between two segments has left, [p] being the last
    node of the first one. *)
Definition unlink (m : links) (p : Z) (l2 : list Z) : links :=
  let m := mset m p Next (hd ADDR_NULL l2) in
  match l2 with [] => m | b :: _ => mset m b Prev p end.

Lemma tree_kept_unlink m0 m p l2 : tree_kept m0 m -> tree_kept m0 (unlink m p l2).
Proof. intros. unfold unlink. destruct l2; auto. Qed.

Lemma unlink_links m l1 x l2 : linked m ADDR_NULL (l1 ++ x :: l2) ADDR_NULL -> NoDup (l1 ++ x :: l2) ->
  l1 <> [] -> linked (unlink m (final ADDR_NULL l1) l2) ADDR_NULL (l1 ++ l2) ADDR_NULL.
Proof.
  intros [H1 (_ & _ & H2)]%linked_app ND Hne. destruct (final_split ADDR_NULL l1 Hne) as (l' & El).
  set (p := final ADDR_NULL l1) in *. apply NoDup_app in ND as (N1 & HD & [Hx N2]%NoDup_cons).
  assert (Hp : p ∈ l1) by (rewrite El; set_solver). apply linked_app. fold p.
  assert (H3 : linked (mset m p Next (hd ADDR_NULL l2)) ADDR_NULL l1 (hd ADDR_NULL l2)).
  { rewrite El in H1, N1 |- *. apply NoDup_app in N1 as (_ & N1 & _). apply (linked_final _ _ _ _ x); [|done].
    intros Hp'. by apply (N1 p Hp'), list_elem_of_here. }
  assert (H4 : linked (mset m p Next (hd ADDR_NULL l2)) x l2 ADDR_NULL).
  { apply linked_out; [|done]. intros Hp'. apply (HD p Hp). by right. }
  unfold unlink. destruct l2 as [|b l2]; [done|]. apply NoDup_cons in N2 as [Hb _]. split.
  - apply linked_out; [|done]. intros Hb'. apply (HD b Hb'). set_solver.
  - by apply (linked_head _ x).
Qed.

Lemma null_word32 : word 32 ADDR_NULL.
Proof. done. Qed.

Section Ops.
Context {n : Z} {cc : lru} {m : links} {d : Z -> entry} (HR : rep n (lstore cc) m d).

Lemma hd_word l : Forall (slot n) l -> word 32 (hd ADDR_NULL l).
Proof.
  intros HF. destruct HF as [|a l Ha _]; [done|]. by apply (slot_word n); [apply (rep_max _ _ _ _ HR)|].
Qed.

Lemma lru_push_ok l x : list_at cc m l -> Forall (slot n) (x :: l) -> NoDup (x :: l) ->
  ok (lru_push cc x) (new_list n cc m d (x :: l)).
Proof.
  intros [Hh Ht HL] [Hx HF]%Forall_cons [Hxl Hl]%NoDup_cons. pose proof (rep_max _ _ _ _ HR) as Hn.
  pose proof (slot_word _ _ Hn Hx) as Wx. pose proof (hd_word l HF) as Wh. unfold lru_push.
  cstep. rewrite Hh. destruct l as [|b l]; cbn [hd] in *.
  - change (ADDR_NULL =? ADDR_NULL) with true. apply ok_cond; intros E; [|done]. cstep.
    cstep. apply (set_field_ok n (with_tail cc x) m d Prev x ADDR_NULL _ HR Hx); [done|]. intros s1 R1.
    cstep. apply (set_field_ok n (with_store (with_tail cc x) s1) _ d Next x _ _ R1 Hx); [by cbn; rewrite Hh|].
    intros s2 R2. cstep. exists s2. eexists. split; [by destruct cc|]. split; [exact R2|]. split; [auto|].
    cbn [linked hd]. rewrite mset_eq, mset_ne, mset_eq by (by right). cbn. by rewrite Hh.
  - apply Forall_cons in HF as [Hb HF]. rewrite (null_slot n b Hn Hb). apply ok_cond; intros E; [done|].
    apply (set_field_ok n cc m d Prev b x _ HR Hb); [done|]. intros s0 R0.
    cstep. apply (set_field_ok n (with_store cc s0) _ d Prev x ADDR_NULL _ R0 Hx); [done|]. intros s1 R1.
    cstep. apply (set_field_ok n (with_store cc s1) _ d Next x _ _ R1 Hx); [by cbn; rewrite Hh|].
    intros s2 R2. cstep. exists s2. eexists. split; [by destruct cc; cbn in Ht; rewrite Ht|].
    split; [exact R2|]. split; [auto 6|]. apply NoDup_cons in Hl as [Hbl _].
    apply linked_cons; [by rewrite mset_ne, mset_eq by (by right)|by rewrite mset_eq|].
    apply linked_out; [done|]. apply linked_out; [done|]. by apply (linked_head _ ADDR_NULL).
Qed.

Lemma lru_pop_ok l x : list_at cc m (l ++ [x]) -> Forall (slot n) (l ++ [x]) -> NoDup (l ++ [x]) ->
  ltail cc = x /\ ok (lru_pop cc x) (new_list n cc m d l).
Proof.
  intros [Hh Ht HL] [HF [Hx _]%Forall_cons]%Forall_app ND. pose proof (rep_max _ _ _ _ HR) as Hn.
  rewrite final_snoc in Ht. split; [done|]. unfold lru_pop.
  cstep. apply (get_field_ok _ _ _ _ _ _ _ HR Hx). cbv zeta. cbn [ltail with_tail].
  pose proof HL as HL'. apply linked_app in HL' as [HL' (-> & _)]. cbn [hd] in *.
  destruct (decide (l = [])) as [->|Hne].
  - change (final ADDR_NULL [] =? ADDR_NULL) with true. apply ok_cond; intros E; [|done]. cstep.
    exists (lstore cc), m. by destruct cc.
  - pose proof (final_in ADDR_NULL l Hne) as Hin. destruct (final_split ADDR_NULL l Hne) as (l' & El).
    assert (Hp : slot n (final ADDR_NULL l)) by (by rewrite Forall_forall in HF; apply HF).
    rewrite (null_slot _ _ Hn Hp). apply ok_cond; intros E; [done|].
    apply (set_field_ok n (with_tail cc _) m d Next _ ADDR_NULL _ HR Hp); [done|]. intros s1 R1.
    exists s1. eexists. split; [destruct cc; cbn in Hh|]. { rewrite Hh. by destruct l. }
    split; [exact R1|]. split; [auto|]. apply NoDup_app in ND as (ND & _ & _).
    set (p := final ADDR_NULL l) in *. rewrite El in HL', ND |- *. apply NoDup_app in ND as (_ & ND & _).
    apply (linked_final _ _ _ _ x); [|done]. intros Hp'. by apply (ND p Hp'), list_elem_of_here.
Qed.

Lemma lru_move_ok l1 x l2 : list_at cc m (l1 ++ x :: l2) -> Forall (slot n) (l1 ++ x :: l2) ->
  NoDup (l1 ++ x :: l2) -> l1 <> [] -> ok (lru_move cc x) (new_list n cc m d (x :: l1 ++ l2)).
Proof.
  intros [Hh Ht HL] HF ND Hne. pose proof (rep_max _ _ _ _ HR) as Hn.
  pose proof (unlink_links m l1 x l2 HL ND Hne) as HU. set (p := final ADDR_NULL l1) in *.
  apply Forall_app in HF as [F1 [Hx F2]%Forall_cons]. rewrite hd_app in Hh. rewrite final_app in Ht. cbn [final] in Ht.
  apply linked_app in HL as [_ (Ep & En & _)]. fold p in Ep.
  assert (Hp : slot n p) by (rewrite Forall_forall in F1; by apply F1, final_in).
  assert (Hhd : slot n (lhead cc)) by (rewrite Hh; destruct l1; [done|by apply Forall_cons in F1 as []]).
  pose proof (slot_word _ _ Hn Hx) as Wx. pose proof (slot_word _ _ Hn Hp) as Wp.
  pose proof (slot_word _ _ Hn Hhd) as Wh. pose proof (hd_word l2 F2) as Wn.
  unfold lru_move. cstep. apply (get_field_ok _ _ _ _ _ _ _ HR Hx). cstep. apply (get_field_ok _ _ _ _ _ _ _ HR Hx).
  rewrite Ep, En. cstep. apply (set_field_ok n cc m d Next p _ _ HR Hp Wn). intros s1 R1.
  cstep. apply (ok_mono _ (fun cc' => exists s2, cc' = Lru s2 (store_len cc) (store_ptr cc) (index_key cc)
    (init_done cc) (lhead cc) (final p l2) (lroot cc) /\ rep n s2 (unlink m p l2) d)).
  { destruct l2 as [|b l2]; cbn [hd unlink] in *.
    - change (ADDR_NULL =? ADDR_NULL) with true. apply ok_cond; intros E; [|done]. cstep. by exists s1.
    - apply Forall_cons in F2 as [Hb F2]. rewrite (null_slot n b Hn Hb). apply ok_cond; intros E; [done|].
      apply (set_field_ok n (with_store cc s1) _ d Prev b p _ R1 Hb Wp). intros s2 R2. exists s2.
      split; [|done]. unfold with_store. cbn. by rewrite Ht. }
  intros cc2 (s2 & -> & R2). set (m2 := unlink m p l2) in *. cbn [lhead].
  set (cc2 := Lru s2 _ _ _ _ _ _ _) in *.
  cstep. apply (set_field_ok n cc2 m2 d Prev (lhead cc) x _ R2 Hhd Wx). intros s3 R3.
  cstep. apply (set_field_ok n (with_store cc2 s3) _ d Next x _ _ R3 Hx Wh). intros s4 R4.
  cstep. apply (set_field_ok n (with_store cc2 s4) _ d Prev x ADDR_NULL _ R4 Hx null_word32). intros s5 R5.
  cstep. exists s5. eexists. split.
  { unfold put_list. cbn. rewrite final_app, (final_default x ADDR_NULL) by done. by destruct cc. }
  split; [exact R5|]. split; [unfold m2; auto 8 using tree_kept_unlink|].
  apply linked_cons; [by rewrite mset_eq|rewrite mset_ne, mset_eq by (by right)|].
  - cbn. rewrite Hh. by destruct l1.
  - rewrite <- Permutation_middle in ND. apply NoDup_cons in ND as [Hxl ND].
    apply linked_out; [done|]. apply linked_out; [done|]. rewrite Hh.
    destruct l1 as [|b l1]; [done|]. cbn [hd app] in *. apply (linked_head _ ADDR_NULL); [|done].
    by apply NoDup_cons in ND as [].
Qed.
End Ops.
