(* ===== verification/Lru.v ===== *)
(** The LRU session cache ([src/ssl/ssl_lru.c]) implements a list of sessions.

    [lru_inv] is the invariant of the store: the tree and the list hold the same
    entries, the tree is a search tree, the entries fill the store from its
    start.  The abstract machine ([sp_save], [sp_load], [sp_forget]) is a list of
    at most [cap] sessions, the most recently used first; [lru_refines] shows
    that the code is a refinement of it. *)
From stdpp Require Import base tactics list sorting numbers option functions sets.
From Stdlib Require Import ZArith Lia.
From S2P Require Import Prelude CtPrims Limbs Codec Hash Sha2 Hmac Prng HmacDrbg LruCode LruStore LruTree LruList.
Local Open Scope Z_scope.

(** * The invariant *)

(** The first [k] entries of the store. *)
Definition slots (k : nat) : list Z := (fun i => LRU_ENTRY_LEN * Z.of_nat i) <$> seq 0 k.

(** The links [m] and the data [d] of the store, the tree [T], the list [l];
    [free] are the entries that are in neither of them. *)
Record lru_inv (cc : lru) (m : links) (d : Z -> entry) (T : tree) (l free : list Z) : Prop := LruInv {
  inv_rep : rep (store_len cc) (lstore cc) m d;
  inv_tree : tree_at m (lroot cc) T;
  inv_sorted : sorted_by (fun a => e_id (d a)) (inorder T);
  inv_list : list_at cc m l;
  inv_perm : inorder T ≡ₚ l;
  inv_slots : free ++ l ≡ₚ slots (length (free ++ l));
  inv_ptr : store_ptr cc = LRU_ENTRY_LEN * zlen (free ++ l);
  inv_max : store_ptr cc <= store_len cc;
  inv_key_len : zlen (index_key cc) = 32;
  inv_key : if init_done cc then byte_string (index_key cc) else l = []
}.

Lemma elem_of_slots k a : a ∈ slots k <-> exists i, (i < k)%nat /\ a = LRU_ENTRY_LEN * Z.of_nat i.
Proof. unfold slots. rewrite list_elem_of_fmap. setoid_rewrite elem_of_seq. naive_solver lia. Qed.

Lemma slots_nodup k : NoDup (slots k).
Proof.
  apply NoDup_fmap_2_strong; [|apply NoDup_seq]. unfold LRU_ENTRY_LEN. intros x y _ _ ?. lia.
Qed.

Lemma slots_S k : slots (S k) = slots k ++ [LRU_ENTRY_LEN * Z.of_nat k].
Proof. unfold slots. by rewrite seq_S, fmap_app. Qed.

Section Inv.
Context {cc : lru} {m : links} {d : Z -> entry} {T : tree} {l free : list Z}.
Context (HI : lru_inv cc m d T l free).

Lemma inv_nodup : NoDup (free ++ l).
Proof. rewrite (inv_slots _ _ _ _ _ _ HI). apply slots_nodup. Qed.

Lemma inv_slot a : a ∈ free ++ l -> slot (store_len cc) a.
Proof.
  rewrite (inv_slots _ _ _ _ _ _ HI). intros (i & Hi & ->)%elem_of_slots.
  pose proof (inv_ptr _ _ _ _ _ _ HI). pose proof (inv_max _ _ _ _ _ _ HI).
  unfold slot, LRU_ENTRY_LEN in *. split; [lia|]. split; [zn|lia].
Qed.

Lemma inv_l_slots : Forall (slot (store_len cc)) l.
Proof. apply Forall_forall. intros a Ha. apply inv_slot. set_solver. Qed.

Lemma inv_tree_slots : Forall (slot (store_len cc)) (inorder T).
Proof. rewrite (inv_perm _ _ _ _ _ _ HI). apply inv_l_slots. Qed.

Lemma inv_l_nodup : NoDup l.
Proof. pose proof inv_nodup as ND. by apply NoDup_app in ND as (_ & _ & ?). Qed.

Lemma inv_tree_nodup : NoDup (inorder T).
Proof. rewrite (inv_perm _ _ _ _ _ _ HI). apply inv_l_nodup. Qed.

Lemma inv_fuel : (length (inorder T) < lru_fuel cc)%nat.
Proof.
  rewrite (inv_perm _ _ _ _ _ _ HI). pose proof (inv_ptr _ _ _ _ _ _ HI) as E.
  pose proof (inv_max _ _ _ _ _ _ HI). unfold lru_fuel, LRU_ENTRY_LEN in *. rewrite length_app in E.
  apply Nat.lt_succ_r. zn.
Qed.

Lemma inv_ids : NoDup ((fun a => e_id (d a)) <$> l).
Proof.
  apply NoDup_fmap_2_strong; [|apply inv_l_nodup]. intros a b Ha Hb.
  apply (sorted_inj _ _ _ _ (inv_sorted _ _ _ _ _ _ HI)); by rewrite (inv_perm _ _ _ _ _ _ HI).
Qed.

Lemma inv_found id c t a : place m (lroot cc) T c t a -> located (fun a => e_id (d a)) id c t ->
  (a = ADDR_NULL /\ forall b, b ∈ l -> e_id (d b) <> id) \/ (a ∈ l /\ e_id (d a) = id).
Proof.
  intros (HE & _ & HX) HL. destruct t as [|tl b tr].
  - left. split; [done|]. intros b Hb. apply (located_leaf _ _ _ HL). by rewrite HE, (inv_perm _ _ _ _ _ _ HI).
  - right. destruct HX as (-> & _). split; [|apply HL]. rewrite <- (inv_perm _ _ _ _ _ _ HI), <- HE, inorder_plug.
    cbn [inorder]. set_solver.
Qed.

(** The search gives the address of the entry, or none. *)
Lemma inv_find id : zlen id = 32 ->
  ok (find_node cc id) (fun '(a, _) =>
    (a = ADDR_NULL /\ forall b, b ∈ l -> e_id (d b) <> id) \/ (a ∈ l /\ e_id (d a) = id)).
Proof.
  intros Hid. eapply ok_mono; [by apply (find_node_ok (inv_rep _ _ _ _ _ _ HI) T inv_tree_slots
    (inv_tree _ _ _ _ _ _ HI) inv_fuel id Hid (inv_sorted _ _ _ _ _ _ HI))|].
  cbv beta. intros [a al] (c & t & _ & HP & HL). by apply (inv_found id c t).
Qed.

Lemma inv_not_null a : a ∈ l -> (a =? ADDR_NULL) = false.
Proof.
  intros Ha. apply (slot_not_null (store_len cc)); [apply (rep_max _ _ _ _ (inv_rep _ _ _ _ _ _ HI))|].
  apply inv_slot. set_solver.
Qed.
End Inv.

(** * Room for an entry *)

(** What no operation on the structures changes. *)
Record same_conf (cc cc' : lru) : Prop := SameConf {
  same_len : store_len cc' = store_len cc;
  same_key : index_key cc' = index_key cc;
  same_init : init_done cc' = init_done cc
}.

Definition capacity (n : Z) : nat := Z.to_nat (n / LRU_ENTRY_LEN).

Lemma sorted_remove key l1 x l2 : sorted_by key (l1 ++ x :: l2) -> sorted_by key (l1 ++ l2).
Proof.
  unfold sorted_by. rewrite !StronglySorted_app, StronglySorted_cons. intros (H1 & H2 & _ & H3).
  split; [|done]. intros a b Ha Hb. apply H1; set_solver.
Qed.

Section Room.
Context {cc : lru} {m : links} {d : Z -> entry} {T : tree} {l : list Z}.
Context (HI : lru_inv cc m d T l []) (Hinit : init_done cc = true).

Definition room_post (x : Z) (cc' : lru) : Prop :=
  exists m' T' l0, lru_inv cc' m' d T' l0 [x] /\ same_conf cc cc' /\
    d <$> l0 = take (capacity (store_len cc) - 1) (d <$> l).

Lemma evict_ok : store_len cc - LRU_ENTRY_LEN < store_ptr cc -> LRU_ENTRY_LEN <= store_len cc ->
  ok (let x := ltail cc in cc ← lru_pop cc x; cc ← remove_node cc x; mret (cc, x))
    (fun '(cc', x) => room_post x cc').
Proof.
  intros Hfull Hlen. unfold room_post. pose proof HI as [HR HT HS HL HP HSl Hptr Hmax HKl HK]. cbn [app] in *.
  destruct l as [|a l' _] using rev_ind; [cbn in Hptr; lia|]. set (l0 := l') in *. rename a into x.
  pose proof (inv_l_slots HI) as Fl. pose proof (inv_l_nodup HI) as Nl.
  destruct (lru_pop_ok HR l0 x HL Fl Nl) as [-> Hpop]. cbv zeta.
  cstep. eapply ok_mono; [exact Hpop|]. cbv beta. intros cc1 (s1 & m1 & -> & R1 & K1 & L1).
  set (cc1 := put_list cc s1 l0). assert (HT1 : tree_at m1 (lroot cc1) T).
  { apply (tree_at_same m); [|done]. intros a [] _; apply K1. }
  cstep. eapply ok_mono.
  { apply (remove_node_ok (cc:=cc1) R1 T (inv_tree_slots HI) (inv_tree_nodup HI) HT1 (inv_fuel HI) HS x).
    rewrite HP. set_solver. }
  cbv beta. intros cc2 (T' & l1 & l2 & (s2 & m2 & root & -> & R2 & SL & HT2) & E1 & E2). cstep.
  assert (HP' : inorder T' ≡ₚ l0).
  { rewrite E2. apply (Permutation_cons_inv (a := x)). rewrite Permutation_middle, <- E1, HP. solve_Permutation. }
  exists m2, T', l0. split; [|split; [done|]].
  - split; try done.
    + rewrite E1 in HS. rewrite E2. by eapply sorted_remove.
    + split; [done..|]. apply (linked_ext m1); [|done]. intros a _. apply SL.
    + rewrite length_app in HSl. cbn [app length] in *. rewrite Nat.add_1_r in HSl. rewrite <- HSl.
      apply (Permutation_app_comm [x]).
    + cbn. rewrite Hptr. rewrite length_app. cbn [length]. lia.
    + cbn. rewrite Hinit in *. done.
  - rewrite fmap_app, take_app_le, take_ge; [done|..]; rewrite length_fmap; unfold capacity;
      rewrite length_app in Hptr; cbn [length] in Hptr; unfold LRU_ENTRY_LEN in *; zn.
Qed.

Lemma lru_room_ok : LRU_ENTRY_LEN <= store_len cc ->
  ok (lru_room cc) (fun '(cc', x) => room_post x cc').
Proof.
  intros Hlen. pose proof HI as [HR HT HS HL HP HSl Hptr Hmax HKl HK]. cbn [app] in *.
  unfold lru_room. apply ok_cond; intros E.
  - apply Z.ltb_lt in E. by apply evict_ok.
  - apply Z.ltb_ge in E. cbv zeta. cstep. pose proof (rep_max _ _ _ _ HR).
    rewrite u32_small by (unfold word, LRU_ENTRY_LEN in *; lia).
    exists m, T, l. split; [|split; [done|]].
    + split; try done.
      * by destruct HL.
      * cbn [app length]. rewrite slots_S, Hptr. etransitivity; [apply (Permutation_app_comm [_])|].
        by apply Permutation_app.
      * cbn. unfold LRU_ENTRY_LEN in *. lia.
      * cbn. lia.
    + rewrite take_ge; [done|]. rewrite length_fmap. unfold capacity, LRU_ENTRY_LEN in *. zn.
Qed.
End Room.

(** * A new entry *)

Lemma sorted_ext key key' l : (forall a, key' a = key a) -> sorted_by key l -> sorted_by key' l.
Proof.
  unfold sorted_by. intros HE. induction l as [|a l IH]; [constructor|]. rewrite !StronglySorted_cons.
  intros [HF HS]. split; [|by apply IH]. eapply Forall_impl; [exact HF|]. intros b Hb. by rewrite !HE.
Qed.

Lemma sorted_insert (d : Z -> entry) (e : entry) x l1 l2 :
  sorted_by (fun a => e_id (d a)) (l1 ++ l2) -> x ∉ l1 ++ l2 ->
  Forall (fun a => lex_lt (e_id (d a)) (e_id e)) l1 -> Forall (fun a => lex_lt (e_id e) (e_id (d a))) l2 ->
  sorted_by (fun a => e_id (<[x := e]> d a)) (l1 ++ x :: l2).
Proof.
  intros HS [Hx1 Hx2]%not_elem_of_app F1 F2. unfold sorted_by in *.
  assert (HE : forall a, a <> x -> <[x := e]> d a = d a) by (intros; by apply fn_lookup_insert_ne).
  rewrite StronglySorted_app in HS. destruct HS as (HC & S1 & S2).
  assert (HSame : forall l, x ∉ l -> StronglySorted (fun a b => lex_lt (e_id (d a)) (e_id (d b))) l ->
    StronglySorted (fun a b => lex_lt (e_id (<[x := e]> d a)) (e_id (<[x := e]> d b))) l).
  { induction l as [|b l IH]; [constructor|]. rewrite !StronglySorted_cons, !Forall_forall, not_elem_of_cons.
    intros [Hb Hl] [HF HSl]. split; [|by apply IH]. intros a Ha. rewrite !HE by set_solver. by apply HF. }
  rewrite Forall_forall in F1, F2.
  rewrite StronglySorted_app, StronglySorted_cons, Forall_forall. split; [|split; [by apply HSame|split; [|by apply HSame]]].
  - intros a b Ha [->|Hb]%elem_of_cons.
    + rewrite fn_lookup_insert, HE by set_solver. by apply F1.
    + rewrite !HE by set_solver. by apply HC.
  - intros b Hb. rewrite fn_lookup_insert, HE by set_solver. by apply F2.
Qed.

Lemma fmap_insert_out (d : Z -> entry) x e (l : list Z) : x ∉ l -> <[x := e]> d <$> l = d <$> l.
Proof. intros Hx. apply list_fmap_ext. intros i a Ha. apply fn_lookup_insert_ne. intros ->.
  by apply Hx, (list_elem_of_lookup_2 _ i). Qed.

(** A sequence of three computations and what follows it. *)
Lemma ok_seq3 {A B C D} (m : M A) (f : A -> M B) (g : B -> M C) (k : C -> M D) P Q :
  ok (x ← m; y ← f x; g y) P -> (forall z, P z -> ok (k z) Q) -> ok (x ← m; y ← f x; z ← g y; k z) Q.
Proof.
  intros H HQ. apply ok_bind. apply ok_bind' in H. eapply ok_mono; [exact H|]. cbv beta. intros x Hx.
  apply ok_bind. apply ok_bind' in Hx. eapply ok_mono; [exact Hx|]. cbv beta. intros y Hy.
  apply ok_bind. by eapply ok_mono.
Qed.

Section Add.
Context {cc : lru} {m : links} {d : Z -> entry} {T : tree} {l : list Z} {x : Z}.
Context (HI : lru_inv cc m d T l [x]) (Hinit : init_done cc = true).

Lemma add_ok id p : zlen id = 32 -> byte_string id -> params_ok p ->
  (forall a, a ∈ l -> e_id (d a) <> id) ->
  ok (cc ← lru_insert cc id x; cc ← lru_push cc x; lru_fill cc x id p) (fun cc' => exists m' d' T',
    lru_inv cc' m' d' T' (x :: l) [] /\ same_conf cc cc' /\
    d' <$> (x :: l) = entry_of id p :: (d <$> l)).
Proof.
  intros Hid HB Hp Hnew. pose proof HI as [HR HT HS HL HP HSl Hptr Hmax HKl HK].
  pose proof (inv_nodup HI) as Nl. pose proof (inv_slot HI x ltac:(set_solver)) as Sx.
  cbn [app] in *. pose proof Nl as [Hx _]%NoDup_cons.
  cstep. eapply ok_mono.
  { apply (lru_insert_ok HR T (inv_tree_slots HI) (inv_tree_nodup HI) HT (inv_fuel HI) HS id x Hid Sx).
    - by rewrite HP.
    - intros a Ha. rewrite HP in Ha. by apply Hnew. }
  cbv beta. intros cc1 (T' & l1 & l2 & (s1 & m1 & root & -> & R1 & SL & HT1) & E1 & E2 & F1 & F2).
  set (cc1 := with_root _ root).
  assert (HL1 : list_at cc1 m1 l).
  { destruct HL. split; [done..|]. apply (linked_ext m); [|done]. intros a _. apply SL. }
  cstep. eapply ok_mono; [apply (lru_push_ok (cc:=cc1) R1 l x HL1); [|done]|].
  { constructor; [done|]. apply (inv_l_slots HI). }
  cbv beta. intros cc2 (s2 & m2 & -> & R2 & K2 & L2). set (cc2 := put_list cc1 s2 _).
  eapply ok_mono; [by apply (lru_fill_ok _ cc2 m2 d x id p R2 Sx Hid HB Hp)|].
  cbv beta. intros cc3 (s3 & -> & R3). exists m2, (<[x := entry_of id p]> d), T'.
  split; [|split; [done|]].
  - split; try done.
    + apply (tree_at_same m1); [|done]. intros a [] _; apply K2.
    + rewrite E2. apply (sorted_insert d (entry_of id p)); try done.
      * by rewrite <- E1.
      * by rewrite <- E1, HP.
    + rewrite E2, <- Permutation_middle, <- E1. by f_equiv.
    + cbn. rewrite Hinit in *. done.
  - rewrite fmap_cons, fn_lookup_insert. f_equal. by apply fmap_insert_out.
Qed.
End Add.

(** * The abstract machine *)

Section Spec.
Context {HC : HashClass} {HS : HashSpec HC}.

(** The key of the index, once drawn, and the sessions. *)
Record cache := Cache { c_key : option (list Z); c_entries : list entry }.

(** A masked identifier: the first bytes are those of a HMAC. *)
Definition masked (K id : list Z) : list Z :=
  let n := Z.to_nat (hmac_len SESSION_ID_LEN) in take n (HMAC K id) ++ drop n id.

Definition lookup_id (id : list Z) (es : list entry) : option entry :=
  List.find (fun e => bool_decide (e_id e = id)) es.
Definition remove_id (id : list Z) (es : list entry) : list entry :=
  List.filter (fun e => negb (bool_decide (e_id e = id))) es.

(** The generator is the state of the HMAC_DRBG of SP 800-90A. *)
Definition sp_save (cap : nat) (c : cache) (g : list Z * list Z) (p : params) : cache * (list Z * list Z) :=
  if (cap =? 0)%nat then (c, g)
  else
    let '(K, g) := match c_key c with
                   | Some K => (K, g)
                   | None => let '(g, K) := sp_generate g 32 in (K, g)
                   end in
    let id := masked K (session_id p) in
    match lookup_id id (c_entries c) with
    | Some _ => (Cache (Some K) (c_entries c), g)
    | None => (Cache (Some K) (entry_of id p :: take (cap - 1) (c_entries c)), g)
    end.

Definition sp_load (c : cache) (p : params) : cache * params * Z :=
  match c_key c with
  | None => (c, p, 0)
  | Some K =>
      let id := masked K (session_id p) in
      match lookup_id id (c_entries c) with
      | None => (c, p, 0)
      | Some e =>
          if e_version e =? 0 then (c, p, 0)
          else (Cache (Some K) (e :: remove_id id (c_entries c)),
                Params (session_id p) (e_version e) (e_suite e) (e_secret e), 1)
      end
  end.

Definition sp_forget (c : cache) (id : list Z) : cache :=
  match c_key c with
  | None => c
  | Some K =>
      let id := masked K id in
      Cache (Some K) (map (fun e => if bool_decide (e_id e = id) then forgotten e else e) (c_entries c))
  end.

(** The store represents the sessions. *)
Record lru_rep (cc : lru) (c : cache) : Prop := LruRep {
  rep_key : c_key c = if init_done cc then Some (index_key cc) else None;
  rep_entries : exists m d T l, lru_inv cc m d T l [] /\ c_entries c = d <$> l
}.

(** * Masked identifiers *)

Lemma mask_id_ok cc id : zlen (index_key cc) = 32 -> byte_string (index_key cc) ->
  zlen id = 32 -> byte_string id ->
  ok (mask_id cc id (replicate 32 0)) (fun mid =>
    mid = masked (index_key cc) id /\ zlen mid = 32 /\ byte_string mid).
Proof.
  intros HKl HKb Hid HB. unfold mask_id, masked, SESSION_ID_LEN.
  pose proof (hmac_len_range 32) as Hr. set (k := hmac_len 32) in *.
  assert (Hk : k <= 32).
  { unfold k, hmac_len. cbn [andb Z.ltb]. case_match eqn:E; [done|]. apply Z.ltb_ge in E. done. }
  cstep. apply ok_memcpy; [done..|by rewrite Hid|].
  assert (E0 : blit (replicate 32 0) 0 id 0 32 = id).
  { rewrite <- (slice_all (blit _ _ _ _ _) 32), slice_blit_in, slice_all by (done || rewrite ?zlen_blit; done || lia).
    done. }
  rewrite E0. cstep. eapply ok_mono.
  { apply (hmac_key_init_ok auto_key (index_key cc) (zlen (index_key cc)) auto_key_shape); [lia|].
    by apply bytes_get. }
  cbv beta. intros kc R0. rewrite slice_all in R0 by done. cstep.
  eapply ok_mono; [apply (hmac_init_ok _ kc (index_key cc) 32 auto_hmac_shape R0)|]. cbv beta. intros hc R1.
  cstep. eapply ok_mono; [apply (hmac_update_ok hc _ _ [] id 0 32 R1); try lia|].
  { apply bytes_get in HB. by rewrite Hid in HB. }
  cbv beta. intros hc2 R2. rewrite (slice_all id) in R2 by done. cbn [app] in R2.
  cstep. eapply ok_mono; [apply (hmac_out_ok hc2 _ k id id 0 R2); lia|].
  intros [mid u] (_ & HF & HS'). cstep. pose proof (frame_len _ _ _ _ HF) as Hl.
  assert (E : mid = take (Z.to_nat k) (HMAC (index_key cc) id) ++ drop (Z.to_nat k) id).
  { pose proof (HMAC_len (index_key cc) id). apply (frame_is_blit id mid 0 k) in HS'; try done; try lia.
    - rewrite HS'. unfold blit. cbn [Z.to_nat]. rewrite take_0, drop_0, take_idemp. done.
    - rewrite length_take. lia. }
  split; [done|]. split; [lia|]. rewrite E. apply byte_string_app. split.
  - by apply Forall_take, HMAC_bytes.
  - by apply Forall_drop.
Qed.

(** * The operations *)

Lemma lookup_none id (d : Z -> entry) (l : list Z) : (forall b, b ∈ l -> e_id (d b) <> id) ->
  lookup_id id (d <$> l) = None.
Proof.
  unfold lookup_id. induction l as [|a l IH]; intros HF; [done|]. rewrite fmap_cons. cbn [List.find].
  rewrite bool_decide_false by (apply HF; set_solver). apply IH. set_solver.
Qed.

Lemma lookup_some a (d : Z -> entry) (l : list Z) : a ∈ l -> NoDup ((fun a => e_id (d a)) <$> l) ->
  lookup_id (e_id (d a)) (d <$> l) = Some (d a).
Proof.
  unfold lookup_id. induction l as [|b l IH]; [set_solver|]. rewrite !fmap_cons. cbn [List.find].
  intros Ha [Hb Hl]%NoDup_cons. case_bool_decide as E.
  - apply elem_of_cons in Ha as [->|Ha]; [done|]. destruct Hb. rewrite E. apply list_elem_of_fmap. by exists a.
  - apply elem_of_cons in Ha as [->|Ha]; [done|]. by apply IH.
Qed.

Lemma inv_with_key cc m d T l K : lru_inv cc m d T l [] -> zlen K = 32 -> byte_string K ->
  lru_inv (with_key cc K) m d T l [].
Proof. intros [HR HT HSo HL HP HSl Hp Hm HKl HK] ??. split; try done. by destruct HL. Qed.

(** The key of the index of the abstract machine. *)
Definition sp_key (c : cache) (g : list Z * list Z) : list Z * (list Z * list Z) :=
  match c_key c with
  | Some K => (K, g)
  | None => let '(g, K) := sp_generate g 32 in (K, g)
  end.

Lemma lru_start_ok cc c rng g m d T l : lru_inv cc m d T l [] ->
  c_key c = (if init_done cc then Some (index_key cc) else None) -> drbg_rep rng g ->
  ok (lru_start cc rng) (fun '(cc', rng') => lru_inv cc' m d T l [] /\ init_done cc' = true /\
    store_len cc' = store_len cc /\ sp_key c g = (index_key cc', (sp_key c g).2) /\
    drbg_rep rng' (sp_key c g).2).
Proof.
  intros HI Hc Hg. unfold lru_start, sp_key. rewrite Hc. destruct (init_done cc) eqn:E.
  - apply ok_cond; intros; [done|]. cstep. by rewrite E.
  - apply ok_cond; intros; [|done]. pose proof (inv_key_len _ _ _ _ _ _ HI) as HKl. rewrite HKl. cstep.
    eapply ok_mono; [by apply (drbg_generate_ok rng g (index_key cc) 0 32 Hg); [..|rewrite HKl]|].
    intros [rng' K] (HG & HF & HK). cstep. rewrite slice_all in HK by (by rewrite (frame_len _ _ _ _ HF)).
    destruct (sp_generate g 32) as [g' K'] eqn:EG. cbn [fst snd] in *. subst K'. split; [|done].
    apply inv_with_key; [done|by rewrite (frame_len _ _ _ _ HF)|].
    destruct g as [K0 V0]. injection EG as _ <-. apply Forall_take, sp_stream_bytes.
Qed.

Lemma lru_save_ok cc rng p c g : lru_rep cc c -> drbg_rep rng g -> params_ok p ->
  ok (lru_save cc rng p) (fun '(cc', rng') => store_len cc' = store_len cc /\
    lru_rep cc' (sp_save (capacity (store_len cc)) c g p).1 /\
    drbg_rep rng' (sp_save (capacity (store_len cc)) c g p).2).
Proof.
  intros HRep Hg Hp. destruct HRep as [Hk (m & d & T & l & HI & He)]. unfold lru_save, sp_save.
  fold (sp_key c g). set (cap := capacity (store_len cc)). apply ok_cond; intros E.
  { apply Z.ltb_lt in E. cstep. replace cap with 0%nat.
    - split; [done|]. split; [|done]. split; [done|]. eauto 6.
    - unfold cap, capacity, LRU_ENTRY_LEN in *. pose proof (rep_len _ _ _ _ (inv_rep _ _ _ _ _ _ HI)). zn. }
  apply Z.ltb_ge in E. replace (cap =? 0)%nat with false.
  2:{ symmetry. apply Nat.eqb_neq. unfold cap, capacity, LRU_ENTRY_LEN in *. zn. }
  cstep. eapply ok_mono; [by apply (lru_start_ok cc c rng g)|].
  intros [cc1 rng1] (I1 & Hi & Hl & EK & Hg1). rewrite EK. set (g1 := (sp_key c g).2) in *.
  pose proof (inv_key _ _ _ _ _ _ I1) as HKb. rewrite Hi in HKb. pose proof (inv_key_len _ _ _ _ _ _ I1) as HKl.
  cstep. eapply ok_mono; [apply (mask_id_ok cc1 (session_id p)); try done; apply Hp|].
  intros id (-> & Lid & Bid). set (id := masked _ _) in *.
  cstep. eapply ok_mono; [by apply (inv_find I1)|]. intros [a al] [[-> Hnew]|[Ha Eid]].
  - change (ADDR_NULL =? ADDR_NULL) with true. apply ok_cond; intros E1; [done|].
    rewrite He, (lookup_none id d l Hnew). cbn [fst snd]. cstep.
    eapply ok_mono; [apply (lru_room_ok I1 Hi); by rewrite Hl|]. intros [cc2 x] (m2 & T2 & l0 & I2 & C2 & E2).
    assert (Hnew2 : forall b, b ∈ l0 -> e_id (d b) <> id).
    { intros b Hb. assert (Hb2 : d b ∈ take (capacity (store_len cc1) - 1) (d <$> l)).
      { rewrite <- E2. by apply list_elem_of_fmap_2. }
      apply elem_of_take in Hb2 as (i & Hi2%list_elem_of_lookup_2 & _).
      apply list_elem_of_fmap in Hi2 as (b' & -> & Hb'). by apply Hnew. }
    assert (Hi2 : init_done cc2 = true) by (by rewrite (same_init _ _ C2)).
    eapply ok_seq3; [apply (add_ok I2 Hi2 id p Lid Bid Hp Hnew2)|]. cbv beta.
    intros cc3 (m3 & d3 & T3 & I3 & C3 & E3). cstep.
    split; [by rewrite (same_len _ _ C3), (same_len _ _ C2)|]. split; [|done]. split.
    + cbn [c_key]. by rewrite (same_init _ _ C3), Hi2, (same_key _ _ C3), (same_key _ _ C2).
    + exists m3, d3, T3, (x :: l0). split; [done|]. cbn [c_entries]. by rewrite E3, E2, Hl.
  - rewrite (inv_not_null I1 a Ha). apply ok_cond; intros E1; [|done]. cstep. cbn [fst snd].
    rewrite <- Eid, He, (lookup_some a d l Ha (inv_ids I1)). cbn [fst snd].
    split; [done|]. split; [|done]. split; [by cbn [c_key]; rewrite Hi|]. eauto 6.
Qed.

Lemma remove_found a (d : Z -> entry) (l1 l2 : list Z) :
  NoDup ((fun a => e_id (d a)) <$> (l1 ++ a :: l2)) ->
  remove_id (e_id (d a)) (d <$> (l1 ++ a :: l2)) = d <$> (l1 ++ l2).
Proof.
  rewrite fmap_app, fmap_cons, <- Permutation_middle, NoDup_cons, <- fmap_app. intros [Ha _].
  assert (HF : forall l : list Z, (forall b, b ∈ l -> e_id (d b) <> e_id (d a)) ->
    List.filter (fun e => negb (bool_decide (e_id e = e_id (d a)))) (d <$> l) = d <$> l).
  { induction l as [|b l IH]; intros HF; [done|]. rewrite fmap_cons. cbn [List.filter].
    rewrite bool_decide_false by (apply HF; set_solver). cbn [negb]. f_equal. apply IH. set_solver. }
  unfold remove_id. rewrite !fmap_app, List.filter_app, fmap_cons. cbn [List.filter].
  rewrite bool_decide_true by done. cbn [negb].
  rewrite !HF; [done|..]; intros b Hb E; apply Ha; rewrite <- E; apply list_elem_of_fmap; exists b; set_solver.
Qed.

(** The entry [x] becomes the head of the list. *)
Lemma touch_ok cc m d T l1 x l2 : lru_inv cc m d T (l1 ++ x :: l2) [] ->
  ok (If negb (x =? lhead cc) Then lru_move cc x Else mret cc) (fun cc' => exists m',
    lru_inv cc' m' d T (x :: l1 ++ l2) [] /\ same_conf cc cc').
Proof.
  intros HI. pose proof HI as [HR HT HSo HL HP HSl Hp Hm HKl HK].
  assert (Nl : NoDup (l1 ++ x :: l2)) by apply (inv_l_nodup HI).
  assert (PP : x :: l1 ++ l2 ≡ₚ l1 ++ x :: l2) by apply Permutation_middle.
  assert (Hlen : length (x :: l1 ++ l2) = length (l1 ++ x :: l2)) by by rewrite PP.
  destruct l1 as [|b l1].
  - assert (x = lhead cc) as E by by rewrite (at_head _ _ _ HL). rewrite <- E, Z.eqb_refl.
    apply ok_cond; intros E2; [done|]. cstep. exists m. split; [exact HI|done].
  - assert (x <> lhead cc) as E.
    { rewrite (at_head _ _ _ HL). cbn [app hd]. intros ->. cbn [app] in Nl. apply NoDup_cons in Nl as [Nl _]. set_solver. }
    rewrite (proj2 (Z.eqb_neq _ _) E). apply ok_cond; intros E2; [|done].
    eapply ok_mono; [by apply (lru_move_ok HR (b :: l1) x l2 HL (inv_l_slots HI) Nl)|]. cbv beta.
    intros cc' (s' & m' & -> & R' & K' & L'). exists m'. split; [|done]. split; try done.
    + apply (tree_at_same m); [|done]. intros a [] _; apply K'.
    + by rewrite HP, PP.
    + cbn [app] in *. by rewrite Hlen, <- HSl, <- PP.
    + cbn [app] in *. by rewrite Hlen.
    + cbn. destruct (init_done cc); [done|]. by destruct l1.
Qed.

(** What [lru_load] is given: an identifier, and room for a master secret. *)
Record query_ok (p : params) : Prop := QueryOk {
  q_id : zlen (session_id p) = 32;
  q_bytes : byte_string (session_id p);
  q_secret : zlen (master_secret p) = 48
}.

Lemma lru_load_ok cc p c : lru_rep cc c -> query_ok p ->
  ok (lru_load cc p) (fun '(cc', p', r) => store_len cc' = store_len cc /\
    lru_rep cc' (sp_load c p).1.1 /\ (p', r) = ((sp_load c p).1.2, (sp_load c p).2)).
Proof.
  intros HRep Hp. pose proof HRep as [Hk (m & d & T & l & HI & He)]. unfold lru_load, sp_load. rewrite Hk.
  destruct (init_done cc) eqn:Hi; [|apply ok_cond; intros; [|done]; by cstep].
  apply ok_cond; intros E0; [done|].
  pose proof (inv_key _ _ _ _ _ _ HI) as HKb. rewrite Hi in HKb. pose proof (inv_key_len _ _ _ _ _ _ HI) as HKl.
  cstep. eapply ok_mono; [apply (mask_id_ok cc (session_id p)); try done; apply Hp|].
  intros id (-> & Lid & Bid). set (id := masked _ _) in *.
  cstep. eapply ok_mono; [by apply (inv_find HI)|]. intros [a al] [[-> Hnew]|[Ha Eid]].
  { change (ADDR_NULL =? ADDR_NULL) with true. apply ok_cond; intros E1; [done|].
    rewrite He, (lookup_none id d l Hnew). by cstep. }
  rewrite (inv_not_null HI a Ha). apply ok_cond; intros E1; [|done].
  pose proof (inv_rep _ _ _ _ _ _ HI) as HR. pose proof (inv_slot HI a ltac:(set_solver)) as Sa.
  rewrite <- Eid, He, (lookup_some a d l Ha (inv_ids HI)).
  cstep. apply (dec_version_ok HR Sa). apply ok_cond; intros E2; rewrite E2; [by cstep|].
  cstep. apply (dec_suite_ok HR Sa). cstep. apply (read_secret_ok HR Sa); [apply Hp|].
  apply list_elem_of_split in Ha as (l1 & l2 & ->).
  cstep. eapply ok_mono; [by apply (touch_ok cc m d T l1 a l2)|]. cbv beta. intros cc' (m' & I' & C').
  cstep. split; [by apply C'|]. split; [|done]. cbn [fst snd]. split.
  - cbn [c_key]. by rewrite (same_init _ _ C'), Hi, (same_key _ _ C').
  - exists m', d, T, (a :: l1 ++ l2). split; [done|]. cbn [c_entries]. rewrite remove_found by apply (inv_ids HI).
    by rewrite fmap_cons.
Qed.

Lemma forget_map a (d : Z -> entry) (l : list Z) : NoDup l -> a ∈ l ->
  NoDup ((fun a => e_id (d a)) <$> l) ->
  map (fun e => if bool_decide (e_id e = e_id (d a)) then forgotten e else e) (d <$> l) =
  <[a := forgotten (d a)]> d <$> l.
Proof.
  intros Nl Ha ND. change (map ?f ?l) with (f <$> l). rewrite <- list_fmap_compose. apply list_fmap_ext.
  intros i b Hb. unfold compose. case_bool_decide as E.
  - assert (b = a) as ->; [|by rewrite fn_lookup_insert].
    apply list_elem_of_lookup in Ha as (j & Hj). assert (i = j) as ->; [|congruence].
    apply (NoDup_lookup _ _ _ (e_id (d a)) ND); rewrite list_lookup_fmap; [by rewrite Hb; cbn; rewrite E|by rewrite Hj].
  - rewrite fn_lookup_insert_ne; [done|]. by intros ->.
Qed.

Lemma lru_forget_rep cc id c : lru_rep cc c -> zlen id = 32 -> byte_string id ->
  ok (br_ssl_session_cache_lru_forget cc id) (fun cc' => store_len cc' = store_len cc /\
    lru_rep cc' (sp_forget c id)).
Proof.
  intros HRep Lid Bid. pose proof HRep as [Hk (m & d & T & l & HI & He)].
  unfold br_ssl_session_cache_lru_forget, sp_forget. rewrite Hk.
  destruct (init_done cc) eqn:Hi; [|apply ok_cond; intros; [|done]; by cstep].
  apply ok_cond; intros E0; [done|].
  pose proof (inv_key _ _ _ _ _ _ HI) as HKb. rewrite Hi in HKb. pose proof (inv_key_len _ _ _ _ _ _ HI) as HKl.
  cstep. eapply ok_mono; [by apply (mask_id_ok cc id)|].
  intros mid (-> & Lm & Bm). set (mid := masked _ _) in *.
  cstep. eapply ok_mono; [by apply (inv_find HI)|]. intros [a al] [[-> Hnew]|[Ha Eid]].
  - change (ADDR_NULL =? ADDR_NULL) with true. apply ok_cond; intros E1; [done|]. cstep.
    split; [done|]. split; [by cbn; rewrite Hi|]. exists m, d, T, l. split; [done|]. cbn [c_entries]. rewrite He.
    change (map ?f ?l) with (f <$> l). rewrite <- list_fmap_compose. apply list_fmap_ext. intros i b Hb. unfold compose.
    rewrite bool_decide_false; [done|]. apply Hnew. by apply (list_elem_of_lookup_2 _ i).
  - rewrite (inv_not_null HI a Ha). apply ok_cond; intros E1; [|done].
    pose proof (inv_slot HI a ltac:(set_solver)) as Sa. pose proof (inv_rep _ _ _ _ _ _ HI) as HR.
    cstep. eapply ok_mono; [by apply (lru_forget_ok _ cc m d a HR Sa)|]. cbv beta. intros s' R'. cstep.
    split; [done|]. split; [by cbn; rewrite Hi|]. exists m, (<[a := forgotten (d a)]> d), T, l. split.
    + pose proof HI as [_ HT HSo HL HP HSl Hp Hm _ HK]. split; try done; [|by destruct HL].
      assert (Hid : forall b, e_id (<[a := forgotten (d a)]> d b) = e_id (d b)).
      { intros b. destruct (decide (a = b)) as [->|Hne]; [by rewrite fn_lookup_insert|by rewrite fn_lookup_insert_ne]. }
      by apply (sorted_ext (fun a => e_id (d a))).
    + cbn [c_entries]. rewrite He, <- Eid. apply forget_map; [apply (inv_l_nodup HI)|done|apply (inv_ids HI)].
Qed.

(** * Sequences of operations *)

Inductive lru_call := Save (p : params) | Load (p : params) | Forget (id : list Z).

Definition call_ok (o : lru_call) : Prop :=
  match o with
  | Save p => params_ok p
  | Load p => query_ok p
  | Forget id => zlen id = 32 /\ byte_string id
  end.

(** A server makes one call after the other; its answers are those of [Load]. *)
Definition lru_step (cc : lru) (rng : drbg_ctx) (o : lru_call) : M (lru * drbg_ctx * option (params * Z)) :=
  match o with
  | Save p => '(cc, rng) ← lru_save cc rng p; mret (cc, rng, None)
  | Load p => '(cc, p, r) ← lru_load cc p; mret (cc, rng, Some (p, r))
  | Forget id => cc ← br_ssl_session_cache_lru_forget cc id; mret (cc, rng, None)
  end.
Fixpoint lru_run (cc : lru) (rng : drbg_ctx) (os : list lru_call) : M (lru * drbg_ctx * list (option (params * Z))) :=
  match os with
  | [] => mret (cc, rng, [])
  | o :: os =>
      '(cc, rng, r) ← lru_step cc rng o;
      '(cc, rng, rs) ← lru_run cc rng os;
      mret (cc, rng, r :: rs)
  end.

Definition sp_step (cap : nat) (c : cache) (g : list Z * list Z) (o : lru_call)
    : cache * (list Z * list Z) * option (params * Z) :=
  match o with
  | Save p => (sp_save cap c g p, None)
  | Load p => let '(c, p, r) := sp_load c p in (c, g, Some (p, r))
  | Forget id => (sp_forget c id, g, None)
  end.
Fixpoint sp_lru_run (cap : nat) (c : cache) (g : list Z * list Z) (os : list lru_call)
    : cache * (list Z * list Z) * list (option (params * Z)) :=
  match os with
  | [] => (c, g, [])
  | o :: os =>
      let '(c, g, r) := sp_step cap c g o in
      let '(c, g, rs) := sp_lru_run cap c g os in
      (c, g, r :: rs)
  end.

Lemma lru_step_ok cc rng o c g : lru_rep cc c -> drbg_rep rng g -> call_ok o ->
  ok (lru_step cc rng o) (fun '(cc', rng', r) => store_len cc' = store_len cc /\
    exists c' g', sp_step (capacity (store_len cc)) c g o = (c', g', r) /\ lru_rep cc' c' /\ drbg_rep rng' g').
Proof.
  intros HRep Hg Ho. destruct o as [p|p|id]; cbn [lru_step sp_step call_ok] in *; cstep.
  - eapply ok_mono; [by apply (lru_save_ok cc rng p c g)|]. intros [cc' rng'] (Hl & HR & HG). cstep.
    split; [done|]. destruct (sp_save _ c g p) as [c' g']. by exists c', g'.
  - eapply ok_mono; [by apply (lru_load_ok cc p c)|]. intros [[cc' p'] r] (Hl & HR & E). cstep.
    split; [done|]. destruct (sp_load c p) as [[c' p2] r2]. cbn in *. injection E as -> ->. by exists c', g.
  - eapply ok_mono; [by apply (lru_forget_rep cc id c); destruct Ho|]. cbv beta. intros cc' (Hl & HR). cstep.
    split; [done|]. by exists (sp_forget c id), g.
Qed.

Lemma lru_run_ok os : forall cc rng c g, lru_rep cc c -> drbg_rep rng g -> Forall call_ok os ->
  ok (lru_run cc rng os) (fun '(cc', rng', rs) =>
    exists c' g', sp_lru_run (capacity (store_len cc)) c g os = (c', g', rs) /\ lru_rep cc' c' /\ drbg_rep rng' g').
Proof.
  induction os as [|o os IH]; intros cc rng c g HR Hg HF; cbn [lru_run sp_lru_run].
  - cstep. by exists c, g.
  - apply Forall_cons in HF as [Ho HF]. cstep. eapply ok_mono; [by apply (lru_step_ok cc rng o c g)|].
    intros [[cc1 rng1] r] (Hl & c1 & g1 & E & HR1 & Hg1). cstep.
    eapply ok_mono; [by apply (IH cc1 rng1 c1 g1)|]. intros [[cc2 rng2] rs] (c2 & g2 & E2 & HR2 & Hg2). cstep.
    exists c2, g2. by rewrite E, <- Hl, E2.
Qed.

(** A fresh cache. *)
Lemma lru_init_rep cc store : zlen store < 2 ^ 32 -> byte_string store -> zlen (index_key cc) = 32 ->
  lru_rep (br_ssl_session_cache_lru_init cc store (zlen store)) (Cache None []).
Proof.
  intros Hl HB HK. split; [done|]. exists (link_at store), (entry_at store), Leaf, []. split; [|done].
  split; try done.
  - split; try done. by apply bytes_get.
  - constructor.
  - cbn. lia.
Qed.

(** [C30] For every hash function of the interface and every store of less than
    [2^32] bytes, the calls [lru_save], [lru_load] and
    [br_ssl_session_cache_lru_forget] on a cache that was just initialised, in
    any order, terminate inside the store and give the answers of a list of
    [store_len / 100] sessions at most, the most recently used first: [save]
    puts a session in front unless its masked identifier is there, and drops the
    last one when the list is full; [load] answers with the session that has the
    identifier, unless it was forgotten, and puts it in front; [forget] disables
    it.  The masking key comes from the HMAC_DRBG of the server, on the first
    [save]. *)
Theorem lru_refines cc store rng g os :
  zlen store < 2 ^ 32 -> byte_string store -> zlen (index_key cc) = 32 -> drbg_rep rng g ->
  Forall call_ok os ->
  ok (lru_run (br_ssl_session_cache_lru_init cc store (zlen store)) rng os) (fun '(_, _, rs) =>
    rs = (sp_lru_run (capacity (zlen store)) (Cache None []) g os).2).
Proof.
  intros Hl HB HK Hg HF. eapply ok_mono; [by apply lru_run_ok; [apply lru_init_rep|..]|].
  intros [[cc' rng'] rs] (c' & g' & E & _). cbn [store_len br_ssl_session_cache_lru_init] in E. by rewrite E.
Qed.

Lemma sp_step_key cap c g o c' g' r K : sp_step cap c g o = (c', g', r) -> c_key c = Some K -> c_key c' = Some K.
Proof.
  destruct o as [p|p|id]; cbn [sp_step]; intros E Hk.
  - unfold sp_save in E. rewrite Hk in E. repeat case_match; by injection E as <- _ _.
  - unfold sp_load in E. rewrite Hk in E. repeat case_match; by simplify_eq.
  - unfold sp_forget in E. rewrite Hk in E. by injection E as <- _ _.
Qed.

(** The invariant of a cache in use: the links of the store form a search tree
    and a doubly linked list of the same entries, which are the first ones of the
    store, with the identifiers sorted and the head and the tail at its ends. *)
Definition lru_wf (cc : lru) : Prop := exists m d T l, lru_inv cc m d T l [].

(** [C31] Each call of the cache keeps the invariant [lru_wf], whatever the
    generator of the server and the sessions it is given, in a store of any
    length, and leaves the length of the store and, once drawn, the masking key
    alone. *)
Theorem lru_step_invariant cc rng g o :
  lru_wf cc -> drbg_rep rng g -> call_ok o ->
  ok (lru_step cc rng o) (fun '(cc', rng', _) => lru_wf cc' /\ (exists g', drbg_rep rng' g') /\
    store_len cc' = store_len cc /\ (init_done cc = true -> init_done cc' = true /\ index_key cc' = index_key cc)).
Proof.
  intros (m & d & T & l & HI) Hg Ho.
  assert (HR : lru_rep cc (Cache (if init_done cc then Some (index_key cc) else None) (d <$> l))).
  { split; [done|]. by exists m, d, T, l. }
  eapply ok_mono; [by apply (lru_step_ok cc rng o _ g HR)|]. intros [[cc' rng'] r] (Hl & c' & g' & E & [Hk' HR'] & Hg').
  destruct HR' as (m' & d' & T' & l' & HI' & _). split; [by exists m', d', T', l'|]. split; [by exists g'|].
  split; [done|]. intros Hi. rewrite Hi in E. apply sp_step_key with (K := index_key cc) in E; [|done].
  rewrite E in Hk'. destruct (init_done cc'); [|done]. by injection Hk' as ->.
Qed.

(** * Sessions are kept *)

(** The session [e] is in the cache, after at most [k] others. *)
Definition kept (K : list Z) (e : entry) (k : nat) (c : cache) : Prop :=
  c_key c = Some K /\ exists es1 es2, c_entries c = es1 ++ e :: es2 /\ (length es1 <= k)%nat /\
    Forall (fun e' => e_id e' <> e_id e) es1.

Lemma lookup_kept e es1 es2 : Forall (fun e' => e_id e' <> e_id e) es1 ->
  lookup_id (e_id e) (es1 ++ e :: es2) = Some e.
Proof.
  unfold lookup_id. induction es1 as [|e1 es1 IH]; cbn [app List.find].
  - by rewrite bool_decide_true.
  - intros [H1 H2]%Forall_cons. rewrite bool_decide_false by done. by apply IH.
Qed.

Lemma lookup_id_id id es e : lookup_id id es = Some e -> e_id e = id.
Proof. unfold lookup_id. intros [_ H]%find_some. by apply bool_decide_eq_true in H. Qed.

Lemma remove_other id es1 e es2 : e_id e <> id ->
  remove_id id (es1 ++ e :: es2) = remove_id id es1 ++ e :: remove_id id es2.
Proof.
  intros He. unfold remove_id. rewrite List.filter_app. cbn [List.filter]. by rewrite bool_decide_false by done.
Qed.

Lemma remove_length id es : (length (remove_id id es) <= length es)%nat.
Proof. apply List.filter_length_le. Qed.

Lemma remove_forall (P : entry -> Prop) id es : Forall P es -> Forall P (remove_id id es).
Proof.
  rewrite !List.Forall_forall. intros HF e [He _]%List.filter_In. by apply HF.
Qed.

Section Kept.
Context (K : list Z) (e : entry) (He : e_version e <> 0) (cap : nat).

Lemma save_kept k c g p : kept K e k c -> (S k < cap)%nat -> kept K e (S k) (sp_save cap c g p).1.
Proof.
  intros (Hk & es1 & es2 & Ee & Hl & HF) Hc. unfold sp_save. rewrite (proj2 (Nat.eqb_neq cap 0)), Hk by lia.
  set (id := masked _ _). destruct (lookup_id id _) as [e'|] eqn:E; cbn [fst].
  - split; [done|]. exists es1, es2. split; [done|]. split; [lia|done].
  - split; [done|]. exists (entry_of id p :: es1), (take (cap - 1 - S (length es1)) es2). cbn [c_entries app length].
    rewrite Ee, take_app_ge by lia. split; [|split; [lia|]].
    + by replace (cap - 1 - length es1)%nat with (S (cap - 1 - S (length es1))) by lia.
    + constructor; [|done]. cbn [e_id entry_of]. intros Eid. rewrite Ee, Eid, lookup_kept in E by done. done.
Qed.

Lemma load_kept k c p : kept K e k c -> kept K e (S k) (sp_load c p).1.1.
Proof.
  intros HK. assert (HK' : kept K e (S k) c).
  { destruct HK as (Hk & es1 & es2 & Ee & Hl & HF). split; [done|]. exists es1, es2. split; [done|]. split; [lia|done]. }
  destruct HK as (Hk & es1 & es2 & Ee & Hl & HF). unfold sp_load. rewrite Hk. set (id := masked _ _).
  destruct (lookup_id id _) as [e'|] eqn:E; [|done]. pose proof (lookup_id_id _ _ _ E) as Eid.
  destruct (Z.eqb_spec (e_version e') 0); [done|]. cbn [fst]. split; [done|]. cbn [c_entries].
  destruct (decide (id = e_id e)) as [Ei|Hne].
  - rewrite Ei, Ee, lookup_kept in E by done. injection E as <-. exists [], (remove_id id (c_entries c)).
    split; [done|]. split; [cbn; lia|done].
  - exists (e' :: remove_id id es1), (remove_id id es2). rewrite Ee, remove_other by done. split; [done|].
    pose proof (remove_length id es1). split; [cbn; lia|]. constructor; [by rewrite Eid|]. by apply remove_forall.
Qed.

Lemma forget_kept k c id : kept K e k c -> masked K id <> e_id e -> kept K e (S k) (sp_forget c id).
Proof.
  intros (Hk & es1 & es2 & Ee & Hl & HF) Hid. unfold sp_forget. rewrite Hk. split; [done|]. cbn [c_entries].
  eexists (map _ es1), (map _ es2). rewrite Ee, map_app. cbn [map]. rewrite bool_decide_false by done.
  split; [reflexivity|]. rewrite length_map. split; [lia|]. apply Forall_map. eapply Forall_impl; [exact HF|].
  intros e' He'. case_bool_decide; done.
Qed.

Definition not_forgotten (o : lru_call) : Prop :=
  match o with Forget id => masked K id <> e_id e | _ => True end.

Lemma run_kept os : forall k c g, kept K e k c -> (k + length os < cap)%nat -> Forall not_forgotten os ->
  kept K e (k + length os) (sp_lru_run cap c g os).1.1.
Proof.
  induction os as [|o os IH]; intros k c g HK Hc HF; cbn [sp_lru_run length] in *; [by rewrite Nat.add_0_r|].
  apply Forall_cons in HF as [Ho HF]. destruct (sp_step cap c g o) as [[c1 g1] r] eqn:E.
  assert (H1 : kept K e (S k) c1).
  { destruct o as [p|p|id]; cbn [sp_step not_forgotten] in *.
    - pose proof (save_kept k c g p HK ltac:(lia)) as H. destruct (sp_save cap c g p). by injection E as -> _ _.
    - pose proof (load_kept k c p HK) as H. destruct (sp_load c p) as [[? ?] ?]. by injection E as -> _ _.
    - pose proof (forget_kept k c id HK Ho) as H. by injection E as <- _ _. }
  pose proof (IH (S k) c1 g1 H1 ltac:(lia) HF) as H2. destruct (sp_lru_run cap c1 g1 os) as [[c2 g2] rs].
  cbn [fst] in *. by replace (k + S (length os))%nat with (S k + length os)%nat by lia.
Qed.
End Kept.

Lemma sp_lru_run_app cap os1 os2 : forall c g,
  sp_lru_run cap c g (os1 ++ os2) =
    let '(c, g, rs1) := sp_lru_run cap c g os1 in
    let '(c, g, rs2) := sp_lru_run cap c g os2 in (c, g, rs1 ++ rs2).
Proof.
  induction os1 as [|o os1 IH]; intros c g; cbn [app sp_lru_run].
  - by destruct (sp_lru_run cap c g os2) as [[? ?] ?].
  - destruct (sp_step cap c g o) as [[c1 g1] r]. rewrite IH.
    destruct (sp_lru_run cap c1 g1 os1) as [[c2 g2] rs1].
    by destruct (sp_lru_run cap c2 g2 os2) as [[c3 g3] rs2].
Qed.

Lemma sp_retains cap c g K p os q : c_key c = Some K -> version p <> 0 ->
  lookup_id (masked K (session_id p)) (c_entries c) = None -> (length os < cap)%nat ->
  Forall (not_forgotten K (entry_of (masked K (session_id p)) p)) os -> session_id q = session_id p ->
  last (sp_lru_run cap c g (Save p :: os ++ [Load q])).2 =
    Some (Some (Params (session_id p) (version p) (cipher_suite p) (master_secret p), 1)).
Proof.
  intros Hk Hv Hnew Hlen HF Hq. cbn [sp_lru_run sp_step]. unfold sp_save.
  rewrite (proj2 (Nat.eqb_neq cap 0)), Hk, Hnew by lia.
  set (id := masked K (session_id p)) in *. set (c1 := Cache _ _).
  assert (HK : kept K (entry_of id p) 0 c1).
  { split; [done|]. exists [], (take (cap - 1) (c_entries c)). done. }
  pose proof (run_kept K (entry_of id p) Hv cap os 0 c1 g HK ltac:(lia) HF) as HK'. rewrite sp_lru_run_app.
  destruct (sp_lru_run cap c1 g os) as [[c2 g2] rs]. cbn [fst] in HK'.
  destruct HK' as (Hk2 & es1 & es2 & Ee & _ & HF2). cbn [sp_lru_run sp_step]. unfold sp_load. rewrite Hk2, Hq.
  fold id. rewrite Ee. change id with (e_id (entry_of id p)) at 1. rewrite lookup_kept by done.
  cbn [e_version entry_of]. rewrite (proj2 (Z.eqb_neq _ _)) by done. cbn [snd].
  by rewrite app_comm_cons, last_snoc.
Qed.

(** [C32] A session that is saved in a cache in use, under an identifier that
    the cache does not have, is found by a [load] of the same identifier as long
    as fewer than [store_len / 100] other calls come in between and none of them
    is a [forget] of the identifier: [load] returns 1 with the version, the
    cipher suite and the master secret that were saved. *)
Theorem lru_retains cc rng c g K p os q :
  lru_rep cc c -> drbg_rep rng g -> c_key c = Some K -> params_ok p -> version p <> 0 ->
  lookup_id (masked K (session_id p)) (c_entries c) = None ->
  Forall call_ok os -> (length os < capacity (store_len cc))%nat ->
  Forall (not_forgotten K (entry_of (masked K (session_id p)) p)) os ->
  query_ok q -> session_id q = session_id p ->
  ok (lru_run cc rng (Save p :: os ++ [Load q])) (fun '(_, _, rs) =>
    last rs = Some (Some (Params (session_id p) (version p) (cipher_suite p) (master_secret p), 1))).
Proof.
  intros HR Hg Hk Hp Hv Hnew HF Hlen HN Hq Hid. eapply ok_mono; [apply (lru_run_ok _ cc rng c g HR Hg)|].
  - constructor; [done|]. apply Forall_app. split; [done|]. by constructor.
  - intros [[cc' rng'] rs] (c' & g' & E & _).
    pose proof (sp_retains (capacity (store_len cc)) c g K p os q Hk Hv Hnew Hlen HN Hid) as H. by rewrite E in H.
Qed.
End Spec.

(** [C33] The search of the tree ends after at most one turn more than there
    are sessions in the cache, and gives the address of the entry that has the
    identifier, or [ADDR_NULL] when no entry of the list has it. *)
Theorem find_loop_terminates cc m d T l id :
  lru_inv cc m d T l [] -> zlen id = 32 ->
  ok (find_loop (S (length l)) cc id (lroot cc) ADDR_NULL) (fun '(a, _) =>
    (a = ADDR_NULL /\ forall b, b ∈ l -> e_id (d b) <> id) \/ (a ∈ l /\ e_id (d a) = id)).
Proof.
  intros HI Hid. eapply ok_mono; [apply (find_loop_ok (inv_rep _ _ _ _ _ _ HI) T (inv_tree_slots HI) id Hid
    (inv_sorted _ _ _ _ _ _ HI) _ [] T); try done|].
  - split; [done|]. split; [done|]. apply HI.
  - pose proof (height_length T). rewrite (inv_perm _ _ _ _ _ _ HI) in H. lia.
  - intros [a al] (c & t & _ & HP & HL). by apply (inv_found HI id c t).
Qed.

(** * Witnesses *)

Definition test_cc : lru := Lru [] 0 0 (replicate 32 9) false 0 0 0.
Definition test_rng : drbg_ctx := DrbgCtx (replicate 64 1) (replicate 64 2).
Definition test_params (x : Z) : params := Params (replicate 32 x) 0x303 (0xC000 + x) (replicate 48 (x + 1)).

Lemma test_rng_rep : drbg_rep (HC := br_sha256_class) test_rng (replicate 32 1, replicate 32 2).
Proof. split; split; try done; by apply Forall_replicate. Qed.

Lemma test_params_ok x : 0 <= x < 16 -> params_ok (test_params x).
Proof.
  intros Hx. split; cbn [test_params session_id version cipher_suite master_secret]; try done.
  - apply Forall_replicate. unfold word. lia.
  - unfold word. lia.
  - apply Forall_replicate. unfold word. lia.
Qed.

(** Two entries: saving a third session drops the least recently used one. *)
Example lru_run_example :
  match lru_run (HC := br_sha256_class)
    (br_ssl_session_cache_lru_init test_cc (replicate 250 7) 250) test_rng
    [Save (test_params 1); Save (test_params 2); Load (test_params 1); Save (test_params 3);
     Load (test_params 2); Load (test_params 1); Forget (session_id (test_params 1)); Load (test_params 1)] with
  | Some (_, (_, _, rs)) => rs = [None; None; Some (test_params 1, 1); None;
      Some (test_params 2, 0); Some (test_params 1, 1); None; Some (test_params 1, 0)]
  | None => False
  end.
Proof. vm_compute. reflexivity. Qed.

Lemma lru_refines_witness :
  let os := [Save (test_params 1); Load (test_params 1); Save (test_params 2); Save (test_params 3);
             Forget (session_id (test_params 3)); Load (test_params 3)] in
  ok (lru_run (HC := br_sha256_class)
        (br_ssl_session_cache_lru_init test_cc (replicate 250 7) (zlen (replicate 250 7))) test_rng os)
    (fun '(_, _, rs) => rs =
      (sp_lru_run (HS := br_sha256_spec) 2 (Cache None []) (replicate 32 1, replicate 32 2) os).2).
Proof.
  apply (lru_refines (HS := br_sha256_spec) test_cc (replicate 250 7) test_rng (replicate 32 1, replicate 32 2));
    [done|by apply Forall_replicate|done|apply test_rng_rep|].
  repeat constructor; try done; cbn; lia.
Defined.

Lemma lru_step_invariant_witness :
  ok (lru_step (HC := br_sha256_class)
        (br_ssl_session_cache_lru_init test_cc (replicate 250 7) 250) test_rng (Save (test_params 1)))
    (fun '(cc', rng', _) => lru_wf cc' /\ (exists g', drbg_rep (HC := br_sha256_class) rng' g') /\
      store_len cc' = 250 /\ (false = true -> init_done cc' = true /\ index_key cc' = replicate 32 9)).
Proof.
  apply (lru_step_invariant (HS := br_sha256_spec)) with (g := (replicate 32 1, replicate 32 2)).
  - destruct (lru_init_rep test_cc (replicate 250 7)) as [_ (m & d & T & l & HI & _)];
      [done|by apply Forall_replicate|done|]. by exists m, d, T, l.
  - apply test_rng_rep.
  - by apply test_params_ok.
Defined.

(** A cache whose key is drawn. *)
Definition keyed_cc : lru := with_key (br_ssl_session_cache_lru_init test_cc (replicate 450 7) 450) (replicate 32 5).

Lemma keyed_rep : lru_rep keyed_cc (Cache (Some (replicate 32 5)) []).
Proof.
  destruct (lru_init_rep test_cc (replicate 450 7)) as [_ (m & d & T & l & HI & E)];
    [done|by apply Forall_replicate|done|].
  destruct l; [|done]. split; [done|]. exists m, d, T, []. split; [|done].
  apply inv_with_key; [done..|]. by apply Forall_replicate.
Qed.

Lemma lru_retains_witness :
  ok (lru_run (HC := br_sha256_class) keyed_cc test_rng
        (Save (test_params 1) :: [Save (test_params 2); Load (test_params 3)] ++ [Load (test_params 1)]))
    (fun '(_, _, rs) => last rs = Some (Some (test_params 1, 1))).
Proof.
  apply (lru_retains (HS := br_sha256_spec) keyed_cc test_rng _ (replicate 32 1, replicate 32 2)
    (replicate 32 5) (test_params 1) [Save (test_params 2); Load (test_params 3)] (test_params 1) keyed_rep);
    [apply test_rng_rep|done|by apply test_params_ok|done|done| |vm_compute; lia|by repeat constructor| |done].
  - constructor; [by apply test_params_ok|]. constructor; [|done]. split; [done|by apply Forall_replicate|done].
  - split; [done|by apply Forall_replicate|done].
Defined.

(** A cache with a session. *)
Definition saved_cc : lru :=
  match lru_save (HC := br_sha256_class) keyed_cc test_rng (test_params 1) with
  | Some (_, (cc, _)) => cc
  | None => keyed_cc
  end.

Lemma saved_inv : exists m d T a, lru_inv saved_cc m d T [a] [].
Proof.
  pose proof (lru_save_ok (HS := br_sha256_spec) keyed_cc test_rng (test_params 1) _
    (replicate 32 1, replicate 32 2) keyed_rep test_rng_rep ltac:(by apply test_params_ok)) as H.
  unfold saved_cc. destruct (lru_save keyed_cc test_rng (test_params 1)) as [[t [cc rng]]|]; [|done].
  destruct H as (_ & [_ (m & d & T & l & HI & E)] & _).
  change (c_entries _) with [entry_of (masked (HS := br_sha256_spec) (replicate 32 5) (replicate 32 1)) (test_params 1)] in E.
  destruct l as [|a [|b l]]; [done| |done]. by exists m, d, T, a.
Qed.

Lemma find_loop_terminates_witness : exists m d T a, lru_inv saved_cc m d T [a] [] /\
  ok (find_loop 2 saved_cc (replicate 32 1) (lroot saved_cc) ADDR_NULL) (fun '(x, _) =>
    (x = ADDR_NULL /\ forall b, b ∈ [a] -> e_id (d b) <> replicate 32 1) \/
    (x ∈ [a] /\ e_id (d x) = replicate 32 1)).
Proof.
  destruct saved_inv as (m & d & T & a & HI). exists m, d, T, a. split; [exact HI|].
  by apply (find_loop_terminates saved_cc m d T [a]).
Defined.
